(* ===== verification/_CoqProject ===== *)
-Q . S2P
Prelude.v
JsText.v
JsValue.v
Uri.v
UpdatePackage.v
ChunkedUpload.v
Availability.v
I18nUtil.v
I18n.v
ResponseErrors.v
DatabaseDsn.v
PasswordStrength.v
I18nCatalog.v
Fido.v
LoginRoute.v
Mfa.v
Registration.v
UserProfiles.v
Captcha.v
Legal.v
Cookies.v
Formats.v
Auth.v
Shell.v
Sorting.v
BrowserUtils.v
Upload.v
Browser.v
Suggestions.v
Messages.v
Composer.v
Settings.v
Proxies.v
Cargo.v
Search.v
Dialogs.v
ApiTokens.v
Repositories.v
Quota.v
Tickets.v
TicketCenter.v
Snippets.v
WebI18n.v
Pagination.v
CustomSelect.v
Markdown.v
Router.v
Official.v
