(* ===== verification/Prelude.v ===== *)
(** * RenoP's browser programs: a verification library (root file)

    RenoP is a self-hosted repository server for Maven, Cargo, Docker, npm and plain
    files. Its server is written in Go; this library is about its JavaScript: the
    interface the server delivers ([internal/service/frontend/renop-html/js], below
    "the interface"), the project's web site ([web/js], "the site"), and the widgets
    both use ([packages/renop-ui/js]). It models the parts whose behaviour is more
    than layout: transfers, state machines that run while promises are pending,
    security checks of data from outside, parsers and formatters. Each model follows
    its source function by function under the same names, and is executable, so
    that the examples in the files are runs of the code's own steps.

    ** How the program works

    The interface is a single page. A shell chooses the page of a location for the session there is
    ([Shell], over the sessions and permissions of [Auth]). Its requests go through [captchaFetch], which may have to
    obtain an approval first ([Captcha]); failures become messages in the user's language
    ([ResponseErrors], on top of [I18n] and [I18nUtil]); a monitor decides from failing requests
    whether the server is gone and covers the page meanwhile ([Availability]). Signing in takes the user
    back to a page of the site only ([LoginRoute]), possibly by a passkey whose prompt is bounded
    ([Fido]) or with a second factor ([Mfa]), after the policies are agreed to ([Legal]); accounts are created with
    a code sent by mail ([Registration]); profiles of users are cached and requested in batches ([UserProfiles]).
    The browser of directories ([Browser], [Sorting], [BrowserUtils]) shows one directory at a time, large uploads go
    through a dialog ([Upload]) in chunks over a pool of connections with retries ([ChunkedUpload]). The forms parse and
    print database addresses ([DatabaseDsn]), rate passwords ([PasswordStrength]) and create repositories of the
    known formats ([Formats]), whose configuration the browser shows ([Snippets]). Users have a centre of messages
    ([Messages]), which administrators write ([Composer], [Suggestions]); the settings keep a draft per page ([Settings], [Proxies]). The packages
    of a registry have pages of their own ([Cargo]), and every repository a search ([Search]). Questions, forms and modals are
    elements that share a life cycle ([Dialogs]). Tokens of an account are limited to scopes and targets ([ApiTokens]), and the settings of the repositories are saved as they are changed
    ([Repositories]), as are the limits of publications ([Quota]). Feedback, reports and reviews are
    tickets that the server leads through a workflow ([Tickets], [TicketCenter]). The message catalogs of the twelve languages are checked and completed by a build script ([I18nCatalog]).

    The site shows the documentation under anchors ([Markdown]) in one of five languages
    ([WebI18n]) through a router that renders one page at a time ([Router]); its download
    page picks the release for the visitor's platform ([Official]) and can rebuild an update
    package in a worker: download in ranges, check, decompress, repack ([UpdatePackage]).

    ** Files, and what their theorems show

    - [Prelude]: results of code that throws, transition systems, [Promise.all], list and
      integer lemmas, the tactics ([bool_prop], [split_code], [split_if], [crush_code]).
    - [JsText], [JsValue], [Uri]: strings, dynamic values and objects (with what every object
      inherits), percent encoding with its round trip.
    - [UpdatePackage] (web/js/lib/update-package.js, lib/brotli-zip.js,
      workers/update-package-worker.js): the ranges tile the file; the parts come back in order
      whatever order they arrive in; a response is read whole, with progress, or refused; the
      worker relays the messages of its library; a package is only converted after its digest and
      size were those announced.
    - [ChunkedUpload] (interface, chunked-upload.js): the transfer as a transition system of
      events of several workers: the session is closed on every path, invariants of slots and counts,
      a measure that bounds every run, progress that follows the bytes sent.
    - [Availability] (interface, backend-availability.js): the overlay appears only after a
      confirmed failure, and a persistent failure is confirmed.
    - [I18nUtil], [I18n] (packages/renop-ui/js/i18n-util.js; interface, i18n.js): interpolation
      fills every placeholder once; the language asked for last wins whatever order catalogs load in;
      the queue of subtrees to translate covers what was queued; errors of the server are
      only shown through the registry; aliases resolve to the offered languages.
    - [ResponseErrors] (interface, response-errors.js): a body is read up to 2048 bytes however it
      is chunked, and no text of the server reaches the user through a failed request: a text of the interface does, or a
      member of [Object.prototype] where the server names one.
    - [Captcha] (interface, captcha.js): approvals are bounded, belong to the present
      generation, and come only at the end of a challenge's full course.
    - [LoginRoute] (interface, login-route.js): the return target is always a safe local path, the
      check is stable, and signing in ends on exactly that target.
    - [Fido] (interface, fido-utils.js): base64url round trip; a passkey prompt ends, leaves no timer,
      listener or busy button behind, and gives out complete credentials in time only.
    - [DatabaseDsn], [PasswordStrength], [Formats] (interface, settings/database-dsn.js,
      password-strength.js, repository-formats.js): parse and print round trips of database
      addresses; the meter follows the field; accepted names and drafts of repositories.
    - [Mfa], [Registration], [UserProfiles] (interface, mfa-login.js,
      registration.js with mail-status.js, user-profiles.js): a sign-in ends in one session or in none, requests and
      their abort signals are paired; codes are asked for within the bounds of the server; a cached profile comes from
      an answer of the present session.
    - [Auth] (interface, auth.js, protected-route.js, api.js; server, internal/config/permissions.go and
      internal/service/auth): the interface lets a user change a repository exactly when the server does; what a page
      holds of a session. The class [Auth.Host] is what the session needs of the shell.
    - [Shell] (interface, main.js with the routes of super-teams.js, tickets.js and browser/maven.js): pages of
      management and of the account only open in a session that has them, and a session that ended comes back
      to the page it was on. It is the instance of [Auth.Host].
    - [Legal], [Cookies] (interface, legal-consent.js with the reading of legal texts, cookie-consent.js): no entry
      without agreement to the revision the server has just given; texts are read whole, bounded and as UTF-8 or refused, and
      a reader that was opened is released.
    - [Sorting], [BrowserUtils], [Browser], [Upload] (interface, browser.js, browser/utils.js and browser/upload.js): the
      order of directories, the paths in links, the directory shown is the last one opened but for the merges and deletions that
      are named, an upload sends every file of its queue at most once and in its order.
    - [Suggestions], [Messages], [Composer] (interface, browser/user-suggestions.js, messages.js, notification-composer.js): the
      names suggested are for the text in the field; pages of messages come one at a time and the counts agree; a
      notification goes out once, and a suggested name replaces exactly the name at the caret.
    - [Settings], [Proxies] (interface, settings.js): unsaved changes of a page are kept until they are saved or discarded,
      a save replaces exactly what was sent, and nothing of one account is shown or sent for another; the list of
      proxies and the one that is selected.
    - [Cargo] (interface, browser/cargo.js): the list is what the answers of the repository's pages make up; a page follows its
      route whatever the order of the answers, and operations go to the package whose button was clicked.
    - [Search] (interface, browser/search.js): an open panel shows the results for the repository and the text of now, or
      that they are on their way.
    - [Dialogs] (interface, components/dialog.js and app-ui.js; packages/renop-ui/js/modal.js): a dialog gives out what it was
      closed with, once; the page behind is inert exactly while a known modal is open.
    - [ApiTokens] (interface, api-tokens.js; server, the rules of tokens): the token that the form creates may do exactly what
      the form says; the list of tokens under overlapping requests.
    - [Repositories] (interface, repositories.js, repository-list.js, cfg-ui.js; server, the handler of the settings with its
      normalization): a save or a creation that an answer reports is what the server holds, with the exceptions that are named, a removal that is reported is one; names stay distinct, the pages of
      the list show every name once, lists of rules keep what is shown.
    - [Quota] (interface, publication-quota.js; server, the bounds of a limit): what saving the form does to the limits.
    - [Tickets], [TicketCenter] (interface, tickets.js; server, the transitions of tickets): the buttons of a ticket are there exactly
      when their requests are accepted, those of publications and approvals included, the lifecycle of tickets, the list follows
      its filters, the archive of a review holds the bodies that came for its files.
    - [CustomSelect] (packages/renop-ui/js/custom-select.js): the keyboard, the options and the label of the select.
    - [I18nCatalog] (interface, scripts/i18n-catalog.mjs): the scanner refines a grammar of the
      accepted files, and what the generator writes is consistent.
    - [Snippets] (interface, browser/snippets.js): the card of a repository has a snippet for
      every tab, of the repository visited last, whatever order the answers come in.
    - [Pagination] (packages/renop-ui/js/pagination.js): the pages show every item once.
    - [Markdown], [WebI18n], [Router], [Official] (site, lib/markdown.js, i18n.js, router.js with
      lib/doc-routes.js, lib/official.js): distinct anchors, the language that sticks, the router
      shows the latest location, the best release for a platform and the lists of the pages.

    ** Modelling choices

    - A string is a list of Latin-1 characters ([JsText.jsstring]); where a text may leave Latin-1
      the models say so ([Uri.Wide], [DatabaseDsn.Wide_field]) or use code points
      ([LoginRoute.decode_points]). Numbers are integers with the infinities and [NaN]
      ([JsValue.num]); sizes are integers below 2^53 in the code, so that no rounding occurs.
    - A lookup on an object literal keeps own properties, inherited members and absent ones apart
      ([JsValue.get]); several findings of the project's manifest come from that.
    - Asynchronous code is a state with events. One event is the code between two [await]s, so
      any interleaving of answers, timers and clicks is a sequence of events. Timers are events that
      are enabled while the timer is set.
    - What is not the repository's code is a parameter, or a class whose laws state its documented
      behaviour, with an instance: [ResponseErrors.TextDecoder], [Legal.FatalDecoder], [LoginRoute.PathParser],
      [DatabaseDsn.URLParser], [BrowserUtils.Collator]; the parser of Markdown, decompression, hashing, JSON
      parsing, the codec of the settings' messages, the answers of the server and of the browser are parameters or events.
    - Fuel: [Uri.decode_loop] and [LoginRoute.decode_points] take the length of the text, which is
      enough since every step consumes a character; loops over a finite input (reads of a
      body, events) are structural. [ChunkedUpload] has no fuel: a measure bounds its runs.

    ** What is not modelled

    Pages and components that build DOM trees (the views of packages, the administration
    pages, the custom elements), animation and layout, the protobuf codecs, the catalogs' texts and
    the Go server, but for the permission rules in [Auth], the rules of tokens in [ApiTokens], the handler of the settings in [Repositories], the bounds of
    limits in [Quota] and the workflow of [Tickets]. Within the modelled files the parts left out are
    named in the file's header. The views of the Maven, Docker and npm formats, the lists of users and sessions, and the dialogs of locks repeat the patterns of [Cargo], [Messages], [Settings] and [Dialogs]. *)

From stdpp Require Export base tactics decidable option list numbers relations.
From stdpp Require Export gmap strings fin_maps pretty.
From Stdlib Require Export ZArith Lia.

#[global] Set Default Proof Using "Type".
#[global] Set Warnings "-clear-no-such-hyp,-register-all".

(** ** Notation scope and results *)

Declare Scope renop_scope.
Delimit Scope renop_scope with renop.
Open Scope renop_scope.

(** The outcome of code that may throw: a value or the error it throws. *)
Inductive result (E A : Type) : Type :=
  | Ok (a : A)
  | Throw (e : E).
Arguments Ok {E A} a.
Arguments Throw {E A} e.

Definition result_bind {E A B} (m : result E A) (f : A → result E B) : result E B :=
  match m with Ok a => f a | Throw e => Throw e end.

Notation "'let!' x ':=' m 'in' k" := (result_bind m (fun x => k))
  (at level 10, x pattern, m at level 100, k at level 200) : renop_scope.

Definition is_ok {E A} (m : result E A) : bool :=
  match m with Ok _ => true | Throw _ => false end.

Global Instance result_eq_dec {E A} `{EqDecision E, EqDecision A} : EqDecision (result E A).
Proof. solve_decision. Defined.

Lemma result_bind_Ok {E A B} (m : result E A) (f : A → result E B) b :
  result_bind m f = Ok b ↔ ∃ a, m = Ok a ∧ f a = Ok b.
Proof. destruct m; simpl; naive_solver. Qed.

(** [or_else v d] is [v || d] for a value that is absent or falsy when [None]. *)
Definition or_else {A} (v : option A) (d : A) : A := default d v.

(** ** Hint databases and tactics *)

Create HintDb renop.
Create Rewrite HintDb renop.

(** Boolean guards of the code as propositions. *)
Ltac bool_prop :=
  repeat match goal with
  | H : (_ && _) = true |- _ => apply andb_true_iff in H; destruct H
  | H : (_ && _) = false |- _ => apply andb_false_iff in H
  | H : (_ || _) = true |- _ => apply orb_true_iff in H
  | H : (_ || _) = false |- _ => apply orb_false_iff in H; destruct H
  | H : negb _ = true |- _ => apply negb_true_iff in H
  | H : negb _ = false |- _ => apply negb_false_iff in H
  | H : bool_decide _ = true |- _ => apply bool_decide_eq_true in H
  | H : bool_decide _ = false |- _ => apply bool_decide_eq_false in H
  | H : (_ <? _)%Z = true |- _ => apply Z.ltb_lt in H
  | H : (_ <? _)%Z = false |- _ => apply Z.ltb_ge in H
  | H : (_ <=? _)%Z = true |- _ => apply Z.leb_le in H
  | H : (_ <=? _)%Z = false |- _ => apply Z.leb_gt in H
  | H : (_ =? _)%Z = true |- _ => apply Z.eqb_eq in H
  | H : (_ =? _)%Z = false |- _ => apply Z.eqb_neq in H
  | H : (_ <? _)%nat = true |- _ => apply Nat.ltb_lt in H
  | H : (_ <? _)%nat = false |- _ => apply Nat.ltb_ge in H
  | H : (_ <=? _)%nat = true |- _ => apply Nat.leb_le in H
  | H : (_ <=? _)%nat = false |- _ => apply Nat.leb_gt in H
  | H : (_ =? _)%nat = true |- _ => apply Nat.eqb_eq in H
  | H : (_ =? _)%nat = false |- _ => apply Nat.eqb_neq in H
  end.

(** Split on every [if] and [match] of the goal, keep the equations as propositions. *)
Ltac split_code := repeat case_match; bool_prop; simplify_eq/=.

(** Split on a condition of the goal only. *)
Ltac split_if := match goal with |- context [if ?b then _ else _] => destruct b end.

(** Split on every [match] of the hypotheses and the goal, dropping impossible branches. *)
Ltac crush_code :=
  repeat (first [progress simplify_eq/= | progress bool_prop | case_match]).

(** ** Transition systems *)

Section transition_systems.
Context {S : Type} (init : S → Prop) (step : S → S → Prop).

(** The states some run from an initial state visits. *)
Definition reachable (s : S) : Prop := ∃ s0, init s0 ∧ rtc step s0 s.

Lemma reachable_init s : init s → reachable s.
Proof. intros Hi. exists s. split; [done | apply rtc_refl]. Qed.

Lemma reachable_step s s' : reachable s → step s s' → reachable s'.
Proof. intros (s0 & Hi & Hr) Hs. exists s0. split; [done | by eapply rtc_r]. Qed.

Lemma rtc_preserves (I : S → Prop) :
  (∀ s s', I s → step s s' → I s') → ∀ s s', rtc step s s' → I s → I s'.
Proof. intros Hp s s' Hr. induction Hr; eauto. Qed.

(** Rule induction: what the initial states have and every step keeps holds everywhere. *)
Lemma invariant_reachable (I : S → Prop) :
  (∀ s, init s → I s) → (∀ s s', I s → step s s' → I s') →
  ∀ s, reachable s → I s.
Proof. intros Hi Hp s (s0 & H0 & Hr). eapply rtc_preserves; eauto. Qed.

(** A measure every step decreases bounds the length of every run. *)
Lemma measure_bounds_runs (m : S → nat) :
  (∀ s s', step s s' → m s' < m s) →
  ∀ n s s', nsteps step n s s' → n + m s' ≤ m s.
Proof.
  intros Hm n s s' Hr. induction Hr as [|n x y z Hxy _ IH]; [lia|].
  specialize (Hm _ _ Hxy). lia.
Qed.
End transition_systems.

#[export] Hint Resolve reachable_init reachable_step : renop.

(** ** Lists and integers *)

Fixpoint dropWhile {A} (p : A → bool) (l : list A) : list A :=
  match l with
  | [] => []
  | x :: xs => if p x then dropWhile p xs else l
  end.

Lemma dropWhile_app_id {A} (p : A → bool) (l : list A) :
  match l with [] => True | x :: _ => p x = false end → dropWhile p l = l.
Proof. destruct l; simpl; [done | by intros ->]. Qed.

Lemma dropWhile_suffix {A} (p : A → bool) (l : list A) : dropWhile p l `suffix_of` l.
Proof.
  induction l as [|x l IH]; simpl; [done|].
  destruct (p x); [by apply suffix_cons_r | done].
Qed.

Lemma dropWhile_head {A} (p : A → bool) (l : list A) x k :
  dropWhile p l = x :: k → p x = false.
Proof. induction l as [|y l IH]; simpl; [done|]. destruct (p y) eqn:?; naive_solver. Qed.

(** [Array.prototype.some] and [every] are [existsb] and [forallb]. *)
Lemma existsb_elem {A} (p : A → bool) (l : list A) :
  existsb p l = true ↔ ∃ x, x ∈ l ∧ p x = true.
Proof. rewrite existsb_exists. setoid_rewrite list_elem_of_In. done. Qed.

Lemma existsb_none {A} (p : A → bool) (l : list A) :
  existsb p l = false ↔ ∀ x, x ∈ l → p x = false.
Proof.
  rewrite <- not_true_iff_false, existsb_elem. split.
  - intros H x Hx. destruct (p x) eqn:?; naive_solver.
  - intros H (x & Hx & Hp). rewrite (H x Hx) in Hp. done.
Qed.

Lemma forallb_elem {A} (p : A → bool) (l : list A) :
  forallb p l = true ↔ ∀ x, x ∈ l → p x = true.
Proof. rewrite forallb_forall. setoid_rewrite list_elem_of_In. done. Qed.

(** [Array.prototype.find] *)
Lemma find_elem {A} (p : A → bool) (l : list A) x :
  List.find p l = Some x → x ∈ l ∧ p x = true.
Proof. intros H. apply find_some in H. by rewrite list_elem_of_In. Qed.

Lemma find_none_all {A} (p : A → bool) (l : list A) :
  List.find p l = None ↔ ∀ x, x ∈ l → p x = false.
Proof.
  setoid_rewrite list_elem_of_In. split; [intros H; by apply find_none | ].
  induction l as [|y l IH]; simpl; [done|]. intros H.
  rewrite (H y) by auto. apply IH. auto.
Qed.

Lemma filter_all {A} (p : A → bool) l : Forall (λ x, p x = true) l → List.filter p l = l.
Proof. induction 1 as [|x l Hx _ IH]; [done|]. simpl. by rewrite Hx, IH. Qed.

Lemma elem_of_filtered {A} (p : A → bool) l x : x ∈ List.filter p l ↔ x ∈ l ∧ p x = true.
Proof. by rewrite !list_elem_of_In, filter_In. Qed.

(** Ceiling division, [Math.ceil (a / b)] on integers with a positive divisor. *)
Definition ceil_div (a b : Z) : Z := (a + b - 1) / b.

Lemma ceil_div_bounds a b : (0 < b → ceil_div a b * b < a + b ∧ a ≤ ceil_div a b * b)%Z.
Proof.
  intros Hb. unfold ceil_div.
  pose proof (Z.div_mod (a + b - 1) b). pose proof (Z.mod_pos_bound (a + b - 1) b Hb). nia.
Qed.

Lemma ceil_div_pos a b : (0 < a → 0 < b → 0 < ceil_div a b)%Z.
Proof. intros. pose proof (ceil_div_bounds a b). nia. Qed.

Lemma ceil_div_nonneg a b : (0 ≤ a → 0 < b → 0 ≤ ceil_div a b)%Z.
Proof. intros. pose proof (ceil_div_bounds a b). nia. Qed.

#[export] Hint Resolve ceil_div_pos ceil_div_nonneg : renop.

(** Totals of integer lists. *)
Fixpoint sumZ (l : list Z) : Z :=
  match l with [] => 0%Z | x :: l => (x + sumZ l)%Z end.

Lemma sumZ_app l k : sumZ (l ++ k) = (sumZ l + sumZ k)%Z.
Proof. induction l as [|x l IH]; cbn [sumZ app]; lia. Qed.

Lemma sumZ_nonneg l : Forall (fun x => 0 ≤ x)%Z l → (0 ≤ sumZ l)%Z.
Proof. induction 1; cbn [sumZ]; lia. Qed.

Lemma sumZ_mono {A} (f g : A → Z) (l : list A) :
  Forall (fun x => f x ≤ g x)%Z l → (sumZ (f <$> l) ≤ sumZ (g <$> l))%Z.
Proof. induction 1; csimpl; lia. Qed.

Lemma length_sumZ {A} (l : list (list A)) :
  Z.of_nat (length (mjoin l)) = sumZ ((λ x, Z.of_nat (length x)) <$> l).
Proof. induction l as [|x l IH]; csimpl; [done|]. rewrite length_app. lia. Qed.

(** ** [Promise.all]

    [settled] lists the indexes in the order in which the promises settle. The
    first rejection in that order rejects the whole; otherwise the values come
    back in the order of the array. *)

Section promise_all.
Context {E A : Type} (outcome : nat → result E A).

Fixpoint first_rejection (settled : list nat) : option E :=
  match settled with
  | [] => None
  | i :: settled => match outcome i with Throw e => Some e | Ok _ => first_rejection settled end
  end.

Fixpoint all_values (idx : list nat) : list A :=
  match idx with
  | [] => []
  | i :: idx => match outcome i with Ok a => a :: all_values idx | Throw _ => all_values idx end
  end.

Definition promise_all (settled : list nat) (n : nat) : result E (list A) :=
  match first_rejection settled with
  | Some e => Throw e
  | None => Ok (all_values (seq 0 n))
  end.

Lemma first_rejection_None settled :
  first_rejection settled = None ↔ ∀ i, i ∈ settled → ∃ a, outcome i = Ok a.
Proof.
  induction settled as [|i settled IH]; simpl.
  - split; [by intros _ i ?%elem_of_nil | done].
  - destruct (outcome i) as [a|e] eqn:E1.
    + rewrite IH. split.
      * intros H j [->|Hj]%elem_of_cons; eauto.
      * intros H j Hj. apply H. by right.
    + split; [done|]. intros H. destruct (H i) as [a Ha]; [by left | congruence].
Qed.

Lemma all_values_map (f : nat → A) idx :
  (∀ i, i ∈ idx → outcome i = Ok (f i)) → all_values idx = f <$> idx.
Proof.
  induction idx as [|i idx IH]; csimpl; [done|]. intros H.
  rewrite (H i) by (by left). f_equal. apply IH. intros j Hj. apply H. by right.
Qed.

(** When every promise resolves, the order of settlement does not matter. *)
Lemma promise_all_resolved (f : nat → A) settled n :
  settled ≡ₚ seq 0 n → (∀ i, i < n → outcome i = Ok (f i)) →
  promise_all settled n = Ok (f <$> seq 0 n).
Proof.
  intros Hp H. unfold promise_all.
  rewrite (proj2 (first_rejection_None settled)).
  - f_equal. apply all_values_map. intros i Hi%elem_of_seq. apply H. lia.
  - intros i Hi. rewrite Hp, elem_of_seq in Hi. exists (f i). apply H. lia.
Qed.

Lemma promise_all_Ok settled n vs :
  settled ≡ₚ seq 0 n → promise_all settled n = Ok vs →
  ∀ i, i < n → ∃ a, outcome i = Ok a.
Proof.
  unfold promise_all. intros Hp H i Hi.
  destruct (first_rejection settled) eqn:E1; [done|].
  apply (proj1 (first_rejection_None settled)); [done|].
  rewrite Hp, elem_of_seq. lia.
Qed.
End promise_all.

(** Reading a list back through its indexes. *)
Lemma fmap_seq_lookup {A B} (f : A → B) (d : B) (l : list A) :
  (λ i, match l !! i with Some x => f x | None => d end) <$> seq 0 (length l) = f <$> l.
Proof.
  apply list_eq. intros i. rewrite !list_lookup_fmap.
  destruct (decide (i < length l)) as [Hi|Hi].
  - rewrite lookup_seq_lt by done. simpl.
    destruct (lookup_lt_is_Some_2 l i Hi) as [x ->]. done.
  - rewrite lookup_seq_ge, lookup_ge_None_2 by lia. done.
Qed.
