(* ===== verification/JsText.v ===== *)
(** * JavaScript strings

    The part of the language's string library the modelled code uses. A
    JavaScript string is a sequence of UTF-16 code units; [jsstring] holds the
    code units 0 to 255 (Latin-1), on which every operation below is the
    language's own: [toLowerCase], [trim] and the [\s] class include the
    non-ASCII Latin-1 letters and the no-break space. Literals of the source are
    written as string literals and coerced. *)

From S2P Require Import Prelude.
From Stdlib Require Export Ascii.
From Stdlib Require String.

Abbreviation ascii_eqb := Stdlib.Strings.Ascii.eqb.
Abbreviation ascii_eqb_eq := Stdlib.Strings.Ascii.eqb_eq.
Abbreviation ascii_eqb_neq := Stdlib.Strings.Ascii.eqb_neq.
Abbreviation ascii_eqb_refl := Stdlib.Strings.Ascii.eqb_refl.
Abbreviation ascii_eqb_spec := Stdlib.Strings.Ascii.eqb_spec.

Abbreviation jsstring := (list ascii).

Definition js (s : string) : jsstring := Stdlib.Strings.String.list_ascii_of_string s.
Coercion js : string >-> list.
#[global] Arguments js : simpl never.

Definition code (c : ascii) : N := N_of_ascii c.
Definition chr (n : N) : ascii := ascii_of_N n.

(** ** Reasoning over all 256 characters *)

Definition all_ascii : list ascii := ascii_of_nat <$> seq 0 256.

Lemma elem_of_all_ascii c : c ∈ all_ascii.
Proof.
  apply list_elem_of_fmap. exists (nat_of_ascii c).
  rewrite ascii_nat_embedding. split; [done|]. apply elem_of_seq.
  pose proof (nat_ascii_bounded c). lia.
Qed.

(** A decidable property of characters is checked on the whole table. *)
Lemma forall_ascii (P : ascii → Prop) `{∀ c, Decision (P c)} :
  forallb (λ c, bool_decide (P c)) all_ascii = true → ∀ c, P c.
Proof.
  rewrite forallb_elem. intros HP c. specialize (HP c (elem_of_all_ascii c)).
  by apply bool_decide_eq_true in HP.
Qed.

Ltac by_all_chars c :=
  revert c; match goal with |- ∀ c, @?P c => apply (forall_ascii P) end; vm_compute; reflexivity.

(** ** Character classes *)

Definition in_range (lo hi : N) (c : ascii) : bool := (lo <=? code c)%N && (code c <=? hi)%N.

Definition is_lower (c : ascii) : bool := in_range 97 122 c.    (* [a-z] *)
Definition is_upper (c : ascii) : bool := in_range 65 90 c.     (* [A-Z] *)
Definition is_digit (c : ascii) : bool := in_range 48 57 c.     (* [0-9] *)
Definition is_alpha (c : ascii) : bool := is_lower c || is_upper c.
Definition is_alnum (c : ascii) : bool := is_alpha c || is_digit c.

(** The white space and line terminators that [trim] removes and [\s] matches. *)
Definition is_space (c : ascii) : bool :=
  in_range 9 13 c || (code c =? 32)%N || (code c =? 160)%N.

Definition lower_char (c : ascii) : ascii :=
  if is_upper c || (in_range 192 222 c && negb (code c =? 215)%N)
  then chr (code c + 32) else c.

Definition toLowerCase (s : jsstring) : jsstring := lower_char <$> s.

Lemma lower_char_idemp c : lower_char (lower_char c) = lower_char c.
Proof. by_all_chars c. Qed.

Lemma toLowerCase_idemp s : toLowerCase (toLowerCase s) = toLowerCase s.
Proof.
  unfold toLowerCase. rewrite <- list_fmap_compose. apply list_fmap_ext.
  intros ? c ?. apply lower_char_idemp.
Qed.

Lemma toLowerCase_app s k : toLowerCase (s ++ k) = toLowerCase s ++ toLowerCase k.
Proof. apply fmap_app. Qed.

Lemma length_toLowerCase s : length (toLowerCase s) = length s.
Proof. apply length_fmap. Qed.

(** ** Truthiness and equality *)

Definition truthy (s : jsstring) : bool := match s with [] => false | _ => true end.

(** [s || d] on strings. *)
Definition str_or (s d : jsstring) : jsstring := if truthy s then s else d.

Definition eqs (s k : jsstring) : bool := bool_decide (s = k).

Lemma eqs_true s k : eqs s k = true ↔ s = k.
Proof. apply bool_decide_eq_true. Qed.

Lemma eqs_refl s : eqs s s = true.
Proof. by apply eqs_true. Qed.

Lemma truthy_true s : truthy s = true ↔ s ≠ [].
Proof. by destruct s. Qed.

Lemma truthy_false s : truthy s = false ↔ s = [].
Proof. by destruct s. Qed.

Lemma str_or_nonempty s d : d ≠ [] → str_or s d ≠ [].
Proof. by destruct s. Qed.

Lemma str_or_id s d : s ≠ [] → str_or s d = s.
Proof. by destruct s. Qed.

#[export] Hint Resolve str_or_nonempty : renop.
#[export] Hint Rewrite eqs_true truthy_true truthy_false : renop.

(** ** Prefixes, suffixes, substrings *)

Fixpoint startsWith (s p : jsstring) {struct p} : bool :=
  match p, s with
  | [], _ => true
  | _ :: _, [] => false
  | x :: p, y :: s => ascii_eqb x y && startsWith s p
  end.

Definition endsWith (s p : jsstring) : bool := startsWith (reverse s) (reverse p).

Fixpoint indexOf (s p : jsstring) {struct s} : option nat :=
  if startsWith s p then Some 0
  else match s with [] => None | _ :: s => S <$> indexOf s p end.

(** [s.indexOf(p, k)]. *)
Definition indexOfFrom (s p : jsstring) (k : nat) : option nat :=
  (λ i, k + i) <$> indexOf (drop k s) p.

Definition includes (s p : jsstring) : bool :=
  match indexOf s p with Some _ => true | None => false end.

Fixpoint lastIndexOf (s : jsstring) (c : ascii) : option nat :=
  match s with
  | [] => None
  | x :: s => match lastIndexOf s c with
              | Some i => Some (S i)
              | None => if ascii_eqb x c then Some 0 else None
              end
  end.

Lemma startsWith_spec s p : startsWith s p = true ↔ ∃ k, s = p ++ k.
Proof.
  revert s. induction p as [|x p IH]; intros [|y s]; simpl.
  - split; [by exists [] | done].
  - split; [by exists (y :: s) | done].
  - split; [done | by intros []].
  - rewrite andb_true_iff, ascii_eqb_eq, IH. split.
    + intros [-> [k ->]]. by exists k.
    + intros [k [= -> ->]]. eauto.
Qed.

Lemma startsWith_app p k : startsWith (p ++ k) p = true.
Proof. apply startsWith_spec. eauto. Qed.

Lemma endsWith_spec s p : endsWith s p = true ↔ ∃ k, s = k ++ p.
Proof.
  unfold endsWith. rewrite startsWith_spec. split.
  - intros [k H]. exists (reverse k).
    apply (f_equal reverse) in H. rewrite reverse_involutive, reverse_app, reverse_involutive in H.
    done.
  - intros [k ->]. exists (reverse k). by rewrite reverse_app.
Qed.

Lemma indexOf_Some s p i :
  indexOf s p = Some i → ∃ k, s = take i s ++ p ++ k ∧ i ≤ length s.
Proof.
  revert i. induction s as [|x s IH]; intros i; simpl.
  - destruct (startsWith [] p) eqn:E; [|done]. intros [= <-].
    apply startsWith_spec in E as [k ->]. exists k. split; [done|lia].
  - destruct (startsWith (x :: s) p) eqn:E.
    + intros [= <-]. apply startsWith_spec in E as [k E]. exists k. simpl. split; [done|lia].
    + intros (j & ? & ->)%fmap_Some. destruct (IH j) as (k & Hk & ?); [done|].
      exists k. simpl. split; [by f_equal | lia].
Qed.

Lemma includes_spec s p : includes s p = true ↔ ∃ k1 k2, s = k1 ++ p ++ k2.
Proof.
  unfold includes. split.
  - destruct (indexOf s p) as [i|] eqn:E; [|done]. intros _.
    apply indexOf_Some in E as (k & E & _). eauto.
  - intros (k1 & k2 & ->). induction k1 as [|x k1 IH]; simpl.
    + destruct (p ++ k2) eqn:E; simpl; rewrite <- E, startsWith_app; done.
    + destruct (startsWith _ _); [done|]. by destruct (indexOf (k1 ++ p ++ k2) p).
Qed.

(** The first occurrence of a character. *)
Lemma indexOf_char_app (c : ascii) s k : c ∉ s → indexOf (s ++ c :: k) [c] = Some (length s).
Proof.
  induction s as [|x s IH]; simpl; intros Hn.
  - by rewrite ascii_eqb_refl.
  - apply not_elem_of_cons in Hn as [Hx Hn].
    destruct (ascii_eqb_spec c x); [done|]. simpl. by rewrite IH.
Qed.

Lemma indexOf_char_None (c : ascii) s : c ∉ s → indexOf s [c] = None.
Proof.
  induction s as [|x s IH]; simpl; intros Hn; [done|].
  apply not_elem_of_cons in Hn as [Hx Hn].
  destruct (ascii_eqb_spec c x); [done|]. simpl. by rewrite IH.
Qed.

Lemma lastIndexOf_None s c : c ∉ s → lastIndexOf s c = None.
Proof.
  induction s as [|x s IH]; simpl; intros Hn; [done|].
  apply not_elem_of_cons in Hn as [Hx Hn]. rewrite IH by done.
  destruct (ascii_eqb_spec x c); [congruence | done].
Qed.

Lemma lastIndexOf_app s c k : c ∉ k → lastIndexOf (s ++ c :: k) c = Some (length s).
Proof.
  intros Hk. induction s as [|x s IH]; simpl.
  - by rewrite lastIndexOf_None, ascii_eqb_refl.
  - by rewrite IH.
Qed.

#[export] Hint Rewrite startsWith_spec endsWith_spec includes_spec : renop.

(** ** Trimming *)

Definition trimStart (s : jsstring) : jsstring := dropWhile is_space s.
Definition trimEnd (s : jsstring) : jsstring := reverse (dropWhile is_space (reverse s)).
Definition trim (s : jsstring) : jsstring := trimEnd (trimStart s).

(** No white space at either end. *)
Definition trimmed (s : jsstring) : Prop :=
  match s with [] => True | x :: _ => is_space x = false end ∧
  match reverse s with [] => True | x :: _ => is_space x = false end.

Global Instance trimmed_dec s : Decision (trimmed s).
Proof.
  unfold trimmed. destruct s as [|a s], (reverse _); apply _.
Defined.

Lemma trim_id s : trimmed s → trim s = s.
Proof.
  intros [H1 H2]. unfold trim, trimEnd, trimStart.
  rewrite (dropWhile_app_id _ s) by done. rewrite dropWhile_app_id by done.
  apply reverse_involutive.
Qed.

Lemma trim_trimmed s : trimmed (trim s).
Proof.
  unfold trim, trimEnd, trimStart. set (k := dropWhile is_space s).
  unfold trimmed. rewrite reverse_involutive. split.
  - destruct (reverse (dropWhile is_space (reverse k))) as [|x r] eqn:E; [done|].
    destruct (dropWhile_suffix is_space (reverse k)) as [w Hw].
    apply (f_equal reverse) in Hw. rewrite reverse_involutive, reverse_app, E in Hw.
    eapply dropWhile_head. exact Hw.
  - destruct (dropWhile is_space (reverse k)) as [|x r] eqn:E; [done|].
    eapply dropWhile_head. exact E.
Qed.

Lemma trimmed_no_space s : Forall (λ c, is_space c = false) s → trimmed s.
Proof.
  intros H. split.
  - destruct s; [done|]. by inversion_clear H.
  - apply Forall_reverse in H. destruct (reverse s); [done|]. by inversion_clear H.
Qed.

Lemma toLowerCase_id s : Forall (λ c, lower_char c = c) s → toLowerCase s = s.
Proof. induction 1 as [|c s Hc _ IH]; csimpl; [done|]. by rewrite Hc, IH. Qed.

Lemma trim_idemp s : trim (trim s) = trim s.
Proof. apply trim_id, trim_trimmed. Qed.

(** ** Splitting and joining *)

(** [s.split(re)] for a regular expression matching one character of a class. *)
Fixpoint splitBy (sep : ascii → bool) (s : jsstring) : list jsstring :=
  match s with
  | [] => [[]]
  | x :: s => if sep x then [] :: splitBy sep s
              else match splitBy sep s with
                   | [] => [[x]]
                   | p :: ps => (x :: p) :: ps
                   end
  end.

(** [s.split("c")]. *)
Definition split (c : ascii) (s : jsstring) : list jsstring := splitBy (ascii_eqb c) s.

Fixpoint join (sep : jsstring) (l : list jsstring) : jsstring :=
  match l with
  | [] => []
  | [p] => p
  | p :: ps => p ++ sep ++ join sep ps
  end.

Lemma splitBy_nonempty sep s : splitBy sep s ≠ [].
Proof. destruct s as [|x s]; simpl; [done|]. destruct (sep x); [done|]. by destruct (splitBy sep s). Qed.

Lemma splitBy_none sep s : Forall (λ x, sep x = false) s → splitBy sep s = [s].
Proof. induction 1 as [|x s Hx _ IH]; simpl; [done|]. by rewrite Hx, IH. Qed.

Lemma splitBy_parts sep s : Forall (Forall (λ x, sep x = false)) (splitBy sep s).
Proof.
  induction s as [|x s IH]; simpl; [by repeat constructor|].
  destruct (sep x) eqn:E; [by constructor|].
  destruct (splitBy sep s) as [|p ps]; [by repeat constructor|].
  inversion_clear IH. by repeat constructor.
Qed.

Lemma splitBy_app sep p x s :
  Forall (λ y, sep y = false) p → sep x = true →
  splitBy sep (p ++ x :: s) = p :: splitBy sep s.
Proof.
  intros Hp Hx. induction Hp as [|y p Hy _ IH]; simpl; [by rewrite Hx|]. by rewrite Hy, IH.
Qed.

Lemma join_cons sep p ps : ps ≠ [] → join sep (p :: ps) = p ++ sep ++ join sep ps.
Proof. by destruct ps. Qed.

Lemma join_split c s : join [c] (split c s) = s.
Proof.
  unfold split. induction s as [|x s IH]; simpl; [done|].
  destruct (ascii_eqb_spec c x) as [->|].
  - rewrite join_cons by apply splitBy_nonempty. simpl. by f_equal.
  - destruct (splitBy (ascii_eqb c) s) as [|p ps] eqn:E; [by apply splitBy_nonempty in E|].
    destruct ps; simpl in *; by f_equal.
Qed.

Lemma split_join c ps :
  ps ≠ [] → Forall (λ p, c ∉ p) ps → split c (join [c] ps) = ps.
Proof.
  unfold split. intros Hne Hps. induction Hps as [|p ps Hp Hps IH]; [done|].
  assert (Forall (λ y, ascii_eqb c y = false) p).
  { apply Forall_forall. intros y Hy. apply ascii_eqb_neq. by intros ->. }
  destruct ps as [|q ps]; [by apply splitBy_none|].
  rewrite join_cons by done. cbn [app]. rewrite splitBy_app; [by rewrite IH | done | apply ascii_eqb_refl].
Qed.

(** [s.replace(/c/g, r)] for a one-character pattern. *)
Definition replaceAll (c : ascii) (r : jsstring) (s : jsstring) : jsstring :=
  mjoin ((λ x, if ascii_eqb x c then r else [x]) <$> s).

Lemma replaceAll_app c r s k : replaceAll c r (s ++ k) = replaceAll c r s ++ replaceAll c r k.
Proof. unfold replaceAll. by rewrite fmap_app, join_app. Qed.

Lemma replaceAll_absent c r s : c ∉ s → replaceAll c r s = s.
Proof.
  unfold replaceAll. induction s as [|x s IH]; csimpl; [done|]. intros Hn.
  apply not_elem_of_cons in Hn as [Hx Hn].
  destruct (ascii_eqb_spec x c); [congruence|]. simpl. by rewrite IH.
Qed.

(** ** Numbers as text *)

(** [String(n)] of an integer. *)
Definition str_of_Z (n : Z) : jsstring := js (pretty n).
Definition str_of_nat (n : nat) : jsstring := js (pretty n).

Lemma str_of_nat_inj n m : str_of_nat n = str_of_nat m → n = m.
Proof.
  unfold str_of_nat, js. intros H. apply (f_equal Stdlib.Strings.String.string_of_list_ascii) in H.
  rewrite !String.string_of_list_ascii_of_string in H. by apply (inj pretty) in H.
Qed.

(** ** Order of [Array.prototype.sort] without a comparator: by code units *)

Fixpoint str_leb (s k : jsstring) : bool :=
  match s, k with
  | [], _ => true
  | _ :: _, [] => false
  | x :: s, y :: k =>
      if (code x <? code y)%N then true
      else if (code y <? code x)%N then false else str_leb s k
  end.

(** ** Texts of the server, which is written in Go *)

Definition go_space (c : ascii) : bool := is_space c || (code c =? 133)%N.
Definition go_control (c : ascii) : bool := (code c <? 32)%N || in_range 127 159 c.

(** [strings.TrimFunc], [strings.TrimSpace] *)
Definition trim_by (p : ascii → bool) (s : jsstring) : jsstring := reverse (dropWhile p (reverse (dropWhile p s))).
Definition TrimSpace : jsstring → jsstring := trim_by go_space.

Lemma trim_by_idemp p s : trim_by p (trim_by p s) = trim_by p s.
Proof.
  unfold trim_by at 1.
  assert (dropWhile p (trim_by p s) = trim_by p s ∧ dropWhile p (reverse (trim_by p s)) = reverse (trim_by p s)) as [-> ->]; [|apply reverse_involutive].
  unfold trim_by. set (k := dropWhile p s). rewrite reverse_involutive. split.
  - destruct (reverse (dropWhile p (reverse k))) as [|x r] eqn:E; [done|]. cbn [dropWhile].
    destruct (dropWhile_suffix p (reverse k)) as [w Hw]. apply (f_equal reverse) in Hw. rewrite reverse_involutive, reverse_app, E in Hw.
    by rewrite (dropWhile_head p s x (r ++ reverse w) Hw).
  - destruct (dropWhile p (reverse k)) as [|x r] eqn:E; [done|]. cbn [dropWhile]. by rewrite (dropWhile_head p _ x r E).
Qed.
