(* ===== verification/JsValue.v ===== *)
(** * JavaScript values

    Dynamic values as [JSON.parse] and [response.json()] produce them, their
    conversions, and property lookup on object literals. A lookup also finds what
    the literal inherits from [Object.prototype]; the models keep that case apart
    from an own property and from an absent one. *)

From S2P Require Import Prelude JsText.

(** Numbers: the integers, the infinities and [NaN]. *)
Inductive num := NaN | NInf | PInf | Int (n : Z).

Inductive jsval :=
  | JUndef
  | JNull
  | JBool (b : bool)
  | JNum (n : num)
  | JStr (s : jsstring)
  | JArr (l : list jsval)
  | JObj (fields : list (jsstring * jsval)).

Global Instance num_eq_dec : EqDecision num.
Proof. solve_decision. Defined.

(** [n || d] on numbers: zero and [NaN] are falsy. *)
Definition num_or (n d : num) : num :=
  match n with NaN => d | Int 0 => d | _ => n end.

Definition truthy_val (v : jsval) : bool :=
  match v with
  | JUndef | JNull => false
  | JBool b => b
  | JNum n => match n with NaN | Int 0 => false | _ => true end
  | JStr s => truthy s
  | JArr _ | JObj _ => true
  end.

(** [v || d] *)
Definition val_or (v d : jsval) : jsval := if truthy_val v then v else d.

Definition str_of_num (n : num) : jsstring :=
  match n with
  | NaN => "NaN" | NInf => "-Infinity" | PInf => "Infinity" | Int z => str_of_Z z
  end.

(** [String(v)]; elements of an array that are [undefined] or [null] print as nothing. *)
Fixpoint toString (v : jsval) : jsstring :=
  match v with
  | JUndef => "undefined"
  | JNull => "null"
  | JBool true => "true"
  | JBool false => "false"
  | JNum n => str_of_num n
  | JStr s => s
  | JArr l => join "," ((λ x, match x with JUndef | JNull => [] | _ => toString x end) <$> l)
  | JObj _ => "[object Object]"
  end.

(** ** Properties *)

(** The members every object literal inherits. *)
Definition object_prototype : list jsstring :=
  js <$> ["constructor"; "__proto__"; "toString"; "valueOf"; "hasOwnProperty"; "isPrototypeOf";
          "propertyIsEnumerable"; "toLocaleString"; "__defineGetter__"; "__defineSetter__";
          "__lookupGetter__"; "__lookupSetter__"]%stdpp.

Definition inherited (k : jsstring) : bool := bool_decide (k ∈ object_prototype).

(** [o[k]] on an object literal: the own property, an inherited member, or [undefined]. *)
Inductive slot (A : Type) := Own (a : A) | Inherited | Missing.
Arguments Own {A} a.
Arguments Inherited {A}.
Arguments Missing {A}.

Fixpoint assoc {A} (o : list (jsstring * A)) (k : jsstring) : option A :=
  match o with
  | [] => None
  | (k', a) :: o => if eqs k' k then Some a else assoc o k
  end.

Definition get {A} (o : list (jsstring * A)) (k : jsstring) : slot A :=
  match assoc o k with
  | Some a => Own a
  | None => if inherited k then Inherited else Missing
  end.

Lemma assoc_elem {A} (o : list (jsstring * A)) k a : assoc o k = Some a → (k, a) ∈ o.
Proof.
  induction o as [|[k' a'] o IH]; simpl; [done|].
  destruct (eqs k' k) eqn:E; [apply eqs_true in E as ->; intros [= ->]; by left|].
  intros H. right. auto.
Qed.

Lemma assoc_None {A} (o : list (jsstring * A)) k : assoc o k = None ↔ k ∉ o.*1.
Proof.
  induction o as [|[k' a'] o IH]; csimpl.
  - split; [intros _; apply not_elem_of_nil | done].
  - rewrite not_elem_of_cons. destruct (eqs k' k) eqn:E.
    + apply eqs_true in E as ->. naive_solver.
    + rewrite IH. split; [|by intros [_ ?]]. intros ?. split; [|done].
      intros ->. by rewrite eqs_refl in E.
Qed.

Lemma get_Own {A} (o : list (jsstring * A)) k a : get o k = Own a → (k, a) ∈ o.
Proof.
  unfold get. destruct (assoc o k) eqn:E; [|by destruct (inherited k)].
  intros [= ->]. by apply assoc_elem.
Qed.

(** [o[k] = v]: an existing key keeps its place. *)
Fixpoint set_key {A} (o : list (jsstring * A)) (k : jsstring) (v : A) : list (jsstring * A) :=
  match o with
  | [] => [(k, v)]
  | (k', v') :: o => if eqs k' k then (k, v) :: o else (k', v') :: set_key o k v
  end.

(** [o.delete(k)] of a [Map], in the order of insertion. *)
Definition delete_key {A} (o : list (jsstring * A)) (k : jsstring) : list (jsstring * A) :=
  List.filter (λ e, negb (eqs e.1 k)) o.

Lemma filter_nodup_fst {K V} (f : K * V → bool) (c : list (K * V)) :
  NoDup c.*1 → NoDup (List.filter f c).*1.
Proof.
  induction c as [|e c IH]; csimpl; [done|]. intros [Hn Hd]%NoDup_cons. destruct (f e); [|by apply IH].
  csimpl. apply NoDup_cons. split; [|by apply IH]. intros (e' & He & Hin)%list_elem_of_fmap. apply Hn.
  apply list_elem_of_In, filter_In in Hin as [Hin _]. apply list_elem_of_fmap. exists e'.
  split; [done|by apply list_elem_of_In].
Qed.

Lemma filter_le {A} (f : A → bool) (l : list A) : length (List.filter f l) ≤ length l.
Proof. induction l as [|x l IH]; cbn; [lia|]. destruct (f x); cbn; lia. Qed.

Lemma assoc_delete_key {A} (o : list (jsstring * A)) k k' :
  assoc (delete_key o k) k' = if eqs k k' then None else assoc o k'.
Proof.
  unfold delete_key. induction o as [|[k0 v0] o IH]; simpl; [by destruct (eqs k k')|].
  destruct (eqs k0 k) eqn:E; simpl.
  - apply eqs_true in E as ->. rewrite IH. by destruct (eqs k k').
  - rewrite IH. destruct (eqs k0 k') eqn:E'; [|done]. apply eqs_true in E' as ->.
    destruct (eqs k k') eqn:E2; [|done]. apply eqs_true in E2 as ->. by rewrite eqs_refl in E.
Qed.

(** [{...o, ...o'}] *)
Definition spread {A} (o o' : list (jsstring * A)) : list (jsstring * A) :=
  foldl (λ acc kv, set_key acc kv.1 kv.2) o o'.

Lemma assoc_set_key {A} (o : list (jsstring * A)) k v k' :
  assoc (set_key o k v) k' = if eqs k k' then Some v else assoc o k'.
Proof.
  induction o as [|[k0 v0] o IH]; simpl; [done|].
  destruct (eqs k0 k) eqn:E; simpl.
  - apply eqs_true in E as ->. by destruct (eqs k k').
  - destruct (eqs k0 k') eqn:E'; [|done]. apply eqs_true in E' as ->.
    destruct (eqs k k') eqn:E2; [|done]. apply eqs_true in E2 as ->. by rewrite eqs_refl in E.
Qed.

Lemma set_key_keys {V} (o : list (jsstring * V)) k v :
  (set_key o k v).*1 = if bool_decide (k ∈ o.*1) then o.*1 else o.*1 ++ [k].
Proof.
  induction o as [|[k0 v0] o IH]; csimpl; [done|]. destruct (eqs k0 k) eqn:E; csimpl.
  - apply eqs_true in E as ->. by rewrite bool_decide_eq_true_2 by left.
  - rewrite IH. assert (k0 ≠ k) as Hne by (intros ->; by rewrite eqs_refl in E).
    destruct (bool_decide (k ∈ o.*1)) eqn:Eb.
    + apply bool_decide_eq_true in Eb. by rewrite bool_decide_eq_true_2 by (by right).
    + apply bool_decide_eq_false in Eb. rewrite bool_decide_eq_false_2; [done|]. rewrite elem_of_cons. naive_solver.
Qed.

Lemma set_key_NoDup {V} (o : list (jsstring * V)) k v : NoDup o.*1 → NoDup (set_key o k v).*1.
Proof.
  intros Hd. rewrite set_key_keys. destruct (bool_decide _) eqn:E; [done|]. apply bool_decide_eq_false in E.
  apply NoDup_app. split_and!; [done| |apply NoDup_singleton]. by intros x Hx ->%list_elem_of_singleton.
Qed.

Lemma set_key_Forall {V} (P : jsstring * V → Prop) (o : list (jsstring * V)) k v :
  P (k, v) → Forall P o → Forall P (set_key o k v).
Proof.
  intros Hp. induction 1 as [|[k0 v0] o H0 Ho IH]; csimpl; [by repeat constructor|].
  destruct (eqs k0 k) eqn:E; constructor; try done.
Qed.

(** The entries after an update of a map without doubled keys. *)
Lemma elem_of_set_key {A} (m : list (jsstring * A)) k v kv :
  NoDup m.*1 → kv ∈ set_key m k v ↔ kv = (k, v) ∨ (kv.1 ≠ k ∧ kv ∈ m).
Proof.
  induction m as [|[k' v'] m IH]; csimpl; [intros _; rewrite list_elem_of_singleton; set_solver|].
  intros [Hn Hd]%NoDup_cons. destruct (eqs k' k) eqn:E.
  - apply eqs_true in E as ->. rewrite !elem_of_cons. split; [|naive_solver]. intros [-> | Hin]; [by left|right].
    split; [|by right]. intros <-. apply Hn. by apply list_elem_of_fmap_2.
  - assert (k' ≠ k) by (intros ->; by rewrite eqs_refl in E). rewrite !elem_of_cons, IH by done. naive_solver.
Qed.

Lemma set_key_absent {A} (m : list (jsstring * A)) k v : k ∉ m.*1 → set_key m k v = m ++ [(k, v)].
Proof.
  induction m as [|[k' v'] m IH]; csimpl; [done|]. intros [Hne Hn]%not_elem_of_cons. destruct (eqs k' k) eqn:E.
  - by apply eqs_true in E as ->.
  - by rewrite IH.
Qed.

Lemma assoc_spread {A} (o o' : list (jsstring * A)) k :
  NoDup o'.*1 → assoc (spread o o') k = match assoc o' k with Some v => Some v | None => assoc o k end.
Proof.
  unfold spread. revert o. induction o' as [|[k0 v0] o' IH]; intros o; csimpl; [done|].
  intros [Hn Hd]%NoDup_cons. rewrite IH, assoc_set_key by done.
  destruct (eqs k0 k) eqn:E; [|done]. apply eqs_true in E as ->.
  apply assoc_None in Hn. by rewrite Hn.
Qed.

(** [v.k] for a field name the models use (never an inherited one); [None] is the
    [TypeError] of reading a property of [undefined] or [null]. *)
Definition field (v : jsval) (k : jsstring) : option jsval :=
  match v with
  | JUndef | JNull => None
  | JObj o => Some (default JUndef (assoc (reverse o) k))
  | _ => Some JUndef
  end.

(** [v?.k] *)
Definition field_opt (v : jsval) (k : jsstring) : jsval := default JUndef (field v k).

Definition is_array (v : jsval) : bool := match v with JArr _ => true | _ => false end.
