(* ===== verification/Uri.v ===== *)
(** * Percent encoding

    [encodeURIComponent] and [decodeURIComponent] on Latin-1 strings: a code unit
    below 128 is one byte, the others two bytes of UTF-8. *)

From S2P Require Import Prelude JsText.
Local Open Scope N_scope.

(** The characters [encodeURIComponent] leaves alone. *)
Definition uri_unreserved (c : ascii) : bool :=
  is_alnum c || bool_decide (c ∈ js "-_.!~*'()").

Definition HEX (n : N) : ascii := if n <? 10 then chr (48 + n) else chr (55 + n).

Definition percent (n : N) : jsstring := ["%"%char; HEX (n / 16); HEX (n mod 16)].

Definition encode_char (c : ascii) : jsstring :=
  if uri_unreserved c then [c]
  else if code c <? 128 then percent (code c)
  else percent (192 + code c / 64) ++ percent (128 + code c mod 64).

Definition encodeURIComponent (s : jsstring) : jsstring := mjoin (encode_char <$> s).

Definition unHEX (c : ascii) : option N :=
  if is_digit c then Some (code c - 48)
  else if in_range 65 70 c then Some (code c - 55)
  else if in_range 97 102 c then Some (code c - 87)
  else None.

(** The outcome of decoding: a string, the [URIError] of a malformed escape, or a
    string with a code point beyond U+00FF (the lead byte of a longer sequence was
    met), which the model does not hold. *)
Inductive decoded :=
  | Decoded (s : jsstring)
  | Malformed
  | Wide.

Definition prepend (c : ascii) (d : decoded) : decoded :=
  match d with Decoded s => Decoded (c :: s) | _ => d end.

(** The byte of a leading ["%XX"] and the text behind it. *)
Definition escape (s : jsstring) : option (N * jsstring) :=
  match s with
  | p :: h :: l :: s =>
      if ascii_eqb p "%" then
        match unHEX h, unHEX l with Some a, Some b => Some (16 * a + b, s) | _, _ => None end
      else None
  | _ => None
  end.

Fixpoint decode_loop (fuel : nat) (s : jsstring) : decoded :=
  match fuel, s with
  | O, _ => Decoded []
  | _, [] => Decoded []
  | S fuel, c :: s' =>
      if negb (ascii_eqb c "%") then prepend c (decode_loop fuel s') else
      match escape s with
      | None => Malformed
      | Some (b, rest) =>
          if b <? 128 then prepend (chr b) (decode_loop fuel rest)
          else if (b =? 194) || (b =? 195) then
            match escape rest with
            | Some (b2, rest2) =>
                if (128 <=? b2) && (b2 <? 192)
                then prepend (chr ((b - 192) * 64 + (b2 - 128))) (decode_loop fuel rest2)
                else Malformed
            | None => Malformed
            end
          else if (196 <=? b) && (b <? 245) then Wide
          else Malformed
      end
  end.

(** Every step consumes a character, so the length is enough fuel. *)
Definition decodeURIComponent (s : jsstring) : decoded := decode_loop (length s) s.

(** ** Round trip *)

Lemma encode_char_length c : (1 ≤ length (encode_char c))%nat.
Proof. by_all_chars c. Qed.

Lemma encode_char_clean c : Forall (λ x, uri_unreserved x = true ∨ x = "%"%char) (encode_char c).
Proof. by_all_chars c. Qed.

(** Decoding the encoding of one character, whatever follows. *)
Lemma decode_encode_char c fuel rest :
  decode_loop (S fuel) (encode_char c ++ rest) = prepend c (decode_loop fuel rest).
Proof.
  destruct c as [b0 b1 b2 b3 b4 b5 b6 b7].
  destruct b0, b1, b2, b3, b4, b5, b6, b7; reflexivity.
Qed.

Lemma decode_loop_encode fuel s :
  (length s ≤ fuel)%nat → decode_loop fuel (encodeURIComponent s) = Decoded s.
Proof.
  revert fuel. induction s as [|c s IH]; intros fuel Hf; [by destruct fuel|].
  destruct fuel as [|fuel]; simpl in Hf; [lia|].
  change (encodeURIComponent (c :: s)) with (encode_char c ++ encodeURIComponent s).
  rewrite decode_encode_char, IH by lia. done.
Qed.

Lemma encodeURIComponent_length s : (length s ≤ length (encodeURIComponent s))%nat.
Proof.
  induction s as [|c s IH]; [done|].
  change (encodeURIComponent (c :: s)) with (encode_char c ++ encodeURIComponent s).
  rewrite length_app. pose proof (encode_char_length c). simpl. lia.
Qed.

Lemma decode_encodeURIComponent s : decodeURIComponent (encodeURIComponent s) = Decoded s.
Proof. apply decode_loop_encode, encodeURIComponent_length. Qed.

Lemma encodeURIComponent_inj s k : encodeURIComponent s = encodeURIComponent k → s = k.
Proof.
  intros H. apply (f_equal decodeURIComponent) in H.
  rewrite !decode_encodeURIComponent in H. congruence.
Qed.

(** An encoded string holds unreserved characters and percent signs only. *)
Lemma encodeURIComponent_clean s :
  Forall (λ x, uri_unreserved x = true ∨ x = "%"%char) (encodeURIComponent s).
Proof.
  induction s as [|c s IH]; [constructor|].
  change (encodeURIComponent (c :: s)) with (encode_char c ++ encodeURIComponent s).
  apply Forall_app_2; [apply encode_char_clean | done].
Qed.

Lemma encodeURIComponent_no (c : ascii) s :
  uri_unreserved c = false → c ≠ "%"%char → c ∉ encodeURIComponent s.
Proof.
  intros H1 H2 H3. pose proof (encodeURIComponent_clean s) as H.
  rewrite Forall_forall in H. destruct (H c H3); congruence.
Qed.

Lemma encodeURIComponent_nil s : encodeURIComponent s = [] ↔ s = [].
Proof.
  split; [|by intros ->]. intros H. pose proof (encodeURIComponent_length s) as Hl.
  rewrite H in Hl. destruct s; simpl in Hl; [done|lia].
Qed.
