(* ===== verification/UpdatePackage.v ===== *)
(** * Update packages of the web site

    [web/js/lib/update-package.js], [web/js/lib/brotli-zip.js] and
    [web/js/workers/update-package-worker.js]: choice of the number of range
    workers, the tiling of a package by byte ranges, the worker protocol, the
    bounded body reader, reassembly, integrity check and repackaging. Network
    responses, the digest, the decompressor and the ZIP writer are parameters. *)

From S2P Require Import Prelude JsText.
From Stdlib Require Import QArith.
From Stdlib Require Strings.Byte.

Abbreviation bytes := (list Byte.byte).
Local Open Scope Z_scope.

Definition zlen (b : bytes) : Z := Z.of_nat (length b).

Definition minParallelPartSize : Z := Z.shiftl 8 20.
Definition maxDownloadWorkers : Z := 4.
Definition maxUpdatePackageSize : Z := 2 * 1024 * 1024 * 1024.
Definition maxUpdateExecutableSize : Z := 512 * 1024 * 1024.

(** ** Targets and names *)

(** A release target; [None] is a missing field. *)
Record update_target := {
  t_file : option jsstring;
  t_format : option jsstring;
  t_packageFormat : option jsstring;
}.

(** [o || d] for an optional string. *)
Definition field_or (o : option jsstring) (d : jsstring) : jsstring :=
  match o with Some s => str_or s d | None => d end.

Definition isBrotliUpdateTarget (target : option update_target) : bool :=
  let format := toLowerCase
    (field_or (target ≫= t_format) (field_or (target ≫= t_packageFormat) [])) in
  eqs format "brotli" || endsWith (toLowerCase (field_or (target ≫= t_file) [])) ".br".

(** [size] is [Number(size) || 0]; [hardwareConcurrency] and [deviceMemory] are
    numbers, [None] when they convert to [NaN]. *)
Definition chooseUpdateDownloadWorkers
    (size : Z) (hardwareConcurrency : option Z) (deviceMemory : option Q) : Z :=
  let sizeWorkers := Z.max 1 (ceil_div (Z.max 0 size) minParallelPartSize) in
  let cpus := match hardwareConcurrency with
              | Some n => if n =? 0 then 1 else n
              | None => 1
              end - 1 in
  let cpuWorkers := Z.max 1 (Z.min maxDownloadWorkers (if cpus =? 0 then 1 else cpus)) in
  let memoryWorkers := match deviceMemory with
                       | Some m => if Qle_bool m 2 then 1
                                   else if Qle_bool m 4 then 2 else maxDownloadWorkers
                       | None => maxDownloadWorkers
                       end in
  Z.max 1 (Z.min (Z.min maxDownloadWorkers sizeWorkers) (Z.min cpuWorkers memoryWorkers)).

Definition legacyZipFilename (filename : option jsstring) : jsstring :=
  let name := field_or filename "renop-update.br" in
  if endsWith (toLowerCase name) ".br"
  then take (length name - 3) name ++ ".zip"
  else name ++ ".zip".

(** ** Byte ranges *)

(** An inclusive range of byte offsets. *)
Record byte_range := { start : Z; end_ : Z }.

Fixpoint byteRanges_loop (size partSize : Z) (index : nat) (todo : nat) : list byte_range :=
  match todo with
  | O => []
  | S todo =>
      let start := Z.of_nat index * partSize in
      if size <=? start then []
      else {| start := start; end_ := Z.min (size - 1) (start + partSize - 1) |}
           :: byteRanges_loop size partSize (S index) todo
  end.

Definition byteRanges (size : Z) (workers : nat) : list byte_range :=
  byteRanges_loop size (ceil_div size (Z.of_nat workers)) 0 workers.

(** The offsets of a range. *)
Definition offsets (r : byte_range) : list Z := seqZ (start r) (end_ r - start r + 1).

(** ** The worker *)

Inductive worker_message :=
  | MProgress (jobId : jsstring) (delta : Z)
  | MError (jobId : jsstring) (error : jsstring)
  | MData (jobId : jsstring) (data : bytes)
  | MOther (jobId : jsstring).

(** What [reader.read()] yields: a chunk, a value that is no byte array, or a rejection. *)
Inductive read_event :=
  | RChunk (value : bytes)
  | RNotBytes
  | RFail (error : jsstring).

Record http_response := {
  status : Z;
  content_length : Z;          (* Number(headers.get('content-length')) || 0 *)
  body : option (list read_event);  (* None: no body stream *)
  arrayBuffer : bytes;
}.

Definition resp_ok (r : http_response) : bool := (200 <=? status r) && (status r <? 300).

(** The reading loop: [received] bytes so far, [acc] what is written in [output]
    or collected in [chunks]. Returns the progress messages and the outcome. *)
Fixpoint read_loop (jobId : jsstring) (output : option Z) (received : Z) (acc : bytes)
    (reads : list read_event) : list worker_message * result jsstring bytes :=
  match reads with
  | [] =>
      match output with
      | Some size => if received =? size then ([], Ok acc)
                     else ([], Throw (js "download_size_mismatch"))
      | None => ([], Ok acc)
      end
  | RFail e :: _ => ([], Throw e)
  | RNotBytes :: reads => read_loop jobId output received acc reads
  | RChunk value :: reads =>
      if zlen value =? 0 then read_loop jobId output received acc reads
      else if match output with Some size => size <? received + zlen value | None => false end
      then ([], Throw (js "download_size_mismatch"))
      else
        let received' := received + zlen value in
        if maxUpdatePackageSize <? received' then ([], Throw (js "package_too_large"))
        else
          let '(msgs, out) := read_loop jobId output received' (acc ++ value) reads in
          (MProgress jobId (zlen value) :: msgs, out)
  end.

Definition readResponseBytes (response : http_response) (jobId : jsstring)
    : list worker_message * result jsstring bytes :=
  match body response with
  | None => ([], Ok (arrayBuffer response))
  | Some reads =>
      let expected := content_length response in
      if maxUpdatePackageSize <? expected then ([], Throw (js "package_too_large"))
      else read_loop jobId (if 0 <? expected then Some expected else None) 0 [] reads
  end.

(** A download job; [range] holds when both [start] and [end] are integers. *)
Record download_job := { dl_jobId : jsstring; dl_range : option byte_range }.

(** [fetched] is what [fetch] answers. *)
Definition download (job : download_job) (fetched : result jsstring http_response)
    : list worker_message * result jsstring bytes :=
  match fetched with
  | Throw e => ([], Throw e)
  | Ok response =>
      let ranged := match dl_range job with Some _ => true | None => false end in
      if negb (resp_ok response) || (ranged && negb (status response =? 206))
      then ([], Throw (if ranged && (status response =? 200) then js "range_unsupported"
                       else js "download_http_" ++ str_of_Z (status response)))
      else readResponseBytes response (dl_jobId job)
  end.

(** The [message] listener of the worker: the messages it posts for one job. *)
Definition worker_reply (jobId : jsstring) (ran : list worker_message * result jsstring bytes)
    : list worker_message :=
  fst ran ++ match snd ran with
             | Ok data => [MData jobId data]
             | Throw e => [MError jobId e]
             end.

(** ** The page's side of the protocol *)

Inductive worker_event :=
  | EvMessage (m : worker_message)
  | EvError (message : jsstring).

Definition message_job (m : worker_message) : jsstring :=
  match m with MProgress j _ | MError j _ | MData j _ | MOther j => j end.

(** The progress deltas reported and the settlement of the promise, [None] while
    it is pending. Events after the settlement are not seen: the worker is
    terminated. *)
Fixpoint runWorkerJob (jobId : jsstring) (events : list worker_event)
    : list Z * option (result jsstring bytes) :=
  match events with
  | [] => ([], None)
  | EvError message :: _ => ([], Some (Throw (str_or message "worker_failed")))
  | EvMessage m :: events =>
      if negb (eqs (message_job m) jobId) then runWorkerJob jobId events
      else match m with
           | MProgress _ delta =>
               let '(deltas, out) := runWorkerJob jobId events in (delta :: deltas, out)
           | MError _ error => ([], Some (Throw (str_or error "worker_failed")))
           | MData _ data => ([], Some (Ok data))
           | MOther _ => ([], Some (Throw (js "invalid_worker_response")))
           end
  end.

(** ** Downloading a package *)

(** What the page asks of a worker, and the hints of the browser. *)
Record navigator_hints := { hardwareConcurrency : option Z; deviceMemory : option Q }.

(** The digits of [/\/(\d+)$/] in a Content-Range header, as a number. *)
Fixpoint digits_value (acc : Z) (s : jsstring) : Z :=
  match s with [] => acc | c :: s => digits_value (acc * 10 + Z.of_N (code c - 48)) s end.

Definition content_range_total (contentRange : jsstring) : option Z :=
  match lastIndexOf contentRange "/" with
  | Some i =>
      let digits := drop (S i) contentRange in
      if truthy digits && forallb is_digit digits then Some (digits_value 0 digits) else None
  | None => None
  end.

(** The [fetch] of the first byte: status and Content-Range ([""] when absent). *)
Record probe_response := { p_status : Z; p_content_range : jsstring }.

(** [onProgress(received, total)] for the deltas reported by the workers, in order. *)
Fixpoint progress_calls (received : Z) (total : Z → Z) (deltas : list Z) : list (Z * Z) :=
  match deltas with
  | [] => []
  | d :: deltas => (received + d, total (received + d)) :: progress_calls (received + d) total deltas
  end.

Definition size_or_received (size received : Z) : Z := if size =? 0 then received else size.

Section downloading.
(** The outcome of the fetch of the first byte, of the worker job of a range
    and of the unranged job, and the order in which the range jobs settle. *)
Context (hints : navigator_hints) (probe : result jsstring probe_response).
Context (range_job : nat → byte_range → result jsstring bytes).
Context (complete_job : result jsstring bytes) (settled : nat → list nat).

Definition range_outcome (ranges : list byte_range) (index : nat) : result jsstring bytes :=
  match ranges !! index with
  | Some r => range_job index r
  | None => Ok []
  end.

Definition downloadPackage (declaredSize : Z) : result jsstring bytes :=
  let size := Z.max 0 declaredSize in
  if maxUpdatePackageSize <? size then Throw (js "package_too_large") else
  let workerCount :=
    chooseUpdateDownloadWorkers size (hardwareConcurrency hints) (deviceMemory hints) in
  if (1 <? workerCount) && (0 <? size) then
    let! p := probe in
    if p_status p =? 206 then
      let size := match content_range_total (p_content_range p) with
                  | Some total => if 0 <? total then total else size
                  | None => size
                  end in
      let ranges := byteRanges size (Z.to_nat workerCount) in
      let! parts := promise_all (range_outcome ranges) (settled (length ranges)) (length ranges) in
      let output := mjoin parts in
      if zlen output =? size then Ok output else Throw (js "download_size_mismatch")
    else if negb ((200 <=? p_status p) && (p_status p <? 300))
    then Throw ("download_http_" ++ str_of_Z (p_status p))
    else complete_job
  else complete_job.
End downloading.

(** ** Integrity and repackaging *)

Definition hex_digit (n : N) : ascii := if (n <? 10)%N then chr (48 + n) else chr (87 + n).

(** [value.toString(16).padStart(2, '0')] *)
Definition hex_byte (b : Byte.byte) : jsstring :=
  let n := Byte.to_N b in [hex_digit (N.div n 16); hex_digit (N.modulo n 16)].

Definition is_hex_digit (c : ascii) : bool := is_digit c || in_range 97 102 c.  (* [0-9a-f] *)

Record zip_entry := { entry_name : jsstring; entry_bytes : bytes; entry_attrs : option (Z * Z) }.

Record convert_options := {
  uncompressedSize : Z; declared_size : Z; expected_sha256 : option jsstring;
  executableName : jsstring; filename : option jsstring;
}.

Section packaging.
(** SHA-256, the Brotli decoder and the ZIP writer. *)
Context (digest : bytes → bytes).
Context (decompress : bytes → result jsstring bytes).
Context (zipSync : list zip_entry → bytes).

Definition verifySHA256 (data : bytes) (expectedHex : option jsstring) : bool :=
  let expected := toLowerCase (trim (field_or expectedHex [])) in
  if negb ((length expected =? 64)%nat && forallb is_hex_digit expected) then false
  else let actual := mjoin (hex_byte <$> digest data) in eqs actual expected.

(** An object literal with a repeated key keeps the first position and the last value. *)
Fixpoint put_entry (e : zip_entry) (l : list zip_entry) : list zip_entry :=
  match l with
  | [] => [e]
  | x :: l => if eqs (entry_name x) (entry_name e) then e :: l else x :: put_entry e l
  end.

Definition brotliExecutableToZip (compressed : bytes) (name : jsstring) (expectedSize : Z)
    (additionalFiles : list zip_entry) : result jsstring bytes :=
  let! executable := decompress compressed in
  if (0 <? expectedSize) && negb (zlen executable =? expectedSize)
  then Throw (js "uncompressed_size_mismatch")
  else
    let windows := endsWith (toLowerCase name) ".exe" in
    let entry := {| entry_name := name; entry_bytes := executable;
                    entry_attrs := if windows then None else Some (3, Z.shiftl 493 16) |} in
    Ok (zipSync (foldl (λ l e, put_entry e l) [entry] additionalFiles)).

Definition legalNames : list jsstring :=
  [js "LICENSE"; js "README.md"; js "THIRD_PARTY_NOTICES.md"].

(** [legal] answers the fetch of a release document; [settled] is the order of the answers. *)
Definition convert (legal : jsstring → result jsstring http_response) (settled : list nat)
    (data : bytes)
    (name : jsstring) (expectedSize : Z) : result jsstring bytes :=
  let! responses := promise_all (λ i, legal (default [] (legalNames !! i))) settled 3 in
  let! legalEntries :=
    foldr (λ '(n, r) acc,
             if resp_ok r then
               let! entries := acc in
               Ok ({| entry_name := n; entry_bytes := arrayBuffer r; entry_attrs := None |} :: entries)
             else Throw (js "release_document_unavailable"))
          (Ok []) (zip legalNames responses) in
  brotliExecutableToZip data name expectedSize legalEntries.

(** [Math.round(received / total * 100)], capped. *)
Definition download_percent (received total : Z) : Z :=
  if 0 <? total then Z.min 100 ((200 * received + total) / (2 * total)) else 0.

(** [downloaded] is the outcome of [downloadPackage], [converted] that of the
    conversion worker on the bytes it is handed. *)
Definition convertBrotliUpdateToZip (options : convert_options)
    (downloaded : Z → result jsstring bytes)
    (converted : bytes → jsstring → Z → result jsstring bytes)
    : result jsstring (bytes * jsstring) :=
  let expectedSize := uncompressedSize options in
  if (expectedSize <=? 0) || (maxUpdateExecutableSize <? expectedSize)
  then Throw (js "invalid_uncompressed_size") else
  let! compressed := downloaded (declared_size options) in
  if negb (verifySHA256 compressed (expected_sha256 options))
  then Throw (js "integrity_failed") else
  let! zip := converted compressed (executableName options) expectedSize in
  Ok (zip, legacyZipFilename (filename options)).
End packaging.

(** ** Byte ranges tile the package *)

(** The bytes a server sends for an inclusive range of [content]. *)
Definition slice (content : bytes) (r : byte_range) : bytes :=
  take (Z.to_nat (end_ r - start r + 1)) (drop (Z.to_nat (start r)) content).

Lemma byteRanges_loop_offsets size partSize index todo :
  0 < partSize → size ≤ (Z.of_nat index + Z.of_nat todo) * partSize →
  mjoin (offsets <$> byteRanges_loop size partSize index todo)
  = seqZ (Z.of_nat index * partSize) (size - Z.of_nat index * partSize).
Proof.
  intros Hp. revert index. induction todo as [|todo IH]; intros index Hs; simpl.
  - rewrite seqZ_nil by lia. done.
  - destruct (Z.leb_spec size (Z.of_nat index * partSize)).
    + rewrite seqZ_nil by lia. done.
    + csimpl. rewrite IH by lia. unfold offsets; simpl.
      set (s := Z.of_nat index * partSize) in *.
      replace (Z.of_nat (S index) * partSize) with (s + partSize) by lia.
      destruct (Z.le_gt_cases size (s + partSize)).
      * rewrite Z.min_l by lia. rewrite (seqZ_nil _ (size - _)) by lia.
        rewrite app_nil_r. f_equal. lia.
      * rewrite Z.min_r by lia.
        replace (s + partSize - 1 - s + 1) with partSize by lia.
        rewrite <- seqZ_app by lia. f_equal. lia.
Qed.

Lemma byteRanges_loop_slices content partSize index todo :
  0 < partSize → zlen content ≤ (Z.of_nat index + Z.of_nat todo) * partSize →
  mjoin (slice content <$> byteRanges_loop (zlen content) partSize index todo)
  = drop (Z.to_nat (Z.of_nat index * partSize)) content.
Proof.
  unfold zlen. intros Hp. revert index. induction todo as [|todo IH]; intros index Hs; simpl.
  - rewrite drop_ge by lia. done.
  - destruct (Z.leb_spec (Z.of_nat (length content)) (Z.of_nat index * partSize)).
    + rewrite drop_ge by lia. done.
    + csimpl. rewrite IH by lia. unfold slice; simpl.
      set (s := Z.of_nat index * partSize) in *.
      replace (Z.of_nat (S index) * partSize) with (s + partSize) by lia.
      destruct (Z.le_gt_cases (Z.of_nat (length content)) (s + partSize)).
      * rewrite (drop_ge _ (Z.to_nat (s + partSize))), app_nil_r by lia.
        rewrite take_ge; [done|]. rewrite length_drop. lia.
      * rewrite Z.min_r by lia.
        replace (Z.to_nat (s + partSize)) with (Z.to_nat s + Z.to_nat partSize)%nat by lia.
        rewrite <- drop_drop. replace (s + partSize - 1 - s + 1) with partSize by lia.
        apply take_drop.
Qed.

Lemma byteRanges_part_size size (workers : nat) :
  0 < size → (0 < workers)%nat →
  0 < ceil_div size (Z.of_nat workers) ∧
  size ≤ (0 + Z.of_nat workers) * ceil_div size (Z.of_nat workers).
Proof.
  intros. pose proof (ceil_div_bounds size (Z.of_nat workers)).
  pose proof (ceil_div_pos size (Z.of_nat workers)). lia.
Qed.

Lemma byteRanges_loop_length size partSize index todo :
  (length (byteRanges_loop size partSize index todo) ≤ todo)%nat.
Proof.
  revert index. induction todo as [|todo IH]; intros index; simpl; [done|].
  destruct (_ <=? _); simpl; [lia|]. specialize (IH (S index)). lia.
Qed.

(** ** The reading loop *)

(** The bytes a sequence of reads delivers, [None] when a read is rejected. *)
Fixpoint delivered (reads : list read_event) : option bytes :=
  match reads with
  | [] => Some []
  | RChunk value :: reads => app value <$> delivered reads
  | RNotBytes :: reads => delivered reads
  | RFail _ :: _ => None
  end.

Definition is_progress_of (jobId : jsstring) (m : worker_message) : Prop :=
  ∃ delta, m = MProgress jobId delta.

Definition delta_of (m : worker_message) : Z :=
  match m with MProgress _ d => d | _ => 0 end.

Lemma read_loop_messages jobId output received acc reads :
  Forall (is_progress_of jobId) (read_loop jobId output received acc reads).1.
Proof.
  revert received acc. induction reads as [|[value| |e] reads IH]; intros received acc; simpl.
  - destruct output as [size|]; [destruct (_ =? _)|]; constructor.
  - destruct (_ =? _); [apply IH|]. destruct (match output with Some _ => _ | None => _ end); [constructor|].
    destruct (_ <? _); [constructor|].
    specialize (IH (received + zlen value) (acc ++ value)).
    destruct (read_loop _ _ _ _ _) as [msgs out]. constructor; [by eexists | done].
  - apply IH.
  - constructor.
Qed.

Lemma zlen_app a b : zlen (a ++ b) = zlen a + zlen b.
Proof. unfold zlen. rewrite length_app. lia. Qed.

Lemma zlen_nonneg a : 0 ≤ zlen a.
Proof. unfold zlen. lia. Qed.

Lemma zlen_zero a : zlen a = 0 → a = [].
Proof. unfold zlen. destruct a; simpl; [done | lia]. Qed.

#[export] Hint Resolve zlen_nonneg : renop.

(** What a stream is accepted as. *)
Definition accepts (output : option Z) (received : Z) (acc : bytes) (reads : list read_event)
    (b : bytes) : Prop :=
  ∃ rest, delivered reads = Some rest ∧ b = acc ++ rest ∧
    received + zlen rest ≤ maxUpdatePackageSize ∧
    match output with Some size => received + zlen rest = size | None => True end.

Lemma read_loop_spec jobId output received acc reads b :
  received ≤ maxUpdatePackageSize →
  match output with Some size => size ≤ maxUpdatePackageSize | None => True end →
  (read_loop jobId output received acc reads).2 = Ok b ↔ accepts output received acc reads b.
Proof.
  unfold accepts. intros Hr Ho. revert received acc Hr.
  induction reads as [|[value| |e] reads IH]; intros received acc Hr; simpl.
  - change (zlen []) with 0 in *. transitivity (match output with Some size => received = size | None => True end ∧ b = acc).
    + destruct output as [size|]; [destruct (Z.eqb_spec received size)|]; simpl; naive_solver.
    + split.
      * intros [Hs ->]. exists []. rewrite app_nil_r. change (zlen []) with 0.
        split_and!; [done | done | lia |]. destruct output; lia.
      * intros (rest & [= <-] & -> & _ & Hs). rewrite app_nil_r. change (zlen []) with 0 in Hs.
        split; [|done]. destruct output; lia.
  - destruct (Z.eqb_spec (zlen value) 0) as [Hz|Hz].
    { apply zlen_zero in Hz as ->. rewrite IH by done. simpl.
      by destruct (delivered reads). }
    destruct (match output with Some _ => _ | None => _ end) eqn:Ef; [|destruct (Z.ltb_spec maxUpdatePackageSize (received + zlen value))]; simpl.
    1,2: split; [done|]; intros (rest & (r & _ & ->)%fmap_Some & _ & Hm & Hs);
      rewrite zlen_app in *; pose proof (zlen_nonneg r); destruct output; bool_prop; (done || lia).
    specialize (IH (received + zlen value) (acc ++ value)).
    destruct (read_loop _ _ _ _ _) as [msgs out]. simpl in *. rewrite IH by done.
    split; [intros (rest & -> & -> & ? & ?) | intros (rest & (r & -> & ->)%fmap_Some & -> & ? & ?)].
    + eexists. split; [done|]. rewrite zlen_app, <- app_assoc. split_and!; [done | lia |].
      destruct output; lia.
    + rewrite zlen_app in *. eexists. split; [done|]. rewrite <- app_assoc.
      split_and!; [done | lia |]. destruct output; lia.
  - by rewrite IH.
  - split; [done | by intros (? & ? & _)].
Qed.

Lemma read_loop_progress jobId output received acc reads b :
  (read_loop jobId output received acc reads).2 = Ok b →
  zlen acc = received →
  received + sumZ (delta_of <$> (read_loop jobId output received acc reads).1) = zlen b.
Proof.
  revert received acc. induction reads as [|[value| |e] reads IH]; intros received acc; simpl.
  - destruct output as [size|]; [destruct (_ =? _)|]; simpl; intros; simplify_eq; lia.
  - destruct (_ =? _); [apply IH|]. destruct (match output with Some _ => _ | None => _ end); [done|].
    destruct (_ <? _); [done|]. specialize (IH (received + zlen value) (acc ++ value)).
    destruct (read_loop _ _ _ _ _) as [msgs out]. csimpl in *. intros Hb Ha.
    rewrite zlen_app in IH. specialize (IH Hb ltac:(lia)). lia.
  - apply IH.
  - done.
Qed.

(** ** Hexadecimal digests *)

Lemma hex_digit_inj n m : (n < 16)%N → (m < 16)%N → hex_digit n = hex_digit m → n = m.
Proof.
  intros Hn Hm H. apply (f_equal code) in H. unfold code, hex_digit, chr in H.
  destruct (N.ltb_spec n 10), (N.ltb_spec m 10);
    rewrite !N_ascii_embedding in H by lia; lia.
Qed.

Lemma hex_byte_inj b1 b2 : hex_byte b1 = hex_byte b2 → b1 = b2.
Proof.
  intros H. injection H as H1 H2. pose proof (Byte.to_N_bounded b1). pose proof (Byte.to_N_bounded b2).
  apply hex_digit_inj in H1; [|apply N.Div0.div_lt_upper_bound; lia..].
  apply hex_digit_inj in H2; [|apply N.mod_lt; lia..].
  assert (Byte.to_N b1 = Byte.to_N b2) as E.
  { rewrite (N.div_mod (Byte.to_N b1) 16), (N.div_mod (Byte.to_N b2) 16) by lia. congruence. }
  apply (f_equal Byte.of_N) in E. rewrite !Byte.of_to_N in E. congruence.
Qed.

Lemma hex_bytes_inj l1 l2 : mjoin (hex_byte <$> l1) = mjoin (hex_byte <$> l2) → l1 = l2.
Proof.
  revert l2. induction l1 as [|b1 l1 IH]; intros [|b2 l2]; csimpl; try done.
  intros [= H1 H2 H3]. f_equal; [apply hex_byte_inj; unfold hex_byte; congruence | auto].
Qed.

Lemma hex_byte_plain b : Forall (λ c, is_space c = false ∧ lower_char c = c) (hex_byte b).
Proof. destruct b; repeat constructor. Qed.

Lemma hex_text_normal (l : bytes) :
  toLowerCase (trim (mjoin (hex_byte <$> l))) = mjoin (hex_byte <$> l).
Proof.
  assert (H : Forall (λ c, is_space c = false ∧ lower_char c = c) (mjoin (hex_byte <$> l))).
  { induction l as [|b l IH]; [constructor|].
    change (mjoin _) with (hex_byte b ++ mjoin (hex_byte <$> l)).
    apply Forall_app_2; [apply hex_byte_plain | done]. }
  apply Forall_and in H as [H1 H2].
  rewrite trim_id by (by apply trimmed_no_space). by apply toLowerCase_id.
Qed.

(** ** Properties *)

(** The byte ranges a download is split into tile the package: for a positive
    size and worker count their offsets, in order, are exactly 0 to size - 1, each
    once; and there are no more ranges than workers. *)
Theorem byteRanges_tile size workers :
  0 < size → (0 < workers)%nat →
  mjoin (offsets <$> byteRanges size workers) = seqZ 0 size ∧
  (length (byteRanges size workers) ≤ workers)%nat.
Proof.
  intros Hs Hw. unfold byteRanges. destruct (byteRanges_part_size size workers Hs Hw).
  split; [|apply byteRanges_loop_length].
  rewrite byteRanges_loop_offsets by (simpl; lia). f_equal; lia.
Qed.

Lemma byteRanges_tile_witness :
  0 < 10 ∧ mjoin (offsets <$> byteRanges 10 4) = seqZ 0 10 ∧ length (byteRanges 10 4) = 4%nat.
Proof.
  split_and!; [lia | | reflexivity].
  exact (proj1 (byteRanges_tile 10 4 ltac:(lia) ltac:(lia))).
Defined.

(** Between one and four range workers are chosen, never more than one per
    8 MiB part of the package, and a single one when the device has at most 2 GiB
    of memory. *)
Theorem chooseUpdateDownloadWorkers_bounds size hc dm :
  let w := chooseUpdateDownloadWorkers size hc dm in
  1 ≤ w ≤ maxDownloadWorkers ∧
  w ≤ Z.max 1 (ceil_div (Z.max 0 size) minParallelPartSize) ∧
  (∀ m, dm = Some m → Qle_bool m 2 = true → w = 1).
Proof.
  unfold chooseUpdateDownloadWorkers, maxDownloadWorkers; cbv zeta.
  split_and!; [lia | lia | lia |]. intros m -> ->. lia.
Qed.

(** A body stream without a rejected read is accepted exactly when it stays
    within the 2 GiB cap and, if a length was announced, when that length is within
    the cap and is the number of bytes received; what is returned is then the
    concatenation of the chunks, and the reported progress adds up to its length. *)
Theorem readResponseBytes_spec response jobId reads all b :
  body response = Some reads → delivered reads = Some all →
  ((readResponseBytes response jobId).2 = Ok b ↔
   b = all ∧ zlen all ≤ maxUpdatePackageSize ∧ content_length response ≤ maxUpdatePackageSize ∧
   (0 < content_length response → zlen all = content_length response)) ∧
  ((readResponseBytes response jobId).2 = Ok b →
   sumZ (delta_of <$> (readResponseBytes response jobId).1) = zlen b).
Proof.
  intros Hb Hd. unfold readResponseBytes. rewrite Hb.
  destruct (Z.ltb_spec maxUpdatePackageSize (content_length response)); simpl.
  { split; [|done]. split; [done | lia]. }
  split.
  - rewrite read_loop_spec; [| unfold maxUpdatePackageSize; lia | destruct (0 <? _); [lia | done]].
    unfold accepts. rewrite Hd. split.
    + intros (rest & [= <-] & -> & Hm & Ho). split_and!; [done | lia | lia |].
      intros Hp. rewrite (proj2 (Z.ltb_lt _ _) Hp) in Ho. lia.
    + intros (-> & ? & ? & Ho). exists all. split_and!; [done | done | lia |].
      destruct (Z.ltb_spec 0 (content_length response)); [|done]. specialize (Ho ltac:(lia)). lia.
  - intros H1. apply read_loop_progress in H1; [lia | done].
Qed.

Lemma readResponseBytes_spec_witness :
  (readResponseBytes {| status := 200; content_length := 2;
      body := Some [RChunk [Byte.x01]; RNotBytes; RChunk [Byte.x02]]; arrayBuffer := [] |}
    "j").2 = Ok [Byte.x01; Byte.x02].
Proof.
  apply (readResponseBytes_spec _ _ [RChunk [Byte.x01]; RNotBytes; RChunk [Byte.x02]]
    [Byte.x01; Byte.x02]); [reflexivity | reflexivity |].
  split_and!; [reflexivity | vm_compute; discriminate | vm_compute; discriminate | reflexivity].
Defined.

Lemma runWorkerJob_progress jobId msgs events :
  Forall (is_progress_of jobId) msgs →
  runWorkerJob jobId (EvMessage <$> msgs ++ events) =
  ((delta_of <$> msgs) ++ (runWorkerJob jobId (EvMessage <$> events)).1,
   (runWorkerJob jobId (EvMessage <$> events)).2).
Proof.
  induction 1 as [|m msgs [delta ->] _ IH]; csimpl.
  - by destruct (runWorkerJob _ _).
  - rewrite eqs_refl. simpl. by rewrite IH.
Qed.

Lemma download_messages job fetched :
  Forall (is_progress_of (dl_jobId job)) (download job fetched).1.
Proof.
  unfold download, readResponseBytes. destruct fetched as [r|]; [|constructor].
  destruct (_ || _); [constructor|]. destruct (body r); [|constructor].
  destruct (_ <? _); [constructor|]. apply read_loop_messages.
Qed.

(** The promise of a job settles as the worker's own computation does. *)
Definition relayed (out : result jsstring bytes) : result jsstring bytes :=
  match out with Ok data => Ok data | Throw e => Throw (str_or e "worker_failed") end.

(** C32: the worker protocol transports a download unchanged: whatever [fetch]
    answers, the messages the worker posts settle the page's promise with the
    outcome of the worker's own [download] (the data, or its error message), after
    reporting exactly the worker's progress deltas; messages of other jobs that
    precede them are ignored. *)
Theorem worker_protocol_relays job fetched foreign :
  Forall (λ m, message_job m ≠ dl_jobId job) foreign →
  runWorkerJob (dl_jobId job)
    (EvMessage <$> foreign ++ worker_reply (dl_jobId job) (download job fetched)) =
  (delta_of <$> (download job fetched).1, Some (relayed (download job fetched).2)).
Proof.
  intros Hf. induction Hf as [|m foreign Hm _ IH]; csimpl.
  - unfold worker_reply. rewrite runWorkerJob_progress by apply download_messages.
    destruct ((download job fetched).2) as [data|e]; csimpl; rewrite eqs_refl; simpl;
      by rewrite app_nil_r.
  - destruct (eqs (message_job m) (dl_jobId job)) eqn:E; [by apply eqs_true in E|].
    simpl. exact IH.
Qed.

Lemma worker_protocol_relays_witness :
  runWorkerJob "a" (EvMessage <$> [MError "b" "x"] ++ worker_reply "a"
    (download {| dl_jobId := "a"; dl_range := None |} (Throw (js "")))) =
  ([], Some (Throw (js "worker_failed"))).
Proof.
  rewrite (worker_protocol_relays {| dl_jobId := "a"; dl_range := None |} (Throw (js ""))).
  - reflexivity.
  - repeat constructor. discriminate.
Defined.

(** C27: a download whose range workers each return the bytes of their range is
    reassembled to the served package, in whatever order the workers finish; the
    unranged fallback returns the package as well. *)
Theorem downloadPackage_reassembles hints p range_job complete_job settled declaredSize content :
  declaredSize ≤ maxUpdatePackageSize →
  200 ≤ p_status p < 300 →
  (p_status p = 206 → content_range_total (p_content_range p) = Some (zlen content) ∧ 0 < zlen content) →
  (∀ i r, range_job i r = Ok (slice content r)) →
  complete_job = Ok content →
  (∀ n, settled n ≡ₚ seq 0 n) →
  downloadPackage hints (Ok p) range_job complete_job settled declaredSize = Ok content.
Proof.
  intros Hmax Hok H206 Hjob -> Hset. unfold downloadPackage.
  set (w := chooseUpdateDownloadWorkers _ _ _).
  assert (1 ≤ w) by apply chooseUpdateDownloadWorkers_bounds.
  destruct (Z.ltb_spec maxUpdatePackageSize (Z.max 0 declaredSize)); [unfold maxUpdatePackageSize in *; lia|].
  destruct ((1 <? w) && _); [|done]. simpl.
  destruct (Z.eqb_spec (p_status p) 206) as [E|E].
  - destruct (H206 E) as [-> Hpos]. rewrite (proj2 (Z.ltb_lt _ _) Hpos).
    set (ranges := byteRanges _ _).
    rewrite (promise_all_resolved _ (λ i, match ranges !! i with
        Some r => slice content r | None => [] end)).
    + simpl. rewrite fmap_seq_lookup. unfold ranges, byteRanges.
      destruct (byteRanges_part_size (zlen content) (Z.to_nat w)) as [? ?]; [lia.. |].
      rewrite byteRanges_loop_slices by (simpl; lia). simpl. rewrite drop_0.
      by rewrite Z.eqb_refl.
    + apply Hset.
    + intros i Hi. unfold range_outcome.
      destruct (lookup_lt_is_Some_2 ranges i Hi) as [r ->]. apply Hjob.
  - rewrite (proj2 (Z.leb_le _ _)), (proj2 (Z.ltb_lt _ _)) by lia. done.
Qed.

Lemma downloadPackage_reassembles_witness :
  downloadPackage {| hardwareConcurrency := Some 8; deviceMemory := Some 8%Q |}
    (Ok {| p_status := 206; p_content_range := "bytes 0-0/3" |})
    (λ _ r, Ok (slice [Byte.x01; Byte.x02; Byte.x03] r)) (Ok [Byte.x01; Byte.x02; Byte.x03])
    (λ n, reverse (seq 0 n)) (Z.shiftl 40 20) = Ok [Byte.x01; Byte.x02; Byte.x03].
Proof.
  apply downloadPackage_reassembles; try reflexivity.
  - vm_compute; discriminate.
  - simpl; lia.
  - intros _. split; reflexivity.
  - intros n. apply reverse_Permutation.
Defined.

Lemma hex_text_length (l : bytes) : length (mjoin (hex_byte <$> l)) = (2 * length l)%nat.
Proof. induction l as [|b l IH]; [done|]. change (mjoin _) with (hex_byte b ++ mjoin (hex_byte <$> l)). rewrite length_app, IH. change (length (hex_byte b)) with 2%nat. cbn [length]. lia. Qed.

(** C20: a conversion succeeds only on authenticated bytes: the metadata states a SHA-256 digest (spaces around
    it and the case of its digits do not matter), the bytes handed to the decompressor are those that were downloaded, and their digest,
    of 32 bytes, is the stated one; so without a stated digest, or with text that is none, no conversion succeeds. The announced
    executable size is positive and at most 512 MiB. *)
Theorem convert_authenticates digest options downloaded converted zip name :
  convertBrotliUpdateToZip digest options downloaded converted = Ok (zip, name) →
  ∃ compressed stated, downloaded (declared_size options) = Ok compressed ∧
    expected_sha256 options = Some stated ∧
    toLowerCase (trim stated) = mjoin (hex_byte <$> digest compressed) ∧ length (digest compressed) = 32%nat ∧
    (∀ d, stated = mjoin (hex_byte <$> d) → digest compressed = d) ∧
    converted compressed (executableName options) (uncompressedSize options) = Ok zip ∧
    0 < uncompressedSize options ≤ maxUpdateExecutableSize.
Proof.
  unfold convertBrotliUpdateToZip; cbv zeta.
  destruct ((_ <=? 0) || _) eqn:Hsize; [done|].
  destruct (downloaded (declared_size options)) as [c|]; simpl; [|done].
  destruct (verifySHA256 digest c (expected_sha256 options)) eqn:Hv; simpl; [|done].
  destruct (converted c _ _) as [z|] eqn:Hc; simpl; [|done]. intros [= <- <-].
  unfold verifySHA256 in Hv. destruct (expected_sha256 options) as [stated|]; [|done]. cbn [field_or] in Hv.
  assert (str_or stated [] = stated) as E by (by destruct stated). rewrite ?E in Hv.
  destruct (negb _) eqn:Hre; [done|]. apply eqs_true in Hv. apply negb_false_iff, andb_true_iff in Hre as [Hlen%Nat.eqb_eq _].
  exists c, stated. bool_prop. split_and!; [done|done|by rewrite <- Hv| |intros d ->|done|done|done].
  - rewrite <- Hv, hex_text_length in Hlen. lia.
  - apply hex_bytes_inj. by rewrite Hv, hex_text_normal.
Qed.

(** The stated digest has capitals and a line break; a missing one authenticates nothing. *)
Definition witness_digest : bytes → bytes := λ b, repeat Byte.xab (31 + length b).
Definition witness_options (stated : option jsstring) : convert_options :=
  {| uncompressedSize := 5; declared_size := 1; expected_sha256 := stated; executableName := "renop"; filename := Some (js "renop.br") |}.
Definition witness_stated : jsstring := mjoin (repeat (js "Ab") 32) ++ [chr 10].

Lemma convert_authenticates_witness :
  convertBrotliUpdateToZip witness_digest (witness_options None) (λ _, Ok [Byte.x07]) (λ b _ _, Ok b) = Throw (js "integrity_failed") ∧
  ∃ compressed stated, Ok (E:=jsstring) [Byte.x07] = Ok compressed ∧ Some witness_stated = Some stated ∧
    toLowerCase (trim stated) = mjoin (hex_byte <$> witness_digest compressed) ∧ length (witness_digest compressed) = 32%nat ∧
    (∀ d, stated = mjoin (hex_byte <$> d) → witness_digest compressed = d) ∧
    Ok (E:=jsstring) compressed = Ok [Byte.x07] ∧ 0 < 5 ≤ maxUpdateExecutableSize.
Proof.
  split; [vm_compute; reflexivity|].
  exact (convert_authenticates witness_digest (witness_options (Some witness_stated))
    (λ _, Ok [Byte.x07]) (λ b _ _, Ok b) [Byte.x07] (legacyZipFilename (Some (js "renop.br"))) eq_refl).
Defined.
