(* ===== verification/ChunkedUpload.v ===== *)
(** * Chunked upload

    [internal/service/frontend/renop-html/js/chunked-upload.js]: the choice of the
    part size and of the number of workers, the upload session, the workers that
    share one queue of chunks with retries and a first error, the coalesced progress
    reports, and the decision to complete or to abort the session. The workers
    interleave at their [await]s; an event is what wakes one of them, and [exec] is
    the code that runs until the next [await]. *)

From S2P Require Import Prelude JsText JsValue Uri.

Local Open Scope Z_scope.

(** ** Sizes *)

Definition CHUNK_THRESHOLD : Z := 8 * 1024 * 1024.
Definition PREFERRED_CHUNK_SIZE : Z := 4 * 1024 * 1024.
Definition MAX_CHUNK_SIZE : Z := 32 * 1024 * 1024.
Definition CHUNK_CONCURRENCY : Z := 4.
Definition CHUNK_MAX_RETRIES : nat := 3.
Definition CHUNK_RETRY_BASE_MS : Z := 400.

(** [None] is a missing file. *)
Definition shouldUseChunkedUpload (file_size : option Z) : bool :=
  match file_size with Some size => CHUNK_THRESHOLD <=? size | None => false end.

Definition suggestChunkSize (size : Z) : Z :=
  if size <=? 0 then PREFERRED_CHUNK_SIZE
  else if size <=? 8 * 1024 * 1024 then size
  else if size <=? 32 * 1024 * 1024 then 4 * 1024 * 1024
  else if size <=? 128 * 1024 * 1024 then 8 * 1024 * 1024
  else if size <=? 512 * 1024 * 1024 then 16 * 1024 * 1024
  else if size <=? 2 * 1024 * 1024 * 1024 then 24 * 1024 * 1024
  else MAX_CHUNK_SIZE.

Definition suggestConcurrency (fileSize chunkCount : Z) : Z :=
  let n := Z.max 0 chunkCount in
  if n <=? 1 then 1
  else
    let limit :=
      if fileSize <? 32 * 1024 * 1024 then 3
      else if fileSize <? 256 * 1024 * 1024 then 5
      else 6 in
    Z.min limit n.

(** ** Data *)

Inductive ChunkStatus := Pending | Uploading | Done | Error | Retrying.

Global Instance ChunkStatus_eq_dec : EqDecision ChunkStatus.
Proof. solve_decision. Defined.

Record ChunkState := {
  index : nat; loaded : Z; total : Z; status : ChunkStatus; attempt : nat
}.

(** What the program reads of a failed request; [Body] is what [JSON.parse] returns. *)
Record UploadError (Body : Type) := {
  message : jsstring; err_status : Z; err_body : option Body;
  responseText : jsstring; errorCode : jsstring
}.
Arguments message {Body}. Arguments err_status {Body}. Arguments err_body {Body}.
Arguments responseText {Body}. Arguments errorCode {Body}.

(** The answer [putChunkWithProgress] resolves with. *)
Record put_result (Body : Type) := {
  put_ok : bool; put_status : Z; put_body : option Body;
  put_text : jsstring; put_code : jsstring
}.
Arguments put_ok {Body}. Arguments put_status {Body}. Arguments put_body {Body}.
Arguments put_text {Body}. Arguments put_code {Body}.

Section chunked_upload.
Context {Body : Type}.
(** [JSON.parse]; [None] is a [SyntaxError]. *)
Variable JSON_parse : jsstring → option Body.

Definition tryParseJsonError (text : jsstring) : option Body :=
  if truthy text then JSON_parse text else None.

(** ** The request of one chunk *)

Inductive xhr_event :=
  | OnLoad (xhr_status : Z) (text : jsstring) (code : jsstring)
  | OnError
  | OnAbort.

(** The headers [setRequestHeader] is called with, in order. *)
Definition putChunk_headers (headers : list (jsstring * jsstring)) : list (jsstring * jsstring) :=
  List.filter (λ h, negb (eqs (toLowerCase h.1) (js "content-type"))) headers
  ++ [(js "Content-Type", js "application/octet-stream")].

Definition putChunk_url (uploadId : jsstring) (i : nat) : jsstring :=
  "/api/upload/chunked/" ++ encodeURIComponent uploadId ++ "/" ++ str_of_nat i.

(** The event that ends the request, and what the promise resolves with. *)
Definition putChunk_settle (ev : xhr_event) : put_result Body :=
  match ev with
  | OnLoad st text code =>
      {| put_ok := (200 <=? st) && (st <? 300); put_status := st;
         put_body := tryParseJsonError text; put_text := text; put_code := code |}
  | OnError => {| put_ok := false; put_status := 0; put_body := None;
                  put_text := "network error"; put_code := [] |}
  | OnAbort => {| put_ok := false; put_status := 0; put_body := None;
                  put_text := "aborted"; put_code := [] |}
  end.

Definition aborted_error (text : jsstring) : UploadError Body :=
  {| message := "aborted"; err_status := 0; err_body := None;
     responseText := text; errorCode := [] |}.

(** [Object.assign(new Error(result.responseText || fallback), ...)] *)
Definition put_error (r : put_result Body) (fallback : jsstring) : UploadError Body :=
  {| message := str_or (put_text r) fallback; err_status := put_status r;
     err_body := put_body r; responseText := put_text r; errorCode := put_code r |}.

(** ** The session *)

Record session := {
  size : Z;              (* file.size *)
  chunkSize : Z; chunkCount : nat; concurrency : nat; maxRetries : nat
}.

Variable p : session.

Definition chunk_start (i : nat) : Z := Z.of_nat i * chunkSize p.
Definition chunk_end (i : nat) : Z := Z.min (chunk_start i + chunkSize p) (size p).

Definition initial_chunk (i : nat) : ChunkState :=
  {| index := i; loaded := 0; total := Z.max 0 (chunk_end i - chunk_start i);
     status := Pending; attempt := 0 |}.

Definition initial_chunks : list ChunkState := initial_chunk <$> seq 0 (chunkCount p).

(** ** Progress reports *)

Inductive callback :=
  | OnChunkProgress (chunks : list ChunkState)
  | OnProgress (loaded total : Z).

Record progress := {
  progressRaf : bool;     (* an animation frame is requested *)
  progressDirty : bool;
  reports : list callback (* the calls made, latest first *)
}.

Definition loaded_sum (chunks : list ChunkState) : Z := sumZ (loaded <$> chunks).

Definition flushProgress (chunks : list ChunkState) (u : progress) : progress :=
  {| progressRaf := false; progressDirty := false;
     reports := OnProgress (Z.min (loaded_sum chunks) (size p)) (size p)
                :: OnChunkProgress chunks :: reports u |}.

Definition cancel_frame (u : progress) : progress :=
  {| progressRaf := false; progressDirty := progressDirty u; reports := reports u |}.

Definition emitChunkProgress (immediate : bool) (chunks : list ChunkState) (u : progress) : progress :=
  if immediate then flushProgress chunks (if progressRaf u then cancel_frame u else u)
  else {| progressRaf := true; progressDirty := true; reports := reports u |}.

(** ** Workers *)

(** Where a worker waits. *)
Inductive worker_pc :=
  | WLoop                                        (* not started *)
  | WSleep (i attempt : nat)                     (* await sleep(delay) *)
  | WPut (i attempt : nat)                       (* await putChunkWithProgress(...) *)
  | WReturn (err : option (UploadError Body))    (* await uploadOneChunk(index) *)
  | WDone
  | WThrown (e : jsstring).                      (* the request could not be made *)

Record state := {
  aborted : bool;                                (* signal?.aborted *)
  nextIndex : nat;
  firstError : option (UploadError Body);
  chunks : list ChunkState;
  workers : list worker_pc;
  ui : progress;
  puts : list (nat * (Z * Z))                    (* requests sent, latest first: chunk, byte range *)
}.

Definition set_worker (w : nat) (pc : worker_pc) (s : state) : state :=
  {| aborted := aborted s; nextIndex := nextIndex s; firstError := firstError s;
     chunks := chunks s; workers := <[w := pc]> (workers s); ui := ui s; puts := puts s |}.

Definition set_chunk (i : nat) (f : ChunkState → ChunkState) (s : state) : state :=
  {| aborted := aborted s; nextIndex := nextIndex s; firstError := firstError s;
     chunks := alter f i (chunks s); workers := workers s; ui := ui s; puts := puts s |}.

Definition set_firstError (e : UploadError Body) (s : state) : state :=
  {| aborted := aborted s; nextIndex := nextIndex s;
     firstError := match firstError s with Some e' => Some e' | None => Some e end;
     chunks := chunks s; workers := workers s; ui := ui s; puts := puts s |}.

Definition set_nextIndex (n : nat) (s : state) : state :=
  {| aborted := aborted s; nextIndex := n; firstError := firstError s;
     chunks := chunks s; workers := workers s; ui := ui s; puts := puts s |}.

Definition set_aborted (s : state) : state :=
  {| aborted := true; nextIndex := nextIndex s; firstError := firstError s;
     chunks := chunks s; workers := workers s; ui := ui s; puts := puts s |}.

Definition emit (immediate : bool) (s : state) : state :=
  {| aborted := aborted s; nextIndex := nextIndex s; firstError := firstError s;
     chunks := chunks s; workers := workers s;
     ui := emitChunkProgress immediate (chunks s) (ui s); puts := puts s |}.

Definition frame (s : state) : state :=
  {| aborted := aborted s; nextIndex := nextIndex s; firstError := firstError s;
     chunks := chunks s; workers := workers s;
     ui := flushProgress (chunks s) (ui s); puts := puts s |}.

(** The call of [putChunkWithProgress] with the slice of the file. *)
Definition send_put (w i a : nat) (s : state) : state :=
  {| aborted := aborted s; nextIndex := nextIndex s; firstError := firstError s;
     chunks := chunks s; workers := <[w := WPut i a]> (workers s); ui := ui s;
     puts := (i, (chunk_start i, chunk_end i)) :: puts s |}.

Definition set_status (st : ChunkStatus) (c : ChunkState) : ChunkState :=
  {| index := index c; loaded := loaded c; total := total c; status := st; attempt := attempt c |}.

Definition attempt_status (a : nat) : ChunkStatus := if (a =? 0)%nat then Uploading else Retrying.

Definition begin_attempt (a : nat) (c : ChunkState) : ChunkState :=
  {| index := index c; loaded := 0; total := total c; status := attempt_status a;
     attempt := a + 1 |}.

Definition chunk_progress (a : nat) (n : Z) (c : ChunkState) : ChunkState :=
  {| index := index c; loaded := Z.min n (total c); total := total c;
     status := attempt_status a; attempt := attempt c |}.

Definition chunk_done (c : ChunkState) : ChunkState :=
  {| index := index c; loaded := total c; total := total c; status := Done; attempt := attempt c |}.

(** [uploadOneChunk] returns [err] after marking the chunk failed. *)
Definition fail_chunk (w i : nat) (err : UploadError Body) (s : state) : state :=
  set_worker w (WReturn (Some err)) (emit true (set_chunk i (set_status Error) s)).

(** The head of the retry loop of [uploadOneChunk], up to its first [await]. *)
Definition attempt_loop (w i a : nat) (s : state) : state :=
  if (a <=? maxRetries p)%nat then
    if aborted s then fail_chunk w i (aborted_error "aborted") s
    else
      match firstError s with
      | Some e => set_worker w (WReturn (Some e)) s
      | None =>
          let s := emit true (set_chunk i (begin_attempt a) s) in
          if (0 <? a)%nat then set_worker w (WSleep i a) s else send_put w i a s
      end
  else set_worker w (WReturn None) s.

Definition retry_delay (a : nat) : Z := CHUNK_RETRY_BASE_MS * 2 ^ (Z.of_nat a - 1).

(** After [await sleep(delay)]. *)
Definition slept (w i a : nat) (s : state) : state :=
  if aborted s || bool_decide (is_Some (firstError s)) then
    fail_chunk w i (default (aborted_error []) (firstError s)) s
  else send_put w i a s.

Definition permanent_failure (st : Z) : bool :=
  (400 <=? st) && (st <? 500) && negb (st =? 408) && negb (st =? 429).

Definition chunk_failed (i : nat) (suffix : jsstring) : jsstring :=
  "chunk " ++ str_of_nat i ++ suffix.

(** After [await putChunkWithProgress(...)]. *)
Definition put_settled (w i a : nat) (r : put_result Body) (s : state) : state :=
  if put_ok r then set_worker w (WReturn None) (emit true (set_chunk i chunk_done s))
  else if permanent_failure (put_status r) then
    fail_chunk w i (put_error r (chunk_failed i " failed")) s
  else if (a =? maxRetries p)%nat then
    fail_chunk w i (put_error r (chunk_failed i " failed after retries")) s
  else attempt_loop w i (a + 1) s.

(** One turn of [worker]'s loop, up to its first [await]. *)
Definition worker_loop (w : nat) (s : state) : state :=
  if aborted s then set_worker w WDone (set_firstError (aborted_error []) s)
  else if bool_decide (is_Some (firstError s)) then set_worker w WDone s
  else
    let i := nextIndex s in
    let s := set_nextIndex (i + 1) s in
    if (chunkCount p <=? i)%nat then set_worker w WDone s else attempt_loop w i 0 s.

(** After [await uploadOneChunk(index)]. *)
Definition worker_resumed (w : nat) (err : option (UploadError Body)) (s : state) : state :=
  match err with
  | Some e => set_worker w WDone (set_firstError e s)
  | None => worker_loop w s
  end.

Inductive event :=
  | Run (w : nat)                            (* the worker starts, or [uploadOneChunk] returned to it *)
  | Slept (w : nat)
  | Progress (w : nat) (n : Z)               (* upload progress of the request in flight *)
  | Put (w : nat) (r : xhr_event)
  | PutThrows (w : nat) (e : jsstring)       (* [open], [setRequestHeader] or [send] throws *)
  | Abort                                    (* the caller's signal *)
  | Frame.                                   (* the requested animation frame *)

Definition thrown (s : state) : option jsstring :=
  head (omap (λ pc, match pc with WThrown e => Some e | _ => None end) (workers s)).

Definition exec (e : event) (s : state) : option state :=
  match e with
  | Run w =>
      match workers s !! w with
      | Some WLoop => Some (worker_loop w s)
      | Some (WReturn err) => Some (worker_resumed w err s)
      | _ => None
      end
  | Slept w =>
      match workers s !! w with Some (WSleep i a) => Some (slept w i a s) | _ => None end
  | Progress w n =>
      match workers s !! w with
      | Some (WPut i a) =>
          if 0 <=? n then Some (emit false (set_chunk i (chunk_progress a n) s)) else None
      | _ => None
      end
  | Put w r =>
      match workers s !! w with
      | Some (WPut i a) => Some (put_settled w i a (putChunk_settle r) s)
      | _ => None
      end
  | PutThrows w e =>
      match workers s !! w with Some (WPut i a) => Some (set_worker w (WThrown e) s) | _ => None end
  | Abort => Some (set_aborted s)
  | Frame => if progressRaf (ui s) then Some (frame s) else None
  end.

(** A run up to the decision: the first rejection of a worker ends it. What the other workers still do is left out: what throws in
    one of them, a request that cannot be made, throws in each, and no result depends on them any more. *)
Fixpoint exec_all (es : list event) (s : state) : option state :=
  match es with
  | [] => Some s
  | e :: es =>
      match thrown s, exec e s with None, Some s' => exec_all es s' | _, _ => None end
  end.

(** [Math.min(concurrency, chunkCount)] *)
Definition worker_count : nat := Nat.min (concurrency p) (chunkCount p).

(** The state when the workers are created; the first report is the empty progress. *)
Definition started : state :=
  {| aborted := false; nextIndex := 0; firstError := None; chunks := initial_chunks;
     workers := replicate worker_count WLoop;
     ui := emitChunkProgress true initial_chunks
             {| progressRaf := false; progressDirty := false; reports := [] |};
     puts := [] |}.

(** [Promise.all(workers)] *)
Inductive settlement := Waiting | AllDone | Rejected (e : jsstring).

Definition is_done (pc : worker_pc) : bool := match pc with WDone => true | _ => false end.

Definition settled (s : state) : settlement :=
  match thrown s with
  | Some e => Rejected e
  | None => if forallb is_done (workers s) then AllDone else Waiting
  end.

(** The last report before the decision. *)
Definition flush_pending (s : state) : state :=
  {| aborted := aborted s; nextIndex := nextIndex s; firstError := firstError s;
     chunks := chunks s; workers := workers s;
     ui := (if progressDirty (ui s) then flushProgress (chunks s) (cancel_frame (ui s))
            else cancel_frame (ui s));
     puts := puts s |}.

End chunked_upload.

(** ** The whole upload *)

Record ChunkedUploadOptions := {
  purpose : jsstring; path : jsstring; generateChecksums : bool; gpgSignatureExpected : bool;
  opt_chunkSize : option Z; opt_concurrency : option nat; opt_maxRetries : option nat
}.

Record storage_fields := {
  init_path : jsstring; generate_checksums : bool; gpg_signature_expected : bool
}.

Record init_payload := {
  init_purpose : jsstring; filename : jsstring; init_size : Z; chunk_size : Z;
  storage : option storage_fields
}.

(** [options.chunkSize || suggestChunkSize(file.size)] *)
Definition preferredChunk (o : ChunkedUploadOptions) (fsize : Z) : Z :=
  match opt_chunkSize o with
  | Some n => if n =? 0 then suggestChunkSize fsize else n
  | None => suggestChunkSize fsize
  end.

Definition initPayload (o : ChunkedUploadOptions) (name : jsstring) (fsize : Z) : init_payload :=
  let purpose := str_or (purpose o) "storage" in
  {| init_purpose := purpose; filename := str_or name "upload.bin"; init_size := fsize;
     chunk_size := preferredChunk o fsize;
     storage :=
       if eqs purpose "storage" then
         Some {| init_path := path o; generate_checksums := generateChecksums o;
                 gpg_signature_expected := gpgSignatureExpected o |}
       else None |}.

(** An answer of [fetch] as the program reads it: [None] where [text()] rejects and
    where a header is absent, [Throw] where the body does not decode. *)
Record response (A : Type) := {
  resp_status : Z; resp_text : option jsstring; resp_code : option jsstring;
  resp_review : option jsstring; decoded : result jsstring A
}.
Arguments resp_status {A}. Arguments resp_text {A}. Arguments resp_code {A}.
Arguments resp_review {A}. Arguments decoded {A}.

Definition resp_ok {A} (r : response A) : bool := (200 <=? resp_status r) && (resp_status r <? 300).

Record init_session := { upload_id : jsstring; s_chunk_size : Z; s_chunk_count : Z }.

Inductive request :=
  | Init (body : init_payload)
  | PutChunk (id : jsstring) (i : nat) (range : Z * Z)
  | Complete (id : jsstring)
  | Delete (id : jsstring).

Record upload_result (Body A : Type) := {
  res_ok : bool; res_status : Z; res_error : option Body; res_body : option A;
  res_text : jsstring; res_code : jsstring; res_review : jsstring
}.
Arguments res_ok {Body A}. Arguments res_status {Body A}. Arguments res_error {Body A}.
Arguments res_body {Body A}. Arguments res_text {Body A}. Arguments res_code {Body A}.
Arguments res_review {Body A}.

(** The parameters of the transfer from the answer of the server. *)
Definition session_params (o : ChunkedUploadOptions) (fsize : Z) (s : init_session) : session :=
  let count := Z.to_nat (s_chunk_count s) in
  {| size := fsize;
     chunkSize := if s_chunk_size s =? 0 then preferredChunk o fsize else s_chunk_size s;
     chunkCount := count;
     concurrency :=
       Nat.max 1 (match opt_concurrency o with
                  | Some (S n) => S n
                  | _ => Z.to_nat (suggestConcurrency fsize (s_chunk_count s))
                  end);
     maxRetries := default CHUNK_MAX_RETRIES (opt_maxRetries o) |}.

Section whole_upload.
Context {Body A : Type}.
Variable JSON_parse : jsstring → option Body.

(** What the server and the caller do: the answer to the first request, the state of
    the signal then, the events of the transfer, the answer to the last request. *)
Record environment := {
  init_answer : result jsstring (response init_session);
  aborted_early : bool;
  run : list event;
  complete_answer : result jsstring (response A)
}.

Record outcome := {
  o_result : result jsstring (upload_result Body A);
  o_requests : list request;      (* in the order they are made *)
  o_reports : list callback       (* latest first *)
}.

Definition failed (st : Z) (b : option Body) (text code : jsstring) : upload_result Body A :=
  {| res_ok := false; res_status := st; res_error := b; res_body := None;
     res_text := text; res_code := code; res_review := [] |}.

Definition response_failed {B} (r : response B) : upload_result Body A :=
  let text := default [] (resp_text r) in
  failed (resp_status r) (tryParseJsonError JSON_parse text) text (default [] (resp_code r)).

Definition put_requests (id : jsstring) (ps : list (nat * (Z * Z))) : list request :=
  (λ r, PutChunk id r.1 r.2) <$> reverse ps.

(** The last request and what follows it; [before] are the requests made so far. *)
Definition complete_upload (p : session) (id : jsstring) (chunks : list ChunkState) (ui : progress)
    (before : list request) (answer : result jsstring (response A)) : outcome :=
  match answer with
  | Throw e =>
      {| o_result := Throw e; o_requests := before ++ [Complete id; Delete id];
         o_reports := reports ui |}
  | Ok r =>
      if resp_ok r then
        let body := match decoded r with Ok b => Some b | Throw _ => None end in
        let chunks := chunk_done <$> chunks in
        let ui := {| progressRaf := progressRaf ui; progressDirty := progressDirty ui;
                     reports := OnProgress (size p) (size p) :: reports ui |} in
        {| o_result := Ok {| res_ok := true; res_status := resp_status r; res_error := None;
                             res_body := body; res_text := [];
                             res_code := []; res_review := default [] (resp_review r) |};
           o_requests := before ++ [Complete id];
           o_reports := reports (emitChunkProgress p true chunks ui) |}
      else
        {| o_result := Ok (response_failed r); o_requests := before ++ [Complete id; Delete id];
           o_reports := reports ui |}
  end.

Definition error_result (e : UploadError Body) : upload_result Body A :=
  failed (err_status e) (err_body e) (str_or (responseText e) (message e)) (errorCode e).

(** The code after [await Promise.all(workers)]. *)
Definition decide_upload (p : session) (id : jsstring) (before : list request) (s : state (Body := Body))
    (answer : result jsstring (response A)) : outcome :=
  let s := flush_pending p s in
  let before := before ++ put_requests id (puts s) in
  match firstError s with
  | Some e =>
      {| o_result := Ok (error_result e); o_requests := before ++ [Delete id];
         o_reports := reports (ui s) |}
  | None => complete_upload p id (chunks s) (ui s) before answer
  end.

(** [None]: the workers cannot make this run, or they have not all returned at its end. *)
Definition transfer (p : session) (id : jsstring) (before : list request) (env : environment) :
    option outcome :=
  let s := started (Body := Body) p in
  if (0 <? chunkCount p)%nat then
    match exec_all JSON_parse p (run env) s with
    | None => None
    | Some s =>
        match settled s with
        | Waiting => None
        | AllDone => Some (decide_upload p id before s (complete_answer env))
        | Rejected e =>
            Some {| o_result := Throw e;
                    o_requests := before ++ put_requests id (puts s) ++ [Delete id];
                    o_reports := reports (ui s) |}
        end
    end
  else
    let u := ui s in
    Some (complete_upload p id (chunks s)
            {| progressRaf := progressRaf u; progressDirty := progressDirty u;
               reports := OnProgress 0 0 :: reports u |}
            before (complete_answer env)).

Definition uploadFileChunked (o : ChunkedUploadOptions) (name : jsstring) (fsize : Z)
    (env : environment) : option outcome :=
  let before := [Init (initPayload o name fsize)] in
  let answer r := Some {| o_result := r; o_requests := before; o_reports := [] |} in
  match init_answer env with
  | Throw e => answer (Throw e)
  | Ok r =>
      if resp_ok r then
        match decoded r with
        | Throw e => answer (Ok (failed (resp_status r) None e []))
        | Ok s =>
            let p := session_params o fsize s in
            let id := upload_id s in
            if aborted_early env then
              Some {| o_result := Ok (failed 0 None "aborted" []);
                      o_requests := before ++ [Delete id];
                      o_reports := reports (ui (started (Body := Body) p)) |}
            else transfer p id before env
        end
      else answer (Ok (response_failed r))
  end.
End whole_upload.

(** ** Single requests *)

Section single_request.
Context {Body : Type}.
Variable JSON_parse : jsstring → option Body.

(** What an answer carries beside its status; a missing header is empty. *)
Inductive single_event :=
  | SLoad (xhr_status : Z) (text code captchaScope reviewID : jsstring)
  | SError.

Record single_result := {
  s_ok : bool; s_status : Z; s_text : jsstring; s_code : jsstring;
  s_captchaScope : jsstring; s_reviewID : jsstring
}.

Definition single_settle (ev : single_event) : single_result :=
  match ev with
  | SLoad st text code scope review =>
      {| s_ok := (200 <=? st) && (st <? 300); s_status := st; s_text := text; s_code := code;
         s_captchaScope := scope; s_reviewID := review |}
  | SError => {| s_ok := false; s_status := 0; s_text := []; s_code := [];
                 s_captchaScope := []; s_reviewID := [] |}
  end.

(** The headers of the requests sent to [targetPath], and the answer of the last one.
    [send] is what the server answers to a request with given headers; [captchaHeaders]
    asks for the approval that an answer demands. *)
Definition uploadFileSinglePut (send : list (jsstring * jsstring) → single_event)
    (captchaHeaders : Z → jsstring → jsstring → option (list (jsstring * jsstring)))
    (headers : list (jsstring * jsstring)) : list (list (jsstring * jsstring)) * single_result :=
  let result := single_settle (send headers) in
  match captchaHeaders (s_status result) (s_code result) (s_captchaScope result) with
  | Some approval =>
      let headers' := spread headers approval in
      ([headers; headers'], single_settle (send headers'))
  | None => ([headers], result)
  end.

Record updater_result := {
  u_ok : bool; u_status : Z; u_body : option Body; u_text : jsstring; u_code : jsstring
}.

Definition uploadUpdaterSingle (ev : single_event) : updater_result :=
  match ev with
  | SLoad st text code _ _ =>
      {| u_ok := (200 <=? st) && (st <? 300); u_status := st;
         u_body := tryParseJsonError JSON_parse text; u_text := text; u_code := code |}
  | SError => {| u_ok := false; u_status := 0; u_body := None; u_text := []; u_code := [] |}
  end.
End single_request.

(** ** The progress strip *)

Section progress_strip.
(** [Math.round((loaded / total) * 100)], in floating point. *)
Variable percent : Z → Z → Z.

Record strip_cell := {
  data_index : nat; data_status : jsstring; class_name : jsstring; width : jsstring; tip : jsstring
}.

Definition status_name (st : ChunkStatus) : jsstring :=
  match st with
  | Pending => "pending" | Uploading => "uploading" | Done => "done"
  | Error => "error" | Retrying => "retrying"
  end.

Definition chunk_pct (c : ChunkState) : Z :=
  if 0 <? total c then Z.min 100 (percent (loaded c) (total c)) else 0.

Definition chunk_label (i : nat) (c : ChunkState) : jsstring :=
  match status c with
  | Retrying => "#" ++ str_of_nat (i + 1) ++ js " retry " ++ str_of_nat (if (attempt c =? 0)%nat then 1 else attempt c)
  | _ => "#" ++ str_of_nat (i + 1) ++ js " " ++ str_of_Z (chunk_pct c) ++ js "%"
  end.

Definition render_cell (i : nat) (c : ChunkState) : strip_cell :=
  {| data_index := i; data_status := status_name (status c);
     class_name := "upload-chunk-cell is-" ++ status_name (status c);
     width := str_of_Z (chunk_pct c) ++ js "%"; tip := chunk_label i c |}.

(** The strip of the host after the call: removed when there is no chunk, else one cell
    per chunk, every cell rewritten. [None] is a missing host or list. *)
Definition renderChunkProgressStrip (host : option (option (list strip_cell)))
    (chunks : option (list ChunkState)) : option (option (list strip_cell)) :=
  match host with
  | None => None
  | Some _ =>
      match chunks with
      | None | Some [] => Some None
      | Some cs => Some (Some (imap render_cell cs))
      end
  end.
End progress_strip.

(** ** The transfer keeps its invariant *)

Section transfer_invariant.
Context {Body : Type}.
Variable JSON_parse : jsstring → option Body.
Variable p : session.

(** The chunk a worker is busy with, and the attempt it makes. *)
Definition holds (pc : worker_pc (Body := Body)) : option (nat * nat) :=
  match pc with WSleep i a | WPut i a => Some (i, a) | _ => None end.

Definition held (s : state (Body := Body)) (w i : nat) : Prop :=
  ∃ pc a, workers s !! w = Some pc ∧ holds pc = Some (i, a).

Definition is_failure (pc : worker_pc (Body := Body)) : bool :=
  match pc with WReturn (Some _) | WThrown _ => true | _ => false end.

Definition worker_failed (s : state (Body := Body)) (w : nat) : Prop :=
  ∃ pc, workers s !! w = Some pc ∧ is_failure pc = true.

Definition chunk_ok (i : nat) (c : ChunkState) : Prop :=
  index c = i ∧ total c = total (initial_chunk p i) ∧
  0 ≤ loaded c ≤ total c ∧ (attempt c ≤ maxRetries p + 1)%nat ∧
  (status c = Done → loaded c = total c).

(** The request of a chunk: its index and the bytes of the file it carries. *)
Definition entry (i : nat) : nat * (Z * Z) := (i, (chunk_start p i, chunk_end p i)).

Definition puts_valid (s : state (Body := Body)) : Prop :=
  ∀ x, x ∈ puts s → x = entry x.1 ∧ (x.1 < chunkCount p)%nat.

Definition puts_sent (s : state (Body := Body)) : Prop :=
  ∀ w i a, workers s !! w = Some (WPut i a) → entry i ∈ puts s.

Definition chunk_is (s : state (Body := Body)) (i : nat) (st : ChunkStatus) : Prop :=
  ∃ c, chunks s !! i = Some c ∧ status c = st.

(** What holds whatever worker [w] does with chunk [i] next: the other workers hold
    other chunks, and every other claimed chunk is accounted for without [w]. *)
Record inv_pre (w i : nat) (s : state (Body := Body)) : Prop := {
  pre_len : length (chunks s) = chunkCount p;
  pre_workers : length (workers s) = worker_count p;
  pre_w : (w < length (workers s))%nat;
  pre_i : (i < nextIndex s ∧ i < chunkCount p)%nat;
  pre_chunk : ∀ j c, chunks s !! j = Some c → chunk_ok j c;
  pre_fresh : ∀ j c, chunks s !! j = Some c → (nextIndex s ≤ j)%nat → status c = Pending ∧ loaded c = 0;
  pre_held : ∀ w' pc j a, workers s !! w' = Some pc → holds pc = Some (j, a) → w' ≠ w →
      j ≠ i ∧ (j < nextIndex s ∧ j < chunkCount p ∧ a ≤ maxRetries p)%nat;
  pre_excl : ∀ w1 w2 j, held s w1 j → held s w2 j → w1 ≠ w → w2 ≠ w → w1 = w2;
  pre_claim : ∀ j, (j < nextIndex s)%nat → (j < chunkCount p)%nat → j ≠ i →
      chunk_is s j Done ∨ is_Some (firstError s) ∨
      ∃ w', w' ≠ w ∧ (held s w' j ∨ worker_failed s w');
  pre_done : ∀ w', w' ≠ w → workers s !! w' = Some WDone →
      is_Some (firstError s) ∨ (chunkCount p ≤ nextIndex s)%nat;
  pre_valid : puts_valid s;
  pre_sent : puts_sent s;
  pre_acked : ∀ j, chunk_is s j Done → entry j ∈ puts s;
}.

Record inv (s : state (Body := Body)) : Prop := {
  inv_len : length (chunks s) = chunkCount p;
  inv_workers : length (workers s) = worker_count p;
  inv_chunk : ∀ j c, chunks s !! j = Some c → chunk_ok j c;
  inv_fresh : ∀ j c, chunks s !! j = Some c → (nextIndex s ≤ j)%nat → status c = Pending ∧ loaded c = 0;
  inv_held : ∀ w pc j a, workers s !! w = Some pc → holds pc = Some (j, a) →
      (j < nextIndex s ∧ j < chunkCount p ∧ a ≤ maxRetries p)%nat;
  inv_excl : ∀ w1 w2 j, held s w1 j → held s w2 j → w1 = w2;
  inv_claim : ∀ j, (j < nextIndex s)%nat → (j < chunkCount p)%nat →
      chunk_is s j Done ∨ is_Some (firstError s) ∨
      ∃ w, held s w j ∨ worker_failed s w;
  inv_done : ∀ w, workers s !! w = Some WDone →
      is_Some (firstError s) ∨ (chunkCount p ≤ nextIndex s)%nat;
  inv_valid : puts_valid s;
  inv_sent : puts_sent s;
  inv_acked : ∀ j, chunk_is s j Done → entry j ∈ puts s;
}.

(** What a worker may do with the chunk it holds: change it by [f], go to [pc]. *)
Record advance (w i : nat) (f : ChunkState → ChunkState) (pc : worker_pc (Body := Body))
    (s s' : state (Body := Body)) : Prop := {
  adv_chunks : chunks s' = alter f i (chunks s);
  adv_workers : workers s' = <[w := pc]> (workers s);
  adv_next : nextIndex s' = nextIndex s;
  adv_error : firstError s' = firstError s;
  adv_ok : ∀ c, chunk_ok i c → chunk_ok i (f c);
  adv_pc : match pc with
           | WSleep j a | WPut j a => j = i ∧ (a ≤ maxRetries p)%nat
           | WReturn None => ∀ c, chunk_ok i c → status (f c) = Done
           | WReturn (Some _) | WThrown _ => True
           | _ => False
           end;
  adv_puts : ∃ k, puts s' = k ++ puts s ∧ ∀ x, x ∈ k → x = entry i;
  adv_sent : ∀ j a, pc = WPut j a → entry i ∈ puts s';
  adv_done : ∀ c, status (f c) = Done → status c = Done ∨ entry i ∈ puts s'
}.

Lemma advance_put w i f pc s s' : advance w i f pc s s' → entry i ∈ puts s → entry i ∈ puts s'.
Proof. intros A H. destruct (adv_puts _ _ _ _ _ _ A) as (k & -> & _). set_solver. Qed.

Lemma inv_pre_of_held w i s : inv s → held s w i → inv_pre w i s.
Proof.
  intros I (pc & a & Hw & Hh). constructor; try apply I.
  - by eapply lookup_lt_Some.
  - destruct (inv_held s I w pc i a Hw Hh) as (? & ? & ?). done.
  - intros w' pc' j a' Hw' Hh' Hne. split; [|by eapply inv_held].
    intros ->. apply Hne. apply (inv_excl s I w' w i); [by exists pc', a'|by exists pc, a].
  - intros w1 w2 j H1 H2 _ _. by eapply inv_excl.
  - intros j H1 H2 Hne. destruct (inv_claim s I j H1 H2) as [?|[?|[w' [H|H]]]]; [by left|by right;left| |].
    + right; right. exists w'. split; [|by left]. intros ->.
      destruct H as (pc' & a' & H & Hh'). simplify_eq.
    + right; right. exists w'. split; [|by right]. intros ->.
      destruct H as (pc' & H & Hf). simplify_eq. by destruct pc.
  - intros w' _. apply (inv_done s I).
Qed.

Lemma inv_pre_of_claim w s :
  inv s → (nextIndex s < chunkCount p)%nat →
  (∃ pc, workers s !! w = Some pc ∧ holds pc = None ∧ is_failure pc = false) →
  inv_pre w (nextIndex s) (set_nextIndex (nextIndex s + 1) s).
Proof.
  intros I Hlt (pc & Hw & Hn & Hf). constructor; simpl; try apply I.
  - by eapply lookup_lt_Some.
  - lia.
  - intros j c Hj Hle. apply (inv_fresh s I j c Hj). lia.
  - intros w' pc' j a Hw' Hh _. destruct (inv_held s I w' pc' j a Hw' Hh) as (? & ? & ?). lia.
  - intros w1 w2 j H1 H2 _ _. by apply (inv_excl s I w1 w2 j).
  - intros j H1 H2 Hne. destruct (inv_claim s I j) as [?|[?|[w' H]]]; [lia|lia|by left|by right;left|].
    right; right. exists w'. split; [|done]. intros ->.
    destruct H as [(pc' & a' & H & Hh')|(pc' & H & Hf')]; simplify_eq; congruence.
  - intros w' _ Hd. destruct (inv_done s I w' Hd); [by left | right; lia].
Qed.

Lemma advance_inv w i f pc s s' : inv_pre w i s → advance w i f pc s s' → inv s'.
Proof.
  intros P [Hc Hw Hn He Hok Hpc (k & Hps & Hpx) Hsent Hdn].
  assert (Hww : workers s' !! w = Some pc)
    by (rewrite Hw; apply list_lookup_insert_eq; apply (pre_w _ _ _ P)).
  assert (Hwo : ∀ w', w' ≠ w → workers s' !! w' = workers s !! w')
    by (intros; rewrite Hw; by apply list_lookup_insert_ne).
  assert (Hci : ∀ j, j ≠ i → chunks s' !! j = chunks s !! j)
    by (intros; rewrite Hc; by apply list_lookup_alter_ne).
  assert (Hcc : chunks s' !! i = f <$> chunks s !! i) by (rewrite Hc; apply list_lookup_alter_eq).
  constructor; rewrite ?Hn, ?He.
  - rewrite Hc, length_alter. apply P.
  - rewrite Hw, length_insert. apply P.
  - intros j c Hj. destruct (decide (j = i)) as [->|Hne].
    + rewrite Hcc in Hj. apply fmap_Some in Hj as (c0 & H0 & ->). apply Hok. by eapply pre_chunk.
    + rewrite Hci in Hj by done. by eapply pre_chunk.
  - intros j c Hj Hle. rewrite Hci in Hj by (pose proof (pre_i _ _ _ P); lia).
    by eapply pre_fresh.
  - intros w' pc' j a Hw' Hh. destruct (decide (w' = w)) as [->|Hne].
    + simplify_eq. pose proof (pre_i _ _ _ P). destruct pc; simplify_eq/=; destruct Hpc; subst; lia.
    + rewrite Hwo in Hw' by done. by destruct (pre_held _ _ _ P w' pc' j a Hw' Hh Hne).
  - assert (Hheld : ∀ w' j, held s' w' j → (w' = w ∧ j = i) ∨ (w' ≠ w ∧ j ≠ i ∧ held s w' j)).
    { intros w' j (pc' & a & Hw' & Hh). destruct (decide (w' = w)) as [->|Hne].
      - left. simplify_eq. destruct pc; simplify_eq/=; by destruct Hpc.
      - right. rewrite Hwo in Hw' by done.
        destruct (pre_held _ _ _ P w' pc' j a Hw' Hh Hne) as [? _].
        split; [done|]. split; [done|]. by exists pc', a. }
    intros w1 w2 j [[-> ->]|(? & ? & ?)]%Hheld [[-> ?]|(? & ? & ?)]%Hheld; try done.
    by eapply pre_excl.
  - intros j H1 H2. destruct (decide (j = i)) as [->|Hne].
    + destruct (lookup_lt_is_Some_2 (chunks s) i) as [c Hci0]; [by rewrite (pre_len _ _ _ P)|].
      pose proof (pre_chunk _ _ _ P i c Hci0) as Hk.
      destruct pc as [|j a|j a|[e|]| |e]; simpl in Hpc; try done.
      * destruct Hpc as [-> _]. right; right. exists w. left. by exists (WSleep i a), a.
      * destruct Hpc as [-> _]. right; right. exists w. left. by exists (WPut i a), a.
      * right; right. exists w. right. by exists (WReturn (Some e)).
      * left. exists (f c). rewrite Hcc, Hci0. auto.
      * right; right. exists w. right. by exists (WThrown e).
    + destruct (pre_claim _ _ _ P j H1 H2 Hne) as [(c & Hj & ?)|[?|(w' & Hne' & Hor)]].
      * left. exists c. by rewrite Hci.
      * by right; left.
      * right; right. exists w'. unfold held, worker_failed. by rewrite Hwo.
  - intros w' Hd. destruct (decide (w' = w)) as [->|Hne].
    + simplify_eq. done.
    + rewrite Hwo in Hd by done. by eapply pre_done.
  - intros x. rewrite Hps, elem_of_app. intros [Hx|Hx].
    + rewrite (Hpx x Hx). pose proof (pre_i _ _ _ P). simpl. by destruct_and?.
    + by apply (pre_valid _ _ _ P).
  - intros w' j a Hw'. destruct (decide (w' = w)) as [->|Hne].
    + simplify_eq. destruct Hpc as [-> _]. by eapply Hsent.
    + rewrite Hwo in Hw' by done. rewrite Hps, elem_of_app. right. by eapply pre_sent.
  - intros j (c & Hj & Hd). destruct (decide (j = i)) as [->|Hne].
    + rewrite Hcc in Hj. apply fmap_Some in Hj as (c0 & H0 & ->).
      destruct (Hdn c0 Hd) as [H|H]; [|done]. rewrite Hps, elem_of_app. right.
      apply (pre_acked _ _ _ P). by exists c0.
    + rewrite Hci in Hj by done. rewrite Hps, elem_of_app. right.
      apply (pre_acked _ _ _ P). by exists c.
Qed.

(** What a worker at [pc] may still do, in requests, sleeps and returns. *)
Definition work (pc : worker_pc (Body := Body)) : nat :=
  match pc with
  | WDone | WThrown _ => 0
  | WLoop | WReturn _ => 1
  | WPut _ a => 2 + 2 * (maxRetries p - a)
  | WSleep _ a => 3 + 2 * (maxRetries p - a)
  end.

Definition work_left (s : state (Body := Body)) : nat :=
  (sum_list (work <$> workers s) + (chunkCount p - nextIndex s) * (2 * maxRetries p + 2))%nat.

Lemma inv_ext s s' :
  chunks s' = chunks s → workers s' = workers s → nextIndex s' = nextIndex s →
  firstError s' = firstError s → puts s' = puts s → inv s → inv s'.
Proof.
  destruct s, s'; simpl. intros -> -> -> -> -> [? ? ? ? ? ? ? ? ? ? ?]. constructor; assumption.
Qed.

Lemma chunk_ok_set_status i st c : st ≠ Done → chunk_ok i c → chunk_ok i (set_status st c).
Proof. intros Hst (? & ? & ? & ? & ?). split_and!; simpl; try done; lia. Qed.

Lemma chunk_ok_begin i a c : (a ≤ maxRetries p)%nat → chunk_ok i c → chunk_ok i (begin_attempt a c).
Proof.
  intros Ha (? & ? & ? & ? & ?). split_and!; simpl; try done; try lia.
  unfold attempt_status. by case_match.
Qed.

Lemma chunk_ok_progress i a n c : 0 ≤ n → chunk_ok i c → chunk_ok i (chunk_progress a n c).
Proof.
  intros Hn (? & ? & ? & ? & ?). split_and!; simpl; try done; try lia.
  unfold attempt_status. by case_match.
Qed.

Lemma chunk_ok_done i c : chunk_ok i c → chunk_ok i (chunk_done c).
Proof. intros (? & ? & ? & ? & ?). split_and!; simpl; try done; lia. Qed.

(** A step that sends no request and does not finish the chunk. *)
Lemma advance_quiet w i f pc s s' :
  chunks s' = alter f i (chunks s) → workers s' = <[w := pc]> (workers s) →
  nextIndex s' = nextIndex s → firstError s' = firstError s → puts s' = puts s →
  (∀ c, chunk_ok i c → chunk_ok i (f c)) → (∀ c, status (f c) = Done → status c = Done) →
  match pc with
  | WSleep j a => j = i ∧ (a ≤ maxRetries p)%nat
  | WReturn (Some _) | WThrown _ => True
  | _ => False
  end → advance w i f pc s s'.
Proof.
  intros Hc Hw Hn He Hp Hok Hd Hpc. constructor; try done.
  - by destruct pc as [| | |[]| |].
  - exists []. rewrite Hp. split; [done|]. intros x. by rewrite elem_of_nil.
  - intros j a ->. done.
  - auto.
Qed.

Lemma fail_chunk_advance w i e s : advance w i (set_status Error) (WReturn (Some e)) s (fail_chunk p w i e s).
Proof. apply advance_quiet; try done. intros c. by apply chunk_ok_set_status. Qed.

Lemma attempt_status_not_done a : attempt_status a ≠ Done.
Proof. unfold attempt_status. by case_match. Qed.

Lemma send_put_advance w i a s :
  (a ≤ maxRetries p)%nat → advance w i id (WPut i a) s (send_put p w i a s).
Proof.
  intros Ha. constructor; simpl; try done.
  - by rewrite list_alter_id.
  - exists [entry i]. split; [done|]. intros x. by rewrite list_elem_of_singleton.
  - intros. by left.
  - intros. by left.
Qed.

Lemma attempt_loop_advance w i a s :
  (a ≤ maxRetries p)%nat →
  ∃ f pc, advance w i f pc s (attempt_loop p w i a s) ∧
          (work pc ≤ 2 + 2 * (maxRetries p - a) + (if decide (a = 0%nat) then 0 else 1))%nat.
Proof.
  intros Ha. unfold attempt_loop. destruct (Nat.leb_spec a (maxRetries p)); [|lia].
  destruct (aborted s); [do 2 eexists; split; [apply fail_chunk_advance | simpl; lia]|].
  destruct (firstError s) as [e|] eqn:He.
  - exists id, (WReturn (Some e)). split; [|simpl; lia].
    apply advance_quiet; simpl; try done. by rewrite list_alter_id.
  - destruct (0 <? a)%nat eqn:Ha0; bool_prop.
    + exists (begin_attempt a), (WSleep i a). split; [|simpl; case_decide; lia].
      apply advance_quiet; simpl; try done; [intros c; by apply chunk_ok_begin|].
      intros c Hc. by destruct (attempt_status_not_done a).
    + exists (begin_attempt a), (WPut i a). split; [|simpl; lia].
      constructor; simpl; try done.
      * intros c. by apply chunk_ok_begin.
      * exists [entry i]. split; [done|]. intros x. by rewrite list_elem_of_singleton.
      * intros. by left.
      * intros c Hc. by destruct (attempt_status_not_done a).
Qed.

Lemma slept_advance w i a s :
  (a ≤ maxRetries p)%nat →
  ∃ f pc, advance w i f pc s (slept p w i a s) ∧ (work pc < work (WSleep i a))%nat.
Proof.
  intros Ha. unfold slept. case_match.
  - do 2 eexists. split; [apply fail_chunk_advance | simpl; lia].
  - do 2 eexists. split; [by apply send_put_advance | simpl; lia].
Qed.

Lemma put_settled_advance w i a r s :
  (a ≤ maxRetries p)%nat → entry i ∈ puts s →
  ∃ f pc, advance w i f pc s (put_settled p w i a r s) ∧ (work pc < work (WPut i a))%nat.
Proof.
  intros Ha Hput. unfold put_settled. repeat case_match; bool_prop.
  - exists chunk_done, (WReturn None). split; [|simpl; lia].
    constructor; simpl; try done.
    + apply chunk_ok_done.
    + exists []. split; [done|]. intros x. by rewrite elem_of_nil.
    + by right.
  - do 2 eexists. split; [apply fail_chunk_advance | simpl; lia].
  - do 2 eexists. split; [apply fail_chunk_advance | simpl; lia].
  - destruct (attempt_loop_advance w i (a + 1) s) as (f & pc & Hadv & Hle); [lia|].
    exists f, pc. split; [done|]. simpl. case_decide; lia.
Qed.

(** A worker that stops: it found the error, or no chunk was left. *)
Lemma inv_stop w s s' :
  inv s → chunks s' = chunks s → puts s' = puts s → workers s' = <[w := WDone]> (workers s) →
  (nextIndex s ≤ nextIndex s')%nat → (is_Some (firstError s) → is_Some (firstError s')) →
  (is_Some (firstError s') ∨ (chunkCount p ≤ nextIndex s)%nat ∧
     ∃ pc, workers s !! w = Some pc ∧ holds pc = None ∧ is_failure pc = false) →
  inv s'.
Proof.
  intros I Hc Hp Hw Hn He Hor.
  assert (Hl : ∀ w' pc, workers s' !! w' = Some pc → holds pc ≠ None → workers s !! w' = Some pc).
  { intros w' pc. rewrite Hw, list_lookup_insert_Some. intros [(-> & <- & _)|[_ H]]; done. }
  assert (Hh : ∀ w' j, held s' w' j → held s w' j).
  { intros w' j (pc & a & H1 & H2). exists pc, a. split; [|done]. apply Hl; [done|congruence]. }
  constructor; unfold puts_valid, puts_sent, chunk_is; rewrite ?Hc, ?Hp; try apply I.
  - rewrite Hw, length_insert. apply I.
  - intros j c Hj Hle. apply (inv_fresh s I j c Hj). lia.
  - intros w' pc j a H1 H2.
    assert (workers s !! w' = Some pc) by (apply Hl; [done|congruence]).
    destruct (inv_held s I w' pc j a) as (? & ? & ?); [done|done|]. lia.
  - intros w1 w2 j H1 H2. eapply inv_excl; eauto.
  - destruct Hor as [H|[Hle (pc & Hpc & Hn1 & Hf)]]; [intros; by right; left|].
    intros j H1 H2. destruct (inv_claim s I j) as [H|[H|(w' & H)]]; [lia|lia| | |].
    + by left.
    + right; left. auto.
    + right; right. exists w'.
      assert (w' ≠ w).
      { intros ->. destruct H as [(pc' & a & H & Hx)|(pc' & H & Hx)]; simplify_eq; congruence. }
      unfold held, worker_failed. by rewrite Hw, list_lookup_insert_ne by done.
  - intros w' Hd. destruct Hor as [H|[Hle _]]; [by left | right; lia].
  - intros w' j a H. apply (inv_sent s I w' j a). by apply Hl.
Qed.

Lemma worker_loop_inv w s :
  inv s → (∃ pc, workers s !! w = Some pc ∧ holds pc = None ∧ is_failure pc = false) →
  inv (worker_loop p w s).
Proof.
  intros I Hw. unfold worker_loop. case_match.
  { eapply inv_stop; simpl; eauto; [by case_match | left; by case_match]. }
  case_bool_decide as He; [eapply inv_stop; simpl; eauto|].
  case_match; bool_prop.
  - eapply inv_stop; simpl; eauto. lia.
  - destruct (attempt_loop_advance w (nextIndex s) 0 (set_nextIndex (nextIndex s + 1) s))
      as (f & pc & Ha & _); [lia|].
    eapply advance_inv; [|exact Ha]. by apply inv_pre_of_claim.
Qed.

Lemma advance_step w i s s' :
  inv s → held s w i → (∃ f pc, advance w i f pc s s') → inv s'.
Proof. intros I Hh (f & pc & Ha). eapply advance_inv; [|done]. by apply inv_pre_of_held. Qed.

Lemma upload_exec_inv e s s' : inv s → exec JSON_parse p e s = Some s' → inv s'.
Proof.
  intros I. destruct e as [w|w|w n|w r|w e| |]; simpl.
  - destruct (workers s !! w) as [pc|] eqn:Hw; [|done].
    destruct pc as [| | |[err|]| |]; intros; simplify_eq; simpl.
    + apply worker_loop_inv; eauto.
    + eapply inv_stop; simpl; eauto; [by case_match | left; by case_match].
    + apply worker_loop_inv; eauto.
  - destruct (workers s !! w) as [pc|] eqn:Hw; [|done].
    destruct pc as [|i attempt0|i attempt0| | |]; intros; simplify_eq.
    destruct (inv_held s I _ _ _ _ Hw eq_refl) as (? & ? & ?).
    eapply advance_step; [done|eexists _, _; eauto|].
    destruct (slept_advance w i attempt0 s) as (f & pc & ? & _); eauto.
  - destruct (workers s !! w) as [pc|] eqn:Hw; [|done].
    destruct pc as [| |i a| | |]; try done. case_match; [|done]. intros; simplify_eq; bool_prop.
    destruct (inv_held s I _ _ _ _ Hw eq_refl) as (? & ? & ?).
    eapply (advance_step w i s); [done|eexists _, _; eauto|].
    exists (chunk_progress a n), (WPut i a). constructor; simpl; try done.
    + by rewrite list_insert_id.
    + intros c. by apply chunk_ok_progress.
    + exists []. split; [done|]. intros x. by rewrite elem_of_nil.
    + intros _ _ _. by eapply inv_sent.
    + intros c Hc. by destruct (attempt_status_not_done a).
  - destruct (workers s !! w) as [pc|] eqn:Hw; [|done].
    destruct pc as [|i attempt0|i attempt0| | |]; intros; simplify_eq.
    destruct (inv_held s I _ _ _ _ Hw eq_refl) as (? & ? & ?).
    eapply advance_step; [done|eexists _, _; eauto|].
    destruct (put_settled_advance w i attempt0 (putChunk_settle JSON_parse r) s)
      as (f & pc & ? & _); [done|by eapply inv_sent|]. eauto.
  - destruct (workers s !! w) as [pc|] eqn:Hw; [|done]. destruct pc as [| |i a| | |]; intros; simplify_eq.
    eapply (advance_step w i s); [done|eexists _, _; eauto|].
    exists id, (WThrown e). apply advance_quiet; simpl; try done. by rewrite list_alter_id.
  - intros; simplify_eq. by apply (inv_ext s).
  - case_match; [|done]. intros; simplify_eq. by apply (inv_ext s).
Qed.

Lemma started_inv : inv (started p).
Proof.
  assert (Hrep : ∀ w pc, replicate (worker_count p) (@WLoop Body) !! w = Some pc → pc = WLoop)
    by (intros w pc H; by apply lookup_replicate in H as [-> _]).
  assert (Hch : ∀ j c, initial_chunks p !! j = Some c → c = initial_chunk p j).
  { intros j c. unfold initial_chunks. rewrite list_lookup_fmap. intros H.
    apply fmap_Some in H as (k & Hk & ->). apply lookup_seq in Hk as [-> _]. done. }
  constructor; simpl.
  - unfold initial_chunks. by rewrite length_fmap, length_seq.
  - by rewrite length_replicate.
  - intros j c ->%Hch. split_and!; simpl; try done; lia.
  - by intros j c ->%Hch.
  - by intros w pc j a ->%Hrep.
  - intros w1 w2 j (pc & a & ->%Hrep & ?). done.
  - lia.
  - by intros w ?%Hrep.
  - intros x. simpl. by rewrite elem_of_nil.
  - by intros w i a ?%Hrep.
  - intros j (c & ->%Hch & ?). done.
Qed.

Lemma upload_exec_app es1 es2 s :
  exec_all JSON_parse p (es1 ++ es2) s =
  match exec_all JSON_parse p es1 s with Some s' => exec_all JSON_parse p es2 s' | None => None end.
Proof.
  revert s. induction es1 as [|e es1 IH]; intros s; simpl; [done|].
  destruct (thrown s); [done|]. by destruct (exec JSON_parse p e s).
Qed.

Lemma upload_exec_all_inv es s s' : inv s → exec_all JSON_parse p es s = Some s' → inv s'.
Proof.
  revert s. induction es as [|e es IH]; intros s I; simpl; [by intros [= <-]|].
  destruct (thrown s); [done|]. destruct (exec JSON_parse p e s) eqn:E; [|done].
  apply IH. by eapply upload_exec_inv.
Qed.

Lemma settled_AllDone s :
  settled s = AllDone → ∀ w, (w < length (workers s))%nat → workers s !! w = Some (WDone (Body := Body)).
Proof.
  unfold settled. destruct (thrown s); [done|]. case_match eqn:E; [|done]. intros _ w Hw.
  destruct (lookup_lt_is_Some_2 (workers s) w Hw) as [pc Hpc].
  rewrite forallb_elem in E. specialize (E pc (list_elem_of_lookup_2 _ _ _ Hpc)).
  by destruct pc.
Qed.

(** Once the workers have returned and no error was recorded, every chunk is done. *)
Lemma all_chunks_done s :
  inv s → settled s = AllDone → firstError s = None → (0 < worker_count p)%nat →
  ∀ i, (i < chunkCount p)%nat → chunk_is s i Done.
Proof.
  intros I Hs He Hpos i Hi.
  pose proof (settled_AllDone s Hs) as Hall. rewrite (inv_workers s I) in Hall.
  assert (chunkCount p ≤ nextIndex s)%nat.
  { destruct (inv_done s I 0 (Hall 0%nat Hpos)) as [H|H]; [|done].
    rewrite He in H. by apply is_Some_None in H. }
  destruct (inv_claim s I i) as [H1|[H1|(w & H1)]]; [lia|done|done| |].
  - rewrite He in H1. by apply is_Some_None in H1.
  - destruct H1 as [(pc & a & H1 & H2)|(pc & H1 & H2)].
    all: assert (Hw : (w < length (workers s))%nat) by (by eapply lookup_lt_Some).
    all: rewrite (inv_workers s I) in Hw; rewrite (Hall w Hw) in H1; simplify_eq; done.
Qed.

(** ** Every run ends *)

(** The events that wake a worker; the others only report progress, or set the signal. *)
Definition wakes (e : event) : bool :=
  match e with Run _ | Slept _ | Put _ _ | PutThrows _ _ => true | _ => false end.

Lemma sum_list_insert (l : list nat) w x y :
  l !! w = Some x → (sum_list (<[w := y]> l) + x = sum_list l + y)%nat.
Proof.
  revert w. induction l as [|z l IH]; intros [|w] H; simplify_eq/=; [lia|].
  specialize (IH w H). unfold insert in *. lia.
Qed.

Lemma work_left_advance w i f pc pc0 s s' :
  workers s !! w = Some pc0 → advance w i f pc s s' →
  (work pc < work pc0)%nat → (work_left s' < work_left s)%nat.
Proof.
  intros Hw [_ Hws Hn _ _ _ _ _ _] Hlt. unfold work_left. rewrite Hws, Hn, list_fmap_insert.
  pose proof (sum_list_insert (work <$> workers s) w (work pc0) (work pc)) as H.
  rewrite list_lookup_fmap, Hw in H. specialize (H eq_refl). lia.
Qed.

Lemma work_left_stop w pc s s' :
  workers s !! w = Some pc → workers s' = <[w := WDone]> (workers s) →
  (nextIndex s ≤ nextIndex s')%nat → (0 < work pc)%nat → (work_left s' < work_left s)%nat.
Proof.
  intros Hw Hws Hn Hpos. unfold work_left. rewrite Hws, list_fmap_insert.
  pose proof (sum_list_insert (work <$> workers s) w (work pc) 0) as H.
  rewrite list_lookup_fmap, Hw in H. specialize (H eq_refl). simpl in *. nia.
Qed.

Lemma worker_loop_work w pc s :
  workers s !! w = Some pc → work pc = 1%nat → (work_left (worker_loop p w s) < work_left s)%nat.
Proof.
  intros Hw Hpc. unfold worker_loop. case_match; [eapply work_left_stop; simpl; eauto; lia|].
  case_bool_decide; [eapply work_left_stop; simpl; eauto; lia|].
  case_match; bool_prop; [eapply work_left_stop; simpl; eauto; lia|].
  destruct (attempt_loop_advance w (nextIndex s) 0 (set_nextIndex (nextIndex s + 1) s))
    as (f & pc' & [_ Hws Hn _ _ _ _ _ _] & Hle); [lia|].
  unfold work_left. rewrite Hws, Hn, list_fmap_insert. simpl in *.
  pose proof (sum_list_insert (work <$> workers s) w (work pc) (work pc')) as Hs.
  rewrite list_lookup_fmap, Hw in Hs. specialize (Hs eq_refl).
  replace (chunkCount p - nextIndex s)%nat with (S (chunkCount p - (nextIndex s + 1))) by lia.
  rewrite Nat.mul_succ_l. lia.
Qed.

Lemma exec_work e s s' :
  inv s → exec JSON_parse p e s = Some s' →
  if wakes e then (work_left s' < work_left s)%nat else work_left s' = work_left s.
Proof.
  intros I. destruct e as [w|w|w n|w r|w e| |]; cbn [exec wakes].
  - destruct (workers s !! w) as [pc|] eqn:Hw; [|done].
    destruct pc as [| | |[err|]| |]; intros; simplify_eq; cbn [worker_resumed].
    + by eapply worker_loop_work.
    + eapply work_left_stop; simpl; eauto; lia.
    + by eapply worker_loop_work.
  - destruct (workers s !! w) as [pc|] eqn:Hw; [|done].
    destruct pc as [|i a|i a| | |]; intros; simplify_eq.
    destruct (inv_held s I _ _ _ _ Hw eq_refl) as (? & ? & ?).
    destruct (slept_advance w i a s) as (f & pc & ? & ?); [done|]. by eapply work_left_advance.
  - destruct (workers s !! w) as [pc|] eqn:Hw; [|done]. destruct pc; try done.
    case_match; [|done]. by intros [= <-].
  - destruct (workers s !! w) as [pc|] eqn:Hw; [|done].
    destruct pc as [|i a|i a| | |]; intros; simplify_eq.
    destruct (inv_held s I _ _ _ _ Hw eq_refl) as (? & ? & ?).
    destruct (put_settled_advance w i a (putChunk_settle JSON_parse r) s)
      as (f & pc & ? & ?); [done|by eapply inv_sent|]. by eapply work_left_advance.
  - destruct (workers s !! w) as [pc|] eqn:Hw; [|done].
    destruct pc as [| |i a| | |]; intros; simplify_eq.
    unfold work_left. simpl. rewrite list_fmap_insert.
    pose proof (sum_list_insert (work <$> workers s) w (work (WPut i a)) 0) as Hs.
    rewrite list_lookup_fmap, Hw in Hs. specialize (Hs eq_refl). simpl in *. lia.
  - by intros [= <-].
  - case_match; [|done]. by intros [= <-].
Qed.

Lemma exec_all_work es s s' :
  inv s → exec_all JSON_parse p es s = Some s' →
  (length (List.filter wakes es) + work_left s' ≤ work_left s)%nat.
Proof.
  revert s. induction es as [|e es IH]; intros s I; cbn [exec_all List.filter]; [intros [= <-]; simpl; lia|].
  destruct (thrown s); [done|]. destruct (exec JSON_parse p e s) as [s1|] eqn:E; [|done].
  intros H. pose proof (exec_work e s s1 I E) as Hw.
  specialize (IH s1 (upload_exec_inv _ _ _ I E) H). destruct (wakes e); simpl; lia.
Qed.

Lemma work_left_started :
  work_left (started p) = (worker_count p + chunkCount p * (2 * maxRetries p + 2))%nat.
Proof.
  unfold work_left, started. cbn [workers nextIndex]. rewrite Nat.sub_0_r. f_equal.
  induction (worker_count p) as [|n IH]; csimpl; [done|]. lia.
Qed.

(** C22: the transfer terminates. Whatever the server answers, whenever the requests fail and
    whenever the caller aborts, a run of n workers over k chunks with R retries contains at most
    n + k(2R+2) wake-ups of a worker (requests answered, sleeps elapsed, chunks returned); and as long
    as the workers have not all returned, some worker waits for a wake-up that the code
    handles: its start, its timer, or any answer to its request. *)
Theorem transfer_terminates es s :
  exec_all JSON_parse p es (started p) = Some s →
  (length (List.filter wakes es) ≤ worker_count p + chunkCount p * (2 * maxRetries p + 2))%nat ∧
  (settled s = Waiting →
   ∃ w, is_Some (exec JSON_parse p (Run w) s) ∨ is_Some (exec JSON_parse p (Slept w) s) ∨
        ∀ r, is_Some (exec JSON_parse p (Put w r) s)).
Proof.
  intros H. split.
  - pose proof (exec_all_work es _ _ started_inv H). rewrite work_left_started in *. lia.
  - unfold settled. destruct (thrown s) eqn:Ht; [done|].
    destruct (forallb is_done (workers s)) eqn:Hd; [done|]. intros _.
    assert (∃ pc, pc ∈ workers s ∧ is_done pc = false) as (pc & Hin & Hpc).
    { apply not_true_iff_false in Hd. rewrite forallb_elem in Hd.
      destruct (List.find (λ pc, negb (is_done pc)) (workers s)) as [pc|] eqn:E.
      - apply find_elem in E as [? ?]. exists pc. by bool_prop.
      - destruct Hd. intros x Hx. rewrite find_none_all in E. specialize (E x Hx). by bool_prop. }
    apply list_elem_of_lookup in Hin as [w Hw]. exists w. cbn [exec]. rewrite Hw.
    destruct pc as [| | | | |e]; eauto; [done|].
    exfalso. unfold thrown in Ht. apply head_None in Ht.
    assert (e ∈ omap (λ pc, match pc with WThrown e => Some e | _ => None end) (workers s)) as Hin.
    { apply list_elem_of_omap. exists (WThrown e). split; [|done]. by eapply list_elem_of_lookup_2. }
    rewrite Ht in Hin. by apply elem_of_nil in Hin.
Qed.

(** C3: at every moment of a transfer no two workers upload the same chunk, each chunk in
    flight was claimed from the queue and is within its retry budget, the counters of every
    chunk stay between zero and the size of the chunk with a finished chunk counted in full,
    a chunk not yet claimed is untouched, and every request sent carries the byte range of its chunk. *)
Theorem transfer_invariants es s :
  exec_all JSON_parse p es (started p) = Some s →
  (∀ w1 w2 i, held s w1 i → held s w2 i → w1 = w2) ∧
  (∀ w pc i a, workers s !! w = Some pc → holds pc = Some (i, a) →
     (i < nextIndex s ∧ i < chunkCount p ∧ a ≤ maxRetries p)%nat) ∧
  (∀ i c, chunks s !! i = Some c →
     index c = i ∧ total c = total (initial_chunk p i) ∧ 0 ≤ loaded c ≤ total c ∧
     (attempt c ≤ maxRetries p + 1)%nat ∧ (status c = Done → loaded c = total c) ∧
     ((nextIndex s ≤ i)%nat → status c = Pending ∧ loaded c = 0)) ∧
  (∀ i range, (i, range) ∈ puts s → range = (chunk_start p i, chunk_end p i)).
Proof.
  intros H%upload_exec_all_inv; [|apply started_inv]. split_and!; [apply H|apply H| |].
  - intros i c Hc. destruct (inv_chunk s H i c Hc) as (? & ? & ? & ? & ?).
    pose proof (inv_fresh s H i c Hc). done.
  - intros i range Hin. destruct (inv_valid s H _ Hin) as [He _]. by injection He.
Qed.

(** ** Progress reports *)

(** Unless a report is pending, the last report shows the present state of the chunks;
    a pending report has its animation frame. *)
Definition reported (s : state (Body := Body)) : Prop :=
  if progressDirty (ui s) then progressRaf (ui s) = true
  else ∃ k, reports (ui s) = OnProgress (Z.min (loaded_sum (chunks s)) (size p)) (size p)
                             :: OnChunkProgress (chunks s) :: k.

Lemma reported_emit b s : reported (emit p b s).
Proof. destruct b; unfold reported; simpl; eauto. Qed.

Lemma reported_ext s s' : ui s' = ui s → chunks s' = chunks s → reported s → reported s'.
Proof. unfold reported. by intros -> ->. Qed.

Lemma reported_attempt_loop w i a s : reported s → reported (attempt_loop p w i a s).
Proof.
  intros R. unfold attempt_loop, fail_chunk. repeat case_match; try done.
  all: first [ by eapply reported_ext | by eapply (reported_ext (emit _ _ _)); [..|apply reported_emit] ].
Qed.

Lemma reported_exec e s s' : reported s → exec JSON_parse p e s = Some s' → reported s'.
Proof.
  intros R. destruct e as [w|w|w n|w r|w e| |]; cbn [exec].
  1-5: destruct (workers s !! w) as [pc|]; [|done].
  - assert (reported (worker_loop p w s)).
    { unfold worker_loop. repeat case_match; try done. by apply reported_attempt_loop. }
    by destruct pc as [| | |[err|]| |]; intros; simplify_eq/=.
  - destruct pc; intros; simplify_eq. unfold slept. case_match; [|done].
    by eapply (reported_ext (emit _ _ _)); [..|apply reported_emit].
  - destruct pc; try done. case_match; [|done]. intros; simplify_eq. apply reported_emit.
  - destruct pc; intros; simplify_eq. unfold put_settled. repeat case_match.
    1-3: by eapply (reported_ext (emit _ _ _)); [..|apply reported_emit].
    by apply reported_attempt_loop.
  - destruct pc; intros; by simplify_eq.
  - by intros [= <-].
  - case_match; [|done]. intros [= <-]. unfold reported. simpl. eauto.
Qed.

(** C36: no progress is lost by the coalescing of reports. After any run, either the last call of
    both callbacks shows the present state of every chunk and the capped total, or an animation
    frame is requested and its callback makes that report. *)
Theorem progress_reported es s :
  exec_all JSON_parse p es (started p) = Some s →
  (∃ k, reports (ui s) = OnProgress (Z.min (loaded_sum (chunks s)) (size p)) (size p)
                         :: OnChunkProgress (chunks s) :: k) ∨
  (∃ s', exec JSON_parse p Frame s = Some s' ∧ chunks s' = chunks s ∧
     ∃ k, reports (ui s') = OnProgress (Z.min (loaded_sum (chunks s)) (size p)) (size p)
                            :: OnChunkProgress (chunks s) :: k).
Proof.
  intros H. assert (R : reported s).
  { assert (R0 : reported (started p)) by (unfold reported; simpl; eauto).
    revert R0 H. generalize (started (Body := Body) p). induction es as [|e es IH]; intros s0 R0.
    - by intros [= <-].
    - cbn [exec_all]. destruct (thrown s0); [done|].
      destruct (exec JSON_parse p e s0) eqn:E; [|done]. apply IH. by eapply reported_exec. }
  unfold reported in R. destruct (progressDirty (ui s)); [|by left].
  right. exists (frame p s). cbn [exec]. rewrite R. simpl. eauto.
Qed.

End transfer_invariant.

(** ** The session is completed or deleted *)

Section whole_upload_spec.
Context {Body A : Type}.
Variable JSON_parse : jsstring → option Body.

Lemma worker_count_pos o fsize s :
  (0 < chunkCount (session_params o fsize s))%nat → (0 < worker_count (session_params o fsize s))%nat.
Proof. unfold worker_count. simpl. lia. Qed.

Lemma complete_upload_cases p id chunks ui before (answer : result jsstring (response A)) :
  let out := complete_upload JSON_parse p id chunks ui before answer in
  (∃ r, o_result out = Ok r ∧ res_ok r = true ∧ o_requests out = before ++ [Complete id]) ∨
  ((∀ r, o_result out = Ok r → res_ok r = false) ∧ o_requests out = before ++ [Complete id; Delete id]).
Proof.
  cbv zeta. unfold complete_upload. destruct answer as [r|e]; [|by right].
  destruct (resp_ok r); [left; eauto|]. right. split; [|done]. by intros r0 [= <-].
Qed.

(** C1: once the server opened a session, the upload ends either with success and [complete] as
    its last request, or without success and with the deletion of the session as its last request
    (refused completion, failed or unsendable chunk, abort by the caller). [complete] is
    only requested when every chunk was uploaded: the run ends in a state with every chunk done,
    each with a request that carried its range. *)
Theorem session_closed o name fsize (env : environment (A := A)) out r s :
  uploadFileChunked JSON_parse o name fsize env = Some out →
  init_answer env = Ok r → resp_ok r = true → decoded r = Ok s →
  let p := session_params o fsize s in
  ((∃ res, o_result out = Ok res ∧ res_ok res = true ∧
           ∃ before, o_requests out = before ++ [Complete (upload_id s)] ∧
                     Delete (upload_id s) ∉ before) ∨
   ((∀ res, o_result out = Ok res → res_ok res = false) ∧
    ∃ before, o_requests out = before ++ [Delete (upload_id s)])) ∧
  (Complete (upload_id s) ∈ o_requests out → (0 < chunkCount p)%nat →
   ∃ st, exec_all JSON_parse p (run env) (started p) = Some st ∧
     ∀ i, (i < chunkCount p)%nat → chunk_is st i Done ∧
          PutChunk (upload_id s) i (chunk_start p i, chunk_end p i) ∈ o_requests out).
Proof.
  intros Hup Hr Hok Hd p. unfold uploadFileChunked in Hup. rewrite Hr, Hok, Hd in Hup. cbv zeta in Hup. fold p in Hup.
  destruct (aborted_early env).
  { injection Hup as <-. simpl. split.
    - right. split; [by intros ? [= <-]|]. by exists [Init (initPayload o name fsize)].
    - intros Hin. set_solver. }
  assert (Hcc : ∀ ch u before, Delete (upload_id s) ∉ before →
    let out := complete_upload JSON_parse p (upload_id s) ch u before (complete_answer env) in
    (∃ res, o_result out = Ok res ∧ res_ok res = true ∧
       ∃ before, o_requests out = before ++ [Complete (upload_id s)] ∧ Delete (upload_id s) ∉ before) ∨
    ((∀ res, o_result out = Ok res → res_ok res = false) ∧
     ∃ before, o_requests out = before ++ [Delete (upload_id s)])).
  { intros ch u before Hb. destruct (complete_upload_cases p (upload_id s) ch u before (complete_answer env))
      as [(res & H1 & H2 & H3)|[H1 H2]]; [left; eauto 10|].
    right. split; [done|]. eexists (before ++ [Complete (upload_id s)]). rewrite H2, <- app_assoc. done. }
  assert (Hnd : ∀ ps, Delete (upload_id s) ∉ [Init (initPayload o name fsize)] ++ put_requests (upload_id s) ps)
    by (unfold put_requests; intros ps; set_solver).
  assert (Hnc : ∀ ps, Complete (upload_id s) ∉ [Init (initPayload o name fsize)] ++ put_requests (upload_id s) ps)
    by (unfold put_requests; intros ps; set_solver).
  unfold transfer in Hup. destruct (0 <? chunkCount p)%nat eqn:Hpos; bool_prop.
  - destruct (exec_all JSON_parse p (run env) (started p)) as [st|] eqn:E; [|done].
    destruct (settled st) as [| |e] eqn:Hs; [done| |]; injection Hup as <-.
    + unfold decide_upload. cbn [firstError flush_pending puts chunks].
      pose proof (upload_exec_all_inv JSON_parse p _ _ _ (started_inv p) E) as I.
      destruct (firstError st) as [e|] eqn:He.
      * split; [right; split; [by intros ? [= <-]|eauto]|]. intros Hin. exfalso.
        cbn [o_requests] in Hin. rewrite elem_of_app in Hin.
        destruct Hin as [Hin|Hin]; [by apply (Hnc _ Hin) | set_solver].
      * split; [by apply Hcc|]. intros _ _. exists st. split; [done|]. intros i Hi.
        assert (Hdone : chunk_is st i Done).
        { eapply all_chunks_done; eauto. by apply worker_count_pos. }
        split; [done|]. pose proof (inv_acked _ _ I _ Hdone) as Hput.
        assert (PutChunk (upload_id s) i (chunk_start p i, chunk_end p i)
                ∈ put_requests (upload_id s) (puts st)).
        { unfold put_requests. apply list_elem_of_fmap. exists (entry p i). split; [done|].
          by rewrite elem_of_reverse. }
        destruct (complete_upload_cases p (upload_id s) (chunks st) (ui (flush_pending p st))
          ([Init (initPayload o name fsize)] ++ put_requests (upload_id s) (puts st)) (complete_answer env))
          as [(? & _ & _ & ->)|[_ ->]]; rewrite !elem_of_app; auto.
    + split.
      * right. split; [by intros ?|]. simpl.
        exists (Init (initPayload o name fsize) :: put_requests (upload_id s) (puts st)). done.
      * intros Hin. exfalso. cbn [o_requests] in Hin.
        pose proof (Hnc (puts st)). set_solver.
  - injection Hup as <-. split; [apply Hcc; set_solver|]. lia.
Qed.
End whole_upload_spec.

(** ** A transfer of two chunks with a lost request *)

Definition no_json (_ : jsstring) : option unit := None.

Definition demo : session :=
  {| size := 10; chunkSize := 6; chunkCount := 2; concurrency := 2; maxRetries := 1 |}.

Definition demo_run : list event :=
  [Run 0; Run 1; Put 1 OnError; Progress 0 3; Frame; Slept 1; Put 0 (OnLoad 204 [] []);
   Run 0; Put 1 (OnLoad 204 [] []); Run 1].

Definition demo_end : state (Body := unit) :=
  default (started demo) (exec_all no_json demo demo_run (started demo)).

Lemma transfer_terminates_witness :
  (length (List.filter wakes demo_run) ≤ 10)%nat ∧ settled demo_end = AllDone.
Proof.
  split; [|vm_compute; reflexivity].
  apply (transfer_terminates no_json demo demo_run demo_end). vm_compute; reflexivity.
Defined.

Lemma transfer_invariants_witness :
  (∀ i range, (i, range) ∈ puts demo_end → range = (chunk_start demo i, chunk_end demo i)) ∧
  puts demo_end = [(1%nat, (6, 10)); (1%nat, (6, 10)); (0%nat, (0, 6))].
Proof.
  split; [|vm_compute; reflexivity].
  apply (transfer_invariants no_json demo demo_run demo_end). vm_compute; reflexivity.
Defined.

Lemma progress_reported_witness :
  let s := default (started demo) (exec_all no_json demo (take 4 demo_run) (started demo)) in
  progressDirty (ui s) = true ∧ loaded_sum (chunks s) = 3 ∧
  ((∃ k, reports (ui s) = OnProgress (Z.min (loaded_sum (chunks s)) 10) 10 :: OnChunkProgress (chunks s) :: k) ∨
   (∃ s', exec no_json demo Frame s = Some s' ∧ chunks s' = chunks s ∧
     ∃ k, reports (ui s') = OnProgress (Z.min (loaded_sum (chunks s)) 10) 10 :: OnChunkProgress (chunks s) :: k)).
Proof.
  split; [vm_compute; reflexivity|]. split; [vm_compute; reflexivity|].
  apply (progress_reported no_json demo (take 4 demo_run)). vm_compute; reflexivity.
Defined.

Definition demo_options : ChunkedUploadOptions :=
  {| purpose := []; path := "releases/a.jar"; generateChecksums := true;
     gpgSignatureExpected := false; opt_chunkSize := None; opt_concurrency := Some 2%nat;
     opt_maxRetries := Some 1%nat |}.

Definition demo_env : environment (A := unit) :=
  {| init_answer :=
       Ok {| resp_status := 200; resp_text := None; resp_code := None; resp_review := None;
             decoded := Ok {| upload_id := "u1"; s_chunk_size := 6; s_chunk_count := 2 |} |};
     aborted_early := false; run := demo_run;
     complete_answer :=
       Ok {| resp_status := 201; resp_text := None; resp_code := None; resp_review := None;
             decoded := Ok () |} |}.

Definition demo_session : init_session :=
  {| upload_id := "u1"; s_chunk_size := 6; s_chunk_count := 2 |}.

Lemma session_closed_witness :
  ∃ out, uploadFileChunked no_json demo_options "a.jar" 10 demo_env = Some out ∧
    o_requests out !! 4%nat = Some (Complete "u1") ∧
    (Complete "u1" ∈ o_requests out → (0 < 2)%nat →
     ∃ st, exec_all no_json (session_params demo_options 10 demo_session) demo_run
             (started (session_params demo_options 10 demo_session)) = Some st ∧
       ∀ i, (i < 2)%nat → chunk_is st i Done ∧
            PutChunk "u1" i (chunk_start demo i, chunk_end demo i) ∈ o_requests out).
Proof.
  eexists. split; [vm_compute; reflexivity|]. split; [vm_compute; reflexivity|].
  eapply (session_closed no_json demo_options "a.jar" 10 demo_env _ _ demo_session); vm_compute; reflexivity.
Defined.

(** ** The chunks cover the file *)

Lemma chunk_totals_sum p n :
  0 < chunkSize p → 0 ≤ size p →
  sumZ (total <$> (initial_chunk p <$> seq 0 n)) = Z.min (Z.of_nat n * chunkSize p) (size p).
Proof.
  intros Hc Hs. induction n as [|n IH]; [simpl; lia|].
  rewrite seq_S, !fmap_app, sumZ_app, IH. csimpl. unfold chunk_end, chunk_start.
  rewrite Nat2Z.inj_succ. lia.
Qed.

(** With the part size and count the server agrees to (as many parts as the size needs),
    the totals of the chunks add up to the size of the file, so a transfer with every chunk
    done has loaded exactly the file; the suggested part size is positive and at
    most the server's cap, and the suggested number of workers is between one and six and
    never more than the parts. *)
Theorem chunks_cover_file p :
  0 < chunkSize p → 0 ≤ size p → Z.of_nat (chunkCount p) = ceil_div (size p) (chunkSize p) →
  sumZ (total <$> initial_chunks p) = size p ∧
  0 < suggestChunkSize (size p) ≤ MAX_CHUNK_SIZE ∧
  1 ≤ suggestConcurrency (size p) (Z.of_nat (chunkCount p)) ≤ 6 ∧
  suggestConcurrency (size p) (Z.of_nat (chunkCount p)) ≤ Z.max 1 (Z.of_nat (chunkCount p)).
Proof.
  intros Hc Hs Hn. split_and!.
  - unfold initial_chunks. rewrite chunk_totals_sum, Hn by done.
    pose proof (ceil_div_bounds (size p) (chunkSize p) Hc). lia.
  - unfold suggestChunkSize, PREFERRED_CHUNK_SIZE, MAX_CHUNK_SIZE. repeat case_match; bool_prop; lia.
  - unfold suggestChunkSize, PREFERRED_CHUNK_SIZE, MAX_CHUNK_SIZE. repeat case_match; bool_prop; lia.
  - unfold suggestConcurrency. cbv zeta. repeat case_match; bool_prop; lia.
  - unfold suggestConcurrency. cbv zeta. repeat case_match; bool_prop; lia.
  - unfold suggestConcurrency. cbv zeta. repeat case_match; bool_prop; lia.
Qed.

Lemma chunks_cover_file_witness : sumZ (total <$> initial_chunks demo) = 10.
Proof. apply (chunks_cover_file demo); [reflexivity|by vm_compute|reflexivity]. Defined.
