(* ===== verification/Availability.v ===== *)
(** * Backend availability

    [internal/service/frontend/renop-html/js/backend-availability.js]: the monitor that
    confirms a failed request with two probes before it shows the blocking offline
    overlay. The confirmation is an asynchronous function; an event is what the page,
    the network or the timers do, and [exec] is the code that runs until the next [await]. *)

From S2P Require Import Prelude JsText.

Definition probeRetryDelayMs : Z := 650.
Definition probeTimeoutMs : Z := 4000.

(** ** The monitor *)

(** Where the confirmation waits. [this.confirmation] is [null] exactly at [CNone]. *)
Inductive confirmation :=
  | CNone
  | CProbe1                (* await this.runProbe(), first *)
  | CDelay                 (* await this.delay(probeRetryDelayMs) *)
  | CProbe2                (* await this.runProbe(), second *)
  | CReturned (b : bool).  (* the function returned; [finally] has not run *)

Record monitor := {
  visible : bool;          (* what [isVisible()] answers *)
  pendingFailure : bool;
  offline : bool;
  conf : confirmation;
  queued : nat;            (* microtasks that will call [confirm] *)
  overlay : bool           (* the overlay is displayed *)
}.

Definition new_monitor (v : bool) : monitor :=
  {| visible := v; pendingFailure := false; offline := false; conf := CNone; queued := 0;
     overlay := false |}.

Definition set_pending (b : bool) (m : monitor) : monitor :=
  {| visible := visible m; pendingFailure := b; offline := offline m; conf := conf m;
     queued := queued m; overlay := overlay m |}.
Definition set_conf (c : confirmation) (m : monitor) : monitor :=
  {| visible := visible m; pendingFailure := pendingFailure m; offline := offline m; conf := c;
     queued := queued m; overlay := overlay m |}.
Definition set_queued (n : nat) (m : monitor) : monitor :=
  {| visible := visible m; pendingFailure := pendingFailure m; offline := offline m;
     conf := conf m; queued := n; overlay := overlay m |}.
Definition set_visible (v : bool) (m : monitor) : monitor :=
  {| visible := v; pendingFailure := pendingFailure m; offline := offline m; conf := conf m;
     queued := queued m; overlay := overlay m |}.

(** [onOnline] hides the overlay, [onOffline] shows it. *)
Definition noteSuccess (m : monitor) : monitor :=
  {| visible := visible m; pendingFailure := false; offline := false; conf := conf m;
     queued := queued m; overlay := false |}.

Definition goOffline (m : monitor) : monitor :=
  {| visible := visible m; pendingFailure := false; offline := true; conf := conf m;
     queued := queued m; overlay := true |}.

(** The first stretch of the confirmation, up to its first probe. *)
Definition confirm (m : monitor) : monitor :=
  match conf m with
  | CNone => if visible m then set_conf CProbe1 m else set_conf (CReturned false) m
  | _ => m
  end.

Definition after_probe1 (b : bool) (m : monitor) : monitor :=
  if b then set_conf (CReturned true) (noteSuccess m) else set_conf CDelay m.

Definition after_delay (m : monitor) : monitor :=
  if negb (pendingFailure m) then set_conf (CReturned true) m
  else if negb (visible m) then set_conf (CReturned false) m
  else set_conf CProbe2 m.

Definition after_probe2 (b : bool) (m : monitor) : monitor :=
  if b then set_conf (CReturned true) (noteSuccess m)
  else if negb (visible m) then set_conf (CReturned false) m
  else set_conf (CReturned false) (goOffline m).

(** The [finally] of the confirmation. *)
Definition confirm_finally (m : monitor) : monitor :=
  let m := set_conf CNone m in
  if pendingFailure m && visible m then set_queued (queued m + 1) m else m.

Definition noteFailure (m : monitor) : monitor :=
  let m := set_pending true m in
  if visible m then confirm m else m.

Definition resume (m : monitor) : monitor :=
  if negb (visible m) || (negb (pendingFailure m) && negb (offline m)) then m
  else confirm (set_pending true m).

Definition retry (m : monitor) : monitor := confirm (set_pending true m).

(** The provider's rejection counts as a failed probe. *)
Definition runProbe (answer : result unit bool) : bool :=
  match answer with Ok b => b | Throw _ => false end.

(** The probe of the page: the status of the health request, or an exception. *)
Definition probe (answer : result unit Z) : result unit bool :=
  match answer with
  | Ok st => Ok ((200 <=? st)%Z && (st <? 300)%Z)
  | Throw _ => Ok false
  end.

Inductive event :=
  | Failure                          (* a tracked request failed *)
  | Success                          (* a tracked request was answered *)
  | Resume                           (* [pageshow] or [online] *)
  | Retry                            (* the button of the overlay *)
  | Visibility (v : bool)            (* [visibilitychange] *)
  | Answer (r : result unit Z)       (* the health request of the running probe *)
  | DelayElapsed
  | Finally
  | Microtask.

Definition answered (r : result unit Z) : bool := runProbe (probe r).

Definition exec (e : event) (m : monitor) : option monitor :=
  match e with
  | Failure => Some (noteFailure m)
  | Success => Some (noteSuccess m)
  | Resume => Some (resume m)
  | Retry => Some (retry m)
  | Visibility v => Some (resume (set_visible v m))
  | Answer r =>
      match conf m with
      | CProbe1 => Some (after_probe1 (answered r) m)
      | CProbe2 => Some (after_probe2 (answered r) m)
      | _ => None
      end
  | DelayElapsed => match conf m with CDelay => Some (after_delay m) | _ => None end
  | Finally => match conf m with CReturned _ => Some (confirm_finally m) | _ => None end
  | Microtask =>
      match queued m with S n => Some (confirm (set_queued n m)) | O => None end
  end.

Fixpoint exec_all (es : list event) (m : monitor) : option monitor :=
  match es with
  | [] => Some m
  | e :: es => match exec e m with Some m' => exec_all es m' | None => None end
  end.

(** ** The tracked requests *)

Section tracked_requests.
(** The origin of [new URL(s, base)]; [None] where the constructor throws. *)
Variable URL_origin : jsstring → option jsstring → option jsstring.

(** A string or a [URL] converts to a string; an object with a [url] is a [Request]. *)
Inductive fetch_input := Text (s : jsstring) | WithUrl (url : jsstring).

Definition isSameOriginRequest (input : fetch_input) (baseURL : jsstring) : bool :=
  let target := match input with Text s => s | WithUrl url => url end in
  match URL_origin baseURL None with
  | None => false
  | Some base =>
      match URL_origin target (Some baseURL) with
      | None => false
      | Some origin => eqs origin base
      end
  end.

Inductive fetch_outcome := Response | TypeError | OtherError.

(** What the wrapped [fetch] tells the monitor. *)
Definition tracked_fetch (input : fetch_input) (href : jsstring) (o : fetch_outcome) : option event :=
  let tracked := isSameOriginRequest input href in
  match o with
  | Response => if tracked then Some Success else None
  | TypeError => if tracked then Some Failure else None
  | OtherError => None
  end.
End tracked_requests.

(** ** Invariants *)

(** A pending failure on a visible page is being confirmed or about to be, and the
    overlay shows the offline state. *)
Definition monitor_inv (m : monitor) : Prop :=
  overlay m = offline m ∧
  (visible m = true → pendingFailure m = true → conf m ≠ CNone ∨ queued m ≠ 0%nat).

Lemma monitor_inv_new v : monitor_inv (new_monitor v).
Proof. unfold monitor_inv; simpl. split; [reflexivity | discriminate]. Qed.

Lemma monitor_inv_exec e m m' : monitor_inv m → exec e m = Some m' → monitor_inv m'.
Proof.
  destruct m as [v pf off c q ov]. unfold monitor_inv. simpl. intros [-> Hp].
  destruct e as [| | | |v'|r| | |]; try destruct v'; destruct v, pf, off, c; simpl;
    try destruct (answered r); try destruct q as [|q];
    intros; simplify_eq/=; (split; [reflexivity|]); intros; simplify_eq/=;
    solve [ by left | by right | right; lia | by destruct Hp ].
Qed.

Lemma exec_all_snoc es e m :
  exec_all (es ++ [e]) m = match exec_all es m with Some m' => exec e m' | None => None end.
Proof.
  revert m. induction es as [|e' es IH]; intros m; simpl; [by destruct (exec e m)|].
  destruct (exec e' m); [apply IH | done].
Qed.

Lemma monitor_exec_all_inv es v m : exec_all es (new_monitor v) = Some m → monitor_inv m.
Proof.
  revert m. induction es as [|e es IH] using rev_ind; intros m.
  - intros [= <-]. apply monitor_inv_new.
  - rewrite exec_all_snoc. destruct (exec_all es (new_monitor v)) as [m0|]; [|done].
    apply monitor_inv_exec. by apply IH.
Qed.

(** ** Why the page is offline *)

Definition is_answer (e : event) : bool := match e with Answer _ => true | _ => false end.
Definition reaches (e : event) : bool :=
  match e with Success => true | Answer r => answered r | _ => false end.

Definition failed_once (es : list event) : Prop :=
  ∃ a r b, es = a ++ Answer r :: b ∧ answered r = false ∧ existsb is_answer b = false.
Definition failed_then_waited (es : list event) : Prop :=
  ∃ a r b c, es = a ++ Answer r :: b ++ DelayElapsed :: c ∧ answered r = false ∧
    existsb is_answer b = false ∧ existsb is_answer c = false.
Definition failed_twice (es : list event) : Prop :=
  ∃ a r b c r' d, es = a ++ Answer r :: b ++ DelayElapsed :: c ++ Answer r' :: d ∧
    answered r = false ∧ answered r' = false ∧
    existsb is_answer b = false ∧ existsb is_answer c = false ∧ existsb reaches d = false.

Lemma existsb_snoc {A} (f : A → bool) l x : existsb f (l ++ [x]) = existsb f l || f x.
Proof. rewrite existsb_app. simpl. by rewrite orb_false_r. Qed.

Lemma failed_once_snoc es e : failed_once es → is_answer e = false → failed_once (es ++ [e]).
Proof.
  intros (a & r & b & -> & Hr & Hb) He. exists a, r, (b ++ [e]).
  rewrite existsb_snoc, Hb, He. split_and!; try done. by rewrite <- app_assoc.
Qed.

Lemma failed_then_waited_snoc es e :
  failed_then_waited es → is_answer e = false → failed_then_waited (es ++ [e]).
Proof.
  intros (a & r & b & c & -> & Hr & Hb & Hc) He. exists a, r, b, (c ++ [e]).
  rewrite existsb_snoc, Hc, He. split_and!; try done. by rewrite <- !app_assoc; simpl; rewrite <- app_assoc.
Qed.

Lemma failed_twice_snoc es e : failed_twice es → reaches e = false → failed_twice (es ++ [e]).
Proof.
  intros (a & r & b & c & r' & d & -> & H1 & H2 & H3 & H4 & Hd) He.
  exists a, r, b, c, r', (d ++ [e]). rewrite existsb_snoc, Hd, He.
  split_and!; try done. rewrite <- !app_assoc; simpl. by rewrite <- app_assoc; simpl; rewrite <- app_assoc.
Qed.

Definition history (es : list event) (m : monitor) : Prop :=
  match conf m with
  | CDelay => failed_once es
  | CProbe2 => failed_then_waited es
  | _ => True
  end ∧ (offline m = true → failed_twice es).

Lemma history_keep es e m m' :
  history es m → conf m' = conf m ∨ conf m' = CProbe1 ∨ (∃ b, conf m' = CReturned b) ∨ conf m' = CNone →
  is_answer e = false → (offline m' = true → offline m = true ∧ reaches e = false) →
  history (es ++ [e]) m'.
Proof.
  intros [Hc Ho] Hor Ha Hoff. split.
  - destruct Hor as [->|[->|[[b ->]| ->]]]; [|done..].
    destruct (conf m); eauto using failed_once_snoc, failed_then_waited_snoc.
  - intros H. destruct (Hoff H) as [? ?]. apply failed_twice_snoc; auto.
Qed.

Lemma conf_confirm m :
  conf (confirm m) = conf m ∨ conf (confirm m) = CProbe1 ∨
  (∃ b, conf (confirm m) = CReturned b) ∨ conf (confirm m) = CNone.
Proof. unfold confirm. destruct (conf m) eqn:E; [destruct (visible m); simpl; eauto | by left..]. Qed.

Lemma offline_confirm m : offline (confirm m) = offline m.
Proof. unfold confirm. by repeat case_match. Qed.

Lemma history_exec es e m m' : history es m → exec e m = Some m' → history (es ++ [e]) m'.
Proof.
  intros H. pose proof H as [Hc Ho]. destruct e as [| | | |v|r| | |]; cbn [exec].
  - intros [= <-]. apply (history_keep _ _ m); try done; unfold noteFailure; cbn [visible set_pending].
    + split_if; [apply (conf_confirm (set_pending true m)) | by left].
    + by split_if; rewrite ?offline_confirm.
  - intros [= <-]. apply (history_keep _ _ m); try done. by left.
  - intros [= <-]. apply (history_keep _ _ m); try done; unfold resume.
    + split_if; [by left|]. apply (conf_confirm (set_pending true m)).
    + by split_if; rewrite ?offline_confirm.
  - intros [= <-]. apply (history_keep _ _ m); try done; unfold retry.
    + apply (conf_confirm (set_pending true m)).
    + by rewrite offline_confirm.
  - intros [= <-]. apply (history_keep _ _ m); try done; unfold resume.
    + split_if; [by left|]. apply (conf_confirm (set_pending true (set_visible v m))).
    + by split_if; rewrite ?offline_confirm.
  - destruct (conf m) eqn:E; try done; intros [= <-].
    + unfold after_probe1. destruct (answered r) eqn:Hr; split; simpl; try done.
      * exists es, r, []. done.
      * intros. by apply failed_twice_snoc; auto.
    + unfold after_probe2. destruct (answered r) eqn:Hr; [by split|].
      destruct (visible m); simpl; split; simpl; try done.
      * intros _. destruct Hc as (a & r0 & b & c & -> & ? & ? & ?).
        exists a, r0, b, c, r, []. split_and!; try done.
        rewrite <- !app_assoc; simpl. by rewrite <- app_assoc.
      * intros. by apply failed_twice_snoc; auto.
  - destruct (conf m) eqn:E; try done; intros [= <-]. unfold after_delay.
    assert (Hoff : offline m = true → failed_twice (es ++ [DelayElapsed]))
      by (intros; by apply failed_twice_snoc; auto).
    destruct (pendingFailure m), (visible m); simpl; split; simpl; try done.
    destruct Hc as (a & r & b & -> & Hr & Hb). exists a, r, b, []. split_and!; try done.
    by rewrite <- app_assoc.
  - destruct (conf m) eqn:E; try done. intros [= <-]. unfold confirm_finally.
    assert (Hoff : offline m = true → failed_twice (es ++ [Finally]))
      by (intros; by apply failed_twice_snoc; auto).
    by destruct (pendingFailure (set_conf CNone m) && visible (set_conf CNone m)); split.
  - destruct (queued m) as [|n]; [done|]. intros [= <-].
    apply (history_keep _ _ m); try done.
    + apply (conf_confirm (set_queued n m)).
    + by rewrite offline_confirm.
Qed.

(** C10: the blocking overlay is shown exactly while the monitor is offline, and it is offline only
    after a confirmation in which a first probe failed, the retry delay elapsed, and the next
    probe failed too, with no request answered and no probe successful since then. *)
Theorem offline_confirmed es v m :
  exec_all es (new_monitor v) = Some m →
  overlay m = offline m ∧ (overlay m = true → failed_twice es).
Proof.
  intros H. pose proof (monitor_exec_all_inv _ _ _ H) as [Hov _]. rewrite Hov. split; [done|].
  assert (Hh : history es m); [|by apply Hh].
  revert m H Hov. induction es as [|e es IH] using rev_ind; intros m.
  - intros [= <-] _. by split.
  - rewrite exec_all_snoc. destruct (exec_all es (new_monitor v)) as [m0|] eqn:E; [|done].
    intros H _. eapply history_exec; [|done]. apply IH; [done|]. by eapply monitor_exec_all_inv.
Qed.

(** No failure is forgotten. Whenever the page is visible and a failure is pending, a
    confirmation is running or a microtask that starts one is queued; the running confirmation
    always accepts the next answer, delay or [finally], so it cannot be stuck. *)
Theorem failure_confirmed es v m :
  exec_all es (new_monitor v) = Some m → visible m = true → pendingFailure m = true →
  (∀ r, is_Some (exec (Answer r) m)) ∨ is_Some (exec DelayElapsed m) ∨
  is_Some (exec Finally m) ∨ is_Some (exec Microtask m).
Proof.
  intros H Hv Hp. destruct (monitor_exec_all_inv _ _ _ H) as [_ Hor]. specialize (Hor Hv Hp).
  cbn [exec]. destruct (conf m); [|eauto 10..].
  destruct Hor as [?|Hq]; [done|]. destruct (queued m) as [|n]; [done|]. eauto 10.
Qed.

Definition lost : event := Answer (Throw ()).

Lemma offline_confirmed_witness :
  ∃ m, exec_all [Failure; lost; DelayElapsed; lost; Finally] (new_monitor true) = Some m ∧
    overlay m = true ∧ failed_twice [Failure; lost; DelayElapsed; lost; Finally].
Proof.
  eexists. split; [reflexivity|]. split; [reflexivity|].
  eapply (offline_confirmed [Failure; lost; DelayElapsed; lost; Finally] true); reflexivity.
Defined.

Lemma failure_confirmed_witness :
  ∃ m, exec_all [Visibility false; Failure; Retry; Visibility true; Finally] (new_monitor true) = Some m ∧
    conf m = CNone ∧
    ((∀ r, is_Some (exec (Answer r) m)) ∨ is_Some (exec DelayElapsed m) ∨
     is_Some (exec Finally m) ∨ is_Some (exec Microtask m)).
Proof.
  eexists. split; [reflexivity|]. split; [reflexivity|].
  eapply (failure_confirmed [Visibility false; Failure; Retry; Visibility true; Finally] true); reflexivity.
Defined.
