(* ===== verification/I18nUtil.v ===== *)
(** * Language matching and message lookup

    [packages/renop-ui/js/i18n-util.js]: the match of a language tag against the
    registered keys, the choice of the initial language, the lookup of a message in
    two dictionaries and the interpolation of its placeholders. *)

From S2P Require Import Prelude JsText JsValue.

(** ** Language tags *)

Definition is_tag_sep (c : ascii) : bool := ascii_eqb c "-" || ascii_eqb c "_".

Definition starts_chinese (tag : jsstring) : bool := startsWith tag "zh" || startsWith tag "yue".

Definition has_key (k : jsstring) (keys : list jsstring) : bool := existsb (eqs k) keys.

(** The heuristics for Chinese tags; [tag] is in lower case. *)
Definition match_chinese (tag : jsstring) (keys : list jsstring) : option jsstring :=
  if has_key "zh-YUE" keys && (includes tag "yue" || includes tag "cantonese") then Some (js "zh-YUE")
  else if has_key "zh-HK" keys && includes tag "hk" then Some (js "zh-HK")
  else if has_key "zh-TW" keys && (includes tag "tw" || includes tag "hant") then Some (js "zh-TW")
  else if has_key "zh-CN" keys
          && (includes tag "cn" || includes tag "hans" || includes tag "sg" || eqs tag "zh"
              || startsWith tag "zh-") then Some (js "zh-CN")
  else List.find (λ k, startsWith (toLowerCase k) "zh") keys.

Definition match_base (clean : jsstring) (keys : list jsstring) : option jsstring :=
  let base := toLowerCase (default [] (head (splitBy is_tag_sep clean))) in
  if truthy base then
    List.find (λ k, eqs (toLowerCase k) base || startsWith (toLowerCase k) (base ++ js "-")) keys
  else None.

(** [None]: a missing tag, and the absence of a match. *)
Definition matchLocaleKey (lang : option jsstring) (keys : list jsstring) : option jsstring :=
  match lang with
  | None => None
  | Some lang =>
      let clean := trim lang in
      if truthy clean then
        match keys with
        | [] => None
        | _ =>
            let cleanLower := toLowerCase clean in
            match List.find (λ k, eqs (toLowerCase k) cleanLower) keys with
            | Some k => Some k
            | None =>
                match (if starts_chinese cleanLower then match_chinese cleanLower keys else None) with
                | Some k => Some k
                | None => match_base clean keys
                end
            end
        end
      else None
  end.

Inductive source := LocalStorage | Browser | Fallback.

Definition resolved_truthy (r : option jsstring) : option jsstring :=
  match r with Some s => if truthy s then Some s else None | None => None end.

(** The first preference of the browser that resolves. *)
Fixpoint first_resolved (resolve : jsstring → option jsstring) (tags : list jsstring) : option jsstring :=
  match tags with
  | [] => None
  | tag :: tags =>
      if truthy tag then
        match resolved_truthy (resolve tag) with
        | Some l => Some l
        | None => first_resolved resolve tags
        end
      else first_resolved resolve tags
  end.

(** [saved]: the stored language; [languages], [language]: those of the navigator, with
    [None] and the empty list for what is missing. *)
Definition detectLanguage (resolve : jsstring → option jsstring) (defaultLang : jsstring)
    (saved : option jsstring) (languages : list jsstring) (language : option jsstring) :
    jsstring * source :=
  let from_saved :=
    match resolved_truthy saved with
    | Some s => resolved_truthy (resolve s)
    | None => None
    end in
  match from_saved with
  | Some l => (l, LocalStorage)
  | None =>
      let browserLangs :=
        match languages with
        | [] => match language with Some l => [l] | None => [] end
        | _ => languages
        end in
      match first_resolved resolve browserLangs with
      | Some l => (l, Browser)
      | None => (defaultLang, Fallback)
      end
  end.

(** ** Messages *)

(** What a lookup yields: a text, or a member every object inherits. *)
Inductive tvalue := TStr (s : jsstring) | TInherited.

Global Instance tvalue_eq_dec : EqDecision tvalue.
Proof. solve_decision. Defined.

(** The replacement patterns of [String.prototype.replace]: [$$], [$&], [$`], [$'] (the
    expression has no group). *)
Fixpoint expand (v matched before after : jsstring) : jsstring :=
  match v with
  | "$"%char :: c :: r =>
      if ascii_eqb c "$" then "$"%char :: expand r matched before after
      else if ascii_eqb c "&" then matched ++ expand r matched before after
      else if ascii_eqb c "`" then before ++ expand r matched before after
      else if ascii_eqb c "'" then after ++ expand r matched before after
      else "$"%char :: c :: expand r matched before after
  | c :: r => c :: expand r matched before after
  | [] => []
  end.

(** [text.replace(/pat/g, v)] for a literal pattern; [skip] counts the characters of the
    last match still to pass, [before] is what precedes the position. *)
Fixpoint replace_scan (pat v before : jsstring) (skip : nat) (s : jsstring) : jsstring :=
  match s with
  | [] => []
  | c :: s' =>
      match skip with
      | S n => replace_scan pat v (before ++ [c]) n s'
      | O =>
          if startsWith s pat then
            expand v pat before (drop (length pat) s)
            ++ replace_scan pat v (before ++ [c]) (length pat - 1) s'
          else c :: replace_scan pat v (before ++ [c]) 0 s'
      end
  end.

Definition lbrace : ascii := "{".
Definition rbrace : ascii := "}".
Definition dollar : ascii := "$".

Definition placeholder (k : jsstring) : jsstring := lbrace :: k ++ [rbrace].

(** The keys are identifiers, which stand for themselves in a regular expression. *)
Definition interpolateMessage (text : tvalue) (params : list (jsstring * jsval)) : tvalue :=
  match text with
  | TInherited => TInherited
  | TStr s =>
      TStr (foldl (λ out p, replace_scan (placeholder p.1) (toString p.2) [] 0 out) s params)
  end.

Definition dictionary := list (jsstring * jsstring).

(** [dict[key]] where it is truthy. *)
Definition message_of (dict : dictionary) (key : jsstring) : option tvalue :=
  match get dict key with
  | Own s => if truthy s then Some (TStr s) else None
  | Inherited => Some TInherited
  | Missing => None
  end.

Definition translateKey (key : jsstring) (params : list (jsstring * jsval))
    (current fallback : dictionary) : tvalue :=
  let text :=
    match message_of current key with
    | Some v => v
    | None => match message_of fallback key with Some v => v | None => TStr key end
    end in
  interpolateMessage text params.

(** [active] of each language card, from its [data-lang]. *)
Definition syncLangCardsActive (cards : list (option jsstring)) (currentLang : jsstring) : list bool :=
  (λ k, match k with Some k => eqs k currentLang | None => false end) <$> cards.

(** ** Matching *)

Lemma has_key_true k keys : has_key k keys = true ↔ k ∈ keys.
Proof.
  unfold has_key. rewrite existsb_elem. setoid_rewrite eqs_true. naive_solver.
Qed.

Lemma match_chinese_elem tag keys k : match_chinese tag keys = Some k → k ∈ keys.
Proof.
  unfold match_chinese. intros H.
  repeat (case_match; bool_prop; simplify_eq; [by apply has_key_true|]).
  by apply find_elem in H as [? _].
Qed.

Lemma match_base_elem clean keys k : match_base clean keys = Some k → k ∈ keys.
Proof. unfold match_base. case_match; [|done]. by intros [? _]%find_elem. Qed.

Lemma matchLocaleKey_elem lang keys k : matchLocaleKey lang keys = Some k → k ∈ keys.
Proof.
  destruct lang as [lang|]; [|done]. unfold matchLocaleKey. cbv zeta.
  case_match; [|done]. destruct keys as [|k0 ks]; [done|]. generalize (k0 :: ks) as keys'. clear.
  intros keys. destruct (List.find _ keys) as [k1|] eqn:E1.
  - intros [= <-]. by apply find_elem in E1 as [? _].
  - case_match.
    + intros [= <-]. case_match; [|done]. by eapply match_chinese_elem.
    + apply match_base_elem.
Qed.

(** A tag that is a key up to case and surrounding space matches a key of that spelling. *)
Lemma matchLocaleKey_exact lang keys k :
  k ∈ keys → k ≠ [] → toLowerCase (trim lang) = toLowerCase k →
  ∃ k', matchLocaleKey (Some lang) keys = Some k' ∧ k' ∈ keys ∧ toLowerCase k' = toLowerCase k.
Proof.
  intros Hk Hne Heq. unfold matchLocaleKey. cbv zeta.
  assert (truthy (trim lang) = true) as ->.
  { apply truthy_true. intros H. rewrite H in Heq. apply Hne.
    apply length_zero_iff_nil. rewrite <- (length_toLowerCase k), <- Heq. done. }
  destruct keys as [|k0 ks]; [by apply elem_of_nil in Hk|].
  revert Hk. generalize (k0 :: ks) as keys'. intros keys' Hk.
  destruct (List.find (λ k, eqs (toLowerCase k) (toLowerCase (trim lang))) keys') as [k1|] eqn:E1.
  - apply find_elem in E1 as [? E1]. apply eqs_true in E1. exists k1.
    split_and!; [done|done|]. by rewrite E1.
  - rewrite find_none_all in E1. specialize (E1 k Hk). rewrite Heq, eqs_refl in E1. done.
Qed.

(** A Chinese tag matches a Chinese key as soon as there is one. *)
Lemma match_chinese_spec tag keys :
  (∃ k, k ∈ keys ∧ startsWith (toLowerCase k) "zh" = true) →
  ∃ k, match_chinese tag keys = Some k ∧ starts_chinese (toLowerCase k) = true.
Proof.
  intros (k & Hk & Hz). unfold match_chinese. repeat (case_match; [by eexists|]).
  destruct (List.find _ keys) as [k'|] eqn:E.
  - apply find_elem in E as [_ E]. exists k'. unfold starts_chinese. by rewrite E.
  - rewrite find_none_all in E. specialize (E k Hk). congruence.
Qed.

Lemma matchLocaleKey_chinese lang keys :
  starts_chinese (toLowerCase (trim lang)) = true →
  (∃ k, k ∈ keys ∧ startsWith (toLowerCase k) "zh" = true) →
  ∃ k, matchLocaleKey (Some lang) keys = Some k ∧ starts_chinese (toLowerCase k) = true.
Proof.
  intros Hz Hkeys. unfold matchLocaleKey. cbv zeta.
  destruct (trim lang) as [|x r] eqn:Et; [done|]. cbn [truthy].
  destruct keys as [|k0 ks]; [destruct Hkeys as (k & Hk & _); by apply elem_of_nil in Hk|].
  revert Hkeys. generalize (k0 :: ks). intros keys Hkeys.
  destruct (List.find _ keys) as [k|] eqn:E.
  - apply find_elem in E as [_ E]. apply eqs_true in E. exists k. by rewrite E.
  - rewrite Hz. destruct (match_chinese_spec (toLowerCase (x :: r)) keys Hkeys) as (k & -> & Hk).
    by exists k.
Qed.

(** ** Templates *)

(** A message with its placeholders apart. *)
Inductive piece := Lit (s : jsstring) | Hole (k : jsstring).

Definition render_piece (p : piece) : jsstring :=
  match p with Lit s => s | Hole k => placeholder k end.
Definition render (ps : list piece) : jsstring := mjoin (render_piece <$> ps).

Definition brace_free (s : jsstring) : Prop := (lbrace ∉ s) ∧ (rbrace ∉ s).

Definition piece_ok (p : piece) : Prop :=
  match p with Lit s => lbrace ∉ s | Hole k => brace_free k end.

Definition fill (params : list (jsstring * jsval)) (p : piece) : piece :=
  match p with
  | Hole k => match assoc params k with Some v => Lit (toString v) | None => Hole k end
  | Lit _ => p
  end.

Definition plain_value (v : jsval) : Prop := (lbrace ∉ toString v) ∧ (dollar ∉ toString v).

Lemma expand_plain v m b a : dollar ∉ v → expand v m b a = v.
Proof.
  induction v as [|c v IH]; [done|]. rewrite not_elem_of_cons. intros [Hc Hv].
  simpl. rewrite IH by done.
  destruct c as [[] [] [] [] [] [] [] []]; try reflexivity. by destruct Hc.
Qed.

Lemma replace_scan_skip pat v b n s :
  replace_scan pat v b n s = replace_scan pat v (b ++ take n s) 0 (drop n s).
Proof.
  revert b n. induction s as [|c s IH]; intros b n; [by destruct n|].
  destruct n as [|n]; [by rewrite app_nil_r|].
  cbn [replace_scan take drop]. rewrite IH. by rewrite <- app_assoc.
Qed.

Lemma replace_scan_miss pat v b c s :
  startsWith (c :: s) pat = false →
  replace_scan pat v b 0 (c :: s) = c :: replace_scan pat v (b ++ [c]) 0 s.
Proof. intros H. cbn [replace_scan]. by rewrite H. Qed.

Lemma replace_scan_hit c p v b s :
  replace_scan (c :: p) v b 0 ((c :: p) ++ s) =
  expand v (c :: p) b s ++ replace_scan (c :: p) v (b ++ c :: p) 0 s.
Proof.
  pose proof (startsWith_app (c :: p) s) as Hs. cbn [app] in Hs |- *. cbn [replace_scan].
  rewrite Hs. cbn [length drop]. rewrite drop_app_length, replace_scan_skip.
  replace (S (length p) - 1) with (length p) by lia.
  by rewrite take_app_length, drop_app_length, <- app_assoc.
Qed.

Lemma replace_scan_lit k v b l s :
  lbrace ∉ l →
  replace_scan (placeholder k) v b 0 (l ++ s) = l ++ replace_scan (placeholder k) v (b ++ l) 0 s.
Proof.
  revert b. induction l as [|c l IH]; intros b; [by rewrite app_nil_r|].
  rewrite not_elem_of_cons. intros [Hc Hl]. cbn [app replace_scan].
  assert (startsWith (c :: l ++ s) (placeholder k) = false) as ->.
  { apply not_true_iff_false. intros [r Hr]%startsWith_spec. by injection Hr as -> _. }
  rewrite IH by done. by rewrite <- app_assoc.
Qed.

Lemma brace_split k k' s r :
  rbrace ∉ k → rbrace ∉ k' → k ++ rbrace :: s = k' ++ rbrace :: r → k = k'.
Proof.
  revert k'. induction k as [|c k IH]; intros [|c' k'] H1 H2 H; try done.
  - injection H as Hc _. destruct H2. rewrite <- Hc. by left.
  - injection H as Hc _. destruct H1. rewrite Hc. by left.
  - injection H as -> H. rewrite not_elem_of_cons in H1. rewrite not_elem_of_cons in H2.
    f_equal. apply IH; [apply H1 | apply H2 | done].
Qed.

Lemma placeholder_cons k s : placeholder k ++ s = lbrace :: (k ++ [rbrace]) ++ s.
Proof. done. Qed.

Lemma replace_scan_other k k' v b s :
  k ≠ k' → brace_free k → brace_free k' →
  replace_scan (placeholder k) v b 0 (placeholder k' ++ s) =
  placeholder k' ++ replace_scan (placeholder k) v (b ++ placeholder k') 0 s.
Proof.
  intros Hne [_ H1] [H2 H3]. rewrite !(placeholder_cons k').
  rewrite replace_scan_miss.
  - rewrite replace_scan_lit; [|by rewrite elem_of_app, list_elem_of_singleton; intros [?|?]].
    by rewrite <- (app_assoc b).
  - apply not_true_iff_false. intros [r Hr]%startsWith_spec. rewrite placeholder_cons in Hr.
    rewrite <- !app_assoc in Hr. injection Hr as Hr.
    apply Hne. symmetry. by eapply brace_split.
Qed.

Lemma replace_scan_same k v b s :
  replace_scan (placeholder k) v b 0 (placeholder k ++ s) =
  expand v (placeholder k) b s ++ replace_scan (placeholder k) v (b ++ placeholder k) 0 s.
Proof. apply replace_scan_hit. Qed.

(** One parameter substituted in a template. *)
Definition fill1 (k v : jsstring) (p : piece) : piece :=
  match p with Hole k' => if eqs k' k then Lit v else p | Lit _ => p end.

Lemma replace_scan_render k v b ps :
  brace_free k → dollar ∉ v → Forall piece_ok ps →
  replace_scan (placeholder k) v b 0 (render ps) = render (fill1 k v <$> ps).
Proof.
  intros Hk Hv Hps. revert b. unfold render.
  induction Hps as [|p ps Hp _ IH]; intros b; [done|]. csimpl.
  destruct p as [l|k']; cbn [render_piece fill1].
  - rewrite replace_scan_lit by done. by rewrite IH.
  - destruct (eqs k' k) eqn:E.
    + apply eqs_true in E as ->. rewrite replace_scan_same, expand_plain by done. by rewrite IH.
    + rewrite replace_scan_other; [by rewrite IH | | done..].
      intros ->. by rewrite eqs_refl in E.
Qed.

Lemma fill1_ok k v ps : lbrace ∉ v → Forall piece_ok ps → Forall piece_ok (fill1 k v <$> ps).
Proof.
  intros Hv Hps. apply Forall_fmap. eapply Forall_impl; [exact Hps|].
  intros [l|k'] H; simpl; [done|]. by destruct (eqs k' k).
Qed.

Lemma fill_fill1 k v params p : fill params (fill1 k (toString v) p) = fill ((k, v) :: params) p.
Proof.
  destruct p as [l|k']; simpl; [done|]. destruct (eqs k' k) eqn:E; simpl.
  - apply eqs_true in E as ->. by rewrite eqs_refl.
  - destruct (eqs k k') eqn:E'; [|done]. apply eqs_true in E' as ->. by rewrite eqs_refl in E.
Qed.

(** Interpolating a message fills its placeholders simultaneously. A message is a sequence of
    literal pieces and [{name}] placeholders; when the parameter names have no braces and the printed
    values contain neither an opening brace nor a dollar sign, replacing the parameters one after the
    other yields the message with every placeholder that has a parameter replaced by its
    value, whatever the order of the others, and every other piece kept. *)
Theorem interpolateMessage_fills ps params :
  Forall piece_ok ps → Forall (λ p, brace_free p.1 ∧ plain_value p.2) params →
  interpolateMessage (TStr (render ps)) params = TStr (render (fill params <$> ps)).
Proof.
  intros Hps Hpar. unfold interpolateMessage. f_equal. revert ps Hps.
  induction Hpar as [|[k v] params [Hk [Hv1 Hv2]] _ IH]; intros ps Hps.
  - cbn [foldl]. f_equal. rewrite <- (list_fmap_id ps) at 1. apply list_fmap_ext.
    by intros _ [] _.
  - cbn [foldl fst snd] in *. rewrite replace_scan_render by done.
    rewrite IH by (by apply fill1_ok). f_equal. rewrite <- list_fmap_compose.
    apply list_fmap_ext. intros _ p _. apply fill_fill1.
Qed.

Lemma interpolateMessage_fills_witness :
  interpolateMessage (TStr "{a}-{b}") [(js "b", JNum (Int 7)); (js "a", JStr "x}")] = TStr "x}-7".
Proof.
  apply (interpolateMessage_fills [Hole "a"; Lit "-"; Hole "b"]
           [(js "b", JNum (Int 7)); (js "a", JStr "x}")]).
  - repeat (constructor; [vm_compute; set_solver|]). constructor.
  - repeat (constructor; [vm_compute; set_solver|]). constructor.
Defined.

Lemma interpolateMessage_total v params :
  v ≠ TInherited → interpolateMessage v params ≠ TInherited.
Proof. by destruct v. Qed.

(** Without parameters the message is unchanged. *)
Lemma interpolateMessage_nil v : interpolateMessage v [] = v.
Proof. by destruct v. Qed.

Lemma message_of_elem dict key s :
  message_of dict key = Some (TStr s) → (key, s) ∈ dict ∧ s ≠ [].
Proof.
  unfold message_of. destruct (get dict key) eqn:E; [|done..]. case_match eqn:Ht; [|done].
  intros [= ->]. apply get_Own in E. apply truthy_true in Ht. done.
Qed.
