(* ===== verification/I18n.v ===== *)
(** * The interface's languages and error messages

    [internal/service/frontend/renop-html/js/i18n.js]: the aliases of the languages, the
    active language and its switch while catalogs load, the queue of subtrees to
    translate, and the translation of the errors the server reports. *)

From S2P Require Import Prelude JsText JsValue I18nUtil.

Definition pair (k v : string) : jsstring * jsstring := (js k, js v).

Definition STORAGE_KEY : jsstring := "renop_language".
Definition DEFAULT_LANG : jsstring := "en-US".

Definition languageAliases : list (jsstring * jsstring) :=
  [ pair "en-US" "en-US";
    pair "en" "en-US";
    pair "zh-CN" "zh-CN";
    pair "zh-cn" "zh-CN";
    pair "zh-Hans" "zh-CN";
    pair "zh-hans" "zh-CN";
    pair "zh" "zh-CN";
    pair "zh-HK" "zh-HK";
    pair "zh-hk" "zh-HK";
    pair "zh-Hant-HK" "zh-HK";
    pair "zh-hant-hk" "zh-HK";
    pair "zh-TW" "zh-TW";
    pair "zh-tw" "zh-TW";
    pair "zh-Hant" "zh-TW";
    pair "zh-hant" "zh-TW";
    pair "zh-Hant-TW" "zh-TW";
    pair "zh-hant-tw" "zh-TW";
    pair "zh-YUE" "zh-YUE";
    pair "zh-yue" "zh-YUE";
    pair "yue" "zh-YUE";
    pair "yue-HK" "zh-YUE";
    pair "yue-hk" "zh-YUE";
    pair "zh-Hant-HK-yue" "zh-YUE";
    pair "ko-KR" "ko-KR";
    pair "ko-kr" "ko-KR";
    pair "ko" "ko-KR";
    pair "ja-JP" "ja-JP";
    pair "ja" "ja-JP";
    pair "de-DE" "de-DE";
    pair "de" "de-DE";
    pair "fr-FR" "fr-FR";
    pair "fr" "fr-FR";
    pair "ru-RU" "ru-RU";
    pair "ru-ru" "ru-RU";
    pair "ru" "ru-RU";
    pair "es-ES" "es-ES";
    pair "es-es" "es-ES";
    pair "es" "es-ES";
    pair "pt-PT" "pt-PT";
    pair "pt-pt" "pt-PT";
    pair "pt-BR" "pt-PT";
    pair "pt-br" "pt-PT";
    pair "pt" "pt-PT" ].

Definition getAvailableLanguages : list jsstring :=
  js <$> ["zh-CN"; "zh-HK"; "zh-TW"; "zh-YUE"; "ko-KR"; "en-US"; "ja-JP"; "de-DE"; "fr-FR";
          "ru-RU"; "es-ES"; "pt-PT"]%stdpp.

Definition ERROR_KEY_MAP : list (jsstring * jsstring) :=
  [ pair "A user may register at most 10 GPG keys" "profile.gpgKeyLimit";
    pair "An error occurred during FIDO login" "error.fidoLoginError";
    pair "An error occurred during login" "login.loginError";
    pair "An unexpected error occurred while attempting to encode a Protobuf message" "error.internalServerError";
    pair "Authentication failed" "login.loginError";
    pair "Artifact or directory was deleted before publication" "profile.gpgFailure.deletedBeforePublication";
    pair "Artifact redeployment is not allowed" "profile.gpgFailure.redeploymentDenied";
    pair "Detached GPG signature was not uploaded before the publication deadline" "profile.gpgFailure.signatureDeadline";
    pair "Failed to register GPG key" "profile.gpgAddFailed";
    pair "GPG key could not be resolved by configured key servers" "profile.gpgResolveFailed";
    pair "GPG key ID is ambiguous; use the full fingerprint" "profile.gpgAmbiguousKey";
    pair "GPG key server URLs must contain only an HTTPS origin" "settings.gpgOriginOnly";
    pair "GPG key server URLs must use HTTPS" "settings.gpgHttpsOnly";
    pair "GPG validation timed out" "profile.gpgFailure.validationTimedOut";
    pair "Invalid GPG key ID or fingerprint" "profile.gpgInvalidKey";
    pair "Invalid profile links" "profile.linksInvalid";
    pair "Maven artifact was not uploaded before the publication deadline" "profile.gpgFailure.artifactDeadline";
    pair "Publication failed during GPG validation or storage commit" "profile.gpgFailure.generic";
    pair "Failed to update profile links" "profile.linksUpdateFailed";
    pair "Repository was deleted before publication" "profile.gpgFailure.repositoryDeleted";
    pair "The detached GPG signature is invalid" "profile.gpgFailure.invalidSignature";
    pair "The quarantined artifact or signature is no longer available" "profile.gpgFailure.quarantineMissing";
    pair "The signing key is not registered for the uploader" "profile.gpgFailure.keyUnregistered";
    pair "The target repository no longer exists" "profile.gpgFailure.repositoryMissing";
    pair "Uploader account was deleted" "profile.gpgFailure.uploaderDeleted";
    pair "at least one GPG key server is required" "settings.gpgAtLeastOne";
    pair "at most 8 GPG key servers are allowed" "settings.gpgAtMostEight";
    pair "at most 16 global proxies are allowed" "settings.proxyAtMostSixteen";
    pair "global proxy configuration is too long" "settings.proxyInvalidConfig";
    pair "global proxy credentials must use the username and password fields" "settings.proxyInvalidUrl";
    pair "global proxy name is invalid" "settings.proxyInvalidConfig";
    pair "global proxy name is required" "settings.proxyNameRequired";
    pair "global proxy names must be unique" "settings.proxyNamesUnique";
    pair "global proxy URL is invalid" "settings.proxyInvalidUrl";
    pair "global proxy URL must not contain a path, query, or fragment" "settings.proxyInvalidUrl";
    pair "global proxy URL must use http, https, or socks5" "settings.proxyInvalidUrl";
    pair "invalid GPG key server URL" "settings.gpgInvalidServer";
    pair "selected global proxy does not exist" "settings.proxySelectedMissing";
    pair "SOCKS5 global proxy URL must include a port" "settings.proxyInvalidUrl";
    pair "storage path cannot be changed while GPG publications are pending" "settings.gpgPendingStorageChange";
    pair "Background image exceeds 5 MiB" "error.bgExceedsSize";
    pair "Background URL must be a valid WebP image" "error.bgMustBeWebp";
    pair "Bad path" "error.badPath";
    pair "Bad request" "error.badRequest";
    pair "Bad Request" "error.badRequest";
    pair "Cancel" "confirm.cancelBtn";
    pair "Cannot delete current account" "error.cannotDeleteCurrentAccount";
    pair "Click to copy" "prompt.clickToCopy";
    pair "Close mirrors" "details.closeMirrors";
    pair "Close modal" "modal.close";
    pair "Confirm" "confirm.confirmBtn";
    pair "Confirm Action" "confirm.title";
    pair "Conflict" "error.conflict";
    pair "Copied to clipboard!" "prompt.copied";
    pair "Could not resolve host" "error.couldNotResolveHost";
    pair "Database DSN must not be empty" "error.dbDsnEmpty";
    pair "Debug mode is not active (enable server.debug_mode and restart)" "error.debugModeInactive";
    pair "Error" "common.error";
    pair "Error generating token" "profile.genTokenError";
    pair "Error loading FIDO devices" "error.fidoLoadFailed";
    pair "Error updating password" "profile.updatePasswordError";
    pair "Executable binary does not match current system or architecture" "error.incompatibleBinary";
    pair "Failed to access background URL or returned non-success status" "error.failedAccessBackgroundUrl";
    pair "Failed to begin FIDO login" "error.fidoBeginLoginFailed";
    pair "Failed to begin registration" "error.fidoBeginRegFailed";
    pair "Failed to create session" "error.failedCreateSession";
    pair "Failed to delete FIDO device" "error.fidoDeleteFailed";
    pair "Failed to delete file." "browser.failedDelete";
    pair "Failed to delete repository" "repos.failedDelete";
    pair "Failed to delete token" "users.failedDeleteToken";
    pair "Failed to generate token" "profile.genTokenFailed";
    pair "Failed to load policy." "privacy.failedLoad";
    pair "Failed to parse assertion response" "error.fidoParseAssertionFailed";
    pair "Failed to parse creation response" "error.fidoParseCreationFailed";
    pair "Failed to read chunk" "error.readChunk";
    pair "Failed to revoke session" "sessions.revokeFailed";
    pair "Failed to revoke sessions" "sessions.revokeOthersFailed";
    pair "Failed to save FIDO device" "error.failedSaveFidoDevice";
    pair "Failed to save token" "error.failedSaveToken";
    pair "Failed to save user" "users.failedSaveUser";
    pair "Failed to update FIDO device" "error.failedUpdateFidoDevice";
    pair "Failed to update password" "profile.updatePasswordFailed";
    pair "Failed to update token" "error.failedUpdateToken";
    pair "FIDO authentication failed" "error.fidoAuthFailed";
    pair "FIDO credential not found" "error.fidoCredNotFound";
    pair "File not found on S3" "error.notFound";
    pair "Forbidden" "error.forbidden";
    pair "Input Required" "prompt.title";
    pair "Installation already in progress" "error.installInProgress";
    pair "Insufficient disk space" "error.insufficientStorage";
    pair "Insufficient disk space to download update package" "updater.insufficientDiskSpace";
    pair "Insufficient disk space to generate POM" "error.insufficientStorage";
    pair "Insufficient disk space to upload file" "error.insufficientStorage";
    pair "Insufficient disk space to upload update package" "updater.insufficientDiskSpace";
    pair "Insufficient storage" "error.insufficientStorage";
    pair "Internal Server Error" "error.internalServerError";
    pair "Invalid channel" "error.invalidChannel";
    pair "Invalid credential payload" "error.invalidCredentialPayload";
    pair "Invalid credentials" "login.invalidCreds";
    pair "Invalid database driver" "error.invalidDbDriver";
    pair "Invalid domain" "error.invalidDomain";
    pair "Invalid domain." "error.invalidDomain";
    pair "Invalid FIDO credential" "error.invalidFidoCred";
    pair "Invalid mode" "error.invalidMode";
    pair "Invalid mode. Expected 'full' or 'diff'" "error.invalidRebuildMode";
    pair "Invalid or expired login session" "error.invalidOrExpiredLoginSession";
    pair "Invalid or expired session" "error.invalidOrExpiredSession";
    pair "Invalid repository name" "error.invalidRepoName";
    pair "Invalid S3 key prefix" "error.invalidS3KeyPrefix";
    pair "Invalid URL" "error.invalidUrl";
    pair "Invalid URL host" "error.invalidUrlHost";
    pair "Invalid visibility. Expected PUBLIC, HIDDEN, or PRIVATE" "error.invalidVisibility";
    pair "Is a dir" "error.isDirectory";
    pair "Javadocs preview is not enabled on this RenoP instance." "error.javadocsPreviewDisabled";
    pair "Max active requests must be positive" "error.maxActiveRequestsPositive";
    pair "Max Javadocs size limit must be positive" "error.maxJavadocSizePositive";
    pair "Method not allowed" "error.methodNotAllowed";
    pair "No update package file uploaded" "error.noUpdatePackageUploaded";
    pair "No update ready to install" "error.noUpdateReady";
    pair "Not found" "error.notFound";
    pair "Not Found" "error.notFound";
    pair "OK" "common.ok";
    pair "Password must be between 6 and 72 bytes" "error.passwordLength";
    pair "Port must be between 1 and 65535" "error.invalidPort";
    pair "profile not found" "error.notFound";
    pair "Registration failed" "error.fidoRegFailed";
    pair "Repository not found" "error.notFound";
    pair "Request Entity Too Large" "error.requestEntityTooLarge";
    pair "Service Unavailable" "error.serviceUnavailable";
    pair "Session not found" "error.sessionNotFound";
    pair "Storage path must not be empty" "error.storagePathEmpty";
    pair "Target executable not found in update package" "error.targetExeNotFound";
    pair "Task submission failed" "error.taskFailed";
    pair "This is an invalid domain" "error.invalidDomain";
    pair "This is an invalid domain." "error.invalidDomain";
    pair "Token name already exists" "error.tokenExists";
    pair "Too Many Requests" "error.tooManyRequests";
    pair "Unauthorized" "error.unauthorized";
    pair "Uploaded file must be a .zip package" "error.mustBeZipPackage";
    pair "Uploaded file must be a .br or .zip package" "error.mustBeZipPackage";
    pair "URL must be http or https" "error.urlMustBeHttpOrHttps";
    pair "URL must not contain credentials" "error.urlNoCredentials";
    pair "URL points to an internal or private IP" "error.urlInternalIp";
    pair "Users cannot clear their own activity logs" "error.cannotClearOwnAuditLogs";
    pair "WebAuthn initialization failed" "error.webauthnInitFailed" ].

(** [languageAliases[matched]] of a matched key, which is one of the object's own. *)
Definition resolveLanguage (lang : option jsstring) : option jsstring :=
  match matchLocaleKey lang languageAliases.*1 with
  | Some matched => if truthy matched then assoc languageAliases matched else None
  | None => None
  end.

Definition detect (saved : option jsstring) (languages : list jsstring) (language : option jsstring) :
    jsstring * source :=
  detectLanguage (λ raw, resolveLanguage (Some raw)) DEFAULT_LANG saved languages language.

(** ** The active language *)

(** A call of [setLanguage] that waits for its catalog. *)
Record call := {
  requestID : nat; resolved : jsstring; call_source : jsstring;
  cached : bool   (* the catalog was loaded when the call was made *)
}.

Record i18n := {
  languages : list (jsstring * dictionary);
  currentLang : jsstring; currentSource : jsstring;
  languageRequestID : nat; loading : bool; stored : option jsstring;
  calls : list call
}.

Definition loaded (lang : jsstring) (s : i18n) : bool :=
  bool_decide (is_Some (assoc (languages s) lang)).

(** [languages[lang] || {}] *)
Definition catalog (lang : jsstring) (s : i18n) : dictionary := default [] (assoc (languages s) lang).

Definition t (s : i18n) (key : jsstring) (params : list (jsstring * jsval)) : tvalue :=
  translateKey key params (catalog (currentLang s) s) (catalog DEFAULT_LANG s).

(** [setLanguage] up to the [await] of [ensureLanguage]. *)
Definition setLanguage_begin (lang : option jsstring) (source : jsstring) (s : i18n) : i18n :=
  let id := S (languageRequestID s) in
  let '(resolved, source) :=
    match resolveLanguage lang with
    | Some l => (l, source)
    | None => (DEFAULT_LANG, js "fallback")
    end in
  {| languages := languages s; currentLang := currentLang s; currentSource := currentSource s;
     languageRequestID := id; loading := true; stored := stored s;
     calls := calls s ++ [{| requestID := id; resolved := resolved; call_source := source;
                             cached := loaded resolved s |}] |}.

(** The effect of [await ensureLanguage(resolved)]: [None] when the catalog failed to load. *)
Definition ensureLanguage (c : call) (answer : option dictionary) (s : i18n) :
    list (jsstring * dictionary) * bool :=
  if cached c then (languages s, true)
  else match answer with
       | Some d => (set_key (languages s) (resolved c) d, true)
       | None => (languages s, false)
       end.

(** The language and the source a call ends with. *)
Definition call_target (c : call) (ok : bool) : jsstring * jsstring :=
  if ok then (resolved c, call_source c) else (DEFAULT_LANG, js "fallback").

(** [setLanguage] after the [await]; [aborted] is [signal?.aborted]. *)
Definition setLanguage_end (c : call) (answer : option dictionary) (aborted : bool) (s : i18n) : i18n :=
  let '(langs, ok) := ensureLanguage c answer s in
  let '(lang, source) := call_target c ok in
  let rest := List.filter (λ c', negb (requestID c' =? requestID c)) (calls s) in
  let latest := requestID c =? languageRequestID s in
  if negb latest || aborted then
    {| languages := langs; currentLang := currentLang s; currentSource := currentSource s;
       languageRequestID := languageRequestID s;
       loading := if latest then false else loading s; stored := stored s; calls := rest |}
  else
    {| languages := langs; currentLang := lang; currentSource := source;
       languageRequestID := languageRequestID s; loading := false; stored := Some lang;
       calls := rest |}.

Inductive event :=
  | SetLanguage (lang : option jsstring) (source : jsstring)
  | Settled (id : nat) (answer : option dictionary) (aborted : bool).

Definition find_call (id : nat) (s : i18n) : option call :=
  List.find (λ c, requestID c =? id) (calls s).

Definition exec (e : event) (s : i18n) : option i18n :=
  match e with
  | SetLanguage lang source => Some (setLanguage_begin lang source s)
  | Settled id answer aborted =>
      match find_call id s with
      | Some c => Some (setLanguage_end c answer aborted s)
      | None => None
      end
  end.

Fixpoint exec_all (es : list event) (s : i18n) : option i18n :=
  match es with
  | [] => Some s
  | e :: es => match exec e s with Some s' => exec_all es s' | None => None end
  end.

(** The module's state before [initI18n]. *)
Definition module_state (defaultLocale : dictionary) : i18n :=
  {| languages := [(DEFAULT_LANG, defaultLocale)]; currentLang := DEFAULT_LANG;
     currentSource := "default"; languageRequestID := 0; loading := false; stored := None;
     calls := [] |}.

Definition source_name (s : source) : jsstring :=
  match s with LocalStorage => "localStorage" | Browser => "browser" | Fallback => "fallback" end.

(** [initI18n] up to its handlers; [answer] is what loading the detected catalog gives. *)
Definition initI18n (defaultLocale : dictionary) (saved : option jsstring)
    (browser : list jsstring) (language : option jsstring) (answer : option dictionary) : i18n :=
  let '(lang, src) := detect saved browser language in
  let s := module_state defaultLocale in
  let '(langs, lang, src) :=
    if loaded lang s then (languages s, lang, source_name src)
    else match answer with
         | Some d => (set_key (languages s) lang d, lang, source_name src)
         | None => (languages s, DEFAULT_LANG, js "fallback")
         end in
  {| languages := langs; currentLang := lang; currentSource := src; languageRequestID := 0;
     loading := false; stored := saved; calls := [] |}.

(** ** Translating the page *)

(** A bound element: for each of [data-i18n], [data-i18n-placeholder], [data-i18n-title] and
    [data-i18n-aria-label], the key it carries and the present value of its target. *)
Definition element := list (option jsstring * tvalue).

Definition translate_binding (s : i18n) (b : option jsstring * tvalue) : option jsstring * tvalue :=
  match b with
  | (Some key, value) =>
      if truthy key then
        let translation := t s key [] in
        if bool_decide (translation = TStr key) then b
        else if bool_decide (value = translation) then b else (Some key, translation)
      else b
  | (None, _) => b
  end.

Definition translateBoundElement (s : i18n) (e : element) : element := translate_binding s <$> e.

Section translation_queue.
Context {Node : Type} `{EqDecision Node}.
(** [root.contains(node)] *)
Variable contains : Node → Node → bool.

Record queue := { pendingTranslationRoots : list Node; translationFlushScheduled : bool }.

(** The loop over the pending roots; [true] is its early return. *)
Fixpoint queue_loop (node : Node) (roots pending : list Node) : bool * list Node :=
  match roots with
  | [] => (false, pending)
  | root :: roots =>
      if contains root node then (true, pending)
      else queue_loop node roots
             (if contains node root then List.filter (λ r, negb (bool_decide (r = root))) pending
              else pending)
  end.

(** [None] is a node that is not an element. *)
Definition queueTranslationRoot (node : option Node) (q : queue) : queue :=
  match node with
  | None => q
  | Some node =>
      match queue_loop node (pendingTranslationRoots q) (pendingTranslationRoots q) with
      | (true, pending) =>
          {| pendingTranslationRoots := pending;
             translationFlushScheduled := translationFlushScheduled q |}
      | (false, pending) =>
          {| pendingTranslationRoots := pending ++ [node]; translationFlushScheduled := true |}
      end
  end.

Inductive mutation := Attributes (target : option Node) | ChildList (added : list (option Node)).

(** The callback of the mutation observer. *)
Definition observe (records : list mutation) (q : queue) : queue :=
  foldl (λ q r,
    match r with
    | Attributes target => queueTranslationRoot target q
    | ChildList added => foldl (λ q n, queueTranslationRoot n q) q added
    end) q records.

(** The microtask: the roots to translate, and the queue after. *)
Definition flush (q : queue) : list Node * queue :=
  (pendingTranslationRoots q, {| pendingTranslationRoots := []; translationFlushScheduled := false |}).
End translation_queue.

(** ** Errors of the server *)

Section server_errors.
(** [JSON.parse]; [None] is a [SyntaxError]. *)
Variable JSON_parse : jsstring → option jsval.
Variable s : i18n.

Definition non_empty_string (v : jsval) : option jsstring :=
  match v with JStr e => if truthy e then Some e else None | _ => None end.

(** The message of a JSON payload, or the text itself; [None] where the code throws. *)
Definition payload_message (text : jsstring) : option jsstring :=
  match JSON_parse text with
  | None => None
  | Some parsed =>
      match field parsed "error" with
      | None => None
      | Some error =>
          match non_empty_string error with
          | Some e => Some (trim e)
          | None =>
              match field parsed "message" with
              | None => None
              | Some m => match non_empty_string m with Some m => Some (trim m) | None => Some text end
              end
          end
      end
  end.

Definition looks_json (text : jsstring) : bool := startsWith text "{" && endsWith text "}".

Definition is_end_mark (c : ascii) : bool := ascii_eqb c "." || ascii_eqb c ":".

(** [text.replace(/[\.:]+$/, '').trim()] *)
Definition strip_marks (text : jsstring) : jsstring :=
  trim (reverse (dropWhile is_end_mark (reverse text))).

(** [ERROR_KEY_MAP[text]] where it is truthy: its translation. *)
Definition mapped (text : jsstring) : option tvalue :=
  match get ERROR_KEY_MAP text with
  | Own key => if truthy key then Some (t s key []) else None
  | Inherited => Some TInherited
  | Missing => None
  end.

Definition direct (text : jsstring) : option tvalue :=
  let d := t s text [] in if bool_decide (d = TStr text) then None else Some d.

Fixpoint first_known (candidates : list jsstring) : tvalue :=
  match candidates with
  | [] => TStr []
  | c :: cs =>
      match mapped c with
      | Some v => v
      | None => match direct c with Some v => v | None => first_known cs end
      end
  end.

(** [errorText]: [None] when it is not a string. *)
Definition translateKnownError (errorText : option jsstring) : tvalue :=
  match errorText with
  | None => TStr []
  | Some text =>
      if truthy text then
        let text := trim text in
        match (if looks_json text then payload_message text else Some text) with
        | None => TStr []
        | Some normalized =>
            let stripped := strip_marks normalized in
            first_known (if eqs normalized stripped then [normalized] else [normalized; stripped])
        end
      else TStr []
  end.

Definition tryTranslateSingle (str : jsstring) : tvalue :=
  if truthy str then
    let clean := trim str in
    match mapped clean with
    | Some v => v
    | None =>
        let stripped := strip_marks clean in
        match mapped stripped with
        | Some v => v
        | None =>
            match direct clean with
            | Some v => v
            | None => match direct stripped with Some v => v | None => TStr clean end
            end
        end
    end
  else TStr str.

(** A template literal of two values; it shows an inherited member as some text. *)
Definition prefix_rest (p r : tvalue) : tvalue :=
  match p, r with TStr p, TStr r => TStr (p ++ js ": " ++ r) | _, _ => TInherited end.

Definition translateError (errorText : jsstring) : tvalue :=
  if truthy errorText then
    let trimmed := trim errorText in
    let trimmed :=
      if looks_json trimmed then default trimmed (payload_message trimmed) else trimmed in
    let directRes := tryTranslateSingle trimmed in
    if bool_decide (directRes ≠ TStr trimmed) && bool_decide (directRes ≠ TStr (strip_marks trimmed))
    then directRes
    else
      match indexOf trimmed ": " with
      | Some i =>
          let prefix := trim (take i trimmed) in
          let rest := trim (drop (i + 2) trimmed) in
          let p := tryTranslateSingle prefix in
          let r := tryTranslateSingle rest in
          if bool_decide (p ≠ TStr prefix) || bool_decide (r ≠ TStr rest) then prefix_rest p r
          else directRes
      | None => directRes
      end
  else TStr errorText.
End server_errors.

(** ** Resolved languages *)

Lemma aliases_canonical : Forall (λ p, p.2 ∈ getAvailableLanguages) languageAliases.
Proof. apply (bool_decide_unpack _). vm_compute. exact I. Qed.

Lemma aliases_nonempty : Forall (λ k, k ≠ []) languageAliases.*1.
Proof. apply (bool_decide_unpack _). vm_compute. exact I. Qed.

(** Two spellings of an alias that differ in case stand for the same language. *)
Lemma aliases_consistent :
  Forall (λ p, Forall (λ q, toLowerCase p.1 = toLowerCase q.1 → p.2 = q.2) languageAliases) languageAliases.
Proof.
  assert (H : forallb (λ p, forallb (λ q, negb (eqs (toLowerCase p.1) (toLowerCase q.1)) || eqs p.2 q.2)
                       languageAliases) languageAliases = true) by (vm_compute; reflexivity).
  apply Forall_forall. intros p Hp. apply Forall_forall. intros q Hq Hpq.
  rewrite forallb_elem in H. specialize (H p Hp). rewrite forallb_elem in H. specialize (H q Hq).
  rewrite Hpq, eqs_refl in H. by apply eqs_true in H.
Qed.

Lemma aliases_assoc k : k ∈ languageAliases.*1 → ∃ l, assoc languageAliases k = Some l.
Proof.
  intros Hk. destruct (assoc languageAliases k) eqn:E; [eauto|]. by apply assoc_None in E.
Qed.

Lemma resolveLanguage_available lang l : resolveLanguage lang = Some l → l ∈ getAvailableLanguages.
Proof.
  unfold resolveLanguage. destruct (matchLocaleKey lang _); [|done]. case_match; [|done].
  intros Hx%assoc_elem. pose proof aliases_canonical as Hc. rewrite Forall_forall in Hc.
  by apply (Hc _ Hx).
Qed.

(** Every alias of a language, in any case and with any surrounding white space, resolves to the
    language it is registered for (each offered language resolves to itself); whatever the tag,
    the result is one of the offered languages; and every Chinese tag, however
    it continues, resolves to some language. *)
Theorem resolveLanguage_aliases :
  (∀ alias l tag, (alias, l) ∈ languageAliases → toLowerCase (trim tag) = toLowerCase alias →
     resolveLanguage (Some tag) = Some l) ∧
  (∀ l, l ∈ getAvailableLanguages → resolveLanguage (Some l) = Some l) ∧
  (∀ lang l, resolveLanguage lang = Some l → l ∈ getAvailableLanguages) ∧
  (∀ tag, starts_chinese (toLowerCase (trim tag)) = true → is_Some (resolveLanguage (Some tag))).
Proof.
  assert (Hal : ∀ alias l tag, (alias, l) ∈ languageAliases → toLowerCase (trim tag) = toLowerCase alias →
     resolveLanguage (Some tag) = Some l).
  { intros alias l tag Hin Htag.
    assert (Hk : alias ∈ languageAliases.*1) by (apply list_elem_of_fmap; by exists (alias, l)).
    pose proof aliases_nonempty as Hne. rewrite Forall_forall in Hne.
    destruct (matchLocaleKey_exact tag _ alias Hk (Hne _ Hk) Htag) as (k' & Hm & Hk' & Hlow).
    unfold resolveLanguage. rewrite Hm. rewrite (proj2 (truthy_true k')) by (by apply Hne).
    destruct (aliases_assoc k' Hk') as [l' Hl']. rewrite Hl'. f_equal.
    apply assoc_elem in Hl'. pose proof aliases_consistent as Hc.
    rewrite Forall_forall in Hc. specialize (Hc _ Hl'). rewrite Forall_forall in Hc.
    by apply (Hc _ Hin). }
  split_and!; [done| | apply resolveLanguage_available |].
  - intros l Hl.
    assert (Hall : Forall (λ l, (l, l) ∈ languageAliases ∧ toLowerCase (trim l) = toLowerCase l)
                     getAvailableLanguages) by (apply (bool_decide_unpack _); vm_compute; exact I).
    rewrite Forall_forall in Hall. destruct (Hall l Hl). by eapply Hal.
  - intros tag Hz. unfold resolveLanguage.
    destruct (matchLocaleKey_chinese tag languageAliases.*1 Hz) as (k & Hk & _).
    { exists (js "zh"). split; [|done]. apply (bool_decide_unpack _). vm_compute. exact I. }
    rewrite Hk. apply matchLocaleKey_elem in Hk as Hin.
    pose proof aliases_nonempty as Hne. rewrite Forall_forall in Hne.
    rewrite (proj2 (truthy_true k)) by (by apply Hne).
    destruct (aliases_assoc k Hin) as [l ->]. eauto.
Qed.

(** ** The switch of the language *)

Record inv (s : i18n) : Prop := {
  inv_default : is_Some (assoc (languages s) DEFAULT_LANG);
  inv_current : is_Some (assoc (languages s) (currentLang s));
  inv_available : currentLang s ∈ getAvailableLanguages;
  inv_calls : ∀ c, c ∈ calls s →
      requestID c ≤ languageRequestID s ∧ resolved c ∈ getAvailableLanguages ∧
      (cached c = true → is_Some (assoc (languages s) (resolved c)));
  inv_loading : loading s = true ↔ ∃ c, c ∈ calls s ∧ requestID c = languageRequestID s
}.

Lemma default_available : DEFAULT_LANG ∈ getAvailableLanguages.
Proof. apply (bool_decide_unpack _). vm_compute. exact I. Qed.

Lemma set_key_mono {A} (o : list (jsstring * A)) k v k' :
  is_Some (assoc o k') → is_Some (assoc (set_key o k v) k').
Proof. rewrite assoc_set_key. destruct (eqs k k'); eauto. Qed.

Lemma elem_of_filter_calls c id s :
  c ∈ List.filter (λ c', negb (requestID c' =? id)) (calls s) ↔ c ∈ calls s ∧ requestID c ≠ id.
Proof.
  rewrite list_elem_of_In, filter_In, <- list_elem_of_In, negb_true_iff, Nat.eqb_neq. done.
Qed.

Lemma begin_inv lang src s : inv s → inv (setLanguage_begin lang src s).
Proof.
  intros [Hd Hc Ha Hcalls Hl]. unfold setLanguage_begin.
  assert (Hres : ∀ r src', r ∈ getAvailableLanguages →
    inv {| languages := languages s; currentLang := currentLang s; currentSource := currentSource s;
           languageRequestID := S (languageRequestID s); loading := true; stored := stored s;
           calls := calls s ++ [{| requestID := S (languageRequestID s); resolved := r;
                                   call_source := src'; cached := loaded r s |}] |}).
  { intros r src' Hr. constructor; simpl; try done.
    - intros c [Hin|Hin%list_elem_of_singleton]%elem_of_app.
      + destruct (Hcalls c Hin) as (? & ? & ?). split_and!; [lia|done..].
      + subst c. simpl. split_and!; [lia|done|]. unfold loaded. by intros ?%bool_decide_eq_true.
    - split; [|done]. intros _. eexists. rewrite elem_of_app, list_elem_of_singleton. eauto. }
  destruct (resolveLanguage lang) as [l|] eqn:E; apply Hres.
  - by eapply resolveLanguage_available.
  - apply default_available.
Qed.

Lemma ensure_spec c answer s langs ok :
  ensureLanguage c answer s = (langs, ok) →
  (∀ k, is_Some (assoc (languages s) k) → is_Some (assoc langs k)) ∧
  (ok = true → (cached c = true → is_Some (assoc (languages s) (resolved c))) →
   is_Some (assoc langs (resolved c))) ∧
  (ok = false → answer = None).
Proof.
  unfold ensureLanguage. destruct (cached c); [intros [= <- <-]; split_and!; auto; done|].
  destruct answer as [d|]; intros [= <- <-]; split_and!; try done.
  - intros k. apply set_key_mono.
  - intros _ _. rewrite assoc_set_key, eqs_refl. eauto.
Qed.

Lemma end_inv c answer aborted s : inv s → c ∈ calls s → inv (setLanguage_end c answer aborted s).
Proof.
  intros [Hd Hc Ha Hcalls Hl] Hin. unfold setLanguage_end.
  destruct (ensureLanguage c answer s) as [langs ok] eqn:E.
  apply ensure_spec in E as (Hmono & Hok & _).
  destruct (Hcalls c Hin) as (Hid & Hav & Hcached).
  destruct (call_target c ok) as [lang src] eqn:Et.
  assert (Hlang : is_Some (assoc langs lang) ∧ lang ∈ getAvailableLanguages).
  { unfold call_target in Et. destruct ok; injection Et as <- _.
    - split; [by apply Hok | done].
    - split; [by apply Hmono | apply default_available]. }
  assert (Hrest : ∀ c', c' ∈ List.filter (λ c', negb (requestID c' =? requestID c)) (calls s) →
    requestID c' ≤ languageRequestID s ∧ resolved c' ∈ getAvailableLanguages ∧
    (cached c' = true → is_Some (assoc langs (resolved c')))).
  { intros c' [Hc' _]%elem_of_filter_calls. destruct (Hcalls c' Hc') as (? & ? & ?).
    split_and!; auto. }
  destruct (requestID c =? languageRequestID s) eqn:El; bool_prop; cbn [negb orb].
  - assert (Hnone : ¬ ∃ c', c' ∈ List.filter (λ c', negb (requestID c' =? requestID c)) (calls s)
                         ∧ requestID c' = languageRequestID s).
    { intros (c' & [_ Hne]%elem_of_filter_calls & Heq). congruence. }
    destruct aborted; constructor; simpl; auto; naive_solver.
  - constructor; simpl; auto. rewrite Hl. split.
    + intros (c' & H1 & H2). exists c'. rewrite elem_of_filter_calls. split_and!; auto. congruence.
    + intros (c' & [H1 _]%elem_of_filter_calls & H2). eauto.
Qed.

Lemma exec_inv e s s' : inv s → exec e s = Some s' → inv s'.
Proof.
  intros Hi. destruct e as [lang src|id answer aborted]; cbn [exec].
  - intros [= <-]. by apply begin_inv.
  - destruct (find_call id s) as [c|] eqn:E; [|done]. intros [= <-].
    apply find_elem in E as [? _]. by apply end_inv.
Qed.

Lemma exec_all_inv es s s' : inv s → exec_all es s = Some s' → inv s'.
Proof.
  revert s. induction es as [|e es IH]; intros s Hi; simpl; [by intros [= <-]|].
  destruct (exec e s) eqn:E; [|done]. apply IH. by eapply exec_inv.
Qed.

Lemma init_inv d saved browser language answer : inv (initI18n d saved browser language answer).
Proof.
  unfold initI18n. destruct (detect saved browser language) as [lang src] eqn:E.
  assert (Hlang : lang ∈ getAvailableLanguages).
  { unfold detect, detectLanguage in E.
    assert (Hr : ∀ r l, resolved_truthy (resolveLanguage r) = Some l → l ∈ getAvailableLanguages).
    { intros r l H. destruct (resolveLanguage r) eqn:E1; [|done]. simpl in H.
      case_match; simplify_eq. by eapply resolveLanguage_available. }
    assert (Hf : ∀ tags l, first_resolved (λ raw, resolveLanguage (Some raw)) tags = Some l →
                           l ∈ getAvailableLanguages).
    { intros tags. induction tags as [|tg tags IH]; intros l; simpl; [done|].
      destruct (truthy tg); [|apply IH].
      destruct (resolved_truthy (resolveLanguage (Some tg))) eqn:E1; [|apply IH].
      intros [= <-]. by eapply Hr. }
    destruct (match resolved_truthy saved with Some s => _ | None => _ end) eqn:E1.
    - injection E as <- _. destruct (resolved_truthy saved); [|done]. by eapply Hr.
    - destruct (first_resolved _ _) eqn:E2; injection E as <- _; [by eapply Hf|].
      apply default_available. }
  assert (Hd : is_Some (assoc [(DEFAULT_LANG, d)] DEFAULT_LANG)) by (vm_compute; eauto).
  destruct (loaded lang _) eqn:El.
  - unfold loaded in El. apply bool_decide_eq_true in El.
    constructor; simpl; try done; [set_solver|]. split; [done|]. set_solver.
  - destruct answer as [a|]; constructor; cbn [languages currentLang calls loading languageRequestID]; try done.
    all: try (by intros c ?%elem_of_nil).
    all: try (split; [done|]; by intros (c & ?%elem_of_nil & _)).
    + by apply set_key_mono.
    + rewrite assoc_set_key, eqs_refl. eauto.
    + apply default_available.
Qed.

(** Through any interleaving of language switches, catalog answers and aborts after the
    initialization, the active language is one of the offered ones and its catalog is loaded (as the
    default one is), so a message is never looked up in a missing catalog; and the loading
    indicator is on exactly while the latest switch is in flight. *)
Theorem language_loaded d saved browser language answer es s :
  exec_all es (initI18n d saved browser language answer) = Some s →
  currentLang s ∈ getAvailableLanguages ∧ is_Some (assoc (languages s) (currentLang s)) ∧
  is_Some (assoc (languages s) DEFAULT_LANG) ∧
  (loading s = true ↔ ∃ c, c ∈ calls s ∧ requestID c = languageRequestID s).
Proof. intros H%exec_all_inv; [|apply init_inv]. destruct H. done. Qed.

(** What [setLanguage] is asked for: the language of the tag, or the default one. *)
Definition requested (lang : option jsstring) : jsstring := default DEFAULT_LANG (resolveLanguage lang).

Lemma exec_requestID e s s' : exec e s = Some s' →
  languageRequestID s' = languageRequestID s + (if e is SetLanguage _ _ then 1 else 0).
Proof.
  destruct e; cbn [exec].
  - intros [= <-]. unfold setLanguage_begin. destruct (resolveLanguage lang); simpl; lia.
  - destruct (find_call id s); [|done]. intros [= <-]. unfold setLanguage_end.
    destruct (ensureLanguage c answer s), (call_target c b). case_match; simpl; lia.
Qed.

Lemma exec_all_requestID es s s' : exec_all es s = Some s' → languageRequestID s ≤ languageRequestID s'.
Proof.
  revert s. induction es as [|e es IH]; intros s; simpl; [by intros [= <-]|].
  destruct (exec e s) as [s1|] eqn:E; [|done]. intros H%IH. apply exec_requestID in E.
  destruct e; lia.
Qed.

(** An invariant of runs without a new switch. *)
Lemma exec_all_no_begin (P : i18n → Prop) n es s s' :
  (∀ s id answer aborted s', P s → languageRequestID s = n →
     exec (Settled id answer aborted) s = Some s' → P s') →
  P s → languageRequestID s = n → exec_all es s = Some s' → languageRequestID s' = n → P s'.
Proof.
  intros HP. revert s. induction es as [|e es IH]; intros s Hs Hn; simpl; [by intros [= <-]|].
  destruct (exec e s) as [s1|] eqn:E; [|done]. intros He Hn'.
  pose proof (exec_requestID _ _ _ E) as Hid. pose proof (exec_all_requestID _ _ _ He) as Hle.
  destruct e as [lang src|id answer aborted]; [lia|].
  apply (IH s1); [|lia|done|done]. eapply HP; eauto.
Qed.

Lemma exec_all_app es1 es2 s :
  exec_all (es1 ++ es2) s =
  match exec_all es1 s with Some s' => exec_all es2 s' | None => None end.
Proof.
  revert s. induction es1 as [|e es1 IH]; intros s; simpl; [done|].
  destruct (exec e s); [apply IH|done].
Qed.

(** C16: the latest switch wins, whatever order the catalogs arrive in. If a switch is requested,
    other switches settle before or after it in any order, it settles without being
    aborted, and no later switch is requested, then in the end the active and stored language is the
    one it asked for (the default one when its catalog could not be loaded) and the
    loading indicator is off. *)
Theorem latest_language_wins d saved browser language answer0 es1 lang src es2 id answer es3 s1 s :
  exec_all es1 (initI18n d saved browser language answer0) = Some s1 →
  exec_all (SetLanguage lang src :: es2 ++ Settled id answer false :: es3) s1 = Some s →
  id = S (languageRequestID s1) → languageRequestID s = id →
  (currentLang s = requested lang ∨ (answer = None ∧ currentLang s = DEFAULT_LANG)) ∧
  stored s = Some (currentLang s) ∧ loading s = false.
Proof.
  intros H1 H Hid Hlast. apply exec_all_inv in H1; [|apply init_inv].
  cbn [exec_all exec] in H. set (s2 := setLanguage_begin lang src s1) in H.
  rewrite exec_all_app in H. destruct (exec_all es2 s2) as [s3|] eqn:E3; [|done].
  cbn [exec_all] in H. destruct (exec (Settled id answer false) s3) as [s4|] eqn:E4; [|done].
  assert (Hn2 : languageRequestID s2 = id).
  { pose proof (exec_requestID (SetLanguage lang src) s1 s2 eq_refl). simpl in *. lia. }
  pose proof (exec_all_requestID _ _ _ E3) as Hle3. pose proof (exec_requestID _ _ _ E4) as Hid4.
  pose proof (exec_all_requestID _ _ _ H) as Hle4. cbn in Hid4.
  assert (Hcall : ∀ c, c ∈ calls s3 → requestID c = id → resolved c = requested lang).
  { apply (exec_all_no_begin (λ s, ∀ c, c ∈ calls s → requestID c = id → resolved c = requested lang) id es2 s2);
      [| |done|done|lia].
    - intros s' id' answer' ab s'' Hs _ He c. cbn [exec] in He.
      destruct (find_call id' s') as [c'|]; [|done]. injection He as <-.
      unfold setLanguage_end. destruct (ensureLanguage c' answer' s'), (call_target c' b).
      intros Hin. apply Hs. case_match; simpl in Hin; by apply elem_of_filter_calls in Hin as [? _].
    - intros c. unfold s2, setLanguage_begin, requested.
      destruct (resolveLanguage lang) as [l|]; simpl; rewrite elem_of_app, list_elem_of_singleton.
      all: intros [Hin| ->] Hc; [|done].
      all: destruct (inv_calls _ H1 c Hin); lia. }
  assert (Hfin : (currentLang s4 = requested lang ∨ (answer = None ∧ currentLang s4 = DEFAULT_LANG)) ∧
                 stored s4 = Some (currentLang s4) ∧ loading s4 = false).
  { cbn [exec] in E4. destruct (find_call id s3) as [c|] eqn:Ec; [|done]. injection E4 as <-.
    apply find_elem in Ec as [Hin Hc]. bool_prop. specialize (Hcall c Hin Hc).
    unfold setLanguage_end. destruct (ensureLanguage c answer s3) as [langs ok] eqn:E.
    apply ensure_spec in E as (_ & _ & Hok). unfold call_target.
    replace (requestID c =? languageRequestID s3) with true by (symmetry; apply Nat.eqb_eq; lia).
    destruct ok; simpl; auto. }
  assert (Hgone : ∀ c, c ∈ calls s4 → requestID c ≠ id).
  { cbn [exec] in E4. destruct (find_call id s3) as [c|] eqn:Ec; [|done]. injection E4 as <-.
    apply find_elem in Ec as [_ Hc]. bool_prop. intros c'. unfold setLanguage_end.
    destruct (ensureLanguage c answer s3), (call_target c b).
    case_match; simpl; intros [_ ?]%elem_of_filter_calls; congruence. }
  apply (exec_all_no_begin (λ s, ((currentLang s = requested lang ∨ (answer = None ∧ currentLang s = DEFAULT_LANG))
     ∧ stored s = Some (currentLang s) ∧ loading s = false) ∧ ∀ c, c ∈ calls s → requestID c ≠ id) id es3 s4);
    [|done|lia|done|done].
  intros s' id' answer' ab s'' [Hs Hg] Hn He. cbn [exec] in He.
  destruct (find_call id' s') as [c'|] eqn:Ec; [|done]. injection He as <-.
  apply find_elem in Ec as [Hin _]. specialize (Hg c' Hin) as Hne.
  unfold setLanguage_end. destruct (ensureLanguage c' answer' s'), (call_target c' b).
  rewrite (proj2 (Nat.eqb_neq (requestID c') (languageRequestID s'))) by congruence.
  simpl. split; [done|]. intros c [Hc _]%elem_of_filter_calls. by apply Hg.
Qed.

(** Two switches whose catalogs arrive in the opposite order. *)
Definition french_then_german : list event :=
  [SetLanguage (Some (js "fr")) "user-set"; SetLanguage (Some (js " DE ")) "user-set";
   Settled 2 (Some []) false; Settled 1 (Some []) false].

Lemma latest_language_wins_witness :
  ∃ s, exec_all french_then_german (initI18n [] None [] None None) = Some s ∧
    (currentLang s = "de-DE" ∨ (Some [] = @None dictionary ∧ currentLang s = DEFAULT_LANG)) ∧
    stored s = Some (currentLang s) ∧ loading s = false.
Proof.
  eexists. split; [vm_compute; reflexivity|].
  eapply (latest_language_wins [] None [] None None [SetLanguage (Some (js "fr")) "user-set"]
           (Some (js " DE ")) "user-set" [] 2 (Some []) [Settled 1 (Some []) false]);
    vm_compute; reflexivity.
Defined.

Lemma language_loaded_witness :
  ∃ s, exec_all french_then_german (initI18n [] None [js "xx"; js "ja"] None (Some [])) = Some s ∧
    currentLang s ∈ getAvailableLanguages ∧ is_Some (assoc (languages s) (currentLang s)) ∧
    is_Some (assoc (languages s) DEFAULT_LANG) ∧
    (loading s = true ↔ ∃ c, c ∈ calls s ∧ requestID c = languageRequestID s).
Proof.
  eexists. split; [vm_compute; reflexivity|].
  eapply (language_loaded [] None [js "xx"; js "ja"] None (Some []) french_then_german).
  vm_compute; reflexivity.
Defined.

(** ** The queue covers what changed *)

Section queue_spec.
Context {Node : Type} `{EqDecision Node}.
Variable contains : Node → Node → bool.
(** [Node.contains] is the inclusive ancestor relation of a tree. *)
Hypothesis contains_refl : ∀ n, contains n n = true.
Hypothesis contains_trans : ∀ a b c, contains a b = true → contains b c = true → contains a c = true.

Definition antichain (l : list Node) : Prop :=
  NoDup l ∧ ∀ a b, a ∈ l → b ∈ l → contains a b = true → a = b.

Lemma queue_loop_true node roots pending l :
  queue_loop contains node roots pending = (true, l) →
  (∃ r, r ∈ roots ∧ contains r node = true).
Proof.
  revert pending. induction roots as [|r roots IH]; intros pending; simpl; [done|].
  destruct (contains r node) eqn:E; [intros _; exists r; split; [by left|done]|].
  intros (r' & ? & ?)%IH. exists r'. split; [by right|done].
Qed.

Lemma queue_loop_elem node roots pending b l :
  queue_loop contains node roots pending = (b, l) →
  ∀ x, x ∈ l → x ∈ pending.
Proof.
  revert pending. induction roots as [|r roots IH]; intros pending; simpl; [by intros [= _ <-]|].
  destruct (contains r node); [by intros [= _ <-]|]. intros H x Hx. specialize (IH _ H x Hx).
  destruct (contains node r); [|done].
  by rewrite list_elem_of_In, filter_In, <- list_elem_of_In in IH; destruct IH.
Qed.

Lemma queue_loop_false node roots pending l :
  queue_loop contains node roots pending = (false, l) →
  (∀ r, r ∈ roots → contains r node = false) ∧
  (∀ x, x ∈ l ↔ x ∈ pending ∧ ¬ (x ∈ roots ∧ contains node x = true)) ∧
  (NoDup pending → NoDup l).
Proof.
  revert pending. induction roots as [|r roots IH]; intros pending; simpl.
  - intros [= <-]. split_and!; [by intros r ?%elem_of_nil| |done].
    intros x. rewrite elem_of_nil. naive_solver.
  - destruct (contains r node) eqn:E; [done|]. intros H. destruct (IH _ H) as (H1 & H2 & H3).
    split_and!.
    + intros r' [->|?]%elem_of_cons; auto.
    + intros x. rewrite H2, elem_of_cons. destruct (contains node r) eqn:E2.
      * rewrite list_elem_of_In, filter_In, <- list_elem_of_In, negb_true_iff, bool_decide_eq_false.
        destruct (decide (x = r)) as [->|]; naive_solver.
      * destruct (decide (x = r)) as [->|]; [|naive_solver].
        rewrite E2. naive_solver.
    + intros Hnd. apply H3. destruct (contains node r); [|done].
      rewrite NoDup_ListNoDup in *. by apply List.NoDup_filter.
Qed.

(** Queueing a node keeps the pending roots apart and keeps every covered node covered. *)
Lemma queue_step node (q : queue) :
  antichain (pendingTranslationRoots q) →
  let q' := queueTranslationRoot contains (Some node) q in
  antichain (pendingTranslationRoots q') ∧
  (∃ r, r ∈ pendingTranslationRoots q' ∧ contains r node = true) ∧
  (∀ n r, r ∈ pendingTranslationRoots q → contains r n = true →
     ∃ r', r' ∈ pendingTranslationRoots q' ∧ contains r' n = true) ∧
  (∀ r, r ∈ pendingTranslationRoots q' → r ∈ pendingTranslationRoots q ∨ r = node).
Proof using contains_refl contains_trans.
  intros [Hnd Ha]. cbv zeta. unfold queueTranslationRoot.
  set (l := pendingTranslationRoots q) in *.
  destruct (queue_loop contains node l l) as [[] pending] eqn:E; cbn [pendingTranslationRoots].
  - destruct (queue_loop_true _ _ _ _ E) as (r & Hr & Hrn).
    assert (pending = l) as ->; [|by split_and!; eauto].
    assert (Hloop : ∀ roots p, queue_loop contains node roots p = (true, pending) →
      (∀ x, x ∈ roots → x ∈ l) → p = pending); [|by apply (Hloop l l) in E].
    induction roots as [|x roots IH]; intros p; simpl; [done|].
    destruct (contains x node) eqn:Ex; [by intros [= <-]|].
    intros H Hin. destruct (contains node x) eqn:Ex2.
    + exfalso. assert (r = x) as -> by (apply Ha; [done|apply Hin; by left|by eapply contains_trans]).
      congruence.
    + apply IH; [done|]. intros y Hy. apply Hin. by right.
  - destruct (queue_loop_false _ _ _ _ E) as (H1 & H2 & H3).
    assert (Hnew : ∀ x, x ∈ pending → contains x node = false ∧ contains node x = false).
    { intros x [Hx Hn]%H2. split; [by apply H1|]. destruct (contains node x) eqn:?; [|done]. by destruct Hn. }
    split_and!.
    + split.
      * apply NoDup_app. split_and!; [by apply H3| |apply NoDup_singleton].
        intros x Hx ->%list_elem_of_singleton. destruct (Hnew _ Hx). by rewrite contains_refl in *.
      * intros a b. rewrite !elem_of_app, !list_elem_of_singleton. intros [Hx| ->] [Hy| ->] Hc.
        -- apply Ha; [by apply H2 in Hx as [? _]|by apply H2 in Hy as [? _]|done].
        -- destruct (Hnew _ Hx). congruence.
        -- destruct (Hnew _ Hy). congruence.
        -- done.
    + exists node. rewrite elem_of_app, list_elem_of_singleton. auto.
    + intros n r Hr Hn. destruct (contains node r) eqn:Ec.
      * exists node. rewrite elem_of_app, list_elem_of_singleton. split; [by right|].
        by eapply contains_trans.
      * exists r. rewrite elem_of_app. split; [left|done]. apply H2. split; [done|]. intros [_ ?]. congruence.
    + intros r. rewrite elem_of_app, list_elem_of_singleton. intros [[? _]%H2|?]; auto.
Qed.

(** Coalescing the roots of translation loses nothing and repeats nothing. After any series of
    insertions queued before the flush, every queued element lies under some root that is flushed,
    every flushed root was queued, and no flushed root contains another one. *)
Theorem queue_covers nodes :
  let q := foldl (λ q n, queueTranslationRoot contains (Some n) q)
             {| pendingTranslationRoots := []; translationFlushScheduled := false |} nodes in
  let roots := (flush q).1 in
  (∀ n, n ∈ nodes → ∃ r, r ∈ roots ∧ contains r n = true) ∧
  (∀ r, r ∈ roots → r ∈ nodes) ∧ antichain roots.
Proof using contains_refl contains_trans.
  assert (Hgen : ∀ nodes q, antichain (pendingTranslationRoots q) →
    let q' := foldl (λ q n, queueTranslationRoot contains (Some n) q) q nodes in
    (∀ n, n ∈ nodes ∨ (∃ r, r ∈ pendingTranslationRoots q ∧ contains r n = true) →
       ∃ r, r ∈ pendingTranslationRoots q' ∧ contains r n = true) ∧
    (∀ r, r ∈ pendingTranslationRoots q' → r ∈ nodes ∨ r ∈ pendingTranslationRoots q) ∧
    antichain (pendingTranslationRoots q')).
  { clear nodes. intros nodes. induction nodes as [|n nodes IH]; intros q Ha; cbn [foldl].
    - split_and!; [|auto|done]. intros n [?%elem_of_nil|?]; done.
    - destruct (queue_step n q Ha) as (Ha' & (r0 & Hr0 & Hn0) & Hcov & Hel).
      destruct (IH _ Ha') as (H1 & H2 & H3). split_and!; [| |done].
      + intros x [[->|Hx]%elem_of_cons|(r & Hr & Hrx)]; apply H1; eauto.
      + intros r [?|[?| ->]%Hel]%H2; [left; by right|by right|left; by left]. }
  destruct (Hgen nodes {| pendingTranslationRoots := []; translationFlushScheduled := false |})
    as (H1 & H2 & H3).
  { split; [apply NoDup_nil_2|]. by intros a b ?%elem_of_nil. }
  split_and!; [auto| |done]. intros r [?|?%elem_of_nil]%H2; done.
Qed.
End queue_spec.

(** Nodes as paths from the root of a tree. *)
Definition path_contains (a b : list nat) : bool := bool_decide (a `prefix_of` b).

Lemma queue_covers_witness :
  let q := foldl (λ q n, queueTranslationRoot path_contains (Some n) q)
             {| pendingTranslationRoots := []; translationFlushScheduled := false |}
             [[1; 2]; [1; 3]; [1]; [1; 2; 5]; [2]] in
  (flush q).1 = [[1]; [2]] ∧
  (∀ n, n ∈ [[1; 2]; [1; 3]; [1]; [1; 2; 5]; [2]] → ∃ r, r ∈ (flush q).1 ∧ path_contains r n = true).
Proof.
  split; [vm_compute; reflexivity|].
  apply (queue_covers path_contains).
  - intros n. apply bool_decide_eq_true. done.
  - intros a b c H1%bool_decide_eq_true H2%bool_decide_eq_true. apply bool_decide_eq_true.
    by transitivity b.
Defined.

(** ** What an error message shows *)

Section error_spec.
Variable JSON_parse : jsstring → option jsval.
Variable s : i18n.

Lemma t_cases key :
  t s key [] = TStr key ∨ t s key [] = TInherited ∨
  ∃ m, ((key, m) ∈ catalog (currentLang s) s ∨ (key, m) ∈ catalog DEFAULT_LANG s) ∧ t s key [] = TStr m.
Proof.
  unfold t, translateKey. rewrite interpolateMessage_nil.
  destruct (message_of (catalog (currentLang s) s) key) as [[m|]|] eqn:E1; [| by eauto |].
  - apply message_of_elem in E1 as [? _]. eauto 10.
  - destruct (message_of (catalog DEFAULT_LANG s) key) as [[m|]|] eqn:E2; [| by eauto | by eauto].
    apply message_of_elem in E2 as [? _]. eauto 10.
Qed.

(** A text shown for an error that comes from the interface, not from the server. *)
Definition from_interface (v : tvalue) : Prop :=
  v = TStr [] ∨ v = TInherited ∨
  (∃ text key, (text, key) ∈ ERROR_KEY_MAP ∧ v = t s key []) ∨
  (∃ key m, ((key, m) ∈ catalog (currentLang s) s ∨ (key, m) ∈ catalog DEFAULT_LANG s) ∧ v = TStr m).

Lemma first_known_from_interface cs : from_interface (first_known s cs).
Proof.
  induction cs as [|c cs IH]; simpl; [by left|].
  unfold mapped, direct. destruct (get ERROR_KEY_MAP c) as [key| |] eqn:E.
  1: destruct (truthy key).
  - right; right; left. apply get_Own in E. eauto.
  - cbv zeta. case_bool_decide as Hd; [done|].
    destruct (t_cases c) as [?|[->|(m & ? & ->)]]; [done|by right; left|]. right; right; right. eauto.
  - by right; left.
  - cbv zeta. case_bool_decide as Hd; [done|].
    destruct (t_cases c) as [?|[->|(m & ? & ->)]]; [done|by right; left|]. right; right; right. eauto.
Qed.

Lemma translateKnownError_from_interface text :
  from_interface (translateKnownError JSON_parse s text).
Proof.
  destruct text as [text|]; [|by left]. simpl. destruct (truthy text); [|by left].
  destruct (if looks_json (trim text) then _ else _); [|by left].
  apply first_known_from_interface.
Qed.

(** The registered messages are written as the code normalizes them, each once, each with a key. *)
Lemma error_map_normal :
  Forall (λ p, p.1 ≠ [] ∧ p.2 ≠ [] ∧ looks_json p.1 = false ∧
               assoc ERROR_KEY_MAP p.1 = Some p.2) ERROR_KEY_MAP.
Proof. apply (bool_decide_unpack _). vm_compute. exact I. Qed.

(** An error shown through the registry never exposes text of the server. Whatever the payload,
    the result is empty, the translation of a key registered for some message, a message of the
    catalogs, or (for a payload that names a member of every object) that member; and each of the
    registered messages is recognized, also with surrounding white space, and shown
    as the translation of its key. *)
Theorem translateKnownError_safe :
  (∀ text, from_interface (translateKnownError JSON_parse s text)) ∧
  (∀ text key raw, (text, key) ∈ ERROR_KEY_MAP → trim raw = text →
     translateKnownError JSON_parse s (Some raw) = t s key []).
Proof.
  split; [apply translateKnownError_from_interface|].
  - intros text key raw Hin Hraw. pose proof error_map_normal as Hn. rewrite Forall_forall in Hn.
    destruct (Hn _ Hin) as (H1 & H2 & H4 & H5). cbn [fst snd] in *.
    unfold translateKnownError. rewrite (proj2 (truthy_true raw)).
    2: { intros ->. by rewrite <- Hraw in H1. }
    cbv zeta. rewrite Hraw, H4. destruct (eqs text (strip_marks text)); cbn [first_known];
      unfold mapped, get; rewrite H5, (proj2 (truthy_true key)) by done; done.
Qed.
End error_spec.

(** A payload that is the name of a member of every object is shown as that member. *)
Lemma known_error_inherited :
  translateKnownError (λ _, None) (module_state []) (Some (js "constructor")) = TInherited.
Proof. vm_compute. reflexivity. Qed.
