(* ===== verification/ResponseErrors.v ===== *)
(** * Failed requests as messages of the interface

    [internal/service/frontend/renop-html/js/response-errors.js]: the stable error codes and
    statuses with their messages, the bounded read of the body of a failed response,
    the message shown, and the error that carries it. The response, its stream and
    the decoder are the platform's. *)

From S2P Require Import Prelude JsText JsValue I18nUtil I18n.

(** ** The decoder of the platform

    [TextDecoder] decodes a text in pieces: feeding the bytes at once or piece by
    piece gives the same text. *)
Class TextDecoder := {
  dstate : Type;
  fresh : dstate;
  (** [decoder.decode(bytes, {stream: true})] *)
  decode : dstate → list ascii → dstate * jsstring;
  (** [decoder.decode()] *)
  decode_end : dstate → jsstring;
  decode_nil : ∀ d, decode d [] = (d, []);
  decode_app : ∀ d b1 b2,
    decode d (b1 ++ b2) =
    ((decode (decode d b1).1 b2).1, (decode d b1).2 ++ (decode (decode d b1).1 b2).2)
}.

(** The text of a whole sequence of bytes. *)
Definition decode_all `{TextDecoder} (bytes : list ascii) : jsstring :=
  (decode fresh bytes).2 ++ decode_end (decode fresh bytes).1.

Definition MAX_ERROR_BODY_BYTES : Z := 2048.

Definition commonErrorCodeKeys : list (jsstring * jsstring) :=
  [ pair "captcha_required" "captcha.complete";
    pair "captcha_invalid" "captcha.failed";
    pair "captcha_unavailable" "captcha.unavailable";
    pair "captcha_changed" "captcha.changed";
    pair "captcha_cookies_required" "captcha.cookiesRequired";
    pair "captcha_settings_invalid" "captcha.settingsInvalid";
    pair "captcha_settings_save_failed" "captcha.settingsSaveFailed";
    pair "legal_consent_required" "legal.consentRequired";
    pair "legal_settings_invalid" "legal.invalid";
    pair "legal_settings_save_failed" "legal.saveFailed";
    pair "oauth_invalid" "oauth.failed";
    pair "oauth_unavailable" "oauth.failed";
    pair "oauth_last_login_method" "oauth.onlyLogin";
    pair "oauth_settings_invalid" "oauth.settingsInvalid";
    pair "oauth_settings_save_failed" "oauth.failed";
    pair "registration_disabled" "registration.disabled";
    pair "registration_ip_limited" "registration.ipLimited";
    pair "registration_cooldown" "registration.cooldown";
    pair "registration_pending" "registration.pending";
    pair "registration_invalid" "registration.invalid";
    pair "registration_unavailable" "registration.unavailable";
    pair "registration_username_conflict" "registration.usernameConflict";
    pair "registration_identity_linked" "registration.identityLinked";
    pair "registration_settings_invalid" "registration.settingsInvalid";
    pair "registration_settings_save_failed" "registration.unavailable";
    pair "MFA_REQUIRED" "mfa.loginHint";
    pair "MFA_PRIMARY_REQUIRED" "mfa.primaryRequired";
    pair "MFA_INVALID" "mfa.invalid";
    pair "MFA_UNAVAILABLE" "mfa.unavailable";
    pair "MFA_REAUTH_REQUIRED" "mfa.reauth";
    pair "cache_settings_invalid" "cache.invalid";
    pair "cache_settings_save_failed" "cache.saveFailed";
    pair "cache_connection_failed" "cache.testFailed";
    pair "mail_settings_invalid" "mail.invalid";
    pair "mail_settings_save_failed" "mail.requestFailed";
    pair "mail_request_invalid" "mail.invalid";
    pair "mail_unavailable" "mail.requestFailed";
    pair "mail_status_unavailable" "mail.requestFailed";
    pair "mail_disabled" "mail.disabled";
    pair "mail_manual_rate_limited" "mail.rateLimited";
    pair "mail_queue_full" "mail.queueFull";
    pair "mail_no_account" "mail.noAccount";
    pair "mail_recipient_blocked" "mail.recipientBlocked";
    pair "ACCOUNT_BANNED" "login.accountBanned";
    pair "LOG_FILTER_INVALID" "audit.invalidFilter";
    pair "ACCOUNT_DELETED" "login.accountDeleted";
    pair "ACCOUNT_RETIREMENT_BLOCKED" "profile.retireBlockedHint";
    pair "ACCOUNT_RETIREMENT_CONFIRMATION" "profile.retireConfirmationMismatch";
    pair "ACCOUNT_BAN_INVALID" "users.banInvalid";
    pair "ACCOUNT_BAN_SELF" "users.banSelf";
    pair "ACCOUNT_BAN_PROTECTED" "users.banProtected";
    pair "ACCOUNT_BAN_IP_UNKNOWN" "users.banIPUnknown";
    pair "IP_BANNED" "login.ipBanned";
    pair "ACCOUNT_EMAIL_CONFLICT" "profile.privateEmailConflict";
    pair "ACCOUNT_LOCALE_INVALID" "profile.languageSaveFailed";
    pair "ACCOUNT_EMAIL_PROOF_REQUIRED" "profile.providerEmailUnverified";
    pair "ACCOUNT_EMAIL_LIMIT" "profile.emailAliasLimit";
    pair "ACCOUNT_EMAIL_PRIMARY" "profile.primaryEmailRequired";
    pair "ACCOUNT_EMAIL_INVALID" "profile.privateEmailInvalid";
    pair "ACCOUNT_EMAIL_CODE_INVALID" "login.emailCodeInvalid";
    pair "ACCOUNT_LAST_LOGIN_METHOD" "profile.passwordLoginNeedsAlternative";
    pair "ACCOUNT_PASSWORD_NOT_CONFIGURED" "profile.passwordLoginNotConfigured";
    pair "API_TOKEN_INVALID" "profile.apiTokenCreateFailed";
    pair "API_TOKEN_LIMIT" "profile.apiTokenLimitReached";
    pair "API_TOKEN_NAME_CONFLICT" "profile.apiTokenNameConflict";
    pair "GITHUB_LAST_LOGIN_METHOD" "profile.githubOnlyLogin";
    pair "MAVEN_USER_NOT_FOUND" "maven.userNotFound";
    pair "package_deprecated" "package.deprecationNotice";
    pair "resource_locked" "resourceLock.blocked";
    pair "review_pending" "package.reviewPending";
    pair "maven_domain_closed" "maven.domainClosedError";
    pair "maven_domain_locked" "maven.domainLockedError";
    pair "maven_domain_review_pending" "maven.domainReviewPending";
    pair "maven_claim_review_invalid" "maven.claimReviewInvalid";
    pair "publication_file_quota" "publicationQuota.fileExceeded";
    pair "publication_byte_quota" "publicationQuota.byteExceeded";
    pair "publication_count_quota" "publicationQuota.countExceeded";
    pair "repository_migration_pending_gpg" "repos.migrationPendingGpg";
    pair "repository_migration_pending_review" "repos.migrationPendingReview";
    pair "repository_pending_review" "repos.pendingReviewMutation" ].

Definition statusErrorKeys : list (Z * jsstring) :=
  [ (401%Z, js "error.unauthorized");
    (403%Z, js "error.forbidden");
    (404%Z, js "error.notFound");
    (409%Z, js "error.conflict");
    (413%Z, js "error.requestEntityTooLarge");
    (429%Z, js "error.tooManyRequests");
    (503%Z, js "error.serviceUnavailable");
    (507%Z, js "error.insufficientStorage") ].

Fixpoint status_key (keys : list (Z * jsstring)) (status : Z) : option jsstring :=
  match keys with
  | [] => None
  | (n, key) :: keys => if (n =? status)%Z then Some key else status_key keys status
  end.

(** ** Responses *)

Section responses.
Context {Err : Type}.

(** A body answers a list of reads (chunks of bytes, or the error of a read), then its end. *)
Record response := {
  header_code : option jsstring;   (* the X-Renop-Error-Code header *)
  status : Z;
  bodyUsed : bool;
  body : option (list (result Err (list ascii)))
}.

(** What a bounded read gives and does: its text or error, the bytes it kept, whether it
    cancelled the reader, and whether it released the lock. *)
Record body_read := {
  text : result Err jsstring;
  kept : list ascii;
  cancelled : bool;
  released : bool
}.

Section reading.
Context `{TextDecoder}.

(** How the loop ends. *)
Inductive loop_end :=
  | Ended (complete : bool) (d : dstate) (output : jsstring) (bytes : list ascii)
  | Failed (e : Err) (bytes : list ascii).

Fixpoint read_loop (reads : list (result Err (list ascii))) (consumed : Z) (d : dstate)
    (output : jsstring) (bytes : list ascii) : loop_end :=
  if (consumed <? MAX_ERROR_BODY_BYTES)%Z then
    match reads with
    | [] => Ended true d output bytes
    | Throw e :: _ => Failed e bytes
    | Ok value :: reads =>
        let remaining := (MAX_ERROR_BODY_BYTES - consumed)%Z in
        let chunk := if (remaining <? Z.of_nat (length value))%Z then take (Z.to_nat remaining) value
                     else value in
        let consumed := (consumed + Z.of_nat (length chunk))%Z in
        let '(d, piece) := decode d chunk in
        if negb (length chunk =? length value) then Ended false d (output ++ piece) (bytes ++ chunk)
        else read_loop reads consumed d (output ++ piece) (bytes ++ chunk)
    end
  else Ended false d output bytes.

(** The outcome of [reader.cancel()] is caught, so it does not matter. *)
Definition readBoundedErrorText (r : option response) : body_read :=
  let nothing := {| text := Ok []; kept := []; cancelled := false; released := false |} in
  match r with
  | None => nothing
  | Some r =>
      if bodyUsed r then nothing
      else match body r with
           | None => nothing
           | Some reads =>
               match read_loop reads 0 fresh [] [] with
               | Ended complete d output bytes =>
                   {| text := Ok (output ++ decode_end d); kept := bytes;
                      cancelled := negb complete; released := true |}
               | Failed e bytes =>
                   {| text := Throw e; kept := bytes; cancelled := false; released := true |}
               end
           end
  end.

(** ** Messages *)

(** A key found in a table: one of the table's own, or a member every object inherits. *)
Inductive table_key := Key (k : jsstring) | InheritedKey.

Definition table_lookup (table : list (jsstring * jsstring)) (code : jsstring) : option table_key :=
  match get table code with
  | Own k => if truthy k then Some (Key k) else None
  | Inherited => Some InheritedKey
  | Missing => None
  end.

(** [t(key, params)]; a key that is not a string is no key of a catalog and comes back as it is. *)
Definition t_key (s : i18n) (k : table_key) (params : list (jsstring * jsval)) : tvalue :=
  match k with Key k => t s k params | InheritedKey => TInherited end.

Definition truthy_tvalue (v : tvalue) : bool :=
  match v with TStr s => truthy s | TInherited => true end.

Definition header_key (r : option response) (errorCodeKeys : list (jsstring * jsstring)) :
    option table_key :=
  let code := default [] (match r with Some r => header_code r | None => None end) in
  match table_lookup errorCodeKeys code with
  | Some k => Some k
  | None => table_lookup commonErrorCodeKeys code
  end.

Definition responseErrorMessage (JSON_parse : jsstring → option jsval) (s : i18n)
    (r : option response) (fallbackKey : jsstring) (params : list (jsstring * jsval))
    (errorCodeKeys : list (jsstring * jsstring)) : result Err tvalue :=
  match header_key r errorCodeKeys with
  | Some k => Ok (t_key s k params)
  | None =>
      let! body := text (readBoundedErrorText r) in
      let translatedBody := translateKnownError JSON_parse s (Some body) in
      if truthy_tvalue translatedBody then Ok translatedBody
      else
        let statusKey := status_key statusErrorKeys (match r with Some r => status r | None => 0%Z end) in
        Ok (t s (default fallbackKey statusKey) params)
  end.




(** ** The bounded read *)

(** The bytes a body yields before its first failing read, and that failure. *)
Fixpoint yields (reads : list (result Err (list ascii))) : list ascii * option Err :=
  match reads with
  | [] => ([], None)
  | Throw e :: _ => ([], Some e)
  | Ok v :: reads => let '(bytes, e) := yields reads in (v ++ bytes, e)
  end.

(** What the loop ends with, from the bytes it has already kept. *)
Definition loop_spec (reads : list (result Err (list ascii))) (bytes : list ascii) : loop_end :=
  let all := bytes ++ (yields reads).1 in
  let window := take (Z.to_nat MAX_ERROR_BODY_BYTES) all in
  if (MAX_ERROR_BODY_BYTES <=? Z.of_nat (length all))%Z
  then Ended false (decode fresh window).1 (decode fresh window).2 window
  else match (yields reads).2 with
       | Some e => Failed e all
       | None => Ended true (decode fresh all).1 (decode fresh all).2 all
       end.

Lemma read_loop_full reads bytes :
  (Z.of_nat (length bytes) = MAX_ERROR_BODY_BYTES)%Z →
  read_loop reads (Z.of_nat (length bytes)) (decode fresh bytes).1 (decode fresh bytes).2 bytes =
  loop_spec reads bytes.
Proof.
  intros Heq. unfold loop_spec. rewrite length_app, take_app_le by lia.
  rewrite (proj2 (Z.leb_le _ _)) by lia. rewrite take_ge by lia.
  destruct reads; cbn [read_loop]; by rewrite (proj2 (Z.ltb_ge _ _)) by lia.
Qed.

Lemma body_loop_spec reads bytes :
  (Z.of_nat (length bytes) ≤ MAX_ERROR_BODY_BYTES)%Z →
  read_loop reads (Z.of_nat (length bytes)) (decode fresh bytes).1 (decode fresh bytes).2 bytes =
  loop_spec reads bytes.
Proof.
  revert bytes. induction reads as [|[value|e] reads IH]; intros bytes Hle;
    (destruct (decide (Z.of_nat (length bytes) = MAX_ERROR_BODY_BYTES)) as [Heq|Hne];
     [by apply read_loop_full|]);
    cbn [read_loop]; rewrite (proj2 (Z.ltb_lt _ _)) by lia.
  - unfold loop_spec. simpl. rewrite app_nil_r, (proj2 (Z.leb_gt _ _)) by lia. done.
  - unfold loop_spec. cbn [yields]. destruct (yields reads) as [rest err] eqn:Ey. cbn [fst snd].
    destruct (Z.ltb_spec (MAX_ERROR_BODY_BYTES - Z.of_nat (length bytes)) (Z.of_nat (length value))).
    + set (n := Z.to_nat (MAX_ERROR_BODY_BYTES - Z.of_nat (length bytes))).
      rewrite (surjective_pairing (decode _ (take n value))).
      rewrite length_take_le, (proj2 (Nat.eqb_neq _ _)) by lia. cbn [negb].
      rewrite !length_app, (proj2 (Z.leb_le _ _)) by lia.
      rewrite app_assoc, take_app_le by (rewrite length_app; lia).
      rewrite take_app_ge by lia.
      replace (Z.to_nat MAX_ERROR_BODY_BYTES - length bytes) with n by lia.
      by rewrite decode_app.
    + rewrite Nat.eqb_refl. cbn [negb]. cbv zeta.
      rewrite (surjective_pairing (decode (decode fresh bytes).1 value)).
      specialize (IH (bytes ++ value)). rewrite length_app, Nat2Z.inj_add, decode_app in IH.
      cbn [fst snd] in IH. rewrite IH by lia. unfold loop_spec. rewrite Ey. cbn [fst snd].
      by rewrite <- !app_assoc.
  - unfold loop_spec. simpl. rewrite app_nil_r, (proj2 (Z.leb_gt _ _)) by lia. done.
Qed.

Lemma read_from_start reads : read_loop reads 0 fresh [] [] = loop_spec reads [].
Proof.
  pose proof (body_loop_spec reads []) as H1. rewrite decode_nil in H1. apply H1. done.
Qed.

(** The body of a failed response is read up to 2048 bytes and no further, however it is cut
    into chunks. When it has that many bytes before any failing read, the text is that of
    its first 2048 bytes and the reader is cancelled, so nothing after them is read; when
    it is shorter, the text is that of the whole body, and nothing is cancelled; when a read fails
    before the bound, its error is thrown. The lock on the body is released in every case. *)
Theorem bounded_error_text r reads :
  bodyUsed r = false → body r = Some reads →
  let out := readBoundedErrorText (Some r) in
  let '(bytes, failure) := yields reads in
  released out = true ∧
  (Z.of_nat (length (kept out)) ≤ 2048)%Z ∧
  ((2048 ≤ Z.of_nat (length bytes))%Z →
     text out = Ok (decode_all (take 2048 bytes)) ∧ cancelled out = true) ∧
  ((Z.of_nat (length bytes) < 2048)%Z → cancelled out = false ∧
     text out = match failure with Some e => Throw e | None => Ok (decode_all bytes) end).
Proof.
  intros Hu Hb. cbv zeta. unfold readBoundedErrorText. rewrite Hu, Hb, read_from_start.
  unfold loop_spec. destruct (yields reads) as [bytes failure]. cbn [fst snd app].
  change MAX_ERROR_BODY_BYTES with 2048%Z.
  destruct (Z.leb_spec 2048 (Z.of_nat (length bytes))).
  - cbn. split_and!; [done| |done|lia]. rewrite length_take. lia.
  - destruct failure; cbn; split_and!; try done; lia.
Qed.
End reading.
End responses.
(** ** Messages never show text of the server *)





Section message_spec.
Context `{TextDecoder}.
Variable JSON_parse : jsstring → option jsval.
Variable s : i18n.















End message_spec.

(** ** A decoder of Latin-1 text in UTF-8 *)

(** One byte: a pending lead byte, and the text it completes; other bytes show as [?]. *)
Definition utf8_step (d : option N) (b : ascii) : option N * jsstring :=
  match d with
  | Some lead =>
      if in_range 128 191 b then (None, [chr (lead * 64 + code b mod 64)])
      else if in_range 194 195 b then (Some (code b mod 4)%N, js "?")
      else if (code b <? 128)%N then (None, ["?"%char; b]) else (None, js "??")
  | None =>
      if (code b <? 128)%N then (None, [b])
      else if in_range 194 195 b then (Some (code b mod 4)%N, []) else (None, js "?")
  end.

Fixpoint utf8_run (d : option N) (bytes : list ascii) : option N * jsstring :=
  match bytes with
  | [] => (d, [])
  | b :: bytes =>
      let '(d, piece) := utf8_step d b in
      let '(d, rest) := utf8_run d bytes in (d, piece ++ rest)
  end.

Lemma utf8_run_app d b1 b2 :
  utf8_run d (b1 ++ b2) =
  ((utf8_run (utf8_run d b1).1 b2).1, (utf8_run d b1).2 ++ (utf8_run (utf8_run d b1).1 b2).2).
Proof.
  revert d. induction b1 as [|b b1 IH]; intros d; cbn [utf8_run app].
  - cbn [fst snd app]. by destruct (utf8_run d b2).
  - destruct (utf8_step d b) as [d1 p]. rewrite IH. destruct (utf8_run d1 b1) as [d2 q]. cbn.
    by rewrite app_assoc.
Qed.

Lemma utf8_run_nil d : utf8_run d [] = (d, []).
Proof. done. Qed.

Global Instance utf8 : TextDecoder := {|
  dstate := option N; fresh := None; decode := utf8_run;
  decode_end := λ d, match d with Some _ => js "?" | None => [] end;
  decode_nil := utf8_run_nil; decode_app := utf8_run_app
|}.

(** A body of 2100 bytes in two chunks; the second cuts at the bound. *)
Definition long_response : @response unit :=
  {| header_code := None; status := 500; bodyUsed := false;
     body := Some [Ok (repeat "a"%char 2047); Ok (repeat "b"%char 53); Throw tt] |}.

Lemma bounded_error_text_witness :
  readBoundedErrorText (Some long_response) =
    {| text := Ok (repeat "a"%char 2047 ++ js "b"); kept := repeat "a"%char 2047 ++ js "b";
       cancelled := true; released := true |} ∧
  text (readBoundedErrorText (Some long_response)) = Ok (decode_all (take 2048 (yields
    [Ok (repeat "a"%char 2047); Ok (repeat "b"%char 53); @Throw unit _ tt]).1)).
Proof.
  split; [vm_compute; reflexivity|].
  pose proof (bounded_error_text long_response _ eq_refl eq_refl) as Hw.
  cbv zeta in Hw. destruct (yields _) as [bytes failure] eqn:E in Hw.
  destruct Hw as (_ & _ & Hw & _). assert (Hb : yields
    [Ok (repeat "a"%char 2047); Ok (repeat "b"%char 53); @Throw unit _ tt] = (bytes, failure)) by exact E.
  rewrite Hb. apply Hw. vm_compute in E. injection E as <- <-. vm_compute. discriminate.
Defined.

(** A code that every object inherits is taken for a registered one. *)
Lemma header_code_inherited :
  responseErrorMessage (λ _, None) (module_state [])
    (Some {| header_code := Some (js "constructor"); status := 404; bodyUsed := false;
             body := @None (list (result unit _)) |}) (js "error.generic") [] [] = Ok TInherited.
Proof. vm_compute. reflexivity. Qed.
