(* ===== verification/DatabaseDsn.v ===== *)
(** * Database connection strings

    [internal/service/frontend/renop-html/js/settings/database-dsn.js]: parsing and
    formatting of the connection strings of the settings form. The [URL] constructor is
    an operation with its laws ([URLParser]). *)

From S2P Require Import Prelude JsText JsValue Uri.

Record dsn := {
  user : jsstring; password : jsstring; host : jsstring; port : jsstring;
  database : jsstring; params : jsstring
}.

Definition mysqlDefaults : dsn :=
  {| user := "root"; password := []; host := "127.0.0.1"; port := "3306"; database := "renop";
     params := "charset=utf8mb4&parseTime=True&loc=Local" |}.
Definition postgresDefaults : dsn :=
  {| user := "postgres"; password := []; host := "127.0.0.1"; port := "5432"; database := "renop";
     params := "sslmode=disable" |}.
Definition clickHouseDefaults : dsn :=
  {| user := "default"; password := []; host := "127.0.0.1"; port := "9000";
     database := "default"; params := [] |}.

Definition copyDefaults (d : dsn) : dsn := d.

(** [s.slice(0, i)] and [s.slice(i + 1)] at the first, and at the last, [c]. *)
Definition splitFirst (c : ascii) (s : jsstring) : option (jsstring * jsstring) :=
  (λ i, (take i s, drop (i + 1) s)) <$> indexOf s [c].
Definition splitLast (c : ascii) (s : jsstring) : option (jsstring * jsstring) :=
  (λ i, (take i s, drop (i + 1) s)) <$> lastIndexOf s c.

Definition formatURLHost (value fallback : jsstring) : jsstring :=
  let host := str_or (trim (str_or value fallback)) fallback in
  if includes host ":" && negb (startsWith host "[" && endsWith host "]") then "[" ++ host ++ "]"
  else host.

(** ** MySQL *)

(** User, password and the rest after the credentials. *)
Definition mysql_credentials (rest : jsstring) : jsstring * jsstring * jsstring :=
  match splitLast "@" rest with
  | Some (credentials, rest) =>
      match splitFirst ":" credentials with
      | Some (user, password) => (user, password, rest)
      | None => (credentials, [], rest)
      end
  | None => ([], [], rest)
  end.

(** [tcp(address)] without its parentheses. *)
Definition strip_parens (address : jsstring) : jsstring :=
  match indexOf address "(", lastIndexOf address ")" with
  | Some openParen, Some closeParen =>
      if openParen <? closeParen then take (closeParen - (openParen + 1)) (drop (openParen + 1) address)
      else address
  | _, _ => address
  end.

Definition mysql_address (address : jsstring) : jsstring * jsstring :=
  let address := strip_parens address in
  if truthy address then
    match splitLast ":" address with
    | Some (host, port) => (host, port)
    | None => (address, port mysqlDefaults)
    end
  else (host mysqlDefaults, port mysqlDefaults).

(** [None]: a value that is not a string. *)
Definition parseMysqlDsn (dsnStr : option jsstring) : dsn :=
  match dsnStr with
  | None => copyDefaults mysqlDefaults
  | Some dsnStr =>
      if truthy (trim dsnStr) then
        let '(u, pw, rest) := mysql_credentials (trim dsnStr) in
        let '(rest, ps) :=
          match splitFirst "?" rest with Some (rest, ps) => (rest, ps) | None => (rest, []) end in
        let '(h, p, db) :=
          match splitFirst "/" rest with
          | Some (address, db) => let '(h, p) := mysql_address address in (h, p, db)
          | None => (host mysqlDefaults, port mysqlDefaults, rest)
          end in
        {| user := str_or u (user mysqlDefaults); password := pw;
           host := str_or h (host mysqlDefaults); port := str_or p (port mysqlDefaults);
           database := str_or db (database mysqlDefaults); params := ps |}
      else copyDefaults mysqlDefaults
  end.

(** [.replace(/^\?/, '')] *)
Definition drop_question (s : jsstring) : jsstring :=
  match s with c :: r => if ascii_eqb c "?" then r else s | [] => [] end.

Definition when (b : bool) (s : jsstring) : jsstring := if b then s else [].

Definition port_suffix (port : jsstring) : jsstring := when (truthy port) (":" ++ port).
Definition params_suffix (params : jsstring) : jsstring := when (truthy params) ("?" ++ params).

Definition formatMysqlDsn (parts : dsn) : jsstring :=
  let u := trim (user parts) in
  let pw := password parts in
  let h := str_or (trim (str_or (host parts) (host mysqlDefaults))) (host mysqlDefaults) in
  let p := trim (str_or (port parts) (port mysqlDefaults)) in
  let db := trim (database parts) in
  let ps := drop_question (trim (params parts)) in
  let credentials := when (truthy u) (u ++ when (truthy pw) (":" ++ pw) ++ "@") in
  credentials ++ "tcp(" ++ h ++ port_suffix p ++ ")/" ++ db ++ params_suffix ps.

(** ** URLs *)

Record url := {
  username : jsstring; url_password : jsstring; hostname : jsstring; url_port : jsstring;
  pathname : jsstring; search : jsstring
}.

(** What the form needs of a URL: characters of an encoded component, of a host name and
    of a query that the parser leaves alone. *)
Definition component_char (c : ascii) : bool := uri_unreserved c || ascii_eqb c "%".
Definition host_char (c : ascii) : bool := is_lower c || is_digit c || ascii_eqb c "." || ascii_eqb c "-".
Definition query_char (c : ascii) : bool := is_alnum c || bool_decide (c ∈ js "-_.~=&").

Definition authority (u pw h port : jsstring) : jsstring :=
  u ++ when (truthy pw) (":" ++ pw) ++ "@" ++ h ++ ":" ++ port.

(** A port number without leading zeros. *)
Definition port_value (p : jsstring) : N :=
  foldl (λ n c, (10 * n + (code c - 48))%N) 0%N p.
Definition port_ok (p : jsstring) : bool :=
  truthy p && forallb is_digit p && negb (startsWith p "0") && (port_value p <? 65536)%N.

(** The dot segments, which a parser removes from a path, encoded or not. *)
Definition dot_segments : list jsstring := js <$> [
  "."; "%2e"; "%2E"; ".."; ".%2e"; ".%2E"; "%2e."; "%2E."; "%2e%2e"; "%2e%2E"; "%2E%2e"; "%2E%2E"]%stdpp.

(** [new URL(s)]: [None] is the exception. The law is the part of the standard the forms
    rely on: a URL of the schemes they use whose parts hold only such characters,
    with a port without leading zeros and a path that is not a dot segment, is
    parsed into those parts. *)
Class URLParser := {
  new_URL : jsstring → option url;
  new_URL_parts scheme u pw h port d q :
    scheme ∈ [js "postgres"; js "clickhouse"] →
    u ≠ [] → Forall (λ c, component_char c = true) u →
    Forall (λ c, component_char c = true) pw →
    h ≠ [] → Forall (λ c, host_char c = true) h → port_ok port = true →
    Forall (λ c, component_char c = true) d → d ∉ dot_segments →
    Forall (λ c, query_char c = true) q →
    new_URL (scheme ++ "://" ++ authority u pw h port ++ "/" ++ d ++ params_suffix q) =
    Some {| username := u; url_password := pw; hostname := h; url_port := port;
            pathname := "/" ++ d; search := params_suffix q |}
}.

(** The outcome of a parse; [Wide_field] is a field with a character the model does not hold. *)
Inductive parsed := Parsed (d : dsn) | Wide_field.

Definition drop_slash (s : jsstring) : jsstring :=
  match s with c :: r => if ascii_eqb c "/" then r else s | [] => [] end.

Section urls.
Context `{URLParser}.

(** The fields of a URL; an escape that does not decode is the [URIError] caught by the callers. *)
Definition url_fields (defaults : dsn) (default_params : jsstring) (p : url) : parsed :=
  match decodeURIComponent (username p), decodeURIComponent (url_password p),
        decodeURIComponent (drop_slash (pathname p)) with
  | Malformed, _, _ => Parsed (copyDefaults defaults)
  | Wide, _, _ => Wide_field
  | _, Malformed, _ => Parsed (copyDefaults defaults)
  | _, Wide, _ => Wide_field
  | _, _, Malformed => Parsed (copyDefaults defaults)
  | _, _, Wide => Wide_field
  | Decoded u, Decoded pw, Decoded db =>
      Parsed {| user := str_or u (user defaults); password := pw;
                host := str_or (hostname p) (host defaults);
                port := str_or (url_port p) (port defaults);
                database := str_or db (database defaults);
                params := str_or (drop 1 (search p)) default_params |}
  end.

Definition parseClickHouseDsn (dsnStr : option jsstring) : parsed :=
  match dsnStr with
  | None => Parsed (copyDefaults clickHouseDefaults)
  | Some s =>
      if startsWith (trim s) "clickhouse://" then
        match new_URL (trim s) with
        | None => Parsed (copyDefaults clickHouseDefaults)
        | Some p => url_fields clickHouseDefaults [] p
        end
      else Parsed (copyDefaults clickHouseDefaults)
  end.

Definition format_url (scheme : jsstring) (defaults parts : dsn) : jsstring :=
  let u := encodeURIComponent (trim (str_or (user parts) (user defaults))) in
  let pw := password parts in
  let credentials := if truthy pw then u ++ ":" ++ encodeURIComponent pw else u in
  let h := formatURLHost (host parts) (host defaults) in
  let p := trim (str_or (port parts) (port defaults)) in
  let db := encodeURIComponent (trim (str_or (database parts) (database defaults))) in
  let ps := drop_question (trim (params parts)) in
  scheme ++ "://" ++ credentials ++ "@" ++ h ++ port_suffix p ++ "/" ++ db ++ params_suffix ps.

Definition formatClickHouseDsn (parts : dsn) : jsstring := format_url "clickhouse" clickHouseDefaults parts.
Definition formatPostgresDsn (parts : dsn) : jsstring := format_url "postgres" postgresDefaults parts.

(** ** Keyword strings of PostgreSQL *)

Definition is_key_char (c : ascii) : bool := is_alpha c || ascii_eqb c "_".

Fixpoint span {A} (f : A → bool) (s : list A) : list A * list A :=
  match s with
  | [] => ([], [])
  | c :: r => if f c then let '(a, b) := span f r in (c :: a, b) else ([], s)
  end.

(** The end of a quoted value after its opening quote: the first quote that no backslash
    precedes, else the last one. The result counts the characters up to and with
    that quote; [escaped] tells whether the character before is a backslash. *)
Fixpoint close_quote (escaped : bool) (s : jsstring) : option nat :=
  match s with
  | [] => None
  | c :: r =>
      if ascii_eqb c "'" && negb escaped then Some 1
      else match close_quote (ascii_eqb c "\") r with
           | Some n => Some (S n)
           | None => if ascii_eqb c "'" then Some 1 else None
           end
  end.

(** The value of a field and what follows it: ['(?:\\'|[^'])*'|\S+]. *)
Definition field_value (s : jsstring) : option (jsstring * jsstring) :=
  let plain := let '(v, rest) := span (λ c, negb (is_space c)) s in
               if truthy v then Some (v, rest) else None in
  match s with
  | c :: r =>
      if ascii_eqb c "'" then
        match close_quote false r with
        | Some n => Some (take (S n) s, drop (S n) s)
        | None => plain
        end
      else plain
  | [] => None
  end.

(** The matches of the expression, from left to right. *)
Fixpoint keyword_fields (fuel : nat) (s : jsstring) : list (jsstring * jsstring) :=
  match fuel with
  | O => []
  | S fuel =>
      match s with
      | [] => []
      | c :: s' =>
          let '(key, rest) := span is_key_char s in
          if truthy key then
            match rest with
            | e :: v =>
                if ascii_eqb e "=" then
                  match field_value v with
                  | Some (value, rest') => (key, value) :: keyword_fields fuel rest'
                  | None => keyword_fields fuel rest
                  end
                else keyword_fields fuel rest
            | [] => []
            end
          else keyword_fields fuel s'
      end
  end.

(** [.replace(/\\'/g, "'")] *)
Fixpoint unescape_quotes (s : jsstring) : jsstring :=
  match s with
  | a :: r =>
      match r with
      | b :: r' => if ascii_eqb a "\" && ascii_eqb b "'" then b :: unescape_quotes r'
                   else a :: unescape_quotes r
      | [] => [a]
      end
  | [] => []
  end.

Definition unquote (v : jsstring) : jsstring :=
  if startsWith v "'" && endsWith v "'" then unescape_quotes (take (length v - 2) (drop 1 v)) else v.

Definition set_field (acc : dsn * list jsstring) (kv : jsstring * jsstring) : dsn * list jsstring :=
  let '(d, extra) := acc in
  let key := toLowerCase kv.1 in
  let v := unquote kv.2 in
  if eqs key "user" then
    ({| user := v; password := password d; host := host d; port := port d; database := database d;
        params := params d |}, extra)
  else if eqs key "password" then
    ({| user := user d; password := v; host := host d; port := port d; database := database d;
        params := params d |}, extra)
  else if eqs key "host" then
    ({| user := user d; password := password d; host := v; port := port d; database := database d;
        params := params d |}, extra)
  else if eqs key "port" then
    ({| user := user d; password := password d; host := host d; port := v; database := database d;
        params := params d |}, extra)
  else if eqs key "dbname" || eqs key "database" then
    ({| user := user d; password := password d; host := host d; port := port d; database := v;
        params := params d |}, extra)
  else (d, extra ++ [encodeURIComponent key ++ "=" ++ encodeURIComponent v]).

Definition parse_keywords (value : jsstring) : dsn :=
  let start := {| user := user postgresDefaults; password := []; host := host postgresDefaults;
                  port := port postgresDefaults; database := database postgresDefaults;
                  params := [] |} in
  let '(d, extra) := foldl set_field (start, []) (keyword_fields (length value) value) in
  {| user := user d; password := password d; host := host d; port := port d;
     database := database d; params := join "&" extra |}.

Definition parsePostgresDsn (dsnStr : option jsstring) : parsed :=
  match dsnStr with
  | None => Parsed (copyDefaults postgresDefaults)
  | Some s =>
      let value := trim s in
      if truthy value then
        if startsWith value "postgres://" || startsWith value "postgresql://" then
          match new_URL value with
          | None => Parsed (copyDefaults postgresDefaults)
          | Some p => url_fields postgresDefaults (params postgresDefaults) p
          end
        else if negb (includes value "=") then Parsed (copyDefaults postgresDefaults)
        else Parsed (parse_keywords value)
      else Parsed (copyDefaults postgresDefaults)
  end.
End urls.

(** ** Splitting what was joined *)

Lemma splitFirst_app c a b : c ∉ a → splitFirst c (a ++ c :: b) = Some (a, b).
Proof.
  intros H. unfold splitFirst. rewrite indexOf_char_app by done. simpl.
  by rewrite take_app_length, Nat.add_1_r, (cons_middle c a b), app_assoc,
    drop_app_length' by (rewrite length_app; simpl; lia).
Qed.

Lemma splitFirst_None c s : c ∉ s → splitFirst c s = None.
Proof. intros H. unfold splitFirst. by rewrite indexOf_char_None. Qed.

Lemma splitLast_app c a b : c ∉ b → splitLast c (a ++ c :: b) = Some (a, b).
Proof.
  intros H. unfold splitLast. rewrite lastIndexOf_app by done. simpl.
  by rewrite take_app_length, Nat.add_1_r, (cons_middle c a b), app_assoc,
    drop_app_length' by (rewrite length_app; simpl; lia).
Qed.

Lemma trimmed_app a m b : a ≠ [] → b ≠ [] → trimmed a → trimmed b → trimmed (a ++ m ++ b).
Proof.
  intros Ha Hb [H1 _] [_ H2]. split.
  - by destruct a.
  - rewrite !reverse_app, <- app_assoc.
    destruct (reverse b) eqn:E; [|done].
    apply (f_equal reverse) in E. rewrite reverse_involutive in E. done.
Qed.

Lemma strip_parens_tcp address : strip_parens (js "tcp(" ++ address ++ js ")") = address.
Proof.
  unfold strip_parens.
  change (js "tcp(" ++ address ++ js ")") with
    (("t")%char :: ("c")%char :: ("p")%char :: ("(")%char :: address ++ [(")")%char]).
  assert (indexOf (("t")%char :: ("c")%char :: ("p")%char :: ("(")%char :: address ++ [(")")%char])
            (js "(") = Some 3) as -> by reflexivity.
  assert (lastIndexOf (("t")%char :: ("c")%char :: ("p")%char :: ("(")%char :: address ++ [(")")%char]) ")"
          = Some (4 + length address)) as ->.
  { apply (lastIndexOf_app (("t")%char :: ("c")%char :: ("p")%char :: ("(")%char :: address) ")" []).
    apply not_elem_of_nil. }
  cbn [Nat.add Nat.ltb Nat.leb drop Nat.sub]. rewrite Nat.sub_0_r.
  apply take_app_length.
Qed.

(** The fields a MySQL string carries back: nothing that would be read as a separator. *)
Definition mysql_ok (d : dsn) : Prop :=
  user d ≠ [] ∧ trimmed (user d) ∧ (":"%char ∉ user d) ∧
  host d ≠ [] ∧ trimmed (host d) ∧ Forall (λ c, c ∉ host d) (js "@?/") ∧
  port d ≠ [] ∧ trimmed (port d) ∧ Forall (λ c, c ∉ port d) (js "@?/:") ∧
  database d ≠ [] ∧ trimmed (database d) ∧ Forall (λ c, c ∉ database d) (js "@?") ∧
  trimmed (params d) ∧ ("@"%char ∉ params d) ∧ drop_question (params d) = params d.

Lemma params_suffix_no c ps : c ≠ "?"%char → c ∉ ps → c ∉ params_suffix ps.
Proof.
  intros H1 H2. unfold params_suffix, when. case_match; [|apply not_elem_of_nil].
  change (js "?" ++ ps) with (("?")%char :: ps). by rewrite not_elem_of_cons.
Qed.

(** The text the form writes for such fields. *)
Definition mysql_text (d : dsn) : jsstring :=
  (user d ++ when (truthy (password d)) ((":")%char :: password d))
  ++ ("@")%char :: ((js "tcp(" ++ (host d ++ (":")%char :: port d) ++ js ")")
                    ++ ("/")%char :: database d) ++ params_suffix (params d).

Lemma formatMysqlDsn_ok d : mysql_ok d → formatMysqlDsn d = mysql_text d.
Proof.
  intros (U1 & U2 & _ & H1 & H2 & _ & P1 & P2 & _ & D1 & D2 & _ & Q1 & _ & Q3).
  unfold formatMysqlDsn, mysql_text. cbv zeta.
  rewrite (trim_id (user d)), (str_or_id (host d)), (trim_id (host d)), (str_or_id (host d)),
    (str_or_id (port d)), (trim_id (port d)), (trim_id (database d)), (trim_id (params d)), Q3 by done.
  rewrite (proj2 (truthy_true (user d)) U1). unfold port_suffix. rewrite (proj2 (truthy_true (port d)) P1).
  unfold when. rewrite <- !app_assoc. destruct (truthy (password d)); reflexivity.
Qed.

Lemma mysql_text_trimmed d : mysql_ok d → trimmed (mysql_text d).
Proof.
  intros (U1 & U2 & _ & _ & _ & _ & _ & _ & _ & D1 & D2 & _ & Q1 & _ & _). unfold mysql_text, params_suffix.
  destruct (params d) as [|c r] eqn:E; cbn [truthy when].
  - rewrite app_nil_r, <- app_assoc.
    change (("@")%char :: ?a ++ ("/")%char :: ?b) with ((("@")%char :: a) ++ [("/")%char] ++ b).
    rewrite !(app_assoc _ _ (database d)). rewrite <- (app_assoc (user d)). by apply trimmed_app.
  - rewrite <- E in *. change (js "?" ++ params d) with ([("?")%char] ++ params d).
    rewrite <- app_assoc. rewrite app_comm_cons, !(app_assoc _ _ (params d)).
    rewrite <- (app_assoc (user d)). apply trimmed_app; try done. by rewrite E.
Qed.

(** A MySQL connection string round-trips: parsing what the form writes gives back every
    field, with any password (colons and at signs included) and a database name that may hold slashes,
    as long as the user has no colon, the host and port no separator and no field outer white space. *)
Theorem mysql_roundtrip d : mysql_ok d → parseMysqlDsn (Some (formatMysqlDsn d)) = d.
Proof.
  intros Hok. rewrite formatMysqlDsn_ok by done. unfold parseMysqlDsn.
  rewrite trim_id by (by apply mysql_text_trimmed).
  destruct Hok as (U1 & _ & U3 & H1 & _ & H3 & P1 & _ & P3 & D1 & _ & D3 & _ & Q2 & _).
  change (js "@?/") with [("@")%char; ("?")%char; ("/")%char] in H3.
  change (js "@?/:") with [("@")%char; ("?")%char; ("/")%char; (":")%char] in P3.
  change (js "@?") with [("@")%char; ("?")%char] in D3.
  repeat rewrite Forall_cons in H3. repeat rewrite Forall_cons in P3. repeat rewrite Forall_cons in D3.
  destruct H3 as (Ha & Hq & Hs & _), P3 as (Pa & Pq & Ps & Pc & _), D3 as (Da & Dq & _).
  assert (Hsep : ∀ c, c ∉ host d → c ∉ port d → c ∉ js "tcp():" →
                      c ∉ js "tcp(" ++ (host d ++ (":")%char :: port d) ++ js ")").
  { intros c ? ? Hc. change (js "tcp():") with (js "tcp(" ++ js ")" ++ [(":")%char]) in Hc.
    rewrite !not_elem_of_app in Hc. rewrite !not_elem_of_app, not_elem_of_cons.
    destruct Hc as (? & ? & Hc%not_elem_of_cons). naive_solver. }
  assert (Hrest : ∀ c, c ∉ host d → c ∉ port d → c ∉ database d → c ≠ ("/")%char → c ∉ js "tcp():" →
                       c ∉ (js "tcp(" ++ (host d ++ (":")%char :: port d) ++ js ")") ++ ("/")%char :: database d).
  { intros c ? ? ? ? ?. apply not_elem_of_app. split; [by apply Hsep|]. by apply not_elem_of_cons. }
  assert (Hlit : ∀ c, c ∈ js "@?/" → c ∉ js "tcp():").
  { intros c Hc. assert (Forall (λ c, c ∉ js "tcp():") (js "@?/")) as Hf
      by (apply (bool_decide_unpack _); by vm_compute). rewrite Forall_forall in Hf. by apply Hf. }
  assert (Hl1 : "@"%char ∉ js "tcp():") by (apply Hlit; left).
  assert (Hl2 : "?"%char ∉ js "tcp():") by (apply Hlit; right; left).
  assert (Hl3 : "/"%char ∉ js "tcp():") by (apply Hlit; right; right; left).
  assert (Hps : "@"%char ∉ params_suffix (params d)) by (by apply params_suffix_no).
  assert (Hcred : mysql_credentials (mysql_text d) =
    (user d, password d, ((js "tcp(" ++ (host d ++ (":")%char :: port d) ++ js ")")
                    ++ ("/")%char :: database d) ++ params_suffix (params d))).
  { unfold mysql_credentials, mysql_text. rewrite splitLast_app.
    - destruct (password d) as [|c r] eqn:E; cbn [truthy when].
      + by rewrite app_nil_r, splitFirst_None.
      + by rewrite splitFirst_app.
    - apply not_elem_of_app. split; [|done]. by apply Hrest. }
  assert (truthy (mysql_text d) = true) as ->.
  { unfold mysql_text. by destruct (user d). }
  rewrite Hcred.
  assert (Hparams : ∀ a, "?"%char ∉ a →
    match splitFirst "?" (a ++ params_suffix (params d)) with
    | Some (rest, ps) => (rest, ps) | None => (a ++ params_suffix (params d), []) end
    = (a, params d)).
  { intros a Hna. unfold params_suffix. destruct (params d) as [|c r]; cbn [truthy when].
    - by rewrite app_nil_r, splitFirst_None.
    - change (js "?" ++ c :: r) with (("?")%char :: c :: r). by rewrite splitFirst_app. }
  rewrite Hparams.
  2: by apply Hrest.
  rewrite splitFirst_app by (by apply Hsep).
  unfold mysql_address. rewrite strip_parens_tcp.
  assert (truthy (host d ++ (":")%char :: port d) = true) as -> by (by destruct (host d)).
  rewrite splitLast_app by done. rewrite !str_or_id by done. by destruct d.
Qed.

Lemma mysql_roundtrip_witness :
  let d := {| user := "renop"; password := "p:w@d/?"; host := "db.local"; port := "3307";
              database := "packages"; params := "loc=Local" |} in
  parseMysqlDsn (Some (formatMysqlDsn d)) = d.
Proof.
  apply mysql_roundtrip. unfold mysql_ok. cbn [user password host port database params].
  apply (bool_decide_unpack _). vm_compute. exact I.
Defined.

(** ** URLs round-trip *)

Lemma component_char_no_space c : component_char c = true → is_space c = false.
Proof. by_all_chars c. Qed.
Lemma host_char_no_space c : host_char c = true → is_space c = false ∧ c ≠ ":"%char.
Proof. by_all_chars c. Qed.
Lemma query_char_no_space c : query_char c = true → is_space c = false ∧ c ≠ "?"%char.
Proof. by_all_chars c. Qed.
Lemma digit_no_space c : is_digit c = true → is_space c = false.
Proof. by_all_chars c. Qed.

Lemma encode_component s : Forall (λ c, component_char c = true) (encodeURIComponent s).
Proof.
  eapply Forall_impl; [apply encodeURIComponent_clean|]. unfold component_char.
  intros c [->| ->]; [done|by rewrite orb_true_r].
Qed.

Lemma trimmed_chars (f : ascii → bool) s :
  (∀ c, f c = true → is_space c = false) → Forall (λ c, f c = true) s → trimmed s.
Proof. intros Hf H. apply trimmed_no_space. eapply Forall_impl; eauto. Qed.

(** The fields a URL carries back; the port is a port number, the database is not a dot segment. *)
Definition url_ok (d : dsn) : Prop :=
  user d ≠ [] ∧ trimmed (user d) ∧ host d ≠ [] ∧ Forall (λ c, host_char c = true) (host d) ∧
  port_ok (port d) = true ∧ database d ≠ [] ∧ trimmed (database d) ∧
  database d ≠ js "." ∧ database d ≠ js ".." ∧ Forall (λ c, query_char c = true) (params d).

Lemma port_ok_digits p : port_ok p = true → p ≠ [] ∧ Forall (λ c, is_digit c = true) p.
Proof.
  unfold port_ok. intros H. bool_prop. split; [by apply truthy_true|].
  rewrite Forall_forall. by apply forallb_elem.
Qed.

Lemma format_url_ok scheme defaults d :
  url_ok d →
  format_url scheme defaults d =
  scheme ++ js "://" ++ authority (encodeURIComponent (user d)) (encodeURIComponent (password d)) (host d) (port d)
    ++ js "/" ++ encodeURIComponent (database d) ++ params_suffix (params d).
Proof.
  intros (U1 & U2 & H1 & H2 & P1 & D1 & D2 & _ & _ & Q). apply port_ok_digits in P1 as [P1 P2].
  assert (trimmed (host d)) by (eapply trimmed_chars; [|done]; intros; by apply host_char_no_space).
  assert (trimmed (port d)) by (eapply trimmed_chars; [|done]; apply digit_no_space).
  assert (trimmed (params d)) by (eapply trimmed_chars; [|done]; intros; by apply query_char_no_space).
  unfold format_url, formatURLHost, port_suffix. cbv zeta.
  rewrite !(str_or_id (user d)), !(str_or_id (host d)), !(str_or_id (port d)), !(str_or_id (database d)) by done.
  rewrite !trim_id by done. rewrite !(str_or_id (host d)) by done.
  rewrite (proj2 (truthy_true (port d)) P1).
  assert (includes (host d) ":" = false) as ->.
  { apply not_true_iff_false. intros (k1 & k2 & E)%includes_spec. rewrite Forall_forall in H2.
    destruct (host_char_no_space ":") as [_ Hne]; [|done]. apply H2. rewrite E.
    change (js ":" ++ k2) with ((":")%char :: k2). rewrite elem_of_app. right. left. }
  assert (drop_question (params d) = params d) as ->.
  { destruct (params d) as [|c r]; [done|]. simpl. inversion_clear Q as [|? ? Hc _].
    apply query_char_no_space in Hc as [_ Hc]. by destruct (ascii_eqb_spec c "?"). }
  cbn [andb when]. unfold authority. f_equal. f_equal.
  destruct (password d) as [|c r] eqn:E.
  - cbn [truthy when]. rewrite <- !app_assoc. reflexivity.
  - assert (truthy (encodeURIComponent (c :: r)) = true) as ->.
    { apply truthy_true. by rewrite encodeURIComponent_nil. }
    cbn [truthy when]. rewrite <- !app_assoc. reflexivity.
Qed.

Lemma url_text_trimmed a m d :
  trimmed a → a ≠ [] → database d ≠ [] → Forall (λ c, query_char c = true) (params d) →
  trimmed (a ++ m ++ encodeURIComponent (database d) ++ params_suffix (params d)).
Proof.
  intros Ha Hne Hd Hq.
  assert (encodeURIComponent (database d) ≠ []) by (by rewrite encodeURIComponent_nil).
  unfold params_suffix. destruct (params d) as [|c r] eqn:E; cbn [truthy when].
  - rewrite app_nil_r. apply trimmed_app; try done.
    eapply trimmed_chars; [apply component_char_no_space | apply encode_component].
  - change (js "?" ++ c :: r) with ([("?")%char] ++ c :: r).
    rewrite (app_assoc m), (app_assoc (m ++ _)). apply trimmed_app; try done.
    eapply trimmed_chars; [|done]. intros; by apply query_char_no_space.
Qed.

Lemma url_fields_ok defaults dp d :
  url_ok d → (params d ≠ [] ∨ dp = []) →
  url_fields defaults dp
    {| username := encodeURIComponent (user d); url_password := encodeURIComponent (password d);
       hostname := host d; url_port := port d; pathname := js "/" ++ encodeURIComponent (database d);
       search := params_suffix (params d) |} = Parsed d.
Proof.
  intros (U1 & _ & H1 & _ & P1 & D1 & _ & _ & _ & _) Hp. apply port_ok_digits in P1 as [P1 _].
  unfold url_fields. cbn [username url_password pathname hostname url_port search].
  change (drop_slash (js "/" ++ encodeURIComponent (database d))) with (encodeURIComponent (database d)).
  rewrite !decode_encodeURIComponent. rewrite !str_or_id by done.
  assert (str_or (drop 1 (params_suffix (params d))) dp = params d) as ->.
  { unfold params_suffix. destruct (params d) as [|c r]; [|done]. cbn. by destruct Hp as [?| ->]. }
  by destruct d.
Qed.

(** The encoder writes a dot segment for a dot segment only. *)
Lemma encoded_dots s : encodeURIComponent s ∈ dot_segments → s = js "." ∨ s = js "..".
Proof.
  intros Hs. assert (Hf : forallb (λ e, match decodeURIComponent e with
      | Decoded s => eqs s "." || eqs s ".." || negb (eqs (encodeURIComponent s) e) | _ => true end) dot_segments = true) by (by vm_compute).
  pose proof (proj1 (forallb_elem _ _) Hf _ Hs) as H. cbn beta in H. rewrite decode_encodeURIComponent, eqs_refl in H.
  apply orb_true_iff in H as [H|H]; [|done]. apply orb_true_iff in H as [H|H]; apply eqs_true in H; auto.
Qed.

(** C37: the connection URLs round-trip. For a URL parser that gives back plain parts as the standard says ([URLParser]), parsing the PostgreSQL
    or ClickHouse URL the form writes gives back every field, with any password and any user and database name (not
    empty, without surrounding white space) percent-encoded on the way, as long as the host is a plain name, the port a port number, the
    database not a dot segment and the parameters plain (for PostgreSQL not empty, since
    the default parameters stand for none). *)
Theorem url_roundtrip `{URLParser} d :
  url_ok d →
  (params d ≠ [] → parsePostgresDsn (Some (formatPostgresDsn d)) = Parsed d) ∧
  parseClickHouseDsn (Some (formatClickHouseDsn d)) = Parsed d.
Proof.
  intros Hok. pose proof Hok as (U1 & U2 & H1 & H2 & P1 & D1 & D2 & D3 & D4 & Q).
  assert (Hurl : ∀ scheme, scheme ∈ [js "postgres"; js "clickhouse"] →
    new_URL (scheme ++ js "://" ++ authority (encodeURIComponent (user d)) (encodeURIComponent (password d))
        (host d) (port d) ++ js "/" ++ encodeURIComponent (database d) ++ params_suffix (params d)) =
    Some {| username := encodeURIComponent (user d); url_password := encodeURIComponent (password d);
       hostname := host d; url_port := port d; pathname := js "/" ++ encodeURIComponent (database d);
       search := params_suffix (params d) |}).
  { intros scheme Hs. apply new_URL_parts; try done; try apply encode_component.
    - by rewrite encodeURIComponent_nil.
    - by intros [E|E]%encoded_dots. }
  assert (Htr : ∀ scheme, trimmed scheme → scheme ≠ [] →
    trimmed (scheme ++ js "://" ++ authority (encodeURIComponent (user d)) (encodeURIComponent (password d))
        (host d) (port d) ++ js "/" ++ encodeURIComponent (database d) ++ params_suffix (params d))).
  { intros scheme Hs Hne. rewrite (app_assoc (js "://")), (app_assoc (js "://" ++ _)).
    by apply url_text_trimmed. }
  split.
  - intros Hp. unfold parsePostgresDsn, formatPostgresDsn. rewrite format_url_ok by done. cbv zeta.
    rewrite trim_id by (apply Htr; [apply (bool_decide_unpack _); by vm_compute|done]).
    match goal with |- context [truthy (?a ++ ?b)] => assert (truthy (a ++ b) = true) as -> by done end.
    match goal with |- context [startsWith (?a ++ js "://" ++ ?b) (js "postgres://")] =>
      assert (startsWith (a ++ js "://" ++ b) (js "postgres://") = true) as -> by reflexivity end.
    cbn [orb]. rewrite Hurl by set_solver. apply url_fields_ok; auto.
  - unfold parseClickHouseDsn, formatClickHouseDsn. rewrite format_url_ok by done.
    rewrite trim_id by (apply Htr; [apply (bool_decide_unpack _); by vm_compute|done]).
    match goal with |- context [startsWith (?a ++ js "://" ++ ?b) (js "clickhouse://")] =>
      assert (startsWith (a ++ js "://" ++ b) (js "clickhouse://") = true) as -> by reflexivity end.
    rewrite Hurl by set_solver. apply url_fields_ok; auto.
Qed.

(** ** A parser that obeys the law *)

Definition split_or (c : ascii) (s : jsstring) : jsstring * jsstring := default (s, []) (splitFirst c s).

Definition simple_URL (s : jsstring) : option url :=
  match indexOf s "://" with
  | None => None
  | Some i =>
      match splitFirst "@" (drop (i + 3) s) with
      | None => None
      | Some (cred, r1) =>
          let '(u, pw) := split_or ":" cred in
          let '(h, r2) := split_or ":" r1 in
          let '(port, r3) := split_or "/" r2 in
          let '(d, q) := split_or "?" r3 in
          Some {| username := u; url_password := pw; hostname := h; url_port := port;
                  pathname := js "/" ++ (if existsb (eqs d) dot_segments then [] else d); search := params_suffix q |}
      end
  end.

Lemma split_or_app c a b : c ∉ a → split_or c (a ++ c :: b) = (a, b).
Proof. intros. unfold split_or. by rewrite splitFirst_app. Qed.

Lemma split_or_None c a : c ∉ a → split_or c a = (a, []).
Proof. intros. unfold split_or. by rewrite splitFirst_None. Qed.

Lemma chars_exclude (f : ascii → bool) c s : f c = false → Forall (λ c, f c = true) s → c ∉ s.
Proof. intros Hf H Hin. rewrite Forall_forall in H. specialize (H c Hin). congruence. Qed.

Lemma simple_URL_parts scheme u pw h port d q :
  scheme ∈ [js "postgres"; js "clickhouse"] →
  Forall (λ c, component_char c = true) u → Forall (λ c, component_char c = true) pw →
  Forall (λ c, host_char c = true) h → Forall (λ c, is_digit c = true) port →
  Forall (λ c, component_char c = true) d → d ∉ dot_segments →
  simple_URL (scheme ++ js "://" ++ authority u pw h port ++ js "/" ++ d ++ params_suffix q) =
  Some {| username := u; url_password := pw; hostname := h; url_port := port;
          pathname := js "/" ++ d; search := params_suffix q |}.
Proof.
  intros Hs Hu Hpw Hh Hp Hd Hdot.
  assert (Hseg : existsb (eqs d) dot_segments = false).
  { apply not_true_iff_false. rewrite existsb_elem. by intros (e & He & <-%eqs_true). }
  set (rest := authority u pw h port ++ js "/" ++ d ++ params_suffix q).
  assert (Hdrop : ∃ i, indexOf (scheme ++ js "://" ++ rest) (js "://") = Some i ∧
                       drop (i + 3) (scheme ++ js "://" ++ rest) = rest).
  { apply elem_of_cons in Hs as [->|Hs%list_elem_of_singleton]; [exists 8; by split|].
    subst scheme. exists 10. by split. }
  destruct Hdrop as (i & Hi & Hdrop). unfold simple_URL. rewrite Hi, Hdrop. clear Hi Hdrop.
  assert (Hcred : splitFirst "@" rest =
    Some (u ++ when (truthy pw) ((":")%char :: pw),
          h ++ (":")%char :: port ++ ("/")%char :: d ++ params_suffix q)).
  { unfold rest, authority.
    rewrite <- (splitFirst_app "@" (u ++ when (truthy pw) ((":")%char :: pw))).
    - f_equal. rewrite <- !app_assoc. reflexivity.
    - apply not_elem_of_app. split; [by eapply (chars_exclude component_char)|].
      unfold when. case_match; [|apply not_elem_of_nil]. apply not_elem_of_cons.
      split; [done|by eapply (chars_exclude component_char)]. }
  rewrite Hcred.
  assert (split_or ":" (u ++ when (truthy pw) ((":")%char :: pw)) = (u, pw)) as ->.
  { destruct pw as [|c r]; cbn [truthy when].
    - rewrite app_nil_r. apply split_or_None. by eapply (chars_exclude component_char).
    - apply split_or_app. by eapply (chars_exclude component_char). }
  rewrite split_or_app by (by eapply (chars_exclude host_char)).
  rewrite split_or_app by (by eapply (chars_exclude is_digit)).
  unfold params_suffix at 1. destruct q as [|c r]; cbn [truthy when].
  - rewrite app_nil_r, split_or_None by (by eapply (chars_exclude component_char)). by rewrite Hseg.
  - change (js "?" ++ c :: r) with (("?")%char :: c :: r).
    rewrite split_or_app by (by eapply (chars_exclude component_char)). by rewrite Hseg.
Qed.

#[local] Instance simple_parser : URLParser.
Proof.
  refine {| new_URL := simple_URL |}. intros. apply simple_URL_parts; try done.
  by apply port_ok_digits.
Defined.

Lemma url_roundtrip_witness :
  let d := {| user := "ren@op"; password := "p:w/?"; host := "db.local"; port := "5433";
              database := "packages/1"; params := "sslmode=require" |} in
  (params d ≠ [] → parsePostgresDsn (Some (formatPostgresDsn d)) = Parsed d) ∧
  parseClickHouseDsn (Some (formatClickHouseDsn d)) = Parsed d.
Proof.
  apply (@url_roundtrip simple_parser). unfold url_ok. cbn [user host port database params].
  apply (bool_decide_unpack _). vm_compute. exact I.
Defined.
