(* ===== verification/PasswordStrength.v ===== *)
(** * Password strength

    [internal/service/frontend/renop-html/js/password-strength.js]: the length check, the
    strength level of a password, the warnings before a weak one is accepted, and the
    meter that follows an input field with its delayed hiding. *)

From S2P Require Import Prelude JsText JsValue.

Definition MIN_PASSWORD_LENGTH : nat := 6.
Definition MAX_PASSWORD_LENGTH : nat := 72.

Section strength.
(** The texts of the interface; a text that is not a string cannot come from these keys. *)
Variable t : jsstring → list (jsstring * jsval) → jsstring.

Definition number_param (k : string) (n : nat) : list (jsstring * jsval) :=
  [(js k, JNum (Int (Z.of_nat n)))].

Definition getPasswordLengthError (password : jsstring) : option jsstring :=
  if negb (truthy password) then Some (t "strength.enterPassword" [])
  else if length password <? MIN_PASSWORD_LENGTH then
    Some (t "strength.minCharError" (number_param "min" MIN_PASSWORD_LENGTH))
  else if MAX_PASSWORD_LENGTH <? length password then
    Some (t "strength.maxCharError" (number_param "max" MAX_PASSWORD_LENGTH))
  else None.

(** [/^(.)\1+$/]: one character, not a line break, repeated. *)
Definition is_line_break (c : ascii) : bool := (code c =? 10)%N || (code c =? 13)%N.
Definition repeated (s : jsstring) : bool :=
  match s with
  | c :: (_ :: _) as r => negb (is_line_break c) && forallb (ascii_eqb c) r
  | _ => false
  end.

Definition common_starts : list jsstring :=
  js <$> ["0123"; "1234"; "2345"; "3456"; "4567"; "5678"; "6789"; "7890"; "abcd"; "qwer"; "asdf";
          "password"; "admin"; "letmein"]%stdpp.

Definition starts_common (s : jsstring) : bool := existsb (startsWith (toLowerCase s)) common_starts.

Definition bit (b : bool) : Z := if b then 1 else 0.

Definition base_score (s : jsstring) : Z :=
  let len := length s in
  bit (6 <=? len) + bit (8 <=? len) + bit (12 <=? len) + bit (16 <=? len)
  + bit (existsb is_lower s) + bit (existsb is_upper s) + bit (existsb is_digit s)
  + bit (existsb (λ c, negb (is_alnum c)) s).

Definition final_score (s : jsstring) : Z :=
  let score := base_score s in
  let score := if repeated s then Z.min score 1 else score in
  let score := if starts_common s then Z.max 0 (score - 2) else score in
  let score := if forallb is_alpha s && (length s <? 12) then Z.max 0 (score - 1) else score in
  if forallb is_digit s then Z.min score 2 else score.

Definition score_level (score : Z) : Z :=
  if (score <=? 2)%Z then 1 else if (score <=? 4)%Z then 2 else if (score <=? 6)%Z then 3 else 4.

Definition password_level (s : jsstring) : Z :=
  let level := score_level (final_score s) in
  if length s <? MIN_PASSWORD_LENGTH then 1
  else if (length s <? 8) && (2 <? level)%Z then 2 else level.

Record strength := { level : Z; label : jsstring; hint : jsstring }.

Definition evaluatePasswordStrength (password : jsstring) : strength :=
  if negb (truthy password) then {| level := 0; label := []; hint := [] |}
  else
    let len := length password in
    let level := password_level password in
    {| level := level;
       label := t (js "strength.level" ++ str_of_Z level) [];
       hint :=
         if (0 <? len) && (len <? MIN_PASSWORD_LENGTH) then
           t "strength.minChars" (number_param "min" MIN_PASSWORD_LENGTH)
         else if MAX_PASSWORD_LENGTH <? len then
           t "strength.maxChars" (number_param "max" MAX_PASSWORD_LENGTH)
         else t (js "strength.hint" ++ str_of_Z level) [] |}.

Record warning := { w_title : jsstring; w_message : jsstring }.

Definition warnings : list warning :=
  [ {| w_title := t "strength.warnTitle1" []; w_message := t "strength.warnMsg1" [] |};
    {| w_title := t "strength.warnTitle2" []; w_message := t "strength.warnMsg2" [] |};
    {| w_title := t "strength.warnTitle3" []; w_message := t "strength.warnMsg3" [] |} ].

(** The dialogs shown and whether the user may proceed; [showConfirm] is the user's answer to
    the n-th dialog. *)
Fixpoint ask (showConfirm : nat → bool) (n : nat) (ws : list warning) : list warning * bool :=
  match ws with
  | [] => ([], true)
  | w :: ws =>
      if showConfirm n then
        let '(shown, ok) := ask showConfirm (S n) ws in (w :: shown, ok)
      else ([w], false)
  end.

Definition confirmWeakPasswordIfNeeded (showConfirm : nat → bool) (password : jsstring) :
    list warning * bool :=
  if (2 <=? level (evaluatePasswordStrength password))%Z then ([], true)
  else ask showConfirm 0 warnings.

(** ** The meter *)

Record meter := {
  hidden : bool; data_level : Z; label_text : jsstring; hint_text : jsstring;
  class_leaving : bool; class_animate : bool; class_level_change : bool;
  prevLevel : Z; hideTimer : bool; isLeaving : bool
}.

(** The controller when the meter is inserted. *)
Definition attachPasswordStrength : meter :=
  {| hidden := true; data_level := 0; label_text := []; hint_text := []; class_leaving := false;
     class_animate := false; class_level_change := false; prevLevel := 0; hideTimer := false;
     isLeaving := false |}.

Definition finishHide (m : meter) : meter :=
  {| hidden := true; data_level := 0; label_text := []; hint_text := []; class_leaving := false;
     class_animate := false; class_level_change := false; prevLevel := prevLevel m;
     hideTimer := false; isLeaving := false |}.

Definition showMeter (m : meter) : meter :=
  {| hidden := false; data_level := data_level m; label_text := label_text m; hint_text := hint_text m;
     class_leaving := false;
     class_animate := if hidden m || isLeaving m then true else class_animate m;
     class_level_change := class_level_change m; prevLevel := prevLevel m;
     hideTimer := false; isLeaving := false |}.

Definition hideMeter (animated prefersReducedMotion : bool) (m : meter) : meter :=
  if hidden m && negb (isLeaving m) then m
  else if negb animated || prefersReducedMotion then finishHide m
  else if isLeaving m then m
  else {| hidden := hidden m; data_level := data_level m; label_text := label_text m;
          hint_text := hint_text m; class_leaving := true; class_animate := false;
          class_level_change := false; prevLevel := prevLevel m; hideTimer := true;
          isLeaving := true |}.

Definition set_level_change (m : meter) : meter :=
  {| hidden := hidden m; data_level := data_level m; label_text := label_text m;
     hint_text := hint_text m; class_leaving := class_leaving m; class_animate := class_animate m;
     class_level_change := true; prevLevel := prevLevel m; hideTimer := hideTimer m;
     isLeaving := isLeaving m |}.

Definition set_shown (r : strength) (m : meter) : meter :=
  {| hidden := hidden m; data_level := level r; label_text := label r; hint_text := hint r;
     class_leaving := class_leaving m; class_animate := class_animate m;
     class_level_change := class_level_change m; prevLevel := prevLevel m;
     hideTimer := hideTimer m; isLeaving := isLeaving m |}.

Definition set_prevLevel (l : Z) (m : meter) : meter :=
  {| hidden := hidden m; data_level := data_level m; label_text := label_text m;
     hint_text := hint_text m; class_leaving := class_leaving m; class_animate := class_animate m;
     class_level_change := class_level_change m; prevLevel := l; hideTimer := hideTimer m;
     isLeaving := isLeaving m |}.

Definition update (reduced : bool) (value : jsstring) (m : meter) : meter :=
  let result := evaluatePasswordStrength value in
  let m' :=
    if (0 <? level result)%Z then
      let m := showMeter (set_shown result m) in
      if negb (level result =? prevLevel m)%Z then set_level_change m else m
    else hideMeter true reduced m in
  set_prevLevel (level result) m'.

Definition reset (reduced : bool) (m : meter) : meter := hideMeter true reduced (set_prevLevel 0 m).

(** What happens to the meter: the field changed to a value, the form was reset, or the
    pending timer fired; [reduced] is the preference for reduced motion at that time. *)
Inductive event := Update (reduced : bool) (value : jsstring) | Reset (reduced : bool) | Timer.

Definition exec (e : event) (m : meter) : option meter :=
  match e with
  | Update reduced value => Some (update reduced value m)
  | Reset reduced => Some (reset reduced m)
  | Timer => if hideTimer m then Some (finishHide m) else None
  end.

Fixpoint exec_all (es : list event) (m : meter) : option meter :=
  match es with
  | [] => Some m
  | e :: es => match exec e m with Some m' => exec_all es m' | None => None end
  end.

(** ** Levels *)

Definition classes (s : jsstring) : Z :=
  bit (existsb is_lower s) + bit (existsb is_upper s) + bit (existsb is_digit s)
  + bit (existsb (λ c, negb (is_alnum c)) s).

Lemma final_score_le s : (final_score s ≤ base_score s ∧ 0 ≤ final_score s)%Z.
Proof.
  assert (0 ≤ base_score s)%Z.
  { unfold base_score, bit. repeat case_match; lia. }
  unfold final_score. cbv zeta. repeat case_match; lia.
Qed.

Lemma level_bounds s : (1 ≤ password_level s ≤ 4)%Z.
Proof. unfold password_level, score_level. repeat case_match; lia. Qed.

Lemma level_zero s : level (evaluatePasswordStrength s) = 0%Z ↔ s = [].
Proof.
  unfold evaluatePasswordStrength. destruct (truthy s) eqn:Ht; cbn [negb level].
  - apply truthy_true in Ht. pose proof (level_bounds s). split; [lia|done].
  - by apply truthy_false in Ht as ->.
Qed.

Lemma level_range s : (0 ≤ level (evaluatePasswordStrength s) ≤ 4)%Z.
Proof.
  unfold evaluatePasswordStrength. case_match; simpl; [lia|]. pose proof (level_bounds s). lia.
Qed.

(** The strength level is 0 exactly for the empty password and otherwise between 1 and 4. Below
    the minimum length it is 1 and below eight characters at most 2; a password of digits only, or of one
    repeated character, is never above 1; the top level needs at least twelve characters of at
    least three kinds (four below sixteen characters). *)
Theorem password_levels s :
  (level (evaluatePasswordStrength s) = 0%Z ↔ s = []) ∧
  (0 ≤ level (evaluatePasswordStrength s) ≤ 4)%Z ∧
  (length s < MIN_PASSWORD_LENGTH → (level (evaluatePasswordStrength s) ≤ 1)%Z) ∧
  (length s < 8 → (level (evaluatePasswordStrength s) ≤ 2)%Z) ∧
  (forallb is_digit s = true ∨ repeated s = true → level (evaluatePasswordStrength s) ≤ 1)%Z ∧
  (level (evaluatePasswordStrength s) = 4%Z →
     12 ≤ length s ∧ (3 ≤ classes s)%Z ∧ (length s < 16 → classes s = 4%Z)).
Proof.
  split; [apply level_zero|]. split; [apply level_range|].
  unfold evaluatePasswordStrength. destruct (truthy s) eqn:Ht; cbn [negb level].
  2: { apply truthy_false in Ht as ->. simpl. split_and!; intros; try done; lia. }
  apply truthy_true in Ht. pose proof (level_bounds s) as Hb.
  pose proof (final_score_le s) as [Hle Hge]. split_and!.
  - intros Hl. unfold password_level. apply Nat.ltb_lt in Hl as ->. lia.
  - intros Hl. unfold password_level. cbv zeta. apply Nat.ltb_lt in Hl as ->.
    repeat case_match; bool_prop; lia.
  - intros Hw. assert (final_score s ≤ 2)%Z.
    { unfold final_score. cbv zeta. destruct Hw as [-> | ->]; repeat case_match; lia. }
    unfold password_level, score_level. repeat case_match; bool_prop; lia.
  - intros H4. assert (6 < final_score s)%Z.
    { unfold password_level, score_level in H4. repeat (case_match; bool_prop); lia. }
    assert (base_score s = bit (6 <=? length s)%nat + bit (8 <=? length s)%nat
      + bit (12 <=? length s)%nat + bit (16 <=? length s)%nat + classes s)%Z by (unfold base_score, classes; lia).
    assert (0 ≤ classes s ≤ 4)%Z by (unfold classes, bit; repeat case_match; lia).
    unfold bit in *. repeat (case_match; bool_prop); lia.
Qed.

Lemma ask_all showConfirm n ws :
  (ask showConfirm n ws).2 = true ↔ ∀ i, i < length ws → showConfirm (n + i) = true.
Proof.
  revert n. induction ws as [|w ws IH]; intros n; simpl; [split; [intros _ i Hi; lia|done]|].
  destruct (showConfirm n) eqn:E.
  - specialize (IH (S n)). destruct (ask showConfirm (S n) ws) as [shown ok]. simpl in *.
    rewrite IH. split.
    + intros H [|i] Hi; [by rewrite Nat.add_0_r|]. rewrite Nat.add_succ_r. apply (H i). lia.
    + intros H i Hi. specialize (H (S i)). rewrite Nat.add_succ_r in H. apply H. lia.
  - split; [done|]. intros H. specialize (H 0). rewrite Nat.add_0_r in H. rewrite E in H.
    apply H. lia.
Qed.

(** A password is accepted for its length exactly between 6 and 72 characters; and a password of a
    level below 2 is let through only when the user confirmed all three warnings, a stronger
    one without any. *)
Theorem weak_password_gate showConfirm s :
  (getPasswordLengthError s = None ↔ MIN_PASSWORD_LENGTH ≤ length s ≤ MAX_PASSWORD_LENGTH) ∧
  ((confirmWeakPasswordIfNeeded showConfirm s).2 = true ↔
     (2 ≤ level (evaluatePasswordStrength s))%Z ∨
     (showConfirm 0 = true ∧ showConfirm 1 = true ∧ showConfirm 2 = true)) ∧
  ((2 ≤ level (evaluatePasswordStrength s))%Z → (confirmWeakPasswordIfNeeded showConfirm s).1 = []).
Proof.
  split_and!.
  - unfold getPasswordLengthError, MIN_PASSWORD_LENGTH, MAX_PASSWORD_LENGTH. destruct s as [|c s].
    + simpl. split; [done|lia].
    + cbn [truthy negb]. repeat case_match; bool_prop; split; (done || lia).
  - unfold confirmWeakPasswordIfNeeded. destruct (2 <=? _)%Z eqn:E; bool_prop.
    + simpl. split; [by left|done].
    + rewrite ask_all. split.
      * intros H. right. split_and!; [apply (H 0)|apply (H 1)|apply (H 2)]; simpl; lia.
      * intros [?|(H0 & H1 & H2)]; [lia|]. intros [|[|[|i]]] Hi; try done. simpl in Hi. lia.
  - intros H. unfold confirmWeakPasswordIfNeeded. apply Z.leb_le in H as ->. done.
Qed.

(** ** The meter never hides a password that is being typed *)

Definition meter_inv (m : meter) : Prop :=
  isLeaving m = hideTimer m ∧ class_leaving m = isLeaving m ∧
  (hidden m = true → isLeaving m = false ∧ data_level m = 0%Z ∧ label_text m = [] ∧ hint_text m = []) ∧
  (hidden m = false → isLeaving m = false → (0 < prevLevel m)%Z ∧ data_level m = prevLevel m) ∧
  (isLeaving m = true → prevLevel m = 0%Z).

Lemma evaluate_nonneg s : (0 ≤ level (evaluatePasswordStrength s))%Z.
Proof. apply level_range. Qed.

Lemma meter_exec_inv e m m' : meter_inv m → exec e m = Some m' → meter_inv m'.
Proof.
  intros (H1 & H2 & H3 & H4 & H5).
  destruct m as [h dl lt ht cl ca clc pl tm lv]; simpl in *. subst cl lv.
  destruct e as [reduced v|reduced|]; cbn [exec].
  - intros [= <-]. unfold update. pose proof (evaluate_nonneg v).
    destruct (0 <? level (evaluatePasswordStrength v))%Z eqn:E; bool_prop.
    + cbv zeta. unfold meter_inv, showMeter, set_shown, set_level_change, set_prevLevel.
      case_match; simpl; split_and!; intros; done || lia.
    + assert (level (evaluatePasswordStrength v) = 0)%Z as -> by lia.
      unfold hideMeter, meter_inv. cbn.
      destruct h, tm, reduced; simpl in *; split_and!; intros; naive_solver.
  - intros [= <-]. unfold reset, hideMeter, meter_inv. cbn.
    destruct h, tm, reduced; simpl in *; split_and!; intros; naive_solver.
  - simpl. destruct tm; [|done]. intros [= <-]. unfold meter_inv. simpl.
    split_and!; intros; naive_solver.
Qed.

(** The meter follows the field. After any series of edits, resets and timers, the meter is
    shown in full with the level of the last value exactly when that level is positive; it is
    leaving exactly while its hiding timer is pending, only after the field was emptied or reset; and
    a hidden meter shows no level, label or hint. In particular a timer started when the field was
    emptied never hides the meter of a password typed afterwards. *)
Theorem meter_follows es m :
  exec_all es attachPasswordStrength = Some m →
  meter_inv m ∧
  (∀ reduced v, v ≠ [] → let m' := update reduced v m in
     hidden m' = false ∧ isLeaving m' = false ∧ exec Timer m' = None ∧
     data_level m' = level (evaluatePasswordStrength v) ∧
     label_text m' = label (evaluatePasswordStrength v)).
Proof.
  intros H. assert (Hi : meter_inv m).
  { assert (H0 : meter_inv attachPasswordStrength) by (by vm_compute; split_and!).
    revert H0 H. generalize attachPasswordStrength. induction es as [|e es IH]; intros m0 H0.
    - by intros [= <-].
    - cbn [exec_all]. destruct (exec e m0) eqn:E; [|done]. apply IH. by eapply meter_exec_inv. }
  split; [done|]. intros reduced v Hv. unfold update.
  pose proof (level_range v) as Hr.
  assert ((0 <? level (evaluatePasswordStrength v))%Z = true) as ->.
  { apply Z.ltb_lt. destruct (Z.eq_dec (level (evaluatePasswordStrength v)) 0) as [E|]; [|lia].
    by apply level_zero in E. }
  cbv zeta. by case_match.
Qed.
End strength.

Definition key_text (k : jsstring) (_ : list (jsstring * jsval)) : jsstring := k.

Lemma meter_follows_witness :
  ∃ m, exec_all key_text [Update false "abc"; Update false ""; Update false "Tr0ub4dor&3xyz"; Update false "";
                          Timer] attachPasswordStrength = Some m ∧
    hidden m = true ∧ meter_inv m.
Proof.
  eexists. split; [vm_compute; reflexivity|]. split; [reflexivity|].
  eapply (meter_follows key_text [Update false "abc"; Update false ""; Update false "Tr0ub4dor&3xyz";
                                  Update false ""; Timer]).
  vm_compute; reflexivity.
Defined.
