(* ===== verification/I18nCatalog.v ===== *)
(** * The catalog of translations

    [internal/service/frontend/renop-html/scripts/i18n-catalog.mjs]: the validation of
    every locale against the English one (fragments, keys, placeholders, the keys the
    sources name) and the generation of the catalog modules. Directories and the
    modules they hold are values; node's path functions are parameters. *)

From stdpp Require Import sorting.
From S2P Require Import Prelude JsText JsValue.

(** ** Names *)

Definition quote : ascii := ascii_of_N 34.
Definition newline : jsstring := [ascii_of_N 10].
Definition blank : jsstring := [].

#[local] Arguments cons {A} & _ _.

Definition is_word (c : ascii) : bool := is_alnum c || ascii_eqb c "_".

(** [/^[A-Za-z]{2,3}(?:-[A-Za-z0-9]{2,8})+$/] *)
Definition localePattern (s : jsstring) : bool :=
  match split "-" s with
  | first :: (_ :: _) as rest =>
      (2 <=? length first) && (length first <=? 3) && forallb is_alpha first
      && forallb (λ p, (2 <=? length p) && (length p <=? 8) && forallb is_alnum p) rest
  | _ => false
  end.

Definition is_fragment_char (c : ascii) : bool := is_lower c || is_digit c || ascii_eqb c "-".

(** [/^[a-z][a-z0-9-]*\.js$/] *)
Definition fragmentPattern (s : jsstring) : bool :=
  endsWith s ".js" &&
  match take (length s - 3) s with
  | c :: r => is_lower c && forallb is_fragment_char r
  | [] => false
  end.

(** [/^catalog\.<locale>\.generated\.js$/] *)
Definition generatedLocaleCatalogPattern (s : jsstring) : bool :=
  startsWith s "catalog." && endsWith s ".generated.js" && (21 <=? length s)
  && localePattern (take (length s - 21) (drop 8 s)).

Definition ignoredSourceDirectories : list jsstring := js <$> ["i18n"; "proto"]%stdpp.

Definition elem (k : jsstring) (l : list jsstring) : bool := existsb (eqs k) l.

(** [Array.prototype.sort] without a comparator. *)
Definition str_le (s k : jsstring) : Prop := str_leb s k = true.
Global Instance str_le_dec s k : Decision (str_le s k).
Proof. unfold str_le. apply _. Defined.
Definition sort (l : list jsstring) : list jsstring := merge_sort str_le l.

Definition msg (l : list jsstring) : jsstring := mjoin l.
Definition comma (l : list jsstring) : jsstring := join ", " l.

(** ** Directories *)

(** An entry of a locale directory: its name, whether it is a file, and what importing it
    gives as the module's default export. *)
Record fragment_entry := {
  fe_name : jsstring; fe_file : bool; fe_export : result jsstring jsval
}.

Inductive dir_entry :=
  | EFile (name : jsstring)
  | EDir (name : jsstring) (children : list fragment_entry)
  | EOther (name : jsstring).

Definition entry_name (e : dir_entry) : jsstring :=
  match e with EFile n | EDir n _ | EOther n => n end.

Fixpoint check_fragments (locale : jsstring) (entries : list fragment_entry) :
    result jsstring (list jsstring) :=
  match entries with
  | [] => Ok []
  | e :: entries =>
      if negb (fe_file e) || negb (fragmentPattern (fe_name e)) then
        Throw (msg ["invalid i18n fragment in "; locale; ": "; fe_name e])
      else let! names := check_fragments locale entries in Ok (fe_name e :: names)
  end.

Definition listLocaleFragments (locale : jsstring) (entries : list fragment_entry) :
    result jsstring (list jsstring) :=
  let! names := check_fragments locale entries in Ok (sort names).

(** A loaded fragment; its keys are those of its translations. *)
Record descriptor := {
  locale : jsstring; fragment : jsstring; translations : list (jsstring * jsstring)
}.
Definition keys (d : descriptor) : list jsstring := (translations d).*1.

Fixpoint check_entries (locale fragment : jsstring) (entries : list (jsstring * jsval)) :
    result jsstring (list (jsstring * jsstring)) :=
  match entries with
  | [] => Ok []
  | (key, value) :: entries =>
      match value with
      | JStr text =>
          if truthy key then
            let! rest := check_entries locale fragment entries in Ok ((key, text) :: rest)
          else Throw (msg ["invalid i18n entry in "; locale; "/"; fragment; ": <empty key>"])
      | _ => Throw (msg ["invalid i18n entry in "; locale; "/"; fragment; ": "; str_or key "<empty key>"])
      end
  end.

Definition loadLocaleFragment (locale fragment : jsstring) (module : result jsstring jsval) :
    result jsstring descriptor :=
  let! export := module in
  match export with
  | JObj entries =>
      let! translations := check_entries locale fragment entries in
      Ok {| locale := locale; fragment := fragment; translations := translations |}
  | _ => Throw (msg ["i18n fragment must default-export an object: "; locale; "/"; fragment])
  end.

(** ** Sets and placeholders *)

Definition set_add (k : jsstring) (l : list jsstring) : list jsstring :=
  if elem k l then l else l ++ [k].

Fixpoint span {A} (f : A → bool) (s : list A) : list A * list A :=
  match s with
  | [] => ([], [])
  | c :: r => if f c then let '(a, b) := span f r in (c :: a, b) else ([], s)
  end.

(** The names that [/\{([A-Za-z0-9_]+)\}/g] captures, in order. [skip] counts the characters of
    the last match still to pass. *)
Fixpoint placeholder_names (skip : nat) (s : jsstring) : list jsstring :=
  match s with
  | [] => []
  | c :: r =>
      match skip with
      | S n => placeholder_names n r
      | O =>
          if ascii_eqb c "{" then
            let '(name, rest) := span is_word r in
            match rest with
            | d :: _ =>
                if truthy name && ascii_eqb d "}" then
                  name :: placeholder_names (length name + 1) r
                else placeholder_names 0 r
            | [] => placeholder_names 0 r
            end
          else placeholder_names 0 r
      end
  end.

Definition placeholders (value : jsstring) : list jsstring :=
  foldl (λ acc k, set_add k acc) [] (placeholder_names 0 value).

Definition equalSets (l k : list jsstring) : bool :=
  if negb (length l =? length k) then false else forallb (λ v, elem v k) l.

(** The keys of a locale, and an issue for each key that is already in it. *)
Fixpoint index_keys (locale fragment : jsstring) (ks combined issues : list jsstring) :
    list jsstring * list jsstring :=
  match ks with
  | [] => (combined, issues)
  | key :: ks =>
      if elem key combined then
        index_keys locale fragment ks combined
          (issues ++ [msg ["duplicate key in "; locale; ": "; key; " ("; fragment; ")"]])
      else index_keys locale fragment ks (combined ++ [key]) issues
  end.

Definition indexLocale (locale : jsstring) (fragments : list (jsstring * descriptor))
    (issues : list jsstring) : list jsstring * list jsstring :=
  foldl (λ acc f, index_keys locale f.1 (keys f.2) acc.1 acc.2) ([], issues) fragments.

(** ** The keys the sources name *)

(** A path of the source roots: what [statSync] finds there, with the entries of a directory. *)
Inductive tree :=
  | TFile (content : jsstring)
  | TDir (children : list (jsstring * bool * tree))   (* name, entry.isDirectory() *)
  | TOther
  | TMissing.

Definition is_key_char (c : ascii) : bool :=
  is_alnum c || ascii_eqb c "_" || ascii_eqb c "." || ascii_eqb c ":" || ascii_eqb c "-".
Definition is_quote (c : ascii) : bool := ascii_eqb c "'" || ascii_eqb c quote.

(** A key between two equal quotes: the key and how many characters the match takes. *)
Definition quoted_key (s : jsstring) : option (jsstring * nat) :=
  match s with
  | q :: r =>
      if is_quote q then
        let '(key, rest) := span is_key_char r in
        match rest with
        | e :: _ => if truthy key && ascii_eqb e q then Some (key, length key + 2) else None
        | [] => None
        end
      else None
  | [] => None
  end.

(** [\s*] and then [k]; the count includes the white space. *)
Definition after_space {A} (s : jsstring) (k : jsstring → option (A * nat)) : option (A * nat) :=
  let '(ws, rest) := span is_space s in
  match k rest with Some (a, n) => Some (a, length ws + n) | None => None end.

Definition literal {A} (p : jsstring) (s : jsstring) (k : jsstring → option (A * nat)) : option (A * nat) :=
  if startsWith s p then
    match k (drop (length p) s) with Some (a, n) => Some (a, length p + n) | None => None end
  else None.

(** [data-i18n(?:-(?:title|placeholder|aria-label))?] and then [k]. *)
Definition data_attribute {A} (s : jsstring) (k : jsstring → option (A * nat)) : option (A * nat) :=
  literal "data-i18n" s (λ s,
    match literal "-title" s k with
    | Some r => Some r
    | None =>
        match literal "-placeholder" s k with
        | Some r => Some r
        | None => match literal "-aria-label" s k with Some r => Some r | None => k s end
        end
    end).

(** A pattern at a position: [before] is the character before it. The result is the key
    and the length of the match. *)
Definition pattern := option ascii → jsstring → option (jsstring * nat).

Definition call_at (s : jsstring) : option (jsstring * nat) :=
  literal "t(" s (λ s, after_space s quoted_key).

Definition is_identifier_char (c : ascii) : bool := is_alnum c || ascii_eqb c "_" || ascii_eqb c "$".

Definition staticTranslationCallPattern : pattern := λ before s,
  match (match before with None => call_at s | Some _ => None end) with
  | Some r => Some r
  | None =>
      match s with
      | c :: r =>
          if is_identifier_char c then None
          else match call_at r with Some (key, n) => Some (key, S n) | None => None end
      | [] => None
      end
  end.

Definition declarativeTranslationPattern : pattern := λ before s,
  match before with
  | Some c => if is_word c then None
              else data_attribute s (λ s, after_space s (λ s, literal "=" s (λ s, after_space s quoted_key)))
  | None => data_attribute s (λ s, after_space s (λ s, literal "=" s (λ s, after_space s quoted_key)))
  end.

Definition declarativeTranslationObjectPattern : pattern := λ _ s,
  match s with
  | q :: r =>
      if is_quote q then
        match data_attribute r (λ s,
          match s with
          | e :: s =>
              if is_quote e then
                match after_space s (λ s, literal ":" s (λ s, after_space s quoted_key)) with
                | Some (key, n) => Some (key, S n)
                | None => None
                end
              else None
          | [] => None
          end) with
        | Some (key, n) => Some (key, S n)
        | None => None
        end
      else None
  | [] => None
  end.

Definition references := list (jsstring * list jsstring).

(** [references.get(key).add(location)], with a new set for a new key. *)
Definition add_reference (key location : jsstring) (refs : references) : references :=
  set_key refs key (set_add location (default [] (assoc refs key))).

(** The matches from left to right; [line] is the line of the present position. *)
Fixpoint index_matches (p : pattern) (file : jsstring) (before : option ascii) (line : nat)
    (skip : nat) (s : jsstring) (refs : references) : references :=
  match s with
  | [] => refs
  | c :: r =>
      let next := if (code c =? 10)%N then S line else line in
      match skip with
      | S n => index_matches p file (Some c) next n r refs
      | O =>
          match p before s with
          | Some (key, n) =>
              index_matches p file (Some c) next (n - 1) r
                (add_reference key (msg [file; ":"; str_of_nat line]) refs)
          | None => index_matches p file (Some c) next 0 r refs
          end
      end
  end.

Definition indexTranslationPattern (p : pattern) (source file : jsstring) (refs : references) : references :=
  index_matches p file None 1 0 source refs.

Section sources.
(** [join(dir, name)], and [relative(from, to)] with slashes. *)
Variable path_join : jsstring → jsstring → jsstring.
Variable relative : jsstring → jsstring → jsstring.

Fixpoint collectTranslationSources (path : jsstring) (t : tree) : list (jsstring * jsstring) :=
  match t with
  | TFile content => if endsWith path ".js" || endsWith path ".html" then [(path, content)] else []
  | TDir children =>
      (fix go (l : list (jsstring * bool * tree)) :=
         match l with
         | [] => []
         | (name, dir, sub) :: l =>
             if dir && elem name ignoredSourceDirectories then go l
             else collectTranslationSources (path_join path name) sub ++ go l
         end) children
  | TOther | TMissing => []
  end.

(** [[...new Set(paths)].sort()], each with its content. *)
Definition source_files (roots : list (jsstring * tree)) : list (jsstring * jsstring) :=
  let all := mjoin ((λ r, collectTranslationSources r.1 r.2) <$> roots) in
  let paths := sort (foldl (λ acc k, set_add k acc) [] all.*1) in
  (λ p, (p, default [] (assoc all p))) <$> paths.

Definition label_of (roots : list (jsstring * tree)) (path : jsstring) : jsstring :=
  match roots with
  | (root, _) :: _ => if truthy root then str_or (relative root path) path else path
  | [] => path
  end.

Definition source_references (roots : list (jsstring * tree)) : references :=
  foldl (λ refs f,
    let label := label_of roots f.1 in
    indexTranslationPattern declarativeTranslationObjectPattern f.2 label
      (indexTranslationPattern declarativeTranslationPattern f.2 label
        (indexTranslationPattern staticTranslationCallPattern f.2 label refs)))
    [] (source_files roots).

Definition missing_reference (referenceKeys : list jsstring) (r : jsstring * list jsstring) : list jsstring :=
  if elem r.1 referenceKeys then []
  else [msg ["missing English key referenced by source: "; r.1; " ("; comma (sort r.2); ")"]].

(** The issues added, and the number of referenced keys. *)
Definition validateTranslationReferences (roots : list (jsstring * tree)) (referenceKeys : list jsstring) :
    list jsstring * nat :=
  let refs := source_references roots in
  (mjoin (missing_reference referenceKeys <$> refs), length refs).

(** ** The scan *)

Record scan := {
  locales : list jsstring; referenceFragments : list jsstring;
  fragmentsByLocale : list (jsstring * list (jsstring * descriptor));
  keyCount : nat; referenceCount : nat
}.

Fixpoint list_locales (catalogName : jsstring) (entries : list dir_entry) :
    result jsstring (list (jsstring * list fragment_entry)) :=
  match entries with
  | [] => Ok []
  | e :: entries =>
      let invalid := Throw (msg ["invalid entry in i18n directory: "; entry_name e]) in
      match e with
      | EFile name =>
          if eqs name catalogName || generatedLocaleCatalogPattern name
          then list_locales catalogName entries else invalid
      | EDir name children =>
          if localePattern name then
            let! rest := list_locales catalogName entries in Ok ((name, children) :: rest)
          else invalid
      | EOther _ => invalid
      end
  end.

(** The fragments of each locale in turn. *)
Fixpoint list_fragments (dirs : list (jsstring * list fragment_entry)) (ls : list jsstring) :
    result jsstring (list (jsstring * list jsstring)) :=
  match ls with
  | [] => Ok []
  | l :: ls =>
      let! fragments := listLocaleFragments l (default [] (assoc dirs l)) in
      let! rest := list_fragments dirs ls in
      Ok ((l, fragments) :: rest)
  end.

Definition find_export (children : list fragment_entry) (name : jsstring) : result jsstring jsval :=
  match List.find (λ e, eqs (fe_name e) name) children with
  | Some e => fe_export e
  | None => Throw []
  end.

(** The load tasks, in the order they start. *)
Definition load_tasks (dirs : list (jsstring * list fragment_entry))
    (names : list (jsstring * list jsstring)) : list (result jsstring descriptor) :=
  mjoin ((λ n : jsstring * list jsstring,
    (λ f, loadLocaleFragment n.1 f (find_export (default [] (assoc dirs n.1)) f)) <$> n.2) <$> names).

(** [fragmentsByLocale.get(locale).set(fragment, descriptor)] for each loaded fragment. *)
Definition add_descriptor (m : list (jsstring * list (jsstring * descriptor))) (d : descriptor) :=
  set_key m (locale d) (set_key (default [] (assoc m (locale d))) (fragment d) d).

Definition group_fragments (ls : list jsstring) (loaded : list descriptor) :=
  foldl add_descriptor ((λ l, (l, [])) <$> ls) loaded.

Definition when_any (label : list jsstring) (l : list jsstring) : list jsstring :=
  match l with [] => [] | _ => [msg label ++ comma l] end.

Definition braced (l : list jsstring) : jsstring := msg ["{"; join "," (sort l); "}"].

(** A placeholder mismatch of one key present in both fragments. *)
Definition placeholder_mismatch (expected actual : descriptor) (key : jsstring) : list jsstring :=
  let e := placeholders (default [] (assoc (translations expected) key)) in
  let a := placeholders (default [] (assoc (translations actual) key)) in
  if equalSets e a then [] else [msg [key; " ("; braced e; " != "; braced a; ")"]].

Definition compare_fragment (l f : jsstring) (expected actual : descriptor) : list jsstring :=
  let missingKeys := List.filter (λ k, negb (elem k (keys actual))) (keys expected) in
  let shared := List.filter (λ k, elem k (keys actual)) (keys expected) in
  let mismatches := mjoin (placeholder_mismatch expected actual <$> shared) in
  let extraKeys := List.filter (λ k, negb (elem k (keys expected))) (keys actual) in
  when_any ["missing keys in "; l; "/"; f; ": "] (sort missingKeys)
  ++ when_any ["extra keys in "; l; "/"; f; ": "] (sort extraKeys)
  ++ when_any ["placeholder mismatches in "; l; "/"; f; ": "] (sort mismatches).

Definition compare_locale (referenceFragments : list jsstring)
    (referenceDescriptors : list (jsstring * descriptor)) (l : jsstring) (fragments : list jsstring)
    (descriptors : list (jsstring * descriptor)) : list jsstring :=
  when_any ["missing fragments in "; l; ": "] (List.filter (λ f, negb (elem f fragments)) referenceFragments)
  ++ when_any ["extra fragments in "; l; ": "] (List.filter (λ f, negb (elem f referenceFragments)) fragments)
  ++ (indexLocale l descriptors []).2
  ++ mjoin ((λ f, match assoc referenceDescriptors f, assoc descriptors f with
                  | Some expected, Some actual => compare_fragment l f expected actual
                  | _, _ => []
                  end) <$> referenceFragments).

Definition bullets (issues : list jsstring) : jsstring := join (newline ++ js "- ") issues.

(** [i18nDir]: the entries of the directory, [None] when it does not exist. [settled n] is the
    order in which [n] load tasks settle. *)
Definition scanI18nCatalog (dirName : jsstring) (i18nDir : option (list dir_entry)) (referenceLocale catalogName : jsstring)
    (roots : list (jsstring * tree)) (settled : nat → list nat) : result jsstring scan :=
  match i18nDir with
  | None => Throw (msg ["i18n directory not found: "; dirName])
  | Some entries =>
      let! dirs := list_locales catalogName entries in
      let ls := sort dirs.*1 in
      if negb (elem referenceLocale ls) then
        Throw (msg ["reference locale is missing: "; referenceLocale])
      else
        let! names := list_fragments dirs ls in
        let tasks := load_tasks dirs names in
        let! loaded := promise_all (λ i, default (Throw []) (tasks !! i)) (settled (length tasks)) (length tasks) in
        let byLocale := group_fragments ls loaded in
        let referenceFragments := default [] (assoc names referenceLocale) in
        if negb (elem "common.js" referenceFragments) then
          Throw (msg [referenceLocale; " must provide common.js"])
        else
          let referenceDescriptors := default [] (assoc byLocale referenceLocale) in
          let '(referenceKeys, issues) := indexLocale referenceLocale referenceDescriptors [] in
          match issues with
          | _ :: _ => Throw (msg ["invalid reference locale:"; newline; "- "; bullets issues])
          | [] =>
              let '(refIssues, referenceCount) := validateTranslationReferences roots referenceKeys in
              let issues := refIssues ++
                mjoin ((λ l, compare_locale referenceFragments referenceDescriptors l
                               (default [] (assoc names l)) (default [] (assoc byLocale l)))
                       <$> List.filter (λ l, negb (eqs l referenceLocale)) ls) in
              match issues with
              | _ :: _ =>
                  Throw (msg ["i18n validation failed with "; str_of_nat (length issues); " issue(s):";
                              newline; "- "; bullets issues])
              | [] => Ok {| locales := ls; referenceFragments := referenceFragments;
                            fragmentsByLocale := byLocale; keyCount := length referenceKeys;
                            referenceCount := referenceCount |}
              end
          end
  end.
End sources.

(** ** The generated modules *)

Definition localeImportIdentifier (l f : jsstring) : jsstring :=
  replaceAll "-" "_" (msg [l; "_"; take (length f - 3) f]).

Definition import_line (l f : jsstring) : jsstring :=
  msg ["import "; localeImportIdentifier l f; " from './"; l; "/"; f; "';"].

Definition lines (l : list jsstring) : jsstring := join newline l.

Definition renderLocaleCatalog (l : jsstring) (fragments : list jsstring) : jsstring :=
  lines ([
    js "/*";
    js " * Copyright (c) 2026 404Setup. All rights reserved.";
    js " *";
    js " * This Source Code Form is subject to the terms of the Mozilla Public License, v. 2.0. If a copy of the MPL was not distributed with this file, You can obtain one at https://mozilla.org/MPL/2.0/.";
    js " *";
    js " * This Source Code Form is " ++ [quote] ++ js "Incompatible With Secondary Licenses" ++ [quote] ++ js ", as defined by the Mozilla Public License, v. 2.0.";
    js " */";
    blank;
    js "/* This file is generated by build.mjs. Do not edit it directly. */";
    blank]
  ++ (import_line l <$> fragments)
  ++ [blank;
      msg ["export default Object.freeze(Object.assign({}, ";
           comma (localeImportIdentifier l <$> fragments); "));"];
      blank]).

Definition loader_line (l : jsstring) : jsstring :=
  msg ["    '"; l; "': () => import('./catalog."; l; ".generated.js').then((module) => module.default),"].

(** [JSON.stringify] of locale names, which need no escape. *)
Definition json_names (l : list jsstring) : jsstring :=
  msg ["["; join "," ((λ s, quote :: s ++ [quote]) <$> l); "]"].

Definition renderCatalog (ls fragments : list jsstring) (referenceLocale : jsstring) : jsstring :=
  lines ([
    js "/*";
    js " * Copyright (c) 2026 404Setup. All rights reserved.";
    js " *";
    js " * This Source Code Form is subject to the terms of the Mozilla Public License, v. 2.0. If a copy of the MPL was not distributed with this file, You can obtain one at https://mozilla.org/MPL/2.0/.";
    js " *";
    js " * If it is not possible or desirable to put the notice in a particular file, then You may include the notice in a location (such as a LICENSE file in a relevant directory) where a recipient would be likely to look for such a notice.";
    js " *";
    js " * This Source Code Form is " ++ [quote] ++ js "Incompatible With Secondary Licenses" ++ [quote] ++ js ", as defined by the Mozilla Public License, v. 2.0.";
    js " */";
    blank;
    js "/* This file is generated by build.mjs. Do not edit it directly. */";
    blank]
  ++ (import_line referenceLocale <$> fragments)
  ++ [blank;
      msg ["const defaultLocale = Object.freeze(Object.assign({}, ";
           comma (localeImportIdentifier referenceLocale <$> fragments); "));"];
      js "const localeLoaders = Object.freeze({"]
  ++ (loader_line <$> List.filter (λ l, negb (eqs l referenceLocale)) ls)
  ++ [js "});"; blank;
      msg ["export const availableLocales = Object.freeze("; json_names ls; ");"];
      msg ["const localePromises = new Map([['"; referenceLocale; "', Promise.resolve(defaultLocale)]]);"]]
  ++ [
    blank;
    js "/**";
    js " * Load one validated locale and coalesce concurrent requests.";
    js " * @param {string} locale - Canonical locale identifier.";
    js " * @returns {Promise<Readonly<Record<string, string>>>} Loaded translation dictionary.";
    js " */";
    js "export function loadLocale(locale) {";
    js "    const existing = localePromises.get(locale);";
    js "    if (existing) return existing;";
    js "    const loader = localeLoaders[locale];";
    js "    if (!loader) return Promise.reject(new Error(`unsupported locale: ${locale}`));";
    js "    const pending = loader().catch((error) => {";
    js "        localePromises.delete(locale);";
    js "        throw error;";
    js "    });";
    js "    localePromises.set(locale, pending);";
    js "    return pending;";
    js "}";
    blank;
    js "export default defaultLocale;";
    blank]).

(** ** Writing *)

(** The files the generator reads and writes, by name; the main catalog has its own name. *)
Definition files := list (jsstring * jsstring).

Definition write_if_changed (name content : jsstring) (fs : files) : files * list jsstring :=
  match assoc fs name with
  | Some old => if eqs old content then (fs, []) else (set_key fs name content, [name])
  | None => (set_key fs name content, [name])
  end.

Definition catalog_name (l : jsstring) : jsstring := msg ["catalog."; l; ".generated.js"].

(** The catalogs of the other locales in turn; the names written are in order. *)
Fixpoint write_locales (ls fragments : list jsstring) (fs : files) : files * list jsstring :=
  match ls with
  | [] => (fs, [])
  | l :: ls =>
      let '(fs, w) := write_if_changed (catalog_name l) (renderLocaleCatalog l fragments) fs in
      let '(fs, ws) := write_locales ls fragments fs in
      (fs, w ++ ws)
  end.

(** [generateI18nCatalog] after a successful scan: the files, the names written and the
    names removed. The main catalog lies in the same directory under [catalogFile]. *)
Definition generateI18nCatalog (s : scan) (referenceLocale catalogFile : jsstring) (fs : files) :
    files * list jsstring * list jsstring :=
  let generated := renderCatalog (locales s) (referenceFragments s) referenceLocale in
  let '(fs, w) := write_if_changed catalogFile generated fs in
  let others := List.filter (λ l, negb (eqs l referenceLocale)) (locales s) in
  let '(fs, ws) := write_locales others (referenceFragments s) fs in
  let expected := catalog_name <$> others in
  let stale n := generatedLocaleCatalogPattern n && negb (elem n expected) in
  (List.filter (λ f, negb (stale f.1)) fs, w ++ ws, List.filter stale fs.*1).

(** ** Sets *)

Lemma elem_true k l : elem k l = true ↔ k ∈ l.
Proof. unfold elem. rewrite existsb_elem. setoid_rewrite eqs_true. naive_solver. Qed.

Lemma elem_false k l : elem k l = false ↔ k ∉ l.
Proof. rewrite <- elem_true. by destruct (elem k l). Qed.

Lemma sort_elem k l : k ∈ sort l ↔ k ∈ l.
Proof. unfold sort. by rewrite merge_sort_Permutation. Qed.

Lemma set_add_elem x k l : x ∈ set_add k l ↔ x = k ∨ x ∈ l.
Proof.
  unfold set_add. destruct (elem k l) eqn:E.
  - apply elem_true in E. naive_solver.
  - rewrite elem_of_app, list_elem_of_singleton. tauto.
Qed.

Lemma set_add_NoDup k l : NoDup l → NoDup (set_add k l).
Proof.
  intros H. unfold set_add. destruct (elem k l) eqn:E; [done|]. apply elem_false in E.
  apply NoDup_app. split_and!; [done| |apply NoDup_singleton].
  by intros x Hx ->%list_elem_of_singleton.
Qed.

Lemma set_of_spec ks acc :
  NoDup acc → NoDup (foldl (λ acc k, set_add k acc) acc ks) ∧
  (∀ x, x ∈ foldl (λ acc k, set_add k acc) acc ks ↔ x ∈ acc ∨ x ∈ ks).
Proof.
  revert acc. induction ks as [|k ks IH]; intros acc Ha; cbn [foldl].
  - split; [done|]. intros x. rewrite elem_of_nil. tauto.
  - destruct (IH (set_add k acc)) as [H1 H2]; [by apply set_add_NoDup|].
    split; [done|]. intros x. rewrite H2, set_add_elem, elem_of_cons. tauto.
Qed.

Lemma placeholders_NoDup v : NoDup (placeholders v).
Proof. apply set_of_spec. apply NoDup_nil_2. Qed.

Lemma equalSets_spec l k :
  NoDup l → NoDup k → equalSets l k = true → ∀ x, x ∈ l ↔ x ∈ k.
Proof.
  unfold equalSets. intros Hl Hk H. destruct (length l =? length k) eqn:E; [|done]. cbn in H.
  bool_prop. rewrite forallb_elem in H.
  assert (l ≡ₚ k) as Hp; [|intros x; by rewrite Hp].
  apply submseteq_length_Permutation; [|lia].
  apply NoDup_submseteq; [done|]. intros x Hx. apply elem_true. by apply H.
Qed.

Lemma mjoin_nil {A B} (f : A → list B) l : mjoin (f <$> l) = [] → ∀ x, x ∈ l → f x = [].
Proof.
  induction l as [|y l IH]; csimpl; [by intros _ x ?%elem_of_nil|].
  intros [H1 H2]%app_eq_nil x [->|Hx]%elem_of_cons; auto.
Qed.

Lemma when_any_nil label l : when_any label l = [] → l = [].
Proof. by destruct l. Qed.

Lemma filter_nil (f : jsstring → bool) l : List.filter f l = [] → ∀ x, x ∈ l → f x = false.
Proof.
  intros H x Hx. apply not_true_iff_false. intros Hf.
  assert (Hin : x ∈ List.filter f l) by (by rewrite list_elem_of_In, filter_In, <- list_elem_of_In).
  rewrite H in Hin. by apply elem_of_nil in Hin.
Qed.

(** ** The index of a locale *)

Lemma index_keys_spec l f ks combined issues :
  NoDup combined → (index_keys l f ks combined issues).2 = [] →
  issues = [] ∧ (index_keys l f ks combined issues).1 = combined ++ ks ∧ NoDup (combined ++ ks).
Proof.
  revert combined issues. induction ks as [|k ks IH]; intros combined issues Hn; simpl.
  - intros ->. by rewrite app_nil_r.
  - destruct (elem k combined) eqn:E.
    + intros H. destruct (IH _ _ Hn H) as [Happ _]. by destruct issues.
    + apply elem_false in E. intros H.
      destruct (IH (combined ++ [k]) issues) as (H1 & H2 & H3); [|done|].
      * apply NoDup_app. split_and!; [done| |apply NoDup_singleton].
        by intros x Hx ->%list_elem_of_singleton.
      * rewrite H2. by rewrite <- !app_assoc in *.
Qed.

Lemma indexLocale_spec l fragments :
  (indexLocale l fragments []).2 = [] →
  (indexLocale l fragments []).1 = mjoin ((λ f, keys f.2) <$> fragments) ∧
  NoDup (mjoin ((λ f, keys f.2) <$> fragments)).
Proof.
  unfold indexLocale.
  assert (Hgen : ∀ c iss, NoDup c →
    (foldl (λ acc f, index_keys l f.1 (keys f.2) acc.1 acc.2) (c, iss) fragments).2 = [] →
    iss = [] ∧
    (foldl (λ acc f, index_keys l f.1 (keys f.2) acc.1 acc.2) (c, iss) fragments).1
      = c ++ mjoin ((λ f, keys f.2) <$> fragments) ∧
    NoDup (c ++ mjoin ((λ f, keys f.2) <$> fragments))).
  { induction fragments as [|f fragments IH]; intros c iss Hc; csimpl.
    - intros ->. by rewrite app_nil_r.
    - destruct (index_keys l f.1 (keys f.2) c iss) as [c' iss2] eqn:E. intros H.
      assert (Hc' : NoDup c').
      { clear -Hc E. revert c iss Hc E. induction (keys f.2) as [|k ks IH]; intros c iss Hc; simpl.
        - by intros [= <- _].
        - destruct (elem k c) eqn:E; [by apply IH|]. apply elem_false in E. apply IH.
          apply NoDup_app. split_and!; [done| |apply NoDup_singleton].
          by intros x Hx ->%list_elem_of_singleton. }
      destruct (IH c' iss2 Hc' H) as (-> & H2 & H3).
      pose proof (index_keys_spec l f.1 (keys f.2) c iss Hc) as Hk. rewrite E in Hk. cbn in Hk.
      destruct Hk as (-> & -> & _); [done|]. rewrite H2. by rewrite <- !app_assoc in *. }
  intros H. destruct (Hgen [] [] NoDup_nil_2 H) as (_ & H1 & H2). done.
Qed.

(** ** Loading *)

Lemma loadLocaleFragment_spec l f module d :
  loadLocaleFragment l f module = Ok d → locale d = l ∧ fragment d = f.
Proof.
  unfold loadLocaleFragment. intros (v & _ & H)%result_bind_Ok. destruct v; try done.
  apply result_bind_Ok in H as (ts & _ & [= <-]). done.
Qed.

Lemma group_spec ls ds l :
  l ∈ ls → ∃ m, assoc (group_fragments ls ds) l = Some m ∧
    (∀ f d, assoc m f = Some d → d ∈ ds ∧ locale d = l ∧ fragment d = f) ∧
    (∀ d, d ∈ ds → locale d = l → is_Some (assoc m (fragment d))).
Proof.
  intros Hl. unfold group_fragments. induction ds as [|d ds IH] using rev_ind.
  - exists []. simpl. split_and!; [|done|by intros d ?%elem_of_nil].
    induction ls as [|l' ls IH]; [by apply elem_of_nil in Hl|]. csimpl.
    destruct (eqs l' l) eqn:E; [done|]. apply IH. apply elem_of_cons in Hl as [->|]; [|done].
    by rewrite eqs_refl in E.
  - destruct IH as (m & Hm & H1 & H2). rewrite foldl_app. cbn [foldl]. unfold add_descriptor at 1.
    rewrite assoc_set_key. destruct (eqs (locale d) l) eqn:E.
    + apply eqs_true in E. rewrite E, Hm. cbn [default].
      exists (set_key m (fragment d) d). split_and!; [done| |].
      * intros f d'. rewrite assoc_set_key. destruct (eqs (fragment d) f) eqn:Ef.
        -- apply eqs_true in Ef. intros [= <-]. rewrite elem_of_app, list_elem_of_singleton. auto.
        -- intros H%H1. rewrite elem_of_app. tauto.
      * intros d' [Hd|Hd%list_elem_of_singleton]%elem_of_app Hloc; rewrite assoc_set_key.
        -- destruct (eqs _ _); [eauto|]. by apply H2.
        -- subst d'. rewrite eqs_refl. eauto.
    + exists m. split_and!; [done| |].
      * intros f d' H%H1. rewrite elem_of_app. tauto.
      * intros d' [Hd|Hd%list_elem_of_singleton]%elem_of_app Hloc; [by apply H2|].
        subst d'. rewrite Hloc, eqs_refl in E. done.
Qed.

Lemma all_values_elem {X A} (out : nat → result X A) idx a :
  a ∈ all_values out idx ↔ ∃ i, i ∈ idx ∧ out i = Ok a.
Proof.
  induction idx as [|i idx IH]; simpl.
  - rewrite elem_of_nil. split; [done|]. by intros (? & ?%elem_of_nil & _).
  - destruct (out i) eqn:E; [rewrite elem_of_cons|]; rewrite IH; setoid_rewrite elem_of_cons; split.
    + intros [->|(j & ? & ?)]; eauto.
    + intros (j & [->|?] & Hj); [left; congruence|eauto].
    + intros (j & ? & ?); eauto.
    + intros (j & [->|?] & Hj); [congruence|eauto].
Qed.

Lemma loaded_spec (tasks : list (result jsstring descriptor)) settled ds :
  settled ≡ₚ seq 0 (length tasks) →
  promise_all (λ i, default (Throw []) (tasks !! i)) settled (length tasks) = Ok ds →
  (∀ t, t ∈ tasks → ∃ d, t = Ok d ∧ d ∈ ds) ∧ (∀ d, d ∈ ds → Ok d ∈ tasks).
Proof.
  intros Hp H. pose proof (promise_all_Ok _ _ _ _ Hp H) as Hok.
  assert (ds = all_values (λ i, default (Throw []) (tasks !! i)) (seq 0 (length tasks))) as ->.
  { unfold promise_all in H. destruct (first_rejection _ _); congruence. }
  split.
  - intros t [i Hi]%list_elem_of_lookup. pose proof (lookup_lt_Some _ _ _ Hi) as Hlt.
    destruct (Hok i Hlt) as [d Hd]. rewrite Hi in Hd. cbn in Hd. subst t.
    exists d. split; [done|]. apply all_values_elem. exists i. rewrite elem_of_seq, Hi. split; [lia|done].
  - intros d (i & _ & Hi)%all_values_elem. destruct (tasks !! i) eqn:E; cbn in Hi; [|done].
    subst r. by eapply list_elem_of_lookup_2.
Qed.

Lemma list_fragments_spec dirs ls names :
  list_fragments dirs ls = Ok names → names.*1 = ls.
Proof.
  revert names. induction ls as [|l ls IH]; intros names; simpl; [by intros [= <-]|].
  intros (fs & _ & H)%result_bind_Ok. apply result_bind_Ok in H as (rest & Hr & [= <-]).
  csimpl. f_equal. by apply IH.
Qed.

Lemma assoc_in_keys {A} (o : list (jsstring * A)) k : k ∈ o.*1 → ∃ v, assoc o k = Some v.
Proof. intros H. destruct (assoc o k) eqn:E; [eauto|]. by apply assoc_None in E. Qed.

Lemma list_locales_sublist catalogName entries dirs :
  list_locales catalogName entries = Ok dirs → dirs.*1 `sublist_of` (entry_name <$> entries).
Proof.
  revert dirs. induction entries as [|e entries IH]; intros dirs; simpl; [by intros [= <-]|].
  destruct e as [name|name children|name]; [| |done].
  - destruct (_ || _); [|done]. intros H. apply sublist_cons. by apply IH.
  - destruct (localePattern name); [|done].
    intros (rest & Hr & [= <-])%result_bind_Ok. csimpl. apply sublist_skip. by apply IH.
Qed.

Lemma assoc_unique {A} (o : list (jsstring * A)) k v :
  NoDup o.*1 → (k, v) ∈ o → assoc o k = Some v.
Proof.
  induction o as [|[k' v'] o IH]; csimpl; [by intros _ ?%elem_of_nil|].
  intros [Hn Hd]%NoDup_cons [[= -> ->]|Hin]%elem_of_cons; [by rewrite eqs_refl|].
  destruct (eqs k' k) eqn:E; [|by apply IH]. apply eqs_true in E as ->.
  destruct Hn. apply list_elem_of_fmap. by exists (k, v).
Qed.

(** The tasks are those of the listed fragments. *)
Lemma load_tasks_elem dirs names t :
  t ∈ load_tasks dirs names ↔
  ∃ l fs f, (l, fs) ∈ names ∧ f ∈ fs ∧
    t = loadLocaleFragment l f (find_export (default [] (assoc dirs l)) f).
Proof.
  unfold load_tasks. rewrite list_elem_of_join. split.
  - intros (ts & Ht & Hts). apply list_elem_of_fmap in Hts as ([l fs] & -> & Hin).
    apply list_elem_of_fmap in Ht as (f & -> & Hf). eauto 10.
  - intros (l & fs & f & Hin & Hf & ->). eexists. split; [|apply list_elem_of_fmap; eauto].
    apply list_elem_of_fmap. eauto.
Qed.

(** The descriptors of a locale are those of its listed fragments. *)
Lemma group_of_names ls dirs names ds l :
  NoDup ls → list_fragments dirs ls = Ok names →
  (∀ t, t ∈ load_tasks dirs names → ∃ d, t = Ok d ∧ d ∈ ds) →
  (∀ d, d ∈ ds → Ok d ∈ load_tasks dirs names) → l ∈ ls →
  ∃ m fs, assoc (group_fragments ls ds) l = Some m ∧ assoc names l = Some fs ∧
    (∀ f, is_Some (assoc m f) ↔ f ∈ fs).
Proof.
  intros Hnd Hnames Htasks Hds Hl. destruct (group_spec ls ds l Hl) as (m & Hm & H1 & H2).
  pose proof (list_fragments_spec _ _ _ Hnames) as Hfst.
  destruct (assoc_in_keys names l) as [fs Hfs]; [by rewrite Hfst|].
  exists m, fs. split_and!; [done|done|]. intros f. split.
  - intros [d (Hd & Hloc & Hfr)%H1]. apply Hds in Hd.
    apply load_tasks_elem in Hd as (l' & fs' & f' & Hin & Hf' & Heq).
    symmetry in Heq. apply loadLocaleFragment_spec in Heq as [E1 E2]. subst l' f'.
    rewrite Hloc in Hin. apply (assoc_unique names) in Hin; [|by rewrite Hfst].
    rewrite <- Hfr. by simplify_eq.
  - intros Hf. apply assoc_elem in Hfs.
    destruct (Htasks (loadLocaleFragment l f (find_export (default [] (assoc dirs l)) f)))
      as (d & Hd & Hin); [apply load_tasks_elem; eauto 10|].
    apply loadLocaleFragment_spec in Hd as [E1 <-]. by apply H2.
Qed.

(** ** A validated catalog *)

Section validated.
Variable path_join : jsstring → jsstring → jsstring.
Variable relative : jsstring → jsstring → jsstring.

(** A locale of the scan agrees with the reference locale. *)
Definition agrees (m ref : list (jsstring * descriptor)) : Prop :=
  (∀ f, is_Some (assoc m f) ↔ is_Some (assoc ref f)) ∧
  NoDup (mjoin ((λ f, keys f.2) <$> m)) ∧
  ∀ f d e, assoc m f = Some d → assoc ref f = Some e →
    (∀ k, k ∈ keys d ↔ k ∈ keys e) ∧
    (∀ k t u, assoc (translations d) k = Some t → assoc (translations e) k = Some u →
       ∀ x, x ∈ placeholders t ↔ x ∈ placeholders u).

Lemma compare_fragment_nil l f expected actual :
  compare_fragment l f expected actual = [] →
  (∀ k, k ∈ keys actual ↔ k ∈ keys expected) ∧
  (∀ k t u, assoc (translations actual) k = Some t → assoc (translations expected) k = Some u →
     ∀ x, x ∈ placeholders t ↔ x ∈ placeholders u).
Proof.
  unfold compare_fragment. intros [H1 [H2 H3]%app_eq_nil]%app_eq_nil.
  apply when_any_nil in H1, H2, H3.
  assert (Hs : ∀ l, sort l = [] → l = []).
  { intros l0 H. apply elem_of_nil_inv.
    intros x Hx. apply sort_elem in Hx. rewrite H in Hx. by apply elem_of_nil in Hx. }
  apply Hs in H1, H2, H3.
  assert (Hk : ∀ k, k ∈ keys actual ↔ k ∈ keys expected).
  { intros k. split; intros Hin.
    - pose proof (filter_nil _ _ H2 k Hin) as H. cbv beta in H. bool_prop. by apply elem_true.
    - pose proof (filter_nil _ _ H1 k Hin) as H. cbv beta in H. bool_prop. by apply elem_true. }
  split; [done|]. intros k t u Ht Hu.
  assert (Hke : k ∈ keys expected) by (apply assoc_elem in Hu; apply list_elem_of_fmap; by exists (k, u)).
  pose proof (mjoin_nil _ _ H3 k) as Hm. unfold placeholder_mismatch in Hm. rewrite Ht, Hu in Hm.
  cbn [from_option id] in Hm.
  assert (Hin : k ∈ List.filter (λ k, elem k (keys actual)) (keys expected)).
  { rewrite list_elem_of_In, filter_In, <- list_elem_of_In, elem_true. split; [done|by apply Hk]. }
  specialize (Hm Hin). destruct (equalSets (placeholders u) (placeholders t)) eqn:E; [|done].
  intros x. symmetry. by apply (equalSets_spec _ _ (placeholders_NoDup u) (placeholders_NoDup t) E).
Qed.

Lemma compare_locale_nil refFs ref l fs m :
  compare_locale refFs ref l fs m = [] →
  (∀ f, is_Some (assoc m f) ↔ f ∈ fs) → (∀ f, is_Some (assoc ref f) ↔ f ∈ refFs) → agrees m ref.
Proof.
  unfold compare_locale. intros [H1 [H2 [H3 H4]%app_eq_nil]%app_eq_nil]%app_eq_nil Hm Href.
  apply when_any_nil in H1, H2. apply indexLocale_spec in H3 as [_ H3].
  split_and!; [|done|].
  - intros f. rewrite Hm, Href. split; intros Hin.
    + pose proof (filter_nil _ _ H2 f Hin) as H. cbv beta in H. bool_prop. by apply elem_true.
    + pose proof (filter_nil _ _ H1 f Hin) as H. cbv beta in H. bool_prop. by apply elem_true.
  - intros f d e Hd He. apply (compare_fragment_nil l f).
    pose proof (mjoin_nil _ _ H4 f) as Hf. cbv beta in Hf. rewrite Hd, He in Hf. apply Hf.
    apply Href. eauto.
Qed.

Lemma agrees_refl ref : NoDup (mjoin ((λ f, keys f.2) <$> ref)) → agrees ref ref.
Proof. intros H. split_and!; [done|done|]. intros f d e Hd He. simplify_eq. split; [done|]. intros. by simplify_eq. Qed.

(** C25: what a successful scan guarantees. The reference locale is among the locales; each locale has
    exactly the fragments of the reference locale, no key in two fragments, and in each fragment exactly the
    reference keys, each translated with the same set of placeholders; and every
    key that the sources name statically is a key of some reference fragment. *)
Theorem scan_validates dirName i18nDir referenceLocale catalogName roots settled s :
  (∀ n, settled n ≡ₚ seq 0 n) → (∀ entries, i18nDir = Some entries → NoDup (entry_name <$> entries)) →
  scanI18nCatalog path_join relative dirName i18nDir referenceLocale catalogName roots settled = Ok s →
  referenceLocale ∈ locales s ∧
  ∃ ref, assoc (fragmentsByLocale s) referenceLocale = Some ref ∧
    (∀ l, l ∈ locales s → ∃ m, assoc (fragmentsByLocale s) l = Some m ∧ agrees m ref) ∧
    (∀ key, key ∈ (source_references path_join relative roots).*1 →
       ∃ f e, (f, e) ∈ ref ∧ key ∈ keys e).
Proof.
  intros Hset Hnd. unfold scanI18nCatalog. destruct i18nDir as [entries|]; [|done].
  specialize (Hnd entries eq_refl).
  intros (dirs & Hdirs & H)%result_bind_Ok. cbv zeta in H.
  assert (Hls : NoDup (sort dirs.*1)).
  { unfold sort. rewrite merge_sort_Permutation. eapply sublist_NoDup; [exact Hnd | by eapply list_locales_sublist]. }
  set (ls := sort dirs.*1) in *. destruct (elem referenceLocale ls) eqn:Href; [|done].
  apply elem_true in Href. cbn [negb] in H. apply result_bind_Ok in H as (names & Hnames & H).
  apply result_bind_Ok in H as (ds & Hds & H).
  apply loaded_spec in Hds as [Htasks Hds]; [|apply Hset].
  assert (Hgroup := λ l, group_of_names ls dirs names ds l Hls Hnames Htasks Hds).
  destruct (Hgroup referenceLocale Href) as (ref & refFs & Hr1 & Hr2 & Hr3).
  rewrite Hr1, Hr2 in H. cbn [from_option id] in H.
  destruct (negb _); [done|].
  destruct (indexLocale referenceLocale ref []) as [referenceKeys issues] eqn:Ei.
  destruct issues; [|done].
  destruct (indexLocale_spec referenceLocale ref) as [Hk1 Hk2]; [by rewrite Ei|].
  rewrite Ei in Hk1. cbn in Hk1. cbn [validateTranslationReferences] in H.
  unfold validateTranslationReferences in H.
  match type of H with (match ?x with _ => _ end) = _ => destruct x as [|i is'] eqn:Eiss end; [|done].
  apply app_eq_nil in Eiss as [Hrefs Hcmp]. injection H as <-. cbn [locales fragmentsByLocale].
  split; [done|]. exists ref. split_and!; [done| |].
  - intros l Hl. destruct (Hgroup l Hl) as (m & fs & Hm1 & Hm2 & Hm3). exists m. split; [done|].
    destruct (decide (l = referenceLocale)) as [->|Hne].
    + simplify_eq. by apply agrees_refl.
    + pose proof (mjoin_nil _ _ Hcmp l) as Hc. cbv beta in Hc. rewrite Hm1, Hm2 in Hc.
      cbn [from_option id] in Hc. eapply compare_locale_nil; [apply Hc|done|done].
      rewrite list_elem_of_In, filter_In, <- list_elem_of_In. split; [done|].
      apply negb_true_iff. by apply bool_decide_eq_false.
  - intros key (r & -> & Hin)%list_elem_of_fmap. pose proof (mjoin_nil _ _ Hrefs r Hin) as Hm.
    unfold missing_reference in Hm. destruct (elem r.1 referenceKeys) eqn:Ee; [|done].
    apply elem_true in Ee. rewrite Hk1 in Ee.
    apply list_elem_of_join in Ee as (ks & Hks & Hks'). apply list_elem_of_fmap in Hks' as ([f e] & -> & Hfe).
    eauto.
Qed.
End validated.

(** ** The generated files *)

Lemma write_if_changed_spec name content fs :
  let '(fs', w) := write_if_changed name content fs in
  assoc fs' name = Some content ∧ (∀ n, n ≠ name → assoc fs' n = assoc fs n).
Proof.
  unfold write_if_changed. destruct (assoc fs name) as [old|] eqn:E.
  - destruct (eqs old content) eqn:Eo; [apply eqs_true in Eo as ->; auto|].
    split; [by rewrite assoc_set_key, eqs_refl|]. intros n Hn. rewrite assoc_set_key.
    destruct (eqs name n) eqn:En; [|done]. by apply eqs_true in En.
  - split; [by rewrite assoc_set_key, eqs_refl|]. intros n Hn. rewrite assoc_set_key.
    destruct (eqs name n) eqn:En; [|done]. by apply eqs_true in En.
Qed.

Lemma write_unchanged name content fs :
  assoc fs name = Some content → write_if_changed name content fs = (fs, []).
Proof. intros H. unfold write_if_changed. by rewrite H, eqs_refl. Qed.

Lemma catalog_name_inj l k : catalog_name l = catalog_name k → l = k.
Proof.
  unfold catalog_name, msg. cbn [mjoin list_join foldr]. rewrite !app_nil_r.
  intros H. apply (app_inv_head (js "catalog.")) in H. by apply app_inv_tail in H.
Qed.

Lemma write_locales_spec ls fragments fs :
  let '(fs', w) := write_locales ls fragments fs in
  (∀ l, l ∈ ls → assoc fs' (catalog_name l) = Some (renderLocaleCatalog l fragments)) ∧
  (∀ n, n ∉ catalog_name <$> ls → assoc fs' n = assoc fs n).
Proof.
  revert fs. induction ls as [|l ls IH]; intros fs; cbn [write_locales].
  - split; [by intros l ?%elem_of_nil|done].
  - pose proof (write_if_changed_spec (catalog_name l) (renderLocaleCatalog l fragments) fs) as Hw.
    destruct (write_if_changed _ _ fs) as [fs1 w1]. destruct Hw as [Hw1 Hw2].
    specialize (IH fs1). destruct (write_locales ls fragments fs1) as [fs2 w2]. destruct IH as [H1 H2].
    split.
    + intros l' [->|Hl]%elem_of_cons; [|by apply H1].
      destruct (decide (l ∈ ls)) as [?|Hn]; [by apply H1|]. rewrite H2; [done|].
      intros (k & E & Hk)%list_elem_of_fmap. apply catalog_name_inj in E. by subst k.
    + intros n Hn. csimpl in Hn. apply not_elem_of_cons in Hn as [Hn1 Hn2].
      rewrite H2 by done. by apply Hw2.
Qed.

Lemma write_locales_unchanged ls fragments fs :
  (∀ l, l ∈ ls → assoc fs (catalog_name l) = Some (renderLocaleCatalog l fragments)) →
  write_locales ls fragments fs = (fs, []).
Proof.
  induction ls as [|l ls IH]; intros H; cbn [write_locales]; [done|].
  rewrite write_unchanged by (apply H; left). rewrite IH; [done|]. intros l' Hl. apply H. by right.
Qed.

Lemma assoc_filter (p : jsstring → bool) (fs : files) n :
  assoc (List.filter (λ f, p f.1) fs) n = if p n then assoc fs n else None.
Proof.
  induction fs as [|[k v] fs IH]; simpl; [by destruct (p n)|].
  destruct (p k) eqn:Ek; simpl.
  - destruct (eqs k n) eqn:E; [|done]. apply eqs_true in E as ->. by rewrite Ek.
  - destruct (eqs k n) eqn:E; [|done]. apply eqs_true in E as ->. by rewrite IH, Ek.
Qed.

Lemma filter_none {A} (p : A → bool) l : (∀ x, x ∈ l → p x = false) → List.filter p l = [].
Proof.
  induction l as [|x l IH]; simpl; [done|]. intros H. rewrite (H x) by left.
  apply IH. intros y Hy. apply H. by right.
Qed.

(** The generator leaves the directory consistent with the scan. Afterwards the main catalog and the
    catalog of every other locale hold exactly their rendered modules, no catalog of a locale that no longer
    exists is left, every other file is untouched, and running it again writes and
    removes nothing. *)
Theorem generate_consistent s referenceLocale catalogFile fs fs' written removed :
  generatedLocaleCatalogPattern catalogFile = false →
  catalogFile ∉ catalog_name <$> List.filter (λ l, negb (eqs l referenceLocale)) (locales s) →
  generateI18nCatalog s referenceLocale catalogFile fs = (fs', written, removed) →
  assoc fs' catalogFile = Some (renderCatalog (locales s) (referenceFragments s) referenceLocale) ∧
  (∀ l, l ∈ locales s → l ≠ referenceLocale →
     assoc fs' (catalog_name l) = Some (renderLocaleCatalog l (referenceFragments s))) ∧
  (∀ n, generatedLocaleCatalogPattern n = true → is_Some (assoc fs' n) →
     ∃ l, l ∈ locales s ∧ n = catalog_name l) ∧
  (∀ n, generatedLocaleCatalogPattern n = false → n ≠ catalogFile →
     n ∉ catalog_name <$> locales s → assoc fs' n = assoc fs n) ∧
  generateI18nCatalog s referenceLocale catalogFile fs' = (fs', [], []).
Proof.
  unfold generateI18nCatalog. set (others := List.filter (λ l, negb (eqs l referenceLocale)) (locales s)).
  set (main := renderCatalog _ _ _). set (expected := catalog_name <$> others).
  set (stale := λ n, generatedLocaleCatalogPattern n && negb (elem n expected)).
  intros Hcf Hne. pose proof (write_if_changed_spec catalogFile main fs) as Hw.
  destruct (write_if_changed catalogFile main fs) as [fs1 w1]. destruct Hw as [Hw1 Hw2].
  pose proof (write_locales_spec others (referenceFragments s) fs1) as Hl.
  destruct (write_locales others (referenceFragments s) fs1) as [fs2 w2]. destruct Hl as [Hl1 Hl2].
  intros [= <- <- <-].
  assert (Hothers : ∀ l, l ∈ others ↔ l ∈ locales s ∧ l ≠ referenceLocale).
  { intros l. unfold others. rewrite list_elem_of_In, filter_In, <- list_elem_of_In, negb_true_iff.
    unfold eqs. by rewrite bool_decide_eq_false. }
  assert (Hassoc : ∀ n, assoc (List.filter (λ f, negb (stale f.1)) fs2) n =
                        if stale n then None else assoc fs2 n).
  { intros n. rewrite (assoc_filter (λ n, negb (stale n))). by destruct (stale n). }
  assert (Hmain : assoc (List.filter (λ f, negb (stale f.1)) fs2) catalogFile = Some main).
  { rewrite Hassoc. unfold stale. rewrite Hcf. cbn. by rewrite Hl2. }
  assert (Hloc : ∀ l, l ∈ others → assoc (List.filter (λ f, negb (stale f.1)) fs2) (catalog_name l)
                                   = Some (renderLocaleCatalog l (referenceFragments s))).
  { intros l Hin. rewrite Hassoc. unfold stale.
    rewrite (proj2 (elem_true (catalog_name l) expected)), andb_false_r; [by apply Hl1|].
    apply list_elem_of_fmap. eauto. }
  split_and!; [done| | | |].
  - intros l H1 H2. apply Hloc. by apply Hothers.
  - intros n Hp. rewrite Hassoc. unfold stale. rewrite Hp. cbn.
    destruct (elem n expected) eqn:E; cbn; [|by intros []]. intros _.
    apply elem_true, list_elem_of_fmap in E as (l & -> & [? _]%Hothers). eauto.
  - intros n Hp Hn1 Hn2. rewrite Hassoc. unfold stale. rewrite Hp. cbn. rewrite Hl2; [by apply Hw2|].
    intros (l & -> & [Hin _]%Hothers)%list_elem_of_fmap. apply Hn2. apply list_elem_of_fmap. eauto.
  - rewrite write_unchanged by done. rewrite write_locales_unchanged by done.
    set (fs3 := List.filter (λ f, negb (stale f.1)) fs2).
    assert (Hkeep : ∀ f, f ∈ fs3 → stale f.1 = false).
    { intros f. unfold fs3. rewrite list_elem_of_In, filter_In. intros [_ H]. by apply negb_true_iff. }
    f_equal; [f_equal|].
    + apply filter_all, Forall_forall. intros f Hf. apply negb_true_iff. by apply Hkeep.
    + apply filter_none. intros n (f & -> & Hf)%list_elem_of_fmap. by apply (Hkeep f).
Qed.

(** ** A small catalog *)

Definition demo_module (entries : list (jsstring * jsval)) : result jsstring jsval := Ok (JObj entries).

Definition demo_dir : list dir_entry :=
  [ EDir "en-US" [ {| fe_name := "common.js"; fe_file := true;
                      fe_export := demo_module [(js "a.b", JStr "Hello {name}")] |} ];
    EFile "catalog.generated.js";
    EDir "fr-FR" [ {| fe_name := "common.js"; fe_file := true;
                      fe_export := demo_module [(js "a.b", JStr "{name} bonjour")] |} ] ].

Definition demo_roots : list (jsstring * tree) :=
  [ (js "app", TDir [ (js "main.js", false, TFile "x = t('a.b');"); (js "i18n", true, TDir []) ]) ].

Definition demo_join (a b : jsstring) : jsstring := a ++ js "/" ++ b.
Definition demo_relative (_ b : jsstring) : jsstring := b.

Lemma demo_dir_names : ∀ entries, Some demo_dir = Some entries → NoDup (entry_name <$> entries).
Proof. intros entries [= <-]. apply (bool_decide_unpack _). vm_compute. exact I. Qed.

Lemma scan_validates_witness :
  ∃ s, scanI18nCatalog demo_join demo_relative "i18n" (Some demo_dir) "en-US" "catalog.generated.js"
         demo_roots (λ n, reverse (seq 0 n)) = Ok s ∧
    locales s = [js "en-US"; js "fr-FR"] ∧ js "en-US" ∈ locales s.
Proof.
  eexists. split; [vm_compute; reflexivity|]. split; [reflexivity|].
  eapply (scan_validates demo_join demo_relative "i18n" (Some demo_dir) "en-US" "catalog.generated.js"
           demo_roots (λ n, reverse (seq 0 n))).
  - intros n. apply reverse_Permutation.
  - apply demo_dir_names.
  - vm_compute; reflexivity.
Defined.

Definition demo_scan : scan :=
  {| locales := [js "en-US"; js "fr-FR"]; referenceFragments := [js "common.js"];
     fragmentsByLocale := []; keyCount := 1; referenceCount := 1 |}.

Lemma generate_consistent_witness :
  ∃ fs' written,
    generateI18nCatalog demo_scan "en-US" "catalog.generated.js"
      [(js "catalog.de-DE.generated.js", js "old"); (js "notes.txt", js "kept")] =
      (fs', written, [js "catalog.de-DE.generated.js"]) ∧
    assoc fs' "notes.txt" = Some (js "kept") ∧
    generateI18nCatalog demo_scan "en-US" "catalog.generated.js" fs' = (fs', [], []).
Proof.
  do 2 eexists. split; [vm_compute; reflexivity|]. split; [vm_compute; reflexivity|].
  eapply (generate_consistent demo_scan "en-US" "catalog.generated.js"
           [(js "catalog.de-DE.generated.js", js "old"); (js "notes.txt", js "kept")]).
  - vm_compute; reflexivity.
  - apply (bool_decide_unpack _). vm_compute. exact I.
  - vm_compute; reflexivity.
Defined.
