(* ===== verification/Fido.v ===== *)
(** * Passkey requests

    [internal/service/frontend/renop-html/js/fido-utils.js]: the base64url form of binary fields,
    the bounded browser prompt with its timers, listeners and button, and the two requests
    the login and profile pages make. The browser's answers are events. *)

From S2P Require Import Prelude JsText JsValue I18nUtil I18n.

(** Bytes of a buffer, as in the models of strings. *)
Definition bytes := list ascii.

(** ** [btoa] and [atob] *)

Definition b64_char (i : N) : ascii :=
  if (i <? 26)%N then chr (65 + i)
  else if (i <? 52)%N then chr (71 + i)
  else if (i <? 62)%N then chr (i - 4)
  else if (i =? 62)%N then "+" else "/".

Definition b64_index (c : ascii) : option N :=
  if is_upper c then Some (code c - 65)%N
  else if is_lower c then Some (code c - 71)%N
  else if is_digit c then Some (code c + 4)%N
  else if ascii_eqb c "+" then Some 62%N
  else if ascii_eqb c "/" then Some 63%N else None.

Definition equals_sign : ascii := "=".

Fixpoint btoa (b : bytes) : jsstring :=
  match b with
  | [] => []
  | [x] => [b64_char (code x / 4); b64_char (code x mod 4 * 16); equals_sign; equals_sign]
  | [x; y] =>
      [b64_char (code x / 4); b64_char (code x mod 4 * 16 + code y / 16);
       b64_char (code y mod 16 * 4); equals_sign]
  | x :: y :: z :: b =>
      b64_char (code x / 4) :: b64_char (code x mod 4 * 16 + code y / 16)
      :: b64_char (code y mod 16 * 4 + code z / 64) :: b64_char (code z mod 64) :: btoa b
  end.

(** Groups of four indexes are three bytes; left-over bits are dropped. *)
Fixpoint sextets (l : list N) : bytes :=
  match l with
  | a :: b :: c :: d :: l =>
      chr (a * 4 + b / 16) :: chr (b mod 16 * 16 + c / 4) :: chr (c mod 4 * 64 + d) :: sextets l
  | [a; b; c] => [chr (a * 4 + b / 16); chr (b mod 16 * 16 + c / 4)]
  | [a; b] => [chr (a * 4 + b / 16)]
  | _ => []
  end.

Definition ascii_whitespace (c : ascii) : bool :=
  bool_decide (c ∈ [chr 9; chr 10; chr 12; chr 13; chr 32]).

(** One or two equals signs at the end of a string whose length is a multiple of four. *)
Definition drop_padding (s : jsstring) : jsstring :=
  if (length s mod 4 =? 0)%nat then
    if endsWith s "==" then take (length s - 2) s
    else if endsWith s "=" then take (length s - 1) s else s
  else s.

(** [None] is the InvalidCharacterError. *)
Definition atob (s : jsstring) : option bytes :=
  let s := drop_padding (List.filter (λ c, negb (ascii_whitespace c)) s) in
  if (length s mod 4 =? 1)%nat then None
  else match mapM b64_index s with Some l => Some (sextets l) | None => None end.

(** ** The base64url form *)

Inductive dom_error :=
  | NotSupportedError | SecurityError | AbortError | TimeoutError | NotAllowedError
  | InvalidStateError | ConstraintError | DataError | InvalidCharacterError
  | OtherError (name : jsstring).

Definition pad4 (s : jsstring) : jsstring := s ++ repeat equals_sign ((4 - length s mod 4) mod 4)%nat.

Definition base64urlToBuffer (base64url : jsstring) : result dom_error bytes :=
  if truthy base64url then
    let base64 := replaceAll "_" "/" (replaceAll "-" "+" base64url) in
    match atob (pad4 base64) with Some b => Ok b | None => Throw InvalidCharacterError end
  else Ok [].

(** [None] is a missing buffer. *)
Definition bufferToBase64url (buffer : option bytes) : jsstring :=
  match buffer with
  | None => []
  | Some b => replaceAll equals_sign [] (replaceAll "/" "_" (replaceAll "+" "-" (btoa b)))
  end.

(** The message of a failure, from the name of what was thrown ([None] without a name). *)
Definition passkey_keys : list (jsstring * jsstring) :=
  [ pair "TimeoutError" "fido.timeout"; pair "NotAllowedError" "fido.cancelled";
    pair "AbortError" "fido.cancelled"; pair "InvalidStateError" "fido.alreadyRegistered";
    pair "NotSupportedError" "login.fidoUnsupported"; pair "SecurityError" "fido.insecure";
    pair "ConstraintError" "fido.verificationUnavailable" ].

Definition error_name (e : dom_error) : jsstring :=
  match e with
  | NotSupportedError => "NotSupportedError" | SecurityError => "SecurityError"
  | AbortError => "AbortError" | TimeoutError => "TimeoutError"
  | NotAllowedError => "NotAllowedError" | InvalidStateError => "InvalidStateError"
  | ConstraintError => "ConstraintError" | DataError => "DataError"
  | InvalidCharacterError => "InvalidCharacterError" | OtherError name => name
  end.

Definition passkeyErrorMessage (s : i18n) (e : dom_error) : tvalue :=
  match get passkey_keys (error_name e) with
  | Own key => t s key []
  | Inherited => TInherited
  | Missing => t s "login.fidoFailed" []
  end.

(** ** The prompt *)

(** A credential the browser answers; the fields of its response are buffers. *)
Record credential := {
  cred_id : jsstring; rawId : option bytes; cred_type : jsstring;
  response : option (list (jsstring * bytes))
}.

(** What the button shows: its own nodes, or the countdown. *)
Inductive node := Original (n : nat) | Countdown (text : tvalue).

Record button := { childNodes : list node; aria_busy : option jsstring }.

Inductive source := SignalAbort | PageHide | PopState.
Inductive listener := CancelOn (src : source) | RejectAbort.

Global Instance source_eq_dec : EqDecision source.
Proof. solve_decision. Defined.
Global Instance listener_eq_dec : EqDecision listener.
Proof. solve_decision. Defined.

(** What a prompt touches: its timer and interval, the listeners it has added, the reason its
    controller was aborted with, the button, and the native prompts it has opened. *)
Record page := {
  timer : bool; interval : bool; listeners : list listener; aborted : option dom_error;
  btn : option button; prompts : nat
}.

Definition set_timers (b i : bool) (p : page) : page :=
  {| timer := b; interval := i; listeners := listeners p; aborted := aborted p; btn := btn p;
     prompts := prompts p |}.
Definition set_listeners (ls : list listener) (p : page) : page :=
  {| timer := timer p; interval := interval p; listeners := ls; aborted := aborted p; btn := btn p;
     prompts := prompts p |}.
Definition set_btn (b : option button) (p : page) : page :=
  {| timer := timer p; interval := interval p; listeners := listeners p; aborted := aborted p;
     btn := b; prompts := prompts p |}.
Definition open_prompt (p : page) : page :=
  {| timer := timer p; interval := interval p; listeners := listeners p; aborted := aborted p;
     btn := btn p; prompts := S (prompts p) |}.

(** [controller.abort(reason)]: the first reason stays. *)
Definition abort (reason : dom_error) (p : page) : page :=
  {| timer := timer p; interval := interval p; listeners := listeners p;
     aborted := Some (default reason (aborted p)); btn := btn p; prompts := prompts p |}.

Definition addEventListener (l : listener) (p : page) : page := set_listeners (listeners p ++ [l]) p.
Definition removeEventListener (l : listener) (p : page) : page :=
  set_listeners (List.filter (λ l', negb (bool_decide (l' = l))) (listeners p)) p.

(** What happens while the prompt is open. [Answers] carries the time at which the code goes on
    and an abort that arrived meanwhile. *)
Inductive event :=
  | Tick (now : Z)
  | TimerFires
  | Cancel (src : source)
  | Answers (c : option credential) (now : Z) (meanwhile : option source)
  | Rejects (e : dom_error).

(** How [requestCredential] is called. *)
Inductive method := Get | Create.

Record call := {
  how : method;
  supported : bool;          (* PublicKeyCredential and navigator.credentials[method] exist *)
  insecure : bool;           (* window.isSecureContext is false *)
  timeout_option : num;      (* Number(publicKey.timeout) *)
  signal : option bool;      (* whether a given signal is already aborted *)
  now : Z
}.

Definition timeout (c : call) : Z :=
  match timeout_option c with
  | Int n => if (0 <? n)%Z then Z.min n 60000 else 60000
  | _ => 60000
  end.

Definition expires (c : call) : Z := (now c + timeout c)%Z.

Definition fields (m : method) : list jsstring :=
  match m with
  | Get => js <$> ["authenticatorData"; "clientDataJSON"; "signature"]
  | Create => js <$> ["attestationObject"; "clientDataJSON"]
  end%stdpp.

Definition has_bytes (b : option bytes) : bool :=
  match b with Some (_ :: _) => true | _ => false end.

Definition response_field (c : credential) (f : jsstring) : option bytes :=
  match response c with Some fs => assoc fs f | None => None end.

Definition bad_credential (m : method) (c : credential) : bool :=
  negb (eqs (cred_type c) "public-key") || negb (truthy (cred_id c)) || negb (has_bytes (rawId c))
  || existsb (λ f, negb (has_bytes (response_field c f))) (fields m).

Section prompt.
Variable s : i18n.

(** [update] at the time [at_]. *)
Definition update (c : call) (at_ : Z) (p : page) : page :=
  match btn p with
  | None => p
  | Some b =>
      let seconds := Z.max 0 (ceil_div (expires c - at_) 1000) in
      set_btn (Some {| childNodes := [Countdown (t s "fido.waiting" [(js "seconds", JNum (Int seconds))])];
                       aria_busy := aria_busy b |}) p
  end.

Definition set_busy (busy : option jsstring) (p : page) : page :=
  match btn p with
  | None => p
  | Some b => set_btn (Some {| childNodes := childNodes b; aria_busy := busy |}) p
  end.

(** Up to the point where the signal is looked at. *)
Definition begin_prompt (c : call) (p : page) : page :=
  let p := set_timers true (bool_decide (is_Some (btn p))) p in
  let p := update c (now c) (set_busy (Some (js "true")) p) in
  let p := match signal c with Some _ => addEventListener (CancelOn SignalAbort) p | None => p end in
  addEventListener (CancelOn PopState) (addEventListener (CancelOn PageHide) p).

(** The code after [Promise.race] has given a credential. *)
Definition check_answer (c : call) (answer : option credential) (at_ : Z) (p : page) :
    result dom_error credential :=
  match aborted p with
  | Some reason => Throw reason
  | None =>
      if (expires c <=? at_)%Z then Throw TimeoutError
      else match answer with
           | None => Throw NotAllowedError
           | Some cr => if bad_credential (how c) cr then Throw DataError else Ok cr
           end
  end.

(** The race between the browser's promise and the abort; [None] while nothing has settled. *)
Fixpoint race (c : call) (es : list event) (p : page) : option (result dom_error credential * page) :=
  match es with
  | [] => None
  | Tick at_ :: es => race c es (if interval p then update c at_ p else p)
  | TimerFires :: _ => let p := abort TimeoutError p in Some (Throw TimeoutError, p)
  | Cancel src :: es =>
      if bool_decide (CancelOn src ∈ listeners p) then Some (Throw AbortError, abort AbortError p)
      else race c es p
  | Answers cr at_ meanwhile :: _ =>
      let p := match meanwhile with
               | Some src => if bool_decide (CancelOn src ∈ listeners p) then abort AbortError p else p
               | None => p
               end in
      Some (check_answer c cr at_ p, p)
  | Rejects e :: _ => Some (Throw e, p)
  end.

(** The [finally] block. *)
Definition finish_prompt (c : call) (original : option button) (raced : bool) (p : page) : page :=
  let p := set_timers false false p in
  let p := match signal c with Some _ => removeEventListener (CancelOn SignalAbort) p | None => p end in
  let p := removeEventListener (CancelOn PopState) (removeEventListener (CancelOn PageHide) p) in
  let p := if raced then removeEventListener RejectAbort p else p in
  let p := abort AbortError p in
  match original, btn p with
  | Some b, Some _ =>
      set_busy (aria_busy b)
        (set_btn (Some {| childNodes := childNodes b; aria_busy := Some (js "true") |}) p)
  | _, _ => p
  end.

(** A new call has a new controller. *)
Definition new_controller (p : page) : page :=
  {| timer := timer p; interval := interval p; listeners := listeners p; aborted := None;
     btn := btn p; prompts := prompts p |}.

Definition requestCredential (c : call) (es : list event) (p : page) :
    option (result dom_error credential * page) :=
  if negb (supported c) then Some (Throw NotSupportedError, p)
  else if insecure c then Some (Throw SecurityError, p)
  else
    let original := btn p in
    let p := begin_prompt c (new_controller p) in
    match signal c with
    | Some true =>
        Some (Throw AbortError, finish_prompt c original false (abort AbortError p))
    | _ =>
        match race c es (open_prompt (addEventListener RejectAbort p)) with
        | None => None
        | Some (r, p) => Some (r, finish_prompt c original true p)
        end
    end.

(** ** The two requests *)

Record cred_descriptor := { desc_id : jsstring; desc_rest : list (jsstring * jsval) }.

Definition descriptor_buffers (ds : list cred_descriptor) :
    result dom_error (list (bytes * list (jsstring * jsval))) :=
  foldr (λ d acc,
    let! b := base64urlToBuffer (desc_id d) in
    let! rest := acc in
    Ok ((b, desc_rest d) :: rest)) (Ok []) ds.

(** The public-key options of the server; a missing or empty list asks for any credential. *)
Record assertion_options := {
  challenge : option jsstring;
  allowCredentials : option (list cred_descriptor);
  userVerification : option jsstring
}.

(** What the browser is asked with. *)
Record native_request := {
  n_challenge : bytes;
  n_credentials : option (list (bytes * list (jsstring * jsval)));
  n_userVerification : jsstring
}.

Definition non_empty (v : option jsstring) : option jsstring :=
  match v with Some s => if truthy s then Some s else None | None => None end.

Definition credential_list (l : option (list cred_descriptor)) :
    result dom_error (option (list (bytes * list (jsstring * jsval)))) :=
  match l with
  | Some (d :: ds) => let! bs := descriptor_buffers (d :: ds) in Ok (Some bs)
  | _ => Ok None
  end.

Definition assertion_request (o : assertion_options) : result dom_error native_request :=
  match non_empty (challenge o) with
  | None => Throw DataError
  | Some ch =>
      let! b := base64urlToBuffer ch in
      let! creds := credential_list (allowCredentials o) in
      Ok {| n_challenge := b; n_credentials := creds;
            n_userVerification := default (js "preferred") (non_empty (userVerification o)) |}
  end.

Definition field_text (c : credential) (f : jsstring) : jsval :=
  JStr (bufferToBase64url (response_field c f)).

Definition assertion_json (c : credential) : list (jsstring * jsval) :=
  [(js "id", JStr (cred_id c)); (js "rawId", JStr (bufferToBase64url (rawId c)));
   (js "type", JStr (cred_type c));
   (js "response", JObj
     [(js "authenticatorData", field_text c "authenticatorData");
      (js "clientDataJSON", field_text c "clientDataJSON");
      (js "signature", field_text c "signature");
      (js "userHandle", match response_field c "userHandle" with
                        | Some b => JStr (bufferToBase64url (Some b))
                        | None => JNull
                        end)])].

(** The outcome of a request whose options were built, and which formats its credential. *)
Definition prompt_with {A B} (request : result dom_error A) (format : credential → B) (c : call)
    (es : list event) (p : page) : option (result dom_error (A * B) * page) :=
  match request with
  | Throw e => Some (Throw e, p)
  | Ok a =>
      match requestCredential c es p with
      | None => None
      | Some (Throw e, p) => Some (Throw e, p)
      | Some (Ok cr, p) => Some (Ok (a, format cr), p)
      end
  end.

Definition requestPasskeyAssertion (o : assertion_options) := prompt_with (assertion_request o) assertion_json.

Record registration_options := {
  r_challenge : option jsstring;
  r_user_id : option jsstring;
  r_exclude : option (list cred_descriptor);
  r_selection : list (jsstring * jsval)
}.

Record native_registration := {
  nr_challenge : bytes; nr_user_id : bytes;
  nr_exclude : option (list (bytes * list (jsstring * jsval)));
  nr_selection : list (jsstring * jsval)
}.

Definition delete_key (o : list (jsstring * jsval)) (k : jsstring) : list (jsstring * jsval) :=
  List.filter (λ p, negb (eqs p.1 k)) o.

(** [o[k] ||= v] *)
Definition or_assign (o : list (jsstring * jsval)) (k : jsstring) (v : jsval) : list (jsstring * jsval) :=
  if truthy_val (default JUndef (assoc o k)) then o else set_key o k v.

Definition registration_request (o : registration_options) : result dom_error native_registration :=
  match non_empty (r_challenge o), non_empty (r_user_id o) with
  | Some ch, Some user =>
      let! b := base64urlToBuffer ch in
      let! u := base64urlToBuffer user in
      let! ex := credential_list (r_exclude o) in
      let selection := delete_key (r_selection o) "authenticatorAttachment" in
      let selection := or_assign selection "userVerification" (JStr "preferred") in
      Ok {| nr_challenge := b; nr_user_id := u; nr_exclude := ex;
            nr_selection := or_assign selection "residentKey" (JStr "preferred") |}
  | _, _ => Throw DataError
  end.

Definition registration_json (c : credential) : list (jsstring * jsval) :=
  [(js "id", JStr (cred_id c)); (js "rawId", JStr (bufferToBase64url (rawId c)));
   (js "type", JStr (cred_type c));
   (js "response", JObj
     [(js "attestationObject", field_text c "attestationObject");
      (js "clientDataJSON", field_text c "clientDataJSON")])].

Definition requestPasskeyRegistration (o : registration_options) :=
  prompt_with (registration_request o) registration_json.
End prompt.

(** ** Round trip *)

(** The indexes of a buffer, without padding. *)
Fixpoint indexes (b : bytes) : list N :=
  match b with
  | [] => []
  | [x] => [code x / 4; code x mod 4 * 16]%N
  | [x; y] => [code x / 4; code x mod 4 * 16 + code y / 16; code y mod 16 * 4]%N
  | x :: y :: z :: b =>
      (code x / 4)%N :: (code x mod 4 * 16 + code y / 16)%N
      :: (code y mod 16 * 4 + code z / 64)%N :: (code z mod 64)%N :: indexes b
  end.

(** Induction three bytes at a time. *)
Lemma bytes_ind3 (P : bytes → Prop) :
  P [] → (∀ x, P [x]) → (∀ x y, P [x; y]) → (∀ x y z b, P b → P (x :: y :: z :: b)) → ∀ b, P b.
Proof.
  intros H0 H1 H2 H3. fix IH 1. intros [|x [|y [|z b]]]; [done|done|done|]. apply H3, IH.
Qed.

Lemma code_lt (c : ascii) : (code c < 256)%N.
Proof. by_all_chars c. Qed.

Lemma chr_code (c : ascii) : chr (code c) = c.
Proof. apply ascii_N_embedding. Qed.

Lemma chr_code_eq n (c : ascii) : n = code c → chr n = c.
Proof. intros ->. apply chr_code. Qed.

Ltac byte_lia :=
  repeat match goal with |- context [code ?c] =>
    let n := fresh "n" in let H := fresh "H" in
    pose proof (code_lt c) as H; revert H; generalize (code c) as n; intros n H end;
  zify; Z.to_euclidean_division_equations; lia.

Lemma sextets_indexes b : sextets (indexes b) = b.
Proof.
  induction b as [|x|x y|x y z b IH] using bytes_ind3; cbn [indexes sextets]; [done| | |];
    repeat f_equal; try exact IH; apply chr_code_eq; byte_lia.
Qed.

Lemma indexes_lt b : Forall (λ i, i < 64)%N (indexes b).
Proof.
  induction b as [|x|x y|x y z b IH] using bytes_ind3; cbn [indexes];
    repeat constructor; try exact IH; byte_lia.
Qed.

Lemma indexes_length b : (length (indexes b) mod 4 ≠ 1)%nat.
Proof.
  induction b as [|x|x y|x y z b IH] using bytes_ind3; cbn [indexes length]; try done.
  replace (S (S (S (S (length (indexes b)))))) with (length (indexes b) + 1 * 4)%nat by lia.
  by rewrite Nat.Div0.mod_add.
Qed.

Definition b64_char_url (i : N) : ascii :=
  if (i =? 62)%N then "-" else if (i =? 63)%N then "_" else b64_char i.

Lemma below_64 (P : N → Prop) `{∀ i, Decision (P i)} :
  forallb (λ i, bool_decide (P i)) (N.of_nat <$> seq 0 64) = true → ∀ i, (i < 64)%N → P i.
Proof.
  intros Hall i Hi. rewrite forallb_elem in Hall. eapply bool_decide_eq_true, Hall.
  apply list_elem_of_fmap. exists (N.to_nat i). split; [lia|]. apply elem_of_seq. lia.
Qed.

Ltac by_index i Hi :=
  revert i Hi; match goal with |- ∀ i, _ → @?P i => apply (below_64 P) end; vm_compute; reflexivity.

Lemma b64_index_char i : (i < 64)%N → b64_index (b64_char i) = Some i.
Proof. intros Hi. by_index i Hi. Qed.

(** The replacements of [bufferToBase64url] and those of [base64urlToBuffer]. *)
Definition to_url (s : jsstring) : jsstring :=
  replaceAll equals_sign [] (replaceAll "/" "_" (replaceAll "+" "-" s)).
Definition from_url (s : jsstring) : jsstring := replaceAll "_" "/" (replaceAll "-" "+" s).

Lemma to_url_char i : (i < 64)%N → to_url [b64_char i] = [b64_char_url i].
Proof. intros Hi. by_index i Hi. Qed.

Lemma from_url_char i : (i < 64)%N → from_url [b64_char_url i] = [b64_char i].
Proof. intros Hi. by_index i Hi. Qed.

Lemma b64_char_plain i : (i < 64)%N →
  ascii_whitespace (b64_char i) = false ∧ b64_char i ≠ equals_sign.
Proof. intros Hi. by_index i Hi. Qed.

(** A map on strings that respects concatenation, over a list of characters. *)
Lemma morphism_fmap (h : jsstring → jsstring) (f g : N → ascii) (l : list N) :
  h [] = [] → (∀ s k, h (s ++ k) = h s ++ h k) → Forall (λ i, h [f i] = [g i]) l →
  h (f <$> l) = g <$> l.
Proof.
  intros H0 Happ. induction 1 as [|i l Hi _ IH]; [done|]. csimpl.
  change (f i :: (f <$> l)) with ([f i] ++ (f <$> l)). rewrite Happ, Hi, IH. done.
Qed.

Lemma to_url_app s k : to_url (s ++ k) = to_url s ++ to_url k.
Proof. unfold to_url. by rewrite !replaceAll_app. Qed.

Lemma from_url_app s k : from_url (s ++ k) = from_url s ++ from_url k.
Proof. unfold from_url. by rewrite !replaceAll_app. Qed.

Lemma btoa_indexes b : ∃ n, btoa b = (b64_char <$> indexes b) ++ repeat equals_sign n.
Proof.
  induction b as [|x|x y|x y z b [n IH]] using bytes_ind3; cbn [indexes btoa];
    [by exists 0%nat|by exists 2%nat|by exists 1%nat|].
  exists n. by rewrite IH.
Qed.

Lemma to_url_btoa b : to_url (btoa b) = b64_char_url <$> indexes b.
Proof.
  destruct (btoa_indexes b) as [n ->]. rewrite to_url_app.
  rewrite (morphism_fmap to_url _ b64_char_url); [|done|apply to_url_app|].
  - rewrite <- (app_nil_r (b64_char_url <$> _)) at 2. f_equal.
    induction n as [|n IH]; [done|]. cbn [repeat].
    change (equals_sign :: repeat equals_sign n) with ([equals_sign] ++ repeat equals_sign n).
    by rewrite to_url_app, IH.
  - eapply Forall_impl; [apply indexes_lt|]. apply to_url_char.
Qed.

Lemma from_url_indexes b : from_url (b64_char_url <$> indexes b) = b64_char <$> indexes b.
Proof.
  apply morphism_fmap; [done|apply from_url_app|].
  eapply Forall_impl; [apply indexes_lt|]. apply from_url_char.
Qed.

Lemma mapM_index b : mapM b64_index (b64_char <$> indexes b) = Some (indexes b).
Proof.
  apply mapM_Some. rewrite Forall2_fmap_l. apply Forall_Forall2_diag.
  eapply Forall_impl; [apply indexes_lt|]. apply b64_index_char.
Qed.

Lemma chars_plain b :
  Forall (λ c, ascii_whitespace c = false ∧ c ≠ equals_sign) (b64_char <$> indexes b).
Proof.
  apply Forall_fmap. eapply Forall_impl; [apply indexes_lt|]. apply b64_char_plain.
Qed.

Lemma endsWith_last s c k : k ≠ [] → endsWith (s ++ [c]) k = true → last k = Some c.
Proof.
  intros Hk (s' & He)%endsWith_spec. destruct k as [|c' k _] using rev_ind; [done|].
  rewrite app_assoc in He. apply app_inj_2 in He as [_ [= ->]]; [|done]. by rewrite last_snoc.
Qed.

Lemma pad_mod n : ((n + (4 - n mod 4) mod 4) mod 4 = 0)%nat.
Proof.
  pose proof (Nat.div_mod_eq n 4) as Hn. pose proof (Nat.mod_upper_bound n 4) as Hb.
  revert Hn Hb. generalize (n mod 4)%nat (n / 4)%nat. intros r q -> Hb.
  rewrite <- Nat.add_assoc, Nat.mul_comm, Nat.add_comm, Nat.Div0.mod_add.
  destruct r as [|[|[|[|r]]]]; try done; lia.
Qed.

(** Padding an unpadded string to a multiple of four is undone by [atob]. *)
Lemma drop_pad s :
  (length s mod 4 ≠ 1)%nat → Forall (λ c, c ≠ equals_sign) s → drop_padding (pad4 s) = s.
Proof.
  intros Hl Hs. unfold drop_padding, pad4. pose proof (Nat.mod_upper_bound (length s) 4).
  rewrite length_app, repeat_length.
  rewrite pad_mod.
  cbn [Nat.eqb].
  assert (Hend : ∀ k, k ≠ [] → last k = Some equals_sign → endsWith s k = false).
  { intros k Hk Hlast. destruct s as [|c s' _] using rev_ind.
    - apply not_true_iff_false. intros (k' & He)%endsWith_spec. by destruct k', k.
    - apply not_true_iff_false. intros He%endsWith_last; [|done].
      apply Forall_app in Hs as [_ Hc]. rewrite Forall_singleton in Hc. congruence. }
  destruct (length s mod 4)%nat as [|[|[|[|n]]]] eqn:E; try lia.
  - change ((4 - 0) mod 4)%nat with 0%nat. cbn [repeat]. rewrite app_nil_r, !Hend; done.
  - change ((4 - 2) mod 4)%nat with 2%nat. cbn [repeat].
    rewrite (proj2 (endsWith_spec _ _)) by (exists s; done).
    rewrite take_app_length' by lia. done.
  - change ((4 - 3) mod 4)%nat with 1%nat. cbn [repeat].
    assert (endsWith (s ++ [equals_sign]) "==" = false) as ->.
    { apply not_true_iff_false. intros (k' & He)%endsWith_spec.
      change (js "==") with ([equals_sign] ++ [equals_sign]) in He. rewrite app_assoc in He.
      apply app_inj_2 in He as [He _]; [|done]. rewrite He in Hs. apply Forall_app in Hs as [_ Hc].
      rewrite Forall_singleton in Hc. done. }
    rewrite (proj2 (endsWith_spec _ _)) by (exists s; done).
    rewrite take_app_length' by lia. done.
Qed.

(** Any buffer comes back from its base64url text. *)
Lemma buffer_roundtrip b : base64urlToBuffer (bufferToBase64url (Some b)) = Ok b.
Proof.
  unfold base64urlToBuffer, bufferToBase64url. fold (to_url (btoa b)). rewrite to_url_btoa.
  destruct (truthy _) eqn:Ht.
  2: { apply truthy_false in Ht. destruct b as [|x [|y [|z b]]]; done. }
  cbv zeta. fold (from_url (b64_char_url <$> indexes b)). rewrite from_url_indexes.
  unfold atob. rewrite filter_all.
  - rewrite drop_pad.
    + rewrite length_fmap. pose proof (indexes_length b) as Hn. apply Nat.eqb_neq in Hn as ->.
      by rewrite mapM_index, sextets_indexes.
    + rewrite length_fmap. apply indexes_length.
    + eapply Forall_impl; [apply chars_plain|]. by intros c [_ ?].
  - unfold pad4. apply Forall_app. split.
    + eapply Forall_impl; [apply chars_plain|]. intros c [-> _]. done.
    + apply Forall_forall. intros c Hc%list_elem_of_In%repeat_spec. by subst.
Qed.

(** ** The prompt is bounded and leaves nothing behind *)

Section prompt_spec.
Variable s : i18n.

Definition idle (p : page) : Prop := timer p = false ∧ interval p = false ∧ listeners p = [].

(** What a page keeps while events come. *)
Definition same_page (p p' : page) : Prop :=
  listeners p' = listeners p ∧ timer p' = timer p ∧ interval p' = interval p ∧
  prompts p' = prompts p ∧ (is_Some (btn p') ↔ is_Some (btn p)).

Lemma same_page_refl p : same_page p p.
Proof. by split_and!. Qed.

Lemma abort_same reason p : same_page p (abort reason p).
Proof. by split_and!. Qed.

Lemma update_same c at_ p : same_page p (update s c at_ p) ∧ aborted (update s c at_ p) = aborted p.
Proof.
  unfold update. destruct (btn p) eqn:E; [|by split_and!]. unfold same_page. cbn. rewrite E.
  split_and!; done || by split; eauto.
Qed.

Lemma same_page_trans p1 p2 p3 : same_page p1 p2 → same_page p2 p3 → same_page p1 p3.
Proof. unfold same_page. intros (->&->&->&->&->) (->&->&->&->&->). by split_and!. Qed.

(** What a race ends with: a cancellation whose listener was there, the timer, the browser's
    rejection, or the check of the browser's answer after events that ended nothing. *)
Definition passes (p : page) (e : event) : Prop :=
  match e with
  | Tick _ => True
  | Cancel src => CancelOn src ∉ listeners p
  | _ => False
  end.

Lemma race_spec c es p r p' :
  race s c es p = Some (r, p') →
  same_page p p' ∧
  ∀ cr, r = Ok cr → aborted p = None ∧ bad_credential (how c) cr = false ∧
    ∃ pre at_ m post, es = pre ++ Answers (Some cr) at_ m :: post ∧ Forall (passes p) pre ∧
      (at_ < expires c)%Z ∧ match m with Some src => CancelOn src ∉ listeners p | None => True end.
Proof.
  revert p. induction es as [|e es IH]; intros p; [done|]. cbn [race].
  destruct e as [at_| |src|cr at_ m|e].
  - intros Hr. apply IH in Hr as [Hs Hok].
    pose proof (update_same c at_ p) as [Hu Ha].
    assert (Hsame : same_page p (if interval p then update s c at_ p else p))
      by (destruct (interval p); [done|apply same_page_refl]).
    assert (Hab : aborted (if interval p then update s c at_ p else p) = aborted p) by by destruct (interval p).
    split; [by eapply same_page_trans|]. intros cr ->.
    destruct (Hok cr eq_refl) as (H1 & H2 & pre & a & m & post & -> & Hpre & Hlt & Hm).
    destruct Hsame as (Hl & _). split; [congruence|]. split; [done|].
    exists (Tick at_ :: pre), a, m, post. split_and!; [done| |done|].
    + constructor; [done|]. eapply Forall_impl; [exact Hpre|]. intros [] ?; cbn in *; congruence.
    + destruct m; [|done]. congruence.
  - intros [= <- <-]. split; [apply abort_same|done].
  - case_bool_decide.
    + intros [= <- <-]. split; [apply abort_same|done].
    + intros Hr. apply IH in Hr as [Hs Hok]. split; [done|]. intros cr ->.
      destruct (Hok cr eq_refl) as (H1 & H2 & pre & a & m & post & -> & Hpre & Hlt & Hm).
      split_and!; [done..|]. exists (Cancel src :: pre), a, m, post. split_and!; try done.
      by constructor.
  - set (q := match m with Some _ => _ | None => _ end). intros [= <- <-].
    assert (Hq : same_page p q) by (subst q; destruct m; [case_bool_decide|]; by split_and!).
    split; [done|]. intros cr' Hc. unfold check_answer in Hc.
    destruct (aborted q) eqn:Ea; [done|]. destruct (expires c <=? at_)%Z eqn:El; [done|].
    destruct cr as [cr|]; [|done]. destruct (bad_credential _ _) eqn:Eb; [done|]. injection Hc as <-.
    bool_prop. split_and!; [|done|].
    + subst q. destruct m; [case_bool_decide|]; done.
    + exists [], at_, m, es. split_and!; [done|constructor|done|].
      destruct m; [|done]. subst q. by case_bool_decide.
  - intros [= <- <-]. split; [apply same_page_refl|done].
Qed.

(** A prompt whose timer fires does end. *)
Lemma race_ends c es p : TimerFires ∈ es → is_Some (race s c es p).
Proof.
  revert p. induction es as [|e es IH]; intros p; [by intros ?%elem_of_nil|].
  intros [<-|Hin]%elem_of_cons; [by eexists|].
  destruct e; cbn [race]; try (by eexists); [by apply IH|]. case_bool_decide; [by eexists|]. by apply IH.
Qed.

Lemma begin_spec c p :
  idle p →
  let q := begin_prompt s c (new_controller p) in
  timer q = true ∧ aborted q = None ∧ prompts q = prompts p ∧
  (is_Some (btn q) ↔ is_Some (btn p)) ∧
  listeners q = match signal c with Some _ => [CancelOn SignalAbort] | None => [] end
                ++ [CancelOn PageHide; CancelOn PopState].
Proof.
  intros (_ & _ & Hl). destruct p as [ti iv ls ab b pr]. simpl in Hl. subst ls.
  destruct b as [b|], (signal c) eqn:E; unfold begin_prompt, new_controller, update, set_busy;
    cbn; rewrite ?E; cbn; split_and!; done || by split; eauto.
Qed.

Lemma finish_spec c p raced q :
  idle p → same_page (let q := begin_prompt s c (new_controller p) in
                      if raced : bool then open_prompt (addEventListener RejectAbort q) else q) q →
  let z := finish_prompt c (btn p) raced q in
  idle z ∧ btn z = btn p ∧ is_Some (aborted z) ∧
  prompts z = (prompts p + if raced then 1 else 0)%nat.
Proof.
  intros Hi (Hl & _ & _ & Hp & Hb). destruct (begin_spec c p Hi) as (_ & _ & Hp0 & Hb0 & Hl0).
  revert Hl Hp Hb Hp0 Hb0 Hl0. generalize (begin_prompt s c (new_controller p)) as b.
  intros b. cbv zeta. intros Hl Hp Hb Hp0 Hb0 Hl0.
  destruct q as [ti iv ls ab bt pr]. cbn in *.
  assert (Hbt : is_Some bt ↔ is_Some (btn p)) by (rewrite Hb, <- Hb0; by destruct raced).
  unfold finish_prompt, idle.
  destruct raced, (signal c); cbn in *; rewrite Hl0 in Hl; subst ls; cbn;
    (destruct (btn p) as [[ch bu]|] eqn:Ebp, bt as [bt|]; cbn;
     [|by destruct (proj2 Hbt); eauto|by destruct (proj1 Hbt); eauto|];
     rewrite ?Ebp; split_and!; try done; try (by eexists); lia).
Qed.

(** An event that neither answers nor cancels. *)
Definition cancels (c : call) (src : source) : Prop :=
  match src with SignalAbort => is_Some (signal c) | _ => True end.

Definition quiet (c : call) (e : event) : Prop :=
  match e with Tick _ => True | Cancel src => ¬ cancels c src | _ => False end.

Lemma listens c p src :
  idle p → let q := open_prompt (addEventListener RejectAbort (begin_prompt s c (new_controller p))) in
  CancelOn src ∉ listeners q → ¬ cancels c src.
Proof.
  intros Hi. cbv zeta. unfold open_prompt, addEventListener, set_listeners. cbn [listeners].
  destruct (begin_spec c p Hi) as (_ & _ & _ & _ & ->).
  destruct src, (signal c) eqn:E; cbn; rewrite ?E, !not_elem_of_cons;
    (by intros _ [? ?]) || tauto.
Qed.

(** C12: a passkey prompt is bounded and leaves nothing behind. Whatever the browser does, once the
    timer fires the request has ended; when it ends, for whatever reason, its timer, its interval and
    its listeners are gone, its controller is aborted and the button is as it was before; at
    most one native prompt was opened. A credential is given out only when it is complete and was
    answered before the deadline, at most 60 seconds away, with no cancellation before or
    during the answer: neither by the caller's signal nor by leaving the page. *)
Theorem passkey_prompt c es p :
  idle p →
  (TimerFires ∈ es → is_Some (requestCredential s c es p)) ∧
  (0 < timeout c ≤ 60000)%Z ∧
  ∀ r p', requestCredential s c es p = Some (r, p') →
    idle p' ∧ btn p' = btn p ∧ (prompts p' ≤ S (prompts p))%nat ∧
    (is_Some (aborted p') ∨ p' = p) ∧
    ∀ cr, r = Ok cr →
      supported c = true ∧ insecure c = false ∧ bad_credential (how c) cr = false ∧
      ∃ pre at_ m post, es = pre ++ Answers (Some cr) at_ m :: post ∧ Forall (quiet c) pre ∧
        (at_ < now c + timeout c)%Z ∧ match m with Some src => ¬ cancels c src | None => True end.
Proof.
  intros Hi. split_and!.
  - intros Ht. unfold requestCredential. case_match; [by eexists|]. case_match; [by eexists|].
    cbv zeta. destruct (race_ends c es (open_prompt (addEventListener RejectAbort
      (begin_prompt s c (new_controller p)))) Ht) as [[r q] ->].
    destruct (signal c) as [[]|]; by eexists.
  - unfold timeout. case_match; try lia. case_match; bool_prop; lia.
  - unfold timeout. case_match; try lia. case_match; bool_prop; lia.
  - intros r p'. unfold requestCredential.
    destruct (supported c); [|intros [= <- <-]; split_and!; [apply Hi..|done|lia|by right|done]].
    destruct (insecure c); [intros [= <- <-]; split_and!; [apply Hi..|done|lia|by right|done]|].
    cbv zeta. cbn [negb].
    destruct (race s c es _) as [[r0 q]|] eqn:Er.
    + apply race_spec in Er as [Hs Hok].
      assert (Hdone : ∀ r p', Some (r0, finish_prompt c (btn p) true q) = Some (r, p') →
        idle p' ∧ btn p' = btn p ∧ (prompts p' ≤ S (prompts p))%nat ∧
        (is_Some (aborted p') ∨ p' = p) ∧
        ∀ cr, r = Ok cr →
          true = true ∧ false = false ∧ bad_credential (how c) cr = false ∧
          ∃ pre at_ m post, es = pre ++ Answers (Some cr) at_ m :: post ∧ Forall (quiet c) pre ∧
            (at_ < now c + timeout c)%Z ∧ match m with Some src => ¬ cancels c src | None => True end).
      { intros r1 p1 [= <- <-]. destruct (finish_spec c p true q Hi Hs) as (H1 & H2 & H3 & H4).
        split_and!; [apply H1..|done|lia|by left|]. intros cr Hcr.
        destruct (Hok cr Hcr) as (_ & Hb & pre & at_ & m & post & -> & Hpre & Hlt & Hm).
        split_and!; [done..|]. exists pre, at_, m, post. split_and!; [done| |done|].
        - eapply Forall_impl; [exact Hpre|]. intros [] He; try done. by apply (listens c p).
        - destruct m; [|done]. by apply (listens c p). }
      destruct (signal c) as [[]|] eqn:Esig; [|by apply Hdone..].
      intros [= <- <-]. destruct (finish_spec c p false (abort AbortError
        (begin_prompt s c (new_controller p))) Hi (abort_same _ _)) as (H1 & H2 & H3 & H4).
      split_and!; [apply H1..|done|lia|by left|done].
    + destruct (signal c) as [[]|] eqn:Esig; [|done..].
      intros [= <- <-]. destruct (finish_spec c p false (abort AbortError
        (begin_prompt s c (new_controller p))) Hi (abort_same _ _)) as (H1 & H2 & H3 & H4).
      split_and!; [apply H1..|done|lia|by left|done].
Qed.
End prompt_spec.

(** ** What the server gets *)

(** A text of base64url that stands for a non-empty buffer. *)
Definition carries (v : option jsval) (b : option bytes) : Prop :=
  ∃ text bs, v = Some (JStr text) ∧ b = Some bs ∧ bs ≠ [] ∧ base64urlToBuffer text = Ok bs.

Definition sub_object (o : list (jsstring * jsval)) (k : jsstring) : list (jsstring * jsval) :=
  match assoc o k with Some (JObj fs) => fs | _ => [] end.

(** The fields of a posted credential. *)
Definition posted (m : method) (c : credential) : list (jsstring * jsval) :=
  match m with Get => assertion_json c | Create => registration_json c end.

Lemma carries_buffer b : has_bytes b = true → carries (Some (JStr (bufferToBase64url b))) b.
Proof.
  destruct b as [[|x b]|]; [done| |done]. intros _. eexists _, _. split_and!; [done..|].
  apply buffer_roundtrip.
Qed.

Lemma good_credential m c :
  bad_credential m c = false →
  cred_id c ≠ [] ∧ has_bytes (rawId c) = true ∧
  ∀ f, f ∈ fields m → has_bytes (response_field c f) = true.
Proof.
  unfold bad_credential. intros H. bool_prop. rewrite existsb_none in *.
  split_and!; [by apply truthy_true|done|]. intros f Hf.
  match goal with H : ∀ _, _ → _ |- _ => specialize (H f Hf); by apply negb_false_iff in H end.
Qed.

(** The binary fields survive the trip to the server. Every buffer comes back from its base64url
    text; of a credential the prompt gives out, the posted form carries the identifier, and the raw
    identifier and every field of the response the server checks as texts that decode to the
    authenticator's own non-empty bytes; and the browser is asked with the decoded
    challenge, or not asked at all. *)
Theorem passkey_fields :
  (∀ b, base64urlToBuffer (bufferToBase64url (Some b)) = Ok b) ∧
  (∀ m c, bad_credential m c = false →
     assoc (posted m c) (js "id") = Some (JStr (cred_id c)) ∧ cred_id c ≠ [] ∧
     carries (assoc (posted m c) (js "rawId")) (rawId c) ∧
     ∀ f, f ∈ fields m → carries (assoc (sub_object (posted m c) (js "response")) f) (response_field c f)) ∧
  (∀ o req ch, challenge o = Some (bufferToBase64url (Some ch)) → assertion_request o = Ok req →
     n_challenge req = ch) ∧
  (∀ s o c es p, non_empty (challenge o) = None →
     requestPasskeyAssertion s o c es p = Some (Throw DataError, p)).
Proof.
  split_and!.
  - apply buffer_roundtrip.
  - intros m c Hc. destruct (good_credential m c Hc) as (Hid & Hraw & Hf). split_and!.
    + by destruct m.
    + done.
    + destruct m; by apply carries_buffer.
    + intros f Hin. pose proof (carries_buffer _ (Hf f Hin)) as Hcar. revert Hin.
      destruct m; cbn [fields]; rewrite !list_elem_of_fmap;
        intros (x & -> & Hx); rewrite !elem_of_cons, elem_of_nil in Hx;
        (repeat destruct Hx as [->|Hx]); try done; exact Hcar.
  - intros o req ch Hch. unfold assertion_request. rewrite Hch. unfold non_empty.
    destruct (truthy _); [|done]. rewrite buffer_roundtrip. cbn [result_bind].
    destruct (credential_list _); [|done]. by intros [= <-].
  - intros s o c es p Hn. unfold requestPasskeyAssertion, prompt_with, assertion_request. by rewrite Hn.
Qed.

(** A prompt the browser answers after one second. *)
Definition sample_credential : credential :=
  {| cred_id := js "AQI"; rawId := Some [chr 1; chr 2]; cred_type := js "public-key";
     response := Some [(js "authenticatorData", [chr 3]); (js "clientDataJSON", js "{}");
                       (js "signature", [chr 255; chr 254])] |}.

Definition sample_call : call :=
  {| how := Get; supported := true; insecure := false; timeout_option := NaN; signal := Some false;
     now := 0 |}.

Definition login_button : page :=
  {| timer := false; interval := false; listeners := []; aborted := None;
     btn := Some {| childNodes := [Original 0]; aria_busy := None |}; prompts := 0 |}.

Lemma passkey_prompt_witness :
  ∃ p', requestCredential (module_state []) sample_call
          [Tick 1000; Answers (Some sample_credential) 1500 None] login_button =
        Some (Ok sample_credential, p') ∧ idle p' ∧ btn p' = btn login_button.
Proof.
  eexists. split; [vm_compute; reflexivity|].
  pose proof (passkey_prompt (module_state []) sample_call
    [Tick 1000; Answers (Some sample_credential) 1500 None] login_button) as Hw.
  destruct Hw as (_ & _ & Hw); [by split_and!|].
  edestruct Hw as (H1 & H2 & _); [vm_compute; reflexivity|]. by split.
Defined.
