(* ===== verification/LoginRoute.v ===== *)
(** * Return targets of the sign-in page

    [internal/service/frontend/renop-html/js/login-route.js]: the account pages, the check that keeps the
    page to return to local and outside authentication, and the moves to and from the
    sign-in page. The URL parser is an interface; the path rules of the standard give an instance. *)

From S2P Require Import Prelude JsText Uri.

#[local] Arguments cons {A} & _ _.

(** [s.replace(/\/$/, '')] *)
Definition drop_last_slash (s : jsstring) : jsstring :=
  match reverse s with c :: r => if ascii_eqb c "/" then reverse r else s | [] => [] end.

(** The page of a lower-case path. *)
Definition account_page (path : jsstring) : jsstring :=
  let path := drop_last_slash path in
  if eqs path "/account/login" then "login"
  else if eqs path "/account/register" then "registration"
  else if eqs path "/account/recovery" then "recovery"
  else if eqs path "/account/forgot-password" then "password-recovery"
  else [].

Definition accountPageFromPath (pathname : jsstring) : jsstring := account_page (toLowerCase pathname).

Definition isLoginPath (pathname : jsstring) : bool := eqs (accountPageFromPath pathname) "login".

(** ** Decoded paths

    A decoded path is a list of code points: a return target may hold any character. *)

Definition point := N.

(** The length and the bits of the lead byte of a UTF-8 sequence. *)
Definition lead (b : N) : option (nat * N) :=
  if (b <? 128)%N then Some (0%nat, b)
  else if ((192 <=? b) && (b <? 224))%N then Some (1%nat, b - 192)%N
  else if ((224 <=? b) && (b <? 240))%N then Some (2%nat, b - 224)%N
  else if ((240 <=? b) && (b <? 248))%N then Some (3%nat, b - 240)%N
  else None.

(** The smallest code point a sequence with so many continuation bytes may stand for. *)
Definition smallest (n : nat) : N :=
  match n with 0%nat => 0 | 1%nat => 128 | 2%nat => 2048 | _ => 65536 end%N.

Fixpoint continuation (n : nat) (acc : N) (s : jsstring) : option (N * jsstring) :=
  match n with
  | 0 => Some (acc, s)
  | S n =>
      match escape s with
      | Some (b, rest) =>
          if ((128 <=? b) && (b <? 192))%N then continuation n (acc * 64 + (b - 128)) rest else None
      | None => None
      end
  end.

Definition valid_point (n : nat) (p : N) : bool :=
  ((smallest n <=? p) && (p <=? 1114111) && negb ((55296 <=? p) && (p <=? 57343)))%N.

(** [decodeURIComponent]; [None] is the [URIError]. *)
Fixpoint decode_points (fuel : nat) (s : jsstring) : option (list point) :=
  match fuel, s with
  | _, [] => Some []
  | O, _ => Some []
  | S fuel, c :: s' =>
      if negb (ascii_eqb c "%") then cons (code c) <$> decode_points fuel s'
      else
        match escape s with
        | None => None
        | Some (b, rest) =>
            match lead b with
            | None => None
            | Some (n, bits) =>
                match continuation n bits rest with
                | None => None
                | Some (p, rest) =>
                    if valid_point n p then cons p <$> decode_points fuel rest else None
                end
            end
        end
  end.

Definition points (s : jsstring) : list point := code <$> s.

(** Backslashes, spaces and control characters. *)
Definition forbidden (p : point) : bool := (p <=? 32)%N || (p =? 92)%N.

Fixpoint points_prefix (p s : list point) : bool :=
  match p, s with
  | [], _ => true
  | x :: p, y :: s => (x =? y)%N && points_prefix p s
  | _ :: _, [] => false
  end.

Definition points_eq (p s : list point) : bool := bool_decide (p = s).

(** The string of a list of code points, where all of them are Latin-1 characters. *)
Definition latin1 (ps : list point) : option jsstring :=
  if forallb (λ p, p <? 256)%N ps then Some (chr <$> ps) else None.

(** [accountPageFromPath(decoded)] is not empty; its names hold Latin-1 characters only. *)
Definition is_account_page (ps : list point) : bool :=
  match latin1 ps with Some s => truthy (accountPageFromPath s) | None => false end.

(** ** The URL parser

    [new URL(value, 'https://renop.invalid')] for the values the code passes: the origin and the
    path. The laws are the standard's: the path of a special URL starts with a slash and holds URL
    characters only, and such a path is parsed into itself. *)

Definition base_origin : jsstring := "https://renop.invalid".

(** The characters a path shows as escapes. *)
Definition needs_escape (c : ascii) : bool :=
  negb (in_range 33 126 c) || bool_decide (c ∈ chr 34 :: js "#<>?`{}^").

Definition path_char (c : ascii) : bool := negb (needs_escape c) && negb (code c =? 92)%N.

Class PathParser := {
  new_URL : jsstring → option (jsstring * jsstring);
  new_URL_path v o p : new_URL v = Some (o, p) →
    startsWith p "/" = true ∧ Forall (λ c, path_char c = true) p;
  new_URL_root : new_URL (js "/") = Some (base_origin, js "/");
  new_URL_again v p : new_URL v = Some (base_origin, p) → startsWith p "//" = false →
    new_URL p = Some (base_origin, p)
}.

(** ** The targets *)

Section targets.
Context `{PathParser}.
(** [toLowerCase] of a character outside Latin-1. *)
Variable lower_wide : point → list point.

Definition lower_points (ps : list point) : list point :=
  mjoin ((λ p, if (p <? 256)%N then [code (lower_char (chr p))] else lower_wide p) <$> ps).

(** [None] is a value that is not a string. *)
Definition safeLoginReturnTo (value : option jsstring) : jsstring :=
  match value with
  | None => "/"
  | Some value =>
      if (1024 <? length value) || negb (startsWith value "/") || startsWith value "//"
         || existsb forbidden (points value) then "/"
      else
        match new_URL value with
        | None => "/"
        | Some (origin, pathname) =>
            match decode_points (length pathname) pathname with
            | None => "/"
            | Some decoded =>
                let decoded := lower_points decoded in
                if negb (eqs origin base_origin) || points_prefix (points (js "//")) decoded
                   || existsb forbidden decoded || is_account_page decoded
                   || points_eq decoded (points (js "/api")) || points_prefix (points (js "/api/")) decoded
                   || (1024 <? length pathname)
                then "/" else pathname
            end
        end
  end.

(** ** The history of the tab *)

(** A location: its path and the parameters of its query. *)
Record location := { pathname : jsstring; params : list (jsstring * jsstring) }.

(** The current entry, those behind it, and the popstate events sent. *)
Record tab := { current : location; back : list location; events : nat }.

Definition param (k : jsstring) (l : location) : option jsstring :=
  snd <$> List.find (λ kv, eqs kv.1 k) (params l).

Definition loginReturnTo (l : location) : jsstring := safeLoginReturnTo (param "return_to" l).

Definition navigateToLogin (returnTo : option jsstring) (replace reauth : bool) (s : tab) : tab :=
  if isLoginPath (pathname (current s)) then s
  else
    let target := safeLoginReturnTo returnTo in
    let query := (if eqs target "/" then [] else [(js "return_to", target)])
                 ++ (if reauth then [(js "reauth", js "1")] else []) in
    let route := {| pathname := "/account/login"; params := query |} in
    {| current := route; back := if replace then back s else current s :: back s;
       events := S (events s) |}.

Definition leaveLoginPage (s : tab) : tab :=
  if isLoginPath (pathname (current s)) then
    {| current := {| pathname := loginReturnTo (current s); params := [] |}; back := back s;
       events := S (events s) |}
  else s.

(** ** Safe targets *)

(** A local path, bounded, of plain URL characters, that is neither an account page nor an endpoint
    of the API. *)
Definition safe_target (r : jsstring) : Prop :=
  startsWith r "/" = true ∧ startsWith r "//" = false ∧ (length r ≤ 1024)%nat ∧
  Forall (λ c, path_char c = true) r ∧ accountPageFromPath r = [] ∧
  toLowerCase r ≠ js "/api" ∧ startsWith (toLowerCase r) "/api/" = false.

Lemma root_safe : safe_target (js "/").
Proof. split_and!; try done; [vm_compute; lia|by repeat constructor]. Qed.

(** What the checks have found of a target that is not the root. *)
Definition passed (r : jsstring) : Prop :=
  ∃ v d, new_URL v = Some (base_origin, r) ∧ decode_points (length r) r = Some d ∧
    let d := lower_points d in
    points_prefix (points (js "//")) d = false ∧ existsb forbidden d = false ∧
    is_account_page d = false ∧ points_eq d (points (js "/api")) = false ∧
    points_prefix (points (js "/api/")) d = false ∧ (length r ≤ 1024)%nat.

Lemma target_cases v : safeLoginReturnTo v = js "/" ∨ passed (safeLoginReturnTo v).
Proof.
  destruct v as [v|]; [|by left]. unfold safeLoginReturnTo.
  destruct ((1024 <? length v) || _ || _ || _); [by left|].
  destruct (new_URL v) as [[o p]|] eqn:Eu; [|by left].
  destruct (decode_points (length p) p) as [d|] eqn:Ed; [|by left]. cbv zeta.
  destruct (negb (eqs o base_origin) || _ || _ || _ || _ || _ || _) eqn:Ec; [by left|right].
  bool_prop. match goal with H : eqs _ _ = true |- _ => apply eqs_true in H as -> end.
  by exists v, d.
Qed.

(** Characters that are not escapes are decoded one by one. *)
Lemma decode_plain w fuel s :
  Forall (λ c, c ≠ "%"%char) w →
  decode_points (length w + fuel) (w ++ s) = (λ d, points w ++ d) <$> decode_points fuel s.
Proof.
  induction 1 as [|c w Hc _ IH].
  - simpl. by destruct (decode_points fuel s).
  - cbn [length Nat.add app decode_points]. apply ascii_eqb_neq in Hc as ->. cbn [negb].
    rewrite IH. by destruct (decode_points fuel s).
Qed.

Lemma lower_points_app d e : lower_points (d ++ e) = lower_points d ++ lower_points e.
Proof. unfold lower_points. by rewrite fmap_app, join_app. Qed.

Lemma points_lt c : (code c <? 256)%N = true.
Proof. by_all_chars c. Qed.

Lemma chr_of_code c : chr (code c) = c.
Proof. apply ascii_N_embedding. Qed.

Lemma lower_points_latin1 s : lower_points (points s) = points (toLowerCase s).
Proof.
  unfold lower_points, points, toLowerCase. induction s as [|c s IH]; [done|]. csimpl.
  rewrite points_lt, chr_of_code, IH. done.
Qed.

Lemma latin1_points s : latin1 (points s) = Some s.
Proof.
  unfold latin1, points. assert (forallb (λ p, p <? 256)%N (code <$> s) = true) as ->.
  { apply forallb_elem. intros p (c & -> & _)%list_elem_of_fmap. apply points_lt. }
  f_equal. rewrite <- list_fmap_compose. rewrite <- (list_fmap_id s) at 2.
  apply list_fmap_ext. intros ? c ?. apply chr_of_code.
Qed.

Lemma points_prefix_app p d : points_prefix p (p ++ d) = true.
Proof. induction p as [|x p IH]; [done|]. simpl. by rewrite N.eqb_refl. Qed.

(** A target that starts with plain characters decodes to them first. *)
Lemma passed_prefix w s d :
  Forall (λ c, c ≠ "%"%char) w → decode_points (length (w ++ s)) (w ++ s) = Some d →
  ∃ e, lower_points d = points (toLowerCase w) ++ e ∧ (s = [] → e = []).
Proof.
  intros Hw. rewrite length_app, decode_plain by done. intros Hd.
  destruct (decode_points (length s) s) as [e|] eqn:Ee; [|done]. injection Hd as <-.
  exists (lower_points e). rewrite lower_points_app, lower_points_latin1. split; [done|].
  intros ->. by injection Ee as <-.
Qed.

Lemma lower_no_percent w : Forall (λ c, c ≠ "%"%char) (toLowerCase w) → Forall (λ c, c ≠ "%"%char) w.
Proof.
  unfold toLowerCase. rewrite Forall_fmap. intros Hf. eapply Forall_impl; [exact Hf|].
  intros c Hc ->. by apply Hc.
Qed.

Lemma startsWith_lower r p :
  startsWith (toLowerCase r) p = true → ∃ w s, r = w ++ s ∧ toLowerCase w = p.
Proof.
  intros (k & Hk)%startsWith_spec. exists (take (length p) r), (drop (length p) r).
  rewrite take_drop. split; [done|]. unfold toLowerCase in *. rewrite fmap_take, Hk.
  by rewrite take_app_length.
Qed.

Ltac plain_chars := apply (bool_decide_unpack _); vm_compute; exact I.

Lemma drop_last_slash_cases s :
  s = drop_last_slash s ∨ s = drop_last_slash s ++ js "/".
Proof.
  unfold drop_last_slash. destruct s as [|c s _] using rev_ind; [by left|].
  rewrite reverse_snoc. destruct (ascii_eqb_spec c "/") as [->|]; [right|by left].
  by rewrite reverse_involutive.
Qed.

Lemma account_page_plain s : account_page s ≠ [] → Forall (λ c, c ≠ "%"%char) s.
Proof.
  intros Hs. assert (Forall (λ c, c ≠ "%"%char) (drop_last_slash s)).
  { revert Hs. unfold account_page. generalize (drop_last_slash s). intros r.
    repeat (case_match eqn:E; [apply eqs_true in E as ->; intros _; plain_chars|clear E]). done. }
  destruct (drop_last_slash_cases s) as [-> | ->]; [done|]. apply Forall_app. split; [done|plain_chars].
Qed.

Lemma passed_safe r : passed r → safe_target r.
Proof.
  intros (v & d & Hu & Hd & H1 & _ & H3 & H4 & H5 & Hlen).
  destruct (new_URL_path _ _ _ Hu) as [Hs Hc].
  assert (Hno : ∀ p, Forall (λ c, c ≠ "%"%char) p → points_prefix (points p) (lower_points d) = false →
    startsWith (toLowerCase r) p = false).
  { intros p Hp Hf. apply not_true_iff_false. intros (w & s & -> & <-)%startsWith_lower.
    destruct (passed_prefix w s d (lower_no_percent _ Hp) Hd) as (e & He & _).
    rewrite He, points_prefix_app in Hf. done. }
  assert (Hwhole : ∀ p, Forall (λ c, c ≠ "%"%char) p → toLowerCase r = p → lower_points d = points p).
  { intros p Hp <-. destruct (passed_prefix r [] d) as (e & He & Hn).
    - by apply lower_no_percent.
    - by rewrite app_nil_r.
    - by rewrite He, Hn, app_nil_r. }
  split_and!; [done| |done|done| | |].
  - apply not_true_iff_false. intros (k & ->)%startsWith_spec.
    assert (Hf : startsWith (toLowerCase (js "//" ++ k)) "//" = false) by (apply Hno; [plain_chars|done]).
    rewrite toLowerCase_app in Hf. change (toLowerCase (js "//")) with (js "//") in Hf.
    by rewrite startsWith_app in Hf.
  - destruct (accountPageFromPath r) as [|x y] eqn:Ea; [done|]. exfalso.
    assert (Hp : Forall (λ c, c ≠ "%"%char) (toLowerCase r)).
    { apply account_page_plain. unfold accountPageFromPath in Ea. by rewrite Ea. }
    rewrite (Hwhole _ Hp eq_refl) in H3. unfold is_account_page in H3. rewrite latin1_points in H3.
    unfold accountPageFromPath in H3, Ea. rewrite toLowerCase_idemp, Ea in H3. done.
  - intros Heq. rewrite (Hwhole (js "/api") ltac:(plain_chars) Heq) in H4.
    unfold points_eq in H4. by rewrite bool_decide_true in H4.
  - apply Hno; [plain_chars|done].
Qed.

Lemma target_safe v : safe_target (safeLoginReturnTo v).
Proof. destruct (target_cases v) as [->|H1]; [apply root_safe|by apply passed_safe]. Qed.

Lemma plain_path_points r :
  Forall (λ c, path_char c = true) r → existsb forbidden (points r) = false.
Proof.
  intros Hr. apply existsb_none. intros p (c & -> & Hc)%list_elem_of_fmap.
  rewrite Forall_forall in Hr. specialize (Hr c Hc). revert Hr. clear. revert c. 
  intros c. by_all_chars c.
Qed.

Lemma root_again : safeLoginReturnTo (Some (js "/")) = js "/".
Proof. unfold safeLoginReturnTo. cbn. rewrite new_URL_root. vm_compute. reflexivity. Qed.

Lemma target_again v : safeLoginReturnTo (Some (safeLoginReturnTo v)) = safeLoginReturnTo v.
Proof.
  destruct (target_cases v) as [->|Hp]; [apply root_again|].
  revert Hp. generalize (safeLoginReturnTo v). clear v. intros r Hp.
  destruct (passed_safe r Hp) as (Hs & Hss & Hlen & Hc & _).
  destruct Hp as (v & d & Hu & Hd & H1 & H2 & H3 & H4 & H5 & _).
  unfold safeLoginReturnTo. rewrite Hs, Hss, (plain_path_points r Hc).
  rewrite (proj2 (Nat.ltb_ge _ _) Hlen). cbn [orb negb].
  rewrite (new_URL_again _ _ Hu Hss), Hd. cbv zeta.
  by rewrite eqs_refl, H1, H2, H3, H4, H5, (proj2 (Nat.ltb_ge _ _) Hlen).
Qed.

Lemma safe_not_login r : safe_target r → isLoginPath r = false.
Proof. intros (_ & _ & _ & _ & Ha & _). unfold isLoginPath. by rewrite Ha. Qed.

Lemma login_round_trip returnTo reauth s :
  isLoginPath (pathname (current s)) = false →
  let s1 := navigateToLogin returnTo false reauth s in
  isLoginPath (pathname (current s1)) = true ∧
  leaveLoginPage s1 =
    {| current := {| pathname := safeLoginReturnTo returnTo; params := [] |};
       back := current s :: back s; events := S (S (events s)) |}.
Proof.
  intros Hs. unfold navigateToLogin. rewrite Hs. cbv zeta. split; [done|].
  unfold leaveLoginPage. cbn [current pathname back events].
  change (isLoginPath "/account/login") with true. cbv iota. f_equal. f_equal.
  unfold loginReturnTo, param. cbn [params]. destruct (eqs (safeLoginReturnTo returnTo) "/") eqn:E.
  - apply eqs_true in E. rewrite E. by destruct reauth.
  - cbn. apply target_again.
Qed.

(** C7: signing in never sends the user elsewhere. Whatever text a link carries as the page to return
    to, the target is a path of this site: it starts with one slash, is at most 1024
    plain URL characters, and is neither an account page nor an endpoint of the API; and
    checking it again changes nothing. So going to the sign-in page and leaving it after signing in
    ends on exactly that target, outside the sign-in page, with the page the
    user came from behind it. *)
Theorem return_target_safe :
  (∀ v, safe_target (safeLoginReturnTo v)) ∧
  (∀ v, safeLoginReturnTo (Some (safeLoginReturnTo v)) = safeLoginReturnTo v) ∧
  (∀ returnTo reauth s, isLoginPath (pathname (current s)) = false →
     let s1 := navigateToLogin returnTo false reauth s in
     let s2 := leaveLoginPage s1 in
     isLoginPath (pathname (current s1)) = true ∧
     pathname (current s2) = safeLoginReturnTo returnTo ∧ params (current s2) = [] ∧
     isLoginPath (pathname (current s2)) = false ∧ back s2 = current s :: back s ∧
     leaveLoginPage s2 = s2) ∧
  (∀ s, isLoginPath (pathname (current (leaveLoginPage s))) = false).
Proof.
  split_and!; [apply target_safe|apply target_again| |].
  - intros returnTo reauth s Hs. cbv zeta. destruct (login_round_trip returnTo reauth s Hs) as [H1 H2].
    split; [done|]. rewrite H2. cbn [current pathname params back].
    pose proof (safe_not_login _ (target_safe returnTo)) as Ht. split_and!; try done.
    unfold leaveLoginPage. cbn [current pathname]. by rewrite Ht.
  - intros s. unfold leaveLoginPage. destruct (isLoginPath (pathname (current s))) eqn:E; [|done].
    cbn [current pathname]. apply safe_not_login, target_safe.
Qed.
End targets.

(** ** The path rules of the URL standard

    For a text that starts with one slash and holds no spaces, control characters or backslashes:
    the path ends at a question mark or hash, its characters are escaped, and the dot
    segments are resolved. *)

Definition path_end (c : ascii) : bool := ascii_eqb c "?" || ascii_eqb c "#".

Fixpoint until_end (s : jsstring) : jsstring :=
  match s with [] => [] | c :: s => if path_end c then [] else c :: until_end s end.

Definition escape_char (c : ascii) : jsstring :=
  if needs_escape c then
    if (code c <? 128)%N then percent (code c)
    else percent (192 + code c / 64) ++ percent (128 + code c mod 64)
  else [c].

Definition escape_path (s : jsstring) : jsstring := mjoin (escape_char <$> s).

Definition single_dot (seg : jsstring) : bool :=
  bool_decide (toLowerCase seg ∈ [js "."; js "%2e"]).
Definition double_dot (seg : jsstring) : bool :=
  bool_decide (toLowerCase seg ∈ [js ".."; js ".%2e"; js "%2e."; js "%2e%2e"]).

(** [acc] holds the segments so far, the last one first. *)
Fixpoint resolve_dots (acc segs : list jsstring) : list jsstring :=
  match segs with
  | [] => reverse acc
  | seg :: rest =>
      let final := match rest with [] => true | _ => false end in
      if double_dot seg then resolve_dots (if final then [] :: tail acc else tail acc) rest
      else if single_dot seg then resolve_dots (if final then [] :: acc else acc) rest
      else resolve_dots (seg :: acc) rest
  end.

Definition path_of (v : jsstring) : jsstring :=
  "/"%char :: join "/" (resolve_dots [] (split "/" (escape_path (until_end (tail v))))).

Definition rooted (v : jsstring) : bool :=
  startsWith v "/" && negb (startsWith v "//") && negb (existsb forbidden (points v)).

Definition parse_rooted (v : jsstring) : option (jsstring * jsstring) :=
  if rooted v then Some (base_origin, path_of v) else None.

Lemma escape_char_path c : negb (forbidden (code c)) && negb (path_end c) = true →
  Forall (λ x, path_char x = true) (escape_char c).
Proof. by_all_chars c. Qed.

Lemma path_char_escape c : path_char c = true → escape_char c = [c] ∧ path_end c = false.
Proof. by_all_chars c. Qed.

Lemma until_end_spec s : Forall (λ c, path_end c = false ∧ c ∈ s) (until_end s).
Proof.
  induction s as [|c s IH]; [constructor|]. cbn [until_end]. destruct (path_end c) eqn:E; [constructor|].
  constructor; [split; [done|by left]|]. eapply Forall_impl; [exact IH|]. intros x [? ?]. split; [done|by right].
Qed.

Lemma escape_path_chars s :
  existsb forbidden (points s) = false →
  Forall (λ c, path_char c = true) (escape_path (until_end s)).
Proof.
  intros Hf. apply Forall_join, Forall_fmap.
  eapply Forall_impl; [apply until_end_spec|]. intros c [He Hc]. apply escape_char_path.
  rewrite existsb_none in Hf. rewrite (Hf (code c)), He; [done|].
  apply list_elem_of_fmap. by exists c.
Qed.

Lemma escape_path_id s : Forall (λ c, path_char c = true) s → escape_path (until_end s) = s.
Proof.
  induction 1 as [|c s Hc _ IH]; [done|]. apply path_char_escape in Hc as [He Hp].
  cbn [until_end]. rewrite Hp. unfold escape_path in *. csimpl. by rewrite He, IH.
Qed.

(** Segments that are resolved already stay as they are. *)
Definition plain_segment (seg : jsstring) : Prop := double_dot seg = false ∧ single_dot seg = false.

Lemma resolve_plain acc segs : Forall plain_segment segs → resolve_dots acc segs = reverse acc ++ segs.
Proof.
  intros Hs. revert acc. induction Hs as [|seg segs [H1 H2] _ IH]; intros acc; cbn [resolve_dots].
  - by rewrite app_nil_r.
  - rewrite H1, H2, IH, reverse_cons, <- app_assoc. done.
Qed.

Lemma resolve_spec (P : jsstring → Prop) acc segs :
  P [] → Forall P acc → Forall P segs → Forall plain_segment acc →
  Forall P (resolve_dots acc segs) ∧ Forall plain_segment (resolve_dots acc segs).
Proof.
  intros H0 Ha Hs Hp. revert acc Ha Hp.
  assert (Hnil : plain_segment []) by (split; vm_compute; reflexivity).
  assert (Htl : ∀ Q (l : list jsstring), Forall Q l → Forall Q (tail l)) by (intros Q [|??] Hq; [done|by inversion Hq]).
  induction Hs as [|seg segs Hseg _ IH]; intros acc Ha Hp; cbn [resolve_dots].
  - split; by apply Forall_reverse.
  - cbv zeta. destruct (double_dot seg) eqn:E1, segs as [|s' segs'], (single_dot seg) eqn:E2;
      apply IH; repeat constructor; auto.
Qed.

Lemma resolve_nonempty acc segs : segs ≠ [] → resolve_dots acc segs ≠ [].
Proof.
  revert acc. induction segs as [|seg [|s' segs] IH]; intros acc Hne; [done| |].
  - cbn [resolve_dots]. destruct (double_dot seg), (single_dot seg); cbn [resolve_dots];
      rewrite reverse_cons; by intros [_ ?]%app_nil.
  - cbn [resolve_dots]. cbv zeta. destruct (double_dot seg), (single_dot seg); by apply IH.
Qed.

Lemma splitBy_forall (P : ascii → Prop) sep s : Forall P s → Forall (Forall P) (splitBy sep s).
Proof.
  induction 1 as [|c s Hc _ IH]; cbn [splitBy]; [by repeat constructor|].
  destruct (sep c); [by constructor|]. destruct (splitBy sep s) as [|w ws]; [by repeat constructor|].
  inversion IH; subst. by repeat constructor.
Qed.

(** Segments of a resolved path. *)
Definition url_segment (seg : jsstring) : Prop :=
  Forall (λ c, path_char c = true) seg ∧ "/"%char ∉ seg.

Lemma split_segments s :
  Forall (λ c, path_char c = true) s → Forall url_segment (split "/" s).
Proof.
  intros Hs. unfold split.
  pose proof (splitBy_forall _ (ascii_eqb "/") s Hs) as H1. pose proof (splitBy_parts (ascii_eqb "/") s) as H2.
  rewrite Forall_forall in H1, H2. apply Forall_forall. intros seg Hin. split; [by apply H1|].
  intros Hc. specialize (H2 seg Hin). rewrite Forall_forall in H2. by specialize (H2 _ Hc).
Qed.

Lemma join_segments segs : Forall url_segment segs → Forall (λ c, path_char c = true) (join "/" segs).
Proof.
  induction 1 as [|seg segs [Hs _] _ IH]; [constructor|].
  destruct segs as [|s2 segs]; [done|]. rewrite join_cons by done.
  apply Forall_app. split; [done|]. apply Forall_app. split; [by repeat constructor|done].
Qed.

Lemma path_of_segments v :
  rooted v = true →
  ∃ segs, path_of v = "/"%char :: join "/" segs ∧ segs ≠ [] ∧ Forall url_segment segs ∧
    Forall plain_segment segs.
Proof.
  unfold rooted. intros [[Hs _]%andb_true_iff Hf%negb_true_iff]%andb_true_iff.
  set (segs := split "/" (escape_path (until_end (tail v)))).
  exists (resolve_dots [] segs). split; [done|].
  assert (Hsegs : Forall url_segment segs).
  { apply split_segments, escape_path_chars. destruct v as [|c v]; [done|].
    cbn in Hf. by apply orb_false_iff in Hf as [_ Hf]. }
  destruct (resolve_spec url_segment [] segs) as [H1 H2];
    [split; [constructor|apply not_elem_of_nil]|constructor|done|constructor|].
  split; [|done]. apply resolve_nonempty, splitBy_nonempty.
Qed.

Lemma path_of_again v :
  rooted v = true → startsWith (path_of v) "//" = false → parse_rooted (path_of v) = Some (base_origin, path_of v).
Proof.
  intros Hv Hss. destruct (path_of_segments v Hv) as (segs & Hp & Hne & Hu & Hpl).
  pose proof (join_segments segs Hu) as Hc.
  assert (Hr : rooted (path_of v) = true).
  { unfold rooted. rewrite Hss, (plain_path_points (path_of v)).
    - rewrite Hp. done.
    - rewrite Hp. by constructor. }
  unfold parse_rooted. rewrite Hr. do 2 f_equal. rewrite Hp. unfold path_of. cbn [tail]. f_equal.
  rewrite escape_path_id by done. change (js "/") with ["/"%char].
  rewrite split_join, resolve_plain; [done|done|done|].
  eapply Forall_impl; [exact Hu|]. by intros seg [_ ?].
Qed.

Lemma parse_rooted_path v o p : parse_rooted v = Some (o, p) →
  startsWith p "/" = true ∧ Forall (λ c, path_char c = true) p.
Proof.
  unfold parse_rooted. destruct (rooted v) eqn:Hv; [|done]. intros [= <- <-].
  destruct (path_of_segments v Hv) as (segs & -> & _ & Hu & _).
  split; [done|]. constructor; [done|]. by apply join_segments.
Qed.

Global Instance rooted_parser : PathParser.
Proof.
  refine {| new_URL := parse_rooted |}.
  - exact parse_rooted_path.
  - vm_compute. reflexivity.
  - unfold parse_rooted at 1. intros v p. destruct (rooted v) eqn:Hv; [|done].
    intros [= <-]. by apply path_of_again.
Defined.

(** The links of the tests. *)
Example local_target : safeLoginReturnTo (λ p, [p]) (Some (js "/user/alice?ignored=value#fragment")) = js "/user/alice".
Proof. vm_compute. reflexivity. Qed.

Example rejected_targets :
  (λ v, safeLoginReturnTo (λ p, [p]) (Some (js v))) <$>
    ["//evil.example"; "/\evil.example"; "/%2f%2fevil.example"; "/.//evil.example"; "/account/%6Cogin/";
     "/API/auth"; "/x/../api"; "/a%00b"; "https://evil.example/"; "/%zz"]%stdpp
  = replicate 10 (js "/").
Proof. vm_compute. reflexivity. Qed.
