(* ===== verification/Mfa.v ===== *)
(** * The second factor of signing in

    [internal/service/frontend/renop-html/js/mfa-login.js]: the step after the password, with its
    challenge on the server, its deadline, and the verification by a code or a passkey. Requests,
    the consent dialog and the browser's prompt ([Fido]) answer by events, in any order with clicks,
    the timer and navigation. Messages are kept by their keys; the focus and the busy state of the
    buttons ([runButtonAction]) are left out. *)

From S2P Require Import Prelude JsText.
Local Open Scope nat_scope.

#[local] Arguments cons {A} & _ _.

(** A key, the text [responseErrorMessage] made of an answer, or [passkeyErrorMessage] of an error. *)
Inductive message := Key (key : jsstring) | Answer (text : jsstring) | PasskeyError (name : jsstring).

Inductive factor := Totp | Passkey.

(** The fields of [status] that are read. *)
Record challenge := { totp : bool; passkey : bool }.

(** A call of [showMFALogin] that waits: for the answer, its error text, or its body. *)
Inductive show_stage := GotChallenge | ChallengeText | ChallengeBody.
Record show_call := { show_id : nat; show_sequence : nat; silent : bool; show_stage_of : show_stage }.

(** A call of [verifyFactor] that waits. Its identity is the identity of its controller. *)
Inductive verify_stage := Consent | Begin | BeginText | BeginBody | Prompt | Finish | FinishText | Session.
Record verify_call := {
  controller : nat; verify_sequence : nat; factor_of : factor; verify_stage_of : verify_stage }.

(** Requests to [/api/auth/mfa], and what the module does for good. *)
Inductive effect :=
  | Get
  | SendCode (code : jsstring)
  | SendBegin
  | SendCredential
  | Opened
  | Delete
  | Published (current : nat) (session : jsstring).

(** [abort] is the controller in use. A controller is aborted in the moment it is given up, so that
    one is aborted exactly when it is not in use. *)
Record mfa := {
  sequence : nat;
  active : bool;
  deadline : option nat;
  abort : option nat;
  fresh : nat;
  shows : list show_call;
  verifies : list verify_call;
  form_hidden : bool;
  password_hidden : bool;
  code : jsstring;
  code_disabled : bool;
  passkey_hidden : bool;
  error : option message;
  login_error : option message;
  effects : list effect
}.

Definition with_calls (ss : list show_call) (vs : list verify_call) (m : mfa) : mfa :=
  {| sequence := sequence m; active := active m; deadline := deadline m; abort := abort m; fresh := fresh m;
     shows := ss; verifies := vs; form_hidden := form_hidden m; password_hidden := password_hidden m;
     code := code m; code_disabled := code_disabled m; passkey_hidden := passkey_hidden m;
     error := error m; login_error := login_error m; effects := effects m |}.

Definition with_errors (e le : option message) (m : mfa) : mfa :=
  {| sequence := sequence m; active := active m; deadline := deadline m; abort := abort m; fresh := fresh m;
     shows := shows m; verifies := verifies m; form_hidden := form_hidden m; password_hidden := password_hidden m;
     code := code m; code_disabled := code_disabled m; passkey_hidden := passkey_hidden m;
     error := e; login_error := le; effects := effects m |}.

Definition with_code (c : jsstring) (m : mfa) : mfa :=
  {| sequence := sequence m; active := active m; deadline := deadline m; abort := abort m; fresh := fresh m;
     shows := shows m; verifies := verifies m; form_hidden := form_hidden m; password_hidden := password_hidden m;
     code := c; code_disabled := code_disabled m; passkey_hidden := passkey_hidden m;
     error := error m; login_error := login_error m; effects := effects m |}.

Definition emit (x : effect) (m : mfa) : mfa :=
  {| sequence := sequence m; active := active m; deadline := deadline m; abort := abort m; fresh := fresh m;
     shows := shows m; verifies := verifies m; form_hidden := form_hidden m; password_hidden := password_hidden m;
     code := code m; code_disabled := code_disabled m; passkey_hidden := passkey_hidden m;
     error := error m; login_error := login_error m; effects := effects m ++ [x] |}.

Definition inactive (m : mfa) : mfa :=
  {| sequence := sequence m; active := false; deadline := deadline m; abort := abort m; fresh := fresh m;
     shows := shows m; verifies := verifies m; form_hidden := form_hidden m; password_hidden := password_hidden m;
     code := code m; code_disabled := code_disabled m; passkey_hidden := passkey_hidden m;
     error := error m; login_error := login_error m; effects := effects m |}.

Definition showChallengeError (e : message) (m : mfa) : mfa :=
  if active m then with_errors (Some e) (login_error m) m else with_errors (error m) (Some e) m.

Definition resetMFALogin (m : mfa) : mfa :=
  let hadChallenge := active m in
  let m' := {| sequence := S (sequence m); active := false; deadline := None; abort := None; fresh := fresh m;
               shows := shows m; verifies := verifies m; form_hidden := true; password_hidden := false;
               code := []; code_disabled := false; passkey_hidden := passkey_hidden m;
               error := None; login_error := login_error m; effects := effects m |} in
  if hadChallenge then emit Delete m' else m'.

(** ** [showMFALogin] *)

Definition drop_show (s : show_call) (m : mfa) : mfa :=
  with_calls (List.filter (λ k, negb (show_id k =? show_id s)) (shows m)) (verifies m) m.

Definition put_show (st : show_stage) (s : show_call) (m : mfa) : mfa :=
  with_calls ((λ k, if show_id k =? show_id s
                    then {| show_id := show_id s; show_sequence := show_sequence s; silent := silent s;
                            show_stage_of := st |}
                    else k) <$> shows m) (verifies m) m.

Definition bump (m : mfa) : mfa :=
  {| sequence := S (sequence m); active := active m; deadline := deadline m; abort := abort m;
     fresh := S (fresh m); shows := shows m; verifies := verifies m; form_hidden := form_hidden m;
     password_hidden := password_hidden m; code := code m; code_disabled := code_disabled m;
     passkey_hidden := passkey_hidden m; error := error m; login_error := login_error m; effects := effects m |}.

Definition showMFALogin (quiet : bool) (m : mfa) : mfa :=
  let m' := bump m in
  emit Get (with_calls (shows m ++ [{| show_id := fresh m; show_sequence := sequence m'; silent := quiet;
                                       show_stage_of := GotChallenge |}]) (verifies m) m').

Definition show_current (s : show_call) (m : mfa) : bool := show_sequence s =? sequence m.

(** The [catch] of the call. *)
Definition show_failed (s : show_call) (m : mfa) : mfa :=
  let m := drop_show s m in
  if negb (silent s) && show_current s m then showChallengeError (Key "mfa.unavailable") m else m.

(** The answer: whether it is ok, or a rejection. *)
Definition show_answer (s : show_call) (r : result unit bool) (m : mfa) : mfa :=
  match r with
  | Throw _ => show_failed s m
  | Ok ok =>
      if negb (show_current s m) then drop_show s m
      else if negb ok then (if silent s then drop_show s m else put_show ChallengeText s m)
      else put_show ChallengeBody s m
  end.

(** The text of a refused challenge is shown without another look at the sequence. *)
Definition show_text (s : show_call) (r : result unit jsstring) (m : mfa) : mfa :=
  match r with
  | Throw _ => show_failed s m
  | Ok text => showChallengeError (Answer text) (drop_show s m)
  end.

Definition open_challenge (c : challenge) (m : mfa) : mfa :=
  {| sequence := sequence m; active := true; deadline := Some (sequence m); abort := abort m; fresh := fresh m;
     shows := shows m; verifies := verifies m; form_hidden := false; password_hidden := true;
     code := []; code_disabled := negb (totp c); passkey_hidden := negb (passkey c);
     error := None; login_error := login_error m; effects := effects m ++ [Opened] |}.

Definition show_body (s : show_call) (r : result unit challenge) (m : mfa) : mfa :=
  match r with
  | Throw _ => show_failed s m
  | Ok c => if negb (show_current s m) then drop_show s m else open_challenge c (drop_show s m)
  end.

(** The timer at [expires_at]. *)
Definition deadline_fires (n : nat) (m : mfa) : mfa :=
  let m := {| sequence := sequence m; active := active m; deadline := None; abort := abort m; fresh := fresh m;
              shows := shows m; verifies := verifies m; form_hidden := form_hidden m;
              password_hidden := password_hidden m; code := code m; code_disabled := code_disabled m;
              passkey_hidden := passkey_hidden m; error := error m; login_error := login_error m;
              effects := effects m |} in
  if negb (n =? sequence m) then m else showChallengeError (Key "mfa.invalid") (resetMFALogin m).

Definition updateMFALoginPage (visible entering : bool) (m : mfa) : mfa :=
  if negb visible then resetMFALogin m else if entering then showMFALogin true m else m.

(** ** [verifyFactor] *)

Definition drop_verify (v : verify_call) (m : mfa) : mfa :=
  with_calls (shows m) (List.filter (λ k, negb (controller k =? controller v)) (verifies m)) m.

Definition put_verify (st : verify_stage) (v : verify_call) (m : mfa) : mfa :=
  with_calls (shows m)
    ((λ k, if controller k =? controller v
           then {| controller := controller v; verify_sequence := verify_sequence v; factor_of := factor_of v;
                   verify_stage_of := st |}
           else k) <$> verifies m) m.

Definition aborted (v : verify_call) (m : mfa) : bool := negb (bool_decide (abort m = Some (controller v))).

(** [current !== sequence || controller.signal.aborted] *)
Definition overtaken (v : verify_call) (m : mfa) : bool :=
  negb (verify_sequence v =? sequence m) || aborted v m.

Definition verifyFactor (f : factor) (m : mfa) : mfa :=
  if negb (active m) then m
  else
    {| sequence := sequence m; active := active m; deadline := deadline m; abort := Some (fresh m);
       fresh := S (fresh m); shows := shows m;
       verifies := verifies m ++ [{| controller := fresh m; verify_sequence := sequence m; factor_of := f;
                                     verify_stage_of := Consent |}];
       form_hidden := form_hidden m; password_hidden := password_hidden m; code := code m;
       code_disabled := code_disabled m; passkey_hidden := passkey_hidden m; error := None;
       login_error := login_error m; effects := effects m |}.

(** The [catch] of the call, for the error of this name. *)
Definition verify_failed (v : verify_call) (name : jsstring) (m : mfa) : mfa :=
  let m := drop_verify v m in
  if overtaken v m then m
  else
    let m := if eqs name "TimeoutError" then resetMFALogin m else m in
    showChallengeError (match factor_of v with Passkey => PasskeyError name | Totp => Key "mfa.unavailable" end) m.

(** [controller.signal.throwIfAborted()]: the error ends the call without a trace. *)
Definition unless_aborted (v : verify_call) (go : mfa → mfa) (m : mfa) : mfa :=
  if aborted v m then verify_failed v "AbortError" m else go m.

Definition consent_answer (v : verify_call) (r : result jsstring bool) (m : mfa) : mfa :=
  match r with
  | Throw name => verify_failed v name m
  | Ok given =>
      if negb given || overtaken v m then drop_verify v m
      else match factor_of v with
           | Passkey => put_verify Begin v (emit SendBegin m)
           | Totp => unless_aborted v (λ m, put_verify Finish v (emit (SendCode (code m)) m)) m
           end
  end.

Definition begin_answer (v : verify_call) (r : result jsstring bool) (m : mfa) : mfa :=
  match r with
  | Throw name => verify_failed v name m
  | Ok ok => unless_aborted v (λ m, put_verify (if ok then BeginBody else BeginText) v m) m
  end.

(** The text of a refusal is written to the form without another look at the sequence. *)
Definition text_answer (v : verify_call) (r : result jsstring jsstring) (m : mfa) : mfa :=
  match r with
  | Throw name => verify_failed v name m
  | Ok text => with_errors (Some (Answer text)) (login_error m) (drop_verify v m)
  end.

Definition begin_body (v : verify_call) (r : result jsstring unit) (m : mfa) : mfa :=
  match r with
  | Throw name => verify_failed v name m
  | Ok _ => unless_aborted v (λ m, put_verify Prompt v m) m
  end.

Definition prompt_answer (v : verify_call) (r : result jsstring unit) (m : mfa) : mfa :=
  match r with
  | Throw name => verify_failed v name m
  | Ok _ => unless_aborted v (λ m, put_verify Finish v (emit SendCredential m)) m
  end.

Definition finish_answer (v : verify_call) (r : result jsstring bool) (m : mfa) : mfa :=
  match r with
  | Throw name => verify_failed v name m
  | Ok ok =>
      if overtaken v m then drop_verify v m
      else put_verify (if ok then Session else FinishText) v (with_code [] m)
  end.

Definition session_answer (v : verify_call) (r : result jsstring jsstring) (m : mfa) : mfa :=
  match r with
  | Throw name => verify_failed v name m
  | Ok session =>
      if overtaken v m then drop_verify v m
      else emit (Published (verify_sequence v) session) (resetMFALogin (inactive (drop_verify v m)))
  end.

(** ** Events *)

Inductive event :=
  | Show (quiet : bool)
  | ShowAnswer (id : nat) (r : result unit bool)
  | ShowText (id : nat) (r : result unit jsstring)
  | ShowBody (id : nat) (r : result unit challenge)
  | DeadlineFires
  | Leave
  | Page (visible entering : bool)
  | Type_code (c : jsstring)
  | Verify (f : factor)
  | ConsentAnswer (id : nat) (r : result jsstring bool)
  | BeginAnswer (id : nat) (r : result jsstring bool)
  | TextAnswer (id : nat) (r : result jsstring jsstring)
  | BeginBodyAnswer (id : nat) (r : result jsstring unit)
  | PromptAnswer (id : nat) (r : result jsstring unit)
  | FinishAnswer (id : nat) (r : result jsstring bool)
  | SessionAnswer (id : nat) (r : result jsstring jsstring).

Definition find_show (n : nat) (m : mfa) : option show_call := List.find (λ s, show_id s =? n) (shows m).
Definition find_verify (n : nat) (m : mfa) : option verify_call := List.find (λ v, controller v =? n) (verifies m).

Definition on_show (n : nat) (st : show_stage) (go : show_call → mfa → mfa) (m : mfa) : option mfa :=
  match find_show n m with
  | Some s =>
      match show_stage_of s, st with
      | GotChallenge, GotChallenge | ChallengeText, ChallengeText | ChallengeBody, ChallengeBody => Some (go s m)
      | _, _ => None
      end
  | None => None
  end.

#[global] Instance verify_stage_eq_dec : EqDecision verify_stage.
Proof. solve_decision. Defined.

Definition on_verify (n : nat) (sts : list verify_stage) (go : verify_call → mfa → mfa) (m : mfa) : option mfa :=
  match find_verify n m with
  | Some v => if bool_decide (verify_stage_of v ∈ sts) then Some (go v m) else None
  | None => None
  end.

Definition exec (ev : event) (m : mfa) : option mfa :=
  match ev with
  | Show quiet => Some (showMFALogin quiet m)
  | ShowAnswer n r => on_show n GotChallenge (λ s, show_answer s r) m
  | ShowText n r => on_show n ChallengeText (λ s, show_text s r) m
  | ShowBody n r => on_show n ChallengeBody (λ s, show_body s r) m
  | DeadlineFires => match deadline m with Some n => Some (deadline_fires n m) | None => None end
  | Leave => Some (resetMFALogin m)
  | Page visible entering => Some (updateMFALoginPage visible entering m)
  | Type_code c => Some (with_code c m)
  | Verify f => Some (verifyFactor f m)
  | ConsentAnswer n r => on_verify n [Consent] (λ v, consent_answer v r) m
  | BeginAnswer n r => on_verify n [Begin] (λ v, begin_answer v r) m
  | TextAnswer n r => on_verify n [BeginText; FinishText] (λ v, text_answer v r) m
  | BeginBodyAnswer n r => on_verify n [BeginBody] (λ v, begin_body v r) m
  | PromptAnswer n r => on_verify n [Prompt] (λ v, prompt_answer v r) m
  | FinishAnswer n r => on_verify n [Finish] (λ v, finish_answer v r) m
  | SessionAnswer n r => on_verify n [Session] (λ v, session_answer v r) m
  end.

Fixpoint run (es : list event) (m : mfa) : option mfa :=
  match es with [] => Some m | e :: es => match exec e m with Some m' => run es m' | None => None end end.

Definition initial : mfa :=
  {| sequence := 0; active := false; deadline := None; abort := None; fresh := 0; shows := []; verifies := [];
     form_hidden := true; password_hidden := false; code := []; code_disabled := false; passkey_hidden := true;
     error := None; login_error := None; effects := [] |}.

Definition step (m m' : mfa) : Prop := ∃ ev, exec ev m = Some m'.

(** ** Challenges on the server *)

(** Whether a challenge is open after these effects; [None]: one was closed that was not open. *)
Fixpoint challenge_open (b : bool) (l : list effect) : option bool :=
  match l with
  | [] => Some b
  | Opened :: l => challenge_open true l
  | Delete :: l | Published _ _ :: l => if b then challenge_open false l else None
  | _ :: l => challenge_open b l
  end.

Lemma challenge_open_app b l k :
  challenge_open b (l ++ k) = match challenge_open b l with Some b' => challenge_open b' k | None => None end.
Proof. revert b. induction l as [|[] l IH]; intros b; cbn; auto; by destruct b. Qed.

(** The sign-ins that were completed, by the sequence of their challenge. *)
Definition published (l : list effect) : list nat :=
  omap (λ x, match x with Published n _ => Some n | _ => None end) l.

Record mfa_ok (m : mfa) : Prop := {
  ok_form : form_hidden m = negb (active m);
  ok_password : password_hidden m = active m;
  ok_open : challenge_open false (effects m) = Some (active m);
  ok_once : NoDup (published (effects m));
  ok_past : Forall (λ n, n < sequence m) (published (effects m));
  ok_abort : ∀ c, abort m = Some c → active m = true
}.

Create HintDb mfa.

Definition plain (x : effect) : bool :=
  match x with Get | SendCode _ | SendBegin | SendCredential => true | _ => false end.

Lemma published_app l k : published (l ++ k) = published l ++ published k.
Proof. apply omap_app. Qed.

Lemma ok_calls ss vs m : mfa_ok m → mfa_ok (with_calls ss vs m).
Proof. by intros []. Qed.

Lemma ok_errors e le m : mfa_ok m → mfa_ok (with_errors e le m).
Proof. by intros []. Qed.

Lemma ok_code c m : mfa_ok m → mfa_ok (with_code c m).
Proof. by intros []. Qed.

Lemma ok_emit x m : plain x = true → mfa_ok m → mfa_ok (emit x m).
Proof.
  intros Hx []. split; cbn; [done|done| | | |done].
  - rewrite challenge_open_app, ok_open0. by destruct x.
  - rewrite published_app. destruct x; try done; cbn; by rewrite app_nil_r.
  - rewrite published_app. destruct x; try done; cbn; by rewrite app_nil_r.
Qed.

Lemma ok_error e m : mfa_ok m → mfa_ok (showChallengeError e m).
Proof. intros H. unfold showChallengeError. destruct (active m); by apply ok_errors. Qed.

Lemma past_weaken (l : list nat) n : Forall (λ k, k < n) l → Forall (λ k, k < S n) l.
Proof. intros H. eapply Forall_impl; [exact H|]. cbn. lia. Qed.

Lemma ok_reset m : mfa_ok m → mfa_ok (resetMFALogin m).
Proof.
  intros []. unfold resetMFALogin. destruct (active m) eqn:Ea; split; cbn; try done.
  - rewrite challenge_open_app, ok_open0. done.
  - rewrite published_app. cbn. by rewrite app_nil_r.
  - rewrite published_app. cbn. rewrite app_nil_r. by apply past_weaken.
  - by apply past_weaken.
Qed.

#[local] Hint Resolve ok_calls ok_errors ok_code ok_error ok_reset : mfa.

Lemma ok_drop_show s m : mfa_ok m → mfa_ok (drop_show s m).
Proof. apply ok_calls. Qed.

Lemma ok_drop_verify v m : mfa_ok m → mfa_ok (drop_verify v m).
Proof. apply ok_calls. Qed.

Lemma ok_show quiet m : mfa_ok m → mfa_ok (showMFALogin quiet m).
Proof.
  intros H. unfold showMFALogin. apply ok_emit; [done|]. apply ok_calls. destruct H. split; cbn; try done.
  by apply past_weaken.
Qed.

Lemma ok_open_challenge c m : mfa_ok m → mfa_ok (open_challenge c m).
Proof.
  intros []. split; cbn; try done.
  - rewrite challenge_open_app, ok_open0. done.
  - rewrite published_app. cbn. by rewrite app_nil_r.
  - rewrite published_app. cbn. by rewrite app_nil_r.
Qed.

Lemma ok_show_failed s m : mfa_ok m → mfa_ok (show_failed s m).
Proof. intros H. unfold show_failed. cbv zeta. split_if; eauto using ok_drop_show with mfa. Qed.

Lemma ok_verify_failed v name m : mfa_ok m → mfa_ok (verify_failed v name m).
Proof.
  intros H. unfold verify_failed. cbv zeta. split_if; [by apply ok_drop_verify|]. apply ok_error.
  split_if; eauto using ok_drop_verify with mfa.
Qed.

#[local] Hint Resolve ok_drop_show ok_drop_verify ok_show ok_open_challenge ok_show_failed ok_verify_failed : mfa.

Lemma ok_unless v go m : mfa_ok m → (mfa_ok m → mfa_ok (go m)) → mfa_ok (unless_aborted v go m).
Proof. intros H Hg. unfold unless_aborted. split_if; auto with mfa. Qed.

Lemma ok_put_verify st v m : mfa_ok m → mfa_ok (put_verify st v m).
Proof. apply ok_calls. Qed.

(** A session is published for the challenge on the screen, once. *)
Lemma ok_session v session m :
  mfa_ok m → overtaken v m = false →
  mfa_ok (emit (Published (verify_sequence v) session) (resetMFALogin (inactive (drop_verify v m)))).
Proof.
  intros [] [Hv Ha]%orb_false_iff. apply negb_false_iff, Nat.eqb_eq in Hv.
  apply negb_false_iff, bool_decide_eq_true, ok_abort0 in Ha. rewrite Ha in *. split; cbn; try done.
  - by rewrite challenge_open_app, ok_open0.
  - rewrite published_app. apply NoDup_app. split_and!; [done| |apply NoDup_singleton].
    intros n Hn ->%list_elem_of_singleton. rewrite Forall_forall in ok_past0. specialize (ok_past0 _ Hn). lia.
  - rewrite published_app. apply Forall_app_2; [by apply past_weaken|]. cbn. constructor; [lia|constructor].
Qed.

Lemma on_show_Some n st go m m' :
  on_show n st go m = Some m' → ∃ s, find_show n m = Some s ∧ show_stage_of s = st ∧ m' = go s m.
Proof.
  unfold on_show. destruct (find_show n m) as [s|]; [|done]. intros H. exists s.
  destruct (show_stage_of s) eqn:E, st; try done; by injection H as <-.
Qed.

Lemma on_verify_Some n sts go m m' :
  on_verify n sts go m = Some m' → ∃ v, find_verify n m = Some v ∧ verify_stage_of v ∈ sts ∧ m' = go v m.
Proof.
  unfold on_verify. destruct (find_verify n m) as [v|]; [|done]. case_bool_decide; [|done].
  intros [= <-]. by exists v.
Qed.

Lemma ok_verify_click f m : mfa_ok m → mfa_ok (verifyFactor f m).
Proof. intros H. unfold verifyFactor. destruct (active m) eqn:Ea; [|done]. destruct H. rewrite Ea in *. by split; cbn. Qed.

Lemma ok_deadline n m : mfa_ok m → mfa_ok (deadline_fires n m).
Proof.
  intros H. unfold deadline_fires. cbv zeta. set (m1 := {| sequence := sequence m; deadline := None |}).
  assert (mfa_ok m1) by (by destruct H). split_if; auto with mfa.
Qed.

Lemma ok_step m m' : mfa_ok m → step m m' → mfa_ok m'.
Proof.
  intros H [ev He].
  destruct ev as [q|n r|n r|n r| | |vis en|c|f|n r|n r|n r|n r|n r|n r|n r]; cbn [exec] in He.
  - injection He as <-. by apply ok_show.
  - apply on_show_Some in He as (s & _ & _ & ->). unfold show_answer. destruct r as [ok|]; [|auto with mfa].
    repeat split_if; auto with mfa; by apply ok_calls.
  - apply on_show_Some in He as (s & _ & _ & ->). unfold show_text. destruct r; auto with mfa.
  - apply on_show_Some in He as (s & _ & _ & ->). unfold show_body. destruct r; [|auto with mfa].
    split_if; auto with mfa.
  - destruct (deadline m); [|done]. injection He as <-. by apply ok_deadline.
  - injection He as <-. by apply ok_reset.
  - injection He as <-. unfold updateMFALoginPage. repeat split_if; auto with mfa.
  - injection He as <-. by apply ok_code.
  - injection He as <-. by apply ok_verify_click.
  - apply on_verify_Some in He as (v & _ & _ & ->). unfold consent_answer. destruct r as [given|]; [|auto with mfa].
    split_if; [auto with mfa|]. destruct (factor_of v).
    + apply ok_unless; [done|]. intros _. by apply ok_put_verify, ok_emit.
    + by apply ok_put_verify, ok_emit.
  - apply on_verify_Some in He as (v & _ & _ & ->). unfold begin_answer. destruct r as [ok|]; [|auto with mfa].
    apply ok_unless; [done|]. apply ok_put_verify.
  - apply on_verify_Some in He as (v & _ & _ & ->). unfold text_answer. destruct r; auto with mfa.
  - apply on_verify_Some in He as (v & _ & _ & ->). unfold begin_body. destruct r; [|auto with mfa].
    apply ok_unless; [done|]. apply ok_put_verify.
  - apply on_verify_Some in He as (v & _ & _ & ->). unfold prompt_answer. destruct r; [|auto with mfa].
    apply ok_unless; [done|]. intros _. by apply ok_put_verify, ok_emit.
  - apply on_verify_Some in He as (v & _ & _ & ->). unfold finish_answer. destruct r as [ok|]; [|auto with mfa].
    split_if; [auto with mfa|]. apply ok_put_verify. auto with mfa.
  - apply on_verify_Some in He as (v & _ & _ & ->). unfold session_answer. destruct r as [ok|]; [|auto with mfa].
    destruct (overtaken v m) eqn:E; [auto with mfa|]. by apply ok_session.
Qed.

Lemma reachable_ok m : reachable (λ m, m = initial) step m → mfa_ok m.
Proof.
  apply invariant_reachable; [|intros s s'; apply ok_step]. intros s ->.
  split; cbn; try done; apply NoDup_nil_2.
Qed.

(** ** What a given-up verification can still do *)

(** The verification an event answers. *)
Definition answers (ev : event) : option nat :=
  match ev with
  | ConsentAnswer n _ | BeginAnswer n _ | BeginBodyAnswer n _ | PromptAnswer n _ | FinishAnswer n _
  | SessionAnswer n _ | TextAnswer n _ => Some n
  | _ => None
  end.

Lemma aborted_drop v m : aborted v (drop_verify v m) = aborted v m.
Proof. done. Qed.

Lemma failed_aborted v name m : aborted v m = true → verify_failed v name m = drop_verify v m.
Proof. intros H. unfold verify_failed, overtaken. cbv zeta. rewrite aborted_drop, H, orb_true_r. done. Qed.

Lemma unless_drop v go m : aborted v m = true → unless_aborted v go m = drop_verify v m.
Proof. intros H. unfold unless_aborted. rewrite H. by apply failed_aborted. Qed.

Lemma aborted_leaves ev v m m' :
  answers ev = Some (controller v) → find_verify (controller v) m = Some v → aborted v m = true →
  exec ev m = Some m' →
  m' = drop_verify v m ∨
  ∃ text, ev = TextAnswer (controller v) (Ok text) ∧ m' = with_errors (Some (Answer text)) (login_error m) (drop_verify v m).
Proof.
  intros Ha Hf Hab He. assert (overtaken v m = true) as Ho by (unfold overtaken; by rewrite Hab, orb_true_r).
  destruct ev as [q|n r|n r|n r| | |vis en|c|f|n r|n r|n r|n r|n r|n r|n r]; try done; injection Ha as ->;
    cbn [exec] in He; apply on_verify_Some in He as (v' & Hv' & _ & ->); rewrite Hf in Hv'; injection Hv' as <-.
  - left. unfold consent_answer. destruct r as [given|]; [|by apply failed_aborted]. by rewrite Ho, orb_true_r.
  - left. unfold begin_answer. destruct r; [by apply unless_drop|by apply failed_aborted].
  - unfold text_answer. destruct r as [text|]; [right; by exists text|left; by apply failed_aborted].
  - left. unfold begin_body. destruct r; [by apply unless_drop|by apply failed_aborted].
  - left. unfold prompt_answer. destruct r; [by apply unless_drop|by apply failed_aborted].
  - left. unfold finish_answer. destruct r; [by rewrite Ho|by apply failed_aborted].
  - left. unfold session_answer. destruct r; [by rewrite Ho|by apply failed_aborted].
Qed.

(** C13: In every run: the form of the second factor is shown exactly while a challenge is active,
    and the password form otherwise. Every challenge that was opened is on the screen, or was closed
    once, by a request that deletes it or by the sign-in that completed it, and nothing else is ever
    closed; so a completed sign-in is not deleted and no session is published without a challenge. No
    challenge completes twice. A verification that was given up, by another one, by leaving, or by
    the deadline, publishes nothing and sends nothing, whatever its answers are, and changes nothing on the screen, with one
    exception: the text of a refusal that was being read when it was given up is still written into the error line. *)
Theorem second_factor m :
  reachable (λ m, m = initial) step m →
  form_hidden m = negb (active m) ∧ password_hidden m = active m ∧
  challenge_open false (effects m) = Some (active m) ∧ NoDup (published (effects m)) ∧
  (∀ ev v m', answers ev = Some (controller v) → find_verify (controller v) m = Some v →
     abort m ≠ Some (controller v) → exec ev m = Some m' →
     m' = drop_verify v m ∨
     ∃ text, ev = TextAnswer (controller v) (Ok text) ∧ m' = with_errors (Some (Answer text)) (login_error m) (drop_verify v m)) ∧
  abort (resetMFALogin m) = None.
Proof.
  intros H%reachable_ok. destruct H. split_and!; try done.
  - intros ev v m' Ha Hf Hn. apply aborted_leaves; [done|done|]. unfold aborted. by rewrite bool_decide_false.
  - unfold resetMFALogin. by destruct (active m).
Qed.

Lemma mfa_run_reachable es m m' :
  reachable (λ m, m = initial) step m → run es m = Some m' → reachable (λ m, m = initial) step m'.
Proof.
  revert m. induction es as [|ev es IH]; intros m Hr; cbn; [by intros [= <-]|].
  destruct (exec ev m) as [m1|] eqn:E; [|done]. apply IH. eapply reachable_step; [exact Hr|]. by exists ev.
Qed.

(** A passkey prompt is open, then a code is entered and accepted; the prompt's answer comes last. *)
Definition example_run : list event :=
  [ Show false; ShowAnswer 0 (Ok true); ShowBody 0 (Ok {| totp := true; passkey := true |});
    Verify Passkey; ConsentAnswer 1 (Ok true); BeginAnswer 1 (Ok true); BeginBodyAnswer 1 (Ok tt);
    Type_code "123456"; Verify Totp; ConsentAnswer 2 (Ok true); FinishAnswer 2 (Ok true);
    SessionAnswer 2 (Ok (js "session")); PromptAnswer 1 (Ok tt) ].

Lemma second_factor_witness :
  ∃ m, run example_run initial = Some m ∧
    effects m = [Get; Opened; SendBegin; SendCode "123456"; Published 1 "session"] ∧
    form_hidden m = true ∧ challenge_open false (effects m) = Some false.
Proof.
  eexists. split; [vm_compute; reflexivity|]. split; [reflexivity|]. split; [reflexivity|].
  match goal with |- challenge_open false (effects ?m) = _ => destruct (second_factor m) as (_ & _ & H & _);
    [apply (mfa_run_reachable example_run initial); [by apply reachable_init|vm_compute; reflexivity]|exact H] end.
Defined.

(** ** Texts that come too late *)

(** A code is refused; while the reason is read the sign-in starts over with another challenge. The
    old reason appears under the new challenge. *)
Lemma old_reason_in_new_challenge :
  ∃ m, run [Show false; ShowAnswer 0 (Ok true); ShowBody 0 (Ok {| totp := true; passkey := false |});
            Verify Totp; ConsentAnswer 1 (Ok true); FinishAnswer 1 (Ok false); Leave;
            Show false; ShowAnswer 2 (Ok true); ShowBody 2 (Ok {| totp := true; passkey := false |});
            TextAnswer 1 (Ok (js "expired"))] initial = Some m ∧
    active m = true ∧ error m = Some (Answer "expired").
Proof. eexists. split_and!; vm_compute; reflexivity. Qed.
