(* ===== verification/Registration.v ===== *)
(** * Account registration

    [internal/service/frontend/renop-html/js/registration.js] and [mail-status.js]: the page as a state with
    the requests it waits for. What the user types, the answers of the server, the clock and the page's
    arrival and departure are events. The check of the browser on the e-mail field, the consent
    ([Legal.ensureLegalConsent]) and the questions about a weak password
    ([PasswordStrength.confirmWeakPasswordIfNeeded]) come as answers; focus, hints and the meter are
    left out. *)

From S2P Require Import Prelude JsText JsValue PasswordStrength.
From coqutil Require Import Datatypes.RecordSettersUsingExistingGetters.
Local Open Scope nat_scope.

#[local] Arguments cons {A} & _ _.

(** ** The state of a delivery, as text *)

Definition MAIL_STATUSES : list jsstring :=
  js <$> ["queued"; "paused"; "sending"; "checking"; "accepted"; "sent"; "delivered"; "failed"; "unknown";
          "expired"; "cancelled"; "queued_provider"]%stdpp.

(** The key of the text; the parameter of [t] is left out. *)
Definition mailStatusLabel (status : jsval) : jsstring :=
  js "mail.status." ++ match status with
                       | JStr s => if existsb (eqs s) MAIL_STATUSES then s else js "unknown"
                       | _ => js "unknown"
                       end.

(** The states after which the page asks again. *)
Definition waiting_status (status : jsval) : bool :=
  match status with
  | JStr s => existsb (eqs s) (js <$> ["queued"; "paused"; "sending"; "checking"; "queued_provider"]%stdpp)
  | _ => false
  end.

Section Page.
Variable t : jsstring → list (jsstring * jsval) → jsstring.

(** ** Data *)

Record inputs := {
  username : jsstring; nickname : jsstring; email : jsstring; code : jsstring;
  password : jsstring; confirmation : jsstring; importProfile : bool
}.
Definition empty_inputs : inputs :=
  {| username := []; nickname := []; email := []; code := []; password := []; confirmation := []; importProfile := false |}.

(** An account offered by a provider, as far as the page reads it; [provider] is empty without one. *)
Record pending_account := {
  pa_email : jsstring; provider : jsstring; pa_email_required : bool; username_available : bool;
  pa_username : jsstring; pa_nickname : jsstring; avatar_available : bool; expires_at : Z
}.

(** The receipt of a code that was sent: [serial] tells objects apart. *)
Record receipt := { serial : nat; ticket : jsstring; deadline : Z }.

Record body := {
  b_username : jsstring; b_nickname : jsstring; b_email : jsstring; b_password : jsstring; b_code : jsstring;
  b_provider : jsstring; import_avatar : bool
}.

(** What the page waits for. [gone]: the page was left by a tab since, which resets the consent and so ends a
    check under way with a refusal ([Legal.resetLegalConsent], [Legal.ensure_end]). *)
Inductive task :=
  | Status (revision : nat)
  | Pending (revision : nat)
  | SendConsent (gone : bool)
  | Code (revision : nat) (address : jsstring)
  | SubmitConsent (gone : bool)
  | WeakPassword (revision : nat) (returnTo : jsstring) (b : body)
  | Register (revision : nat) (returnTo : jsstring) (b : body)
  | Poll (current : receipt).

(** The requests the page has made. *)
Inductive request := CodeRequest (address provider : jsstring) | Registration (b : body) | PollRequest (r : receipt) (at_time : Z).

Record page := {
  active : bool; epoch : nat; availabilityEpoch : nat; pending : option pending_account;
  current_receipt : option receipt; timer : option Z; expiryTimer : option (pending_account * Z);
  form : inputs; fields_disabled : bool; code_required : bool; links_hidden : bool;
  error : jsstring; availability : jsstring; delivery : jsstring;
  sending : bool; submitting : bool; tasks : list task; requests : list request; now : Z; next_serial : nat;
  (** The page [navigateToLogin] goes to, and the name it fills in. *)
  gone_to : option (jsstring * jsstring)
}.

Definition set_tasks (ts : list task) (s : page) : page := { s with tasks := ts }.
Definition add_task (k : task) (s : page) : page := { s with tasks := tasks s ++ [k] }.
Definition ask (r : request) (s : page) : page := { s with requests := requests s ++ [r] }.

(** [clearTimeout(timer); receipt = null; delivery.textContent = ''] *)
Definition clearDelivery (s : page) : page :=
  { s with timer := None; current_receipt := None; delivery := [] }.

(** [refreshRegistrationAvailability], up to its request. *)
Definition refreshRegistrationAvailability (s : page) : page :=
  let revision := S (availabilityEpoch s) in
  add_task (Status revision) { s with availabilityEpoch := revision }.

(** [Boolean(pending?.provider)] *)
Definition has_provider (s : page) : bool :=
  match pending s with Some p => truthy (provider p) | None => false end.

(** [pending?.provider || ''] *)
Definition provider_name (s : page) : jsstring := match pending s with Some p => provider p | None => [] end.

(** The rest of it: [None] is a failed request; otherwise [enabled] and [email_required]. *)
Definition status_answered (revision : nat) (answer : option (bool * bool)) (s : page) : page :=
  if negb (revision =? availabilityEpoch s) then s
  else match answer with
  | None =>
      let s := { s with links_hidden := true } in
      if active s then { s with fields_disabled := true; availability := t "registration.unavailable" [] } else s
  | Some (enabled, email_required) =>
      let s := { s with links_hidden := negb enabled } in
      if negb (active s) then s
      else
        let s := { s with fields_disabled := negb enabled;
                          availability := if enabled then [] else t "registration.disabled" [] } in
        if negb enabled then s
        else
          let required := match pending s with
                          | Some p => if truthy (provider p) then pa_email_required p else email_required
                          | None => email_required
                          end in
          let s := { s with code_required := required } in
          let s := if required && negb email_required
                   then { s with fields_disabled := true; availability := t "oauth.mailRequired" [] } else s in
          match pending s with
          | Some p => if truthy (provider p) && (expires_at p <=? now s)%Z
                      then { s with fields_disabled := true; availability := t "registration.expired" [] } else s
          | None => s
          end
  end.

(** [loadRegistration], up to its request. *)
Definition loadRegistration (s : page) : page :=
  add_task (Pending (epoch s)) { s with availabilityEpoch := S (availabilityEpoch s); fields_disabled := true }.

(** Failures of [requestJSON]: a message with its status, or another error. *)
Inductive failure := Localized (message : jsstring) (status : Z) | OtherFailure.

Definition failure_text (f : failure) : jsstring :=
  match f with Localized m _ => m | OtherFailure => t "registration.unavailable" [] end.

(** The rest of it; [from_provider] is the parameter [provider] of the address. *)
Definition pending_answered (revision : nat) (from_provider : bool) (answer : pending_account + failure) (s : page) : page :=
  if negb (active s && (revision =? epoch s)) then s
  else match answer with
  | inl result =>
      let s := { s with pending := Some result; form := { form s with email := pa_email result } } in
      let s := if truthy (provider result)
               then { s with error := if username_available result then error s else t "registration.chooseUsername" [];
                             expiryTimer := Some (result, (now s + Z.max 0 (expires_at result - now s))%Z) } else s in
      refreshRegistrationAvailability s
  | inr f =>
      if from_provider then { s with fields_disabled := true; availability := t "registration.expired" [] }
      else
        let s := match f with
                 | Localized _ 400 => s
                 | _ => { s with error := t "registration.unavailable" [] }
                 end in
        refreshRegistrationAvailability s
  end.

(** [updateRegistrationPage(false)] *)
Definition leave_page (s : page) : page :=
  { clearDelivery s with active := false; epoch := S (epoch s); expiryTimer := None; pending := None;
                         form := empty_inputs; error := []; fields_disabled := true }.

(** [updateRegistrationPage(true, true)] *)
Definition enter_page (s : page) : page := loadRegistration { s with active := true; epoch := S (epoch s) }.

(** [pollDelivery], up to its request. *)
Definition pollDelivery (s : page) : page :=
  let s := { s with timer := None } in
  match current_receipt s with
  | Some r => if active s then add_task (Poll r) (ask (PollRequest r (now s)) s) else s
  | None => s
  end.

Definition is_current (r : receipt) (s : page) : bool :=
  match current_receipt s with Some c => serial c =? serial r | None => false end.

Definition POLL_INTERVAL : Z := 3000.
Definition RECEIPT_LIFETIME : Z := 600000.

(** The rest of it: [None] is a failed request. *)
Definition poll_answered (r : receipt) (answer : option jsval) (s : page) : page :=
  if negb (active s && is_current r s) then s
  else match answer with
  | None => { s with delivery := t "mail.requestFailed" [] }
  | Some status =>
      let s := { s with delivery := t (mailStatusLabel status) [] } in
      if waiting_status status && (now s <? deadline r)%Z
      then { s with timer := Some (now s + POLL_INTERVAL)%Z } else s
  end.

(** The button that sends a code: the click, the consent, the answer. *)
Definition send_click (valid : bool) (s : page) : page :=
  if sending s then s
  else if negb (active s) || fields_disabled s || negb valid then s
  else add_task (SendConsent false) { s with sending := true }.

Definition send_consented (consent : bool) (s : page) : page :=
  if negb consent then { s with sending := false }
  else
    let address := trim (email (form s)) in
    add_task (Code (epoch s) address) (ask (CodeRequest address (provider_name s)) { s with error := [] }).

Definition code_answered (revision : nat) (address : jsstring) (answer : (jsstring * jsval) + failure) (s : page) : page :=
  let s := { s with sending := false } in
  match answer with
  | inl (ticket, status) =>
      if negb (active s && (revision =? epoch s) && eqs address (trim (email (form s)))) then s
      else
        { clearDelivery s with
          current_receipt := Some {| serial := next_serial s; ticket := ticket; deadline := (now s + RECEIPT_LIFETIME)%Z |};
          next_serial := S (next_serial s); delivery := t (mailStatusLabel status) [];
          timer := Some (now s + POLL_INTERVAL)%Z }
  | inr f => if active s && (revision =? epoch s) then { s with error := failure_text f } else s
  end.

(** The form: the click, the consent, the questions about the password, the answer. *)
Definition body_of (f : inputs) (p : option pending_account) : body := {|
  b_username := trim (username f); b_nickname := trim (nickname f); b_email := trim (email f);
  b_password := password f; b_code := trim (code f);
  b_provider := match p with Some p => provider p | None => [] end;
  import_avatar := importProfile f && match p with Some p => avatar_available p | None => true end |}.

Definition submit_click (s : page) : page :=
  if submitting s then s
  else if negb (active s) || fields_disabled s then s
  else add_task (SubmitConsent false) { s with submitting := true }.

Definition submit_consented (consent : bool) (returnTo : jsstring) (s : page) : page :=
  let done s := { s with submitting := false } in
  if negb consent then done s
  else
    match getPasswordLengthError t (password (form s)) with
    | Some e => done { s with error := e }
    | None =>
        if negb (eqs (password (form s)) (confirmation (form s)))
        then done { s with error := t "login.passwordsDoNotMatch" [] }
        else add_task (WeakPassword (epoch s) returnTo (body_of (form s) (pending s))) { s with error := [] }
    end.

Definition weak_answered (revision : nat) (returnTo : jsstring) (b : body) (confirmed : bool) (s : page) : page :=
  if negb confirmed || negb (active s) || negb (revision =? epoch s) then { s with submitting := false }
  else add_task (Register revision returnTo b) (ask (Registration b) s).

(** [inl]: the name the server took. *)
Definition register_answered (revision : nat) (returnTo : jsstring) (answer : jsstring + failure) (s : page) : page :=
  let s := { s with submitting := false } in
  if negb (active s && (revision =? epoch s)) then s
  else match answer with
  | inl name => { leave_page s with gone_to := Some (returnTo, name) }
  | inr f => { s with error := failure_text f }
  end.

(** ** Events *)

Inductive event :=
  | Enter                                  (* updateRegistrationPage(true, true) *)
  | LeaveTab                               (* another tab is shown *)
  | PageHide
  | Refresh                                (* the administrator's switch may have changed *)
  | TypeFields (f : inputs)                (* any field but the address and the box *)
  | TypeEmail (e : jsstring)
  | ToggleImport (on : bool)
  | SendClick (valid : bool)
  | SubmitClick
  | StatusAnswer (i : nat) (answer : option (bool * bool))
  | PendingAnswer (i : nat) (from_provider : bool) (answer : pending_account + failure)
  | SendConsented (i : nat) (consent : bool)
  | CodeAnswer (i : nat) (answer : (jsstring * jsval) + failure)
  | SubmitConsented (i : nat) (consent : bool) (returnTo : jsstring)
  | WeakAnswer (i : nat) (confirmed : bool)
  | RegisterAnswer (i : nat) (answer : jsstring + failure)
  | PollAnswer (i : nat) (answer : option jsval)
  | PollTimer
  | ExpiryTimer
  | Tick (ms : Z).

(** The [i]-th task is over. *)
Definition drop_task (i : nat) (s : page) : page := { s with tasks := delete i (tasks s) }.

Definition mark_left (k : task) : task :=
  match k with SendConsent _ => SendConsent true | SubmitConsent _ => SubmitConsent true | k => k end.

Definition usable (s : page) : bool := active s && negb (fields_disabled s).

(** [importProfile] changes: the names of the provider, or empty ones. *)
Definition import_changed (on : bool) (s : page) : page :=
  let s := { s with form := { form s with importProfile := on } } in
  match pending s with
  | Some p =>
      if truthy (provider p) then
        { s with form := { form s with username := if on && username_available p then pa_username p else [];
                                       nickname := if on then pa_nickname p else [] } }
      else s
  | None => s
  end.

(** The fields the user cannot change this way stay as they are. *)
Definition typed_fields (f : inputs) (s : page) : page :=
  { s with form := { f with email := email (form s); importProfile := importProfile (form s) } }.

Definition step (e : event) (s : page) : option page :=
  match e with
  | Enter => Some (enter_page s)
  | LeaveTab => Some (set_tasks (mark_left <$> tasks s) (leave_page s))
  | PageHide => Some (leave_page s)
  | Refresh => Some (refreshRegistrationAvailability s)
  | TypeFields f => if usable s then Some (typed_fields f s) else None
  | TypeEmail e => if usable s then Some (clearDelivery { s with form := { form s with email := e } }) else None
  | ToggleImport on => if usable s then Some (import_changed on s) else None
  | SendClick valid => Some (send_click valid s)
  | SubmitClick => Some (submit_click s)
  | StatusAnswer i answer =>
      match tasks s !! i with Some (Status revision) => Some (status_answered revision answer (drop_task i s)) | _ => None end
  | PendingAnswer i from_provider answer =>
      match tasks s !! i with
      | Some (Pending revision) => Some (pending_answered revision from_provider answer (drop_task i s))
      | _ => None
      end
  | SendConsented i consent =>
      match tasks s !! i with
      | Some (SendConsent gone) => Some (send_consented (consent && negb gone) (drop_task i s))
      | _ => None
      end
  | CodeAnswer i answer =>
      match tasks s !! i with
      | Some (Code revision address) => Some (code_answered revision address answer (drop_task i s))
      | _ => None
      end
  | SubmitConsented i consent returnTo =>
      match tasks s !! i with
      | Some (SubmitConsent gone) => Some (submit_consented (consent && negb gone) returnTo (drop_task i s))
      | _ => None
      end
  | WeakAnswer i confirmed =>
      match tasks s !! i with
      | Some (WeakPassword revision returnTo b) => Some (weak_answered revision returnTo b confirmed (drop_task i s))
      | _ => None
      end
  | RegisterAnswer i answer =>
      match tasks s !! i with
      | Some (Register revision returnTo b) => Some (register_answered revision returnTo answer (drop_task i s))
      | _ => None
      end
  | PollAnswer i answer =>
      match tasks s !! i with Some (Poll r) => Some (poll_answered r answer (drop_task i s)) | _ => None end
  | PollTimer =>
      match timer s with Some due => if (due <=? now s)%Z then Some (pollDelivery s) else None | None => None end
  | ExpiryTimer =>
      match expiryTimer s with
      | Some (result, due) =>
          if (due <=? now s)%Z then
            let s := { s with expiryTimer := None } in
            Some (if active s && match pending s with Some _ => true | None => false end
                  then { s with fields_disabled := true; availability := t "registration.expired" [] } else s)
          else None
      | None => None
      end
  | Tick ms => if (0 <=? ms)%Z then Some { s with now := (now s + ms)%Z } else None
  end.

Fixpoint run (es : list event) (s : page) : option page :=
  match es with [] => Some s | e :: es => match step e s with Some s' => run es s' | None => None end end.

Definition initial : page := {|
  active := false; epoch := 0; availabilityEpoch := 0; pending := None; current_receipt := None; timer := None;
  expiryTimer := None; form := empty_inputs; fields_disabled := true; code_required := true; links_hidden := true;
  error := []; availability := []; delivery := []; sending := false; submitting := false; tasks := [];
  requests := []; now := 0; next_serial := 0; gone_to := None |}.

(** ** A page that was left *)

Definition clean (s : page) : Prop :=
  form s = empty_inputs ∧ current_receipt s = None ∧ timer s = None ∧ expiryTimer s = None ∧ pending s = None ∧
  fields_disabled s = true.

Ltac unfold_step :=
  unfold enter_page, leave_page, loadRegistration, refreshRegistrationAvailability, status_answered, pending_answered,
    send_click, send_consented, code_answered, submit_click, submit_consented, weak_answered, register_answered,
    pollDelivery, poll_answered, import_changed, typed_fields, clearDelivery, usable, set_tasks, drop_task, add_task, ask in *.

Ltac step_cases Hs :=
  repeat (match type of Hs with context [match ?x with _ => _ end] => destruct x eqn:? end; cbn in Hs; try discriminate Hs);
  first [injection Hs as <- | idtac].

Ltac by_steps Hs e :=
  destruct e; cbn in Hs; unfold_step; step_cases Hs; cbn; unfold const in *; bool_prop; intros; try done; try congruence.

Lemma clean_step e s s' : step e s = Some s' → (active s = false → clean s) → active s' = false → clean s'.
Proof. unfold clean. intros Hs. by_steps Hs e; intuition congruence. Qed.

(** ** What is sent *)

(** The fields can be sent: the password has a permitted length and equals its confirmation. *)
Definition sendable (s : page) : Prop :=
  getPasswordLengthError t (password (form s)) = None ∧ password (form s) = confirmation (form s).

(** Every body that is on its way or was sent has the property. *)
Definition task_ok (P : body → Prop) (k : task) : Prop :=
  match k with WeakPassword _ _ b | Register _ _ b => P b | _ => True end.
Definition request_ok (P : body → Prop) (r : request) : Prop := match r with Registration b => P b | _ => True end.

Definition bodies_ok (P : body → Prop) (s : page) : Prop := Forall (task_ok P) (tasks s) ∧ Forall (request_ok P) (requests s).

Lemma Forall_delete {A} (P : A → Prop) i l : Forall P l → Forall P (delete i l).
Proof.
  revert i. induction l as [|x l IH]; intros [|i] Hl; try done; apply Forall_cons in Hl as [Hx Hl]; [done|].
  constructor; [done|by apply IH].
Qed.

(** A step keeps the property if it holds of the fields of the moment at which a registration goes on after its consent. *)
Lemma bodies_step P e s s' :
  step e s = Some s' →
  (∀ i returnTo, e = SubmitConsented i true returnTo → sendable s → P (body_of (form s) (pending s))) →
  bodies_ok P s → bodies_ok P s'.
Proof.
  unfold bodies_ok, sendable. intros Hs Hnew. assert (Forall (task_ok P) (tasks s) → Forall (task_ok P) (mark_left <$> tasks s)) as Hm.
  { intros Ht. apply Forall_fmap. eapply Forall_impl; [exact Ht|]. by intros []. }
  revert Hm Hnew. by_steps Hs e; destruct_and?; rewrite ?Forall_app, ?Forall_singleton; split_and?;
    try done; try (cbn; by auto using Forall_delete).
  1: { cbn. subst. eapply Hnew; [reflexivity|]. split; [done|]. by apply eqs_true. }
  all: match goal with E : tasks _ !! _ = Some _, Ht : Forall (task_ok _) _ |- _ => exact (Forall_lookup_1 _ _ _ _ Ht E) end.
Qed.

(** ** The buttons *)

Definition count {A} (f : A → bool) (l : list A) : nat := length (List.filter f l).

#[local] Arguments count : simpl never.

Lemma count_one {A} (f : A → bool) x : count f [x] = if f x then 1 else 0.
Proof. unfold count. cbn. by destruct (f x). Qed.

Lemma count_app {A} (f : A → bool) l k : count f (l ++ k) = count f l + count f k.
Proof. unfold count. by rewrite List.filter_app, length_app. Qed.

Lemma count_cons {A} (f : A → bool) x l : count f (x :: l) = (if f x then 1 else 0) + count f l.
Proof. unfold count. cbn. by destruct (f x). Qed.

Lemma count_delete {A} (f : A → bool) i l x :
  l !! i = Some x → count f l = count f (delete i l) + (if f x then 1 else 0).
Proof.
  revert i. unfold count. induction l as [|y l IH]; intros [|i] Hi; try done; cbn in Hi; simplify_eq.
  - change (delete 0 (x :: l)) with l. cbn. destruct (f x); cbn; lia.
  - specialize (IH i Hi). change (delete (S i) (y :: l)) with (y :: delete i l). cbn. destruct (f y); cbn; lia.
Qed.

Lemma count_map {A} (f : A → bool) (g : A → A) l : (∀ x, f (g x) = f x) → count f (g <$> l) = count f l.
Proof. intros Hg. unfold count. induction l as [|x l IH]; [done|]. csimpl. rewrite Hg. destruct (f x); cbn; by rewrite IH. Qed.

Definition is_send (k : task) : bool := match k with SendConsent _ | Code _ _ => true | _ => false end.
Definition is_submit (k : task) : bool :=
  match k with SubmitConsent _ | WeakPassword _ _ _ | Register _ _ _ => true | _ => false end.

(** A button is busy exactly while something it started is under way. *)
Definition buttons_ok (s : page) : Prop :=
  count is_send (tasks s) = (if sending s then 1 else 0) ∧ count is_submit (tasks s) = (if submitting s then 1 else 0).

Lemma buttons_step e s s' : step e s = Some s' → buttons_ok s → buttons_ok s'.
Proof.
  unfold buttons_ok. intros Hs.
  assert (count is_send (mark_left <$> tasks s) = count is_send (tasks s)) as Hm1 by (apply count_map; by intros []).
  assert (count is_submit (mark_left <$> tasks s) = count is_submit (tasks s)) as Hm2 by (apply count_map; by intros []).
  revert Hm1 Hm2. by_steps Hs e; rewrite ?count_app, ?count_one;
    try match goal with E : tasks s !! _ = Some _ |- _ =>
          pose proof (count_delete is_send _ _ _ E) as Hd1; pose proof (count_delete is_submit _ _ _ E) as Hd2;
          cbn [is_send is_submit] in Hd1, Hd2 end.
  all: cbn [is_send is_submit].
  all: destruct (sending _), (submitting _); try discriminate.
  all: lia.
Qed.

(** ** The questions about a delivery *)

Definition polling (ts : list task) : list receipt := omap (λ k, match k with Poll r => Some r | _ => None end) ts.
Definition polled (rs : list request) : list receipt := omap (λ r, match r with PollRequest r _ => Some r | _ => None end) rs.
Definition same_serial (k : nat) (r : receipt) : bool := serial r =? k.

Lemma same_serial_refl r : same_serial (serial r) r = true.
Proof. apply Nat.eqb_refl. Qed.

(** How often the delivery of a receipt was asked for. *)
Definition polls (k : nat) (s : page) : nat := count (same_serial k) (polled (requests s)).

Definition MAX_POLLS : nat := 200.

Definition created (r : receipt) : Z := (deadline r - RECEIPT_LIFETIME)%Z.

Record poll_inv (current : option receipt) (due : option Z) (pt pr : list receipt) (next : nat) (time : Z) : Prop := {
  pi_serials : Forall (λ r, serial r < next) (pt ++ pr);
  pi_bound : ∀ k, count (same_serial k) pr ≤ MAX_POLLS;
  pi_none : current = None → due = None;
  pi_current : ∀ c, current = Some c → serial c < next ∧ Forall (λ r, serial r = serial c → r = c) pt ∧
    let n := Z.of_nat (count (same_serial (serial c)) pr) in
    match due with
    | Some d => count (same_serial (serial c)) pt = 0 ∧ (created c + POLL_INTERVAL * (n + 1) ≤ d)%Z ∧ (n < Z.of_nat MAX_POLLS)%Z
    | None => count (same_serial (serial c)) pt = 0 ∨
              count (same_serial (serial c)) pt = 1 ∧ (created c + POLL_INTERVAL * n ≤ time)%Z
    end
}.

Definition polls_ok (s : page) : Prop :=
  poll_inv (current_receipt s) (timer s) (polling (tasks s)) (polled (requests s)) (next_serial s) (now s).

Lemma polling_app ts ks : polling (ts ++ ks) = polling ts ++ polling ks.
Proof. apply omap_app. Qed.
Lemma polled_app ts ks : polled (ts ++ ks) = polled ts ++ polled ks.
Proof. apply omap_app. Qed.
Lemma polling_left ts : polling (mark_left <$> ts) = polling ts.
Proof. induction ts as [|[] ts IH]; [done|exact IH..|]. change (polling (Poll current :: ts)) with (current :: polling ts). by rewrite <- IH. Qed.

Lemma polling_delete i ts k :
  ts !! i = Some k →
  match k with
  | Poll r => ∃ l l', polling ts = l ++ r :: l' ∧ polling (delete i ts) = l ++ l'
  | _ => polling (delete i ts) = polling ts
  end.
Proof.
  intros Hi. rewrite delete_take_drop.
  assert (polling ts = polling (take i ts) ++ polling (k :: drop (S i) ts)) as ->
    by (by rewrite <- polling_app, take_drop_middle).
  rewrite !polling_app. destruct k; try done. by eexists _, _.
Qed.

Lemma count_zero {A} (f : A → bool) l : Forall (λ x, f x = false) l → count f l = 0.
Proof. unfold count. induction 1 as [|x l Hx _ IH]; [done|]. cbn. by rewrite Hx. Qed.

(** The receipt is dropped, a poll ends that is not the present one's, or time passes. *)
Lemma poll_inv_drop current due pt pr next time :
  poll_inv current due pt pr next time → poll_inv None None pt pr next time.
Proof. intros []. by split. Qed.

Lemma poll_inv_later current due pt pr next time ms :
  (0 ≤ ms)%Z → poll_inv current due pt pr next time → poll_inv current due pt pr next (time + ms).
Proof. intros Hms [? ? ? Hc]. split; [done..|]. intros c ->. specialize (Hc c eq_refl). destruct due; [done|]. naive_solver lia. Qed.

Lemma poll_inv_new pt pr next time tk current due :
  poll_inv current due pt pr next time →
  poll_inv (Some {| serial := next; ticket := tk; deadline := time + RECEIPT_LIFETIME |}) (Some (time + POLL_INTERVAL)%Z)
    pt pr (S next) time.
Proof.
  intros [Hs Hb _ _]. assert (∀ l, Forall (λ r, serial r < next) l → count (same_serial next) l = 0) as Hz.
  { intros l Hl. apply count_zero. eapply Forall_impl; [exact Hl|]. intros r Hr. unfold same_serial.
    apply Nat.eqb_neq. cbn in Hr. lia. }
  pose proof Hs as Hs'. apply Forall_app in Hs' as [Hpt Hpr]. split; [|done|done|].
  - eapply Forall_impl; [exact Hs|]. cbn. lia.
  - intros c [= <-]. cbn [serial deadline]. split; [lia|]. split.
    + eapply Forall_impl; [exact Hpt|]. cbn. lia.
    + cbv zeta. rewrite !Hz by done. unfold created, POLL_INTERVAL, RECEIPT_LIFETIME, MAX_POLLS. cbn [deadline]. lia.
Qed.

(** The present receipt's question is asked. *)
Lemma poll_inv_ask c d pt pr next time :
  (d ≤ time)%Z → poll_inv (Some c) (Some d) pt pr next time →
  poll_inv (Some c) None (pt ++ [c]) (pr ++ [c]) next time.
Proof.
  intros Hd [Hs Hb _ Hc]. destruct (Hc c eq_refl) as (Hn & Hsame & Hpt & Hlow & Hmax).
  split; [| |done|].
  - rewrite !Forall_app in *. naive_solver.
  - intros k. rewrite count_app, count_one. unfold same_serial at 2. specialize (Hb k). destruct (serial c =? k) eqn:E; [|lia].
    bool_prop. unfold same_serial in *. rewrite <- E. lia.
  - intros c' [= <-]. split; [done|]. split; [apply Forall_app; split; [done|by repeat constructor]|].
    cbv zeta. rewrite !count_app, !count_one. rewrite same_serial_refl. right. lia.
Qed.

(** A question ends: of an older receipt, of the present one, and with the next one to come. *)
Lemma poll_inv_end current due l r l' pr next time :
  poll_inv current due (l ++ r :: l') pr next time → poll_inv current due (l ++ l') pr next time.
Proof.
  intros [Hs Hb Hnone Hc]. split; [|done|done|].
  - rewrite !Forall_app, Forall_cons in *. naive_solver.
  - intros c ->. specialize (Hc c eq_refl). cbv zeta in *. destruct Hc as (Hn & Hsame & Hc).
    split; [done|]. split; [rewrite Forall_app, Forall_cons in *; naive_solver|].
    rewrite count_app, count_cons in Hc. rewrite count_app.
    destruct due, (same_serial (serial c) r); [lia|naive_solver lia..].
Qed.

Lemma poll_inv_again r l l' pr next time due :
  (time < deadline r)%Z → poll_inv (Some r) due (l ++ r :: l') pr next time →
  poll_inv (Some r) (Some (time + POLL_INTERVAL)%Z) (l ++ l') pr next time.
Proof.
  intros Hd H. pose proof (poll_inv_end _ _ _ _ _ _ _ _ H) as [Hs' Hb' _ Hc']. destruct H as [Hs Hb _ Hc].
  specialize (Hc r eq_refl). specialize (Hc' r eq_refl). cbv zeta in *. destruct Hc as (Hn & Hsame & Hc), Hc' as (_ & Hsame' & Hc').
  rewrite count_app, count_cons, same_serial_refl in Hc.
  split; [done|done|done|]. intros c [= <-]. split; [done|]. split; [done|]. cbv zeta. rewrite count_app.
  unfold created, POLL_INTERVAL, RECEIPT_LIFETIME, MAX_POLLS in *.
  destruct due; [lia|]. lia.
Qed.

Lemma poll_inv_untimed current due pt pr next time :
  poll_inv current (Some due) pt pr next time → poll_inv current None pt pr next time.
Proof. intros [? ? ? Hc]. split; [done..|]. intros c ->. specialize (Hc c eq_refl). naive_solver. Qed.

(** A question under way for the present receipt is about that receipt. *)
Lemma poll_inv_same c due l r l' pr next time :
  poll_inv (Some c) due (l ++ r :: l') pr next time → serial c = serial r → r = c.
Proof.
  intros [_ _ _ Hc] E. destruct (Hc c eq_refl) as (_ & Hsame & _). rewrite Forall_app, Forall_cons in Hsame.
  by apply Hsame.
Qed.

#[local] Arguments polling : simpl never.
#[local] Arguments polled : simpl never.

Lemma polling_one k : polling [k] = match k with Poll r => [r] | _ => [] end.
Proof. by destruct k. Qed.
Lemma polled_one k : polled [k] = match k with PollRequest r _ => [r] | _ => [] end.
Proof. by destruct k. Qed.

Lemma polls_step e s s' : step e s = Some s' → polls_ok s → polls_ok s'.
Proof.
  unfold polls_ok. intros Hs. by_steps Hs e; rewrite ?polling_app, ?polled_app, ?polling_left, ?polling_one, ?polled_one.
  all: try match goal with E : tasks _ !! _ = Some _ |- _ => pose proof (polling_delete _ _ _ E) as Hdel; cbn in Hdel; try rewrite Hdel end.
  all: cbn match; rewrite ?app_nil_r; try done; try by eapply poll_inv_drop.
  all: try by eapply poll_inv_new.
  all: try by apply poll_inv_later.
  all: try (destruct Hdel as (l & l' & E1 & E2); rewrite E1 in *; rewrite E2 in *; by eapply poll_inv_end).
  - destruct Hdel as (l & l' & E1 & E2). rewrite E1 in *. rewrite E2 in *. unfold is_current in *. cbn in *.
    destruct (current_receipt s) as [c|] eqn:Ec; [|done]. bool_prop.
    match goal with Hp : poll_inv _ _ _ _ _ _, E : serial c = serial _ |- _ =>
      pose proof (poll_inv_same _ _ _ _ _ _ _ _ Hp E) as ->; apply (poll_inv_again _ _ _ _ _ _ _ ltac:(eassumption) Hp) end.
  - match goal with E : current_receipt _ = _ |- _ => rewrite E in * end. by eapply poll_inv_ask.
  - match goal with E : current_receipt _ = _ |- _ => rewrite E in * end. by eapply poll_inv_untimed.
  - match goal with E : current_receipt _ = _ |- _ => rewrite E in * end. by eapply poll_inv_untimed.
Qed.

Record page_ok (P : body → Prop) (s : page) : Prop := {
  po_clean : active s = false → clean s;
  po_bodies : bodies_ok P s;
  po_buttons : buttons_ok s;
  po_polls : polls_ok s
}.

Lemma page_ok_step P e s s' :
  step e s = Some s' → (∀ i returnTo, e = SubmitConsented i true returnTo → sendable s → P (body_of (form s) (pending s))) →
  page_ok P s → page_ok P s'.
Proof.
  intros Hs Hn [Hc Hb Hu Hp]. split.
  - by eapply clean_step.
  - by eapply bodies_step.
  - by eapply buttons_step.
  - by eapply polls_step.
Qed.

Lemma page_ok_initial P : page_ok P initial.
Proof.
  split; [done|by repeat constructor|done|]. split; [apply Forall_nil_2|intros k; exact (Nat.le_0_l _)|done|done].
Qed.

Lemma bodies_more (P Q : body → Prop) s : (∀ b, P b → Q b) → bodies_ok P s → bodies_ok Q s.
Proof. intros HPQ [H1 H2]. split; (eapply Forall_impl; [eassumption|]); intros []; cbn; auto. Qed.

(** The body has the fields of the page, all of them, at the moment of the run when its consent was given, and they could be sent. *)
Definition sent_from (es : list event) (b : body) : Prop :=
  ∃ es1 i returnTo es2 s1, es = es1 ++ SubmitConsented i true returnTo :: es2 ∧ run es1 initial = Some s1 ∧
    sendable s1 ∧ b = body_of (form s1) (pending s1).

Lemma run_snoc es e s : run (es ++ [e]) s = s1 ← run es s; step e s1.
Proof. revert s. induction es as [|e' es IH]; intros s; cbn; [by destruct (step e s)|]. by destruct (step e' s). Qed.

Lemma page_ok_run es s : run es initial = Some s → page_ok (sent_from es) s.
Proof.
  revert s. induction es as [|e es IH] using rev_ind; intros s; [intros [= <-]; apply page_ok_initial|].
  rewrite run_snoc. intros (s1 & Hr & Hs)%bind_Some. specialize (IH s1 Hr). apply (page_ok_step _ e s1 s Hs).
  - intros i returnTo -> Hok. by exists es, i, returnTo, [], s1.
  - destruct IH as [? Hb ? ?]. split; try done. eapply bodies_more, Hb.
    intros b (es1 & i & returnTo & es2 & s2 & -> & ?). exists es1, i, returnTo, (es2 ++ [e]), s2. by rewrite <- app_assoc.
Qed.

(** C26: Whatever is typed, answered or left in which order: once the page is left, no credential, receipt,
    timer or offered account remains, and no late answer brings one back. Every registration that is sent has all its fields from the
    one moment when the consent to it was given, and at that moment the password had a permitted length and was equal to its
    confirmation. A button is busy
    exactly while what it started is under way. The delivery of a code is asked for at most 200 times. *)
Theorem registration_page es s :
  run es initial = Some s →
  (active s = false → form s = empty_inputs ∧ current_receipt s = None ∧ pending s = None ∧
                      timer s = None ∧ expiryTimer s = None ∧ fields_disabled s = true) ∧
  (∀ b, Registration b ∈ requests s →
     ∃ es1 i returnTo es2 s1, es = es1 ++ SubmitConsented i true returnTo :: es2 ∧ run es1 initial = Some s1 ∧
       b = body_of (form s1) (pending s1) ∧
       getPasswordLengthError t (password (form s1)) = None ∧ password (form s1) = confirmation (form s1)) ∧
  count is_send (tasks s) = (if sending s then 1 else 0) ∧
  count is_submit (tasks s) = (if submitting s then 1 else 0) ∧
  ∀ k, polls k s ≤ MAX_POLLS.
Proof.
  intros [Hc [_ Hb] [H1 H2] [_ Hp _ _]]%page_ok_run.
  split; [intros Ha; destruct (Hc Ha) as (? & ? & ? & ? & ? & ?); by split_and!|]. split; [|done].
  intros b Hin. rewrite Forall_forall in Hb. destruct (Hb _ Hin) as (es1 & i & returnTo & es2 & s1 & ? & ? & [? ?] & ?).
  by exists es1, i, returnTo, es2, s1.
Qed.
End Page.

(** ** Runs *)

Definition key_text (k : jsstring) (_ : list (jsstring * jsval)) : jsstring := k.

Definition typed : inputs := {|
  username := "alice"; nickname := "Alice "; email := []; code := "123456"; password := "correct horse";
  confirmation := "correct horse"; importProfile := false |}.

(** The user enters, asks for a code, is told twice that it is on its way, registers and leaves for the
    sign-in page. *)
Definition example_run : list event :=
  [Enter; PendingAnswer 0 false (inr (Localized "none" 400)); StatusAnswer 0 (Some (true, true));
   TypeEmail "alice@example.org"; SendClick true; SendConsented 0 true; CodeAnswer 0 (inl (js "ticket", JStr (js "queued")));
   Tick 3000; PollTimer; PollAnswer 0 (Some (JStr (js "sending"))); Tick 3000; PollTimer;
   TypeFields typed; SubmitClick; SubmitConsented 1 true "/libs"; WeakAnswer 1 true; RegisterAnswer 1 (inl (js "alice"));
   PollAnswer 0 (Some (JStr (js "sent")))].

Lemma registration_page_witness :
  ∃ s, run key_text example_run initial = Some s ∧ gone_to s = Some (js "/libs", js "alice") ∧ active s = false ∧
    form s = empty_inputs ∧ polls 0 s = 2 ∧ polls 0 s ≤ MAX_POLLS ∧ tasks s = [].
Proof.
  destruct (run key_text example_run initial) as [s|] eqn:E; [|by vm_compute in E].
  pose proof (registration_page key_text example_run s E) as (Hc & _ & _ & _ & Hp).
  assert (gone_to s = Some (js "/libs", js "alice") ∧ active s = false ∧ polls 0 s = 2 ∧ tasks s = []) as (Hg & Ha & Hn & Ht)
    by (vm_compute in E; injection E as <-; by vm_compute).
  exists s. split_and!; [done|done|done|exact (proj1 (Hc Ha))|done|apply Hp|done].
Defined.
