(* ===== verification/UserProfiles.v ===== *)
(** * Public profiles

    [internal/service/frontend/renop-html/js/user-profiles.js]: the routes of profile pages, the names shown for
    users, and the cache of profiles with the requests it shares and batches. One event is the code
    between two [await]s; answers of the server and the clock are events. The avatar, whose address
    is checked by the browser's [URL], and the navigation through the history are left out. *)

From S2P Require Import Prelude JsText JsValue Uri.
From coqutil Require Import Datatypes.RecordSettersUsingExistingGetters.
Local Open Scope nat_scope.

#[local] Arguments const {E} _ _ /.
#[local] Arguments cons {A} & _ _.

(** ** Names and routes *)

(** [String(username || '').trim().toLowerCase()] *)
Definition normalized_name (username : jsstring) : jsstring := toLowerCase (trim username).

Definition SECTIONS : list jsstring := js <$> ["edit"; "maven"; "cargo"; "docker"; "npm"]%stdpp.

Definition is_section (s : jsstring) : bool := existsb (eqs s) SECTIONS.

(** The address [navigateToUserProfile] goes to; [None]: there is no name. *)
Definition profile_path (username section : jsstring) : option jsstring :=
  let normalized := normalized_name username in
  if negb (truthy normalized) then None
  else
    let section := if is_section section then section else [] in
    Some (js "/user/" ++ encodeURIComponent normalized ++ (if truthy section then js "/" ++ section else [])).

(** A decoded name; an escape beyond Latin-1 is not held by the model. *)
Inductive route := Route (username section : jsstring) | Wide_name.

(** [/^\/user\/([^/]+)(?:\/(edit|maven|cargo|docker|npm))?\/?$/] *)
Definition route_parts (path : jsstring) : option (jsstring * jsstring) :=
  if startsWith path "/user/" then
    match split "/" (drop 6 path) with
    | [name] => if truthy name then Some (name, []) else None
    | [name; second] =>
        if negb (truthy name) then None
        else if truthy second then (if is_section second then Some (name, second) else None)
        else Some (name, [])
    | [name; second; []] => if truthy name && is_section second then Some (name, second) else None
    | _ => None
    end
  else None.

Definition profileRouteFromPath (path : jsstring) : option route :=
  match route_parts path with
  | None => None
  | Some (name, section) =>
      match decodeURIComponent name with
      | Decoded n => let username := normalized_name n in if truthy username then Some (Route username section) else None
      | Malformed => None
      | Wide => Some Wide_name
      end
  end.

Lemma lower_space c : is_space (lower_char c) = is_space c.
Proof. by_all_chars c. Qed.

Lemma normalized_idemp s : normalized_name (normalized_name s) = normalized_name s.
Proof.
  unfold normalized_name. rewrite (trim_id (toLowerCase (trim s))); [apply toLowerCase_idemp|].
  destruct (trim_trimmed s) as [H1 H2]. split.
  - unfold toLowerCase. destruct (trim s) as [|c k]; [done|]. cbn. by rewrite lower_space.
  - unfold toLowerCase. rewrite <- fmap_reverse. destruct (reverse (trim s)) as [|c k]; [done|]. cbn. by rewrite lower_space.
Qed.

Lemma sections_clean s : is_section s = true → truthy s = true ∧ "/"%char ∉ s.
Proof.
  unfold is_section, SECTIONS. rewrite existsb_exists. intros (k & Hk & E). apply eqs_true in E as ->.
  cbn in Hk. repeat destruct Hk as [<-|Hk]; try done; (split; [done|vm_compute; set_solver]).
Qed.

Lemma user_parts ps : Forall (λ p, "/"%char ∉ p) ps → ps ≠ [] → split "/" (drop 6 (js "/user/" ++ join "/" ps)) = ps.
Proof. intros Hp Hne. change (drop 6 (js "/user/" ++ join "/" ps)) with (join "/" ps). by apply split_join. Qed.

Lemma route_of_parts name section slash :
  truthy name = true → "/"%char ∉ name → (section = [] ∨ is_section section = true) →
  route_parts (js "/user/" ++ name ++ (if truthy section then js "/" ++ section else []) ++ (if slash : bool then js "/" else []))
    = Some (name, section).
Proof.
  intros Ht Hn Hs. unfold route_parts. rewrite startsWith_app.
  assert (∀ ps, Forall (λ p, "/"%char ∉ p) ps → ps ≠ [] →
    name ++ (if truthy section then js "/" ++ section else []) ++ (if slash then js "/" else []) = join "/" ps →
    split "/" (drop 6 (js "/user/" ++ name ++ (if truthy section then js "/" ++ section else []) ++ (if slash then js "/" else []))) = ps) as Hsplit
    by (intros ps Hps Hne ->; by apply user_parts).
  destruct Hs as [->|Hs].
  - cbn [truthy app] in *. destruct slash.
    + rewrite (Hsplit [name; []]); [by rewrite Ht|repeat constructor; [done|apply not_elem_of_nil]|done|done].
    + rewrite (Hsplit [name]); [by rewrite Ht|by repeat constructor|done|by rewrite app_nil_r].
  - destruct (sections_clean section Hs) as [Hst Hsn]. rewrite Hst in *. destruct slash.
    + rewrite (Hsplit [name; section; []]); [by rewrite Ht, Hs| |done|].
      * repeat constructor; [done|done|apply not_elem_of_nil].
      * cbn. by rewrite <- app_assoc.
    + rewrite (Hsplit [name; section]); [by rewrite Ht, Hst, Hs|by repeat constructor|done|]. cbn. by rewrite app_nil_r.
Qed.

(** The address of a profile leads back to it, with or without a slash at the end. *)
Lemma profile_route_back username section path slash :
  profile_path username section = Some path →
  profileRouteFromPath (path ++ (if slash : bool then js "/" else []))
    = Some (Route (normalized_name username) (if is_section section then section else [])).
Proof.
  unfold profile_path. destruct (truthy (normalized_name username)) eqn:Et; [|done]. cbn [negb]. intros E. apply (inj Some) in E. subst path.
  unfold profileRouteFromPath. rewrite <- !app_assoc. rewrite route_of_parts.
  - rewrite decode_encodeURIComponent, normalized_idemp, Et. done.
  - apply truthy_true. rewrite encodeURIComponent_nil. by apply truthy_true.
  - by apply encodeURIComponent_no.
  - destruct (is_section section) eqn:Es; [by right|by left].
Qed.

(** ** The cache *)

Record profile := { p_username : jsstring; nickname : jsstring }.
Record entry := { e_profile : profile; expiresAt : Z }.

(** A shared request; [rq_generation] is the generation it was made in. *)
Record request := { rq_id : nat; rq_name : jsstring; rq_generation : nat }.

(** [profileCache], [profileRequests] and [profileBatchQueue] in the order of insertion; [flushes]: the batch
    under way and the requests behind it; [direct]: requests without a batch. The last fields
    record the course: the results, the requests whose handlers were replaced, the profiles that
    were published and their generation, and whether the cache was cleared before a queued batch had started. *)
Record state := {
  now : Z; cache : list (jsstring * entry); requests : list (jsstring * request); queue : list (jsstring * request);
  scheduled : bool; generation : nat; flushes : list (list request * list request); direct : list request;
  next_id : nat;
  settled : list (request * option profile); lost : list request; synced : list (nat * (jsstring * profile));
  cleared_early : bool
}.

Definition PROFILE_CACHE_TTL_MS : Z := 300000.
Definition PROFILE_CACHE_MAX_ENTRIES : nat := 256.
Definition BATCH : nat := 50.

Definition cacheUserProfile (username : jsstring) (p : profile) (s : state) : state :=
  let c := delete_key (cache s) username in
  let c := List.filter (λ e, negb (expiresAt e.2 <=? now s)%Z) c in
  let c := if PROFILE_CACHE_MAX_ENTRIES <=? length c then tail c else c in
  { s with cache := c ++ [pair username {| e_profile := p; expiresAt := (now s + PROFILE_CACHE_TTL_MS)%Z |}] }.

(** The request ends: its caller's [finally] drops it unless another one took its place. *)
Definition settle (r : request) (res : option profile) (s : state) : state :=
  let s := { s with settled := settled s ++ [pair r res] } in
  let s := match res with
           | Some p => if rq_generation r =? generation s then cacheUserProfile (rq_name r) p s else s
           | None => s
           end in
  match assoc (requests s) (rq_name r) with
  | Some r' => if rq_id r' =? rq_id r then { s with requests := delete_key (requests s) (rq_name r) } else s
  | None => s
  end.

(** [flushUserProfileBatch] up to its first request. *)
Definition flush (s : state) : state :=
  let entries := (queue s).*2 in
  { s with scheduled := false; queue := [];
           flushes := match entries with [] => flushes s | _ => flushes s ++ [pair (take BATCH entries) (drop BATCH entries)] end }.

(** The answer to a batch ([None]: a failure), and the next one. *)
Definition batch_result (answer : option (list (jsstring * profile))) (r : request) : option profile :=
  match answer with Some l => assoc (reverse l) (rq_name r) | None => None end.

Definition batch_answered (k : nat) (answer : option (list (jsstring * profile))) (s : state) : option state :=
  match flushes s !! k with
  | None => None
  | Some (batch, rest) =>
      let s := foldl (λ s r, settle r (batch_result answer r) s) s batch in
      Some { s with flushes := match rest with
                               | [] => delete k (flushes s)
                               | _ => <[k := pair (take BATCH rest) (drop BATCH rest)]> (flushes s)
                               end }
  end.

(** What [getUserProfile] gives at once: a failure, a cached profile, or a request. *)
Inductive lookup_result := Missing_name | Cached (p : profile) | Waits (r : request).

Definition fresh_entry (n : jsstring) (s : state) : option entry :=
  match assoc (cache s) n with Some e => if (now s <? expiresAt e)%Z then Some e else None | None => None end.

(** The request that is asked to answer, with its place in the queue or the network. *)
Definition start_request (n : jsstring) (refresh : bool) (s : state) : request * state :=
  let r := {| rq_id := next_id s; rq_name := n; rq_generation := generation s |} in
  let s := { s with next_id := S (next_id s) } in
  let s := if refresh then { s with direct := direct s ++ [r] }
           else { s with lost := lost s ++ match assoc (queue s) n with Some old => [old] | None => [] end;
                         queue := set_key (queue s) n r; scheduled := true } in
  (r, { s with requests := set_key (requests s) n r }).

Definition getUserProfile (username : jsstring) (refresh : bool) (s : state) : lookup_result * state :=
  let n := normalized_name username in
  if negb (truthy n) then (Missing_name, s)
  else
    match (if refresh then None else fresh_entry n s) with
    | Some e => (Cached (e_profile e), s)
    | None =>
        let s := { s with cache := delete_key (cache s) n } in
        match (if refresh then None else assoc (requests s) n) with
        | Some r => (Waits r, s)
        | None => let '(r, s) := start_request n refresh s in (Waits r, s)
        end
    end.

Definition clearUserProfileCache (s : state) : state :=
  { s with generation := S (generation s); cache := []; requests := []; cleared_early := cleared_early s || scheduled s }.

Definition invalidateUserProfiles (usernames : list jsstring) (s : state) : state :=
  { s with cache := foldl (λ c u, let n := normalized_name u in if truthy n then delete_key c n else c) (cache s) usernames }.

Definition syncUserProfile (p : profile) (oldUsername : jsstring) (s : state) : state :=
  let username := normalized_name (p_username p) in
  if negb (truthy username) then s
  else
    let previous := normalized_name oldUsername in
    let s := if truthy previous && negb (eqs previous username)
             then { s with cache := delete_key (cache s) previous } else s in
    let s := { s with synced := synced s ++ [pair (generation s) (pair username p)] } in
    cacheUserProfile username p s.

Inductive event :=
  | Get (username : jsstring) (refresh : bool)
  | Flush
  | BatchAnswer (k : nat) (answer : option (list (jsstring * profile)))
  | DirectAnswer (k : nat) (answer : option profile)
  | Clear
  | Invalidate (usernames : list jsstring)
  | Sync (p : profile) (oldUsername : jsstring)
  | Tick (ms : Z).

(** Answers and time come after the microtasks. *)
Definition step (e : event) (s : state) : option state :=
  match e with
  | Get u refresh => Some (getUserProfile u refresh s).2
  | Flush => if scheduled s then Some (flush s) else None
  | BatchAnswer k answer => if scheduled s then None else batch_answered k answer s
  | DirectAnswer k answer =>
      if scheduled s then None
      else match direct s !! k with
           | Some r => Some (settle r answer { s with direct := delete k (direct s) })
           | None => None
           end
  | Clear => Some (clearUserProfileCache s)
  | Invalidate us => Some (invalidateUserProfiles us s)
  | Sync p old => Some (syncUserProfile p old s)
  | Tick ms => if scheduled s || (ms <? 0)%Z then None else Some { s with now := (now s + ms)%Z }
  end.

Fixpoint run (es : list event) (s : state) : option state :=
  match es with [] => Some s | e :: es => match step e s with Some s' => run es s' | None => None end end.

Definition initial : state := {|
  now := 0; cache := []; requests := []; queue := []; scheduled := false; generation := 0; flushes := []; direct := [];
  next_id := 0; settled := []; lost := []; synced := []; cleared_early := false |}.

(** *** Where a cached profile comes from *)

Definition origin (s : state) (n : jsstring) (p : profile) : Prop :=
  (∃ r, (r, Some p) ∈ settled s ∧ rq_name r = n ∧ rq_generation r = generation s) ∨ (generation s, (n, p)) ∈ synced s.

Record cache_ok (s : state) : Prop := {
  ck_keys : NoDup (cache s).*1;
  ck_size : length (cache s) ≤ PROFILE_CACHE_MAX_ENTRIES;
  ck_entries : Forall (λ e, (expiresAt e.2 ≤ now s + PROFILE_CACHE_TTL_MS)%Z ∧ origin s e.1 (e_profile e.2)) (cache s)
}.

Lemma Forall_filter' {A} (P : A → Prop) (f : A → bool) l : Forall P l → Forall P (List.filter f l).
Proof. induction 1 as [|x l Hx _ IH]; cbn; [constructor|]. destruct (f x); [by constructor|done]. Qed.

Lemma Forall_tail' {A} (P : A → Prop) l : Forall P l → Forall P (tail l).
Proof. destruct 1; [constructor|done]. Qed.

Lemma delete_key_absent {V} (c : list (jsstring * V)) k : k ∉ (delete_key c k).*1.
Proof.
  intros (e & -> & He)%list_elem_of_fmap. apply elem_of_filtered in He as [_ He]. by rewrite eqs_refl in He.
Qed.

(** Fewer entries, or a later time. *)
Lemma cache_ok_less s c :
  cache_ok s → NoDup c.*1 → length c ≤ length (cache s) → (∀ e, e ∈ c → e ∈ cache s) → cache_ok { s with cache := c }.
Proof.
  intros [Hk Hs He] Hd Hl Hin. split; cbn; [done|lia|]. rewrite Forall_forall in *. intros e Hec. by apply He, Hin.
Qed.

Lemma cache_ok_delete s n : cache_ok s → cache_ok { s with cache := delete_key (cache s) n }.
Proof.
  intros Hs. apply cache_ok_less; [done| | |].
  - apply filter_nodup_fst, Hs.
  - apply filter_le.
  - intros e He. by apply elem_of_filtered in He as [He _].
Qed.

Lemma cache_ok_put n p s : cache_ok s → origin s n p → cache_ok (cacheUserProfile n p s).
Proof.
  intros [Hk Hs He] Ho. unfold cacheUserProfile. set (c0 := delete_key (cache s) n).
  set (c1 := List.filter _ c0). set (c2 := if PROFILE_CACHE_MAX_ENTRIES <=? length c1 then tail c1 else c1).
  assert (NoDup c1.*1 ∧ (n ∉ c1.*1) ∧ length c1 ≤ length (cache s)) as (H1 & H2 & H3).
  { split_and!; [by do 2 apply filter_nodup_fst| |].
    - intros (e & -> & Hin)%list_elem_of_fmap. apply elem_of_filtered in Hin as [Hin _].
      apply (delete_key_absent (cache s) e.1). by apply list_elem_of_fmap_2.
    - etransitivity; apply filter_le. }
  assert (NoDup c2.*1 ∧ (n ∉ c2.*1) ∧ length c2 < PROFILE_CACHE_MAX_ENTRIES) as (H4 & H5 & H6).
  { unfold c2. destruct (PROFILE_CACHE_MAX_ENTRIES <=? length c1) eqn:E; bool_prop; [|done]. destruct c1 as [|x c1]; [cbn in E; unfold PROFILE_CACHE_MAX_ENTRIES in E; lia|].
    cbn in *. apply NoDup_cons in H1 as [_ H1]. apply not_elem_of_cons in H2 as [_ H2]. split_and!; [done|done|lia]. }
  split; cbn.
  - rewrite fmap_app. apply NoDup_app. split_and!; [done| |apply NoDup_singleton]. by intros x Hx ->%list_elem_of_singleton.
  - rewrite length_app. cbn. lia.
  - apply Forall_app. split; [|apply Forall_singleton; split; [cbn; lia|exact Ho]].
    assert (Forall (λ e, (expiresAt e.2 ≤ now s + PROFILE_CACHE_TTL_MS)%Z ∧ origin s e.1 (e_profile e.2)) c1) as Hc1
      by (by do 2 apply Forall_filter').
    unfold c2. destruct (PROFILE_CACHE_MAX_ENTRIES <=? length c1); [by apply Forall_tail'|done].
Qed.

(** Everything but the results, the cache and the shared requests stays. *)
Lemma settle_frame r res s :
  let s' := settle r res s in
  now s' = now s ∧ generation s' = generation s ∧ queue s' = queue s ∧ flushes s' = flushes s ∧ direct s' = direct s ∧
  lost s' = lost s ∧ next_id s' = next_id s ∧ scheduled s' = scheduled s ∧ cleared_early s' = cleared_early s ∧
  settled s' = settled s ++ [pair r res].
Proof.
  unfold settle. destruct res as [p|]; cbn [settled]; [destruct (_ =? _)|];
    (destruct (assoc _ _) as [r'|]; [destruct (rq_id r' =? rq_id r)|]); repeat (split; [reflexivity|]); reflexivity.
Qed.

Lemma cache_ok_more s s' :
  cache_ok s → cache s' = cache s → now s' = now s → generation s' = generation s →
  (∀ x, x ∈ settled s → x ∈ settled s') → (∀ x, x ∈ synced s → x ∈ synced s') → cache_ok s'.
Proof.
  intros [Hk Hs He] Ec En Eg H1 H2. split; rewrite ?Ec, ?En; [done|done|].
  eapply Forall_impl; [exact He|]. intros e [Hx Ho]. split; [done|]. unfold origin in *. rewrite Eg. naive_solver.
Qed.

Lemma cache_ok_settle r res s : cache_ok s → cache_ok (settle r res s).
Proof.
  intros Hs. unfold settle. set (s0 := { s with settled := settled s ++ [pair r res] }).
  assert (cache_ok s0) as H0 by (apply (cache_ok_more s); try done; intros x Hx; apply elem_of_app; by left).
  set (s1 := match res with Some p => _ | None => s0 end).
  assert (cache_ok s1) as H1.
  { unfold s1. destruct res as [p|]; [|done]. destruct (_ =? _) eqn:E; bool_prop; [|done]. apply cache_ok_put; [done|].
    left. exists r. split_and!; [apply elem_of_app; right; by left|done|done]. }
  destruct (assoc (requests s1) (rq_name r)) as [r'|]; [|done]. destruct (rq_id r' =? rq_id r); [|done].
  by apply (cache_ok_more s1).
Qed.

Lemma cache_ok_settles f l s : cache_ok s → cache_ok (foldl (λ s r, settle r (f r) s) s l).
Proof. revert s. induction l as [|r l IH]; intros s Hs; [done|]. apply IH. by apply cache_ok_settle. Qed.

Lemma cache_ok_invalidate us s : cache_ok s → cache_ok (invalidateUserProfiles us s).
Proof.
  intros Hs. unfold invalidateUserProfiles. revert s Hs. induction us as [|u us IH]; intros s Hs; cbn [foldl].
  - by apply (cache_ok_more s).
  - set (s1 := { s with cache := if truthy (normalized_name u) then delete_key (cache s) (normalized_name u) else cache s }).
    assert (cache_ok s1) as H1 by (unfold s1; destruct (truthy _); [by apply cache_ok_delete|by apply (cache_ok_more s)]).
    exact (IH s1 H1).
Qed.

Lemma cache_ok_sync p old s : cache_ok s → cache_ok (syncUserProfile p old s).
Proof.
  intros Hs. unfold syncUserProfile. destruct (negb (truthy _)); [done|]. set (s1 := if _ && _ then _ else s).
  assert (cache_ok s1) as H1 by (unfold s1; destruct (_ && _); [by apply cache_ok_delete|done]).
  apply cache_ok_put.
  - apply (cache_ok_more s1); try done. intros x Hx. apply elem_of_app. by left.
  - right. cbn. apply elem_of_app. right. by left.
Qed.

Lemma cache_ok_get u refresh s : cache_ok s → cache_ok (getUserProfile u refresh s).2.
Proof.
  intros Hs. unfold getUserProfile. destruct (negb (truthy _)); [done|].
  destruct (if refresh then None else _) as [e|]; [done|].
  pose proof (cache_ok_delete s (normalized_name u) Hs) as H1.
  destruct (if refresh then None else assoc _ _) as [r|]; [done|]. cbn. unfold start_request.
  destruct refresh; by apply (cache_ok_more _ _ H1).
Qed.

Lemma cache_ok_step e s s' : step e s = Some s' → cache_ok s → cache_ok s'.
Proof.
  intros Hs Hok. destruct e as [u refresh| |k answer|k answer| |us|p old|ms]; cbn in Hs.
  - injection Hs as <-. by apply cache_ok_get.
  - destruct (scheduled s); [|done]. injection Hs as <-. by apply (cache_ok_more s).
  - destruct (scheduled s); [done|]. unfold batch_answered in Hs. destruct (flushes s !! k) as [[batch rest]|]; [|done].
    injection Hs as <-. by apply (cache_ok_more _ _ (cache_ok_settles (batch_result answer) batch s Hok)).
  - destruct (scheduled s); [done|]. destruct (direct s !! k) as [r|]; [|done]. injection Hs as <-.
    apply cache_ok_settle. by apply (cache_ok_more s).
  - injection Hs as <-. by split; cbn; [constructor|lia|constructor].
  - injection Hs as <-. by apply cache_ok_invalidate.
  - injection Hs as <-. by apply cache_ok_sync.
  - destruct (scheduled s || (ms <? 0)%Z) eqn:E; [done|]. injection Hs as <-. apply orb_false_iff in E as [_ E]. bool_prop.
    destruct Hok as [Hk Hl He]. split; [done|done|]. cbn. eapply Forall_impl; [exact He|]. intros x [Hx Ho]. split; [lia|exact Ho].
Qed.

(** *** Every request once *)

Definition in_flushes (fs : list (list request * list request)) : list request := concat ((λ f, f.1 ++ f.2) <$> fs).

(** Where the requests are. *)
Definition places (s : state) : list request :=
  (settled s).*1 ++ (queue s).*2 ++ in_flushes (flushes s) ++ direct s ++ lost s.

Record ids_ok (s : state) : Prop := {
  io_ids : rq_id <$> places s ≡ₚ seq 0 (next_id s);
  io_batches : Forall (λ f, f.1 ≠ [] ∧ length f.1 ≤ BATCH) (flushes s);
  io_queue : Forall (λ e, rq_name e.2 = e.1) (queue s) ∧ NoDup (queue s).*1;
  io_scheduled : scheduled s = false → queue s = []
}.

Lemma settles_frame f l s :
  let s' := foldl (λ s r, settle r (f r) s) s l in
  now s' = now s ∧ generation s' = generation s ∧ queue s' = queue s ∧ flushes s' = flushes s ∧ direct s' = direct s ∧
  lost s' = lost s ∧ next_id s' = next_id s ∧ scheduled s' = scheduled s ∧ cleared_early s' = cleared_early s ∧
  settled s' = settled s ++ ((λ r, pair r (f r)) <$> l).
Proof.
  revert s. induction l as [|r l IH]; intros s s'; [cbn; rewrite app_nil_r; by split_and!|].
  destruct (settle_frame r (f r) s) as (H1 & H2 & H3 & H4 & H5 & H6 & H7 & H8 & H9 & H10).
  destruct (IH (settle r (f r) s)) as (G1 & G2 & G3 & G4 & G5 & G6 & G7 & G8 & G9 & G10). unfold s'. cbn [foldl].
  rewrite G1, G2, G3, G4, G5, G6, G7, G8, G9, G10, H1, H2, H3, H4, H5, H6, H7, H8, H9, H10. rewrite <- app_assoc. by split_and!.
Qed.

Lemma set_key_perm {V} (o : list (jsstring * V)) k v :
  NoDup o.*1 →
  (set_key o k v).*2 ++ match assoc o k with Some old => [old] | None => [] end ≡ₚ v :: o.*2.
Proof.
  induction o as [|[k0 v0] o IH]; csimpl; [done|]. intros [Hn Hd]%NoDup_cons.
  destruct (eqs k0 k) eqn:E; csimpl.
  - apply Permutation_skip. by rewrite Permutation_app_comm.
  - rewrite IH by done. apply Permutation_swap.
Qed.

Lemma in_flushes_app fs fs' : in_flushes (fs ++ fs') = in_flushes fs ++ in_flushes fs'.
Proof. unfold in_flushes. by rewrite fmap_app, concat_app. Qed.

Lemma in_flushes_middle fs f fs' : in_flushes (fs ++ f :: fs') ≡ₚ f.1 ++ f.2 ++ in_flushes (fs ++ fs').
Proof.
  rewrite !in_flushes_app. change (in_flushes (f :: fs')) with ((f.1 ++ f.2) ++ in_flushes fs').
  rewrite <- !app_assoc, Permutation_app_comm, <- !app_assoc. do 2 apply Permutation_app_head. apply Permutation_app_comm.
Qed.

Lemma flushes_delete fs k f :
  fs !! k = Some f → in_flushes fs ≡ₚ f.1 ++ f.2 ++ in_flushes (delete k fs).
Proof. intros Hk. rewrite delete_take_drop, <- in_flushes_middle. by rewrite take_drop_middle. Qed.

Lemma flushes_insert fs k f f' :
  fs !! k = Some f → in_flushes (<[k := f']> fs) ≡ₚ f'.1 ++ f'.2 ++ in_flushes (delete k fs).
Proof.
  intros Hk. rewrite insert_take_drop by (by eapply lookup_lt_Some). by rewrite delete_take_drop, in_flushes_middle.
Qed.

#[local] Arguments places : simpl never.
#[local] Arguments in_flushes : simpl never.

Lemma results_requests (f : request → option profile) l : ((λ r, pair r (f r)) <$> l).*1 = l.
Proof. induction l as [|r l IH]; csimpl; [done|by rewrite IH]. Qed.

(** How often an identity occurs in a list of requests. *)
Definition occ (l : list request) (x : nat) : nat := count_occ Nat.eq_dec (rq_id <$> l) x.

Lemma occ_app l k x : occ (l ++ k) x = occ l x + occ k x.
Proof. unfold occ. by rewrite fmap_app, count_occ_app. Qed.

Lemma occ_nil x : occ [] x = 0.
Proof. done. Qed.

Lemma occ_cons r l x : occ (r :: l) x = occ [r] x + occ l x.
Proof. exact (occ_app [r] l x). Qed.

#[local] Arguments occ : simpl never.

Lemma occ_perm l k x : l ≡ₚ k → occ l x = occ k x.
Proof. intros H. unfold occ. apply Permutation_count_occ. by rewrite H. Qed.

Lemma places_same s s' :
  (∀ x, occ (places s') x = occ (places s) x) → next_id s' = next_id s →
  rq_id <$> places s ≡ₚ seq 0 (next_id s) → rq_id <$> places s' ≡ₚ seq 0 (next_id s').
Proof.
  intros Ho -> Hp. rewrite <- Hp. apply (Permutation_count_occ Nat.eq_dec). exact Ho.
Qed.

Lemma ids_ok_new s s' r :
  rq_id <$> places s ≡ₚ seq 0 (next_id s) → (∀ x, occ (places s') x = occ (places s ++ [r]) x) →
  rq_id r = next_id s → next_id s' = S (next_id s) → rq_id <$> places s' ≡ₚ seq 0 (next_id s').
Proof.
  intros Hp Ho Er ->. rewrite seq_S, Nat.add_0_l, <- Hp, <- Er. change [rq_id r] with (rq_id <$> [r]). rewrite <- fmap_app.
  apply (Permutation_count_occ Nat.eq_dec). exact Ho.
Qed.

Lemma ids_ok_get u refresh s : ids_ok s → ids_ok (getUserProfile u refresh s).2.
Proof.
  intros [Hi Hb [Hq Hd] Hs]. unfold getUserProfile. set (n := normalized_name u). destruct (negb (truthy n)); [done|].
  destruct (if refresh then None else _) as [e|]; [done|].
  destruct (if refresh then None else assoc _ _) as [r|]; [done|]. unfold start_request.
  destruct refresh.
  - split; [|done|done|done]. apply (ids_ok_new s _ {| rq_id := next_id s; rq_name := n; rq_generation := generation s |}); [exact Hi| |reflexivity|reflexivity].
    intros x. unfold places. cbn [snd settled queue flushes direct lost]. cbn. rewrite !occ_app. lia.
  - pose proof (set_key_perm (queue s) n {| rq_id := next_id s; rq_name := n; rq_generation := generation s |} Hd) as Hperm.
    split; [|done| |done].
    + apply (ids_ok_new s _ {| rq_id := next_id s; rq_name := n; rq_generation := generation s |}); [exact Hi| |reflexivity|reflexivity].
      intros x. unfold places. cbn. apply (occ_perm _ _ x) in Hperm. rewrite occ_app in Hperm. rewrite !occ_app.
      rewrite occ_cons in Hperm. lia.
    + split; [by apply set_key_Forall|by apply set_key_NoDup].
Qed.

Lemma ids_ok_step e s s' : step e s = Some s' → ids_ok s → ids_ok s'.
Proof.
  intros Hs Hok. destruct e as [u refresh| |k answer|k answer| |us|p old|ms]; cbn in Hs.
  - injection Hs as <-. by apply ids_ok_get.
  - destruct Hok as [Hi Hb [Hq Hd] Hsch]. destruct (scheduled s); [|done]. injection Hs as <-.
    unfold flush. destruct (queue s).*2 as [|r rs] eqn:Eq.
    { split; [|done|by repeat constructor|done]. eapply (places_same s); [|reflexivity|exact Hi].
      intros x. unfold places. cbn. rewrite Eq, !occ_app, ?occ_nil. lia. }
    rewrite <- Eq. split; [| |by repeat constructor|done].
    + eapply (places_same s); [|reflexivity|exact Hi]. intros x. unfold places. cbn. rewrite in_flushes_app.
      unfold in_flushes at 2. cbn. rewrite app_nil_r, take_drop, !occ_app, ?occ_nil. lia.
    + cbn. apply Forall_app. split; [done|]. apply Forall_singleton. cbn. rewrite Eq. split; [done|]. rewrite length_take. apply Nat.le_min_l.
  - destruct (scheduled s) eqn:Esch; [done|]. unfold batch_answered in Hs. destruct (flushes s !! k) as [[batch rest]|] eqn:Ek; [|done].
    injection Hs as <-. destruct (settles_frame (batch_result answer) batch s) as (H1 & H2 & H3 & H4 & H5 & H6 & H7 & H8 & H9 & H10).
    destruct Hok as [Hi Hb Hq Hsch]. pose proof (flushes_delete _ _ _ Ek) as Hdel. cbn [fst snd] in Hdel.
    assert (Forall (λ f, f.1 ≠ [] ∧ length f.1 ≤ BATCH) (delete k (flushes s))) as Hbd.
    { rewrite delete_take_drop. apply Forall_app_2; [by apply Forall_take|by apply Forall_drop]. }
    split.
    + eapply (places_same s); [|exact H7|exact Hi]. intros x. unfold places. cbn. rewrite H3, H4, H5, H6, H10.
      apply (occ_perm _ _ x) in Hdel. rewrite !occ_app in Hdel. rewrite fmap_app, results_requests.
      rewrite !occ_app, Hdel. destruct rest as [|r0 rest]; [rewrite ?occ_nil; lia|].
      pose proof (occ_perm _ _ x (flushes_insert _ _ _ (take BATCH (r0 :: rest), drop BATCH (r0 :: rest)) Ek)) as Hins.
      cbn [fst snd] in Hins. rewrite app_assoc, take_drop, occ_app in Hins. unfold BATCH in Hins. lia.
    + cbn. rewrite H4. destruct rest as [|r0 rest]; [done|]. apply Forall_insert; [done|]. split; [done|]. cbn [fst]. rewrite length_take. apply Nat.le_min_l.
    + cbn. by rewrite H3.
    + cbn. rewrite H3, H8, Esch. intros _. by apply Hsch.
  - destruct (scheduled s) eqn:Esch; [done|]. destruct (direct s !! k) as [r|] eqn:Ek; [|done]. injection Hs as <-.
    destruct (settle_frame r answer { s with direct := delete k (direct s) }) as (H1 & H2 & H3 & H4 & H5 & H6 & H7 & H8 & H9 & H10).
    destruct Hok as [Hi Hb Hq Hsch]. cbn in H3, H4, H5, H6, H7, H8, H10. split; [|by rewrite H4|by rewrite H3|rewrite H3; intros _; by apply Hsch].
    eapply (places_same s); [|exact H7|exact Hi]. intros x. unfold places. rewrite H3, H4, H5, H6, H10. cbn.
    pose proof (occ_perm _ _ x (delete_Permutation _ _ _ Ek)) as Hdel. rewrite occ_cons in Hdel.
    rewrite fmap_app, !occ_app, Hdel. cbn. lia.
  - injection Hs as <-. destruct Hok. by split.
  - injection Hs as <-. destruct Hok. by split.
  - injection Hs as <-. unfold syncUserProfile, cacheUserProfile. destruct (negb _); [done|]. destruct Hok.
    destruct (_ && _); by split.
  - destruct (scheduled s || (ms <? 0)%Z); [done|]. injection Hs as <-. destruct Hok. by split.
Qed.

(** *** No handler is replaced *)

Definition lost_ok (s : state) : Prop :=
  cleared_early s = false → lost s = [] ∧ Forall (λ e, assoc (requests s) e.1 ≠ None) (queue s).

Lemma lost_ok_get u refresh s : lost_ok s → lost_ok (getUserProfile u refresh s).2.
Proof.
  intros Hl. unfold getUserProfile. set (n := normalized_name u). destruct (negb (truthy n)); [done|].
  destruct (if refresh then None else fresh_entry n s) as [e|]; [done|].
  destruct (if refresh then None else assoc (requests _) n) as [r|] eqn:Er; [done|]. unfold start_request.
  set (r := {| rq_id := _; rq_name := _; rq_generation := _ |}).
  assert (∀ k, assoc (requests s) k ≠ None → assoc (set_key (requests s) n r) k ≠ None) as Hmore
    by (intros k Hk; rewrite assoc_set_key; by destruct (eqs n k)).
  destruct refresh; intros Hc; cbn in Hc; destruct (Hl Hc) as [E Hq]; cbn.
  - split; [done|]. eapply Forall_impl; [exact Hq|]. cbn. auto.
  - cbn in Er. assert (assoc (queue s) n = None) as En.
    { destruct (assoc (queue s) n) as [old|] eqn:Eo; [|done]. apply assoc_elem in Eo.
      rewrite Forall_forall in Hq. by specialize (Hq _ Eo). }
    rewrite E, En. split; [done|]. apply set_key_Forall.
    + cbn. rewrite assoc_set_key, eqs_refl. done.
    + eapply Forall_impl; [exact Hq|]. cbn. auto.
Qed.

Lemma lost_ok_step e s s' : step e s = Some s' → ids_ok s → lost_ok s → lost_ok s'.
Proof.
  intros Hs [_ _ _ Hsch] Hl. destruct e as [u refresh| |k answer|k answer| |us|p old|ms]; cbn in Hs.
  - injection Hs as <-. by apply lost_ok_get.
  - destruct (scheduled s); [|done]. injection Hs as <-. intros Hc. cbn in *. split; [by apply Hl|constructor].
  - destruct (scheduled s); [done|]. unfold batch_answered in Hs. destruct (flushes s !! k) as [[batch rest]|]; [|done].
    injection Hs as <-. destruct (settles_frame (batch_result answer) batch s) as (_ & _ & H3 & _ & _ & H6 & _ & _ & H9 & _).
    intros Hc. cbn in *. rewrite H9 in Hc. rewrite H6, H3, Hsch by done. split; [by apply Hl|constructor].
  - destruct (scheduled s); [done|]. destruct (direct s !! k) as [r|]; [|done]. injection Hs as <-.
    destruct (settle_frame r answer { s with direct := delete k (direct s) }) as (_ & _ & H3 & _ & _ & H6 & _ & _ & H9 & _).
    intros Hc. rewrite H9 in Hc. rewrite H6, H3. cbn in *. rewrite Hsch by done. split; [by apply Hl|constructor].
  - injection Hs as <-. intros Hc. cbn in *. apply orb_false_iff in Hc as [Hc Hn]. rewrite Hsch by done. split; [by apply Hl|constructor].
  - injection Hs as <-. exact Hl.
  - injection Hs as <-. unfold syncUserProfile, cacheUserProfile. destruct (negb _); [done|]. destruct (_ && _); exact Hl.
  - destruct (scheduled s || (ms <? 0)%Z); [done|]. injection Hs as <-. exact Hl.
Qed.

Lemma profiles_run es s s' :
  run es s = Some s' → cache_ok s → ids_ok s → lost_ok s → cache_ok s' ∧ ids_ok s' ∧ lost_ok s'.
Proof.
  revert s. induction es as [|e es IH]; intros s Hr H1 H2 H3; cbn in Hr; [by simplify_eq|].
  destruct (step e s) as [s1|] eqn:E; [|done]. eapply IH; [done| | |].
  - by eapply cache_ok_step.
  - by eapply ids_ok_step.
  - by eapply lost_ok_step.
Qed.

(** The cache of profiles, whatever is asked for, answered, published or cleared in which order: no name
    twice and at most 256 names; every profile in it expires within five minutes and was answered to a
    request, or published, after the cache was last cleared, so that nothing of the previous account
    comes back. Every request is settled once, or waits in the queue, in a batch of at most 50 names or
    for its own answer; none loses its handler, unless the cache was cleared before a queued batch started. *)
Theorem profile_cache es s :
  run es initial = Some s →
  NoDup (cache s).*1 ∧ length (cache s) ≤ PROFILE_CACHE_MAX_ENTRIES ∧
  (∀ n e, (n, e) ∈ cache s → (expiresAt e ≤ now s + PROFILE_CACHE_TTL_MS)%Z ∧ origin s n (e_profile e)) ∧
  rq_id <$> ((settled s).*1 ++ (queue s).*2 ++ in_flushes (flushes s) ++ direct s ++ lost s) ≡ₚ seq 0 (next_id s) ∧
  Forall (λ f, f.1 ≠ [] ∧ length f.1 ≤ BATCH) (flushes s) ∧ (cleared_early s = false → lost s = []).
Proof.
  intros ([Hk Hs He] & [Hi Hb _ _] & Hl)%profiles_run.
  - split_and!; [done|done| |exact Hi|done|intros Hc; by apply Hl]. intros n e Hin. rewrite Forall_forall in He. exact (He _ Hin).
  - split; cbn; [constructor|lia|constructor].
  - split; cbn; [done|constructor|by repeat constructor|done].
  - done.
Qed.

(** *** Runs *)

Definition alice : profile := {| p_username := "alice"; nickname := "Alice" |}.
Definition renamed : profile := {| p_username := "alice"; nickname := "Ally" |}.

Definition example_run : list event :=
  [Get "alice" false; Get "Alice " false; Get "bob" false; Flush; Tick 40;
   BatchAnswer 0 (Some [pair (js "alice") alice]); Tick 1000; Get "alice" false].

Lemma profile_cache_witness :
  ∃ s, run example_run initial = Some s ∧ (getUserProfile "alice" false s).1 = Cached alice ∧
    rq_id <$> (settled s).*1 = [0; 1] ∧ origin s "alice" alice ∧ lost s = [].
Proof.
  destruct (run example_run initial) as [s|] eqn:E; [|by vm_compute in E].
  destruct (profile_cache example_run s E) as (_ & _ & Ho & _ & _ & Hl). exists s. split; [done|].
  assert (cleared_early s = false ∧ (getUserProfile "alice" false s).1 = Cached alice ∧ rq_id <$> (settled s).*1 = [0; 1] ∧
    (js "alice", {| e_profile := alice; expiresAt := 300040 |}) ∈ cache s) as (Hc & H1 & H2 & Hin).
  { vm_compute in E. injection E as <-. vm_compute. split_and!; try done. left. }
  split_and!; [done|done|exact (proj2 (Ho _ _ Hin))|by apply Hl].
Defined.

(** An answer that was under way when a profile was published replaces the published one, for five minutes. *)
Lemma published_overwritten :
  cache <$> run [Get "alice" false; Flush; Sync renamed ""; BatchAnswer 0 (Some [pair (js "alice") alice])] initial
    = Some [pair (js "alice") {| e_profile := alice; expiresAt := 300000 |}].
Proof. by vm_compute. Qed.

(** After an invalidation, a request that was under way is shared and its answer is cached. *)
Lemma invalidation_shares_old :
  next_id <$> run [Get "alice" false; Flush; Invalidate [js "alice"]; Get "alice" false] initial = Some 1 ∧
  cache <$> run [Get "alice" false; Flush; Invalidate [js "alice"]; Get "alice" false;
                 BatchAnswer 0 (Some [pair (js "alice") alice])] initial
    = Some [pair (js "alice") {| e_profile := alice; expiresAt := 300000 |}].
Proof. by vm_compute. Qed.

(** The case the theorem leaves out: cleared in the same turn, the first of two requests never ends. *)
Lemma cleared_early_loses :
  (λ s, rq_id <$> lost s) <$> run [Get "alice" false; Clear; Get "alice" false] initial = Some [0].
Proof. by vm_compute. Qed.
