(* ===== verification/Captcha.v ===== *)
(** * Challenges before protected requests

    [internal/service/frontend/renop-html/js/captcha.js]: the request that is sent again once with an
    approval, the queue of challenges, and the challenge itself with its frame, its timers
    and the verification of an answer. What the server, the frame and the user do are
    events; the dialog around the widget is left out. *)

From S2P Require Import Prelude JsText.

#[local] Arguments cons {A} & _ _.

Definition scopes : list jsstring :=
  js <$> ["password_login"; "registration"; "manual_mail"; "super_team_create"; "domain_create";
          "package_create"]%stdpp.

Definition providers : list jsstring :=
  js <$> ["recaptcha_v2"; "recaptcha_invisible"; "recaptcha_v3"; "turnstile"; "hcaptcha";
          "friendlycaptcha"]%stdpp.

(** Errors by the message they show; [Other] is the network's or the parser's. *)
Inductive failure := Cancelled | Unavailable | Changed | Expired | Other.

(** ** The widget *)

(** What the dialog shows. *)
Record view := { host_visible : bool; status : jsstring; retry_hidden : bool }.

(** What the continuations wait for: the renders for the visitor's consent, the verifications for
    their answers, the proofs for the last look at the consent. *)
Record waiting := { renders : nat; verifications : nat; checks : list jsstring }.

(** A frame is named by the nonce it was given; nonces are random, so each is used once. *)
Record widget := {
  hidden_by_default : bool;
  settled : option (result failure jsstring);
  aborted : bool;
  frame : option nat;
  next_nonce : nat;
  verifying : bool;
  frameTimer : bool;
  timer : bool;
  listening : bool;
  waits : waiting;
  shown : view
}.

Definition show (visible : bool) (text : jsstring) (retry : bool) (w : widget) : widget :=
  {| hidden_by_default := hidden_by_default w; settled := settled w; aborted := aborted w;
     frame := frame w; next_nonce := next_nonce w; verifying := verifying w;
     frameTimer := frameTimer w; timer := timer w; listening := listening w; waits := waits w;
     shown := {| host_visible := visible; status := text; retry_hidden := retry |} |}.

(** Another frame, its timer, and whether an answer is being verified. *)
Definition set_frame (f : option nat) (t v : bool) (w : widget) : widget :=
  {| hidden_by_default := hidden_by_default w; settled := settled w; aborted := aborted w;
     frame := f; next_nonce := next_nonce w; verifying := v;
     frameTimer := t; timer := timer w; listening := listening w; waits := waits w; shown := shown w |}.

Definition new_nonce (w : widget) : widget :=
  {| hidden_by_default := hidden_by_default w; settled := settled w; aborted := aborted w;
     frame := frame w; next_nonce := S (next_nonce w); verifying := verifying w;
     frameTimer := frameTimer w; timer := timer w; listening := listening w; waits := waits w;
     shown := shown w |}.

Definition set_waits (r v : nat) (c : list jsstring) (w : widget) : widget :=
  {| hidden_by_default := hidden_by_default w; settled := settled w; aborted := aborted w;
     frame := frame w; next_nonce := next_nonce w; verifying := verifying w;
     frameTimer := frameTimer w; timer := timer w; listening := listening w;
     waits := {| renders := r; verifications := v; checks := c |}; shown := shown w |}.

(** [finish] *)
Definition finish (r : result failure jsstring) (w : widget) : widget :=
  match settled w with
  | Some _ => w
  | None =>
      {| hidden_by_default := hidden_by_default w; settled := Some r; aborted := aborted w;
         frame := frame w; next_nonce := next_nonce w; verifying := verifying w;
         frameTimer := false; timer := false; listening := false; waits := waits w; shown := shown w |}
  end.

Definition failed (w : widget) : widget :=
  match settled w with
  | Some _ => w
  | None => show false "captcha.failed" false (set_frame None false false w)
  end.

(** [controller.abort()]: the listener of the first abort settles the challenge. *)
Definition abort (w : widget) : widget :=
  if aborted w then w
  else
    finish (Throw Cancelled)
      {| hidden_by_default := hidden_by_default w; settled := settled w; aborted := true;
         frame := frame w; next_nonce := next_nonce w; verifying := verifying w;
         frameTimer := frameTimer w; timer := timer w; listening := listening w; waits := waits w;
         shown := shown w |}.

Definition is_settled (w : widget) : bool := bool_decide (is_Some (settled w)).
Definition has_frame (w : widget) : bool := bool_decide (is_Some (frame w)).

(** [render] up to its [await]. *)
Definition render_begin (w : widget) : widget :=
  if has_frame w || verifying w || is_settled w then w
  else set_waits (S (renders (waits w))) (verifications (waits w)) (checks (waits w)) w.

(** [render] after it: whether optional services are allowed, or the error of asking. *)
Definition render_resume (allowed : result failure bool) (w : widget) : widget :=
  match renders (waits w) with
  | O => w
  | S n =>
      let w := set_waits n (verifications (waits w)) (checks (waits w)) w in
      match allowed with
      | Throw _ => failed w
      | Ok false => show false "captcha.consent" (retry_hidden (shown w)) w
      | Ok true =>
          if has_frame w || verifying w || is_settled w || aborted w then w
          else
            let w := if hidden_by_default w then show false "captcha.verifying" true w
                     else show true "captcha.loading" true w in
            new_nonce (set_frame (Some (next_nonce w)) true (verifying w) w)
      end
  end.

(** A message of a frame. [response] is [None] when it is not a string. *)
Inductive kind :=
  | Size | Interactive | ErrorOrExpired
  | Complete (response : option jsstring)
  | Unknown.

(** [source]: the frame whose window sent it; [nonce]: the nonce it carries. *)
Definition onMessage (source : option nat) (same_origin : bool) (nonce : nat) (k : kind) (w : widget) : widget :=
  match settled w, frame w with
  | None, Some f =>
      if bool_decide (source = Some f) && same_origin && (nonce =? f)%nat then
        let w := set_frame (Some f) false (verifying w) w in
        match k with
        | Size | Unknown => w
        | Interactive => show true "captcha.loading" (retry_hidden (shown w)) w
        | ErrorOrExpired => failed w
        | Complete (Some response) =>
            if negb (verifying w) && (Z.of_nat (length response) <=? 16384)%Z then
              let w := show false "captcha.verifying" (retry_hidden (shown w)) (set_frame None false true w) in
              set_waits (renders (waits w)) (S (verifications (waits w))) (checks (waits w)) w
            else w
        | Complete None => w
        end
      else w
  | _, _ => w
  end.

(** The answer to [/api/captcha/verify]; [Proof None] carries no string. *)
Inductive verified := Refused (status : Z) | Broken | Proof (p : option jsstring).

Definition good_proof (p : jsstring) : bool := truthy p && (length p <=? 128)%nat.

(** [stale] is [epoch !== generation]. *)
Definition on_verified (v : verified) (stale : bool) (w : widget) : widget :=
  match verifications (waits w) with
  | O => w
  | S n =>
      let w := set_waits (renders (waits w)) n (checks (waits w)) w in
      match v with
      | Refused status => if (status =? 409)%Z then finish (Throw Changed) w else failed w
      | Broken => if aborted w then w else failed w
      | Proof (Some p) =>
          if good_proof p then
            if stale || aborted w then abort w
            else set_waits (renders (waits w)) n (p :: checks (waits w)) w
          else failed w
      | Proof None => failed w
      end
  end.

Fixpoint remove_one (p : jsstring) (l : list jsstring) : list jsstring :=
  match l with [] => [] | q :: l => if eqs q p then l else q :: remove_one p l end.

(** The consent is asked for again before a proof is given out. *)
Definition on_checked (p : jsstring) (allowed : result failure bool) (w : widget) : widget :=
  if bool_decide (p ∈ checks (waits w)) then
    let w := set_waits (renders (waits w)) (verifications (waits w)) (remove_one p (checks (waits w))) w in
    match allowed with
    | Throw _ => if aborted w then w else failed w
    | Ok false => abort w
    | Ok true => finish (Ok p) w
    end
  else w.

Inductive widget_event :=
  | RetryClick
  | PreferencesOn
  | RenderResume (allowed : result failure bool)
  | FrameTimeout
  | Message (source : option nat) (same_origin : bool) (nonce : nat) (k : kind)
  | Verified (v : verified)
  | Checked (p : jsstring) (allowed : result failure bool)
  | Timeout
  | Close.

Definition widget_exec (e : widget_event) (stale : bool) (w : widget) : widget :=
  match e with
  | RetryClick => if retry_hidden (shown w) then w else render_begin w
  | PreferencesOn => if listening w then render_begin w else w
  | RenderResume allowed => render_resume allowed w
  | FrameTimeout => if frameTimer w then failed w else w
  | Message source same_origin nonce k =>
      if listening w then onMessage source same_origin nonce k w else w
  | Verified v => on_verified v stale w
  | Checked p allowed => on_checked p allowed w
  | Timeout => if timer w then finish (Throw Expired) w else w
  | Close => abort w
  end.

(** The widget when the dialog opens: its first render has begun. *)
Definition open_widget (hidden : bool) : widget :=
  render_begin
    {| hidden_by_default := hidden; settled := None; aborted := false; frame := None; next_nonce := 0;
       verifying := false; frameTimer := false; timer := true; listening := true;
       waits := {| renders := 0; verifications := 0; checks := [] |};
       shown := {| host_visible := negb hidden;
                   status := if hidden then "captcha.verifying" else "captcha.loading";
                   retry_hidden := true |} |}.

(** ** The queue *)

(** A request that waits for its approval; [epoch] is the generation it was made in. *)
Record task := { tid : nat; scope : jsstring; epoch : nat }.

Global Instance task_eq_dec : EqDecision task.
Proof. solve_decision. Defined.

Inductive phase := Metadata | Open (w : widget).

(** [running] is the challenge the queue has started and that has not ended; [ended] those whose
    callers have not gone on; [outcomes] what the callers got: a proof (empty when no challenge was
    needed) or an error. *)
Record captcha := {
  generation : nat;
  pending : nat;
  queue : list task;
  running : option (task * phase);
  aborted_signals : list nat;
  ended : list (task * result failure jsstring);
  outcomes : list (task * result failure jsstring)
}.

Definition initial : captcha :=
  {| generation := 0; pending := 0; queue := []; running := None; aborted_signals := [];
     ended := []; outcomes := [] |}.

Definition signal_aborted (t : task) (s : captcha) : bool := bool_decide (tid t ∈ aborted_signals s).

Definition stale (t : task) (s : captcha) : bool := negb (epoch t =? generation s)%nat.

Definition set_running (r : option (task * phase)) (s : captcha) : captcha :=
  {| generation := generation s; pending := pending s; queue := queue s; running := r;
     aborted_signals := aborted_signals s; ended := ended s; outcomes := outcomes s |}.

(** A task ends: [finally] counts it off and its caller may go on. *)
Definition end_task (t : task) (r : result failure jsstring) (s : captcha) : captcha :=
  {| generation := generation s; pending := pred (pending s); queue := queue s; running := None;
     aborted_signals := aborted_signals s; ended := ended s ++ [(t, r)]; outcomes := outcomes s |}.

(** The open challenge with another widget; once settled it is closed. *)
Definition put_widget (t : task) (w : widget) (s : captcha) : captcha :=
  match settled w with
  | Some r => end_task t r s
  | None => set_running (Some (t, Open w)) s
  end.

Definition cancelChallenges (s : captcha) : captcha :=
  let s' := {| generation := S (generation s); pending := pending s; queue := queue s;
               running := running s; aborted_signals := aborted_signals s; ended := ended s;
               outcomes := outcomes s |} in
  match running s with
  | Some (t, Open w) => put_widget t (abort w) s'
  | _ => s'
  end.

(** The metadata: unreadable, no challenge for the scope, an unknown provider, or one to open. *)
Inductive metadata := Unreadable | NotRequired | BadProvider | Provider (hidden : bool).

Inductive event :=
  | Ask (id : nat) (scope : jsstring)
  | Start
  | GotMetadata (m : metadata)
  | Widget (e : widget_event)
  | Leave
  | PreferencesOff
  | AbortSignal (id : nat)
  | Deliver (t : task).

Fixpoint take_ended (t : task) (l : list (task * result failure jsstring)) :
    option (result failure jsstring * list (task * result failure jsstring)) :=
  match l with
  | [] => None
  | (t', r) :: l =>
      if bool_decide (t' = t) then Some (r, l)
      else match take_ended t l with Some (r', l') => Some (r', (t', r) :: l') | None => None end
  end.

Definition exec (e : event) (s : captcha) : option captcha :=
  match e with
  | Ask id sc =>
      let t := {| tid := id; scope := sc; epoch := generation s |} in
      if negb (bool_decide (sc ∈ scopes)) || (8 <=? pending s)%nat then
        Some {| generation := generation s; pending := pending s; queue := queue s;
                running := running s; aborted_signals := aborted_signals s; ended := ended s;
                outcomes := outcomes s ++ [(t, Throw Unavailable)] |}
      else
        Some {| generation := generation s; pending := S (pending s); queue := queue s ++ [t];
                running := running s; aborted_signals := aborted_signals s; ended := ended s;
                outcomes := outcomes s |}
  | Start =>
      match running s, queue s with
      | None, t :: q =>
          let s := {| generation := generation s; pending := pending s; queue := q;
                      running := Some (t, Metadata); aborted_signals := aborted_signals s;
                      ended := ended s; outcomes := outcomes s |} in
          if stale t s || signal_aborted t s then Some (end_task t (Throw Cancelled) s) else Some s
      | _, _ => None
      end
  | GotMetadata m =>
      match running s with
      | Some (t, Metadata) =>
          match m with
          | Unreadable => Some (end_task t (Throw Other) s)
          | NotRequired => Some (end_task t (Ok []) s)
          | BadProvider => Some (end_task t (Throw Unavailable) s)
          | Provider hidden =>
              if stale t s || signal_aborted t s then Some (end_task t (Throw Cancelled) s)
              else Some (set_running (Some (t, Open (open_widget hidden))) s)
          end
      | _ => None
      end
  | Widget e =>
      match running s with
      | Some (t, Open w) => Some (put_widget t (widget_exec e (stale t s) w) s)
      | _ => None
      end
  | Leave => Some (cancelChallenges s)
  | PreferencesOff =>
      match running s with
      | Some (_, Open _) => Some (cancelChallenges s)
      | _ => Some s
      end
  | AbortSignal id =>
      let s' := {| generation := generation s; pending := pending s; queue := queue s;
                   running := running s; aborted_signals := id :: aborted_signals s;
                   ended := ended s; outcomes := outcomes s |} in
      match running s with
      | Some (t, Open w) => if (tid t =? id)%nat then Some (put_widget t (abort w) s') else Some s'
      | _ => Some s'
      end
  | Deliver t =>
      match take_ended t (ended s) with
      | None => None
      | Some (r, rest) =>
          let r := match r with
                   | Throw e => Throw e
                   | Ok p => if stale t s || signal_aborted t s then Throw Cancelled else Ok p
                   end in
          Some {| generation := generation s; pending := pending s; queue := queue s;
                  running := running s; aborted_signals := aborted_signals s; ended := rest;
                  outcomes := outcomes s ++ [(t, r)] |}
      end
  end.

(** ** The request *)

(** The first answer of the server, as far as the code looks at it. *)
Record answer := { code : Z; error_code : option jsstring; captcha_scope : option jsstring }.

(** [captchaHeaders] up to the queue: no challenge, a refusal, or the scope to ask for. *)
Definition wants_challenge (r : answer) (same_origin : bool) : result failure (option jsstring) :=
  if negb (code r =? 428)%Z || negb (bool_decide (error_code r = Some (js "captcha_required"))) then Ok None
  else if negb same_origin then Ok None
  else match captcha_scope r with
       | Some sc => if bool_decide (sc ∈ scopes) then Ok (Some sc) else Throw Unavailable
       | None => Throw Unavailable
       end.

Inductive fetched := Answer (n : nat) | Failed (e : failure).

(** What the caller gets, the headers of the requests sent, and whether the first body was cancelled.
    [approve] is what the queue gives for a scope. *)
Record exchange := { given : fetched; sent : list (list (jsstring * jsstring)); cancelled_body : bool }.

Definition set_header (k v : jsstring) (hs : list (jsstring * jsstring)) : list (jsstring * jsstring) :=
  List.filter (λ h, negb (eqs (toLowerCase h.1) (toLowerCase k))) hs ++ [(k, v)].

Definition captchaFetch (headers : list (jsstring * jsstring)) (stream_body same_origin : bool) (r : answer)
    (approve : jsstring → result failure jsstring) : exchange :=
  if stream_body then {| given := Answer 0; sent := [headers]; cancelled_body := false |}
  else
    match wants_challenge r same_origin with
    | Throw e => {| given := Failed e; sent := [headers]; cancelled_body := true |}
    | Ok None => {| given := Answer 0; sent := [headers]; cancelled_body := false |}
    | Ok (Some sc) =>
        match approve sc with
        | Throw e => {| given := Failed e; sent := [headers]; cancelled_body := true |}
        | Ok proof =>
            let hs := if truthy proof then set_header "X-Renop-Captcha" proof headers else headers in
            {| given := Answer 1; sent := [headers; hs]; cancelled_body := true |}
        end
    end.

(** ** The widget settles once, and cleans up *)

Record widget_ok (w : widget) : Prop := {
  ok_open : settled w = None → aborted w = false ∧ timer w = true ∧ listening w = true;
  ok_settled : settled w ≠ None → timer w = false ∧ listening w = false ∧ frameTimer w = false;
  ok_proof : ∀ p, settled w = Some (Ok p) → good_proof p = true;
  ok_checks : ∀ p, p ∈ checks (waits w) → good_proof p = true;
  ok_frame : ∀ n, frame w = Some n → (n < next_nonce w)%nat ∧ verifying w = false;
  ok_frame_timer : frameTimer w = true → is_Some (frame w)
}.

Ltac solve_ok := split; cbn in *; try done; try naive_solver.

Lemma show_ok v txt r w : widget_ok w → widget_ok (show v txt r w).
Proof. by intros []. Qed.

Lemma set_waits_ok r v c w :
  widget_ok w → (∀ p, p ∈ c → good_proof p = true) → widget_ok (set_waits r v c w).
Proof. by intros [] Hc. Qed.

Lemma finish_ok r w :
  widget_ok w → (∀ p, r = Ok p → good_proof p = true) → widget_ok (finish r w).
Proof.
  intros [] Hr. unfold finish. destruct (settled w) eqn:E; [by split; rewrite ?E|].
  split; cbn; try done. intros p [= ->]. by apply Hr.
Qed.

Lemma failed_ok w : widget_ok w → widget_ok (failed w).
Proof.
  intros []. unfold failed. destruct (settled w) eqn:E; [by split; rewrite ?E|].
  split; cbn; rewrite ?E; done.
Qed.

Lemma abort_ok w : widget_ok w → widget_ok (abort w).
Proof.
  intros Hw. unfold abort. destruct (aborted w); [done|]. unfold finish. cbn.
  destruct Hw. destruct (settled w) eqn:E; split; cbn; rewrite ?E in *; try done.
Qed.

Lemma has_frame_false w : has_frame w = false → frame w = None.
Proof. unfold has_frame. intros H%bool_decide_eq_false. by destruct (frame w); [destruct H; eauto|]. Qed.

Lemma is_settled_false w : is_settled w = false → settled w = None.
Proof. unfold is_settled. intros H%bool_decide_eq_false. by destruct (settled w); [destruct H; eauto|]. Qed.

Lemma render_begin_ok w : widget_ok w → widget_ok (render_begin w).
Proof. intros Hw. unfold render_begin. case_match; [done|]. apply set_waits_ok; [done|apply Hw]. Qed.

Lemma render_resume_ok a w : widget_ok w → widget_ok (render_resume a w).
Proof.
  intros Hw. unfold render_resume. destruct (renders (waits w)) as [|n]; [done|]. cbv zeta.
  assert (Hw' := set_waits_ok n (verifications (waits w)) (checks (waits w)) w Hw (ok_checks w Hw)).
  revert Hw'. generalize (set_waits n (verifications (waits w)) (checks (waits w)) w). clear. intros w Hw.
  destruct a as [[]|]; [|by apply show_ok|by apply failed_ok].
  destruct (has_frame w || verifying w || is_settled w || aborted w) eqn:E; [done|]. bool_prop.
  repeat match goal with H : has_frame _ = _ |- _ => apply has_frame_false in H
    | H : is_settled _ = _ |- _ => apply is_settled_false in H end.
  destruct Hw. destruct (hidden_by_default w); split; cbn; try done;
    try (intros n' [= <-]; split; [lia|done]); naive_solver.
Qed.

Lemma onMessage_ok src same n k w : widget_ok w → widget_ok (onMessage src same n k w).
Proof.
  intros Hw. unfold onMessage. destruct (settled w) eqn:Es, (frame w) as [f|] eqn:Ef; try done.
  case_match; [|done]. cbv zeta.
  assert (Hw' : widget_ok (set_frame (Some f) false (verifying w) w)).
  { destruct Hw. split; cbn; rewrite ?Es in *; try done. intros n' [= <-]. by apply ok_frame0. }
  destruct k as [| | |[response|]|]; try done; [by apply show_ok|by apply failed_ok|].
  case_match; [|done]. apply set_waits_ok; [|apply Hw].
  apply show_ok. destruct Hw. split; cbn; rewrite ?Es in *; done.
Qed.

Lemma on_verified_ok v st w : widget_ok w → widget_ok (on_verified v st w).
Proof.
  intros Hw. unfold on_verified. destruct (verifications (waits w)) as [|n]; [done|]. cbv zeta.
  assert (Hw' := set_waits_ok (renders (waits w)) n (checks (waits w)) w Hw (ok_checks w Hw)).
  revert Hw'. generalize (set_waits (renders (waits w)) n (checks (waits w)) w). clear. intros w Hw.
  destruct v as [status| |[p|]]; repeat case_match; try done;
    try (by apply failed_ok); try (by apply abort_ok); try (by apply finish_ok).
  apply set_waits_ok; [done|]. intros q [->|Hq]%elem_of_cons; [done|by apply (ok_checks w Hw)].
Qed.

Lemma remove_one_elem p q l : q ∈ remove_one p l → q ∈ l.
Proof.
  induction l as [|x l IH]; cbn [remove_one]; [done|]. case_match; [by right|].
  intros [->|Hr]%elem_of_cons; [by left|right; auto].
Qed.

Lemma on_checked_ok p a w : widget_ok w → widget_ok (on_checked p a w).
Proof.
  intros Hw. unfold on_checked. case_bool_decide as Hp; [|done]. cbv zeta.
  assert (Hw' := set_waits_ok (renders (waits w)) (verifications (waits w)) (remove_one p (checks (waits w))) w Hw
    (λ q Hq, ok_checks w Hw q (remove_one_elem p q _ Hq))).
  destruct a as [[]|]; [|by apply abort_ok|case_match; [done|by apply failed_ok]].
  apply finish_ok; [done|]. intros q [= <-]. by apply (ok_checks w Hw).
Qed.

Lemma widget_exec_ok e st w : widget_ok w → widget_ok (widget_exec e st w).
Proof.
  intros Hw. destruct e; cbn [widget_exec]; repeat case_match; try done;
    eauto using render_begin_ok, render_resume_ok, failed_ok, onMessage_ok, on_verified_ok,
      on_checked_ok, abort_ok.
  by apply finish_ok.
Qed.

Lemma open_widget_ok hidden : widget_ok (open_widget hidden).
Proof. apply render_begin_ok. split; cbn; try done; intros ? []%not_elem_of_nil. Qed.

(** ** The queue *)

Definition fair_proof (r : result failure jsstring) : Prop :=
  match r with Ok p => p = [] ∨ good_proof p = true | Throw _ => True end.

Definition in_flight (s : captcha) : nat :=
  length (queue s) + match running s with Some _ => 1 | None => 0 end.

(** What [running] holds: an open widget is unsettled, of the present generation, and its signal is
    not aborted. *)
Definition running_ok (s : captcha) (r : option (task * phase)) : Prop :=
  match r with
  | Some (t, Open w) => widget_ok w ∧ settled w = None ∧ stale t s = false ∧ signal_aborted t s = false
  | _ => True
  end.

Record inv (s : captcha) : Prop := {
  i_pending : pending s = in_flight s ∧ (pending s ≤ 8)%nat;
  i_running : running_ok s (running s);
  i_ended : Forall (λ tr, fair_proof tr.2) (ended s);
  i_outcomes : Forall (λ tr, fair_proof tr.2) (outcomes s)
}.

Lemma end_task_inv t r s :
  pending s = S (length (queue s)) → (pending s ≤ 8)%nat → fair_proof r →
  Forall (λ tr, fair_proof tr.2) (ended s) → Forall (λ tr, fair_proof tr.2) (outcomes s) →
  inv (end_task t r s).
Proof.
  intros Hp H8 Hr He Ho. split; cbn; unfold in_flight; cbn; [lia|done| |done].
  apply Forall_app. split; [done|by repeat constructor].
Qed.

Lemma put_widget_inv t w s :
  pending s = S (length (queue s)) → (pending s ≤ 8)%nat →
  Forall (λ tr, fair_proof tr.2) (ended s) → Forall (λ tr, fair_proof tr.2) (outcomes s) →
  widget_ok w → (settled w = None → stale t s = false ∧ signal_aborted t s = false) →
  inv (put_widget t w s).
Proof.
  intros Hp H8 He Ho Hw Hs. unfold put_widget. destruct (settled w) as [r|] eqn:E.
  - apply end_task_inv; try done. destruct r as [p|]; [|done]. right. by apply (ok_proof w Hw).
  - destruct (Hs eq_refl). split; cbn; unfold in_flight; cbn; [lia|done|done|done].
Qed.

Lemma settled_abort w : widget_ok w → settled w = None → settled (abort w) = Some (Throw Cancelled).
Proof. intros Hw Hs. unfold abort. destruct (ok_open w Hw Hs) as [-> _]. unfold finish. cbn. by rewrite Hs. Qed.

Lemma running_pending s t ph : inv s → running s = Some (t, ph) → pending s = S (length (queue s)).
Proof. intros [[Hp _] _ _ _] Hr. unfold in_flight in Hp. rewrite Hr in Hp. lia. Qed.

(** Aborting the open challenge ends it, whatever else changes. *)
Lemma abort_inv t w s s' :
  inv s → running s = Some (t, Open w) →
  pending s' = pending s → queue s' = queue s → ended s' = ended s → outcomes s' = outcomes s →
  inv (put_widget t (abort w) s').
Proof.
  intros Hi Hr Hp Hq He Ho. pose proof (running_pending _ _ _ Hi Hr).
  pose proof (i_running s Hi) as Hw. rewrite Hr in Hw. destruct Hw as (Hw & Hs & _).
  destruct Hi as [[_ H8] _ H3 H4]. apply put_widget_inv; rewrite ?Hp, ?Hq, ?He, ?Ho; try done.
  - by apply abort_ok.
  - by rewrite (settled_abort w Hw Hs).
Qed.

Lemma cancel_inv s : inv s → inv (cancelChallenges s).
Proof.
  intros Hi. unfold cancelChallenges. destruct (running s) as [[t [|w]]|] eqn:Hr.
  2: by apply (abort_inv t w s).
  all: destruct Hi as [H1 H2 H3 H4]; split; cbn; try done; try (unfold in_flight in *; cbn; by rewrite Hr in *).
Qed.

Lemma take_ended_spec t l r rest :
  take_ended t l = Some (r, rest) → (t, r) ∈ l ∧ ∀ x, x ∈ rest → x ∈ l.
Proof.
  revert r rest. induction l as [|[t' r'] l IH]; intros r rest; cbn [take_ended]; [done|].
  case_bool_decide as Ht.
  - intros [= -> ->]. subst t'. split; [by left|]. intros x Hx. by right.
  - destruct (take_ended t l) as [[r2 l2]|] eqn:E; [|done]. intros [= -> <-].
    destruct (IH _ _ eq_refl) as [H1 H2]. split; [by right|].
    intros x [->|Hx]%elem_of_cons; [by left|right; auto].
Qed.

Lemma exec_captcha_inv e s s' : inv s → exec e s = Some s' → inv s'.
Proof.
  intros Hi. pose proof (i_pending s Hi) as [Hp H8].
  pose proof (i_ended s Hi) as He. pose proof (i_outcomes s Hi) as Ho.
  pose proof (i_running s Hi) as Hrun. unfold in_flight in Hp.
  destruct e as [id sc| |m|e| | |id|t]; cbn [exec]; cbv zeta.
  - destruct (negb (bool_decide (sc ∈ scopes)) || (8 <=? pending s)%nat) eqn:E; intros [= <-]; bool_prop.
    + split; cbn; [done|done|done|]. apply Forall_app. split; [done|by repeat constructor].
    + split; cbn; unfold in_flight; cbn; [|done|done|done]. rewrite length_app. cbn. bool_prop. lia.
  - destruct (running s) eqn:Hr; [done|]. destruct (queue s) as [|t q] eqn:Hq; [done|]. cbn in Hp.
    destruct (stale t _ || signal_aborted t _); intros [= <-].
    + apply end_task_inv; cbn; done || lia.
    + split; cbn; unfold in_flight; cbn; try done. lia.
  - destruct (running s) as [[t [|w]]|] eqn:Hr; [|done|done].
    pose proof (running_pending _ _ _ Hi Hr). destruct m as [| | |hidden].
    1-3: intros [= <-]; apply end_task_inv; try done; by left.
    destruct (stale t s || signal_aborted t s) eqn:E; intros [= <-]; [by apply end_task_inv|]. bool_prop.
    split; cbn; unfold in_flight; cbn; try done; try lia.
    refine (conj (open_widget_ok hidden) _). by split_and!.
  - destruct (running s) as [[t [|w]]|] eqn:Hr; [done| |done]. intros [= <-].
    destruct Hrun as (Hw & Hs & Hst & Hsig). apply put_widget_inv; try done.
    + by apply (running_pending s t (Open w)).
    + by apply widget_exec_ok.
  - intros [= <-]. by apply cancel_inv.
  - destruct (running s) as [[t [|w]]|] eqn:Hr; intros [= <-]; [done|by apply cancel_inv|done].
  - destruct (running s) as [[t [|w]]|] eqn:Hr.
    2: destruct (Nat.eqb_spec (tid t) id); intros [= <-]; [by apply (abort_inv t w s)|].
    all: try intros [= <-]; split; cbn; unfold in_flight; cbn; rewrite ?Hr; try done.
    destruct Hrun as (? & ? & ? & Hsig). split_and!; try done. unfold signal_aborted in *. cbn.
    bool_prop. apply bool_decide_eq_false. rewrite elem_of_cons. tauto.
  - destruct (take_ended t (ended s)) as [[r rest]|] eqn:Et; [|done]. intros [= <-].
    apply take_ended_spec in Et as [Hin Hsub]. rewrite Forall_forall in He.
    split; cbn; [done|done| |].
    + apply Forall_forall. auto.
    + apply Forall_app. split; [done|]. constructor; [|done]. specialize (He _ Hin). cbn [snd] in *.
      destruct r as [p|]; [|done]. by destruct (stale t s || signal_aborted t s).
Qed.

Fixpoint run (es : list event) (s : captcha) : option captcha :=
  match es with
  | [] => Some s
  | e :: es => match exec e s with Some s' => run es s' | None => None end
  end.

Lemma initial_inv : inv initial.
Proof. split; cbn; try done. unfold in_flight. cbn. lia. Qed.

Lemma run_inv es s s' : inv s → run es s = Some s' → inv s'.
Proof.
  revert s. induction es as [|e es IH]; intros s Hi; cbn [run]; [by intros [= <-]|].
  destruct (exec e s) as [s1|] eqn:E; [|done]. apply IH. by eapply exec_captcha_inv.
Qed.

(** ** Where a proof comes from *)

(** The frame in place has answered; then the server gave the proof; then the visitor's consent
    was confirmed. *)
Definition saw_answer (es : list widget_event) : Prop :=
  ∃ f r, Message (Some f) true f (Complete (Some r)) ∈ es.
Definition saw_proof (p : jsstring) (es : list widget_event) : Prop :=
  ∃ e1 e2, es = e1 ++ Verified (Proof (Some p)) :: e2 ∧ saw_answer e1.
Definition saw_consent (p : jsstring) (es : list widget_event) : Prop :=
  ∃ e1 e2, es = e1 ++ Checked p (Ok true) :: e2 ∧ saw_proof p e1.

Record traced (es : list widget_event) (v : nat) (c : list jsstring)
    (st : option (result failure jsstring)) : Prop := {
  t_answer : (0 < v)%nat → saw_answer es;
  t_proof : ∀ p, p ∈ c → saw_proof p es;
  t_consent : ∀ p, st = Some (Ok p) → saw_consent p es
}.

Definition traced_widget (es : list widget_event) (w : widget) : Prop :=
  traced es (verifications (waits w)) (checks (waits w)) (settled w).

Lemma saw_answer_app es e : saw_answer es → saw_answer (es ++ e).
Proof. intros (f & r & H). exists f, r. apply elem_of_app. by left. Qed.

Lemma saw_proof_app p es e : saw_proof p es → saw_proof p (es ++ e).
Proof. intros (e1 & e2 & -> & H). exists e1, (e2 ++ e). by rewrite <- app_assoc. Qed.

Lemma saw_consent_app p es e : saw_consent p es → saw_consent p (es ++ e).
Proof. intros (e1 & e2 & -> & H). exists e1, (e2 ++ e). by rewrite <- app_assoc. Qed.

Lemma traced_app es e v c st : traced es v c st → traced (es ++ e) v c st.
Proof.
  intros [H1 H2 H3]. split; eauto using saw_answer_app, saw_proof_app, saw_consent_app.
Qed.

(** Fewer verifications, fewer proofs, and an end without a new proof. *)
Lemma traced_less es v c st v' c' st' :
  traced es v c st → (v' ≤ v)%nat → (∀ p, p ∈ c' → p ∈ c) →
  (∀ p, st' = Some (Ok p) → st = Some (Ok p)) → traced es v' c' st'.
Proof. intros [H1 H2 H3] Hv Hc Hs. split; [intros; apply H1; lia|auto|auto]. Qed.

Lemma failed_keeps w : waits (failed w) = waits w ∧ settled (failed w) = settled w.
Proof. unfold failed. by destruct (settled w) eqn:E; cbn; rewrite ?E. Qed.

Lemma finish_keeps r w : waits (finish r w) = waits w ∧
  settled (finish r w) = match settled w with Some x => Some x | None => Some r end.
Proof. unfold finish. by destruct (settled w) eqn:E; cbn; rewrite ?E. Qed.

Lemma abort_keeps w : waits (abort w) = waits w ∧
  (settled (abort w) = settled w ∨ settled (abort w) = Some (Throw Cancelled)).
Proof. unfold abort, finish. destruct (aborted w); [by auto|]. cbn. by destruct (settled w) eqn:E; cbn; rewrite ?E; auto. Qed.

Lemma traced_keep es w w' :
  traced_widget es w → waits w' = waits w →
  (settled w' = settled w ∨ ∃ e, settled w' = Some (Throw e)) → traced_widget es w'.
Proof.
  intros Ht Hw Hs. unfold traced_widget. rewrite Hw. eapply traced_less; [exact Ht|lia|done|].
  intros p Hp. destruct Hs as [Hs|[e Hs]]; congruence.
Qed.

Lemma traced_failed es w : traced_widget es w → traced_widget es (failed w).
Proof. intros Ht. destruct (failed_keeps w). eapply traced_keep; eauto. Qed.

Lemma traced_abort es w : traced_widget es w → traced_widget es (abort w).
Proof. intros Ht. destruct (abort_keeps w) as [H1 [H2|H2]]; eapply traced_keep; eauto. Qed.

Lemma traced_throw es e w : traced_widget es w → traced_widget es (finish (Throw e) w).
Proof.
  intros Ht. destruct (finish_keeps (Throw e) w) as [H1 H2]. eapply traced_keep; [done|done|].
  rewrite H2. destruct (settled w); eauto.
Qed.

Lemma traced_waits es r v c w :
  traced_widget es w → traced es v c (settled w) → traced_widget es (set_waits r v c w).
Proof. by intros _ H. Qed.

#[local] Hint Resolve traced_failed traced_abort traced_throw : renop.

Lemma traced_render es a w : traced_widget es w → traced_widget es (render_resume a w).
Proof.
  intros Ht. unfold render_resume. destruct (renders (waits w)) as [|n]; [done|]. cbv zeta.
  assert (Hw : traced_widget es (set_waits n (verifications (waits w)) (checks (waits w)) w)) by exact Ht.
  revert Hw. generalize (set_waits n (verifications (waits w)) (checks (waits w)) w). clear. intros w Ht.
  destruct a as [[]|]; [|done|by apply traced_failed]. split_if; [done|]. by destruct (hidden_by_default w).
Qed.

Lemma traced_message es src same n k w :
  traced_widget es w → traced_widget (es ++ [Message src same n k]) (onMessage src same n k w).
Proof.
  intros Ht. pose proof (traced_app es [Message src same n k] _ _ _ Ht) as Ht'. unfold onMessage.
  destruct (settled w) eqn:Es, (frame w) as [f|] eqn:Ef; try exact Ht'.
  all: try (unfold traced_widget; rewrite Es; exact Ht').
  destruct (bool_decide (src = Some f) && same && (n =? f)%nat) eqn:E;
    [|unfold traced_widget; rewrite Es; exact Ht'].
  cbv zeta. bool_prop. subst src n same.
  assert (Hw : traced_widget (es ++ [Message (Some f) true f k]) (set_frame (Some f) false (verifying w) w))
    by (unfold traced_widget; cbn; rewrite Es; exact Ht').
  destruct k as [| | |[response|]|]; try exact Hw; [by apply traced_failed|].
  split_if; [|exact Hw]. apply traced_waits; [exact Hw|]. destruct Hw as [H1 H2 H3].
  split; [|exact H2|exact H3]. intros _. exists f, response. apply elem_of_app. right. by left.
Qed.

Lemma traced_verified es v st w :
  traced_widget es w → traced_widget (es ++ [Verified v]) (on_verified v st w).
Proof.
  intros Ht. pose proof (traced_app es [Verified v] _ _ _ Ht) as Ht'. unfold on_verified.
  destruct (verifications (waits w)) as [|n] eqn:Ev; [unfold traced_widget; by rewrite Ev|]. cbv zeta.
  assert (Hw : traced_widget (es ++ [Verified v]) (set_waits (renders (waits w)) n (checks (waits w)) w)).
  { eapply traced_less; [exact Ht'|cbn; lia|done|done]. }
  destruct v as [status| |[p|]]; repeat split_if; auto with renop.
  apply traced_waits; [done|]. destruct Hw as [H1 H2 H3]. split; [exact H1| |exact H3].
  intros q [->|Hq]%elem_of_cons; [|by apply H2]. exists es, []. split; [done|].
  apply (t_answer _ _ _ _ Ht). lia.
Qed.

Lemma traced_checked es p a w :
  traced_widget es w → traced_widget (es ++ [Checked p a]) (on_checked p a w).
Proof.
  intros Ht. pose proof (traced_app es [Checked p a] _ _ _ Ht) as Ht'. unfold on_checked.
  case_bool_decide as Hp; [|exact Ht']. cbv zeta.
  set (w' := set_waits _ _ _ w).
  assert (Hw : traced_widget (es ++ [Checked p a]) w').
  { eapply traced_less; [exact Ht'|done| |done]. intros q. apply remove_one_elem. }
  destruct a as [[]|]; [|by apply traced_abort|split_if; auto with renop].
  destruct (finish_keeps (Ok p) w') as [H1 H2]. unfold traced_widget. rewrite H1, H2.
  destruct Hw as [Ha Hb Hc]. split; [done|done|]. intros q. destruct (settled w') eqn:Es; [apply Hc|].
  intros [= <-]. exists es, []. split; [done|]. by apply (t_proof _ _ _ _ Ht).
Qed.

Lemma traced_exec es e st w : traced_widget es w → traced_widget (es ++ [e]) (widget_exec e st w).
Proof.
  intros Ht. pose proof (traced_app es [e] _ _ _ Ht : traced_widget (es ++ [e]) w) as Ht'.
  destruct e; cbn [widget_exec]; try split_if; auto using traced_render, traced_message,
    traced_verified, traced_checked with renop; unfold render_begin; by split_if.
Qed.

(** A widget after events, each with the staleness of its request at that time. *)
Definition widget_run (hidden : bool) (es : list (widget_event * bool)) : widget :=
  foldl (λ w e, widget_exec e.1 e.2 w) (open_widget hidden) es.

Lemma widget_run_facts hidden es :
  widget_ok (widget_run hidden es) ∧ traced_widget es.*1 (widget_run hidden es).
Proof.
  unfold widget_run. induction es as [|[e st] es IH] using rev_ind.
  - split; [apply open_widget_ok|]. split; cbn; [lia|by intros p ?%not_elem_of_nil|done].
  - rewrite foldl_app, fmap_app. destruct IH as [H1 H2]. split; [by apply widget_exec_ok|].
    by apply traced_exec.
Qed.

Lemma settled_keep w r : settled w = Some r →
  settled (failed w) = Some r ∧ settled (abort w) = Some r ∧ ∀ x, settled (finish x w) = Some r.
Proof.
  intros Hs. unfold failed, abort, finish. rewrite Hs. split_and!; [done| |done].
  by destruct (aborted w).
Qed.

Lemma settled_stays e st w r : widget_ok w → settled w = Some r → settled (widget_exec e st w) = Some r.
Proof.
  intros Hw Hs. destruct (ok_settled w Hw) as (H1 & H2 & H3); [congruence|].
  destruct e; cbn [widget_exec]; rewrite ?H1, ?H2, ?H3; try done.
  - split_if; [done|]. unfold render_begin. by split_if.
  - unfold render_resume. destruct (renders (waits w)); [done|]. cbv zeta.
    destruct allowed as [[]|]; [|done|by apply settled_keep].
    split_if; [done|]. by destruct (hidden_by_default _).
  - unfold on_verified. destruct (verifications (waits w)); [done|]. cbv zeta.
    destruct v as [?| |[?|]]; repeat split_if; try done; by apply settled_keep.
  - unfold on_checked. split_if; [|done]. cbv zeta.
    destruct allowed as [[]|]; repeat split_if; try done; by apply settled_keep.
  - by apply settled_keep.
Qed.

(** C15: a challenge gives out a proof only at the end of its full course: the frame in place answered, the
    server gave this proof for the answer, and the visitor's consent was confirmed again, in
    this order; the proof is a non-empty text of at most 128 characters. A challenge settles
    once: after that its timers and listeners are gone and nothing changes the outcome; its timer or
    the user closing it settle it in any state. Messages of other windows, of other
    origins or with another nonce change nothing. *)
Theorem challenge_proof hidden es :
  let w := widget_run hidden es in
  (∀ p, settled w = Some (Ok p) → good_proof p = true ∧ saw_consent p es.*1) ∧
  (∀ r, settled w = Some r →
     timer w = false ∧ frameTimer w = false ∧ listening w = false ∧
     ∀ e st, settled (widget_exec e st w) = Some r) ∧
  (∀ st, is_Some (settled (widget_exec Timeout st w)) ∧ is_Some (settled (widget_exec Close st w))) ∧
  (∀ src same n k st, src ≠ frame w ∨ same = false ∨ frame w ≠ Some n →
     widget_exec (Message src same n k) st w = w).
Proof.
  cbv zeta. destruct (widget_run_facts hidden es) as [Hw Ht]. revert Hw Ht.
  generalize (widget_run hidden es) as w. intros w Hw Ht. split_and!.
  - intros p Hp. split; [by apply (ok_proof w Hw)|by apply (t_consent _ _ _ _ Ht)].
  - intros r Hr. destruct (ok_settled w Hw) as (H1 & H2 & H3); [congruence|].
    split_and!; try done. intros e st. by apply settled_stays.
  - intros st. destruct (settled w) as [r|] eqn:Es.
    + rewrite !(settled_stays _ _ _ r) by done. split; by eexists.
    + destruct (ok_open w Hw Es) as (Ha & Hti & _). cbn [widget_exec]. rewrite Hti.
      unfold abort, finish. rewrite Ha, Es. cbn. split; by eexists.
  - intros src same n k st Hf. cbn [widget_exec]. split_if; [|done]. unfold onMessage.
    destruct (settled w), (frame w) as [f|]; try done.
    assert (bool_decide (src = Some f) && same && (n =? f)%nat = false) as ->; [|done].
    destruct Hf as [Hf|[->|Hf]].
    + by rewrite bool_decide_false.
    + by rewrite andb_false_r.
    + destruct (Nat.eqb_spec n f) as [->|]; [done|by rewrite andb_false_r].
Qed.

(** ** Approvals and the generations *)

Lemma put_widget_same t w s :
  generation (put_widget t w s) = generation s ∧ outcomes (put_widget t w s) = outcomes s.
Proof. unfold put_widget. by destruct (settled w). Qed.

(** One step: the generation never goes back, and an approval is given for a task of the present
    generation whose signal is not aborted. *)
Lemma exec_approves e s s' :
  exec e s = Some s' →
  (generation s ≤ generation s')%nat ∧
  ∀ t p, (t, Ok p) ∈ outcomes s' → (t, Ok p) ∈ outcomes s ∨
    (epoch t = generation s ∧ signal_aborted t s = false).
Proof.
  assert (Hsame : ∀ x, generation x = generation s ∧ outcomes x = outcomes s →
    (generation s ≤ generation x)%nat ∧ ∀ t p, (t, Ok p) ∈ outcomes x → (t, Ok p) ∈ outcomes s ∨
      (epoch t = generation s ∧ signal_aborted t s = false)).
  { intros x [-> ->]. split; [lia|by left]. }
  assert (Hc : (generation s ≤ generation (cancelChallenges s))%nat ∧
    outcomes (cancelChallenges s) = outcomes s).
  { unfold cancelChallenges. destruct (running s) as [[t [|w]]|]; cbn; [by split; [lia|]| |by split; [lia|]].
    edestruct put_widget_same as [-> ->]. cbn. split; [lia|done]. }
  destruct e as [id sc| |m|e| | |id|t]; cbn [exec]; cbv zeta.
  - split_if; intros [= <-]; [|by apply Hsame]. cbn. split; [lia|].
    intros t p [?|H]%elem_of_app; [by left|]. by apply list_elem_of_singleton in H.
  - destruct (running s); [done|]. destruct (queue s); [done|]. split_if; intros [= <-]; by apply Hsame.
  - destruct (running s) as [[t [|w]]|]; [|done|done].
    destruct m; [..|split_if]; intros [= <-]; by apply Hsame.
  - destruct (running s) as [[t [|w]]|]; [done| |done]. intros [= <-]. apply Hsame, put_widget_same.
  - intros [= <-]. destruct Hc as [Hg ->]. split; [done|by left].
  - destruct (running s) as [[t [|w]]|]; intros [= <-]; try by apply Hsame.
    destruct Hc as [Hg ->]. split; [done|by left].
  - destruct (running s) as [[t [|w]]|]; [|split_if|]; intros [= <-]; try by apply Hsame.
    apply Hsame. by edestruct put_widget_same as [-> ->].
  - destruct (take_ended t (ended s)) as [[r rest]|]; [|done]. intros [= <-]. cbn. split; [lia|].
    intros t' p [?|H]%elem_of_app; [by left|]. apply list_elem_of_singleton in H. injection H as -> H.
    destruct r as [q|]; [|done]. destruct (stale t s || signal_aborted t s) eqn:E; [done|].
    bool_prop. right. unfold stale in *. by bool_prop.
Qed.

Lemma run_approves es s s' :
  run es s = Some s' →
  (generation s ≤ generation s')%nat ∧
  ∀ t p, (t, Ok p) ∈ outcomes s' → (t, Ok p) ∈ outcomes s ∨ (generation s ≤ epoch t)%nat.
Proof.
  revert s. induction es as [|e es IH]; intros s; cbn [run]; [intros [= ->]; split; [done|by left]|].
  destruct (exec e s) as [s1|] eqn:E; [|done]. intros Hr.
  destruct (exec_approves e s s1 E) as [G1 A1]. destruct (IH s1 Hr) as [G2 A2]. split; [lia|].
  intros t p Hin. destruct (A2 t p Hin) as [Hin1|?]; [|right; lia].
  destruct (A1 t p Hin1) as [?|[-> _]]; [by left|by right].
Qed.

Lemma one_request (x : exchange) (P : Prop) :
  length (sent x) = 1%nat → (length (sent x) ≤ 2)%nat ∧ (length (sent x) = 2%nat → P).
Proof. intros ->. split; [lia|discriminate]. Qed.

(** C9: approvals are bounded, belong to the present page and are used once. In every state, at most
    eight requests wait for an approval and at most one challenge runs; a challenge on
    the screen is of the present generation, its signal is not aborted and it has not settled. Once
    the context is left (navigation, sign-in, changed settings), no approval that had been asked for before is
    ever given; an approval is asked for when the server's demand has arrived, so a request whose demand arrives
    later asks in the new context. A request is sent at most twice, the second time only after
    the server's explicit demand for a challenge of a known kind, from the same origin, was
    met. *)
Theorem captcha_approvals es s :
  run es initial = Some s →
  pending s = in_flight s ∧ (pending s ≤ 8)%nat ∧
  (∀ t w, running s = Some (t, Open w) →
     epoch t = generation s ∧ signal_aborted t s = false ∧ settled w = None) ∧
  (∀ t p, (t, Ok p) ∈ outcomes s → p = [] ∨ good_proof p = true) ∧
  (∀ s1 es' s', exec Leave s = Some s1 → run es' s1 = Some s' →
     ∀ t p, (epoch t ≤ generation s)%nat → (t, Ok p) ∈ outcomes s' → (t, Ok p) ∈ outcomes s1) ∧
  (∀ headers stream same r approve, let x := captchaFetch headers stream same r approve in
     (length (sent x) ≤ 2)%nat ∧
     (length (sent x) = 2%nat → stream = false ∧ same = true ∧ code r = 428%Z ∧
        ∃ sc p, captcha_scope r = Some sc ∧ sc ∈ scopes ∧ approve sc = Ok p ∧ given x = Answer 1)).
Proof.
  intros Hr. pose proof (run_inv _ _ _ initial_inv Hr) as Hi. destruct Hi as [[Hp H8] Hrun He Ho].
  split_and!; [done|done| | | |].
  - intros t w Hw. rewrite Hw in Hrun. destruct Hrun as (_ & Hs & Hst & Hsig). unfold stale in Hst. by bool_prop.
  - intros t p Hin. rewrite Forall_forall in Ho. apply (Ho _ Hin).
  - intros s1 es' s' [= <-] Hr' t p Hle Hin. apply run_approves in Hr' as [_ Ha].
    destruct (Ha t p Hin) as [?|Hge]; [done|]. exfalso.
    assert (generation (cancelChallenges s) = S (generation s)) as Hg; [|lia].
    unfold cancelChallenges. destruct (running s) as [[t' [|w]]|]; [done| |done].
    by edestruct put_widget_same as [-> _].
  - intros headers stream same r approve. cbv zeta. unfold captchaFetch, wants_challenge.
    destruct stream; [by apply one_request|].
    destruct (negb (code r =? 428)%Z || _) eqn:E1; [by apply one_request|]. destruct same; cbn [negb]; [|by apply one_request].
    destruct (captcha_scope r) as [sc|] eqn:Esc; [|by apply one_request]. 
    destruct (bool_decide (sc ∈ scopes)) eqn:Hsc; [|by apply one_request].
    destruct (approve sc) as [p|e] eqn:Ea; [|by apply one_request]. bool_prop.
    split; [cbn; auto|]. intros _. split_and!; try done. by exists sc, p.
Qed.

(** A registration that meets a challenge and is approved; a second one, asked before the page was
    left, is not. *)
Definition sample_run : list event :=
  let t := {| tid := 1; scope := js "registration"; epoch := 0 |} in
  let t2 := {| tid := 2; scope := js "manual_mail"; epoch := 0 |} in
  [Ask 1 "registration"; Ask 2 "manual_mail"; Start; GotMetadata (Provider false);
   Widget (RenderResume (Ok true));
   Widget (Message (Some 0%nat) true 0 (Complete (Some (js "token"))));
   Widget (Verified (Proof (Some (js "proof")))); Widget (Checked "proof" (Ok true));
   Deliver t; Leave; Start; Deliver t2].

Lemma captcha_approvals_witness :
  ∃ s, run sample_run initial = Some s ∧
    (λ o, o.2) <$> outcomes s = [Ok (js "proof"); Throw Cancelled] ∧ pending s = 0%nat ∧
    ∀ t p, (t, Ok p) ∈ outcomes s → p = [] ∨ good_proof p = true.
Proof.
  eexists. split; [vm_compute; reflexivity|]. split; [reflexivity|]. split; [reflexivity|].
  edestruct (captcha_approvals sample_run) as (_ & _ & _ & Hw & _); [vm_compute; reflexivity|exact Hw].
Defined.
