(* ===== verification/Legal.v ===== *)
(** * Policies, consent and cookie preferences

    [internal/service/frontend/renop-html/js/legal-response.js], [legal-consent.js],
    [cookie-preferences.js] and [cookie-consent.js]: the bounded reading of a policy, the agreement
    that account entry requires, and the choice of cookie categories. The decoder and JSON are
    parameters; dialogs and focus are left out. *)

From S2P Require Import Prelude JsText JsValue.
Local Open Scope Z_scope.

#[local] Arguments cons {A} & _ _.

(** ** Reading a policy *)

(** [new TextDecoder('utf-8', {fatal: true})]: decoding piece by piece fails or succeeds like decoding
    at once. *)
Class FatalDecoder := {
  dstate : Type;
  fresh : dstate;
  decode : dstate → list ascii → option (dstate * jsstring);
  decode_end : dstate → option jsstring;
  decode_nil : ∀ d, decode d [] = Some (d, []);
  decode_app : ∀ d b1 b2,
    decode d (b1 ++ b2) =
    match decode d b1 with
    | Some (d1, s1) => match decode d1 b2 with Some (d2, s2) => Some (d2, s1 ++ s2) | None => None end
    | None => None
    end
}.

Inductive read_error := RequestFailed | UnexpectedType | TooLarge | NotStreamable | Rejected | Malformed | Invalid.

(** [declared] is [Number] of the length header; [reads] are the chunks of the body, or a rejection. *)
Record response := {
  ok : bool; content_type : jsstring; declared : num; streamable : bool;
  reads : list (result unit (list ascii))
}.

(** The outcome, and whether the reader was cancelled and released. *)
Record reading := { outcome : result read_error jsstring; cancelled : bool; released : bool }.

Section reading.
Context `{FatalDecoder}.

Fixpoint read_loop (maxBytes : Z) (rs : list (result unit (list ascii))) (consumed : Z) (d : dstate)
    (output : jsstring) : result read_error jsstring :=
  match rs with
  | [] => match decode_end d with Some s => Ok (output ++ s) | None => Throw Malformed end
  | Throw _ :: _ => Throw Rejected
  | Ok value :: rs =>
      let consumed := consumed + Z.of_nat (length value) in
      if maxBytes <? consumed then Throw TooLarge
      else match decode d value with
           | Some (d, s) => read_loop maxBytes rs consumed d (output ++ s)
           | None => Throw Malformed
           end
  end.

(** The media type of the header, without its parameters. *)
Definition media_type (header : jsstring) : jsstring :=
  toLowerCase (trim (default [] (head (split ";" header)))).

Definition declared_too_large (maxBytes : Z) (n : num) : bool :=
  match n with Int n => maxBytes <? n | _ => false end.

Definition readLegalTextResponse (r : response) (expectedType : jsstring) (maxBytes : Z) : reading :=
  let early e := {| outcome := Throw e; cancelled := false; released := false |} in
  if negb (ok r) then early RequestFailed
  else
    let contentType := media_type (content_type r) in
    if truthy contentType && negb (eqs contentType expectedType) then early UnexpectedType
    else if declared_too_large maxBytes (declared r) then early TooLarge
    else if negb (streamable r) then early NotStreamable
    else
      match read_loop maxBytes (reads r) 0 fresh [] with
      | Throw e => {| outcome := Throw e; cancelled := true; released := true |}
      | Ok output =>
          {| outcome := if negb (truthy output) || includes output [chr 0] then Throw Invalid else Ok output;
             cancelled := false; released := true |}
      end.

(** The text of a whole body. *)
Definition decode_all (bytes : list ascii) : option jsstring :=
  match decode fresh bytes with
  | Some (d, s) => match decode_end d with Some k => Some (s ++ k) | None => None end
  | None => None
  end.

Definition chunks (rs : list (result unit (list ascii))) : list ascii :=
  mjoin ((λ r, match r with Ok v => v | Throw _ => [] end) <$> rs).

Lemma read_loop_Ok maxBytes rs done d output text :
  decode fresh done = Some (d, output) →
  read_loop maxBytes rs (Z.of_nat (length done)) d output = Ok text ↔
  Forall (λ r, is_ok r = true) rs ∧ (rs ≠ [] → Z.of_nat (length (done ++ chunks rs)) ≤ maxBytes) ∧
  decode_all (done ++ chunks rs) = Some text.
Proof.
  revert done d output. induction rs as [|[v|e] rs IH]; intros done d output Hd; cbn [read_loop].
  - unfold chunks, decode_all. cbn. rewrite app_nil_r, Hd. destruct (decode_end d); naive_solver.
  - assert (chunks (Ok v :: rs) = v ++ chunks rs) as Hc by done.
    rewrite Hc. rewrite app_assoc.
    assert (Z.of_nat (length done) + Z.of_nat (length v) = Z.of_nat (length (done ++ v))) as ->
      by (rewrite length_app; lia).
    destruct (maxBytes <? Z.of_nat (length (done ++ v))) eqn:E; bool_prop.
    + split; [done|]. intros (_ & Hl & _). specialize (Hl ltac:(done)). rewrite length_app in Hl. lia.
    + pose proof (decode_app fresh done v) as Ha. rewrite Hd in Ha. destruct (decode d v) as [[d2 s2]|] eqn:Ev.
      * rewrite (IH (done ++ v) d2 (output ++ s2) Ha), Forall_cons. split; intros (H1 & H2 & H3); split_and!; try tauto.
        -- intros _. destruct rs; [unfold chunks; cbn; rewrite app_nil_r; lia|by apply H2].
        -- intros _. by apply H2.
      * split; [done|]. intros (_ & _ & Hx). exfalso. unfold decode_all in Hx.
        rewrite (decode_app fresh (done ++ v)), Ha in Hx. done.
  - split; [done|]. intros (Hf & _). by apply Forall_cons in Hf as [? _].
Qed.

(** The answer is one whose body is read: the reader is opened. *)
Definition opens (r : response) (expectedType : jsstring) (maxBytes : Z) : Prop :=
  ok r = true ∧ (media_type (content_type r) = [] ∨ media_type (content_type r) = expectedType) ∧
  declared_too_large maxBytes (declared r) = false ∧ streamable r = true.

(** The body is read to its end: every read succeeds, within the limit, and the bytes decode. *)
Definition reads_to (r : response) (maxBytes : Z) (text : jsstring) : Prop :=
  Forall (λ r, is_ok r = true) (reads r) ∧ Z.of_nat (length (chunks (reads r))) ≤ maxBytes ∧
  decode_all (chunks (reads r)) = Some text.

Lemma read_loop_reads r maxBytes text :
  0 ≤ maxBytes → read_loop maxBytes (reads r) 0 fresh [] = Ok text ↔ reads_to r maxBytes text.
Proof.
  intros Hmax. pose proof (read_loop_Ok maxBytes (reads r) [] fresh [] text (decode_nil fresh)) as Hl. cbn in Hl.
  rewrite Hl. unfold reads_to. split; intros (H1 & H2 & H3); split_and!; try done.
  destruct (reads r); [cbn; lia|by apply H2].
Qed.

(** An answer that opens no reader is refused; else the loop decides. *)
Lemma read_parts r expectedType maxBytes :
  (¬ opens r expectedType maxBytes ∧ ∃ e, readLegalTextResponse r expectedType maxBytes = {| outcome := Throw e; cancelled := false; released := false |}) ∨
  (opens r expectedType maxBytes ∧ readLegalTextResponse r expectedType maxBytes =
    match read_loop maxBytes (reads r) 0 fresh [] with
    | Throw e => {| outcome := Throw e; cancelled := true; released := true |}
    | Ok output =>
        {| outcome := if negb (truthy output) || includes output [chr 0] then Throw Invalid else Ok output;
           cancelled := false; released := true |}
    end).
Proof.
  unfold readLegalTextResponse, opens.
  destruct (ok r); cbn [negb]; [|left; split; [naive_solver|by eexists]].
  destruct (truthy _ && _) eqn:Et.
  { apply andb_true_iff in Et as [Ht He%negb_true_iff]. left. split; [|by eexists].
    intros (_ & [Hn|Hn] & _); [by rewrite Hn in Ht|]. by rewrite Hn, eqs_refl in He. }
  destruct (declared_too_large maxBytes (declared r)); [left; split; [naive_solver|by eexists]|].
  destruct (streamable r); cbn [negb]; [|left; split; [naive_solver|by eexists]].
  right. split; [|done]. split_and!; try done. destruct (media_type (content_type r)) eqn:Em; [by left|right]. cbn in Et.
  apply negb_false_iff, eqs_true in Et. done.
Qed.

Lemma includes_nul s : includes s [chr 0] = true ↔ chr 0 ∈ s.
Proof.
  rewrite includes_spec. split.
  - intros (k1 & k2 & ->). rewrite !elem_of_app. right. left. by left.
  - intros (k1 & k2 & ->)%list_elem_of_split. by exists k1, k2.
Qed.

(** C39: The text of a policy is given exactly when the answer is ok, its type is the expected one or
    none, its declared and its actual size respect the limit, every read succeeds, the bytes decode
    strictly, however they are split into chunks, and the text is neither empty nor holds a NUL. The
    reader is opened for an answer that passes the first three tests and has a stream, and then it is
    always released in the end; it is cancelled exactly when it was opened and the body could not be
    read to its end. *)
Theorem legal_text r expectedType maxBytes :
  0 ≤ maxBytes →
  (∀ text, outcome (readLegalTextResponse r expectedType maxBytes) = Ok text ↔
    opens r expectedType maxBytes ∧ reads_to r maxBytes text ∧ text ≠ [] ∧ (chr 0 ∉ text)) ∧
  (released (readLegalTextResponse r expectedType maxBytes) = true ↔ opens r expectedType maxBytes) ∧
  (cancelled (readLegalTextResponse r expectedType maxBytes) = true ↔
    opens r expectedType maxBytes ∧ ¬ ∃ text, reads_to r maxBytes text).
Proof.
  intros Hmax. destruct (read_parts r expectedType maxBytes) as [(Ho & e & ->)|(Ho & ->)]; [cbn; naive_solver|].
  pose proof (λ text, read_loop_reads r maxBytes text Hmax) as Hl.
  destruct (read_loop _ _ _ _ _) as [output|e] eqn:El; cbn [outcome cancelled released].
  - assert (reads_to r maxBytes output) as Hr by (by apply Hl).
    assert (∀ text, reads_to r maxBytes text → text = output) as Hu by (intros text Ht%Hl; congruence).
    split_and!; [|done|split; [done|]; intros [_ []]; by exists output]. intros text.
    destruct (negb (truthy output) || includes output [chr 0]) eqn:Eb.
    + split; [done|]. intros (_ & Ht & Hn & Hz). rewrite <- (Hu text Ht) in Eb. apply orb_true_iff in Eb as [Eb|Eb].
      * apply negb_true_iff, truthy_false in Eb. done.
      * by apply includes_nul in Eb.
    + apply orb_false_iff in Eb as [Eb1%negb_false_iff Eb2]. split.
      * intros [= <-]. split_and!; [done|done|by apply truthy_true|]. intros Hz%includes_nul. congruence.
      * intros (_ & Ht & _). by rewrite (Hu text Ht).
  - assert (¬ ∃ text, reads_to r maxBytes text) as Hno by (intros (text & Ht%Hl); done). naive_solver.
Qed.
End reading.

(** A decoder of plain ASCII: any other byte is an error. *)
Definition ascii_decode (d : unit) (b : list ascii) : option (unit * jsstring) :=
  if forallb (in_range 0 127) b then Some (d, b) else None.

#[local] Program Instance ascii_decoder : FatalDecoder :=
  {| dstate := unit; fresh := tt; decode := ascii_decode; decode_end := λ _, Some [] |}.
Next Obligation. done. Qed.
Next Obligation.
  intros d b1 b2. unfold ascii_decode. rewrite forallb_app.
  destruct (forallb _ b1); [|done]. cbn. by destruct (forallb _ b2).
Qed.

Definition example_policy (text : jsstring) : response :=
  {| ok := true; content_type := "text/plain; charset=utf-8"; declared := Int 0; streamable := true;
     reads := [Ok (take 3 text); Ok (drop 3 text)] |}.

(** The text of a policy, and a body over the limit: its reader is cancelled and released. *)
Lemma legal_text_witness :
  0 ≤ 20 ∧ outcome (readLegalTextResponse (example_policy "# Privacy") "text/plain" 20) = Ok (js "# Privacy") ∧
  readLegalTextResponse (example_policy "# Privacy") "text/plain" 8 = {| outcome := Throw TooLarge; cancelled := true; released := true |}.
Proof.
  split; [lia|]. split; [|vm_compute; reflexivity].
  apply (proj1 (legal_text (example_policy "# Privacy") "text/plain" 20 ltac:(lia))).
  unfold opens, reads_to. split_and!; try (vm_compute; reflexivity).
  - right. vm_compute. reflexivity.
  - repeat constructor.
  - vm_compute. discriminate.
  - discriminate.
  - apply (bool_decide_unpack _); vm_compute; exact I.
Defined.

(** ** The agreement that account entry requires *)

Definition LEGAL_COOKIE : jsstring := "renop_legal_consent".

Definition LEGAL_DOCUMENTS : list jsstring := [js "privacy-policy"; js "terms-of-service"; js "legal-notice"].

Definition strip_first_slash (s : jsstring) : jsstring := if startsWith s "/" then drop 1 s else s.
Definition strip_last_slash (s : jsstring) : jsstring := if endsWith s "/" then removelast s else s.

Definition legalPageFromPath (path : jsstring) : jsstring :=
  let name := strip_last_slash (strip_first_slash (toLowerCase path)) in
  if existsb (eqs name) LEGAL_DOCUMENTS then name else [].

(** [/^[a-f0-9]{64}$/] *)
Definition hex64 (s : jsstring) : bool :=
  (length s =? 64)%nat && forallb (λ c, in_range 97 102 c || is_digit c) s.

Record metadata := { revision : jsval; cookie_banner : bool }.

(** The body of the answer; [None] is invalid metadata. The test of the revision looks at its text. *)
Definition read_metadata (value : jsval) : option metadata :=
  let r := field_opt value "revision" in
  match hex64 (toString r), field value "cookie_banner" with
  | true, Some (JBool b) => Some {| revision := r; cookie_banner := b |}
  | _, _ => None
  end.

(** [===] of a value with a text. *)
Definition same_text (v : jsval) (s : jsstring) : bool := match v with JStr k => eqs k s | _ => false end.

(** [document.cookie.split(';')...] *)
Definition acceptedRevision (cookie : jsstring) : jsstring :=
  match List.find (λ part, startsWith part (LEGAL_COOKIE ++ js "=")) (trim <$> split ";" cookie) with
  | Some part => drop (length LEGAL_COOKIE + 1) part
  | None => []
  end.

Inductive kind := Login | Registration.

#[global] Instance kind_eq_dec : EqDecision kind.
Proof. solve_decision. Defined.

(** A checkbox; [label] is [dataset.revision]. *)
Record box := { checked : bool; disabled : bool; label : option jsstring }.

(** A waiting call of [ensureLegalConsent]. *)
Record ensure_call := { call_kind : kind; call_epoch : nat }.

(** [others] are the other cookies, [consent] is the one of this module, [blocked] whether the browser
    refuses it. [answers] are the results of the calls, the last one first. *)
Record legal := {
  meta : option metadata;
  pending : bool;
  initial_load : bool;
  consentEpoch : nat;
  boxes : kind → box;
  errors : kind → option jsstring;
  others : list (jsstring * jsstring);
  consent : option jsstring;
  blocked : bool;
  calls : list ensure_call;
  answers : list (kind * bool)
}.

Definition cookie_text (s : legal) : jsstring :=
  join "; " ((λ c, c.1 ++ js "=" ++ c.2) <$>
    others s ++ match consent s with Some v => [pair LEGAL_COOKIE v] | None => [] end).

Definition accepted (s : legal) : jsstring := acceptedRevision (cookie_text s).

Definition set_boxes (f : kind → box) (s : legal) : legal :=
  {| meta := meta s; pending := pending s; initial_load := initial_load s; consentEpoch := consentEpoch s;
     boxes := f; errors := errors s; others := others s; consent := consent s; blocked := blocked s;
     calls := calls s; answers := answers s |}.

Definition set_error (k : kind) (e : option jsstring) (s : legal) : legal :=
  {| meta := meta s; pending := pending s; initial_load := initial_load s; consentEpoch := consentEpoch s;
     boxes := boxes s; errors := λ k', if bool_decide (k' = k) then e else errors s k'; others := others s;
     consent := consent s; blocked := blocked s; calls := calls s; answers := answers s |}.

Definition answer (k : kind) (b : bool) (s : legal) : legal :=
  {| meta := meta s; pending := pending s; initial_load := initial_load s; consentEpoch := consentEpoch s;
     boxes := boxes s; errors := errors s; others := others s; consent := consent s; blocked := blocked s;
     calls := calls s; answers := pair k b :: answers s |}.

Definition updateConsentControls (s : legal) : legal :=
  set_boxes (λ k,
    let input := boxes s k in
    match meta s with
    | None => {| checked := checked input; disabled := true; label := label input |}
    | Some m =>
        {| checked := if negb (match label input with Some l => same_text (revision m) l | None => false end)
                         || negb (same_text (revision m) (accepted s))
                      then false else checked input;
           disabled := false; label := Some (toString (revision m)) |}
    end) s.

Definition resetLegalConsent (k : kind) (s : legal) : legal :=
  if checked (boxes s k) then
    {| meta := meta s; pending := pending s; initial_load := initial_load s; consentEpoch := S (consentEpoch s);
       boxes := λ k', if bool_decide (k' = k)
                      then {| checked := false; disabled := disabled (boxes s k); label := label (boxes s k) |}
                      else boxes s k';
       errors := errors s; others := others s; consent := consent s; blocked := blocked s; calls := calls s;
       answers := answers s |}
  else s.

(** The end of [ensureLegalConsent] after a successful load. *)
Definition ensure_end (c : ensure_call) (s : legal) : legal :=
  let k := call_kind c in
  if negb (call_epoch c =? consentEpoch s)%nat then answer k false s
  else
    let input := boxes s k in
    let current l := match meta s with Some m => same_text (revision m) l | None => false end in
    if negb (checked input) || negb (match label input with Some l => current l | None => false end)
       || negb (current (accepted s))
    then answer k false (set_error k (Some (js "legal.consentRequired")) s)
    else answer k true (set_error k None s).

Definition with_load (p i : bool) (cs : list ensure_call) (m : option metadata) (s : legal) : legal :=
  {| meta := m; pending := p; initial_load := i; consentEpoch := consentEpoch s; boxes := boxes s;
     errors := errors s; others := others s; consent := consent s; blocked := blocked s; calls := cs;
     answers := answers s |}.

(** The metadata arrives, or the request fails ([None], also for invalid metadata): every waiting call
    goes on in turn, the initial load of the page included. *)
Definition metadata_answer (r : option jsval) (s : legal) : legal :=
  let waiting := calls s in
  match match r with Some v => read_metadata v | None => None end with
  | None =>
      let s' := with_load false false [] (meta s) s in
      let s' := if initial_load s
                then set_error Registration (Some (js "legal.loadFailed"))
                       (set_error Login (Some (js "legal.loadFailed")) s') else s' in
      foldl (λ s c, answer (call_kind c) false (set_error (call_kind c) (Some (js "legal.loadFailed")) s)) s' waiting
  | Some m =>
      foldl (λ s c, ensure_end c s) (updateConsentControls (with_load false false [] (Some m) s)) waiting
  end.

Definition ensureLegalConsent (k : kind) (s : legal) : legal :=
  with_load true (initial_load s) (calls s ++ [{| call_kind := k; call_epoch := consentEpoch s |}]) (meta s) s.

(** The user changes a box that is enabled. *)
Definition toggle (k : kind) (on : bool) (s : legal) : legal :=
  let s1 := {| meta := meta s; pending := pending s; initial_load := initial_load s;
               consentEpoch := S (consentEpoch s);
               boxes := λ k', if bool_decide (k' = k)
                              then {| checked := on; disabled := disabled (boxes s k); label := label (boxes s k) |}
                              else boxes s k';
               errors := errors s; others := others s; consent := consent s; blocked := blocked s;
               calls := calls s; answers := answers s |} in
  match meta s, label (boxes s k) with
  | Some m, Some l =>
      if negb (same_text (revision m) l) then s1
      else
        let s2 := {| meta := meta s1; pending := pending s1; initial_load := initial_load s1;
                     consentEpoch := consentEpoch s1; boxes := boxes s1; errors := errors s1;
                     others := others s1;
                     consent := if blocked s then consent s
                                else if on then Some (toString (revision m)) else None;
                     blocked := blocked s1; calls := calls s1; answers := answers s1 |} in
        if on && negb (same_text (revision m) (accepted s2))
        then set_error k (Some (js "legal.cookiesRequired")) s2
        else set_error k None s2
  | _, _ => s1
  end.

Inductive event :=
  | Ensure (k : kind)
  | MetadataAnswer (r : option jsval)
  | SettingsChanged
  | Toggle (k : kind) (on : bool)
  | ResetConsent (k : kind)
  | CookieExpires
  | Block (b : bool).

Definition set_cookie (c : option jsstring) (b : bool) (s : legal) : legal :=
  {| meta := meta s; pending := pending s; initial_load := initial_load s; consentEpoch := consentEpoch s;
     boxes := boxes s; errors := errors s; others := others s; consent := c; blocked := b; calls := calls s;
     answers := answers s |}.

Definition exec (ev : event) (s : legal) : option legal :=
  match ev with
  | Ensure k => Some (ensureLegalConsent k s)
  | MetadataAnswer r => if pending s then Some (metadata_answer r s) else None
  | SettingsChanged => Some (with_load true (initial_load s) (calls s) (meta s) s)
  | Toggle k on => if disabled (boxes s k) then None else Some (toggle k on s)
  | ResetConsent k => Some (resetLegalConsent k s)
  | CookieExpires => Some (set_cookie None (blocked s) s)
  | Block b => Some (set_cookie (consent s) b s)
  end.

Fixpoint run (es : list event) (s : legal) : option legal :=
  match es with [] => Some s | e :: es => match exec e s with Some s' => run es s' | None => None end end.

(** The page after [initializeLegalConsent]: its first load is on the way. *)
Definition initial (cookies : list (jsstring * jsstring)) (kept : option jsstring) : legal :=
  {| meta := None; pending := true; initial_load := true; consentEpoch := 0;
     boxes := λ _, {| checked := false; disabled := true; label := None |}; errors := λ _, None;
     others := cookies; consent := kept; blocked := false; calls := []; answers := [] |}.

(** ** The cookie comes back *)

(** What a browser gives for the other cookies: no separators, and none has the module's name. *)
Definition foreign (c : jsstring * jsstring) : Prop :=
  (";"%char ∉ c.1 ++ js "=" ++ c.2) ∧
  startsWith (trim (c.1 ++ js "=" ++ c.2)) (LEGAL_COOKIE ++ js "=") = false.

Lemma split_join_spaced ps :
  ps ≠ [] → Forall (λ p, ";"%char ∉ p) ps →
  split ";" (join "; " ps) = match ps with p :: ps => p :: ((λ p, " "%char :: p) <$> ps) | [] => [] end.
Proof.
  intros Hne H. induction H as [|p ps Hp Hps IH]; [done|].
  assert (Forall (λ y, ascii_eqb ";" y = false) p).
  { apply Forall_forall. intros y Hy. apply ascii_eqb_neq. by intros <-. }
  destruct ps as [|q ps]; [by apply splitBy_none|]. rewrite join_cons by done.
  change (js "; ") with [";"%char; " "%char] in IH |- *. unfold split in *. cbn [app].
  rewrite splitBy_app; [|done|apply ascii_eqb_refl]. f_equal. rewrite fmap_cons.
  specialize (IH ltac:(done)). change (ascii_eqb ";" " ") with false in *. cbn [splitBy].
  change (ascii_eqb ";" " ") with false. cbn iota. rewrite IH. done.
Qed.

Lemma trim_space s : trim (" "%char :: s) = trim s.
Proof. done. Qed.

Lemma trim_spaced ps : trim <$> match ps with p :: ps => p :: ((λ p, " "%char :: p) <$> ps) | [] => [] end = trim <$> ps.
Proof.
  destruct ps as [|p ps]; [done|]. rewrite !fmap_cons. f_equal. rewrite <- list_fmap_compose. done.
Qed.

Lemma hex_char c : in_range 97 102 c || is_digit c = true → is_space c = false ∧ c ≠ ";"%char.
Proof. by_all_chars c. Qed.

Lemma hex_chars s : hex64 s = true → Forall (λ c, is_space c = false ∧ c ≠ ";"%char) s ∧ length s = 64%nat.
Proof.
  unfold hex64. intros [Hl%Nat.eqb_eq Hf]%andb_true_iff. split; [|done].
  apply Forall_forall. intros c Hc. rewrite forallb_elem in Hf. apply hex_char, Hf, Hc.
Qed.

Lemma consent_part rev :
  hex64 rev = true →
  trim (LEGAL_COOKIE ++ js "=" ++ rev) = LEGAL_COOKIE ++ js "=" ++ rev ∧ (";"%char ∉ LEGAL_COOKIE ++ js "=" ++ rev).
Proof.
  intros [Hc _]%hex_chars.
  assert (Forall (λ c, is_space c = false ∧ c ≠ ";"%char) (LEGAL_COOKIE ++ js "=")) as H0
    by (apply (bool_decide_unpack _); vm_compute; exact I).
  assert (Forall (λ c, is_space c = false ∧ c ≠ ";"%char) (LEGAL_COOKIE ++ js "=" ++ rev)) as H
    by (rewrite app_assoc; by apply Forall_app_2).
  split.
  - apply trim_id, trimmed_no_space. eapply Forall_impl; [exact H|]. by intros c [].
  - intros Hin. rewrite Forall_forall in H. by destruct (H _ Hin).
Qed.

Lemma find_skip {A} (p : A → bool) (l k : list A) :
  Forall (λ x, p x = false) l → List.find p (l ++ k) = List.find p k.
Proof. induction 1 as [|x l Hx _ IH]; cbn; [done|]. by rewrite Hx. Qed.

Lemma accepted_consent s rev :
  Forall foreign (others s) → consent s = Some rev → hex64 rev = true → accepted s = rev.
Proof.
  intros Ho Hc Hx. unfold accepted, cookie_text. rewrite Hc, fmap_app.
  destruct (consent_part rev Hx) as [Ht Hn]. unfold acceptedRevision.
  set (ps := (λ c, c.1 ++ js "=" ++ c.2) <$> others s) in *.
  change ((λ c : jsstring * jsstring, c.1 ++ js "=" ++ c.2) <$> [pair LEGAL_COOKIE rev])
    with [LEGAL_COOKIE ++ js "=" ++ rev].
  assert (Forall (λ p, ";"%char ∉ p) ps) as Hps.
  { apply Forall_fmap. eapply Forall_impl; [exact Ho|]. by intros c []. }
  rewrite split_join_spaced; [|by destruct ps|apply Forall_app_2; [done|by repeat constructor]].
  rewrite trim_spaced, fmap_app, find_skip.
  - cbn [fmap list_fmap List.find]. rewrite Ht. rewrite app_assoc, startsWith_app.
    rewrite drop_app_length'; [done|]. by vm_compute.
  - unfold ps. apply Forall_fmap, Forall_fmap. eapply Forall_impl; [exact Ho|]. by intros c [].
Qed.

(** ** The agreement in every run *)

Definition starts (s : legal) : Prop :=
  ∃ cookies kept, Forall foreign cookies ∧ s = initial cookies kept.

Definition step (s s' : legal) : Prop := ∃ ev, exec ev s = Some s'.

(** A box is enabled as soon as the metadata is known, and carries its revision. *)
Definition box_ok (m : option metadata) (b : box) : Prop :=
  match m with
  | None => disabled b = true ∧ checked b = false
  | Some m => disabled b = false ∧ label b = Some (toString (revision m))
  end.

Record legal_ok (s : legal) : Prop := {
  ok_boxes : ∀ k, box_ok (meta s) (boxes s k);
  ok_meta : ∀ m, meta s = Some m → hex64 (toString (revision m)) = true;
  ok_others : Forall foreign (others s);
  ok_pending : calls s ≠ [] → pending s = true
}.

Lemma read_metadata_hex v m : read_metadata v = Some m → hex64 (toString (revision m)) = true.
Proof.
  unfold read_metadata. destruct (hex64 _) eqn:E; [|done]. destruct (field v _) as [[]|]; try done.
  by intros [= <-].
Qed.

(** The waiting calls only answer and show errors. *)
Definition same_choice (s s' : legal) : Prop :=
  meta s' = meta s ∧ boxes s' = boxes s ∧ others s' = others s ∧ consent s' = consent s ∧ calls s' = calls s ∧
  pending s' = pending s ∧ blocked s' = blocked s ∧ consentEpoch s' = consentEpoch s.

Lemma ensure_end_same c s : same_choice s (ensure_end c s).
Proof. unfold ensure_end. cbv zeta. repeat split_if; done. Qed.

Lemma same_choice_trans a b c : same_choice a b → same_choice b c → same_choice a c.
Proof. unfold same_choice. intros H1 H2. destruct_and!. split_and!; congruence. Qed.

Lemma ensure_ends_same cs s : same_choice s (foldl (λ s c, ensure_end c s) s cs).
Proof.
  revert s. induction cs as [|c cs IH]; intros s; [done|]. cbn. eapply same_choice_trans; [apply ensure_end_same|apply IH].
Qed.

Lemma refusals_same cs s :
  same_choice s (foldl (λ s c, answer (call_kind c) false (set_error (call_kind c) (Some (js "legal.loadFailed")) s)) s cs).
Proof.
  revert s. induction cs as [|c cs IH]; intros s; [done|]. cbn. eapply same_choice_trans; [|apply IH]. done.
Qed.

Lemma same_choice_ok s s' : same_choice s s' → legal_ok s → legal_ok s'.
Proof.
  intros (M & B & O & _ & C & P & _) []. split.
  - intros k. rewrite M, B. done.
  - rewrite M. done.
  - by rewrite O.
  - rewrite C, P. done.
Qed.

Lemma ok_change s s' :
  legal_ok s → meta s' = meta s → others s' = others s → calls s' = calls s → pending s' = pending s →
  (∀ k, box_ok (meta s) (boxes s' k)) → legal_ok s'.
Proof. intros [] M O C P B. split; rewrite ?M, ?O, ?C, ?P; done. Qed.

Lemma legal_ok_step s s' : legal_ok s → step s s' → legal_ok s'.
Proof.
  intros H [ev He]. pose proof H as [Hb Hm Ho Hp].
  destruct ev as [k|r| |k on|k| |b]; cbn [exec] in He.
  - injection He as <-. by split.
  - destruct (pending s); [|done]. injection He as <-. unfold metadata_answer.
    destruct (match r with Some v => read_metadata v | None => None end) as [m|] eqn:Er.
    + eapply same_choice_ok; [apply ensure_ends_same|]. split; cbn; [|intros ? [= <-]|done|done].
      * intros k. done.
      * destruct r; [|done]. by eapply read_metadata_hex.
    + eapply same_choice_ok; [apply refusals_same|]. destruct (initial_load s); by split.
  - injection He as <-. by split.
  - destruct (disabled (boxes s k)) eqn:Ed; [done|]. injection He as <-.
    assert (∀ k', box_ok (meta s) (if bool_decide (k' = k)
      then {| checked := on; disabled := disabled (boxes s k); label := label (boxes s k) |} else boxes s k')) as Hb'.
    { intros k'. case_bool_decide as E; [|apply Hb]. specialize (Hb k). unfold box_ok in *.
      destruct (meta s); cbn; [done|]. destruct Hb. congruence. }
    apply (ok_change s); [done|..]; unfold toggle; destruct (meta s), (label (boxes s k)); cbn;
      repeat split_if; done.
  - injection He as <-. unfold resetLegalConsent. destruct (checked (boxes s k)); [|done]. split; cbn; try done.
    intros k'. case_bool_decide; [|apply Hb]. specialize (Hb k). unfold box_ok in *. destruct (meta s); [done|]. by destruct Hb.
  - injection He as <-. by split.
  - injection He as <-. by split.
Qed.

Lemma reachable_legal s : reachable starts step s → legal_ok s.
Proof.
  apply invariant_reachable; [|intros ? ?; apply legal_ok_step].
  intros ? (cookies & kept & Hc & ->). by split.
Qed.

(** What an answer in favour stands for: the page has policies, and they are agreed to. *)
Definition agreed (s : legal) (k : kind) : Prop :=
  ∃ m, meta s = Some m ∧ checked (boxes s k) = true ∧ label (boxes s k) = Some (toString (revision m)) ∧
       revision m = JStr (accepted s) ∧ hex64 (accepted s) = true.

Lemma ensure_end_agreed c s :
  legal_ok s → ∃ b, answers (ensure_end c s) = pair (call_kind c) b :: answers s ∧
    (b = true → agreed s (call_kind c) ∧ call_epoch c = consentEpoch s).
Proof.
  intros H. unfold ensure_end. cbv zeta.
  destruct (call_epoch c =? consentEpoch s)%nat eqn:Ee; cbn [negb]; [|by exists false].
  set (guard := negb (checked _) || _ || _). destruct guard eqn:Eg; [by exists false|].
  exists true. split; [done|]. intros _. split; [|by apply Nat.eqb_eq]. unfold guard in Eg.
  apply orb_false_iff in Eg as [[E1%negb_false_iff E2%negb_false_iff]%orb_false_iff E3%negb_false_iff].
  unfold agreed, accepted, cookie_text in *. destruct (meta s) as [m|] eqn:Em; [|done]. exists m.
  pose proof (ok_boxes _ H (call_kind c)) as Hb. rewrite Em in Hb. destruct Hb as [_ Hl].
  unfold same_text in E3. destruct (revision m) as [| | | |r| |] eqn:Er; try done. apply eqs_true in E3 as ->.
  pose proof (ok_meta _ H m Em) as Hh. rewrite Er in Hh. split_and!; try done.
Qed.

Lemma same_choice_agreed s s' k : same_choice s s' → agreed s' k ↔ agreed s k.
Proof. intros (M & B & O & C & _). unfold agreed, accepted, cookie_text. by rewrite M, B, O, C. Qed.

(** The answers a successful load adds: one for each call that waits, in favour only of calls made since the boxes were last changed. *)
Lemma ensure_ends_agreed cs s :
  legal_ok s → ∃ new, answers (foldl (λ s c, ensure_end c s) s cs) = new ++ answers s ∧
    new.*1 = reverse (call_kind <$> cs) ∧
    ∀ k, pair k true ∈ new → agreed (foldl (λ s c, ensure_end c s) s cs) k
      ∧ ∃ c, c ∈ cs ∧ call_kind c = k ∧ call_epoch c = consentEpoch s.
Proof.
  revert s. induction cs as [|c cs IH]; intros s H; cbn [foldl].
  - exists []. split_and!; [done|done|]. intros k Hk. by apply elem_of_nil in Hk.
  - pose proof (ensure_end_same c s) as Hs. destruct (IH (ensure_end c s)) as (new & E & Ek & Hn).
    { by eapply same_choice_ok. }
    assert (consentEpoch (ensure_end c s) = consentEpoch s) as Hep by apply Hs.
    destruct (ensure_end_agreed c s H) as (b0 & E0 & H0). exists (new ++ [pair (call_kind c) b0]). split_and!.
    + by rewrite E, E0, <- app_assoc.
    + rewrite fmap_app, Ek. symmetry. apply reverse_cons.
    + intros k [Hk|Hk]%elem_of_app.
      * destruct (Hn k Hk) as (Ha & d & Hd & Hk' & He). split; [done|]. exists d. rewrite Hep in He. split_and!; [by right|done|done].
      * apply list_elem_of_singleton in Hk as [= -> <-]. destruct (H0 eq_refl) as [Ha He]. split.
        -- rewrite same_choice_agreed; [done|]. eapply same_choice_trans; [exact Hs|apply ensure_ends_same].
        -- exists c. split_and!; [by left|done|done].
Qed.

(** A failed load refuses every call that waits. *)
Lemma refusals cs s :
  let s' := foldl (λ s c, answer (call_kind c) false (set_error (call_kind c) (Some (js "legal.loadFailed")) s)) s cs in
  answers s' = reverse ((λ c, pair (call_kind c) false) <$> cs) ++ answers s ∧
  ∀ k, errors s' k = Some (js "legal.loadFailed") ∨ errors s' k = errors s k ∧ k ∉ call_kind <$> cs.
Proof.
  cbn zeta. revert s. induction cs as [|c cs IH]; intros s; cbn [foldl].
  - split; [done|]. intros k. right. split; [done|]. apply not_elem_of_nil.
  - destruct (IH (answer (call_kind c) false (set_error (call_kind c) (Some (js "legal.loadFailed")) s))) as [E H]. split.
    + rewrite E. cbn [fmap list_fmap]. rewrite reverse_cons, <- app_assoc. done.
    + intros k. destruct (H k) as [->|[-> Hk]]; [by left|]. cbn [errors answer set_error]. case_bool_decide as Ek; [by left|].
      right. split; [done|]. by rewrite fmap_cons, not_elem_of_cons.
Qed.

(** A box is checked and the account entry goes on: the answer depends on the revision alone. *)
Lemma renewed s k m rev v m' :
  legal_ok s → meta s = Some m → revision m = JStr rev → blocked s = false → calls s = [] →
  read_metadata v = Some m' →
  ∃ s', run [Toggle k true; Ensure k; MetadataAnswer (Some v)] s = Some s' ∧
    answers s' = pair k (same_text (revision m') rev) :: answers s ∧
    (same_text (revision m') rev = false →
      checked (boxes s' k) = false ∧ errors s' k = Some (js "legal.consentRequired")).
Proof.
  intros H Hm Hr Hb Hc Hv. pose proof (ok_boxes _ H k) as Hk. rewrite Hm in Hk. destruct Hk as [Hd Hl].
  pose proof (ok_meta _ H m Hm) as Hx. rewrite Hr in Hx, Hl. cbn [toString] in Hx, Hl.
  assert (∀ s1, others s1 = others s → consent s1 = Some rev → accepted s1 = rev) as Hacc.
  { intros s1 E1 E2. apply accepted_consent; [rewrite E1; apply (ok_others _ H)|done|done]. }
  cbn [run exec]. rewrite Hd. set (s1 := toggle k true s).
  assert (meta s1 = Some m ∧ others s1 = others s ∧ consent s1 = Some rev ∧ calls s1 = [] ∧
          boxes s1 k = {| checked := true; disabled := disabled (boxes s k); label := Some rev |} ∧
          answers s1 = answers s) as (M1 & O1 & C1 & L1 & B1 & A1).
  { unfold s1, toggle. rewrite Hm, Hl, Hr, Hb. cbn [same_text]. rewrite eqs_refl. cbn [negb andb].
    repeat split_if; cbn; rewrite bool_decide_true by done; done. }
  clearbody s1. eexists. split; [reflexivity|]. unfold metadata_answer. rewrite Hv.
  assert (calls (ensureLegalConsent k s1) = [{| call_kind := k; call_epoch := consentEpoch s1 |}]) as ->
    by (cbn; by rewrite L1).
  set (s3 := updateConsentControls _).
  assert (meta s3 = Some m' ∧ consentEpoch s3 = consentEpoch s1 ∧ answers s3 = answers s) as (M3 & E3 & A3) by done.
  assert (accepted s3 = rev) as Ha by (by apply Hacc).
  assert (boxes s3 k = {| checked := same_text (revision m') rev; disabled := false;
                          label := Some (toString (revision m')) |}) as B3.
  { unfold s3. cbn. rewrite B1. cbn [checked label]. rewrite Hacc by done. by destruct (same_text (revision m') rev). }
  clearbody s3. cbn [foldl]. unfold ensure_end. cbn [call_epoch call_kind]. rewrite E3, Nat.eqb_refl, B3, M3, Ha.
  cbn [negb checked label]. destruct (same_text (revision m') rev) eqn:Es; cbn [negb orb].
  - unfold same_text in Es. destruct (revision m') as [| | | |r| |] eqn:Er; try done. apply eqs_true in Es as ->.
    cbn [toString same_text]. rewrite eqs_refl. cbn. by rewrite A3.
  - cbn. rewrite A3, B3. split; [done|]. intros _. by rewrite bool_decide_true.
Qed.

(** The load that ends with a step, if one does: its policies, or [None] if it failed. *)
Definition load_ended (ev : event) : option (option metadata) :=
  match ev with MetadataAnswer r => Some (r ≫= read_metadata) | _ => None end.

(** What a step answers: nothing unless a load ends; then every call that waits, in turn. *)
Definition answered_by (s : legal) (ended : option (option metadata)) (s' : legal) (new : list (kind * bool)) : Prop :=
  match ended with
  | None => new = []
  | Some None =>
      new = reverse ((λ c, pair (call_kind c) false) <$> calls s) ∧
      ∀ k, k ∈ call_kind <$> calls s → errors s' k = Some (js "legal.loadFailed")
  | Some (Some m) =>
      new.*1 = reverse (call_kind <$> calls s) ∧ meta s' = Some m ∧
      ∀ k, pair k true ∈ new →
        checked (boxes s' k) = true ∧ label (boxes s' k) = Some (toString (revision m)) ∧
        revision m = JStr (accepted s') ∧ hex64 (accepted s') = true ∧
        ∃ c, c ∈ calls s ∧ call_kind c = k ∧ call_epoch c = consentEpoch s
  end.

Lemma exec_answered s ev s' :
  legal_ok s → exec ev s = Some s' → ∃ new, answers s' = new ++ answers s ∧ answered_by s (load_ended ev) s' new.
Proof.
  intros H He. destruct ev as [k|r| |k on|k| |b]; cbn [exec] in He; cbn [load_ended answered_by].
  - injection He as <-. by exists [].
  - destruct (pending s) eqn:Ep; [|done]. injection He as <-. unfold metadata_answer.
    change (match r with Some v => read_metadata v | None => None end) with (r ≫= read_metadata).
    destruct (r ≫= read_metadata) as [m|] eqn:Er.
    + set (s1 := updateConsentControls _). assert (legal_ok s1) as H1.
      { split; cbn; [done| |apply (ok_others _ H)|done]. intros ? [= <-]. destruct r; [|done]. by eapply read_metadata_hex. }
      destruct (ensure_ends_agreed (calls s) s1 H1) as (new & E & Ek & Hn). exists new. split; [done|]. split; [done|].
      assert (meta (foldl (λ s c, ensure_end c s) s1 (calls s)) = Some m) as Hm
        by (by destruct (ensure_ends_same (calls s) s1) as [-> _]).
      split; [done|]. intros k Hk. destruct (Hn k Hk) as [(m' & Hm' & Ha) Hc]. assert (m' = m) as -> by congruence.
      destruct Ha as (H2 & H3 & H4 & H5). by split_and!.
    + set (s1 := if initial_load s then _ else _). assert (answers s1 = answers s) as E1
        by (unfold s1; by destruct (initial_load s)).
      destruct (refusals (calls s) s1) as [E He]. eexists. split; [by rewrite E, E1|]. split; [done|].
      intros k Hk. by destruct (He k) as [?|[_ ?]].
  - injection He as <-. by exists [].
  - destruct (disabled (boxes s k)); [done|]. injection He as <-. exists []. split; [|done]. unfold toggle.
    destruct (meta s), (label (boxes s k)); cbn; repeat split_if; done.
  - injection He as <-. exists []. split; [|done]. unfold resetLegalConsent. by destruct (checked (boxes s k)).
  - injection He as <-. by exists [].
  - injection He as <-. by exists [].
Qed.

(** C31: In every run of the page: a box can be used as soon as the policies are known, and is labelled
    with their revision. Account entries are answered only when a load of the policies ends, all that
    wait at once. If the load failed, none of them may go on, whatever policies the page has from
    before, and the error is shown. If it gave policies, the page has these, and an entry that may go on
    has its box checked and labelled with the revision this very answer gave, the cookie holds this
    revision, and the user changed no box since the entry asked. (An entry that asks while a load is on its
    way waits for that load.) When the user checks the box and the browser takes cookies, the next
    answer about the policies decides: the same revision lets the entry go on, another one clears the
    box and asks for the agreement again. *)
Theorem legal_consent s :
  reachable starts step s →
  (∀ k, box_ok (meta s) (boxes s k)) ∧
  (∀ ev s', exec ev s = Some s' → ∃ new, answers s' = new ++ answers s ∧ answered_by s (load_ended ev) s' new) ∧
  (∀ k m rev v m', meta s = Some m → revision m = JStr rev → blocked s = false → calls s = [] →
     read_metadata v = Some m' →
     ∃ s', run [Toggle k true; Ensure k; MetadataAnswer (Some v)] s = Some s' ∧
       answers s' = pair k (same_text (revision m') rev) :: answers s ∧
       (same_text (revision m') rev = false →
         checked (boxes s' k) = false ∧ errors s' k = Some (js "legal.consentRequired"))).
Proof.
  intros H%reachable_legal. split; [apply (ok_boxes _ H)|]. split; [|intros; by eapply renewed].
  intros ev s'. by apply exec_answered.
Qed.

Definition example_revision : jsstring := concat (replicate 32 (js "0f")).
Definition example_metadata : jsval :=
  JObj [pair (js "revision") (JStr example_revision); pair (js "cookie_banner") (JBool true)].

Lemma legal_consent_witness :
  ∃ s, exec (MetadataAnswer (Some example_metadata)) (initial [] None) = Some s ∧
    ∃ s', run [Toggle Login true; Ensure Login; MetadataAnswer (Some example_metadata)] s = Some s' ∧
      answers s' = [pair Login true].
Proof.
  eexists. split; [reflexivity|].
  match goal with |- ∃ s', run _ ?s = _ ∧ _ => assert (reachable starts step s) as Hr end.
  { apply (reachable_step starts step (initial [] None)); [|by exists (MetadataAnswer (Some example_metadata))].
    apply reachable_init. by exists [], None. }
  destruct (proj2 (proj2 (legal_consent _ Hr)) Login
    {| revision := JStr example_revision; cookie_banner := true |} example_revision example_metadata
    {| revision := JStr example_revision; cookie_banner := true |}) as (s' & H1 & H2 & _);
    [vm_compute; reflexivity..|].
  exists s'. split; [exact H1|]. rewrite H2. vm_compute. reflexivity.
Defined.

(** Policies the page has from before do not let an entry go on when the load that it waits for fails. *)
Example failed_load_refuses :
  (λ s, (meta s, answers s, errors s Login)) <$>
    run [MetadataAnswer (Some example_metadata); Toggle Login true; Ensure Login; MetadataAnswer None] (initial [] None)
  = Some (Some {| revision := JStr example_revision; cookie_banner := true |}, [pair Login false], Some (js "legal.loadFailed")).
Proof. vm_compute. reflexivity. Qed.
