(* ===== verification/Cookies.v ===== *)
(** * The choice of cookie categories

    [internal/service/frontend/renop-html/js/cookie-preferences.js] and [cookie-consent.js]: a stored
    choice counts for the policy revision it was made under, for a year. The policies are
    [Legal]'s; JSON is a parameter; the dialog and the texts of the notice are left out. *)

From S2P Require Import Prelude JsText JsValue Legal.
Local Open Scope Z_scope.

#[local] Arguments cons {A} & _ _.

(** [===] of two values, none of them the same object as the other. *)
Definition strict_same (v w : jsval) : bool :=
  match v, w with
  | JStr s, JStr k => eqs s k
  | JBool a, JBool b => Bool.eqb a b
  | JNum (Int m), JNum (Int n) => m =? n
  | JNum PInf, JNum PInf | JNum NInf, JNum NInf | JNull, JNull | JUndef, JUndef => true
  | _, _ => false
  end.

Definition isSafeInteger (v : jsval) : option Z :=
  match v with JNum (Int n) => if Z.abs n <=? 2 ^ 53 - 1 then Some n else None | _ => None end.

Record preferences := { revision_of : jsval; optional : bool; expires : Z }.

Definition YEAR : Z := 31536000000.

Section cookies.
(** [JSON.parse], [None] when it throws, and [JSON.stringify]. *)
Variable JSON_parse : jsstring → option jsval.
Variable JSON_stringify : jsval → jsstring.

(** [raw]: [None] is not a string. *)
Definition parseCookiePreferences (raw : option jsstring) (revision : jsval) (now : Z) : option preferences :=
  match raw with
  | None => None
  | Some raw =>
      if 4096 <? Z.of_nat (length raw) then None
      else
        match JSON_parse raw with
        | None => None
        | Some value =>
            if negb (strict_same (field_opt value "revision") revision) then None
            else match field value "optional", isSafeInteger (field_opt value "expires") with
                 | Some (JBool optional), Some expires =>
                     if expires <=? now then None
                     else Some {| revision_of := field_opt value "revision"; optional := optional;
                                  expires := expires |}
                 | _, _ => None
                 end
        end
  end.

(** The object of a choice, in the order of its literal. *)
Definition choice_value (p : preferences) : jsval :=
  JObj [pair (js "revision") (revision_of p); pair (js "optional") (JBool (optional p));
        pair (js "expires") (JNum (Int (expires p)))].

(** [storage]: [None] throws, [Some None] holds no choice. [events] are the notices to the
    integrations. *)
Record cookies := {
  meta : option metadata;
  choice : option preferences;
  storage : option (option jsstring);
  banner_hidden : bool;
  events : list bool
}.

Definition readChoice (now : Z) (s : cookies) : option preferences :=
  match meta s with
  | None => None
  | Some m =>
      match parseCookiePreferences (match choice s with Some c => Some (JSON_stringify (choice_value c)) | None => None end)
              (revision m) now with
      | Some current => Some current
      | None => match storage s with Some raw => parseCookiePreferences raw (revision m) now | None => None end
      end
  end.

Definition optionally (p : option preferences) : bool := match p with Some p => optional p | None => false end.

(** [optionalServicesAllowed], with the metadata loaded. *)
Definition optionalServicesAllowed (now : Z) (s : cookies) : bool := optionally (readChoice now s).

Definition renderNotice (now : Z) (s : cookies) : cookies :=
  {| meta := meta s; choice := choice s; storage := storage s;
     banner_hidden := negb (match meta s with Some m => cookie_banner m | None => false end)
                      || match readChoice now s with Some _ => true | None => false end;
     events := events s |}.

Definition notify (b : bool) (s : cookies) : cookies :=
  {| meta := meta s; choice := choice s; storage := storage s; banner_hidden := banner_hidden s;
     events := events s ++ [b] |}.

(** [writable]: whether the storage takes the choice. The buttons are there once the metadata is. *)
Definition saveChoice (now : Z) (writable : bool) (b : bool) (s : cookies) : cookies :=
  match meta s with
  | None => s
  | Some m =>
      let c := {| revision_of := revision m; optional := b; expires := now + YEAR |} in
      notify b (renderNotice now
        {| meta := meta s; choice := Some c;
           storage := match storage s with
                      | Some _ => if writable then Some (Some (JSON_stringify (choice_value c))) else storage s
                      | None => None end;
           banner_hidden := banner_hidden s; events := events s |})
  end.

(** A button of the dialog that was opened under [policyRevision]. *)
Definition dialog_save (policyRevision : jsval) (now : Z) (writable b : bool) (s : cookies) : cookies :=
  if match meta s with Some m => strict_same policyRevision (revision m) | None => false end
  then saveChoice now writable b s else s.

(** [legalConfigurationChanged] *)
Definition configured (now : Z) (m : metadata) (s : cookies) : cookies :=
  let s := renderNotice now {| meta := Some m; choice := choice s; storage := storage s;
                               banner_hidden := banner_hidden s; events := events s |} in
  notify (optionally (readChoice now s)) s.

(** Another tab changed the storage. *)
Definition storage_changed (now : Z) (raw : option jsstring) (s : cookies) : cookies :=
  let s := renderNotice now {| meta := meta s; choice := None;
                               storage := match storage s with Some _ => Some raw | None => None end;
                               banner_hidden := banner_hidden s; events := events s |} in
  notify (optionally (readChoice now s)) s.

(** ** What counts as consent *)

Lemma parse_valid raw r now p :
  parseCookiePreferences raw r now = Some p →
  strict_same (revision_of p) r = true ∧ now < expires p ∧ Z.abs (expires p) < 2 ^ 53 ∧
  ∃ text value, raw = Some text ∧ Z.of_nat (length text) ≤ 4096 ∧ JSON_parse text = Some value ∧
    field_opt value "revision" = revision_of p ∧ field value "optional" = Some (JBool (optional p)) ∧
    field_opt value "expires" = JNum (Int (expires p)).
Proof using.
  unfold parseCookiePreferences. destruct raw as [text|]; [|done].
  destruct (4096 <? _) eqn:El; [done|]. destruct (JSON_parse text) as [value|] eqn:Ej; [|done].
  destruct (strict_same _ r) eqn:Er; cbn [negb]; [|done].
  destruct (field value "optional") as [[| |b| | | |]|] eqn:Eo; try done.
  destruct (isSafeInteger _) as [n|] eqn:En; [|done]. destruct (n <=? now) eqn:Ex; [done|]. intros [= <-].
  cbn. bool_prop. unfold isSafeInteger in En. destruct (field_opt value "expires") as [| | |[| | |k]| | |] eqn:Ef; try done.
  destruct (Z.abs k <=? 2 ^ 53 - 1) eqn:Ek; [|done]. injection En as <-. bool_prop.
  split_and!; [done|lia|lia|]. exists text, value. done.
Qed.

Lemma parse_choice c m now :
  JSON_parse (JSON_stringify (choice_value c)) = Some (choice_value c) →
  Z.of_nat (length (JSON_stringify (choice_value c))) ≤ 4096 → Z.abs (expires c) < 2 ^ 53 →
  parseCookiePreferences (Some (JSON_stringify (choice_value c))) (revision m) now
  = if strict_same (revision_of c) (revision m) && (now <? expires c) then Some c else None.
Proof using.
  intros Hj Hl He. unfold parseCookiePreferences.
  assert ((4096 <? Z.of_nat (length (JSON_stringify (choice_value c)))) = false) as -> by (apply Z.ltb_ge; lia).
  rewrite Hj. change (field_opt (choice_value c) "revision") with (revision_of c).
  change (field (choice_value c) "optional") with (Some (JBool (optional c))).
  change (field_opt (choice_value c) "expires") with (JNum (Int (expires c))).
  destruct (strict_same _ _); [|done]. cbn [negb andb isSafeInteger].
  assert ((Z.abs (expires c) <=? 2 ^ 53 - 1) = true) as -> by (apply Z.leb_le; lia).
  destruct (expires c <=? now) eqn:E1, (now <? expires c) eqn:E2; bool_prop; try lia; [done|]. by destruct c.
Qed.

(** Optional services are allowed only on a choice in memory or in the storage that says so, under
    exactly the present revision of the policies and not expired; unreadable, oversized or malformed
    storage is no consent. A choice made now is in force at once, for the notice, the integrations and
    every later reading, for a year and under its revision, whether the storage takes it or not; after
    that, or under another revision, a choice that was stored is none. *)
Theorem cookie_choice s now :
  (optionalServicesAllowed now s = true →
    ∃ m p, meta s = Some m ∧ readChoice now s = Some p ∧ optional p = true ∧
      strict_same (revision_of p) (revision m) = true ∧ now < expires p ∧
      ((∃ c, choice s = Some c ∧ parseCookiePreferences (Some (JSON_stringify (choice_value c))) (revision m) now = Some p) ∨
       ∃ raw, storage s = Some raw ∧ parseCookiePreferences raw (revision m) now = Some p)) ∧
  (∀ m writable b,
    let c := {| revision_of := revision m; optional := b; expires := now + YEAR |} in
    let s' := saveChoice now writable b s in
    meta s = Some m → strict_same (revision m) (revision m) = true →
    JSON_parse (JSON_stringify (choice_value c)) = Some (choice_value c) →
    Z.of_nat (length (JSON_stringify (choice_value c))) ≤ 4096 → Z.abs (now + YEAR) < 2 ^ 53 →
    events s' = events s ++ [b] ∧ banner_hidden s' = true ∧
    (∀ later, later < now + YEAR → readChoice later s' = Some c) ∧
    (∀ later m', storage s = Some None ∨ storage s = None ∨ (writable = true ∧ storage s ≠ None) →
       now + YEAR ≤ later ∨ strict_same (revision m) (revision m') = false →
       readChoice later {| meta := Some m'; choice := choice s'; storage := storage s';
                           banner_hidden := banner_hidden s'; events := events s' |} = None)).
Proof using.
  split.
  - unfold optionalServicesAllowed, optionally. destruct (readChoice now s) as [p|] eqn:Er; [|done]. intros Hp.
    revert Er. unfold readChoice. destruct (meta s) as [m|] eqn:Em; [|done].
    destruct (parseCookiePreferences _ _ _) as [p'|] eqn:Ec.
    + intros [= ->]. pose proof (parse_valid _ _ _ _ Ec) as (H1 & H2 & _).
      exists m, p. split_and!; try done. left. destruct (choice s) as [c|]; [by exists c|done].
    + destruct (storage s) as [raw|] eqn:Es; [|done]. intros Hr. pose proof (parse_valid _ _ _ _ Hr) as (H1 & H2 & _).
      exists m, p. split_and!; try done. right. by exists raw.
  - intros m writable b c s' Hm Hrefl Hj Hl He.
    assert (∀ later m', parseCookiePreferences (Some (JSON_stringify (choice_value c))) (revision m') later
      = if strict_same (revision m) (revision m') && (later <? now + YEAR) then Some c else None) as Hp
      by (intros; by apply parse_choice).
    assert (s' = saveChoice now writable b s) as Es' by done. unfold saveChoice in Es'. rewrite Hm in Es'. fold c in Es'.
    assert (∀ later, later < now + YEAR → ∀ st bh ev, readChoice later
      {| meta := Some m; choice := Some c; storage := st; banner_hidden := bh; events := ev |} = Some c) as Hrd.
    { intros later Hlt st bh ev. unfold readChoice. cbn [meta choice storage]. rewrite Hp, Hrefl. cbn [andb].
      assert ((later <? now + YEAR) = true) as -> by (apply Z.ltb_lt; lia). done. }
    rewrite Es'. cbn [events banner_hidden notify renderNotice meta choice storage].
    split_and!.
    + done.
    + rewrite Hrd by (unfold YEAR; lia). apply orb_true_r.
    + intros later Hlt. unfold notify, renderNotice. cbn [meta choice storage]. by apply Hrd.
    + intros later m' Hst Hx. unfold readChoice. cbn [meta choice storage]. rewrite Hp.
      assert (strict_same (revision m) (revision m') && (later <? now + YEAR) = false) as Hf.
      { destruct Hx as [Hx|Hx]; [|by rewrite Hx]. apply andb_false_iff. right. apply Z.ltb_ge. lia. }
      rewrite Hf. destruct Hst as [->|[->|[-> Hn]]]; [|done|].
      * destruct writable; [|done]. by rewrite Hp, Hf.
      * destruct (storage s); [|done]. by rewrite Hp, Hf.
Qed.
End cookies.

(** A choice made in 2026, written as text and read back. *)
Definition example_choice : preferences :=
  {| revision_of := JStr example_revision; optional := true; expires := 1760000000000 + YEAR |}.

Definition example_text : jsstring :=
  mjoin [js "{"; [chr 34]; js "revision"; [chr 34]; js ":"; [chr 34]; example_revision; [chr 34]; js ",";
         [chr 34]; js "optional"; [chr 34]; js ":true,"; [chr 34]; js "expires"; [chr 34]; js ":1791536000000}"].

Definition example_parse (s : jsstring) : option jsval :=
  if eqs s example_text then Some (choice_value example_choice) else None.

Lemma cookie_choice_witness :
  let s := {| meta := Some {| revision := JStr example_revision; cookie_banner := true |}; choice := None;
              storage := Some None; banner_hidden := false; events := [] |} in
  let s' := saveChoice example_parse (λ _, example_text) 1760000000000 true true s in
  readChoice example_parse (λ _, example_text) 1760000000001 s' = Some example_choice ∧ events s' = [true].
Proof.
  intros s s'.
  destruct (cookie_choice example_parse (λ _, example_text) s 1760000000000) as [_ H].
  destruct (H {| revision := JStr example_revision; cookie_banner := true |} true true) as (H1 & _ & H2 & _);
    [reflexivity|vm_compute; reflexivity|vm_compute; reflexivity|vm_compute; discriminate|vm_compute; reflexivity|].
  split; [apply (H2 1760000000001); vm_compute; reflexivity|exact H1].
Defined.
