(* ===== verification/Formats.v ===== *)
(** * Repository formats

    [internal/service/frontend/renop-html/js/repository-formats.js]: the catalog of formats, the
    lookup of a stored format, the draft of a new repository and the names it may have. *)

From S2P Require Import Prelude JsText JsValue Uri.

#[local] Arguments cons {A} & _ _.

(** A descriptor; [offered] and [supportsUploadHelpers] are absent for most. *)
Record format := {
  id : jsstring; protocol : jsstring; layout : option jsstring; icon : jsstring;
  offered : option bool; labelKey : jsstring; descriptionKey : jsstring;
  supportsBrowserUpload : bool; supportsRedeployment : bool; supportsGpg : bool;
  supportsArtifactTemplate : bool; supportsUploadHelpers : option bool;
  snippetTabs : list jsstring
}.

Definition maven : format := {|
  id := "maven";
  protocol := "maven";
  layout := Some (js "modern");
  icon := "repositoryMaven";
  offered := None;
  labelKey := "repos.formatMaven";
  descriptionKey := "repos.formatMavenDesc";
  supportsBrowserUpload := false;
  supportsRedeployment := true;
  supportsGpg := true;
  supportsArtifactTemplate := false;
  supportsUploadHelpers := None;
  snippetTabs := [js "maven"; js "gradle-kotlin"; js "gradle-groovy"; js "sbt"]
|}.

Definition maven_classic : format := {|
  id := "maven-classic";
  protocol := "maven";
  layout := Some (js "classic");
  icon := "repositoryMaven";
  offered := Some false;
  labelKey := "repos.formatMaven";
  descriptionKey := "repos.formatMavenDesc";
  supportsBrowserUpload := false;
  supportsRedeployment := true;
  supportsGpg := true;
  supportsArtifactTemplate := false;
  supportsUploadHelpers := None;
  snippetTabs := [js "maven"; js "gradle-kotlin"; js "gradle-groovy"; js "sbt"]
|}.

Definition files : format := {|
  id := "files";
  protocol := "files";
  layout := None;
  icon := "repositoryFiles";
  offered := None;
  labelKey := "repos.formatFiles";
  descriptionKey := "repos.formatFilesDesc";
  supportsBrowserUpload := true;
  supportsRedeployment := false;
  supportsGpg := false;
  supportsArtifactTemplate := false;
  supportsUploadHelpers := Some false;
  snippetTabs := []
|}.

Definition cargo : format := {|
  id := "cargo";
  protocol := "cargo";
  layout := None;
  icon := "repositoryCargo";
  offered := None;
  labelKey := "repos.formatCargo";
  descriptionKey := "repos.formatCargoDesc";
  supportsBrowserUpload := false;
  supportsRedeployment := false;
  supportsGpg := false;
  supportsArtifactTemplate := true;
  supportsUploadHelpers := None;
  snippetTabs := [js "cargo-registry"; js "cargo-source"; js "cargo-login"; js "cargo-publish"]
|}.

Definition docker : format := {|
  id := "docker";
  protocol := "docker";
  layout := None;
  icon := "repositoryDocker";
  offered := None;
  labelKey := "repos.formatDocker";
  descriptionKey := "repos.formatDockerDesc";
  supportsBrowserUpload := false;
  supportsRedeployment := true;
  supportsGpg := false;
  supportsArtifactTemplate := false;
  supportsUploadHelpers := None;
  snippetTabs := [js "docker-pull"; js "docker-tag"; js "docker-push"; js "docker-login"]
|}.

Definition npm : format := {|
  id := "npm";
  protocol := "npm";
  layout := None;
  icon := "repositoryNpm";
  offered := None;
  labelKey := "repos.formatNpm";
  descriptionKey := "repos.formatNpmDesc";
  supportsBrowserUpload := false;
  supportsRedeployment := false;
  supportsGpg := false;
  supportsArtifactTemplate := false;
  supportsUploadHelpers := None;
  snippetTabs := [js "npm-config"; js "npm-install"; js "npm-publish"]
|}.

Definition FORMAT_CATALOG : list (jsstring * format) :=
  [(js "maven", maven); (js "maven-classic", maven_classic); (js "files", files);
   (js "cargo", cargo); (js "docker", docker); (js "npm", npm)].

Definition RESERVED_REPOSITORY_NAMES : list jsstring :=
  js <$> ["api"; "assets"; "css"; "js"; "svg"; "javadoc"; "javadocs"; "cargodoc"; "cargodocs";
          "cratedoc"; "cratedocs"; "v2"]%stdpp.

Definition normalized (format : jsval) : jsstring :=
  toLowerCase (trim (toString (val_or format (JStr "maven")))).

(** What the lookup yields: a descriptor, or a member every object inherits (which is truthy). *)
Inductive descriptor := Descriptor (f : format) | InheritedMember.

Definition getRepositoryFormat (format : jsval) : descriptor :=
  match get FORMAT_CATALOG (normalized format) with
  | Own f => Descriptor f
  | Inherited => InheritedMember
  | Missing => Descriptor maven
  end.

Definition is_offered (f : format) : bool := negb (bool_decide (offered f = Some false)).

Definition listRepositoryFormats : list format := List.filter is_offered FORMAT_CATALOG.*2.

Definition JFalse := JBool false.
Definition JTrue := JBool true.

Definition descriptor_id (d : descriptor) : jsval :=
  match d with Descriptor f => JStr (id f) | InheritedMember => JUndef end.

Definition createRepositoryDraft (name : jsstring) (format : jsval) : list (jsstring * jsval) :=
  let fid := descriptor_id (getRepositoryFormat format) in
  let repository :=
    [(js "name", JStr name); (js "format", fid); (js "visibility", JStr "PUBLIC");
     (js "mirrors", JArr [])] in
  match fid with
  | JStr i =>
      if eqs i "maven" then
        repository ++ [(js "allow_redeployment", JFalse); (js "require_gpg_signature", JFalse)]
      else if eqs i "files" then repository ++ [(js "allow_redeployment", JTrue)]
      else repository
  | _ => repository
  end.

(** The pattern: words of [a-z] joined by single hyphens. *)
Definition slug_word (w : jsstring) : bool := truthy w && forallb is_lower w.
Definition slug_pattern (value : jsstring) : bool := forallb slug_word (split "-" value).

Definition isValidRepositorySlug (name : jsval) : bool :=
  let value := toString (val_or name (JStr [])) in
  (length value <=? 64) && slug_pattern value
  && negb (bool_decide (value ∈ RESERVED_REPOSITORY_NAMES)).

(** ** The catalog *)

Lemma catalog_keys :
  Forall (λ p, id p.2 = p.1 ∧ toLowerCase p.1 = p.1 ∧ trim p.1 = p.1 ∧ p.1 ≠ [] ∧
               inherited p.1 = false) FORMAT_CATALOG.
Proof. apply (bool_decide_unpack _). vm_compute. exact I. Qed.

Lemma catalog_NoDup : NoDup FORMAT_CATALOG.*1.
Proof. apply (bool_decide_unpack _). vm_compute. exact I. Qed.

(** A key of an object literal whose keys are distinct finds its own value. *)
Lemma assoc_NoDup {A} (o : list (jsstring * A)) k a : NoDup o.*1 → (k, a) ∈ o → assoc o k = Some a.
Proof.
  induction o as [|[k' a'] o IH]; csimpl; [by intros _ ?%elem_of_nil|].
  intros [Hn Hd]%NoDup_cons [[= -> ->]|Hin]%elem_of_cons; [by rewrite eqs_refl|].
  destruct (eqs k' k) eqn:E; [|auto]. apply eqs_true in E as ->.
  destruct Hn. by eapply list_elem_of_fmap_2' in Hin.
Qed.

Lemma stored_format k f raw :
  (k, f) ∈ FORMAT_CATALOG → truthy raw = true → toLowerCase (trim raw) = k →
  getRepositoryFormat (JStr raw) = Descriptor f.
Proof.
  intros Hin Ht Hraw. unfold getRepositoryFormat, normalized, val_or. cbn [truthy_val]. rewrite Ht.
  cbn [toString]. rewrite Hraw. unfold get. by rewrite (assoc_NoDup _ _ _ catalog_NoDup Hin).
Qed.

Lemma unknown_format raw :
  normalized raw ∉ FORMAT_CATALOG.*1 → inherited (normalized raw) = false →
  getRepositoryFormat raw = Descriptor maven.
Proof.
  intros Hn Hi. unfold getRepositoryFormat, get. rewrite (proj2 (assoc_None _ _) Hn), Hi. done.
Qed.

(** ** Names *)

Lemma lower_unreserved c : is_lower c = true → uri_unreserved c = true.
Proof.
  unfold is_lower, uri_unreserved, is_alnum, is_alpha, is_lower. intros ->. done.
Qed.

Lemma slug_word_chars w c : slug_word w = true → c ∈ w → is_lower c = true.
Proof. unfold slug_word. intros [_ H]%andb_true_iff. rewrite forallb_elem in H. auto. Qed.

Lemma slug_word_no_hyphen w : slug_word w = true → "-"%char ∉ w.
Proof. intros Hw Hin. by pose proof (slug_word_chars w _ Hw Hin). Qed.

Lemma slug_pattern_spec v :
  slug_pattern v = true ↔
  ∃ words, words ≠ [] ∧ Forall (λ w, slug_word w = true) words ∧ v = join "-" words.
Proof.
  unfold slug_pattern. rewrite forallb_elem. split.
  - intros H. exists (split "-" v). split_and!; [apply splitBy_nonempty| |].
    + by apply Forall_forall.
    + symmetry. apply join_split.
  - intros (words & Hne & Hw & ->) w. change (js "-") with ["-"%char].
    rewrite split_join; [|done|].
    + rewrite Forall_forall in Hw. auto.
    + eapply Forall_impl; [exact Hw|]. apply slug_word_no_hyphen.
Qed.

Lemma join_chars (P : ascii → Prop) sep words :
  Forall P sep → Forall (Forall P) words → Forall P (join sep words).
Proof.
  intros Hs. induction 1 as [|w ws Hw Hws IH]; [constructor|].
  destruct ws as [|w' ws]; [done|]. rewrite join_cons by done.
  apply Forall_app. split; [done|]. apply Forall_app. by split.
Qed.

Lemma encode_unreserved v : Forall (λ c, uri_unreserved c = true) v → encodeURIComponent v = v.
Proof.
  induction 1 as [|c v Hc _ IH]; [done|].
  change (encodeURIComponent (c :: v)) with (encode_char c ++ encodeURIComponent v).
  rewrite IH. unfold encode_char. by rewrite Hc.
Qed.

Lemma slug_url_safe v : slug_pattern v = true → encodeURIComponent v = v.
Proof.
  intros (words & _ & Hw & ->)%slug_pattern_spec. apply encode_unreserved, join_chars.
  - by repeat constructor.
  - eapply Forall_impl; [exact Hw|]. intros w Hword. apply Forall_forall. intros c Hc.
    apply lower_unreserved. by apply (slug_word_chars w).
Qed.

(** ** Creating a repository *)

(** What the draft of a repository of format [f] must be: the format's own identifier, public,
    without mirrors, with a signature switch only where the format has signatures, and
    found again under the identifier it stores. *)
Definition draft_of (f : format) (name : jsstring) (draft : list (jsstring * jsval)) : Prop :=
  assoc draft (js "name") = Some (JStr name) ∧
  assoc draft (js "format") = Some (JStr (id f)) ∧
  assoc draft (js "visibility") = Some (JStr "PUBLIC") ∧
  assoc draft (js "mirrors") = Some (JArr []) ∧
  (is_Some (assoc draft (js "require_gpg_signature")) ↔ supportsGpg f = true) ∧
  NoDup draft.*1 ∧
  getRepositoryFormat (default JUndef (assoc draft (js "format"))) = Descriptor f.

Lemma offered_formats f :
  f ∈ listRepositoryFormats → f = maven ∨ f = files ∨ f = cargo ∨ f = docker ∨ f = npm.
Proof.
  change listRepositoryFormats with [maven; files; cargo; docker; npm].
  rewrite !elem_of_cons, elem_of_nil. tauto.
Qed.

Lemma draft_spec f name raw :
  f ∈ listRepositoryFormats → getRepositoryFormat raw = Descriptor f →
  draft_of f name (createRepositoryDraft name raw).
Proof.
  intros Hf Hr. unfold createRepositoryDraft. rewrite Hr. unfold draft_of.
  destruct (offered_formats f Hf) as [->|[->|[->|[->| ->]]]]; cbn; split_and!; try done;
    try (apply (bool_decide_unpack _); vm_compute; exact I);
    try (split; [intros [? ?]; congruence | intros ?; congruence]);
    by split; [intros [? ?] | eauto].
Qed.

(** Creating a repository. A name is accepted exactly when it is at most 64 characters long, not
    reserved, and made of words of lowercase letters joined by single hyphens, and such a name
    stands for itself in a URL. For every format offered, chosen in any case and with any
    surrounding space, the draft carries the name, the format's identifier (under which
    the stored repository finds the same format again), public visibility and no mirrors, and the
    signature switch exactly for formats with signatures. *)
Theorem repository_creation :
  (∀ v, isValidRepositorySlug (JStr v) = true ↔
     length v ≤ 64 ∧ (v ∉ RESERVED_REPOSITORY_NAMES) ∧
     ∃ words, words ≠ [] ∧ Forall (λ w, slug_word w = true) words ∧ v = join "-" words) ∧
  (∀ v, isValidRepositorySlug (JStr v) = true → encodeURIComponent v = v) ∧
  (∀ f name raw, f ∈ listRepositoryFormats → toLowerCase (trim raw) = id f →
     draft_of f name (createRepositoryDraft name (JStr raw))).
Proof.
  assert (Hv : ∀ v, toString (val_or (JStr v) (JStr [])) = v) by (by intros [|]).
  split_and!.
  - intros v. unfold isValidRepositorySlug. cbv zeta. rewrite Hv, !andb_true_iff, slug_pattern_spec.
    rewrite Nat.leb_le, negb_true_iff, bool_decide_eq_false. tauto.
  - intros v. unfold isValidRepositorySlug. cbv zeta. rewrite Hv, !andb_true_iff.
    intros [[_ Hs] _]. by apply slug_url_safe.
  - intros f name raw Hf Hraw. apply draft_spec; [done|].
    assert (Hin : (id f, f) ∈ FORMAT_CATALOG).
    { unfold FORMAT_CATALOG. rewrite !elem_of_cons.
      destruct (offered_formats f Hf) as [->|[->|[->|[->| ->]]]]; cbn [id]; tauto. }
    apply stored_format with (k := id f); [done| |done].
    apply truthy_true. intros ->. pose proof catalog_keys as Hk. rewrite Forall_forall in Hk.
    destruct (Hk _ Hin) as (_ & _ & _ & Hne & _). by apply Hne.
Qed.

(** A stored format that names a member of every object yields no descriptor. *)
Lemma format_inherited : getRepositoryFormat (JStr "constructor") = InheritedMember.
Proof. vm_compute. reflexivity. Qed.
