(* ===== verification/Auth.v ===== *)
(** * Sessions and permissions

    [internal/service/frontend/renop-html/js/auth.js]: what the interface knows of the session, who may
    change a repository, and the restoring, starting and ending of sessions. What the session says is
    made by the server ([internal/service/auth/routes.go], [middleware.go]), whose own rule for
    changes is in [internal/config/permissions.go]; these Go functions are modelled as well, and the
    interface's rule is proved to agree with the server's. The controls of the page, the profile
    in the navigation and the requests of passkeys ([Fido]) are left out. *)

From S2P Require Import Prelude JsText JsValue Uri Formats.
From coqutil Require Import Datatypes.RecordSettersUsingExistingGetters.
Local Open Scope nat_scope.

#[local] Arguments const {E} _ _ /.
#[local] Arguments cons {A} & _ _.

(** ** Permissions in a session *)

(** An entry: a text, an object with or without identifier, or [null]. *)
Inductive permission := PermText (s : jsstring) | PermObject (identifier : option jsstring) | PermNull.

(** [typeof p === 'string' ? p : p && p.identifier], falsy as [None]. *)
Definition permission_id (p : permission) : option jsstring :=
  match p with
  | PermText s | PermObject (Some s) => if truthy s then Some s else None
  | _ => None
  end.

(** [path] and [permission.identifier]; an absent [permission] has no identifier. *)
Record route := { path : jsstring; route_id : option jsstring }.

Definition MANAGER_PERMISSION_IDS : list jsstring := js <$> ["manager"; "m"; "access-token:manager"; "admin"]%stdpp.
Definition MANAGER_TAB_IDS : list jsstring := js <$> ["dashboard"; "users"; "repositories"; "settings"]%stdpp.

Definition isManagerTab (tabId : jsstring) : bool := existsb (eqs tabId) MANAGER_TAB_IDS.

Definition isManagerFromSession (permissions : list permission) : bool :=
  existsb (λ p, match permission_id p with Some id => existsb (eqs id) MANAGER_PERMISSION_IDS | None => false end) permissions.

(** [cachedIsLoggedIn], [cachedIsManager], [cachedPermissions], [cachedRoutes] *)
Record caches := { isLoggedIn : bool; isManager : bool; permissions : list permission; routes : list (option route) }.

Definition applySessionCaches (logged : bool) (ps : list permission) (rs : list (option route)) : caches := {|
  isLoggedIn := logged;
  isManager := logged && isManagerFromSession (if logged then ps else []);
  permissions := if logged then ps else []; routes := if logged then rs else [] |}.

(** [decodeURIComponent] or the text itself; [None]: an escape beyond Latin-1, not held by the model. *)
Definition decoded_name (s : jsstring) : option jsstring :=
  match decodeURIComponent s with Decoded d => Some d | Malformed => Some s | Wide => None end.

Definition repoNameFromPath (p : jsstring) : option jsstring :=
  match List.filter truthy (split "/" p) with [] => Some [] | part :: _ => decoded_name part end.

Definition grants (name : jsstring) (p : permission) : bool :=
  match permission_id p with
  | Some id => eqs id "canupdate:*" || eqs id (js "canupdate:" ++ name)
  | None => false
  end.

Definition writes (name : jsstring) (r : option route) : bool :=
  match r with
  | Some r => match route_id r with
              | Some id => (eqs id "route:write" || eqs id "w") && (eqs (path r) "*" || eqs (path r) name)
              | None => false
              end
  | None => false
  end.

Definition canUpdateRepo (repoName : jsstring) (c : caches) : option bool :=
  if negb (isLoggedIn c) then Some false
  else if isManager c then Some true
  else if negb (truthy repoName) then Some false
  else (λ name, existsb (grants name) (permissions c) || existsb (writes name) (routes c)) <$> decoded_name repoName.

(** ** The server *)

(** An account, as far as these functions read it. *)
Record user := { Username : jsstring; Roles : list jsstring; ReadPermissions : list jsstring; WritePermissions : list jsstring }.

(** [len(r) > len(prefix) && r[:len(prefix)] == prefix], and the rest. *)
Definition after_prefix (prefix r : jsstring) : option jsstring :=
  if (length prefix <? length r) && startsWith r prefix then Some (drop (length prefix) r) else None.

(** What [initPermissions] makes of the roles: [isManager] (the same as [isAdmin]), [canUpdateAll], [updateRepos].
    The roles before [canupdate] in the chain are none of these. *)
Definition role_manager (r : jsstring) : bool := eqs r "manager" || eqs r "admin".
Definition role_other (r : jsstring) : bool := eqs r "allview" || eqs r "proview" || eqs r "showing".
Definition role_update_all (r : jsstring) : bool := negb (role_manager r) && negb (role_other r) && eqs r "canupdate:*".
Definition role_update (r : jsstring) : option jsstring :=
  if role_manager r || role_other r || eqs r "canupdate:*" then None else after_prefix "canupdate:" r.

Definition IsManager (u : user) : bool := existsb role_manager (Roles u).
Definition CheckUpdatePermission (repoName : jsstring) (u : user) : bool :=
  IsManager u || existsb role_update_all (Roles u)
  || existsb (λ r, match role_update r with Some n => eqs n repoName | None => false end) (Roles u).

Definition CreateSessionDetails (u : user) : list permission * list (option route) :=
  let ps := (if IsManager u then [PermObject (Some (js "access-token:manager"))] else [])
            ++ ((λ r, PermObject (Some r)) <$> Roles u) in
  let rs := ((λ p, Some {| path := p; route_id := Some (js "route:read") |}) <$> ReadPermissions u)
            ++ ((λ p, Some {| path := p; route_id := Some (js "route:write") |}) <$> WritePermissions u) in
  (ps, if IsManager u && negb (existsb (writes "*") rs)
       then rs ++ [Some {| path := "*"; route_id := Some (js "route:write") |}] else rs).

(** [middleware.go]: the account of a stored token. *)
Definition isManagerPermissions (ps : list jsstring) : bool := existsb (λ p, existsb (eqs p) MANAGER_PERMISSION_IDS) ps.

Definition permitted (all prefix : jsstring) (ps : list jsstring) : list jsstring :=
  omap (λ r, if eqs r all then Some (js "*") else after_prefix prefix r) ps.

Definition buildSynthUser (name : jsstring) (ps : list jsstring) : user :=
  let roles := if isManagerPermissions ps && negb (existsb role_manager ps) then ps ++ [js "manager"] else ps in
  {| Username := name; Roles := match roles with [] => [js "base"] | _ => roles end;
     ReadPermissions := permitted "canview:*" "canview:" ps; WritePermissions := permitted "canupdate:*" "canupdate:" ps |}.

(** ** The two rules *)

Lemma after_prefix_Some prefix r n : after_prefix prefix r = Some n ↔ r = prefix ++ n ∧ n ≠ [].
Proof.
  unfold after_prefix. split.
  - destruct ((length prefix <? length r) && startsWith r prefix) eqn:E; [|done]. intros [= <-].
    apply andb_true_iff in E as [Hl (k & ->)%startsWith_spec]. rewrite drop_app_length. apply Nat.ltb_lt in Hl. rewrite length_app in Hl.
    split; [done|]. intros ->. cbn in Hl. lia.
  - intros [-> Hn]. rewrite startsWith_app, drop_app_length, length_app. destruct n; [done|]. cbn [length].
    destruct (Nat.ltb_spec (length prefix) (length prefix + S (length n))); [done|lia].
Qed.

Lemma slug_name repo : slug_pattern repo = true → decoded_name repo = Some repo ∧ repo ≠ [] ∧ repo ≠ js "*".
Proof.
  intros Hs. unfold decoded_name. split_and!.
  - rewrite <- (slug_url_safe repo Hs) at 1. by rewrite decode_encodeURIComponent.
  - by intros ->.
  - by intros ->.
Qed.

(** A role by itself grants the same on both sides. *)
Lemma role_grants repo r :
  repo ≠ [] → repo ≠ js "*" →
  grants repo (PermObject (Some r))
  = role_update_all r || match role_update r with Some n => eqs n repo | None => false end.
Proof.
  intros Hne Hstar. unfold grants, permission_id, role_update_all, role_update.
  destruct (truthy r) eqn:Et; [|by apply truthy_false in Et as ->].
  destruct (role_manager r || role_other r) eqn:Em; cbn [orb].
  { unfold role_manager, role_other in Em. rewrite !orb_true_iff, !eqs_true in Em.
    destruct Em as [[-> | ->]|[[-> | ->]| ->]]; cbn [negb andb orb]; apply orb_false_iff; split; try reflexivity; by destruct repo. }
  apply orb_false_iff in Em as [-> ->]. cbn [negb andb orb]. destruct (eqs r "canupdate:*") eqn:Ea; [done|]. cbn [orb].
  destruct (after_prefix "canupdate:" r) as [n|] eqn:Ep.
  - apply after_prefix_Some in Ep as [-> _]. apply eq_true_iff_eq. rewrite !eqs_true. split; [|by intros ->].
    intros E. by apply app_inv_head in E.
  - destruct (eqs r (js "canupdate:" ++ repo)) eqn:E; [|done]. apply eqs_true in E as ->.
    assert (after_prefix "canupdate:" (js "canupdate:" ++ repo) = Some repo) as H by (by apply after_prefix_Some). by rewrite H in Ep.
Qed.

(** The account of a token has the write permissions of its roles, and is a manager when the interface thinks so. *)
Lemma synth_roles name ps r : r ∈ ps → r ∈ Roles (buildSynthUser name ps).
Proof.
  intros Hr. unfold buildSynthUser. cbn [Roles]. destruct (_ && _).
  - destruct ps; cbn; [by apply not_elem_of_nil in Hr|]. apply elem_of_cons in Hr as [->|Hr]; [by left|].
    right. apply elem_of_app. by left.
  - destruct ps; [by apply not_elem_of_nil in Hr|done].
Qed.

Lemma synth_roles_inv name ps r :
  r ∈ Roles (buildSynthUser name ps) → r ∈ ps ∨ r = js "base" ∨ r = js "manager" ∧ isManagerPermissions ps = true.
Proof.
  unfold buildSynthUser. cbn [Roles]. destruct (isManagerPermissions ps && _) eqn:E.
  - apply andb_true_iff in E as [E _]. destruct ps as [|p ps]; [done|]. cbn. intros [->|[Hr|Hr%list_elem_of_singleton]%elem_of_app]%elem_of_cons.
    + left. by left.
    + left. by right.
    + right. by right.
  - destruct ps as [|p ps]; [|by left]. intros ->%list_elem_of_singleton. by right; left.
Qed.

Lemma synth_manager name ps : IsManager (buildSynthUser name ps) = isManagerPermissions ps.
Proof.
  apply eq_true_iff_eq. unfold IsManager. rewrite existsb_elem. split.
  - intros (r & [Hr|[->|[-> Hm]]]%synth_roles_inv & Em); [|done|done].
    unfold isManagerPermissions. apply existsb_elem. exists r. split; [done|]. unfold role_manager in Em.
    rewrite orb_true_iff, !eqs_true in Em. by destruct Em as [-> | ->].
  - intros Hm. destruct (existsb role_manager ps) eqn:E.
    + apply existsb_elem in E as (r & Hr & Er). exists r. split; [by apply synth_roles|done].
    + exists (js "manager"). split; [|done]. unfold buildSynthUser. cbn [Roles]. rewrite Hm, E. cbn [negb andb].
      destruct ps; [by left|]. cbn. right. apply elem_of_app. right. by left.
Qed.

Lemma session_manager name ps :
  isManagerFromSession (CreateSessionDetails (buildSynthUser name ps)).1 = IsManager (buildSynthUser name ps).
Proof.
  set (u := buildSynthUser name ps). unfold CreateSessionDetails. cbn [fst]. destruct (IsManager u) eqn:E; [done|].
  unfold u in E. rewrite synth_manager in E. cbn [app]. unfold isManagerFromSession. apply not_true_iff_false.
  rewrite existsb_elem. intros (p & (r & -> & Hr)%list_elem_of_fmap & Hp). cbn in Hp.
  destruct (truthy r) eqn:Et; [|done]. apply synth_roles_inv in Hr as [Hr|[->|[_ Hm]]]; [|by vm_compute in Hp|congruence].
  apply not_true_iff_false in E. apply E. unfold isManagerPermissions. apply existsb_elem. by exists r.
Qed.

Lemma writes_granted repo name ps :
  repo ≠ [] → existsb (writes repo) (CreateSessionDetails (buildSynthUser name ps)).2 = true →
  IsManager (buildSynthUser name ps) = false →
  existsb (grants repo) (CreateSessionDetails (buildSynthUser name ps)).1 = true.
Proof.
  intros Hne Hw Hm. set (u := buildSynthUser name ps) in *. unfold CreateSessionDetails in *. cbn [fst snd] in *. rewrite Hm in *.
  cbn [andb app] in *. rewrite existsb_app, orb_true_iff, !existsb_elem in Hw. apply existsb_elem.
  destruct Hw as [(r & (w & -> & Hin)%list_elem_of_fmap & Hr)|(r & (w & -> & Hin)%list_elem_of_fmap & Hr)]; [done|].
  cbn in Hr. unfold u in Hin. cbn in Hin. unfold permitted in Hin. apply list_elem_of_omap in Hin as (p & Hp & Ew).
  exists (PermObject (Some p)). split; [apply list_elem_of_fmap; exists p; split; [done|by apply synth_roles]|].
  unfold grants, permission_id. destruct (eqs p "canupdate:*") eqn:Ep; [by apply eqs_true in Ep as ->|].
  apply after_prefix_Some in Ew as [-> Hn]. change (truthy (js "canupdate:" ++ w)) with true. cbv iota. apply andb_true_iff in Hr as [_ Hr].
  rewrite orb_true_iff, !eqs_true in *. destruct Hr as [-> | ->]; [by left|by right].
Qed.

(** C4: For the account of any token and any repository with a valid name, the interface lets the user change
    the repository (from the session the server describes) exactly when the server's rule allows it. *)
Theorem update_permission_agrees name ps repo :
  slug_pattern repo = true →
  let u := buildSynthUser name ps in
  let session := CreateSessionDetails u in
  canUpdateRepo repo (applySessionCaches true session.1 session.2) = Some (CheckUpdatePermission repo u).
Proof.
  intros Hslug u session. destruct (slug_name repo Hslug) as (Hd & Hne & Hstar).
  unfold canUpdateRepo, applySessionCaches, CheckUpdatePermission. cbn [isLoggedIn isManager permissions routes negb andb].
  unfold session, u at 1. rewrite session_manager. fold u. destruct (IsManager u) eqn:Em; [done|].
  apply truthy_true in Hne as Ht. rewrite Ht, Hd. cbn [negb fmap option_fmap option_map orb]. f_equal.
  assert (existsb (grants repo) (CreateSessionDetails u).1
    = existsb role_update_all (Roles u) || existsb (λ r, match role_update r with Some n => eqs n repo | None => false end) (Roles u)) as E.
  { unfold CreateSessionDetails. cbn [fst]. rewrite Em. cbn [app].
    induction (Roles u) as [|r rs IH]; [done|]. rewrite fmap_cons. cbn [existsb]. rewrite IH, role_grants by done.
    destruct (role_update_all r), (existsb role_update_all rs); cbn; by rewrite ?orb_true_r. }
  rewrite <- E. destruct (existsb (grants repo) _) eqn:Eg; [done|]. cbn [orb].
  apply not_true_iff_false. intros Hw. pose proof (writes_granted repo name ps Hne Hw Em) as Hg. fold u in Hg. congruence.
Qed.

(** ** The session of the page *)

(** Why a session ends; [Manual] is no reason given. *)
Inductive reason := Expired | Kicked | Account_deleted | Silent | Manual.
#[global] Instance reason_eq_dec : EqDecision reason.
Proof. solve_decision. Defined.

(** [localStorage], the caches, the running calls of [initializeSession] and [performLogout] (each with its
    [wasLoggedIn]), the controls of the page, the error under the sign-in form and the alerts. *)
Record state := {
  store : gmap jsstring jsstring; held : caches;
  starting : option bool; logoutPromise : option (reason * bool);
  login_button : bool; manager_only : bool; user_only : bool;
  login_error : option jsstring; alerts : list jsstring
}.

Definition getItem (k : jsstring) (a : state) : jsstring := default [] (store a !! k).
Definition setItem (k v : jsstring) (a : state) : state := { a with store := <[k := v]> (store a) }.
Definition removeItem (k : jsstring) (a : state) : state := { a with store := delete k (store a) }.

(** What [switchTab] and the navigation it does may change of the session: the stored tab and the sign-in form. *)
Definition keeps (a b : state) : Prop :=
  delete (js "selectedTab") (store b) = delete (js "selectedTab") (store a) ∧
  b = { { a with store := store b } with login_error := login_error b }.

(** The shell around the session, which [auth.js] reaches through a handler and events only. *)
Class Host (W : Type) := {
  session : W → state;
  put : state → W → W;
  switchTab : jsstring → W → W;
  requestProtectedRouteExit : Z → W → W;
  leaveLoginPage : W → W;
  stopDashboardRefresh : W → W;
  session_put a w : session (put a w) = a;
  switchTab_keeps tab w : keeps (session w) (session (switchTab tab w));
  exit_keeps status w : keeps (session w) (session (requestProtectedRouteExit status w));
  leave_keeps w : keeps (session w) (session (leaveLoginPage w));
  stop_keeps w : keeps (session w) (session (stopDashboardRefresh w))
}.

Section session.
Context {W : Type} `{host : Host W}.

Definition modify (f : state → state) (w : W) : W := put (f (session w)) w.

(** The refresh of the profile in the navigation and the tab indicator are left out. *)
Definition updateAuthUI (logged manager : bool) (ps : list permission) (rs : list (option route)) (w : W) : W :=
  let c := applySessionCaches logged ps rs in
  let c := if logged && bool_decide (ps = []) && manager then { c with isManager := true } else c in
  let w := modify (λ a, { { { { a with held := c } with login_button := negb logged } with manager_only := isManager c }
                          with user_only := logged }) w in
  let current := str_or (getItem (js "selectedTab") (session w)) (js "overview") in
  if negb logged || (isManagerTab current && negb (isManager c))
  then switchTab "overview" (modify (setItem (js "selectedTab") (js "overview")) w)
  else w.

Definition logout (r : reason) (w : W) : W :=
  let w := requestProtectedRouteExit (match r with Expired | Kicked => 401 | _ => 0 end)%Z w in
  match logoutPromise (session w) with
  | Some _ => w
  | None => modify (λ a, { a with logoutPromise := Some (r, truthy (getItem (js "username") a)) }) w
  end.

Definition signed_out_alert (r : reason) (wasLoggedIn : bool) : list jsstring :=
  if wasLoggedIn then match r with
                      | Expired | Kicked => [js "login.sessionExpired"]
                      | Silent | Account_deleted => []
                      | Manual => [js "login.signedOut"]
                      end
  else [].

(** The rest of [performLogout], whatever came of the request; its promise ends with it. *)
Definition logout_answered (w : W) : option W :=
  match logoutPromise (session w) with
  | None => None
  | Some (r, was) =>
      let w := modify (λ a, removeItem (js "token-secret") (removeItem (js "token-name")
                              (removeItem (js "username") (removeItem (js "session-token") a)))) w in
      let w := updateAuthUI false false [] [] w in
      let w := modify (λ a, { a with alerts := alerts a ++ signed_out_alert r was }) w in
      let w := stopDashboardRefresh w in
      let w := switchTab "overview" (modify (setItem (js "selectedTab") (js "overview")) w) in
      Some (modify (λ a, { a with logoutPromise := None }) w)
  end.

Definition initializeSession (w : W) : W :=
  modify (λ a, let a := removeItem (js "session-token") a in
               { a with starting := Some (truthy (getItem (js "username") a)) }) w.

(** The answer of [/api/auth/me]: a session ([None]: an absent message), a status, or a failure. *)
Inductive me_answer :=
  | Me_session (name : jsstring) (ps : list permission) (rs : list (option route))
  | Me_status (status : Z) | Me_failed.

Definition session_answered (m : me_answer) (w : W) : option W :=
  match starting (session w) with
  | None => None
  | Some wasLoggedIn =>
      let w := modify (λ a, { a with starting := None }) w in
      Some match m with
           | Me_session name ps rs =>
               let serverName := str_or name (getItem (js "username") (session w)) in
               let w := if truthy serverName then modify (setItem (js "username") serverName) w else w in
               updateAuthUI true (isManagerFromSession ps) ps rs w
           | Me_status status =>
               if (status =? 401)%Z then if wasLoggedIn then logout Expired w else updateAuthUI false false [] [] w
               else updateAuthUI (truthy (getItem (js "username") (session w))) false [] [] w
           | Me_failed => updateAuthUI false false [] [] w
           end
  end.

Definition completeLogin (name fallback : jsstring) (ps : list permission) (rs : list (option route)) (w : W) : W :=
  let name := str_or name fallback in
  let w := modify (λ a, setItem (js "username") name (removeItem (js "session-token")
                          (removeItem (js "token-secret") (removeItem (js "token-name") a)))) w in
  let w := updateAuthUI true (isManagerFromSession ps) ps rs w in
  leaveLoginPage (modify (λ a, { a with alerts := alerts a ++ [js "login.welcomeBack"] }) w).

(** The end of [login]: the session, the second factor (its page is [Mfa]), an error's message, or a failed request. *)
Inductive login_answer :=
  | Login_session (name : jsstring) (ps : list permission) (rs : list (option route))
  | Login_mfa | Login_rejected (message : jsstring) | Login_failed.

Definition login_started (w : W) : W := modify (λ a, { a with login_error := None }) w.

Definition login_answered (name : jsstring) (r : login_answer) (w : W) : W :=
  match r with
  | Login_session serverName ps rs => completeLogin serverName name ps rs w
  | Login_mfa => w
  | Login_rejected message => modify (λ a, { a with login_error := Some message }) w
  | Login_failed => modify (λ a, { a with login_error := Some (js "login.loginError") }) w
  end.

(** [handleAuthFailure] of [api.js], and whether it throws; [exitProtectedRouteOnDenial] of [protected-route.js]. *)
Definition handleAuthFailure (status : Z) (logoutOnForbidden : bool) (w : W) : W * bool :=
  if (status =? 401)%Z || ((status =? 403)%Z && logoutOnForbidden) then (logout Kicked w, true) else (w, false).

Definition exitProtectedRouteOnDenial (status : Z) (w : W) : W * bool :=
  if negb (status =? 401)%Z && negb (status =? 403)%Z then (w, false) else (requestProtectedRouteExit status w, true).

(** ** Runs of the session *)

Inductive event :=
  | Start | Session_answered (m : me_answer)
  | Logout (r : reason) | Logout_answered
  | Login_started | Login_answered (name : jsstring) (r : login_answer)
  | Mfa_completed (name : jsstring) (ps : list permission) (rs : list (option route))
  | Api_answered (status : Z) (logoutOnForbidden : bool) | Page_answered (status : Z).

Definition exec (e : event) (w : W) : option W :=
  match e with
  | Start => Some (initializeSession w)
  | Session_answered m => session_answered m w
  | Logout r => Some (logout r w)
  | Logout_answered => logout_answered w
  | Login_started => Some (login_started w)
  | Login_answered name r => Some (login_answered name r w)
  | Mfa_completed name ps rs => Some (completeLogin name [] ps rs w)
  | Api_answered status p => Some (handleAuthFailure status p w).1
  | Page_answered status => Some (exitProtectedRouteOnDenial status w).1
  end.

(** An event of the session, or anything the shell does that keeps it. *)
Inductive step (w w' : W) : Prop :=
  | session_event e : exec e w = Some w' → step w w'
  | shell_event : keeps (session w) (session w') → step w w'.

Definition fresh (kept : gmap jsstring jsstring) : state := {|
  store := kept; held := applySessionCaches false [] []; starting := None; logoutPromise := None;
  login_button := true; manager_only := false; user_only := false; login_error := None; alerts := []
|}.

Definition init (w : W) : Prop := ∃ kept, session w = fresh kept.

(** What holds between two events. *)
Record session_ok (a : state) : Prop := {
  ok_signed_out : isLoggedIn (held a) = false → permissions (held a) = [] ∧ routes (held a) = [];
  ok_manager : isManager (held a) = isLoggedIn (held a) && isManagerFromSession (permissions (held a));
  ok_controls : login_button a = negb (isLoggedIn (held a)) ∧ user_only a = isLoggedIn (held a)
                ∧ manager_only a = isManager (held a)
}.

(** The part of a state that [session_ok] reads. *)
Definition seen (a : state) := (held a, login_button a, user_only a, manager_only a).

Lemma session_ok_seen a b : seen b = seen a → session_ok a → session_ok b.
Proof. unfold seen. intros [= E1 E2 E3 E4] [H1 H2 H3]. split; by rewrite ?E1, ?E2, ?E3, ?E4. Qed.

Lemma keeps_refl a : keeps a a.
Proof. split; [done|by destruct a]. Qed.

Lemma keeps_trans a b c : keeps a b → keeps b c → keeps a c.
Proof. intros [H1 E1] [H2 E2]. split; [congruence|]. rewrite E2, E1. by destruct a, b, c. Qed.

Lemma keeps_seen a b : keeps a b → seen b = seen a.
Proof. intros [_ ->]. by destruct a. Qed.

Lemma keeps_held a b : keeps a b → held b = held a.
Proof. intros [_ ->]. by destruct a. Qed.

Lemma keeps_items a b k : keeps a b → k ≠ js "selectedTab" → getItem k b = getItem k a.
Proof. intros [H _] Hk. unfold getItem. rewrite <- (lookup_delete_ne (store b) (js "selectedTab")), H by done. by rewrite lookup_delete_ne. Qed.

Lemma keeps_logout a b : keeps a b → logoutPromise b = logoutPromise a ∧ starting b = starting a ∧ alerts b = alerts a.
Proof. intros [_ ->]. by destruct a. Qed.

Lemma session_modify f w : session (modify f w) = f (session w).
Proof. apply session_put. Qed.

(** The caches and the controls of a signed-in page, or of one that is not. *)
Definition displayed (logged : bool) (ps : list permission) (rs : list (option route)) :=
  let c := applySessionCaches logged ps rs in (c, negb logged, logged, isManager c).

Lemma update_seen logged ps rs w :
  seen (session (updateAuthUI logged (isManagerFromSession ps) ps rs w)) = displayed logged ps rs.
Proof.
  unfold updateAuthUI. set (c := if _ && _ && _ then _ else _).
  assert (c = applySessionCaches logged ps rs) as ->.
  { subst c. destruct (logged && bool_decide (ps = [])) eqn:E; [|done]. apply andb_true_iff in E as [-> ->%bool_decide_eq_true]. done. }
  cbv zeta. destruct (negb logged || _).
  - rewrite (keeps_seen _ _ (switchTab_keeps _ _)), !session_modify. done.
  - by rewrite session_modify.
Qed.

Lemma update_items logged manager ps rs w k :
  k ≠ js "selectedTab" → getItem k (session (updateAuthUI logged manager ps rs w)) = getItem k (session w).
Proof.
  intros Hk. unfold updateAuthUI. cbv zeta. match goal with |- context [if ?b then switchTab _ _ else _] => destruct b end.
  - rewrite (keeps_items _ _ k (switchTab_keeps _ _) Hk), !session_modify. unfold getItem, setItem. cbn. by rewrite lookup_insert_ne.
  - by rewrite session_modify.
Qed.

Lemma displayed_ok logged ps rs a : seen a = displayed logged ps rs → session_ok a.
Proof.
  intros [= E1 E2 E3 E4]. split; rewrite ?E1, ?E2, ?E3, ?E4; cbn; [by intros ->| |by destruct logged].
  by destruct logged.
Qed.

Lemma update_ok logged ps rs w : session_ok (session (updateAuthUI logged (isManagerFromSession ps) ps rs w)).
Proof. eapply displayed_ok, update_seen. Qed.

Lemma modify_seen f w : (∀ a, seen (f a) = seen a) → seen (session (modify f w)) = seen (session w).
Proof. intros Hf. by rewrite session_modify. Qed.

Lemma logout_seen r w : seen (session (logout r w)) = seen (session w).
Proof.
  unfold logout. pose proof (keeps_seen _ _ (exit_keeps (match r with Expired | Kicked => 401 | _ => 0 end)%Z w)) as E.
  cbv zeta. destruct (logoutPromise _); [done|]. by rewrite modify_seen.
Qed.

Lemma completeLogin_seen name fallback ps rs w :
  seen (session (completeLogin name fallback ps rs w)) = displayed true ps rs.
Proof.
  unfold completeLogin. cbv zeta. rewrite (keeps_seen _ _ (leave_keeps _)), modify_seen by done. apply update_seen.
Qed.

Lemma logout_answered_seen w w' : logout_answered w = Some w' → seen (session w') = displayed false [] [].
Proof.
  unfold logout_answered. destruct (logoutPromise (session w)) as [[r was]|]; [|done]. intros [= <-].
  rewrite modify_seen, (keeps_seen _ _ (switchTab_keeps _ _)), modify_seen, (keeps_seen _ _ (stop_keeps _)), modify_seen by done.
  apply (update_seen false []).
Qed.

Lemma session_exec_ok e w w' : exec e w = Some w' → session_ok (session w) → session_ok (session w').
Proof.
  intros He Hok. assert (seen (session w') = seen (session w) → session_ok (session w')) as Hkeep
    by (intros E; by eapply session_ok_seen).
  destruct e; cbn in He; [apply (inj Some) in He as <-| |apply (inj Some) in He as <-| |apply (inj Some) in He as <-..].
  - apply Hkeep. unfold initializeSession. by rewrite session_modify.
  - unfold session_answered in He. destruct (starting (session w)) as [was|]; [|done]. apply (inj Some) in He as <-.
    destruct m as [name ps rs|status|]; [apply update_ok| |apply (update_ok false [])].
    destruct (status =? 401)%Z; [destruct was|].
    + apply Hkeep. rewrite logout_seen. by rewrite modify_seen.
    + apply (update_ok false []).
    + apply (update_ok _ []).
  - apply Hkeep, logout_seen.
  - eapply displayed_ok, logout_answered_seen; done.
  - apply Hkeep. unfold login_started. by rewrite session_modify.
  - destruct r; cbn [login_answered]; [eapply displayed_ok, completeLogin_seen|done|by apply Hkeep, modify_seen|by apply Hkeep, modify_seen].
  - eapply displayed_ok, completeLogin_seen.
  - apply Hkeep. unfold handleAuthFailure. destruct (_ || _); [apply logout_seen|done].
  - apply Hkeep. unfold exitProtectedRouteOnDenial. destruct (_ && _); [done|]. apply keeps_seen, exit_keeps.
Qed.

(** C11: Between any two events of a run, in whatever order the answers come in, the permissions the page holds are
    those of the session: signed out, there are none; the user is a manager exactly when signed in with one
    of the manager permissions; the menu's management controls are shown to managers only, and the sign-in
    button exactly when signed out. *)
Theorem session_caches w : reachable init step w → session_ok (session w).
Proof.
  revert w. apply invariant_reachable.
  - intros w [kept ->]. by split.
  - intros w w' Hok [e He|Hk]; [by eapply session_exec_ok|]. eapply session_ok_seen; [by apply keeps_seen|done].
Qed.

End session.

(** ** Examples *)

Lemma update_permission_agrees_witness :
  slug_pattern "releases" = true ∧
  (let u := buildSynthUser "alice" (js <$> ["canupdate:releases"; "canview:*"]%stdpp) in
   let s := CreateSessionDetails u in
   canUpdateRepo "releases" (applySessionCaches true s.1 s.2) = Some (CheckUpdatePermission "releases" u)).
Proof. split; [reflexivity|]. apply (update_permission_agrees "alice" _ "releases"). reflexivity. Defined.

(** A session by itself, whose shell changes nothing. *)
#[local] Instance lone_host : Host state.
Proof.
  refine {| session := λ a, a; put := λ a _, a; switchTab := λ _ a, a; requestProtectedRouteExit := λ _ a, a;
            leaveLoginPage := λ a, a; stopDashboardRefresh := λ a, a |}.
  - done.
  - intros _ w. apply keeps_refl.
  - intros _ w. apply keeps_refl.
  - intros w. apply keeps_refl.
  - intros w. apply keeps_refl.
Defined.

Fixpoint run (es : list event) (a : state) : option state :=
  match es with [] => Some a | e :: es => a' ← exec e a; run es a' end.

Lemma run_reachable es a a' : run es a = Some a' → reachable init step a → reachable init step a'.
Proof.
  revert a. induction es as [|e es IH]; intros a; cbn [run].
  - by intros [= ->].
  - destruct (exec e a) as [b|] eqn:E; [|done]. intros Hr Ha. apply (IH b Hr). eapply reachable_step; [done|]. by eapply session_event.
Qed.

(** A manager signs in while the first request is under way, which then fails: the page is signed out. *)
Definition example_session (es : list event) : option state := run es (fresh ∅).
Definition sign_in : event := Login_answered "root" (Login_session "root" [PermText "admin"] []).

Example signed_in : (λ a, (isManager (held a), manager_only a, getItem (js "username") a)) <$> example_session [sign_in]
  = Some (true, true, js "root").
Proof. vm_compute. reflexivity. Qed.

Example overtaken : (λ a, (isLoggedIn (held a), getItem (js "username") a)) <$> example_session [Start; sign_in; Session_answered (Me_status 401)]
  = Some (false, js "root").
Proof. vm_compute. reflexivity. Qed.

Example expired_twice : (λ a, (isLoggedIn (held a), alerts a)) <$> example_session [sign_in; Logout Expired; Api_answered 401 false; Logout_answered]
  = Some (false, js <$> ["login.welcomeBack"; "login.sessionExpired"]%stdpp).
Proof. vm_compute. reflexivity. Qed.

Lemma example_reachable es a : example_session es = Some a → reachable init step a.
Proof. intros Ha. apply (run_reachable _ _ _ Ha), reachable_init. by exists ∅. Qed.

Lemma session_caches_witness :
  (λ a, isLoggedIn (held a)) <$> example_session [sign_in; Logout Manual; Logout_answered] = Some false ∧
  (∀ a, example_session [sign_in; Logout Manual; Logout_answered] = Some a → session_ok (session a)).
Proof.
  split; [vm_compute; reflexivity|]. intros a Ha. exact (session_caches a (example_reachable _ _ Ha)).
Defined.
