(* ===== verification/Shell.v ===== *)
(** * The application shell

    [internal/service/frontend/renop-html/js/main.js] with the routes of the account pages ([super-teams.js],
    [tickets.js], [browser/maven.js]): which page a location shows to whom, the menus and links that lead
    there, and the start of the application. The shell is the [Auth.Host] of the session, and uses the routes of
    [LoginRoute], [Legal] and [UserProfiles]. What a page does when it is shown is a [call] to its component.
    The background, the update notice, keyboard handling and the footer are left out. *)

From S2P Require Import Prelude JsText JsValue Uri LoginRoute UserProfiles Legal Auth.
From coqutil Require Import Datatypes.RecordSettersUsingExistingGetters.
Local Open Scope nat_scope.

#[local] Arguments const {E} _ _ /.
#[local] Arguments cons {A} & _ _.

(** ** Routes of the account pages *)

(** [String(pathname || '/').replace(/\/+$/, '') || '/'] *)
Definition normalized_path (pathname : jsstring) : jsstring :=
  str_or (reverse (dropWhile (ascii_eqb "/") (reverse pathname))) "/".

(** The rest of a path below a root, if it is one segment. *)
Definition segment_below (root path : jsstring) : option jsstring :=
  if negb (startsWith path (root ++ js "/")) then None
  else let segment := drop (S (length root)) path in
       if negb (truthy segment) || includes segment "/" then None else Some segment.

(** The list of a center, one of its entries, or an entry with a name beyond Latin-1. *)
Inductive center := Center_list | Center_of (name : jsstring) | Center_wide.

(** [/^[a-z0-9](?:[a-z0-9_-]*[a-z0-9])$/] and the bounds on the length *)
Definition lower_alnum (c : ascii) : bool := is_lower c || is_digit c.
Definition validPrefix (p : jsstring) : bool :=
  (2 <=? length p) && (length p <=? 64)
  && match p with c :: _ => lower_alnum c | [] => false end
  && match last p with Some c => lower_alnum c | None => false end
  && forallb (λ c, lower_alnum c || ascii_eqb c "_" || ascii_eqb c "-") p.

Section shell.
Context `{parser : PathParser}.
(** [toLowerCase] of a character outside Latin-1, and whether a segment with such characters is a name, a prefix. *)
Variable lower_wide : point → list point.
Variables wide_name wide_prefix : jsstring → bool.

Definition named (valid wide : jsstring → bool) (segment : jsstring) : option center :=
  match decodeURIComponent segment with
  | Decoded d => let name := toLowerCase (trim d) in if valid name then Some (Center_of name) else None
  | Uri.Malformed => None
  | Wide => if wide segment then Some Center_wide else None
  end.

Definition center_route (valid wide : jsstring → bool) (root pathname : jsstring) : option center :=
  let path := normalized_path pathname in
  if eqs path root then Some Center_list else s ← segment_below root path; named valid wide s.

Definition public_route (valid wide : jsstring → bool) (root pathname : jsstring) : option center :=
  s ← segment_below root (normalized_path pathname); named valid wide s.

Definition mavenDomainRouteFromPath : jsstring → option center := center_route truthy wide_name "/account/maven-domains".
Definition publicMavenDomainRouteFromPath : jsstring → option center := public_route truthy wide_name "/domain".
Definition superTeamRouteFromPath : jsstring → option center := center_route validPrefix wide_prefix "/account/teams".
Definition publicSuperTeamRouteFromPath : jsstring → option center := public_route validPrefix wide_prefix "/team".
Definition ticketRouteFromPath (pathname : jsstring) : bool :=
  existsb (eqs (normalized_path pathname)) [js "/account/tickets"; js "/account/reviews"].

Definition isSome {A} (o : option A) : bool := match o with Some _ => true | None => false end.

Definition accountTabFromPath (pathname : jsstring) : jsstring :=
  if isSome (mavenDomainRouteFromPath pathname) then "maven-domains"
  else if isSome (superTeamRouteFromPath pathname) then "super-teams"
  else if ticketRouteFromPath pathname then "tickets" else [].

Definition isAccountTab (tabId : jsstring) : bool := existsb (eqs tabId) (js <$> ["maven-domains"; "super-teams"; "tickets"]%stdpp).

(** The section of the profile a path leads to; the empty text is its overview. *)
Definition profile_section (pathname : jsstring) : option jsstring :=
  match UserProfiles.profileRouteFromPath pathname with
  | Some (UserProfiles.Route _ section) => Some section
  | Some UserProfiles.Wide_name =>
      '(name, section) ← UserProfiles.route_parts pathname; if wide_name name then Some section else None
  | None => None
  end.
Definition profile_route (pathname : jsstring) : bool := isSome (profile_section pathname).
Definition edits_profile (pathname : jsstring) : bool := bool_decide (profile_section pathname = Some (js "edit")).

(** ** The page to show *)

(** The page for a tab at a path; [None]: sign-in comes first. *)
Definition target (logged manager : bool) (tabId pathname : jsstring) : option jsstring :=
  let accountPage := accountPageFromPath pathname in
  let tabId := if truthy accountPage then accountPage else tabId in
  let tabId := if truthy (legalPageFromPath pathname) then js "legal" else tabId in
  if negb logged && (isAccountTab tabId || truthy (accountTabFromPath pathname)) then None
  else if negb logged && edits_profile pathname then None
  else
    let tabId := if isManagerTab tabId && negb manager then js "overview" else tabId in
    let tabId := if eqs tabId "overview" && profile_route pathname then js "profile" else tabId in
    let tabId := if eqs tabId "overview" && isSome (publicMavenDomainRouteFromPath pathname) then js "maven-domain" else tabId in
    let tabId := if eqs tabId "overview" && isSome (publicSuperTeamRouteFromPath pathname) then js "super-team" else tabId in
    Some (if eqs tabId "overview" && truthy (accountTabFromPath pathname) then accountTabFromPath pathname else tabId).

(** The tab of a location that is reached through the history. *)
Definition popstate_tab (pathname : jsstring) : jsstring :=
  if profile_route pathname then js "profile"
  else if isSome (publicMavenDomainRouteFromPath pathname) then js "maven-domain"
  else if isSome (publicSuperTeamRouteFromPath pathname) then js "super-team"
  else if truthy (accountTabFromPath pathname) then accountTabFromPath pathname
  else js "overview".

(** ** The state *)

(** The components a switch calls: [active] tells a page whether it is shown, [entering] whether it was not before. *)
Inductive call :=
  | Update_legal (active : bool) | Update_recovery (active entering : bool) | Update_mfa (active entering : bool)
  | Update_registration (active entering : bool) | Update_password_recovery (active entering : bool)
  | Reset_consent (k : kind) | Refresh_password_recovery | Refresh_registration
  | Start_refresh | Stop_refresh | Init_settings | Init_repositories | Fetch_tokens | Fetch_status
  | Setup_profile (section : option jsstring)
  | Load_domain_center | Load_public_domain | Load_team_center | Load_public_team | Load_tickets
  | Load_directory (path : jsstring).

(** The history, the session, the page shown (and the section, of a profile), the return target in the links of the
    account pages, the refresh of the dashboard, the pages whose loading is awaited, the tab and path
    the menu marks, and the calls of the last event. *)
Record world := {
  tab : LoginRoute.tab; sess : Auth.state;
  shown : jsstring; section : option jsstring; links : jsstring; refreshing : bool;
  loading : list jsstring; menu : jsstring * jsstring; calls : list call
}.

Definition current_path (w : world) : jsstring := pathname (current (tab w)).
Definition signed_in (w : world) : bool := isLoggedIn (held (sess w)).
Definition managing (w : world) : bool := isManager (held (sess w)).
Definition say (cs : list call) (w : world) : world := { w with calls := calls w ++ cs }.

(** The tabs that the next visit_path does not start with. *)
Definition unstored (tabId : jsstring) : bool :=
  existsb (eqs tabId) (js <$> ["legal"; "profile"; "maven-domain"; "super-team"]%stdpp) || isAccountTab tabId.

(** The loader of a page, and whether the switch awaits it. *)
Definition loader (tabId pathname : jsstring) : list call * bool :=
  if eqs tabId "settings" then ([Init_settings], false)
  else if eqs tabId "repositories" then ([Init_repositories], false)
  else if eqs tabId "users" then ([Fetch_tokens], false)
  else if eqs tabId "profile" then ([Setup_profile (profile_section pathname)], true)
  else if eqs tabId "maven-domains" then ([Load_domain_center], true)
  else if eqs tabId "maven-domain" then ([Load_public_domain], true)
  else if eqs tabId "super-teams" then ([Load_team_center], true)
  else if eqs tabId "super-team" then ([Load_public_team], true)
  else if eqs tabId "tickets" then ([Load_tickets], true)
  else if eqs tabId "overview" then ([Load_directory pathname], false)
  else ([], false).

Definition updateProfileMenuSelection (tabId : jsstring) (w : world) : world := { w with menu := (tabId, current_path w) }.

(** [switchTab] once the page is chosen, up to the first [await]. *)
Definition render_page (tabId : jsstring) (w : world) : world :=
  let accountPage := accountPageFromPath (current_path w) in
  let on name := eqs tabId name in
  let entering name := on name && negb (eqs (shown w) name) in
  let w' := { w with sess := if on "login" then sess w else { sess w with login_error := None } } in
  let w' := { { w' with shown := tabId } with section := if on "profile" then profile_section (current_path w) else None } in
  let w' := say ([Update_legal (on "legal"); Update_recovery (on "recovery") (entering "recovery"); Update_mfa (on "login") (entering "login");
                  Update_registration (on "registration") (entering "registration")]
                 ++ (if on "login" then [] else [Reset_consent Login]) ++ (if on "registration" then [] else [Reset_consent Registration])
                 ++ [Update_password_recovery (on "password-recovery") (entering "password-recovery")]
                 ++ (if truthy accountPage
                     then Refresh_password_recovery :: (if on "registration" then [] else [Refresh_registration]) else [])) w' in
  let w' := if truthy accountPage then { w' with links := loginReturnTo lower_wide (current (tab w)) } else w' in
  let w' := if truthy accountPage || unstored tabId then w' else { w' with sess := setItem (js "selectedTab") tabId (sess w') } in
  let w' := { say [if on "dashboard" then Start_refresh else Stop_refresh] w' with refreshing := on "dashboard" } in
  let w' := say (loader tabId (current_path w)).1 w' in
  if (loader tabId (current_path w)).2 then { w' with loading := loading w ++ [tabId] } else updateProfileMenuSelection tabId w'.

(** [switchTab]: a redirection to the sign-in page comes back through the handler of [popstate]. *)
Fixpoint switch (fuel : nat) (tabId : jsstring) (w : world) : world :=
  match target (signed_in w) (managing w) tabId (current_path w) with
  | Some page => render_page page w
  | None =>
      let nav := navigateToLogin lower_wide (Some (current_path w)) true false (tab w) in
      let w' := { w with tab := nav } in
      if events nav =? events (tab w) then w'
      else match fuel with O => w' | S fuel => switch fuel (popstate_tab (current_path w')) w' end
  end.

(** One redirection is all there can be ([switch_fuel]). *)
Definition switchTab : jsstring → world → world := switch 1.

Definition popstate (w : world) : world := switchTab (popstate_tab (current_path w)) w.

(** A navigation of [login-route.js], whose event the shell handles. *)
Definition navigated (nav : LoginRoute.tab) (w : world) : world :=
  let w' := { w with tab := nav } in if events nav =? events (tab w) then w' else popstate w'.

(** [pushState] or [replaceState] of a path without parameters. *)
Definition move (replace : bool) (path : jsstring) (w : world) : world :=
  { w with tab := {| current := {| pathname := path; params := [] |};
                     back := if replace then back (tab w) else current (tab w) :: back (tab w); events := events (tab w) |} }.

(** Whether the location is a path without parameters. *)
Definition on_path (path : jsstring) (w : world) : bool := eqs (current_path w) path && bool_decide (params (current (tab w)) = []).

Definition navigateHome (replace : bool) (w : world) : world :=
  switchTab "overview" (if on_path "/" w then w else move replace "/" w).

(** The links of the components: a new entry unless the page is there already, and [popstate]. *)
Definition visit_path (path : jsstring) (w : world) : world := popstate (if on_path path w then w else move false path w).

Definition route_denied (status : Z) (w : world) : world :=
  if (status =? 401)%Z && truthy (accountPageFromPath (current_path w)) then w
  else if (status =? 401)%Z then navigated (navigateToLogin lower_wide (Some (current_path w)) true false (tab w)) w
  else navigateHome true w.

Definition leave (w : world) : world := navigated (LoginRoute.leaveLoginPage lower_wide (tab w)) w.

(** ** The shell hosts the session *)

Lemma keeps_selected v a : keeps a (setItem (js "selectedTab") v a).
Proof. split; [by apply delete_insert_eq|by destruct a]. Qed.

Lemma keeps_error e a : keeps a { a with login_error := e }.
Proof. split; [done|by destruct a]. Qed.

(** What a rendered page leaves in each field. *)
Definition stores (tabId : jsstring) (w : world) : bool := negb (truthy (accountPageFromPath (current_path w)) || unstored tabId).

Lemma render_sess t w :
  sess (render_page t w) = (let a := if eqs t "login" then sess w else { sess w with login_error := None } in
                       if stores t w then setItem (js "selectedTab") t a else a).
Proof. unfold render_page, stores. destruct (truthy _), (unstored t), (loader t (current_path w)) as [cs [|]]; done. Qed.

Lemma render_keeps t w : keeps (sess w) (sess (render_page t w)).
Proof.
  rewrite render_sess. cbv zeta. destruct (eqs t "login"), (stores t w); try apply keeps_refl;
    eauto using keeps_selected, keeps_error, keeps_trans.
Qed.

Lemma render_fields t w :
  shown (render_page t w) = t ∧ tab (render_page t w) = tab w ∧ refreshing (render_page t w) = eqs t "dashboard" ∧
  section (render_page t w) = if eqs t "profile" then profile_section (current_path w) else None.
Proof. unfold render_page. destruct (truthy _), (unstored t), (loader t (current_path w)) as [cs [|]]; done. Qed.

Lemma switch_keeps n t w : keeps (sess w) (sess (switch n t w)).
Proof.
  revert t w. induction n as [|n IH]; intros t w; cbn [switch]; (destruct (target _ _ _ _) as [page|]; [apply render_keeps|]);
    cbv zeta; destruct (_ =? _); try apply keeps_refl.
  match goal with |- keeps _ (sess (switch _ ?t ?v)) => exact (IH t v) end.
Qed.

Ltac by_switch := unfold popstate, switchTab; match goal with |- keeps _ (sess (switch ?n ?t ?v)) => exact (switch_keeps n t v) end.

Lemma navigated_keeps nav w : keeps (sess w) (sess (navigated nav w)).
Proof. unfold navigated. cbv zeta. destruct (_ =? _); [apply keeps_refl|]. by_switch. Qed.

Lemma route_denied_keeps status w : keeps (sess w) (sess (route_denied status w)).
Proof.
  unfold route_denied. destruct (_ && _); [apply keeps_refl|]. destruct (_ =? _)%Z; [apply navigated_keeps|].
  unfold navigateHome. destruct (on_path "/" w); [apply switch_keeps|apply (switch_keeps 1 _ (move true "/" w))].
Qed.

#[export] Instance shell_host : Host world.
Proof using lower_wide parser wide_name wide_prefix.
  refine {| Auth.session := sess; put := λ a w, { w with sess := a }; Auth.switchTab := switchTab;
            requestProtectedRouteExit := route_denied; Auth.leaveLoginPage := leave;
            stopDashboardRefresh := λ w, { say [Stop_refresh] w with refreshing := false } |}.
  - done.
  - intros t w. apply (switch_keeps 1).
  - apply route_denied_keeps.
  - intros w. apply navigated_keeps.
  - intros w. apply keeps_refl.
Defined.

(** ** Events *)

(** The items of the profile menu. *)
Inductive menu_item := Menu_tab (t : jsstring) | Menu_profile (edit : bool) | Menu_domains | Menu_teams | Menu_tickets | Menu_other.

Definition menu_clicked (i : menu_item) (w : world) : world :=
  match i with
  | Menu_tab t =>
      if eqs t "overview" then navigateHome false w
      else if negb (managing w) then w
      else switchTab t (if truthy (accountPageFromPath (current_path w)) || truthy (legalPageFromPath (current_path w)) || profile_route (current_path w)
                           || truthy (accountTabFromPath (current_path w)) then move false "/" w else w)
  | Menu_profile edit =>
      match profile_path (getItem (js "username") (sess w)) (if edit then js "edit" else []) with
      | None => w
      | Some path => if eqs (strip_last_slash (current_path w)) path then w else popstate (move false path w)
      end
  | Menu_domains => if signed_in w then visit_path "/account/maven-domains" w else w
  | Menu_teams => visit_path "/account/teams" w
  | Menu_tickets => visit_path "/account/tickets" w
  | Menu_other => w
  end.

(** The tab [languageChanged] opens again. *)
Definition current_tab (w : world) : jsstring :=
  if truthy (legalPageFromPath (current_path w)) then js "legal"
  else if profile_route (current_path w) then js "profile"
  else if isSome (publicMavenDomainRouteFromPath (current_path w)) then js "maven-domain"
  else if isSome (publicSuperTeamRouteFromPath (current_path w)) then js "super-team"
  else str_or (accountTabFromPath (current_path w)) (str_or (getItem (js "selectedTab") (sess w)) "overview").

Definition languageChanged (w : world) : world :=
  let t := current_tab w in
  let w := switchTab t w in if eqs t "dashboard" then say [Fetch_status] w else w.

(** [initializeApplication] after the session and the sign-in providers are known. *)
Definition application_ready (w : world) : world :=
  let has k := isSome (param k (current (tab w))) in
  let w := if isLoginPath (current_path w) && signed_in w && negb (has (js "reauth")) && negb (has (js "mfa")) then leave w else w in
  let accountTab := accountTabFromPath (current_path w) in
  let routed := profile_route (current_path w) || truthy accountTab in
  let savedTab := if profile_route (current_path w) then js "profile"
                  else str_or accountTab (str_or (getItem (js "selectedTab") (sess w)) "overview") in
  let lost := negb routed && (eqs savedTab "profile" || isAccountTab savedTab) in
  let w := if lost then { w with sess := setItem (js "selectedTab") (js "overview") (sess w) } else w in
  let savedTab := if lost then js "overview" else savedTab in
  let savedTab := if (negb routed && negb (signed_in w)) || (truthy accountTab && negb (signed_in w))
                     || (isManagerTab savedTab && negb (managing w)) then js "overview" else savedTab in
  switchTab savedTab w.

Inductive event :=
  | Of_session (e : Auth.event)
  | Ready                                   (* [initializeApplication] goes on *)
  | Popstate (nav : LoginRoute.tab)         (* the browser moves in its history, or a component navigates *)
  | Sign_in_asked (returnTo : option jsstring) (replace reauth : bool)
  | Tab_clicked (t : jsstring) | Menu_clicked (i : menu_item) | Visit (path : jsstring) | Home_clicked
  | Language_changed
  | Loaded (k : nat).                       (* a page that the switch awaits *)

Definition handle (e : event) (w : world) : option world :=
  match e with
  | Of_session e => Auth.exec e w
  | Ready => Some (application_ready w)
  | Popstate nav => Some (popstate { w with tab := nav })
  | Sign_in_asked returnTo replace reauth => Some (navigated (navigateToLogin lower_wide returnTo replace reauth (tab w)) w)
  | Tab_clicked t =>
      Some (if eqs (shown w) t then w
            else switchTab t (if truthy (accountPageFromPath (current_path w)) || truthy (legalPageFromPath (current_path w))
                                 || profile_route (current_path w) || truthy (accountTabFromPath (current_path w)) then move false "/" w else w))
  | Menu_clicked i => Some (menu_clicked i w)
  | Visit path => Some (visit_path path w)
  | Home_clicked => Some (navigateHome false w)
  | Language_changed => Some (languageChanged w)
  | Loaded k => t ← loading w !! k; Some (updateProfileMenuSelection t { w with loading := delete k (loading w) })
  end.

Definition step (w w' : world) : Prop := ∃ e, handle e { w with calls := [] } = Some w'.

(** The fresh document: the overview, before anything is known of the session. *)
Definition opened (nav : LoginRoute.tab) (kept : gmap jsstring jsstring) : world := {|
  tab := nav; sess := fresh kept; shown := "overview"; section := None; links := "/"; refreshing := false;
  loading := []; menu := ([], []); calls := []
|}.

Definition init (w : world) : Prop := ∃ nav kept, w = opened nav kept.

(** ** Account pages, centers and profiles have different paths *)

Lemma account_page_lower p :
  truthy (accountPageFromPath p) = true →
  toLowerCase p ∈ (λ n, js "/account/" ++ n) <$> (js <$> ["login"; "login/"; "register"; "register/"; "recovery"; "recovery/";
                                                         "forgot-password"; "forgot-password/"]%stdpp).
Proof.
  clear wide_name wide_prefix. unfold accountPageFromPath, account_page. intros Ht.
  destruct (drop_last_slash_cases (toLowerCase p)) as [->| ->]; revert Ht; generalize (drop_last_slash (toLowerCase p)); intros d;
    repeat (destruct (eqs d _) eqn:E; [apply eqs_true in E as ->; intros _; vm_compute; set_solver|clear E]); done.
Qed.

Lemma lower_prefix p pre : startsWith p pre = true → startsWith (toLowerCase p) (toLowerCase pre) = true.
Proof. intros (k & ->)%startsWith_spec. rewrite toLowerCase_app. apply startsWith_app. Qed.

Lemma account_page_not p pre :
  truthy (accountPageFromPath p) = true → forallb (λ n, negb (startsWith (js "/account/" ++ js n) (toLowerCase pre)))
    ["login"; "login/"; "register"; "register/"; "recovery"; "recovery/"; "forgot-password"; "forgot-password/"]%stdpp = true →
  startsWith p pre = false.
Proof.
  intros Hp%account_page_lower Hf. apply not_true_iff_false. intros Hs%lower_prefix.
  apply list_elem_of_fmap in Hp as (n & En & (m & -> & Hm)%list_elem_of_fmap). rewrite En in Hs.
  rewrite forallb_elem in Hf. specialize (Hf m Hm). by rewrite Hs in Hf.
Qed.

Lemma normalized_prefix p pre :
  startsWith (normalized_path p) pre = true → startsWith (js "/") pre = false → startsWith p pre = true.
Proof.
  unfold normalized_path, str_or. destruct (truthy _); [|congruence]. intros (k & Hk)%startsWith_spec _.
  destruct (dropWhile_suffix (ascii_eqb "/") (reverse p)) as [d Hd].
  rewrite <- (reverse_involutive p), Hd, reverse_app, Hk, <- app_assoc. apply startsWith_app.
Qed.

Lemma center_prefix valid wide root p :
  isSome (center_route valid wide root p) = true → startsWith (js "/") root = false → startsWith p root = true.
Proof.
  intros Hc Hr. apply normalized_prefix; [|done]. revert Hc. unfold center_route, segment_below. cbv zeta.
  destruct (eqs (normalized_path p) root) eqn:E.
  - intros _. apply eqs_true in E as ->. apply startsWith_spec. exists []. by rewrite app_nil_r.
  - destruct (startsWith (normalized_path p) (root ++ js "/")) eqn:Es; [|done]. intros _.
    apply startsWith_spec in Es as (k & ->). rewrite <- app_assoc. apply startsWith_app.
Qed.

Lemma account_page_no_tab p : truthy (accountPageFromPath p) = true → accountTabFromPath p = [].
Proof.
  intros Hp. unfold accountTabFromPath, mavenDomainRouteFromPath, superTeamRouteFromPath, ticketRouteFromPath.
  destruct (isSome (center_route truthy _ _ p)) eqn:E1.
  { apply center_prefix in E1; [|done]. by rewrite (account_page_not p) in E1. }
  destruct (isSome (center_route validPrefix _ _ p)) eqn:E2.
  { apply center_prefix in E2; [|done]. by rewrite (account_page_not p) in E2. }
  destruct (existsb _ _) eqn:E3; [|done]. apply existsb_elem in E3 as (r & Hr & E%eqs_true). exfalso.
  assert (startsWith p r = true) as H.
  { apply normalized_prefix; [rewrite E; apply startsWith_spec; exists []; by rewrite app_nil_r|].
    rewrite !elem_of_cons in Hr. by destruct Hr as [->|[->|Hr%not_elem_of_nil]]. }
  rewrite !elem_of_cons in Hr. destruct Hr as [->|[->|Hr%not_elem_of_nil]]; [..|done]; by rewrite account_page_not in H.
Qed.

Lemma account_page_no_profile p : truthy (accountPageFromPath p) = true → profile_section p = None.
Proof.
  intros Hp. unfold profile_section, UserProfiles.profileRouteFromPath, UserProfiles.route_parts.
  by rewrite (account_page_not p "/user/").
Qed.

(** ** What a switch may show *)

Lemma account_page_name p :
  accountPageFromPath p ∈ [] :: (js <$> ["login"; "registration"; "recovery"; "password-recovery"]%stdpp).
Proof.
  clear wide_name wide_prefix. unfold accountPageFromPath, account_page.
  repeat (destruct (eqs _ _); [vm_compute; set_solver|]). vm_compute. set_solver.
Qed.

(** The tab before the paths of profiles, domains and teams are looked at. *)
Definition chosen (tabId pathname : jsstring) : jsstring :=
  let tabId := if truthy (accountPageFromPath pathname) then accountPageFromPath pathname else tabId in
  if truthy (legalPageFromPath pathname) then js "legal" else tabId.

(** Each of the pages that a path puts in the place of the overview. *)
Definition fixed_page (t : jsstring) : bool := existsb (eqs t) (js <$> ["overview"; "profile"; "maven-domain"; "super-team"]%stdpp).

Lemma target_page l m t p page :
  target l m t p = Some page →
  (page = chosen t p ∧ (isManagerTab page = true → m = true)) ∨ fixed_page page = true
  ∨ (page = accountTabFromPath p ∧ truthy page = true).
Proof.
  unfold target. fold (chosen t p). cbv zeta. generalize (chosen t p). clear t. intros t.
  destruct (negb l && _); [done|]. destruct (negb l && _); [done|]. intros E. apply (inj Some) in E. revert E.
  destruct (isManagerTab t && negb m) eqn:Em.
  - destruct (profile_route p); cbn; [by intros <-; right; left|]. destruct (isSome _); cbn; [by intros <-; right; left|].
    destruct (isSome _); cbn; [by intros <-; right; left|]. destruct (truthy _) eqn:Et; intros <-; [by right; right|by right; left].
  - destruct (eqs t "overview") eqn:Eo; cbn [andb].
    + apply eqs_true in Eo as ->. destruct (profile_route p); cbn; [by intros <-; right; left|].
      destruct (isSome _); cbn; [by intros <-; right; left|]. destruct (isSome _); cbn; [by intros <-; right; left|].
      destruct (truthy _) eqn:Et; intros <-; [by right; right|by right; left].
    + rewrite Eo. cbn [andb]. rewrite Eo. cbn [andb]. rewrite Eo. cbn [andb]. intros <-. left. split; [done|].
      intros Hm. rewrite Hm in Em. by destruct m.
Qed.

Lemma account_tab_name p : truthy (accountTabFromPath p) = true → isAccountTab (accountTabFromPath p) = true.
Proof. unfold accountTabFromPath. repeat (destruct (isSome _); [done|]). by destruct (ticketRouteFromPath p). Qed.

Lemma account_tab_unmanaged t : isAccountTab t = true → isManagerTab t = false.
Proof.
  unfold isAccountTab. rewrite existsb_elem. intros (k & Hk & ->%eqs_true).
  apply list_elem_of_fmap in Hk as (n & -> & Hn). rewrite !elem_of_cons in Hn.
  by destruct Hn as [->|[->|[->|Hn%not_elem_of_nil]]].
Qed.

Lemma fixed_unmanaged t : fixed_page t = true → isManagerTab t = false ∧ isAccountTab t = false.
Proof.
  unfold fixed_page. rewrite existsb_elem. intros (k & Hk & ->%eqs_true).
  apply list_elem_of_fmap in Hk as (n & -> & Hn). rewrite !elem_of_cons in Hn.
  by destruct Hn as [->|[->|[->|[->|Hn%not_elem_of_nil]]]].
Qed.

Lemma chosen_routed t p :
  truthy (accountPageFromPath p) = true →
  isManagerTab (chosen t p) = false ∧ isAccountTab (chosen t p) = false ∧ eqs (chosen t p) "overview" = false.
Proof.
  unfold chosen. intros Hp. rewrite Hp. destruct (truthy (legalPageFromPath p)); [done|].
  pose proof (account_page_name p) as Hn. rewrite elem_of_cons, list_elem_of_fmap in Hn. destruct Hn as [E|(n & E & Hn)].
  - by rewrite E in Hp.
  - rewrite E. rewrite !elem_of_cons in Hn. by destruct Hn as [->|[->|[->|[->|Hn%not_elem_of_nil]]]].
Qed.

(** A page that needs a session is only chosen in one. *)
Lemma target_guarded l m t p page :
  target l m t p = Some page →
  (isManagerTab page = true → m = true ∧ truthy (accountPageFromPath p) = false) ∧
  (isAccountTab page = true → l = true) ∧ (edits_profile p = true → l = true).
Proof.
  intros E. pose proof (target_page _ _ _ _ _ E) as Hp. split_and!.
  - intros Hm. destruct Hp as [[-> Hm']|[Hf|[-> Ht]]].
    + split; [by apply Hm'|]. apply not_true_iff_false. intros Ha. destruct (chosen_routed t p Ha) as (H & _). congruence.
    + apply fixed_unmanaged in Hf as [Hf _]. congruence.
    + apply account_tab_name, account_tab_unmanaged in Ht. congruence.
  - intros Ha. destruct l; [done|]. unfold target in E. fold (chosen t p) in E. cbv zeta in E.
    destruct (negb false && (isAccountTab (chosen t p) || _)) eqn:E1; [done|]. apply orb_false_iff in E1 as [E1 E2].
    destruct Hp as [[-> _]|[Hf|[-> Ht]]]; [congruence| |congruence]. apply fixed_unmanaged in Hf as [_ Hf]. congruence.
  - intros He. destruct l; [done|]. unfold target in E. rewrite He in E. cbv zeta in E. cbn [negb andb] in E. by destruct (_ || _).
Qed.

Lemma target_login l m t : target l m t "/account/login" = Some (js "login").
Proof. by destruct l, m. Qed.

(** Sign-in is only asked for elsewhere. *)
Lemma target_none l m t p : target l m t p = None → isLoginPath p = false.
Proof.
  intros E. apply not_true_iff_false. intros Hl. assert (truthy (accountPageFromPath p) = true) as Ha.
  { apply eqs_true in Hl. by rewrite Hl. }
  revert E. unfold target. fold (chosen t p). cbv zeta. destruct (chosen_routed t p Ha) as (_ & -> & _).
  rewrite account_page_no_tab by done. unfold edits_profile. rewrite account_page_no_profile by done. by destruct l.
Qed.

(** The world a switch renders its page in: as it was, or on the way to the sign-in page. *)
Definition redirected (w : world) : world := { w with tab := navigateToLogin lower_wide (Some (current_path w)) true false (tab w) }.

Lemma redirected_here w : isLoginPath (current_path w) = false → current_path (redirected w) = js "/account/login" ∧ (events (tab (redirected w)) =? events (tab w)) = false.
Proof.
  intros Hl. unfold redirected, current_path, navigateToLogin in *. rewrite Hl. split; [done|]. apply Nat.eqb_neq. cbn. lia.
Qed.

Lemma switch_renders n t w :
  switch (S n) t w = match target (signed_in w) (managing w) t (current_path w) with
                     | Some page => render_page page w
                     | None => render_page "login" (redirected w)
                     end.
Proof.
  cbn [switch]. destruct (target _ _ t (current_path w)) as [page|] eqn:E; [done|].
  destruct (redirected_here w (target_none _ _ _ _ E)) as [Hh He]. unfold redirected in Hh, He. cbv zeta.
  change (tab { w with tab := ?v }) with v in He. rewrite He.
  destruct n; cbn [switch]; rewrite Hh, target_login; done.
Qed.

Lemma switch_fuel n t w : switch (S n) t w = switchTab t w.
Proof. unfold switchTab. by rewrite !switch_renders. Qed.

(** ** Pages for those they are for *)

(** Calls that need the session they are made in. *)
Definition call_ok (c : caches) (k : call) : Prop :=
  match k with
  | Start_refresh | Init_settings | Init_repositories | Fetch_tokens => isManager c = true
  | Load_domain_center | Load_team_center | Load_tickets => isLoggedIn c = true
  | Setup_profile (Some s) => s = js "edit" → isLoggedIn c = true
  | _ => True
  end.

Record guarded (w : world) : Prop := {
  g_manager : isManagerTab (shown w) = true → managing w = true ∧ getItem (js "selectedTab") (sess w) = shown w;
  g_account : isAccountTab (shown w) = true → signed_in w = true;
  g_edit : section w = Some (js "edit") → signed_in w = true;
  g_refresh : refreshing w = true → shown w = js "dashboard";
  g_calls : Forall (call_ok (held (sess w))) (calls w)
}.

Lemma render_held t w : held (sess (render_page t w)) = held (sess w).
Proof. pose proof (keeps_seen _ _ (render_keeps t w)) as E. by injection E. Qed.

Lemma manager_tab_stored t : isManagerTab t = true → unstored t = false.
Proof.
  unfold isManagerTab. rewrite existsb_elem. intros (k & Hk & ->%eqs_true).
  apply list_elem_of_fmap in Hk as (n & -> & Hn). rewrite !elem_of_cons in Hn.
  by destruct Hn as [->|[->|[->|[->|Hn%not_elem_of_nil]]]].
Qed.

Lemma loader_ok c t p :
  (isManagerTab t = true → isManager c = true) → (isAccountTab t = true → isLoggedIn c = true) →
  (edits_profile p = true → isLoggedIn c = true) → Forall (call_ok c) (loader t p).1.
Proof.
  intros Hm Ha He. unfold loader.
  repeat (destruct (eqs t _) eqn:E; [apply eqs_true in E as ->; repeat constructor; cbn; auto|clear E]); [|done].
  unfold edits_profile in He. destruct (profile_section p) as [s|]; [|done]. intros ->. by apply He, bool_decide_eq_true.
Qed.

Lemma render_guarded t w :
  (isManagerTab t = true → managing w = true ∧ truthy (accountPageFromPath (current_path w)) = false) →
  (isAccountTab t = true → signed_in w = true) → (edits_profile (current_path w) = true → signed_in w = true) →
  Forall (call_ok (held (sess w))) (calls w) → guarded (render_page t w).
Proof.
  intros Hm Ha He Hc. destruct (render_fields t w) as (Es & _ & Er & Ese).
  split; unfold managing, signed_in; rewrite ?Es, ?Er, ?Ese, ?render_held.
  - intros Ht. destruct (Hm Ht) as [Hman Hp]. split; [done|]. rewrite render_sess. cbv zeta.
    assert (stores t w = true) as -> by (unfold stores; by rewrite Hp, manager_tab_stored). unfold getItem. cbn. by rewrite lookup_insert_eq.
  - apply Ha.
  - destruct (eqs t "profile"); [|done]. intros E. apply He. by apply bool_decide_eq_true.
  - apply eqs_true.
  - pose proof (loader_ok (held (sess w)) t (current_path w) (λ H, proj1 (Hm H)) Ha He) as Hl.
    assert (call_ok (held (sess w)) (if eqs t "dashboard" then Start_refresh else Stop_refresh)) as Hd.
    { destruct (eqs t "dashboard") eqn:E; [|done]. apply eqs_true in E as ->. by apply Hm. }
    unfold render_page. cbv zeta. destruct (loader t (current_path w)) as [cs aw]; cbn [fst snd] in *.
    destruct aw, (truthy _), (unstored t); cbn; rewrite !Forall_app; split_and!; try done; repeat constructor; try done;
      destruct (eqs t "login"), (eqs t "registration"); by repeat constructor.
Qed.

Lemma switch_guarded t w : Forall (call_ok (held (sess w))) (calls w) → guarded (switchTab t w).
Proof.
  intros Hc. unfold switchTab. rewrite switch_renders. destruct (target _ _ t (current_path w)) as [page|] eqn:E.
  - destruct (target_guarded _ _ _ _ _ E) as (H1 & H2 & H3). by apply render_guarded.
  - destruct (redirected_here w (target_none _ _ _ _ E)) as [Hh _].
    apply render_guarded; [done|done| |done]. rewrite Hh. done.
Qed.

(** The navigations: each keeps the page, or switches with the calls so far. *)
Lemma navigated_guarded nav w : guarded w → guarded (navigated nav w).
Proof.
  intros Hg. unfold navigated. cbv zeta. destruct (_ =? _); [|apply switch_guarded, Hg]. destruct Hg. by split.
Qed.

Lemma navigateHome_guarded r w : guarded w → guarded (navigateHome r w).
Proof. intros Hg. unfold navigateHome. apply switch_guarded. destruct (on_path "/" w); apply Hg. Qed.

Lemma visit_guarded path w : guarded w → guarded (visit_path path w).
Proof. intros Hg. unfold visit_path. apply switch_guarded. destruct (on_path path w); apply Hg. Qed.

Lemma route_denied_guarded status w : guarded w → guarded (route_denied status w).
Proof.
  intros Hg. unfold route_denied. destruct (_ && _); [done|]. destruct (_ =? _)%Z; [by apply navigated_guarded|by apply navigateHome_guarded].
Qed.

Lemma modify_guarded f w :
  (∀ a, held (f a) = held a ∧ getItem (js "selectedTab") (f a) = getItem (js "selectedTab") a) →
  guarded w → guarded (modify f w).
Proof.
  intros Hf []. destruct (Hf (sess w)) as [H1 H2].
  split; unfold managing, signed_in in *; change (sess (modify f w)) with (f (sess w)); rewrite ?H1, ?H2; done.
Qed.

Lemma update_guarded logged ps rs w :
  calls w = [] → guarded w → guarded (updateAuthUI logged (isManagerFromSession ps) ps rs w).
Proof.
  intros Hc Hg. unfold updateAuthUI. set (c := if _ && _ && _ then _ else _) in *. cbv zeta.
  set (w1 := modify _ w) in *. assert (calls w1 = []) as Hc1 by done.
  destruct (negb logged || _) eqn:E.
  { apply switch_guarded. cbn. by rewrite Hc. }
  apply orb_false_iff in E as [El E]. destruct logged; [|done].
  assert (signed_in w1 = true) as Hl
    by (unfold signed_in, w1, c; cbn; by destruct (bool_decide _ && _)).
  split; [|done|done|apply Hg|by rewrite Hc1]. intros Hm.
  change (shown w1) with (shown w) in *. destruct (g_manager _ Hg Hm) as [_ Hsel].
  assert (getItem (js "selectedTab") (Auth.session w1) = shown w) as Es by exact Hsel.
  rewrite Es in E. unfold str_or in E. assert (truthy (shown w) = true) as Ht by (destruct (shown w); [by vm_compute in Hm|done]).
  rewrite Ht, Hm in E. cbn [andb] in E. apply negb_false_iff in E. split; [exact E|exact Hsel].
Qed.

Lemma update_none_guarded logged w : calls w = [] → guarded w → guarded (updateAuthUI logged false [] [] w).
Proof. exact (update_guarded logged [] [] w). Qed.

Lemma set_username_selected v a : getItem (js "selectedTab") (setItem (js "username") v a) = getItem (js "selectedTab") a.
Proof. unfold getItem, setItem. cbn. by rewrite lookup_insert_ne. Qed.

Lemma remove_selected k a : k ≠ js "selectedTab" → getItem (js "selectedTab") (removeItem k a) = getItem (js "selectedTab") a.
Proof. intros Hk. unfold getItem, removeItem. cbn. by rewrite lookup_delete_ne. Qed.

Lemma logout_guarded r w : guarded w → guarded (logout r w).
Proof.
  intros Hg. unfold logout. cbv zeta. destruct (logoutPromise _); [|apply modify_guarded; [done|]]; by apply route_denied_guarded.
Qed.

Lemma completeLogin_guarded name fallback ps rs w :
  calls w = [] → guarded w → guarded (completeLogin name fallback ps rs w).
Proof.
  intros Hc Hg. unfold completeLogin. apply navigated_guarded, modify_guarded; [done|]. apply update_guarded; [done|].
  apply modify_guarded; [|done]. intros a. split; [done|]. by rewrite set_username_selected, !remove_selected.
Qed.

Lemma modify_calls f w :
  (∀ a, held (f a) = held a) → Forall (call_ok (held (sess w))) (calls w) →
  Forall (call_ok (held (sess (modify f w)))) (calls (modify f w)).
Proof. intros Hf. change (sess (modify f w)) with (f (sess w)). by rewrite Hf. Qed.

Lemma stop_guarded w : guarded w → guarded (stopDashboardRefresh w).
Proof. intros []. split; try done. apply Forall_app. split; [done|by repeat constructor]. Qed.

Lemma logout_answered_guarded w w' : calls w = [] → guarded w → logout_answered w = Some w' → guarded w'.
Proof.
  intros Hc Hg. unfold logout_answered. destruct (logoutPromise _) as [[r was]|]; [|done]. intros E. apply (inj Some) in E. subst w'.
  apply modify_guarded; [done|]. apply switch_guarded, modify_calls; [done|]. apply g_calls, stop_guarded, modify_guarded; [done|].
  apply update_none_guarded; [done|]. apply modify_guarded; [|done]. intros a. split; [done|]. by rewrite !remove_selected.
Qed.

Lemma session_guarded e w w' : calls w = [] → guarded w → Auth.exec e w = Some w' → guarded w'.
Proof.
  intros Hc Hg He.
  destruct e; cbn [Auth.exec] in He; [apply (inj Some) in He as <-| |apply (inj Some) in He as <-| |apply (inj Some) in He as <-..].
  - unfold initializeSession. apply modify_guarded; [|done]. intros a. cbv zeta. split; [done|].
    transitivity (getItem (js "selectedTab") (removeItem (js "session-token") a)); [done|by apply remove_selected].
  - unfold session_answered in He. destruct (starting _) as [was|]; [|done]. apply (inj Some) in He as <-. cbv zeta.
    assert (guarded (modify (λ a, { a with starting := None }) w)) as Hg1 by by apply modify_guarded.
    destruct m as [name ps rs|status|]; [| |by apply update_none_guarded].
    + apply update_guarded; [by destruct (truthy _)|]. destruct (truthy _); [|done]. apply modify_guarded; [|done].
      intros a. split; [done|apply set_username_selected].
    + destruct (status =? 401)%Z; [destruct was; [by apply logout_guarded|]|]; by apply update_none_guarded.
  - by apply logout_guarded.
  - by eapply logout_answered_guarded.
  - by apply modify_guarded.
  - destruct r; cbn [login_answered]; [by apply completeLogin_guarded|done|by apply modify_guarded|by apply modify_guarded].
  - by apply completeLogin_guarded.
  - unfold handleAuthFailure. destruct (_ || _); [by apply logout_guarded|done].
  - unfold exitProtectedRouteOnDenial. destruct (_ && _); [done|by apply route_denied_guarded].
Qed.

Lemma menu_guarded i w : guarded w → guarded (menu_clicked i w).
Proof.
  intros Hg. destruct i; cbn [menu_clicked].
  - destruct (eqs t "overview"); [by apply navigateHome_guarded|]. destruct (negb _); [done|].
    apply switch_guarded. destruct (_ || _); apply Hg.
  - destruct (profile_path _ _); [|done]. destruct (eqs _ _); [done|]. apply switch_guarded, Hg.
  - destruct (signed_in w); [by apply visit_guarded|done].
  - by apply visit_guarded.
  - by apply visit_guarded.
  - done.
Qed.

Lemma ready_guarded w : guarded w → guarded (application_ready w).
Proof.
  intros Hg. unfold application_ready. cbv zeta. apply switch_guarded.
  set (w1 := if _ && _ && _ && _ then leave w else w).
  assert (guarded w1) as Hg1 by (subst w1; destruct (_ && _ && _ && _); [by apply navigated_guarded|done]).
  match goal with |- Forall _ (calls (if ?b then _ else _)) => destruct b end; apply Hg1.
Qed.

Lemma handle_guarded e w w' : calls w = [] → guarded w → handle e w = Some w' → guarded w'.
Proof.
  intros Hc Hg He.
  destruct e; cbn [handle] in He; [by eapply session_guarded|apply (inj Some) in He as <-..|].
  - by apply ready_guarded.
  - apply switch_guarded. cbn. by rewrite Hc.
  - by apply navigated_guarded.
  - destruct (eqs _ _); [done|]. apply switch_guarded. destruct (_ || _); apply Hg.
  - by apply menu_guarded.
  - by apply visit_guarded.
  - by apply navigateHome_guarded.
  - unfold languageChanged. cbv zeta. assert (guarded (switchTab (current_tab w) w)) as Hs by apply switch_guarded, Hg.
    destruct (eqs _ _); [|done]. destruct Hs. split; [done..|]. cbn. apply Forall_app. split; [done|by repeat constructor].
  - destruct (loading w !! k) as [t|]; [|done]. apply (inj Some) in He as <-. destruct Hg. by split.
Qed.

(** C2: Whatever the user opens, in whatever order sessions begin and end and requests are answered: the pages of
    management are shown, their lists fresh and the dashboard refreshed for managers only; the
    pages of the account and the editor of the profile only with a session. A page that needs one leads to the
    sign-in page at once, with a single redirection. *)
Theorem guarded_pages w :
  reachable init step w →
  (isManagerTab (shown w) = true → managing w = true) ∧
  (isAccountTab (shown w) = true → signed_in w = true) ∧
  (section w = Some (js "edit") → signed_in w = true) ∧
  (refreshing w = true → managing w = true) ∧
  Forall (call_ok (held (sess w))) (calls w) ∧
  (∀ fuel t, switch (S fuel) t w = switchTab t w) ∧
  (∀ t, target (signed_in w) (managing w) t (current_path w) = None →
     shown (switchTab t w) = js "login" ∧ current_path (switchTab t w) = js "/account/login").
Proof.
  intros Hr. assert (guarded w) as Hg.
  { revert w Hr. apply invariant_reachable.
    - intros w (nav & kept & ->). by split.
    - intros w w' Hg [e He]. eapply handle_guarded; [|..|exact He]; [done|]. destruct Hg. by split. }
  split_and!.
  - intros Hm. by apply (g_manager _ Hg).
  - apply (g_account _ Hg).
  - apply (g_edit _ Hg).
  - intros Hrf. apply (g_manager _ Hg). by rewrite (g_refresh _ Hg Hrf).
  - apply (g_calls _ Hg).
  - intros fuel t. apply switch_fuel.
  - intros t Ht. unfold switchTab. rewrite switch_renders, Ht. destruct (render_fields "login" (redirected w)) as (-> & E & _).
    split; [done|]. unfold current_path. rewrite E. apply (redirected_here w (target_none _ _ _ _ Ht)).
Qed.

(** ** Signing in again after a session has ended *)

Lemma switch_at_login t w : current_path w = js "/account/login" → switchTab t w = render_page "login" w.
Proof. intros Hh. unfold switchTab. by rewrite switch_renders, Hh, target_login. Qed.

Lemma update_at_login l m ps rs w :
  current_path w = js "/account/login" →
  tab (updateAuthUI l m ps rs w) = tab w ∧ (shown w = js "login" → shown (updateAuthUI l m ps rs w) = js "login").
Proof.
  intros Hh. unfold updateAuthUI. cbv zeta. match goal with |- context [if ?b then Auth.switchTab _ ?v else ?u] => set (c := b); set (w1 := v) end.
  destruct c; [|done]. change (Auth.switchTab "overview" w1) with (switchTab "overview" w1).
  assert (current_path w1 = js "/account/login") as Hw by exact Hh. rewrite (switch_at_login _ _ Hw).
  destruct (render_fields "login" w1) as (-> & -> & _). done.
Qed.

(** The page a location is redirected from is the page that signing in leads to. *)
Lemma leave_redirected w :
  isLoginPath (current_path w) = false →
  LoginRoute.leaveLoginPage lower_wide (tab (redirected w)) =
    {| current := {| pathname := safeLoginReturnTo lower_wide (Some (current_path w)); params := [] |};
       back := back (tab w); events := S (S (events (tab w))) |}.
Proof.
  intros Hl. set (nav := navigateToLogin lower_wide (Some (current_path w)) false false (tab w)).
  assert (current (tab (redirected w)) = current nav ∧ back (tab (redirected w)) = back (tab w) ∧ events (tab (redirected w)) = S (events (tab w)))
    as (Hc & Hb & He) by (unfold nav, redirected, navigateToLogin, current_path in *; cbn [tab]; by rewrite Hl).
  destruct (login_round_trip lower_wide (Some (current_path w)) false (tab w) Hl) as [H1 E]. fold nav in H1, E. revert E.
  unfold LoginRoute.leaveLoginPage. rewrite Hc, Hb, He, H1. by intros [= ->].
Qed.

Lemma logout_redirects r w :
  r = Expired ∨ r = Kicked → truthy (accountPageFromPath (current_path w)) = false →
  tab (logout r w) = tab (redirected w) ∧ (logoutPromise (sess w) = None → isSome (logoutPromise (sess (logout r w))) = true).
Proof.
  intros Hr Hp. assert (isLoginPath (current_path w) = false) as Hl by (unfold isLoginPath; by apply truthy_false in Hp as ->).
  destruct (redirected_here w Hl) as [Hh He].
  assert (route_denied 401 w = render_page "login" (redirected w)) as Ed.
  { unfold route_denied. rewrite Hp. cbn [Z.eqb andb]. unfold navigated. fold (redirected w). cbv zeta.
    change (events (navigateToLogin _ _ _ _ _)) with (events (tab (redirected w))). rewrite He. by apply switch_at_login. }
  unfold logout. cbv zeta.
  assert (requestProtectedRouteExit (match r with Expired | Kicked => 401 | _ => 0 end)%Z w = render_page "login" (redirected w)) as ->
    by (destruct Hr as [-> | ->]; exact Ed).
  assert (tab (render_page "login" (redirected w)) = tab (redirected w)) as Et by apply render_fields.
  pose proof (keeps_logout _ _ (render_keeps "login" (redirected w))) as (Elp & _).
  revert Et Elp. generalize (render_page "login" (redirected w)). intros v Et Elp.
  change (Auth.session v) with (sess v). destruct (logoutPromise (sess v)) as [x|] eqn:E; (split; [exact Et|]); [|done].
  intros Hn. change (sess (redirected w)) with (sess w) in Elp. congruence.
Qed.

Lemma leave_session w :
  held (sess (leave w)) = held (sess w) ∧ getItem (js "username") (sess (leave w)) = getItem (js "username") (sess w).
Proof.
  pose proof (navigated_keeps (LoginRoute.leaveLoginPage lower_wide (tab w)) w) as Hk. fold (leave w) in Hk.
  split; [by apply keeps_held|by apply keeps_items].
Qed.

#[local] Opaque render_page switchTab updateAuthUI.

(** The operations of the host, in the shell's own terms. *)
Lemma tab_modify f w : tab (modify f w) = tab w. Proof. done. Qed.
Lemma shown_modify f w : shown (modify f w) = shown w. Proof. done. Qed.
Lemma sess_modify f w : sess (modify f w) = f (sess w). Proof. done. Qed.
Lemma here_modify f w : current_path (modify f w) = current_path w. Proof. done. Qed.
Lemma items_alert k x w : getItem k (sess (modify (λ a, { a with alerts := alerts a ++ x }) w)) = getItem k (sess w). Proof. done. Qed.
Lemma tab_stop w : tab (stopDashboardRefresh w) = tab w. Proof. done. Qed.
Lemma host_switch t w : Auth.switchTab t w = switchTab t w. Proof. done. Qed.
Lemma host_leave w : Auth.leaveLoginPage w = leave w. Proof. done. Qed.
Lemma host_session w : Auth.session w = sess w. Proof. done. Qed.

Lemma logout_answered_at_login w :
  current_path w = js "/account/login" → isSome (logoutPromise (sess w)) = true →
  ∃ w', logout_answered w = Some w' ∧ tab w' = tab w ∧ shown w' = js "login".
Proof.
  intros Hh Hp. unfold logout_answered. rewrite host_session. destruct (logoutPromise (sess w)) as [[r was]|]; [|done].
  eexists. split; [reflexivity|]. rewrite tab_modify, shown_modify, host_switch.
  match goal with |- context [switchTab _ ?v] => assert (tab v = tab w) as Hv end.
  { rewrite tab_modify, tab_stop, tab_modify. match goal with |- tab (updateAuthUI ?l ?m ?p ?s ?v) = _ =>
      assert (current_path v = js "/account/login") as H1 by (by rewrite here_modify); rewrite (proj1 (update_at_login l m p s v H1)) end.
    by rewrite tab_modify. }
  rewrite switch_at_login by (unfold current_path; by rewrite Hv).
  match goal with |- context [render_page ?t ?v] => destruct (render_fields t v) as (-> & -> & _) end. by rewrite Hv.
Qed.

Lemma leave_at_login w :
  current_path w = js "/account/login" →
  let nav := LoginRoute.leaveLoginPage lower_wide (tab w) in
  leave w = switchTab (popstate_tab (pathname (current nav))) { w with tab := nav }.
Proof.
  intros Hh. cbv zeta. unfold leave, navigated. cbv zeta.
  replace (events (LoginRoute.leaveLoginPage lower_wide (tab w)) =? events (tab w)) with false; [done|].
  symmetry. apply Nat.eqb_neq. unfold LoginRoute.leaveLoginPage. change (pathname (current (tab w))) with (current_path w). rewrite Hh.
  change (isLoginPath (js "/account/login")) with true. cbv iota. cbn [events]. lia.
Qed.

Lemma switch_signed_in t w :
  signed_in w = true → tab (switchTab t w) = tab w ∧ target true (managing w) t (current_path w) = Some (shown (switchTab t w)).
Proof.
  intros Hs. assert (∃ page, target true (managing w) t (current_path w) = Some page) as [page E] by by eexists.
  assert (switchTab t w = render_page page w) as -> by (rewrite <- (switch_fuel 0), switch_renders, Hs, E; done).
  destruct (render_fields page w) as (-> & -> & _). done.
Qed.

(** [completeLogin] before it leaves the page. *)
Definition logged_in (name : jsstring) (ps : list permission) (rs : list (option Auth.route)) (w : world) : world :=
  modify (λ a, { a with alerts := alerts a ++ [js "login.welcomeBack"] })
    (updateAuthUI true (isManagerFromSession ps) ps rs
      (modify (λ a, setItem (js "username") name (removeItem (js "session-token")
                      (removeItem (js "token-secret") (removeItem (js "token-name") a)))) w)).

Lemma completeLogin_eq name fallback ps rs w :
  completeLogin name fallback ps rs w = leave (logged_in (str_or name fallback) ps rs w).
Proof. unfold completeLogin, logged_in. cbv zeta. by rewrite host_leave. Qed.

Lemma logged_in_tab name ps rs w : current_path w = js "/account/login" → tab (logged_in name ps rs w) = tab w.
Proof.
  intros Hh. unfold logged_in. rewrite tab_modify. match goal with |- tab (updateAuthUI ?l ?m ?p ?s ?v) = _ =>
    assert (current_path v = js "/account/login") as H1 by (by rewrite here_modify); rewrite (proj1 (update_at_login l m p s v H1)) end.
  by rewrite tab_modify.
Qed.

Lemma logged_in_username name ps rs w : getItem (js "username") (sess (logged_in name ps rs w)) = name.
Proof.
  unfold logged_in. rewrite items_alert. match goal with |- context [updateAuthUI ?l ?m ?p ?s ?v] =>
    pose proof (update_items (host := shell_host) l m p s v (js "username") ltac:(done)) as E; rewrite !host_session in E end.
  rewrite E, sess_modify. unfold getItem, setItem. cbn. by rewrite lookup_insert_eq.
Qed.

Lemma logged_in_held name ps rs w : held (sess (logged_in name ps rs w)) = applySessionCaches true ps rs.
Proof.
  unfold logged_in. match goal with |- context [updateAuthUI _ _ _ _ ?v] =>
    pose proof (update_seen (host := shell_host) true ps rs v) as E; rewrite host_session in E end.
  apply (f_equal (λ x, x.1.1.1)) in E. rewrite sess_modify. exact E.
Qed.

#[local] Opaque logged_in.

(** Signing in on the sign-in page: the page it returns to is rendered for the new session. *)
Lemma completeLogin_at_login name fallback ps rs w :
  current_path w = js "/account/login" →
  let nav := LoginRoute.leaveLoginPage lower_wide (tab w) in
  let w' := completeLogin name fallback ps rs w in
  tab w' = nav ∧ held (sess w') = applySessionCaches true ps rs ∧ getItem (js "username") (sess w') = str_or name fallback ∧
  target true (managing w') (popstate_tab (pathname (current nav))) (pathname (current nav)) = Some (shown w').
Proof.
  intros Hh. cbv zeta. rewrite completeLogin_eq.
  pose proof (logged_in_tab (str_or name fallback) ps rs w Hh) as Ht.
  pose proof (logged_in_username (str_or name fallback) ps rs w) as Hu.
  pose proof (logged_in_held (str_or name fallback) ps rs w) as Hheld.
  revert Ht Hu Hheld. generalize (logged_in (str_or name fallback) ps rs w). intros v Ht Hu Hheld.
  destruct (leave_session v) as [Hk Ek]. assert (managing (leave v) = managing v) as -> by (unfold managing; by rewrite Hk).
  rewrite Hk, Ek, <- Ht. assert (current_path v = js "/account/login") as Hv by (unfold current_path; by rewrite Ht).
  rewrite (leave_at_login v Hv). generalize (LoginRoute.leaveLoginPage lower_wide (tab v)). intros nav.
  assert (signed_in { v with tab := nav } = true) as Hs by (change (isLoggedIn (held (sess v)) = true); by rewrite Hheld).
  destruct (switch_signed_in (popstate_tab (pathname (current nav))) { v with tab := nav } Hs) as [E1 E2].
  rewrite E1. split_and!; [done|done|done|exact E2].
Qed.

(** C8: When the server ends a session, the page is replaced by the sign-in page; once the end is acknowledged,
    nothing of the session is left; and signing in again there leads back to the path that was left (when it
    is one of this site), without an entry added to the history, and shows the page this path stands for, as a visitor with the
    permissions of the new session sees it. What has no path of its own does not come back: the dashboard opened at the root path
    becomes the overview. *)
Theorem ended_session_returns w r name ps rs :
  r = Expired ∨ r = Kicked → logoutPromise (sess w) = None → truthy (accountPageFromPath (current_path w)) = false →
  ∃ w1 w2 w3,
    handle (Of_session (Logout r)) w = Some w1 ∧ current_path w1 = js "/account/login" ∧
    handle (Of_session Logout_answered) w1 = Some w2 ∧ shown w2 = js "login" ∧
    held (sess w2) = applySessionCaches false [] [] ∧
    handle (Of_session (Login_answered name (Login_session name ps rs))) w2 = Some w3 ∧
    current_path w3 = safeLoginReturnTo lower_wide (Some (current_path w)) ∧ back (tab w3) = back (tab w) ∧
    held (sess w3) = applySessionCaches true ps rs ∧ getItem (js "username") (sess w3) = name ∧
    target true (managing w3) (popstate_tab (current_path w3)) (current_path w3) = Some (shown w3).
Proof.
  intros Hr Hn Hp. assert (isLoginPath (current_path w) = false) as Hl by (unfold isLoginPath; by apply truthy_false in Hp as ->).
  destruct (logout_redirects r w Hr Hp) as [Ht1 Hp1]. specialize (Hp1 Hn).
  assert (current_path (logout r w) = js "/account/login") as Hh1 by (unfold current_path; rewrite Ht1; apply (redirected_here w Hl)).
  destruct (logout_answered_at_login _ Hh1 Hp1) as (w2 & E2 & Ht2 & Hs2).
  pose proof (logout_answered_seen _ _ E2) as Hseen. rewrite host_session in Hseen. apply (f_equal (λ x, x.1.1.1)) in Hseen.
  assert (current_path w2 = js "/account/login") as Hh2 by (unfold current_path; by rewrite Ht2).
  exists (logout r w), w2, (completeLogin name name ps rs w2).
  destruct (completeLogin_at_login name name ps rs w2 Hh2) as (Ht3 & Hheld & Hu & Ht).
  rewrite Ht2, Ht1, (leave_redirected w Hl) in Ht3, Ht. unfold current_path at 2 4 5. rewrite Ht3. cbn [current pathname back] in *.
  split_and!; try done. rewrite Hu. unfold str_or. by destruct name.
Qed.

End shell.

(** ** Examples *)

Definition tab_at (s : string) : LoginRoute.tab := {| current := {| pathname := js s; params := [] |}; back := []; events := 0 |}.

Fixpoint run `{PathParser} (es : list event) (w : world) : option world :=
  match es with [] => Some w | e :: es => w' ← handle (λ p, [p]) (λ _, true) (λ _, true) e { w with calls := [] }; run es w' end.

Definition visits (s : string) (es : list event) : option world := run es (opened (tab_at s) ∅).

Lemma visits_reachable s es w : visits s es = Some w → reachable init (step (λ p, [p]) (λ _, true) (λ _, true)) w.
Proof.
  unfold visits. assert (reachable init (step (λ p, [p]) (λ _, true) (λ _, true)) (opened (tab_at s) ∅)) as H
    by (apply reachable_init; by eexists _, _).
  revert H. generalize (opened (tab_at s) ∅). induction es as [|e es IH]; intros a Ha; cbn [run].
  - by intros [= <-].
  - destruct (handle _ _ _ e _) as [b|] eqn:E; [|done]. apply IH. eapply reachable_step; [done|]. by exists e.
Qed.

Definition session_of (ids : list string) : me_answer := Me_session "root" ((λ s, PermText (js s)) <$> ids) [].
Definition start_events (ids : list string) : list event := [Of_session Start; Of_session (Session_answered (session_of ids)); Ready].

(** A manager opens the dashboard; the session ends; the menu of teams leads to the sign-in page. *)
Example dashboard_and_out :
  (λ w, (shown w, refreshing w)) <$> visits "/" (start_events ["manager"] ++ [Menu_clicked (Menu_tab "dashboard")]) = Some (js "dashboard", true)
  ∧ (λ w, (shown w, refreshing w, current_path w)) <$> visits "/" (start_events ["manager"] ++
      [Menu_clicked (Menu_tab "dashboard"); Of_session (Logout Manual); Of_session Logout_answered; Menu_clicked Menu_teams])
    = Some (js "login", false, js "/account/login").
Proof. split; vm_compute; reflexivity. Qed.

(** The dashboard has no path of its own: after the end of the session the sign-in leads to the overview. *)
Example dashboard_has_no_path :
  (λ w, (shown w, current_path w)) <$> visits "/" (start_events ["manager"] ++ [Menu_clicked (Menu_tab "dashboard"); Of_session (Logout Expired);
    Of_session Logout_answered; Of_session (Login_answered "root" (Login_session "root" [PermText (js "manager")] []))]) = Some (js "overview", js "/").
Proof. vm_compute. reflexivity. Qed.

Example others_see_no_settings : shown <$> visits "/" (start_events ["canupdate:*"] ++ [Tab_clicked "settings"]) = Some (js "overview").
Proof. vm_compute. reflexivity. Qed.

Example team_routes :
  superTeamRouteFromPath (λ _, true) "/account/teams/My%2DTeam//" = Some (Center_of "my-team")
  ∧ superTeamRouteFromPath (λ _, true) "/account/teams/a" = None
  ∧ publicSuperTeamRouteFromPath (λ _, true) "/team/my-team" = Some (Center_of "my-team")
  ∧ mavenDomainRouteFromPath (λ _, true) "/account/maven-domains/" = Some Center_list.
Proof. repeat split; vm_compute; reflexivity. Qed.

(** The profile is still loading when the dashboard is opened: its end marks the profile in the menu. *)
Example menu_marks_a_page_left :
  (λ w, (shown w, menu w)) <$> visits "/user/root" (start_events ["manager"] ++ [Menu_clicked (Menu_tab "dashboard"); Loaded 0])
  = Some (js "dashboard", (js "profile", js "/")).
Proof. vm_compute. reflexivity. Qed.

Lemma guarded_pages_witness :
  (λ w, (shown w, managing w)) <$> visits "/" (start_events ["manager"] ++ [Menu_clicked (Menu_tab "users")]) = Some (js "users", true) ∧
  (∀ w, visits "/" (start_events ["manager"] ++ [Menu_clicked (Menu_tab "users")]) = Some w →
     isManagerTab (shown w) = true → managing w = true).
Proof.
  split; [vm_compute; reflexivity|]. intros w Hw. exact (proj1 (guarded_pages _ _ _ w (visits_reachable _ _ _ Hw))).
Defined.

Definition profile_world : world := opened (tab_at "/user/root/maven") ∅.

Lemma ended_session_returns_witness :
  (truthy (accountPageFromPath (current_path profile_world)) = false ∧ safeLoginReturnTo (λ p, [p]) (Some (current_path profile_world)) = current_path profile_world) ∧
  ∃ w1 w2 w3,
    handle (λ p, [p]) (λ _, true) (λ _, true) (Of_session (Logout Kicked)) profile_world = Some w1 ∧
    handle (λ p, [p]) (λ _, true) (λ _, true) (Of_session Logout_answered) w1 = Some w2 ∧
    handle (λ p, [p]) (λ _, true) (λ _, true) (Of_session (Login_answered "root" (Login_session "root" [] []))) w2 = Some w3 ∧
    current_path w3 = current_path profile_world.
Proof.
  split; [split; vm_compute; reflexivity|].
  destruct (ended_session_returns (λ p, [p]) (λ _, true) (λ _, true) profile_world Kicked "root" [] [])
    as (w1 & w2 & w3 & H1 & _ & H2 & _ & _ & H3 & H4 & _); [by right|reflexivity|vm_compute; reflexivity|].
  exists w1, w2, w3. repeat (split; [done|]). rewrite H4. vm_compute. reflexivity.
Defined.
