(* ===== verification/Sorting.v ===== *)
(** * Sorting with a comparator

    [Array.prototype.sort] is stable, and its result is determined when the comparator is
    consistent, that is, a total preorder given by signs. [sort_by] is that result; for an inconsistent
    comparator it is one of the orders an engine may return. *)

From S2P Require Import Prelude.
From Stdlib Require Import Sorted Permutation.

Section sort_by.
Context {A : Type} (cmp : A → A → Z).

(** [x] stood before the elements of [l]. *)
Fixpoint insert_by (x : A) (l : list A) : list A :=
  match l with
  | [] => [x]
  | y :: l' => if (cmp x y <=? 0)%Z then x :: l else y :: insert_by x l'
  end.

Definition sort_by (l : list A) : list A := foldr insert_by [] l.

Lemma insert_by_perm x l : insert_by x l ≡ₚ x :: l.
Proof.
  induction l as [|y l IH]; simpl; [done|]. split_if; [done|]. rewrite IH. apply perm_swap.
Qed.

Lemma sort_by_perm l : sort_by l ≡ₚ l.
Proof. induction l as [|x l IH]; simpl; [done|]. by rewrite insert_by_perm, IH. Qed.

Lemma elem_of_sort_by x l : x ∈ sort_by l ↔ x ∈ l.
Proof. by rewrite sort_by_perm. Qed.
End sort_by.

(** ** Consistent comparators *)

Definition le_by {A} (cmp : A → A → Z) (a b : A) : Prop := (cmp a b ≤ 0)%Z.

(** On the elements that satisfy [P]: exchanging the arguments exchanges the sign, and the order is
    transitive. *)
Definition consistent {A} (P : A → Prop) (cmp : A → A → Z) : Prop :=
  (∀ a b, P a → P b → Z.sgn (cmp b a) = - Z.sgn (cmp a b))%Z ∧
  (∀ a b c, P a → P b → P c → le_by cmp a b → le_by cmp b c → le_by cmp a c).

Section consistent.
Context {A : Type} (P : A → Prop).

Lemma consistent_sym cmp a b : consistent P cmp → P a → P b → (cmp b a ≤ 0 ↔ 0 ≤ cmp a b)%Z.
Proof. intros [H _] Ha Hb. specialize (H a b Ha Hb). destruct (cmp a b), (cmp b a); simpl in *; lia. Qed.

Lemma consistent_zero cmp a b : consistent P cmp → P a → P b → (cmp b a = 0 ↔ cmp a b = 0)%Z.
Proof. intros [H _] Ha Hb. specialize (H a b Ha Hb). destruct (cmp a b), (cmp b a); simpl in *; lia. Qed.

Lemma sort_by_sorted cmp l :
  consistent P cmp → Forall P l → StronglySorted (le_by cmp) (sort_by cmp l).
Proof.
  intros Hc. induction 1 as [|x l Hx Hl IH]; simpl; [constructor|].
  assert (Forall P (sort_by cmp l)) as HP by (by rewrite sort_by_perm).
  induction IH as [|y k Hk IHk Hy]; simpl; [by repeat constructor|].
  apply Forall_cons in HP as [Py Pk]. destruct (cmp x y <=? 0)%Z eqn:E; bool_prop.
  - constructor; [by constructor|]. constructor; [done|].
    rewrite Forall_forall in Hy, Pk |- *. intros z Hz. apply (proj2 Hc x y z); auto.
  - constructor; [by apply IHk|]. rewrite insert_by_perm. constructor; [|done].
    apply (consistent_sym cmp x y); auto. lia.
Qed.

Lemma consistent_opp cmp : consistent P cmp → consistent P (λ a b, - cmp a b)%Z.
Proof.
  intros H. split.
  - intros a b Ha Hb. rewrite !Z.sgn_opp. rewrite (proj1 H a b Ha Hb). lia.
  - intros a b c Ha Hb Hc. unfold le_by. intros H1 H2.
    assert (cmp c a ≤ 0)%Z; [|apply (consistent_sym cmp a c) in H0; auto; lia].
    apply (proj2 H c b a); auto; unfold le_by; apply consistent_sym; auto; lia.
Qed.

(** Equality of the ends of a chain is equality along the chain. *)
Lemma consistent_squeeze cmp a b c :
  consistent P cmp → P a → P b → P c → le_by cmp a b → le_by cmp b c → (cmp a c = 0)%Z →
  (cmp a b = 0 ∧ cmp b c = 0)%Z.
Proof.
  intros H Ha Hb Hc Hab Hbc Hac. unfold le_by in *.
  assert (cmp c a = 0)%Z as Hca by (by apply (consistent_zero cmp a c)).
  assert (cmp b a ≤ 0)%Z as H1 by (apply (proj2 H b c a); unfold le_by; auto; lia).
  assert (cmp c b ≤ 0)%Z as H2 by (apply (proj2 H c a b); unfold le_by; auto; lia).
  apply (consistent_sym cmp a b) in H1; auto. apply (consistent_sym cmp b c) in H2; auto. lia.
Qed.

Lemma consistent_refl cmp a : consistent P cmp → P a → (cmp a a = 0)%Z.
Proof. intros H Ha. pose proof (proj1 H a a Ha Ha). destruct (cmp a a); simpl in *; lia. Qed.

(** One comparator decides, and among equals another one does. *)
Definition then_by (c1 c2 : A → A → Z) (a b : A) : Z :=
  if (c1 a b =? 0)%Z then c2 a b else c1 a b.

(** The second comparator has to be consistent among equals only. *)
Lemma consistent_then_by c1 c2 :
  consistent P c1 → (∀ x, P x → consistent (λ y, P y ∧ c1 x y = 0%Z) c2) → consistent P (then_by c1 c2).
Proof.
  intros H1 H2. unfold then_by. split.
  - intros a b Ha Hb. pose proof (consistent_zero c1 a b H1 Ha Hb) as Hz.
    destruct (c1 a b =? 0)%Z eqn:E; bool_prop.
    + rewrite (proj2 Hz E). rewrite Z.eqb_refl. apply (proj1 (H2 a Ha)); auto using consistent_refl.
    + destruct (c1 b a =? 0)%Z eqn:E2; bool_prop; [by apply Hz in E2|]. apply H1; auto.
  - intros a b c Ha Hb Hc. unfold le_by. intros Hab Hbc.
    assert (c1 a b ≤ 0 ∧ c1 b c ≤ 0)%Z as [L1 L2].
    { split; [destruct (c1 a b =? 0)%Z eqn:E|destruct (c1 b c =? 0)%Z eqn:E]; bool_prop; lia. }
    pose proof (proj2 H1 a b c Ha Hb Hc L1 L2) as L3. unfold le_by in L3.
    destruct (c1 a c =? 0)%Z eqn:E; bool_prop; [|done].
    destruct (consistent_squeeze c1 a b c) as [E1 E2]; auto.
    rewrite E1 in Hab. rewrite E2 in Hbc. cbn in Hab, Hbc.
    apply (proj2 (H2 a Ha) a b c); auto using consistent_refl.
Qed.

(** Lists by their first difference; a proper prefix comes first. *)
Fixpoint lex_by (cmp : A → A → Z) (l k : list A) : Z :=
  match l, k with
  | [], [] => 0
  | [], _ => -1
  | _, [] => 1
  | x :: l, y :: k => if (cmp x y =? 0)%Z then lex_by cmp l k else cmp x y
  end.

Lemma consistent_lex_by cmp : consistent P cmp → consistent (Forall P) (lex_by cmp).
Proof.
  intros H. split.
  - intros l k Hl. revert k. induction Hl as [|x l Hx _ IH]; intros k Hk; destruct Hk as [|y k Hy Hk]; [done..|].
    cbn [lex_by]. pose proof (consistent_zero cmp x y H Hx Hy) as Hz. destruct (cmp x y =? 0)%Z eqn:E; bool_prop.
    + rewrite (proj2 Hz E). by apply IH.
    + destruct (cmp y x =? 0)%Z eqn:E2; bool_prop; [by apply Hz in E2|]. by apply H.
  - intros l k m Hl. revert k m. induction Hl as [|x l Hx _ IH]; intros k m Hk Hm.
    { intros _ _. unfold le_by. destruct m; simpl; lia. }
    destruct Hk as [|y k Hy Hk]; [by cbn|]. destruct Hm as [|z m Hz Hm]; [by cbn|].
    unfold le_by in *. cbn [lex_by]. intros Hab Hbc.
    assert (cmp x y ≤ 0 ∧ cmp y z ≤ 0)%Z as [L1 L2].
    { split; [destruct (cmp x y =? 0)%Z eqn:E|destruct (cmp y z =? 0)%Z eqn:E]; bool_prop; lia. }
    pose proof (proj2 H x y z Hx Hy Hz L1 L2) as L3. unfold le_by in L3.
    destruct (cmp x z =? 0)%Z eqn:E; bool_prop; [|done].
    destruct (consistent_squeeze cmp x y z) as [E1 E2]; auto.
    rewrite E1 in Hab. rewrite E2 in Hbc. by apply (IH k m).
Qed.
End consistent.

Lemma consistent_weaken {A} (P Q : A → Prop) cmp :
  (∀ a, Q a → P a) → consistent P cmp → consistent Q cmp.
Proof. intros H [H1 H2]. split; eauto. Qed.

Lemma consistent_ext {A} (P : A → Prop) c1 c2 :
  (∀ a b, P a → P b → c1 a b = c2 a b) → consistent P c1 → consistent P c2.
Proof.
  intros He [H1 H2]. split.
  - intros a b Ha Hb. rewrite <- !He by done. by apply H1.
  - intros a b c Ha Hb Hc. unfold le_by. rewrite <- !He by done. by apply H2.
Qed.

Lemma consistent_on {A B} (P : B → Prop) (f : A → B) cmp :
  consistent P cmp → consistent (λ a, P (f a)) (λ a b, cmp (f a) (f b)).
Proof. intros [H1 H2]. split; unfold le_by in *; eauto. Qed.

(** A property that puts elements first. *)
Definition first_by {A} (p : A → bool) (a b : A) : Z :=
  if p a && negb (p b) then -1 else if negb (p a) && p b then 1 else 0.

Lemma consistent_first_by {A} (p : A → bool) : consistent (λ _, True) (first_by p).
Proof.
  unfold first_by. split.
  - intros a b _ _. by destruct (p a), (p b).
  - intros a b c _ _ _. unfold le_by. destruct (p a), (p b), (p c); simpl; lia.
Qed.

Lemma first_by_zero {A} (p : A → bool) a b : first_by p a b = 0%Z ↔ p a = p b.
Proof. unfold first_by. destruct (p a), (p b); simpl; split; congruence. Qed.

Lemma insert_first_by {A} (p : A → bool) x (k n : list A) :
  p x = false → Forall (λ y, p y = true) k → Forall (λ y, p y = false) n →
  insert_by (first_by p) x (k ++ n) = k ++ x :: n.
Proof.
  intros Hx Hk Hn. unfold first_by. induction Hk as [|y k Hy _ IH]; simpl.
  - destruct Hn as [|y n Hy _]; simpl; [done|]. by rewrite Hx, Hy.
  - rewrite Hx, Hy. simpl. by f_equal.
Qed.

(** Sorting by such a property alone is a stable partition. *)
Lemma sort_first_by {A} (p : A → bool) l :
  sort_by (first_by p) l = List.filter p l ++ List.filter (λ x, negb (p x)) l.
Proof.
  induction l as [|x l IH]; simpl; [done|]. rewrite IH. clear IH.
  destruct (p x) eqn:Ex; simpl.
  - destruct (_ ++ _) as [|y k]; simpl; [done|]. unfold first_by. rewrite Ex. by destruct (p y).
  - apply insert_first_by; [done| |]; apply List.Forall_forall; intros y [_ H]%filter_In; [done|].
    by apply negb_true_iff.
Qed.

Lemma sorted_first_by {A} (p : A → bool) l :
  StronglySorted (le_by (first_by p)) l → l = List.filter p l ++ List.filter (λ x, negb (p x)) l.
Proof.
  induction 1 as [|x l Hl IH Hx]; simpl; [done|].
  destruct (p x) eqn:Ex; simpl; [by f_equal|].
  assert (Forall (λ y, p y = false) l) as Hn.
  { eapply Forall_impl; [exact Hx|]. intros y. unfold le_by, first_by. rewrite Ex. destruct (p y); simpl; lia. }
  assert (List.filter p l = []) as ->.
  { clear IH Hx Hl. induction Hn as [|y k Hy _ IHn]; simpl; [done|]. by rewrite Hy. }
  simpl. f_equal. symmetry. apply filter_all. eapply Forall_impl; [exact Hn|]. by intros y ->.
Qed.

Lemma sort_by_ext {A} (c1 c2 : A → A → Z) l : (∀ a b, c1 a b = c2 a b) → sort_by c1 l = sort_by c2 l.
Proof.
  intros He. induction l as [|x l IH]; simpl; [done|]. rewrite IH. clear IH.
  induction (sort_by c2 l) as [|y k IH]; simpl; [done|]. by rewrite He, IH.
Qed.
