(* ===== verification/BrowserUtils.v ===== *)
(** * Paths, versions and the order of a directory

    [internal/service/frontend/renop-html/js/browser/utils.js]: the encoding of repository paths,
    the parts of the breadcrumb, and the order in which a directory is listed. [localeCompare] is
    an interface with the laws of a collator; the popover of the preferences and the rounding of
    sizes are left out. *)

From S2P Require Import Prelude JsText JsValue Uri Sorting.
From Stdlib Require Import Sorted.

Local Open Scope Z_scope.

#[local] Arguments cons {A} & _ _.

(** ** Path segments *)

(** [s.replace(/%2B/g, '+')] *)
Fixpoint plus_back (s : jsstring) : jsstring :=
  match s with
  | [] => []
  | x :: s' =>
      match s' with
      | y :: z :: r =>
          if ascii_eqb x "%" && ascii_eqb y "2" && ascii_eqb z "B" then "+"%char :: plus_back r
          else x :: plus_back s'
      | _ => x :: plus_back s'
      end
  end.

Definition encodePathSegment (segment : jsstring) : jsstring := plus_back (encodeURIComponent segment).

(** [path.split('/')] without its empty parts. *)
Definition path_segments (path : jsstring) : list jsstring := List.filter truthy (split "/" path).

Definition encodeRelativePath (path : jsstring) : jsstring :=
  join "/" (encodePathSegment <$> path_segments path).

(** A decoded segment; an escape beyond Latin-1 is not held by the model. *)
Inductive segment := Seg (s : jsstring) | Wide_seg.

Definition decodePathSegment (s : jsstring) : segment :=
  match decodeURIComponent s with Decoded d => Seg d | Malformed => Seg s | Wide => Wide_seg end.

Definition is_seg (s : segment) (k : jsstring) : bool :=
  match s with Seg s => eqs s k | Wide_seg => false end.

Definition breadcrumbPathParts (path format : jsstring) : list jsstring :=
  let parts := path_segments path in
  if eqs format "docker" && (1 <? length parts)%nat
  then match parts with p :: rest => [p; join "/" rest] | [] => [] end
  else if eqs format "npm" && (2 <? length parts)%nat
          && is_seg (decodePathSegment (default [] (parts !! 1%nat))) "packages"
  then match parts with p :: q :: rest => [p; q; join "/" rest] | _ => [] end
  else parts.

(** ** [Number] of a text without a point and a minus sign *)

(** The digits of a base, with a value each. *)
Definition digit_value (base : Z) (c : ascii) : option Z :=
  let v := if is_digit c then Z.of_N (code c) - 48
           else if is_lower c then Z.of_N (code c) - 87
           else if is_upper c then Z.of_N (code c) - 55 else base in
  if v <? base then Some v else None.

Fixpoint digits_in (base acc : Z) (s : jsstring) : option Z :=
  match s with
  | [] => Some acc
  | c :: s => match digit_value base c with Some v => digits_in base (acc * base + v) s | None => None end
  end.

Definition digits (base : Z) (s : jsstring) : option Z :=
  match s with [] => None | _ => digits_in base 0 s end.

(** The nearest double of a natural number, ties to even. *)
Definition to_double (n : Z) : num :=
  if n <? 2 ^ 53 then Int n
  else
    let e := Z.log2 n - 52 in
    let lo := Z.shiftr n e in
    let r := n - Z.shiftl lo e in
    let half := Z.shiftl 1 (e - 1) in
    let m := if (half <? r) || ((r =? half) && Z.odd lo) then lo + 1 else lo in
    let v := Z.shiftl m e in
    if v <? 2 ^ 1024 then Int v else PInf.

Definition opt_double (n : option Z) : num := match n with Some n => to_double n | None => NaN end.

(** [m * 10 ^ e]; no double is above 2 ^ 1024. *)
Definition scaled (m e : Z) : num :=
  if m =? 0 then Int 0 else if 400 <? e then PInf else to_double (m * 10 ^ e).

Definition drop_plus (s : jsstring) : jsstring :=
  match s with c :: r => if ascii_eqb c "+" then r else s | [] => s end.

Definition decimal (s : jsstring) : num :=
  match indexOf (toLowerCase s) "e" with
  | None => opt_double (digits 10 s)
  | Some i =>
      match digits 10 (take i s), digits 10 (drop_plus (drop (S i) s)) with
      | Some m, Some e => scaled m e
      | _, _ => NaN
      end
  end.

Definition Number (s : jsstring) : num :=
  let s := trim s in
  match s with
  | [] => Int 0
  | _ =>
      let l := toLowerCase (take 2 s) in
      if eqs l "0x" then opt_double (digits 16 (drop 2 s))
      else if eqs l "0o" then opt_double (digits 8 (drop 2 s))
      else if eqs l "0b" then opt_double (digits 2 (drop 2 s))
      else let d := drop_plus s in if eqs d "Infinity" then PInf else decimal d
  end.

Definition num_gtb (a b : num) : bool :=
  match a, b with
  | Int m, Int n => n <? m
  | PInf, Int _ | PInf, NInf | Int _, NInf => true
  | _, _ => false
  end.

Definition is_nan (n : num) : bool := match n with NaN => true | _ => false end.

(** ** Versions *)

(** [a.localeCompare(b, undefined, {numeric: true, sensitivity: 'base'})]: a collator gives a
    total preorder. *)
Class Collator := {
  localeCompare : jsstring → jsstring → Z;
  localeCompare_consistent : consistent (λ _, True) localeCompare
}.

Section Listing.
Context `{Collator}.

(** The loop over the parts before the first [-]; [None]: no part decides. *)
Fixpoint compare_parts (pa pb : list jsstring) : option Z :=
  match pa, pb with
  | [], [] => None
  | [], _ => Some (-1)
  | _, [] => Some 1
  | x :: pa, y :: pb =>
      let na := Number x in
      let nb := Number y in
      if negb (is_nan na) && negb (is_nan nb) then
        if num_gtb na nb then Some 1 else if num_gtb nb na then Some (-1) else compare_parts pa pb
      else
        let strCmp := localeCompare x y in
        if negb (strCmp =? 0) then Some strCmp else compare_parts pa pb
  end.

(** [a[1]] is absent or empty. *)
Definition second_truthy (a : list jsstring) : bool :=
  match a with _ :: s :: _ => truthy s | _ => false end.

Definition first_part (a : list jsstring) : jsstring := default [] (head a).
Definition suffix (a : list jsstring) : jsstring := join "-" (tail a).

Definition compareSemver (rawA rawB : jsstring) : Z :=
  let a := split "-" rawA in
  let b := split "-" rawB in
  match compare_parts (split "." (first_part a)) (split "." (first_part b)) with
  | Some c => c
  | None =>
      if second_truthy a && second_truthy b then localeCompare (suffix a) (suffix b)
      else if negb (second_truthy a) && second_truthy b then 1
      else if second_truthy a && negb (second_truthy b) then -1 else 0
  end.

(** ** The list of a directory *)

Record file := { name : jsstring; type : jsstring }.

Definition is_directory (f : file) : bool := eqs (type f) "DIRECTORY".

Definition hash_file (f : file) : bool :=
  existsb (endsWith (name f)) [js ".asc"; js ".md5"; js ".sha1"; js ".sha256"; js ".sha512"].

(** [reversedFileOrder] and [displayHashFiles]. *)
Record preferences := { reversedFileOrder : bool; displayHashFiles : bool }.

Definition compare_files (reversed : bool) (a b : file) : Z :=
  if is_directory a && negb (is_directory b) then -1
  else if negb (is_directory a) && is_directory b then 1
  else
    let cmp := if is_directory a && is_directory b then compareSemver (name a) (name b) else 0 in
    let cmp := if cmp =? 0 then localeCompare (name a) (name b) else cmp in
    if reversed then - cmp else cmp.

Definition applyAdjustments (p : preferences) (files : list file) : list file :=
  let result := if displayHashFiles p then files else List.filter (λ f, negb (hash_file f)) files in
  sort_by (compare_files (reversedFileOrder p)) result.
End Listing.

(** The stored preferences: [None] is a key without a value. *)
Definition initial_preferences (order hashes : option jsstring) : preferences :=
  {| reversedFileOrder := match order with Some v => eqs v "true" | None => false end;
     displayHashFiles := match hashes with Some v => negb (eqs v "false") | None => true end |}.

(** A change of a checkbox stores its state as text. *)
Definition stored_bool (b : bool) : jsstring := if b then "true" else "false".

(** ** Paths come back *)

Definition encode_char' (c : ascii) : jsstring := if ascii_eqb c "+" then js "+" else encode_char c.

Lemma plus_back_char c rest : plus_back (encode_char c ++ rest) = encode_char' c ++ plus_back rest.
Proof.
  destruct c as [b0 b1 b2 b3 b4 b5 b6 b7].
  destruct b0, b1, b2, b3, b4, b5, b6, b7; try reflexivity; destruct rest as [|? [|? ?]]; reflexivity.
Qed.

Lemma encodePathSegment_chars s : encodePathSegment s = mjoin (encode_char' <$> s).
Proof.
  unfold encodePathSegment, encodeURIComponent. induction s as [|c s IH]; csimpl; [done|].
  change (mjoin (?x :: ?l)) with (x ++ mjoin l). by rewrite plus_back_char, IH.
Qed.

Lemma decode_char' c fuel rest :
  decode_loop (S fuel) (encode_char' c ++ rest) = prepend c (decode_loop fuel rest).
Proof.
  unfold encode_char'. destruct (ascii_eqb_spec c "+") as [->|]; [done|apply decode_encode_char].
Qed.

Lemma encode_char'_length c : (1 ≤ length (encode_char' c))%nat.
Proof. unfold encode_char'. destruct (ascii_eqb c "+"); [vm_compute; lia|apply encode_char_length]. Qed.

Lemma encodePathSegment_length s : (length s ≤ length (encodePathSegment s))%nat.
Proof.
  rewrite encodePathSegment_chars. induction s as [|c s IH]; csimpl; [lia|].
  change (mjoin (?x :: ?l)) with (x ++ mjoin l). rewrite length_app. pose proof (encode_char'_length c). lia.
Qed.

Lemma decode_encodePathSegment s : decodePathSegment (encodePathSegment s) = Seg s.
Proof.
  unfold decodePathSegment, decodeURIComponent.
  assert (∀ fuel, (length s ≤ fuel)%nat → decode_loop fuel (encodePathSegment s) = Decoded s) as H.
  { rewrite encodePathSegment_chars. clear. induction s as [|c s IH]; intros fuel Hf; [by destruct fuel|].
    destruct fuel as [|fuel]; simpl in Hf; [lia|]. rewrite fmap_cons.
    change (mjoin (?x :: ?l)) with (x ++ mjoin l). rewrite decode_char', IH by lia. done. }
  rewrite H; [done|apply encodePathSegment_length].
Qed.

(** An encoded segment holds unreserved characters, percent signs and plus signs. *)
Lemma encodePathSegment_clean s :
  Forall (λ x, uri_unreserved x = true ∨ x = "%"%char ∨ x = "+"%char) (encodePathSegment s).
Proof.
  rewrite encodePathSegment_chars. induction s as [|c s IH]; csimpl; [constructor|].
  change (mjoin (?x :: ?l)) with (x ++ mjoin l). apply Forall_app_2; [|done].
  unfold encode_char'. destruct (ascii_eqb c "+"); [by repeat constructor; right; right|].
  eapply Forall_impl; [apply encode_char_clean|]. cbn. tauto.
Qed.

Lemma encodePathSegment_no c s :
  uri_unreserved c = false → c ≠ "%"%char → c ≠ "+"%char → c ∉ encodePathSegment s.
Proof.
  intros H1 H2 H3 H. pose proof (encodePathSegment_clean s) as Hc. rewrite Forall_forall in Hc.
  destruct (Hc c H) as [?|[?|?]]; congruence.
Qed.

Lemma encodePathSegment_truthy s : truthy s = true → truthy (encodePathSegment s) = true.
Proof.
  intros Hs. pose proof (encodePathSegment_length s). destruct s; [done|].
  destruct (encodePathSegment _); [cbn in *; lia|done].
Qed.

Lemma path_segments_join l :
  Forall (λ p, ("/"%char ∉ p) ∧ truthy p = true) l → path_segments (join "/" l) = l.
Proof.
  intros Hl. unfold path_segments. destruct l as [|p l]; [done|].
  change (js "/") with ["/"%char]. rewrite split_join; [|done|].
  - apply filter_all. eapply Forall_impl; [exact Hl|]. cbn. tauto.
  - eapply Forall_impl; [exact Hl|]. cbn. tauto.
Qed.

Lemma path_segments_ok path : Forall (λ p, ("/"%char ∉ p) ∧ truthy p = true) (path_segments path).
Proof.
  apply List.Forall_forall. intros p [Hp Ht]%filter_In. split; [|done].
  intros Hc. pose proof (splitBy_parts (ascii_eqb "/") path) as Hs. rewrite List.Forall_forall in Hs.
  specialize (Hs p Hp). rewrite Forall_forall in Hs. specialize (Hs _ Hc). cbv beta in Hs.
  by rewrite ascii_eqb_refl in Hs.
Qed.

Lemma segments_of_encoded path :
  path_segments (encodeRelativePath path) = encodePathSegment <$> path_segments path.
Proof.
  unfold encodeRelativePath. apply path_segments_join. apply Forall_fmap.
  eapply Forall_impl; [apply path_segments_ok|]. cbn. intros p [_ Ht].
  split; [by apply encodePathSegment_no|by apply encodePathSegment_truthy].
Qed.

(** ** Breadcrumbs *)

Lemma join_one_more x rest : rest ≠ [] → join "/" [x; join "/" rest] = join "/" (x :: rest).
Proof. intros H. by rewrite (join_cons _ x rest). Qed.

Lemma breadcrumb_join path format :
  join "/" (breadcrumbPathParts path format) = join "/" (path_segments path).
Proof.
  unfold breadcrumbPathParts. destruct (path_segments path) as [|p [|q [|r rest]]]; cbn [length Nat.ltb Nat.leb].
  - by rewrite !andb_false_r.
  - by rewrite !andb_false_r.
  - rewrite andb_true_r, !andb_false_r. by destruct (eqs format "docker").
  - rewrite !andb_true_r. destruct (eqs format "docker").
    + by apply join_one_more.
    + split_if; [|done]. by rewrite !(join_cons _ p), !(join_cons _ q).
Qed.

(** ** Versions as an order *)

(** Every dotted part before the first [-] is a number. *)
Definition numeric (name : jsstring) : Prop :=
  Forall (λ x, is_nan (Number x) = false) (split "." (first_part (split "-" name))).

Definition num_compare (a b : num) : Z := if num_gtb a b then 1 else if num_gtb b a then -1 else 0.

Lemma num_compare_consistent : consistent (λ n, is_nan n = false) num_compare.
Proof.
  unfold num_compare. split.
  - intros [] []; simpl; try done. intros _ _.
    destruct (n0 <? n) eqn:?, (n <? n0) eqn:?; bool_prop; simpl; lia.
  - intros [] [] []; unfold le_by; simpl; try done; try lia; intros _ _ _;
      repeat (match goal with |- context [?x <? ?y] => destruct (x <? y) eqn:? end); bool_prop; simpl; lia.
Qed.

Section versions.
Context `{Collator}.

(** What the name of a version stands for: its numbers, and the suffix of a pre-release. *)
Record version := { numbers : list num; prerelease : option jsstring }.

Definition version_of (name : jsstring) : version :=
  let a := split "-" name in
  {| numbers := Number <$> split "." (first_part a);
     prerelease := if second_truthy a then Some (suffix a) else None |}.

(** The numbers from the left, then a pre-release before its release, then the suffixes. *)
Definition version_compare : version → version → Z :=
  then_by (λ a b, lex_by num_compare (numbers a) (numbers b))
    (then_by (first_by (λ v, bool_decide (is_Some (prerelease v))))
      (λ a b, localeCompare (default [] (prerelease a)) (default [] (prerelease b)))).

Definition numeric_version (v : version) : Prop := Forall (λ n, is_nan n = false) (numbers v).

Lemma numeric_version_of name : numeric name ↔ numeric_version (version_of name).
Proof. unfold numeric, numeric_version. cbn. by rewrite Forall_fmap. Qed.

Lemma compare_parts_lex pa pb :
  Forall (λ x, is_nan (Number x) = false) pa → Forall (λ x, is_nan (Number x) = false) pb →
  compare_parts pa pb =
    let c := lex_by num_compare (Number <$> pa) (Number <$> pb) in if c =? 0 then None else Some c.
Proof.
  intros Ha. revert pb. induction Ha as [|x pa Hx _ IH]; intros pb Hb; destruct Hb as [|y pb Hy Hb]; [done..|].
  cbn [compare_parts]. rewrite Hx, Hy. rewrite !fmap_cons. cbn [negb andb lex_by].
  pose proof (eq_refl (num_compare (Number x) (Number y))) as Hc. unfold num_compare at 2 in Hc.
  destruct (num_gtb (Number x) (Number y)); [by rewrite Hc|].
  destruct (num_gtb (Number y) (Number x)); rewrite Hc; [done|by apply IH].
Qed.

Lemma localeCompare_refl x : localeCompare x x = 0.
Proof. by apply (consistent_refl (λ _, True) localeCompare x localeCompare_consistent). Qed.

Lemma compareSemver_version a b :
  numeric a → numeric b → compareSemver a b = version_compare (version_of a) (version_of b).
Proof.
  intros Ha Hb. unfold compareSemver, version_compare, then_by. rewrite compare_parts_lex by done. cbn [numbers version_of].
  set (c := lex_by _ _ _). destruct (c =? 0) eqn:Ec; [|by rewrite ?Ec]. rewrite ?Ec.
  unfold first_by. cbn [prerelease version_of].
  destruct (second_truthy (split "-" a)), (second_truthy (split "-" b)); cbn; try done.
  by rewrite localeCompare_refl.
Qed.

Lemma version_compare_consistent : consistent numeric_version version_compare.
Proof.
  apply consistent_then_by.
  - apply (consistent_on (Forall (λ n, is_nan n = false)) numbers).
    apply consistent_lex_by, num_compare_consistent.
  - intros x _. eapply (consistent_weaken (λ _, True)); [done|]. apply consistent_then_by.
    + apply consistent_first_by.
    + intros y _. eapply (consistent_weaken (λ _, True)); [done|].
      apply (consistent_on (λ _, True) (λ v, default [] (prerelease v))), localeCompare_consistent.
Qed.

Lemma compareSemver_consistent : consistent numeric compareSemver.
Proof.
  eapply consistent_ext; [intros a b Ha Hb; symmetry; by apply compareSemver_version|].
  apply (consistent_weaken (λ a, numeric_version (version_of a))); [intros a; apply numeric_version_of|].
  apply (consistent_on numeric_version version_of), version_compare_consistent.
Qed.

(** ** The order of a directory *)

Definition orderly (f : file) : Prop := is_directory f = true → numeric (name f).

(** The order among directories, and among files. *)
Definition inner (reversed : bool) (a b : file) : Z :=
  let cmp := then_by (λ a b, if is_directory a && is_directory b then compareSemver (name a) (name b) else 0)
               (λ a b, localeCompare (name a) (name b)) a b in
  if reversed then - cmp else cmp.

Lemma inner_consistent reversed d : consistent (λ a, orderly a ∧ is_directory a = d) (inner reversed).
Proof.
  assert (consistent (λ a, orderly a ∧ is_directory a = d)
    (then_by (λ a b, if is_directory a && is_directory b then compareSemver (name a) (name b) else 0)
             (λ a b, localeCompare (name a) (name b)))) as Hc.
  { apply consistent_then_by.
    - destruct d.
      + apply (consistent_ext _ (λ a b, compareSemver (name a) (name b))); [by intros a b [_ ->] [_ ->]|].
        apply (consistent_weaken (λ a, numeric (name a))); [by intros a [? ?]; auto|].
        apply (consistent_on numeric name), compareSemver_consistent.
      + apply (consistent_ext _ (λ _ _, 0)); [by intros a b [_ ->] [_ ->]|]. split; [done|]. unfold le_by. lia.
    - intros x _. eapply (consistent_weaken (λ _, True)); [done|].
      apply (consistent_on (λ _, True) name), localeCompare_consistent. }
  unfold inner. destruct reversed; [by apply consistent_opp in Hc|done].
Qed.

Lemma compare_files_then reversed a b :
  compare_files reversed a b = then_by (first_by is_directory) (inner reversed) a b.
Proof.
  unfold compare_files, then_by, first_by, inner, then_by.
  destruct (is_directory a), (is_directory b); reflexivity.
Qed.

Lemma compare_files_consistent reversed : consistent orderly (compare_files reversed).
Proof.
  eapply consistent_ext; [intros; symmetry; apply compare_files_then|].
  apply consistent_then_by; [eapply consistent_weaken; [|apply consistent_first_by]; done|].
  intros x _. eapply consistent_weaken; [|apply (inner_consistent reversed (is_directory x))].
  by intros a [Ha <-%first_by_zero].
Qed.
End versions.

(** ** What the pages rely on *)

(** An encoded path has the segments of the path it was made from, every one decodes to the
    segment it stands for, and between its slashes only unreserved characters, percent and plus signs
    occur, so that no segment is taken for a query or a fragment. The breadcrumb of a path spells the
    same path, whatever the format. *)
Theorem paths_roundtrip path format :
  decodePathSegment <$> path_segments (encodeRelativePath path) = Seg <$> path_segments path ∧
  Forall (Forall (λ c, uri_unreserved c = true ∨ c = "%"%char ∨ c = "+"%char))
    (path_segments (encodeRelativePath path)) ∧
  join "/" (breadcrumbPathParts path format) = join "/" (path_segments path).
Proof.
  rewrite segments_of_encoded. split; [|split].
  - rewrite <- list_fmap_compose. apply list_fmap_ext. intros i s _. apply decode_encodePathSegment.
  - apply Forall_fmap, Forall_true. intros s. apply encodePathSegment_clean.
  - apply breadcrumb_join.
Qed.

(** On names whose dotted parts are numbers, the comparison of versions is the reference order:
    the numbers from the left, a shorter version before its extensions, a pre-release before its
    release, then the suffixes by the collator. It is a total preorder. *)
Theorem compareSemver_reference `{Collator} :
  (∀ a b, numeric a → numeric b → compareSemver a b = version_compare (version_of a) (version_of b)) ∧
  consistent numeric compareSemver.
Proof. split; [exact compareSemver_version|exact compareSemver_consistent]. Qed.

(** A directory is listed with exactly its files, less the hash files when they are hidden. When
    the names of its directories are versions with numbers, every entry stands in its place by the
    comparator, in both directions of the order, and the directories come before the files. *)
Theorem directory_listing `{Collator} p files :
  Forall orderly files →
  let shown := if displayHashFiles p then files else List.filter (λ f, negb (hash_file f)) files in
  let l := applyAdjustments p files in
  l ≡ₚ shown ∧ StronglySorted (le_by (compare_files (reversedFileOrder p))) l ∧
  l = List.filter is_directory l ++ List.filter (λ f, negb (is_directory f)) l.
Proof.
  intros Hf. cbv zeta. unfold applyAdjustments. set (shown := if displayHashFiles p then _ else _).
  assert (Forall orderly shown) as Hs.
  { unfold shown. destruct (displayHashFiles p); [done|]. apply List.Forall_forall. intros f [Hin _]%filter_In.
    rewrite List.Forall_forall in Hf. by apply Hf. }
  assert (StronglySorted (le_by (compare_files (reversedFileOrder p))) (sort_by (compare_files (reversedFileOrder p)) shown))
    as Hsort by (apply (sort_by_sorted orderly); [apply compare_files_consistent|done]).
  split; [apply sort_by_perm|split; [done|]]. apply sorted_first_by.
  clear Hs Hf. induction Hsort as [|a l _ IH Ha]; constructor; [done|]. eapply Forall_impl; [exact Ha|].
  intros b. unfold le_by. rewrite compare_files_then. unfold then_by. destruct (_ =? 0) eqn:E; bool_prop; lia.
Qed.

(** A collator: code units of the text in lower case. *)
Definition plain_compare (a b : jsstring) : Z :=
  lex_by (λ x y, Z.of_N (code x) - Z.of_N (code y)) (toLowerCase a) (toLowerCase b).

Lemma plain_compare_consistent : consistent (λ _, True) plain_compare.
Proof.
  apply (consistent_weaken (λ a, Forall (λ _, True) (toLowerCase a))); [intros; by apply Forall_true|].
  apply (consistent_on (Forall (λ _, True)) toLowerCase). apply consistent_lex_by. split.
  - intros x y _ _. rewrite <- Z.sgn_opp. f_equal. lia.
  - intros x y z _ _ _. unfold le_by. lia.
Qed.

#[local] Instance plain_collator : Collator :=
  {| localeCompare := plain_compare; localeCompare_consistent := plain_compare_consistent |}.

Definition example_files : list file :=
  [ {| name := "maven-metadata.xml"; type := "FILE" |}; {| name := "1.10.0"; type := "DIRECTORY" |};
    {| name := "1.9.1"; type := "DIRECTORY" |}; {| name := "maven-metadata.xml.md5"; type := "FILE" |};
    {| name := "1.10.0-rc1"; type := "DIRECTORY" |} ].

Lemma example_orderly : Forall orderly example_files.
Proof. repeat constructor; unfold orderly; try done; intros _; unfold numeric; vm_compute; repeat constructor. Qed.

Lemma directory_listing_witness :
  Forall orderly example_files ∧
  name <$> applyAdjustments {| reversedFileOrder := false; displayHashFiles := false |} example_files
    = [js "1.9.1"; js "1.10.0-rc1"; js "1.10.0"; js "maven-metadata.xml"] ∧
  StronglySorted (le_by (compare_files false))
    (applyAdjustments {| reversedFileOrder := false; displayHashFiles := false |} example_files).
Proof.
  split; [exact example_orderly|]. split; [vm_compute; reflexivity|].
  exact (proj1 (proj2 (directory_listing {| reversedFileOrder := false; displayHashFiles := false |}
    example_files example_orderly))).
Defined.

Lemma compareSemver_reference_witness :
  consistent numeric compareSemver ∧ compareSemver "1.9.1" "1.10.0" < 0 ∧ compareSemver "2.0-rc1" "2.0" < 0.
Proof. split; [exact (proj2 compareSemver_reference)|split; vm_compute; reflexivity]. Defined.

(** The stored preferences come back, and the defaults are the plain order with hash files. *)
Lemma preferences_roundtrip order hashes :
  initial_preferences (Some (stored_bool order)) (Some (stored_bool hashes))
    = {| reversedFileOrder := order; displayHashFiles := hashes |} ∧
  initial_preferences None None = {| reversedFileOrder := false; displayHashFiles := true |}.
Proof. split; [by destruct order, hashes|done]. Qed.

(** ** Names that are numbers by accident *)

(** An abbreviated commit hash such as [12e4567] is a number, infinity. With names that are not
    numbers next to it, the comparison has cycles: a collator that compares digits as numbers puts
    12e4567 before 13a, and 13a before 20. *)
Lemma compareSemver_cycle `{Collator} :
  localeCompare "12e4567" "13a" < 0 → localeCompare "13a" "20" < 0 →
  compareSemver "12e4567" "13a" < 0 ∧ compareSemver "13a" "20" < 0 ∧ compareSemver "20" "12e4567" < 0.
Proof.
  intros H1 H2. unfold compareSemver.
  change (split "." (first_part (split "-" "12e4567"))) with [js "12e4567"].
  change (split "." (first_part (split "-" "13a"))) with [js "13a"].
  change (split "." (first_part (split "-" "20"))) with [js "20"]. cbn [compare_parts].
  change (Number "12e4567") with PInf. change (Number "13a") with NaN.
  change (Number "20") with (Int 20). cbn [is_nan negb andb num_gtb].
  destruct (localeCompare "12e4567" "13a" =? 0) eqn:E1; [bool_prop; lia|].
  destruct (localeCompare "13a" "20" =? 0) eqn:E2; [bool_prop; lia|]. cbn [negb]. lia.
Qed.
