(* ===== verification/Upload.v ===== *)
(** * The upload dialog of a directory

    [internal/service/frontend/renop-html/js/browser/upload.js]: the files that wait, the signing
    policy of the repository, the check of the disk, and the batch that sends the files one after the
    other and generates a POM. The user, the server and the timers are events, so every interleaving
    of clicks, answers and animations is a run. A transfer is [ChunkedUpload]'s or a single request;
    here it is its outcome. Heights, animations, the rows and the percentages are left out. *)

From S2P Require Import Prelude JsText Sorting BrowserUtils.
From S2P Require Formats ChunkedUpload.
Local Open Scope nat_scope.

#[local] Arguments cons {A} & _ _.

(** ** Names of files *)

(** A [File] object: its identity, name and size. *)
Record file := { fid : nat; name : jsstring; size : Z }.

#[global] Instance file_eq_dec : EqDecision file.
Proof. solve_decision. Defined.

Definition fileExt (name : jsstring) : jsstring :=
  match lastIndexOf name "." with
  | Some idx => if 0 <? idx then toLowerCase (drop (S idx) name) else []
  | None => []
  end.

Definition isGPGProtectedFile (name : jsstring) : bool :=
  let lower := toLowerCase name in
  endsWith lower ".jar" || endsWith lower ".pom" || endsWith lower ".module".

(** [name.slice(0, -4)] *)
Definition drop_asc (name : jsstring) : jsstring := take (length name - 4) name.

Definition isGPGDetachedSignature (name : jsstring) : bool :=
  endsWith name ".asc" && isGPGProtectedFile (drop_asc name).

Definition is_signature (f : file) : bool := isGPGDetachedSignature (name f).
Definition is_protected (f : file) : bool := isGPGProtectedFile (name f).

(** [signedArtifactNames] *)
Definition signed_names (files : list file) : list jsstring :=
  (λ f, drop_asc (name f)) <$> List.filter is_signature files.

Definition has_name (names : list jsstring) (f : file) : bool := existsb (eqs (name f)) names.

Definition missing_signatures (files : list file) : list file :=
  List.filter (λ f, is_protected f && negb (has_name (signed_names files) f)) files.

Definition calculatePendingRequiredSpace (files : list file) : Z :=
  foldl (λ total f,
    total + (size f * (if endsWith (toLowerCase (name f)) "-javadoc.jar" then 4 else 2) + 1024 * 1024))%Z 0%Z files.

(** The queue: the artifacts in their order, then the signatures. *)
Definition upload_queue (files : list file) : list file :=
  sort_by (λ l r, (if is_signature l then 1 else 0) - (if is_signature r then 1 else 0))%Z files.

(** ** Requests *)

Definition strip_slash (s : jsstring) : jsstring := if startsWith s "/" then drop 1 s else s.

(** [s.replace(/\/+/g, '/')] *)
Fixpoint collapse_slashes (s : jsstring) : jsstring :=
  match s with
  | [] => []
  | c :: r =>
      match r with
      | d :: _ => if ascii_eqb c "/" && ascii_eqb d "/" then collapse_slashes r else c :: collapse_slashes r
      | [] => [c]
      end
  end.

Definition relative_dest (dest name : jsstring) : jsstring :=
  let cleanDest := strip_slash dest in
  let cleanDest := if endsWith cleanDest "/" then cleanDest else cleanDest ++ js "/" in
  cleanDest ++ name.

(** A transfer: chunked to a path of the storage, or a single request to an address; its headers. *)
Inductive target := Chunked (path : jsstring) (generateChecksums : bool) | SinglePut (address : jsstring).

Record request := {
  sent_file : file;
  to : target;
  checksums_header : bool;
  signature_expected : bool
}.

(** What the page holds when a step reads it: the destination, the two boxes, the address, the fields of
    the POM. *)
Record env := {
  dest : jsstring;
  checksums : bool;
  pathname : jsstring;
  pom : bool;
  pom_fields : jsstring * jsstring * jsstring
}.

(** [headers] is the checksum box when the batch began, [e] the page now. *)
Definition file_request (signed : list jsstring) (dest0 : jsstring) (headers : bool) (e : env) (f : file) : request :=
  let relativeDest := relative_dest dest0 (name f) in
  {| sent_file := f;
     to := if ChunkedUpload.shouldUseChunkedUpload (Some (size f))
           then Chunked (strip_slash (collapse_slashes relativeDest)) (checksums e)
           else SinglePut (js "/" ++ encodeRelativePath relativeDest);
     checksums_header := headers;
     signature_expected := is_protected f && has_name signed f |}.

(** ** The dialog *)

Inductive alert :=
  | MissingSignatures (count : nat) | NoSpace | Uploaded (name : jsstring) (queuedForReview : bool)
  | FailedUpload (name : jsstring) | FailedPom | FillPom.

Inductive status := Uploading | Done | Failed.

(** A batch between two awaits. [Checking]: for the free space; [Sending]: for the outcome of the first
    file, the others follow; [Generating]: for the POM. [dest0], [headers] and [repoName] are read when
    the sending begins. *)
Inductive stage :=
  | Checking
  | Sending (dest0 : jsstring) (headers : bool) (repoName : jsstring) (f : file) (rest : list file)
  | Generating.

(** [signed] are the names signed at the click; [plan] is the queue. *)
Record batch := { bid : nat; signed : list jsstring; plan : list file; stage_of : stage }.

(** What happened to a batch: the click with the files and the policy, the begin of the sending with the files of the list then,
    the requests and their outcomes, the end. *)
Inductive entry :=
  | Clicked (b : nat) (files : list file) (required : bool)
  | Began (b : nat) (files : list file)
  | Sent (b : nat) (r : request)
  | Settled (b : nat) (f : file) (ok : bool)
  | PomSent (b : nat) (address : jsstring)
  | Ended (b : nat) (plan : list file).

Record dialog := {
  pendingFiles : list file;
  uploading : bool;
  button_disabled : bool;
  repositoryRequiresGPG : bool;
  removals : list nat;
  clears : nat;
  checks : nat;
  batches : list batch;
  next_batch : nat;
  statuses : list (nat * status);
  alerts : list alert;
  log : list entry
}.

Definition with_pending (files : list file) (d : dialog) : dialog :=
  {| pendingFiles := files; uploading := uploading d; button_disabled := button_disabled d;
     repositoryRequiresGPG := repositoryRequiresGPG d; removals := removals d; clears := clears d;
     checks := checks d; batches := batches d; next_batch := next_batch d; statuses := statuses d;
     alerts := alerts d; log := log d |}.

Definition with_timers (rs : list nat) (cs ks : nat) (d : dialog) : dialog :=
  {| pendingFiles := pendingFiles d; uploading := uploading d; button_disabled := button_disabled d;
     repositoryRequiresGPG := repositoryRequiresGPG d; removals := rs; clears := cs; checks := ks;
     batches := batches d; next_batch := next_batch d; statuses := statuses d; alerts := alerts d; log := log d |}.

Definition with_busy (up dis : bool) (d : dialog) : dialog :=
  {| pendingFiles := pendingFiles d; uploading := up; button_disabled := dis;
     repositoryRequiresGPG := repositoryRequiresGPG d; removals := removals d; clears := clears d;
     checks := checks d; batches := batches d; next_batch := next_batch d; statuses := statuses d;
     alerts := alerts d; log := log d |}.

Definition with_batches (bs : list batch) (n : nat) (d : dialog) : dialog :=
  {| pendingFiles := pendingFiles d; uploading := uploading d; button_disabled := button_disabled d;
     repositoryRequiresGPG := repositoryRequiresGPG d; removals := removals d; clears := clears d;
     checks := checks d; batches := bs; next_batch := n; statuses := statuses d; alerts := alerts d; log := log d |}.

Definition showAlert (a : alert) (d : dialog) : dialog :=
  {| pendingFiles := pendingFiles d; uploading := uploading d; button_disabled := button_disabled d;
     repositoryRequiresGPG := repositoryRequiresGPG d; removals := removals d; clears := clears d;
     checks := checks d; batches := batches d; next_batch := next_batch d; statuses := statuses d;
     alerts := alerts d ++ [a]; log := log d |}.

Definition mark_status (f : file) (s : status) (d : dialog) : dialog :=
  {| pendingFiles := pendingFiles d; uploading := uploading d; button_disabled := button_disabled d;
     repositoryRequiresGPG := repositoryRequiresGPG d; removals := removals d; clears := clears d;
     checks := checks d; batches := batches d; next_batch := next_batch d;
     statuses := (fid f, s) :: statuses d; alerts := alerts d; log := log d |}.

Definition record_entry (x : entry) (d : dialog) : dialog :=
  {| pendingFiles := pendingFiles d; uploading := uploading d; button_disabled := button_disabled d;
     repositoryRequiresGPG := repositoryRequiresGPG d; removals := removals d; clears := clears d;
     checks := checks d; batches := batches d; next_batch := next_batch d; statuses := statuses d;
     alerts := alerts d; log := log d ++ [x] |}.

Definition put_batch (b : batch) (d : dialog) : dialog :=
  with_batches ((λ k, if bid k =? bid b then b else k) <$> batches d) (next_batch d) d.

Definition remove_batch (n : nat) (d : dialog) : dialog :=
  with_batches (List.filter (λ k, negb (bid k =? n)) (batches d)) (next_batch d) d.

Definition at_stage (s : stage) (b : batch) : batch :=
  {| bid := bid b; signed := signed b; plan := plan b; stage_of := s |}.

(** [renderPendingFiles]: with files left it also checks the space. *)
Definition renderPendingFiles (d : dialog) : dialog :=
  match pendingFiles d with [] => d | _ => with_timers (removals d) (clears d) (S (checks d)) d end.

Definition addPendingFiles (files : list file) (d : dialog) : dialog :=
  renderPendingFiles (with_pending (pendingFiles d ++ files) d).

(** The position of a [File] object in the list. *)
Definition position (f : file) (files : list file) : option nat :=
  fst <$> list_find (λ g, fid g = fid f) files.

(** The handler of a row's remove button: the position is taken now, the list changes when the
    animation has ended. *)
Definition onRemoveHandler (f : file) (d : dialog) : dialog :=
  if uploading d then d
  else match position f (pendingFiles d) with
       | None => d
       | Some currIdx => with_timers (removals d ++ [currIdx]) (clears d) (checks d) d
       end.

(** The end of such an animation: [splice(currIdx, 1)]. *)
Definition cleanup (currIdx : nat) (d : dialog) : dialog :=
  renderPendingFiles (with_pending (delete currIdx (pendingFiles d)) d).

(** The clear button; [rows]: whether rows are shown that are not leaving. *)
Definition clear_click (rows : bool) (d : dialog) : dialog :=
  if uploading d then d
  else if rows then with_timers (removals d) (S (clears d)) (checks d) d
  else renderPendingFiles (with_pending [] d).

(** The answer about the disk; [None]: it failed or lacks a number. *)
Definition updateUploadSpaceCheck (space : option (Z * Z)) (d : dialog) : bool * dialog :=
  match space with
  | None => (false, d)
  | Some (used, total) =>
      let freeSpace := Z.max 0 (total - used) in
      if ((freeSpace <? calculatePendingRequiredSpace (pendingFiles d)) || (freeSpace <=? 0))%Z
      then (true, with_busy (uploading d) true d)
      else (false, if uploading d then d else with_busy false false d)
  end.

(** A click on the upload button, up to the check of the space. *)
Definition upload_click (d : dialog) : dialog :=
  match pendingFiles d with
  | [] => d
  | files =>
      if uploading d then d
      else
        let missing := missing_signatures files in
        if repositoryRequiresGPG d && negb (length missing =? 0)
        then showAlert (MissingSignatures (length missing)) d
        else with_batches
               (batches d ++ [{| bid := next_batch d; signed := signed_names files; plan := [];
                                 stage_of := Checking |}])
               (S (next_batch d)) (record_entry (Clicked (next_batch d) files (repositoryRequiresGPG d)) d)
  end.

Definition finish_batch (b : batch) (d : dialog) : dialog :=
  renderPendingFiles
    (with_busy false false (with_pending [] (record_entry (Ended (bid b) (plan b)) (remove_batch (bid b) d)))).

Definition after_files (e : env) (b : batch) (dest0 repoName : jsstring) (d : dialog) : dialog :=
  if pom e then
    let '(groupId, artifactId, version) := pom_fields e in
    if truthy groupId && truthy artifactId && truthy version then
      let relPath := drop (length repoName + 1) dest0 in
      put_batch (at_stage Generating b)
        (record_entry (PomSent (bid b) (js "/api/maven/generate/pom/" ++ encodePathSegment repoName ++ js "/"
                                       ++ encodeRelativePath relPath)) d)
    else finish_batch b (showAlert FillPom d)
  else finish_batch b d.

Definition send_next (e : env) (b : batch) (dest0 : jsstring) (headers : bool) (repoName : jsstring)
    (queue : list file) (d : dialog) : dialog :=
  match queue with
  | [] => after_files e b dest0 repoName d
  | f :: rest =>
      put_batch (at_stage (Sending dest0 headers repoName f rest) b)
        (record_entry (Sent (bid b) (file_request (signed b) dest0 headers e f)) (mark_status f Uploading d))
  end.

(** The batch after the check of the space. A repository beyond Latin-1 is not held. *)
Definition begin_sending (space : option (Z * Z)) (e : env) (b : batch) (d : dialog) : option dialog :=
  let '(insufficient, d) := updateUploadSpaceCheck space d in
  if insufficient then Some (remove_batch (bid b) (showAlert NoSpace d))
  else
    match path_segments (pathname e) with
    | [] => Some (remove_batch (bid b) d)
    | repoSegment :: _ =>
        match decodePathSegment repoSegment with
        | Wide_seg => None
        | Seg repoName =>
            let queue := upload_queue (pendingFiles d) in
            let b := {| bid := bid b; signed := signed b; plan := queue; stage_of := stage_of b |} in
            Some (send_next e b (dest e) (checksums e) repoName queue
                    (with_busy true true (record_entry (Began (bid b) (pendingFiles d)) d)))
        end
    end.

(** The outcome of a transfer: whether it succeeded and waits for a review, or a rejection. *)
Definition settle (b : batch) (f : file) (out : result unit (bool * bool)) (d : dialog) : dialog :=
  match out with
  | Ok (true, review) =>
      record_entry (Settled (bid b) f true) (showAlert (Uploaded (name f) review) (mark_status f Done d))
  | _ => record_entry (Settled (bid b) f false) (showAlert (FailedUpload (name f)) (mark_status f Failed d))
  end.

(** [Some ok], or a rejection, which is only reported to the console. *)
Definition pom_answered (b : batch) (ok : option bool) (d : dialog) : dialog :=
  finish_batch b (match ok with Some false => showAlert FailedPom d | _ => d end).

Inductive event :=
  | Add (files : list file)
  | RemoveClick (f : file)
  | RemovalEnds (k : nat)
  | ClearClick (rows : bool)
  | ClearEnds
  | UploadClick
  | SpaceAnswer (b : nat) (space : option (Z * Z)) (e : env)
  | RenderAnswer (space : option (Z * Z))
  | Outcome (b : nat) (out : result unit (bool * bool)) (e : env)
  | PomAnswer (b : nat) (ok : option bool)
  | Policy (requires : bool)
  | PanelClosed.

Definition find_batch (n : nat) (d : dialog) : option batch := List.find (λ b, bid b =? n) (batches d).

Definition exec (ev : event) (d : dialog) : option dialog :=
  match ev with
  | Add files => Some (addPendingFiles files d)
  | RemoveClick f => Some (onRemoveHandler f d)
  | RemovalEnds k =>
      match removals d !! k with
      | Some currIdx => Some (cleanup currIdx (with_timers (delete k (removals d)) (clears d) (checks d) d))
      | None => None
      end
  | ClearClick rows => Some (clear_click rows d)
  | ClearEnds =>
      match clears d with
      | S n => Some (renderPendingFiles (with_pending [] (with_timers (removals d) n (checks d) d)))
      | O => None
      end
  | UploadClick => if button_disabled d then None else Some (upload_click d)
  | SpaceAnswer n space e =>
      match find_batch n d with
      | Some b => match stage_of b with Checking => begin_sending space e b d | _ => None end
      | None => None
      end
  | RenderAnswer space =>
      match checks d with
      | S n => Some (updateUploadSpaceCheck space (with_timers (removals d) (clears d) n d)).2
      | O => None
      end
  | Outcome n out e =>
      match find_batch n d with
      | Some b =>
          match stage_of b with
          | Sending dest0 headers repoName f rest =>
              Some (send_next e b dest0 headers repoName rest (settle b f out d))
          | _ => None
          end
      | None => None
      end
  | PomAnswer n ok =>
      match find_batch n d with
      | Some b => match stage_of b with Generating => Some (pom_answered b ok d) | _ => None end
      | None => None
      end
  | Policy requires =>
      Some {| pendingFiles := pendingFiles d; uploading := uploading d; button_disabled := button_disabled d;
              repositoryRequiresGPG := requires; removals := removals d; clears := clears d; checks := checks d;
              batches := batches d; next_batch := next_batch d; statuses := statuses d; alerts := alerts d;
              log := log d |}
  | PanelClosed => Some (with_pending [] d)
  end.

Fixpoint run (es : list event) (d : dialog) : option dialog :=
  match es with [] => Some d | e :: es => match exec e d with Some d' => run es d' | None => None end end.

Definition closed_dialog : dialog :=
  {| pendingFiles := []; uploading := false; button_disabled := false; repositoryRequiresGPG := false;
     removals := []; clears := 0; checks := 0; batches := []; next_batch := 0; statuses := []; alerts := [];
     log := [] |}.

Definition step (d d' : dialog) : Prop := ∃ ev, exec ev d = Some d'.

(** ** What a batch did *)


Definition sent_by (n : nat) (l : list entry) : list file :=
  omap (λ x, match x with Sent m r => if m =? n then Some (sent_file r) else None | _ => None end) l.






















Lemma find_batch_spec n d b : find_batch n d = Some b → b ∈ batches d ∧ bid b = n.
Proof. intros [H1 H2%Nat.eqb_eq]%find_elem. done. Qed.


Lemma space_check_same space d :
  let d' := (updateUploadSpaceCheck space d).2 in
  pendingFiles d' = pendingFiles d ∧ batches d' = batches d ∧ next_batch d' = next_batch d ∧ log d' = log d ∧
  uploading d' = uploading d.
Proof.
  unfold updateUploadSpaceCheck. destruct space as [[used total]|]; [|done]. cbv zeta. split_if; [done|].
  by destruct (uploading d) eqn:E.
Qed.










(** ** A batch ends *)

(** The answers a sending batch still waits for, at most. *)
Definition remaining (b : batch) : nat :=
  match stage_of b with
  | Checking => 0
  | Sending _ _ _ _ rest => S (S (length rest))
  | Generating => 1
  end.

Definition in_progress (b : batch) : Prop := stage_of b ≠ Checking.

Lemma find_put bs b n :
  List.find (λ k, bid k =? n) ((λ k, if bid k =? bid b then b else k) <$> bs)
  = match List.find (λ k, bid k =? n) bs with Some k => Some (if n =? bid b then b else k) | None => None end.
Proof.
  induction bs as [|k bs IH]; [done|]. rewrite fmap_cons. cbn [List.find].
  destruct (bid k =? bid b) eqn:E; bool_prop.
  - rewrite E. rewrite IH. destruct (bid b =? n) eqn:E2; bool_prop; [|done]. by rewrite <- E2, Nat.eqb_refl.
  - rewrite IH. destruct (bid k =? n) eqn:E2; [|done]. bool_prop. subst n.
    destruct (bid k =? bid b) eqn:E3; [bool_prop; congruence|done].
Qed.

Lemma find_remove bs n m :
  List.find (λ k, bid k =? n) (List.filter (λ k, negb (bid k =? m)) bs)
  = if n =? m then None else List.find (λ k, bid k =? n) bs.
Proof.
  induction bs as [|k bs IH]; [cbn; by destruct (n =? m)|]. cbn.
  destruct (bid k =? m) eqn:E; cbn; rewrite IH; bool_prop.
  - subst m. rewrite (Nat.eqb_sym n). destruct (bid k =? n) eqn:E2; [done|done].
  - destruct (bid k =? n) eqn:E2; bool_prop; [|done]. subst n.
    destruct (bid k =? m) eqn:E3; [bool_prop; congruence|done].
Qed.

(** Going on: the batch is over and the dialog free, or it waits for less. *)
Lemma send_next_remaining e b b0 dest0 headers repoName queue d :
  find_batch (bid b) d = Some b0 →
  let d' := send_next e b dest0 headers repoName queue d in
  (find_batch (bid b) d' = None ∧ uploading d' = false ∧ pendingFiles d' = []) ∨
  ∃ b', find_batch (bid b) d' = Some b' ∧ in_progress b' ∧ remaining b' ≤ S (length queue) ∧
        uploading d' = uploading d ∧ button_disabled d' = button_disabled d.
Proof.
  intros Hf. cbv zeta. unfold find_batch in *.
  assert (∀ d1, find_batch (bid b) (finish_batch b d1) = None ∧ uploading (finish_batch b d1) = false ∧
                pendingFiles (finish_batch b d1) = []) as Hfin.
  { intros d1. unfold find_batch. cbn. rewrite find_remove, Nat.eqb_refl. done. }
  unfold find_batch in Hfin. destruct queue as [|f rest]; cbn [send_next].
  - unfold after_files. destruct (pom e); [|left; apply Hfin].
    destruct (pom_fields e) as [[g a] v]. split_if; [|left; apply Hfin].
    right. exists (at_stage Generating b). cbn. rewrite (find_put _ (at_stage Generating b)), Hf. cbn.
    rewrite Nat.eqb_refl. split_and!; [done|done|lia|done|done].
  - right. exists (at_stage (Sending dest0 headers repoName f rest) b). cbn.
    rewrite (find_put _ (at_stage (Sending dest0 headers repoName f rest) b)), Hf. cbn.
    rewrite Nat.eqb_refl. split_and!; [done|done|cbn; lia|done|done].
Qed.

(** The batch an event answers. *)
Definition answers (ev : event) : option nat :=
  match ev with SpaceAnswer n _ _ | Outcome n _ _ | PomAnswer n _ => Some n | _ => None end.

Lemma settle_find out b f d n : find_batch n (settle b f out d) = find_batch n d.
Proof. by destruct out as [[[] review]|]. Qed.

Lemma answer_remaining n b ev d d' :
  find_batch n d = Some b → answers ev = Some n → exec ev d = Some d' → in_progress b →
  (find_batch n d' = None ∧ uploading d' = false ∧ pendingFiles d' = []) ∨
  ∃ b', find_batch n d' = Some b' ∧ in_progress b' ∧ remaining b' < remaining b.
Proof.
  intros Hb Ha He Hp. destruct (find_batch_spec _ _ _ Hb) as [_ Hid].
  destruct ev as [fs|f|k|rows| | |m space e|space|m out e|m ok|r|]; try done; injection Ha as ->;
    cbn [exec] in He; rewrite Hb in He.
  - unfold in_progress in Hp. by destruct (stage_of b).
  - destruct (stage_of b) as [|dest0 headers repoName f rest|] eqn:Es; [done| |done]. injection He as <-.
    rewrite <- Hid in Hb. pose proof (settle_find out b f d (bid b)) as Hset. rewrite Hb in Hset.
    destruct (send_next_remaining e b b dest0 headers repoName rest _ Hset) as [H|(b' & H1 & H2 & H3 & _)];
      rewrite Hid in *; [by left|right]. exists b'. split_and!; [done|done|]. unfold remaining at 2. rewrite Es. lia.
  - destruct (stage_of b) eqn:Es; [done..|]. injection He as <-. left. unfold pom_answered, find_batch. cbn.
    set (d1 := match ok with Some false => _ | _ => _ end). rewrite Hid, find_remove, Nat.eqb_refl. done.
Qed.

Lemma space_find space d n : find_batch n (updateUploadSpaceCheck space d).2 = find_batch n d.
Proof. unfold find_batch. by rewrite (proj1 (proj2 (space_check_same space d))). Qed.

Lemma others_find_send e b dest0 headers repoName queue d n :
  n ≠ bid b → find_batch n (send_next e b dest0 headers repoName queue d) = find_batch n d.
Proof.
  intros Hn. apply Nat.eqb_neq in Hn. unfold find_batch.
  assert (∀ d1, batches d1 = batches d → List.find (λ k, bid k =? n) (batches (finish_batch b d1))
    = List.find (λ k, bid k =? n) (batches d)) as Hfin.
  { intros d1 E. cbn. by rewrite find_remove, Hn, E. }
  assert (∀ s, List.find (λ k, bid k =? n) ((λ k, if bid k =? bid b then at_stage s b else k) <$> batches d)
    = List.find (λ k, bid k =? n) (batches d)) as Hput.
  { intros s. rewrite (find_put _ (at_stage s b)). cbn. rewrite Hn. by destruct (List.find _ _). }
  destruct queue as [|f rest]; cbn [send_next]; [|apply Hput].
  unfold after_files. destruct (pom e); [|by apply Hfin].
  destruct (pom_fields e) as [[g a] v]. split_if; [apply Hput|by apply Hfin].
Qed.

(** Nothing but the batch's own answers touches it. *)
Lemma others_leave_batch n b ev d d' :
  find_batch n d = Some b → answers ev ≠ Some n → exec ev d = Some d' → find_batch n d' = Some b.
Proof.
  intros Hb Ha He. destruct ev as [fs|f|k|rows| | |m space e|space|m out e|m ok|r|]; cbn [exec answers] in He, Ha.
  - injection He as <-. unfold addPendingFiles, renderPendingFiles. by destruct (pendingFiles _).
  - injection He as <-. unfold onRemoveHandler. destruct (uploading d); [done|]. by destruct (position _ _).
  - destruct (removals d !! k); [|done]. injection He as <-. unfold cleanup, renderPendingFiles.
    by destruct (pendingFiles _).
  - injection He as <-. unfold clear_click. destruct (uploading d); [done|]. by destruct rows.
  - destruct (clears d); [done|]. by injection He as <-.
  - destruct (button_disabled d); [done|]. injection He as <-. unfold upload_click.
    destruct (pendingFiles d); [done|]. destruct (uploading d); [done|]. split_if; [done|].
    unfold find_batch in *. cbn. clear Ha. revert Hb. induction (batches d) as [|k bs IH]; [done|]. cbn.
    destruct (bid k =? n); [done|apply IH].
  - destruct (find_batch m d) as [b1|] eqn:E1; [|done]. destruct (stage_of b1); [|done..].
    destruct (find_batch_spec _ _ _ E1) as [_ <-]. assert (n ≠ bid b1) as Hn by congruence.
    unfold begin_sending in He. pose proof (space_find space d n) as Hs. rewrite Hb in Hs.
    destruct (updateUploadSpaceCheck space d) as [insufficient d1]. cbn in Hs.
    assert (find_batch n (remove_batch (bid b1) d1) = Some b) as Hrem.
    { unfold find_batch in *. cbn. apply Nat.eqb_neq in Hn. by rewrite find_remove, Hn. }
    destruct insufficient; [by injection He as <-|]. destruct (path_segments _); [by injection He as <-|].
    destruct (decodePathSegment _); [|done]. injection He as <-. by rewrite others_find_send.
  - destruct (checks d); [done|]. injection He as <-. by rewrite space_find.
  - destruct (find_batch m d) as [b1|] eqn:E1; [|done]. destruct (stage_of b1); [done| |done].
    destruct (find_batch_spec _ _ _ E1) as [_ <-]. injection He as <-.
    rewrite others_find_send by congruence. by rewrite settle_find.
  - destruct (find_batch m d) as [b1|] eqn:E1; [|done]. destruct (stage_of b1); [done..|].
    destruct (find_batch_spec _ _ _ E1) as [_ <-]. assert (n ≠ bid b1) as Hn by congruence. injection He as <-.
    unfold pom_answered, find_batch. cbn. apply Nat.eqb_neq in Hn. rewrite find_remove, Hn. by destruct ok as [[]|].
  - by injection He as <-.
  - by injection He as <-.
Qed.

(** While the dialog is busy its button is off and a batch is in progress. *)
Definition busy_ok (d : dialog) : Prop :=
  uploading d = true → button_disabled d = true ∧ ∃ n b, find_batch n d = Some b ∧ in_progress b.

Lemma busy_step d d' : busy_ok d → step d d' → busy_ok d'.
Proof.
  intros Hb [ev He]. unfold busy_ok.
  assert (∀ n b, find_batch n d = Some b → answers ev ≠ Some n → find_batch n d' = Some b) as Hkeep
    by (intros n b H1 H2; by eapply others_leave_batch).
  assert (answers ev = None → uploading d' = uploading d →
    (uploading d = true → button_disabled d = true → button_disabled d' = true) → busy_ok d') as Hsimple.
  { intros Ha Hu Hbt H. rewrite Hu in H. destruct (Hb H) as (H1 & n & b & H2 & H3). split; [by apply Hbt|].
    exists n, b. split; [|done]. apply Hkeep; [done|by rewrite Ha]. }
  destruct ev as [fs|f|k|rows| | |m space e|space|m out e|m ok|r|]; cbn [exec] in He.
  - injection He as <-. unfold addPendingFiles, renderPendingFiles in *.
    destruct (pendingFiles (with_pending _ _)); by apply Hsimple.
  - injection He as <-. unfold onRemoveHandler in *. destruct (uploading d) eqn:Eu; [by apply Hsimple|].
    destruct (position _ _); apply Hsimple; cbn; by rewrite ?Eu.
  - destruct (removals d !! k); [|done]. injection He as <-. unfold cleanup, renderPendingFiles in *.
    destruct (pendingFiles (with_pending _ _)); by apply Hsimple.
  - injection He as <-. unfold clear_click in *. destruct (uploading d) eqn:Eu; [by apply Hsimple|].
    destruct rows; apply Hsimple; cbn; by rewrite ?Eu.
  - destruct (clears d); [done|]. injection He as <-. by apply Hsimple.
  - destruct (button_disabled d) eqn:Ed; [done|]. intros Hu. exfalso. destruct (Hb) as [H _]; [|congruence].
    injection He as <-. revert Hu. unfold upload_click. destruct (pendingFiles d); [done|].
    destruct (uploading d) eqn:Eu; [done|]. split_if; cbn; by rewrite Eu.
  - destruct (find_batch m d) as [b1|] eqn:E1; [|done]. destruct (stage_of b1) eqn:Es; [|done..].
    unfold begin_sending in He. pose proof (space_find space d m) as Hf. rewrite E1 in Hf.
    destruct (find_batch_spec _ _ _ E1) as [_ <-].
    assert (uploading (updateUploadSpaceCheck space d).2 = uploading d) as Hup by apply space_check_same.
    assert (uploading d = true → button_disabled (updateUploadSpaceCheck space d).2 = true) as Hbt.
    { intros Hu. destruct (Hb Hu) as [H _]. unfold updateUploadSpaceCheck. destruct space as [[used total]|]; [|done].
      cbv zeta. split_if; [done|]. by rewrite Hu. }
    assert (uploading d = true → ∃ n b, find_batch n d' = Some b ∧ in_progress b) as Hin.
    { intros Hu. destruct (Hb Hu) as (_ & n & b & H2 & H3). exists n, b. split; [|done].
      apply Hkeep; [done|]. cbn. intros [= E]. rewrite <- E, E1 in H2. injection H2 as <-. by apply H3. }
    destruct (updateUploadSpaceCheck space d) as [insufficient d1]. cbn in *.
    destruct insufficient; [|destruct (path_segments _); [|destruct (decodePathSegment _) as [repoName|]; [|done]]].
    1-2: injection He as <-; cbn; intros Hu; rewrite Hup in Hu; split; [by apply Hbt|by apply Hin].
    injection He as He. set (b2 := {| bid := bid b1; signed := _; plan := _; stage_of := _ |}) in He.
    intros Hu. destruct (send_next_remaining e b2 b1 (dest e) (checksums e) repoName (upload_queue (pendingFiles d1))
      (with_busy true true (record_entry (Began (bid b1) (pendingFiles d1)) d1)) Hf) as [(_ & H & _)|(b' & H1 & H2 & _ & _ & H3)]; rewrite He in *; [congruence|].
    split; [done|]. by exists (bid b2), b'.
  - destruct (checks d) as [|k]; [done|]. injection He as <-. apply Hsimple; [done|apply (space_check_same space (with_timers (removals d) (clears d) k d))|].
    cbn. intros Hu H. unfold updateUploadSpaceCheck. destruct space as [[used total]|]; [|done].
    cbv zeta. split_if; [done|]. cbn. by rewrite Hu.
  - destruct (find_batch m d) as [b1|] eqn:E1; [|done]. destruct (stage_of b1) as [|dest0 headers repoName f rest|] eqn:Es; [done| |done].
    injection He as He. intros Hu. pose proof (settle_find out b1 f d (bid b1)) as Hset.
    destruct (find_batch_spec _ _ _ E1) as [_ <-]. rewrite E1 in Hset.
    destruct (send_next_remaining e b1 b1 dest0 headers repoName rest _ Hset) as [(_ & H & _)|(b' & H1 & H2 & _ & H3 & H4)];
      rewrite He in *; [congruence|].
    assert (uploading (settle b1 f out d) = uploading d ∧ button_disabled (settle b1 f out d) = button_disabled d)
      as [U1 U2] by (by destruct out as [[[] review]|]).
    rewrite H4, U2. split; [|by exists (bid b1), b']. apply Hb. by rewrite <- U1, <- H3.
  - destruct (find_batch m d) as [b1|] eqn:E1; [|done]. destruct (stage_of b1); [done..|]. injection He as <-.
    intros Hu. by unfold pom_answered in Hu.
  - injection He as <-. by apply Hsimple.
  - injection He as <-. by apply Hsimple.
Qed.

Lemma reachable_busy d : reachable (λ d, d = closed_dialog) step d → busy_ok d.
Proof. apply invariant_reachable; [by intros s ->|]. intros s s'. apply busy_step. Qed.






(** While the dialog is busy its upload button is off and a batch is in progress. Such a batch is
    changed by the answers to its own requests only; each of them leaves it fewer answers to wait for, or
    ends it with the dialog free and the list empty. So no outcome of a transfer, a rejection
    included, leaves the dialog busy for ever. *)
Theorem upload_progress d :
  reachable (λ d, d = closed_dialog) step d →
  (uploading d = true → button_disabled d = true ∧ ∃ n b, find_batch n d = Some b ∧ in_progress b) ∧
  ∀ n b ev d', find_batch n d = Some b → in_progress b → exec ev d = Some d' →
    if decide (answers ev = Some n) then
      (find_batch n d' = None ∧ uploading d' = false ∧ pendingFiles d' = []) ∨
      ∃ b', find_batch n d' = Some b' ∧ in_progress b' ∧ remaining b' < remaining b
    else find_batch n d' = Some b.
Proof.
  intros Hr. split; [by apply reachable_busy|]. intros n b ev d' Hf Hp He.
  destruct (decide (answers ev = Some n)) as [Ha|Ha]; [by eapply answer_remaining|by eapply others_leave_batch].
Qed.

(** ** Runs *)

Lemma upload_run_reachable es d d' :
  reachable (λ d, d = closed_dialog) step d → run es d = Some d' → reachable (λ d, d = closed_dialog) step d'.
Proof.
  revert d. induction es as [|ev es IH]; intros d Hr; cbn; [by intros [= <-]|].
  destruct (exec ev d) as [d1|] eqn:E; [|done]. apply IH. eapply reachable_step; [exact Hr|]. by exists ev.
Qed.

Lemma closed_reachable : reachable (λ d, d = closed_dialog) step closed_dialog.
Proof. by apply reachable_init. Qed.

Definition artifact (n : nat) : file := {| fid := n; name := js "a" ++ str_of_nat n ++ js ".jar"; size := 1000 |}.
Definition signature (n : nat) : file :=
  {| fid := 100 + n; name := js "a" ++ str_of_nat n ++ js ".jar.asc"; size := 200 |}.

Definition example_env : env :=
  {| dest := "libs/org"; checksums := false; pathname := "/libs/org"; pom := false; pom_fields := ([], [], []) |}.

Definition enough : option (Z * Z) := Some (0, 1000000000)%Z.



Lemma upload_progress_witness :
  ∃ d, run [Add [artifact 1]; UploadClick; SpaceAnswer 0 enough example_env] closed_dialog = Some d ∧
    uploading d = true ∧ button_disabled d = true.
Proof.
  eexists. split; [vm_compute; reflexivity|]. split; [reflexivity|].
  match goal with |- button_disabled ?d = true => destruct (upload_progress d) as [H _];
    [apply (upload_run_reachable [Add [artifact 1]; UploadClick; SpaceAnswer 0 enough example_env] closed_dialog);
      [exact closed_reachable|vm_compute; reflexivity]|]; exact (proj1 (H eq_refl)) end.
Defined.

(** ** What the interleavings allow *)

(** Two rows are removed within the time of an animation: the second removal takes the file behind. *)
Lemma second_removal_hits_another :
  ∃ d, run [Add [artifact 1; artifact 2; artifact 3]; RemoveClick (artifact 1); RemoveClick (artifact 2);
            RemovalEnds 0; RemovalEnds 0] closed_dialog = Some d ∧
    pendingFiles d = [artifact 2].
Proof. eexists. split; vm_compute; reflexivity. Qed.

(** Two clicks while the free space is asked for: every file is sent twice. *)
Lemma double_click_sends_twice :
  ∃ d, run [Add [artifact 1]; UploadClick; UploadClick; SpaceAnswer 0 enough example_env;
            SpaceAnswer 1 enough example_env] closed_dialog = Some d ∧
    sent_by 0 (log d) = [artifact 1] ∧ sent_by 1 (log d) = [artifact 1].
Proof. eexists. split_and!; vm_compute; reflexivity. Qed.

(** A file chosen while a batch is sent, in a dialog opened from the keyboard or before, vanishes with the
    end of the batch. *)
Lemma added_during_upload_vanishes :
  ∃ d, run [Add [artifact 1]; UploadClick; SpaceAnswer 0 enough example_env; Add [artifact 2];
            Outcome 0 (Ok (true, false)) example_env] closed_dialog = Some d ∧
    pendingFiles d = [] ∧ sent_by 0 (log d) = [artifact 1].
Proof. eexists. split_and!; vm_compute; reflexivity. Qed.

(** A file added while the list is cleared vanishes; a batch begun meanwhile still sends the files
    that were cleared. *)
Lemma clear_takes_later_files :
  ∃ d, run [Add [artifact 1]; ClearClick true; Add [artifact 2]; ClearEnds] closed_dialog = Some d ∧
    pendingFiles d = [].
Proof. eexists. split_and!; vm_compute; reflexivity. Qed.

(** An artifact added while the free space is asked for is sent without the signature the policy
    requires. *)
Lemma unsigned_after_click :
  ∃ d, run [Policy true; Add [artifact 1; signature 1]; UploadClick; Add [artifact 2];
            SpaceAnswer 0 enough example_env; Outcome 0 (Ok (true, false)) example_env] closed_dialog = Some d ∧
    sent_by 0 (log d) = [artifact 1; artifact 2].
Proof. eexists. split_and!; vm_compute; reflexivity. Qed.
