(* ===== verification/Browser.v ===== *)
(** * The browser of repositories

    [internal/service/frontend/renop-html/js/browser.js]: the breadcrumb and its reconciliation with
    the links on the page, the cache of prefetched addresses, and the loading of a directory, which
    overlaps with later navigations and drives the panels beside the list ([Snippets], [Upload], the
    statistics). The rows of the list, transitions and heights are left out; the views of the
    package formats are one step that may fail. *)

From S2P Require Import Prelude JsText JsValue BrowserUtils Formats.
Local Open Scope nat_scope.

#[local] Arguments cons {A} & _ _.

(** ** The breadcrumb *)

(** A decoded segment, or the translation of a key. *)
Inductive label := Named (s : segment) | Translated (key : jsstring).

Record link := { href : jsstring; text : label; isCurrent : bool; i18nKey : option jsstring }.
Inductive crumb := Sep | Link (l : link).

Definition packages_key (format : jsstring) : jsstring :=
  if eqs format "npm" then "npm.packages" else "cargo.packagesTitle".

(** The loop over the parts: [i] and [currentPath] so far. *)
Fixpoint crumbs_from (format : jsstring) (i : nat) (currentPath : jsstring) (parts : list jsstring) : list crumb :=
  match parts with
  | [] => []
  | p :: parts =>
      let currentPath := currentPath ++ js "/" ++ p in
      let decoded := decodePathSegment p in
      let packagesRoute := (eqs format "cargo" || eqs format "npm") && (i =? 1) && is_seg decoded "packages" in
      Sep :: Link {| href := currentPath;
                     text := if packagesRoute then Translated (packages_key format) else Named decoded;
                     isCurrent := match parts with [] => true | _ => false end;
                     i18nKey := if packagesRoute then Some (packages_key format) else None |}
          :: crumbs_from format (S i) currentPath parts
  end.

Definition desired (path format : jsstring) : list crumb :=
  let parts := breadcrumbPathParts path format in
  Link {| href := "/"; text := Translated "browser.root"; isCurrent := match parts with [] => true | _ => false end;
          i18nKey := Some (js "browser.root") |}
    :: crumbs_from format 0 [] parts.

(** The links of the page, from the left, as long as they match; a matching link keeps its text when it
    has no key. *)
Fixpoint matched (existing wanted : list crumb) : list crumb * list crumb :=
  match existing, wanted with
  | Sep :: existing, Sep :: wanted => let '(kept, new) := matched existing wanted in (Sep :: kept, new)
  | Link l :: existing, Link d :: wanted =>
      if eqs (href l) (href d) then
        let '(kept, new) := matched existing wanted in
        (Link {| href := href l; text := match i18nKey d with Some _ => text d | None => text l end;
                 isCurrent := isCurrent d; i18nKey := i18nKey d |} :: kept, new)
      else ([], Link d :: wanted)
  | _, wanted => ([], wanted)
  end.

Definition reconcile (existing wanted : list crumb) : list crumb :=
  let '(kept, new) := matched existing wanted in kept ++ new.

(** [upDirBtn.href]; [None] is the hidden button. *)
Definition up_href (path format : jsstring) : option jsstring :=
  if negb (truthy path) || eqs path "/" then None
  else
    let pathParts := breadcrumbPathParts path format in
    if length pathParts <=? 1 then Some (js "/") else Some (js "/" ++ join "/" (removelast pathParts)).

(** A crumb without its text. *)
Definition shape (c : crumb) : option (jsstring * bool * option jsstring) :=
  match c with Sep => None | Link l => Some (href l, isCurrent l, i18nKey l) end.

Lemma matched_shape existing wanted :
  shape <$> (matched existing wanted).1 ++ (matched existing wanted).2 = shape <$> wanted.
Proof.
  revert wanted. induction existing as [|[|l] existing IH]; intros wanted; [by destruct wanted as [|[]]| |];
    destruct wanted as [|[|d] wanted]; try done; cbn [matched].
  - specialize (IH wanted). destruct (matched existing wanted) as [kept new]. cbn in *. by f_equal.
  - destruct (eqs (href l) (href d)) eqn:E; [|done]. apply eqs_true in E as ->.
    specialize (IH wanted). destruct (matched existing wanted) as [kept new]. cbn in *. by f_equal.
Qed.

(** The text of a link is right when its address had this text before, or when it has a key. *)
Definition text_known (existing : list crumb) (d : link) : Prop :=
  i18nKey d = None → ∀ l, Link l ∈ existing → href l = href d → text l = text d.

Lemma matched_text existing wanted :
  (∀ d, Link d ∈ wanted → text_known existing d) →
  (matched existing wanted).1 ++ (matched existing wanted).2 = wanted.
Proof.
  revert wanted. induction existing as [|[|l] existing IH]; intros wanted H; [by destruct wanted as [|[]]| |];
    destruct wanted as [|[|d] wanted]; try done; cbn [matched].
  - specialize (IH wanted). destruct (matched existing wanted) as [kept new]. cbn in *. f_equal. apply IH.
    intros d Hd Hk lk Hl. apply (H d); [by right|done|by right].
  - destruct (eqs (href l) (href d)) eqn:E; [|done]. apply eqs_true in E.
    specialize (IH wanted). destruct (matched existing wanted) as [kept new]. cbn in *. f_equal.
    + pose proof (H d ltac:(by left)) as Hd. unfold text_known in Hd. destruct d as [hr tx cu ke]. cbn in *. subst hr.
      destruct ke; [done|]. by rewrite (Hd eq_refl l ltac:(by left) eq_refl).
    + apply IH. intros d' Hd' Hk l' Hl'. apply (H d'); [by right|done|by right].
Qed.

(** The addresses: each link leads one part further. *)
Lemma crumbs_hrefs format i cur parts :
  omap (λ c, match c with Link l => Some (href l) | Sep => None end) (crumbs_from format i cur parts)
  = (λ n, cur ++ js "/" ++ join "/" (take (S n) parts)) <$> seq 0 (length parts).
Proof.
  revert i cur. induction parts as [|p parts IH]; intros i cur; [done|]. cbn [crumbs_from length seq].
  cbn [omap list_omap]. rewrite fmap_cons. f_equal.
  rewrite IH, <- (fmap_S_seq 0), <- list_fmap_compose. apply list_fmap_ext. intros k n Hn. cbn [compose].
  apply lookup_seq in Hn as [-> Hk]. cbn [plus].
  destruct parts as [|q parts]; [cbn in Hk; lia|]. rewrite (firstn_cons (S k) p). rewrite firstn_cons.
  rewrite (join_cons _ p) by done. by rewrite <- !app_assoc.
Qed.

(** The reconciled breadcrumb has the addresses, the marks and the keys of the wanted one, whatever
    was on the page, and its texts too unless an address had another text before. Its links lead from
    the root one part further each; the last one spells the path, and the up button leads to the link
    before. *)
Theorem breadcrumb_reconciled existing path format :
  shape <$> reconcile existing (desired path format) = shape <$> desired path format ∧
  ((∀ d, Link d ∈ desired path format → text_known existing d) →
   reconcile existing (desired path format) = desired path format) ∧
  omap (λ c, match c with Link l => Some (href l) | Sep => None end) (desired path format)
    = js "/" :: ((λ n, js "/" ++ join "/" (take (S n) (breadcrumbPathParts path format)))
                 <$> seq 0 (length (breadcrumbPathParts path format))) ∧
  (path_segments path ≠ [] → ∃ h, up_href path format = Some h ∧
     (h = js "/" ∨ h = js "/" ++ join "/" (removelast (breadcrumbPathParts path format)))).
Proof.
  split; [|split; [|split]].
  - unfold reconcile. pose proof (matched_shape existing (desired path format)) as H.
    by destruct (matched existing (desired path format)).
  - intros H%matched_text. unfold reconcile. by destruct (matched existing (desired path format)).
  - unfold desired. cbn [omap list_omap href]. f_equal. apply crumbs_hrefs.
  - intros Hne. unfold up_href. destruct (negb (truthy path) || eqs path "/") eqn:E.
    + exfalso. apply Hne. apply orb_true_iff in E as [E|E].
      * apply negb_true_iff, truthy_false in E as ->. done.
      * apply eqs_true in E as ->. done.
    + split_if; eexists; (split; [reflexivity|]); [by left|by right].
Qed.

(** Below a Cargo repository the part [packages] is a route with a translated name. The address is met
    again as a directory of a repository of files: the link keeps the translated name. *)
Lemma breadcrumb_keeps_name :
  ∃ l, reconcile (desired "/repo/packages" "cargo") (desired "/repo/packages" "files")
         !! 4 = Some (Link l) ∧ text l = Translated "cargo.packagesTitle" ∧
       desired "/repo/packages" "files" !! 4
         = Some (Link {| href := "/repo/packages"; text := Named (Seg "packages"); isCurrent := true; i18nKey := None |}).
Proof. eexists. split_and!; vm_compute; reflexivity. Qed.

(** ** Prefetched addresses *)

Definition MAX_PREFETCH_CACHE_ENTRIES : nat := 128.

(** The map in the order of insertion, and the links in the document. A value is the link's identity
    while it loads, [None] once it is loaded. *)
Record prefetch := { cache : list (jsstring * option nat); links : list nat; next_link : nat }.

Definition cached (url : jsstring) (p : prefetch) : option (option nat) := assoc (cache p) url.

Definition remove_link (n : nat) (ls : list nat) : list nat := List.filter (λ k, negb (k =? n)) ls.

(** Adds at the end: the address is not in the map. *)
Definition prefetchUrl (url : jsstring) (p : prefetch) : prefetch :=
  if negb (truthy url) || match cached url p with Some _ => true | None => false end then p
  else
    let p := if MAX_PREFETCH_CACHE_ENTRIES <=? length (cache p) then
               match cache p with
               | (oldest, l) :: rest =>
                   {| cache := delete_key (cache p) oldest;
                      links := match l with Some n => remove_link n (links p) | None => links p end;
                      next_link := next_link p |}
               | [] => p
               end else p in
    {| cache := cache p ++ [pair url (Some (next_link p))]; links := links p ++ [next_link p];
       next_link := S (next_link p) |}.

(** [prefetchCache.get(url) === link] *)
Definition loading_link (url : jsstring) (n : nat) (p : prefetch) : bool :=
  match cached url p with Some (Some k) => k =? n | _ => false end.

(** The end of the load of a link for an address, or its failure. *)
Definition prefetch_done (url : jsstring) (n : nat) (good : bool) (p : prefetch) : prefetch :=
  {| cache := if loading_link url n p then (if good then (λ e, if eqs e.1 url then pair e.1 None else e) <$> cache p
                            else delete_key (cache p) url)
              else cache p;
     links := remove_link n (links p); next_link := next_link p |}.

Record prefetch_ok (p : prefetch) : Prop := {
  pf_nodup : NoDup (cache p).*1;
  pf_size : length (cache p) ≤ MAX_PREFETCH_CACHE_ENTRIES
}.

Lemma prefetch_ok_url url p : prefetch_ok p → prefetch_ok (prefetchUrl url p).
Proof.
  intros [Hd Hs]. unfold prefetchUrl. destruct (negb (truthy url) || _) eqn:E; [done|].
  apply orb_false_iff in E as [_ E]. unfold cached in E. destruct (assoc (cache p) url) eqn:Ea; [done|].
  apply assoc_None in Ea. cbv zeta.
  assert (∀ c, NoDup c.*1 → url ∉ c.*1 → length c < MAX_PREFETCH_CACHE_ENTRIES →
    NoDup (c ++ [pair url (Some (next_link p))]).*1 ∧ length (c ++ [pair url (Some (next_link p))]) ≤ MAX_PREFETCH_CACHE_ENTRIES) as Hadd.
  { intros c Hc Hu Hl. rewrite fmap_app, length_app. split; [|cbn; lia]. apply NoDup_app.
    split_and!; [done| |apply NoDup_singleton]. intros x Hx ->%list_elem_of_singleton. done. }
  destruct (MAX_PREFETCH_CACHE_ENTRIES <=? length (cache p)) eqn:El; bool_prop.
  - destruct (cache p) as [|[oldest l] rest] eqn:Ec; [unfold MAX_PREFETCH_CACHE_ENTRIES in El; cbn in El; lia|].
    assert (NoDup (delete_key ((oldest, l) :: rest) oldest).*1) as Hd' by (by apply filter_nodup_fst).
    assert (url ∉ (delete_key ((oldest, l) :: rest) oldest).*1) as Hu'.
    { intros (e & -> & He)%list_elem_of_fmap. apply list_elem_of_In, filter_In in He as [He _].
      apply Ea. apply list_elem_of_fmap. exists e. split; [done|by apply list_elem_of_In]. }
    assert (length (delete_key ((oldest, l) :: rest) oldest) < MAX_PREFETCH_CACHE_ENTRIES) as Hl'.
    { unfold delete_key. cbn [List.filter fst]. rewrite eqs_refl. cbn [negb].
      pose proof (filter_le (λ e : jsstring * option nat, negb (eqs e.1 oldest)) rest). cbn [length] in Hs. lia. }
    destruct (Hadd _ Hd' Hu' Hl'). by split.
  - destruct (Hadd _ Hd Ea El). by split.
Qed.

Lemma prefetch_ok_done url n good p : prefetch_ok p → prefetch_ok (prefetch_done url n good p).
Proof.
  intros [Hd Hs]. split; unfold prefetch_done; cbn [cache].
  - destruct (loading_link url n p); [|done]. destruct good; [|by apply filter_nodup_fst].
    rewrite <- list_fmap_compose, (list_fmap_ext _ fst (cache p)); [done|].
    intros i e _. cbn. by destruct (eqs e.1 url).
  - destruct (loading_link url n p); [|done]. destruct good; [by rewrite length_fmap|].
    unfold delete_key. pose proof (filter_le (λ e : jsstring * option nat, negb (eqs e.1 url)) (cache p)). lia.
Qed.

(** ** The rows of a directory *)

(** A row, its identity, the directory it links into, and whether it is on its way out. *)
Record row := { row_id : nat; row_file : file; row_path : jsstring; removing : bool }.
Definition row_name (r : row) : jsstring := name (row_file r).

Definition visible (rows : list row) : list row := List.filter (λ r, negb (removing r)) rows.
Definition others (node : row) (rows : list row) : list row := List.filter (λ r, negb (row_id r =? row_id node)) rows.

(** Puts the row before the first one with the property, or at the end. *)
Fixpoint insert_before (p : row → bool) (node : row) (rows : list row) : list row :=
  match rows with
  | [] => [node]
  | r :: rows => if p r then node :: r :: rows else r :: insert_before p node rows
  end.

(** [insertAtVisibleIndex]: takes the row out first if it is in the list. *)
Definition insertAtVisibleIndex (rows : list row) (node : row) (visibleIndex : nat) : list row :=
  let rest := others node rows in
  match visible rest !! visibleIndex with
  | Some ref => insert_before (λ r, row_id r =? row_id ref) node rest
  | None => insert_before removing node rest
  end.

(** [existingMap.get(name)]: the last row of the name; a row without a name is not in the map. *)
Definition existing_row (rows : list row) (nm : jsstring) : option row :=
  if truthy nm then last (List.filter (λ r, eqs (row_name r) nm) rows) else None.

Definition new_name (files : list file) (nm : jsstring) : bool := existsb (λ f, eqs (name f) nm) files.

(** The rows of the map whose names are not displayed any more. *)
Definition mark_removed (files : list file) (rows : list row) : list row :=
  (λ r, match existing_row rows (row_name r) with
        | Some e => if (row_id e =? row_id r) && negb (new_name files (row_name r))
                    then {| row_id := row_id r; row_file := row_file r; row_path := row_path r; removing := true |}
                    else r
        | None => r
        end) <$> rows.

(** The loop over the files: [existing] are the rows before it, with their marks. *)
Fixpoint place (path : jsstring) (existing : list row) (files : list file) (index : nat) (rows : list row) (next : nat)
    : list row * nat :=
  match files with
  | [] => (rows, next)
  | f :: files =>
      let fresh := {| row_id := next; row_file := f; row_path := path; removing := false |} in
      match existing_row existing (name f) with
      | Some e =>
          if negb (removing e) then place path existing files (S index) (insertAtVisibleIndex rows e index) next
          else place path existing files (S index) (insertAtVisibleIndex rows fresh index) (S next)
      | None => place path existing files (S index) (insertAtVisibleIndex rows fresh index) (S next)
      end
  end.

Definition renderFileListReconciled (files : list file) (path : jsstring) (rows : list row) (next : nat) : list row * nat :=
  let marked := mark_removed files rows in place path marked files 0 marked next.

(** The rows of a list that is built anew. *)
Definition fresh_rows (files : list file) (path : jsstring) (next : nat) : list row * nat :=
  (imap (λ i f, {| row_id := next + i; row_file := f; row_path := path; removing := false |}) files,
   next + length files).

Definition out_row (r : row) : row :=
  {| row_id := row_id r; row_file := row_file r; row_path := row_path r; removing := true |}.

Lemma others_absent node rows : row_id node ∉ row_id <$> rows → others node rows = rows.
Proof.
  induction rows as [|r rows IH]; csimpl; [done|]. intros [Hr Hn]%not_elem_of_cons. unfold others. cbn [List.filter].
  destruct (row_id r =? row_id node) eqn:E; bool_prop; [congruence|]. cbn. f_equal. by apply IH.
Qed.

Lemma others_app node l k : others node (l ++ k) = others node l ++ others node k.
Proof. apply List.filter_app. Qed.

Lemma others_present node l k :
  NoDup (row_id <$> l ++ node :: k) → others node (l ++ node :: k) = l ++ k.
Proof.
  rewrite fmap_app, fmap_cons, NoDup_app, NoDup_cons. intros (_ & Hl & Hn & _). rewrite others_app.
  rewrite others_absent by (intros H; apply (Hl _ H); left). f_equal.
  unfold others. cbn [List.filter]. rewrite Nat.eqb_refl. by apply others_absent.
Qed.

Lemma visible_app l k : visible (l ++ k) = visible l ++ visible k.
Proof. apply List.filter_app. Qed.
Lemma visible_all l : Forall (λ r, removing r = false) l → visible l = l.
Proof. induction 1 as [|r l Hr _ IH]; [done|]. unfold visible. cbn. rewrite Hr. cbn. f_equal. apply IH. Qed.
Lemma visible_none l : Forall (λ r, removing r = true) l → visible l = [].
Proof. induction 1 as [|r l Hr _ IH]; [done|]. unfold visible. cbn. by rewrite Hr. Qed.

Lemma insert_before_app p node l k :
  Forall (λ r, p r = false) l → match k with r :: _ => p r = true | [] => True end →
  insert_before p node (l ++ k) = l ++ node :: k.
Proof.
  induction 1 as [|r l Hr _ IH]; cbn; intros Hk; [destruct k; [done|]; cbn; by rewrite Hk|].
  by rewrite Hr, IH.
Qed.

(** Behind the rows placed so far, when the rows on their way out are at the end. *)
Lemma insert_after_placed D Q R node rows :
  others node rows = D ++ Q ++ R → NoDup (row_id <$> D ++ Q ++ R) →
  Forall (λ r, removing r = false) (D ++ Q) → Forall (λ r, removing r = true) R →
  insertAtVisibleIndex rows node (length D) = D ++ node :: Q ++ R.
Proof.
  intros E Hd Hv HR. unfold insertAtVisibleIndex. rewrite E, app_assoc, visible_app, visible_all, visible_none by done.
  rewrite app_nil_r, <- app_assoc. destruct Q as [|q Q]; cbn [app].
  - rewrite lookup_ge_None_2 by (rewrite app_nil_r; lia). apply insert_before_app.
    + by rewrite app_nil_r in Hv.
    + by destruct HR.
  - rewrite list_lookup_middle by done. apply insert_before_app; [|apply Nat.eqb_refl].
    apply Forall_forall. intros r Hr. apply Nat.eqb_neq. intros Hq. rewrite fmap_app, NoDup_app in Hd.
    destruct Hd as (_ & Hd & _). apply (Hd (row_id r)); [by apply list_elem_of_fmap_2|]. rewrite Hq. left.
Qed.

Lemma existing_row_elem rows nm e : existing_row rows nm = Some e → e ∈ rows ∧ row_name e = nm ∧ truthy nm = true.
Proof.
  unfold existing_row. destruct (truthy nm); [|done]. intros H.
  apply last_Some_elem_of, list_elem_of_In, filter_In in H as [H E]. apply eqs_true in E. by rewrite list_elem_of_In.
Qed.

Lemma names_same rows r r' : NoDup (row_name <$> rows) → r ∈ rows → r' ∈ rows → row_name r = row_name r' → r = r'.
Proof.
  intros Hd (i & Hi)%list_elem_of_lookup (j & Hj)%list_elem_of_lookup E.
  assert (i = j) as <-; [|congruence]. eapply (NoDup_lookup _ i j (row_name r) Hd); rewrite list_lookup_fmap.
  - by rewrite Hi.
  - rewrite Hj. cbn. by rewrite E.
Qed.

Lemma existing_row_spec rows r :
  NoDup (row_name <$> rows) → r ∈ rows → truthy (row_name r) = true → existing_row rows (row_name r) = Some r.
Proof.
  intros Hd Hr Ht. destruct (existing_row rows (row_name r)) as [e|] eqn:E.
  - apply existing_row_elem in E as (He & En & _). f_equal. by eapply names_same.
  - unfold existing_row in E. rewrite Ht in E. apply last_None in E. exfalso.
    assert (r ∈ List.filter (λ k, eqs (row_name k) (row_name r)) rows) as H.
    { apply list_elem_of_In, filter_In. rewrite eqs_refl. by rewrite <- list_elem_of_In. }
    rewrite E in H. by apply not_elem_of_nil in H.
Qed.

Lemma ids_perm l k : l ≡ₚ k → NoDup (row_id <$> l) → NoDup (row_id <$> k).
Proof. intros H. by rewrite H. Qed.

Lemma Forall_perm {A} (P : A → Prop) l k : l ≡ₚ k → Forall P l → Forall P k.
Proof. intros H. rewrite !Forall_forall. intros HP x Hx. apply HP. by rewrite H. Qed.

(** A displayed row for a file: one of the rows that were there, or a new one into the directory. *)
Definition row_for (path : jsstring) (before : list row) (f : file) (r : row) : Prop :=
  row_name r = name f ∧ removing r = false ∧ (r ∈ before ∨ row_path r = path ∧ row_file r = f).

Section Place.
Variables (path : jsstring) (rows : list row) (first : nat).

(** [D] is placed, [Q] are the rows of later files, [R] are on their way out. *)
Record placing (files : list file) (D Q R : list row) (next : nat) : Prop := {
  pl_ids : NoDup (row_id <$> D ++ Q ++ R);
  pl_next : first ≤ next ∧ Forall (λ r, row_id r < next) (D ++ Q ++ R);
  pl_shown : Forall (λ r, removing r = false) (D ++ Q);
  pl_out : Forall (λ r, removing r = true) R;
  pl_later : ∀ r, r ∈ Q ↔ ∃ f, f ∈ files ∧ existing_row rows (name f) = Some r
}.

Lemma existing_row_other (files : list file) f f' r :
  name f ∉ name <$> files → f' ∈ files → existing_row rows (name f') = Some r → existing_row rows (name f) ≠ Some r.
Proof.
  intros Hn Hf' (_ & E & _)%existing_row_elem (_ & E2 & _)%existing_row_elem.
  apply Hn. rewrite <- E2, E. by apply list_elem_of_fmap_2.
Qed.

(** The row of the next file moves up. *)
Lemma placing_existing f files D Q1 e Q2 R next :
  existing_row rows (name f) = Some e → name f ∉ name <$> files → placing (f :: files) D (Q1 ++ e :: Q2) R next →
  placing files (D ++ [e]) (Q1 ++ Q2) R next ∧
  insertAtVisibleIndex (D ++ (Q1 ++ e :: Q2) ++ R) e (length D) = D ++ e :: (Q1 ++ Q2) ++ R.
Proof using.
  intros Ee Hfn [Hids [Hfirst Hnext] Hshown Hout Hlater].
  assert (D ++ (Q1 ++ e :: Q2) ++ R ≡ₚ (D ++ [e]) ++ (Q1 ++ Q2) ++ R) as Hp.
  { rewrite <- !app_assoc. apply Permutation_app_head. cbn [app]. symmetry. apply Permutation_middle. }
  assert (NoDup (row_id <$> e :: D ++ (Q1 ++ Q2) ++ R)) as Hperm.
  { eapply ids_perm; [|exact Hids]. rewrite Hp, <- app_assoc. symmetry. apply Permutation_middle. }
  assert (Forall (λ r, removing r = false) ((D ++ [e]) ++ Q1 ++ Q2)) as Hsh'.
  { eapply Forall_perm; [|exact Hshown]. rewrite <- app_assoc. apply Permutation_app_head. cbn [app]. symmetry. apply Permutation_middle. }
  split; [split; [| |done|done|]|].
  - by eapply ids_perm.
  - split; [done|]. by eapply Forall_perm.
  - intros r. transitivity (r ∈ Q1 ++ e :: Q2 ∧ r ≠ e).
    + rewrite fmap_cons, NoDup_cons in Hperm. destruct Hperm as [Hne _]. rewrite !elem_of_app, elem_of_cons.
      split; [|naive_solver]. intros Hr. split; [naive_solver|]. intros ->. apply Hne.
      apply list_elem_of_fmap_2. rewrite !elem_of_app. naive_solver.
    + rewrite Hlater. split.
      * intros [(f' & [->|Hf']%elem_of_cons & E) Hne]; [congruence|]. by exists f'.
      * intros (f' & Hf' & E). split; [exists f'; split; [by right|done]|]. intros ->. by apply (existing_row_other files f f' e).
  - apply insert_after_placed.
    + rewrite <- app_assoc, app_assoc, <- app_comm_cons, others_present; [by rewrite <- !app_assoc|].
      by rewrite app_comm_cons, <- app_assoc, (app_assoc Q1).
    + by inversion Hperm.
    + rewrite !Forall_app in *. naive_solver.
    + done.
Qed.

(** A new row for the next file. *)
Lemma placing_fresh f files D Q R next :
  let r := {| row_id := next; row_file := f; row_path := path; removing := false |} in
  existing_row rows (name f) = None → placing (f :: files) D Q R next →
  placing files (D ++ [r]) Q R (S next) ∧ insertAtVisibleIndex (D ++ Q ++ R) r (length D) = D ++ r :: Q ++ R.
Proof using.
  intros r Ee [Hids [Hfirst Hnext] Hshown Hout Hlater].
  assert (row_id r ∉ row_id <$> D ++ Q ++ R) as Hfr.
  { intros (k & Ek & Hk)%list_elem_of_fmap. rewrite Forall_forall in Hnext. apply Hnext in Hk. cbn in Ek. lia. }
  split; [split; [| | |done|]|]; rewrite <- ?app_assoc; cbn [app].
  - eapply ids_perm; [apply Permutation_middle|]. rewrite fmap_cons. apply NoDup_cons. by split.
  - split; [lia|]. apply (Forall_perm _ (r :: D ++ Q ++ R)); [apply Permutation_middle|].
    constructor; [cbn; lia|]. eapply Forall_impl; [exact Hnext|]. cbn. lia.
  - rewrite Forall_app, Forall_cons in *. naive_solver.
  - intros r'. rewrite Hlater. split.
    + intros (f' & [->|Hf']%elem_of_cons & E); [congruence|]. by exists f'.
    + intros (f' & Hf' & E). exists f'. split; [by right|done].
  - apply insert_after_placed; [by apply others_absent|done..].
Qed.

Lemma place_spec files D Q R next :
  NoDup (name <$> files) → placing files D Q R next →
  ∃ placed next', place path rows files (length D) (D ++ Q ++ R) next = (D ++ placed ++ R, next') ∧
    Forall2 (row_for path rows) files placed.
Proof using.
  revert D Q next. induction files as [|f files IH]; intros D Q next Hf Hp.
  { exists [], next. destruct Q as [|q Q]; [done|]. apply pl_later with (r := q) in Hp as [Hp _].
    destruct Hp as (f & Hf' & _); [left|]. by apply not_elem_of_nil in Hf'. }
  rewrite fmap_cons in Hf. apply NoDup_cons in Hf as [Hfn Hf].
  assert (∀ r Q' next, insertAtVisibleIndex (D ++ Q ++ R) r (length D) = D ++ r :: Q' ++ R →
    placing files (D ++ [r]) Q' R next → row_for path rows f r →
    ∃ placed next', place path rows files (S (length D)) (insertAtVisibleIndex (D ++ Q ++ R) r (length D)) next
      = (D ++ placed ++ R, next') ∧ Forall2 (row_for path rows) (f :: files) placed) as Hstep.
  { intros r Q' next1 -> Hp' Hr. destruct (IH (D ++ [r]) Q' _ Hf Hp') as (placed & next' & Hpl & HF).
    rewrite length_app, Nat.add_1_r, <- !app_assoc in Hpl. exists (r :: placed), next'. split; [exact Hpl|by constructor]. }
  cbn [place]. destruct (existing_row rows (name f)) as [e|] eqn:Ee.
  - assert (e ∈ Q) as HeQ by (apply (pl_later _ _ _ _ _ Hp); exists f; split; [left|done]).
    pose proof (proj1 (Forall_forall _ _) (pl_shown _ _ _ _ _ Hp) e ltac:(apply elem_of_app; by right)) as Hre. cbn in Hre.
    rewrite Hre. cbn [negb]. apply list_elem_of_split in HeQ as (Q1 & Q2 & ->).
    destruct (placing_existing f files D Q1 e Q2 R next Ee Hfn Hp) as [Hp' Ei].
    apply (Hstep e (Q1 ++ Q2)); [done|done|].
    apply existing_row_elem in Ee as (? & ? & _). split_and!; [done|done|by left].
  - destruct (placing_fresh f files D Q R next Ee Hp) as [Hp' Ei].
    apply (Hstep _ Q); [done|done|]. split_and!; [done|done|by right].
Qed.
End Place.

Lemma new_name_elem files nm : new_name files nm = true ↔ nm ∈ name <$> files.
Proof.
  unfold new_name. rewrite existsb_exists, list_elem_of_fmap. setoid_rewrite <- list_elem_of_In.
  split; intros (f & H1 & H2); exists f; [by apply eqs_true in H2 as ->|by subst; rewrite eqs_refl].
Qed.

Lemma mark_removed_spec files V R :
  NoDup (row_name <$> V ++ R) → Forall (λ r, truthy (row_name r) = true) (V ++ R) →
  Forall (λ r, row_name r ∈ name <$> files) V → Forall (λ r, row_name r ∉ name <$> files) R →
  mark_removed files (V ++ R) = V ++ (out_row <$> R).
Proof.
  intros Hd Ht HV HR. unfold mark_removed. rewrite fmap_app. f_equal.
  - etransitivity; [|apply list_fmap_id]. apply list_fmap_ext. intros i r Hr%list_elem_of_lookup_2.
    rewrite Forall_forall in *. specialize (HV r Hr). rewrite <- new_name_elem in HV. destruct (existing_row _ _); [|done].
    by rewrite HV, andb_false_r.
  - apply list_fmap_ext. intros i r Hr%list_elem_of_lookup_2. rewrite !Forall_forall in *. specialize (HR r Hr).
    assert (r ∈ V ++ R) as Hin by (apply elem_of_app; by right).
    rewrite existing_row_spec, Nat.eqb_refl by auto. rewrite <- new_name_elem in HR. by destruct (new_name files (row_name r)).
Qed.

(** Reloading the directory that is shown reuses its rows. When the rows that go are the last
    ones, the rows that stay and the new ones are exactly the displayed files, in their order, and a row that
    is reused is one that was shown; the others leave at the end of the list. *)
Theorem directory_reloaded files path V R next :
  NoDup (name <$> files) → NoDup (row_name <$> V ++ R) → NoDup (row_id <$> V ++ R) →
  Forall (λ r, truthy (row_name r) = true ∧ row_id r < next) (V ++ R) →
  Forall (λ r, removing r = false ∧ row_name r ∈ name <$> files) V →
  Forall (λ r, row_name r ∉ name <$> files) R →
  ∃ placed next', renderFileListReconciled files path (V ++ R) next = (placed ++ (out_row <$> R), next') ∧
    Forall2 (row_for path V) files placed ∧ visible (placed ++ (out_row <$> R)) = placed.
Proof.
  intros Hf Hn Hi Hok HV HR. unfold renderFileListReconciled.
  rewrite Forall_and in Hok, HV. destruct Hok as [Ht Hlt], HV as [Hsh HV]. rewrite mark_removed_spec by done.
  set (O := out_row <$> R).
  assert (row_name <$> V ++ O = row_name <$> V ++ R) as En by (rewrite !fmap_app; unfold O; by rewrite <- list_fmap_compose).
  assert (row_id <$> V ++ O = row_id <$> V ++ R) as Ei by (rewrite !fmap_app; unfold O; by rewrite <- list_fmap_compose).
  assert (Forall (λ r, removing r = true) O) as Hout by (apply Forall_fmap, Forall_true; done).
  assert (Forall (λ r, row_name r ∉ name <$> files) O) as HO by (by apply Forall_fmap).
  destruct (place_spec path (V ++ O) next files [] V O next Hf) as (placed & next' & Hp & HF).
  { split; cbn [app]; [by rewrite Ei| |done|done|].
    - split; [done|]. apply (Forall_fmap row_id (λ k, k < next)). rewrite Ei. by apply Forall_fmap.
    - intros r. split.
      + intros Hr. rewrite Forall_forall in HV. apply HV in Hr as Hrn. apply list_elem_of_fmap in Hrn as (f & Ef & Hf').
        exists f. split; [done|]. rewrite <- Ef. apply existing_row_spec; [by rewrite En|apply elem_of_app; by left|].
        rewrite Forall_app in Ht. destruct Ht as [Ht _]. rewrite Forall_forall in Ht. by apply Ht.
      + intros (f & Hf' & (Hr & Er & _)%existing_row_elem). apply elem_of_app in Hr as [Hr|Hr]; [done|].
        rewrite Forall_forall in HO. destruct (HO r Hr). rewrite Er. by apply list_elem_of_fmap_2. }
  exists placed, next'. split; [exact Hp|].
  assert (Forall2 (row_for path V) files placed) as HF'.
  { eapply Forall2_impl; [exact HF|]. intros f r (Hrn & Hrm & Hr). split_and!; [done|done|].
    destruct Hr as [[Hr|Hr]%elem_of_app|Hr]; [by left| |by right].
    rewrite Forall_forall in Hout. rewrite (Hout r Hr) in Hrm. done. }
  split; [done|]. rewrite visible_app, (visible_none O), app_nil_r by done. apply visible_all.
  clear -HF'. induction HF' as [|f r fs rs (_ & Hr & _)]; by constructor.
Qed.

Definition row_of (k : nat) (nm : jsstring) (path : jsstring) (out : bool) : row :=
  {| row_id := k; row_file := {| name := nm; type := "FILE" |}; row_path := path; removing := out |}.
Definition file_of (nm : jsstring) : file := {| name := nm; type := "FILE" |}.

(** A row that goes from between others (the preference for checksum files is switched off): the last
    displayed file is put before it, and comes first. *)
Lemma reload_misplaces :
  row_name <$> visible (renderFileListReconciled (file_of <$> [js "a.jar"; js "b.jar"]) "/libs"
    [row_of 0 "a.jar" "/libs" false; row_of 1 "a.jar.md5" "/libs" false; row_of 2 "b.jar" "/libs" false] 3).1
  = [js "b.jar"; js "a.jar"].
Proof. vm_compute. reflexivity. Qed.

(** A row that is back before its predecessor has left is doubled by the next reload. *)
Lemma reload_doubles :
  let rows := [row_of 2 "a.md5" "/libs" false; row_of 1 "a.md5" "/libs" true] in
  visible rows = [row_of 2 "a.md5" "/libs" false] ∧
  row_name <$> visible (renderFileListReconciled [file_of "a.md5"] "/libs" rows 3).1 = [js "a.md5"; js "a.md5"].
Proof. by vm_compute. Qed.

Lemma directory_reloaded_witness :
  let V := [row_of 0 "a.jar" "/libs" false; row_of 1 "b.jar" "/libs" false] in
  let R := [row_of 2 "b.md5" "/libs" false] in
  let files := file_of <$> [js "b.jar"; js "a.jar"; js "c.jar"] in
  row_id <$> visible (renderFileListReconciled files "/libs" (V ++ R) 3).1 = [1; 0; 3] ∧
  ∃ placed next', renderFileListReconciled files "/libs" (V ++ R) 3 = (placed ++ (out_row <$> R), next') ∧
    Forall2 (row_for "/libs" V) files placed ∧ visible (placed ++ (out_row <$> R)) = placed.
Proof.
  intros V R files. split; [by vm_compute|]. apply directory_reloaded.
  - vm_compute. repeat constructor; set_solver.
  - vm_compute. repeat constructor; set_solver.
  - vm_compute. repeat constructor; set_solver.
  - repeat (constructor; [split; [done|cbn; lia]|]). constructor.
  - repeat (constructor; [split; [done|vm_compute; set_solver]|]). constructor.
  - constructor; [vm_compute; set_solver|constructor].
Defined.

(** ** Loading a directory *)

Section Loading.
Context `{coll : Collator}.

(** Of the details of a repository the page reads the format; [repository] tells two apart. *)
Record details := { repository : jsstring; d_format : jsstring }.

(** What the fields show: the mode, the view of a package format with its path, the rows, the visibility of
    the three panels, the text of the error and the key of the empty list. *)
Record view := {
  mode : jsstring; custom : option (jsstring * jsstring); rows : list row; next_row : nat;
  empty_hidden : bool; error_hidden : bool; list_hidden : bool; error_text : jsstring; empty_key : jsstring
}.

(** [null], or the answer of the directory: [ok] and the files, if a body was read. *)
Record directory_answer := { ok : bool; data : option (list file) }.

(** A load: before [Promise.all] is settled, while a view of a format is drawn, or while the text of an
    error is read. *)
Inductive stage := Waiting | Viewing | Reading.
Record load := { number : nat; l_path : jsstring; reuse : bool; same : bool; l_reused : option details; at_stage : stage }.

Record browser := {
  prefs : preferences; location : jsstring; currentLoadSeq : nat; lastDirectoryPath : jsstring;
  currentRepositoryFormat : jsstring; currentRepoDetails : option details; currentRepositoryName : jsstring;
  crumbs : list crumb; content : view; loads : list load;
  (** The paths of the last calls of [updateSnippets], [updateUploadZone] and [updateRepoStats]. *)
  snippets_of : jsstring; upload_of : jsstring; stats_of : option jsstring; search_of : jsstring * jsstring
}.

(** [parts.length !== 1], and the names that are not repositories. *)
Definition isRepoRootPath (path : jsstring) : bool :=
  let raw := default [] (head (split "#" (default [] (head (split "?" path))))) in
  match path_segments raw with
  | [nm] => negb (eqs nm "index.html")
            && negb (existsb (eqs nm) (js <$> ["css"; "js"; "svg"; "api"; "javadocs"; "assets"]%stdpp))
  | _ => false
  end.

(** The keys the empty list takes. *)
Definition empty_message (path : jsstring) : jsstring :=
  if isRepoRootPath path then "browser.repoEmptyState" else "browser.emptyState".

Definition setStateVisibility (empty error : bool) (v : view) : view :=
  {| mode := mode v; custom := custom v; rows := rows v; next_row := next_row v;
     empty_hidden := negb empty; error_hidden := negb error; list_hidden := empty || error;
     error_text := error_text v; empty_key := empty_key v |}.

Definition custom_format (format : jsstring) : bool :=
  eqs format "maven" || eqs format "cargo" || eqs format "docker" || eqs format "npm".

(** Hides the views of the other formats. *)
Definition setRepositoryContentMode (format : jsstring) (v : view) : view :=
  {| mode := if custom_format format then format else [];
     custom := match custom v with Some (f, p) => if custom_format format && eqs f format then Some (f, p) else None | None => None end;
     rows := rows v; next_row := next_row v; empty_hidden := empty_hidden v; error_hidden := error_hidden v;
     list_hidden := list_hidden v; error_text := error_text v; empty_key := empty_key v |}.

Definition set_rows (r : list row * nat) (v : view) : view :=
  {| mode := mode v; custom := custom v; rows := r.1; next_row := r.2;
     empty_hidden := empty_hidden v; error_hidden := error_hidden v;
     list_hidden := list_hidden v; error_text := error_text v; empty_key := empty_key v |}.

Definition set_empty_key (key : jsstring) (v : view) : view :=
  {| mode := mode v; custom := custom v; rows := rows v; next_row := next_row v;
     empty_hidden := empty_hidden v; error_hidden := error_hidden v;
     list_hidden := list_hidden v; error_text := error_text v; empty_key := key |}.

Definition set_error_text (text : jsstring) (v : view) : view :=
  {| mode := mode v; custom := custom v; rows := rows v; next_row := next_row v;
     empty_hidden := empty_hidden v; error_hidden := error_hidden v;
     list_hidden := list_hidden v; error_text := text; empty_key := empty_key v |}.

(** A renderer of a format starts to show its view. *)
Definition show_custom (format path : jsstring) (v : view) : view :=
  {| mode := mode v; custom := Some (format, path); rows := rows v; next_row := next_row v;
     empty_hidden := empty_hidden v; error_hidden := error_hidden v;
     list_hidden := list_hidden v; error_text := error_text v; empty_key := empty_key v |}.

(** [repositoryName] *)
Definition repository_name (path : jsstring) : jsstring := default [] (head (path_segments path)).

(** [getRepositoryFormat(repoDetails?.format).id]; a member every object inherits has no [id], which
    equals no format. *)
Definition format_id (d : option details) : jsstring :=
  match getRepositoryFormat (match d with Some d => JStr (d_format d) | None => JUndef end) with
  | Descriptor f => id f
  | InheritedMember => []
  end.

(** Whether the details of the repository are asked for. *)
Definition wants_details (path : jsstring) : bool :=
  match path_segments path with p :: _ => negb (eqs p "index.html") | [] => false end.

Definition canReuseFormatDetails (path : jsstring) (s : browser) : bool :=
  custom_format (currentRepositoryFormat s) && truthy (repository_name path)
  && eqs (repository_name path) (currentRepositoryName s)
  && match currentRepoDetails s with Some _ => true | None => false end.

(** [loadDirectory] up to the first [await]. *)
Definition loadDirectory (path : jsstring) (s : browser) : browser :=
  let seq := S (currentLoadSeq s) in
  let reuse := canReuseFormatDetails path s in
  let wants := wants_details path in
  {| prefs := prefs s; location := location s; currentLoadSeq := seq; lastDirectoryPath := path;
     currentRepositoryFormat := currentRepositoryFormat s;
     currentRepoDetails := if wants then currentRepoDetails s else None;
     currentRepositoryName := if wants then currentRepositoryName s else [];
     crumbs := reconcile (crumbs s) (desired path (currentRepositoryFormat s)); content := content s;
     loads := loads s ++ [{| number := seq; l_path := path; reuse := reuse; same := eqs (lastDirectoryPath s) path;
                             l_reused := if wants && reuse then currentRepoDetails s else None; at_stage := Waiting |}];
     snippets_of := if reuse then snippets_of s else path;
     upload_of := if reuse then upload_of s else path;
     stats_of := if wants then (if reuse then stats_of s else Some (repository_name path)) else None;
     search_of := search_of s |}.

(** How the promises of a load are settled: a rejection with the text the error shows, or the answers of
    the directory and of the details; one that was not asked for is ignored. *)
Inductive answer := Rejected (text : jsstring) | Fulfilled (dir : directory_answer) (d : option details).

Definition without (n : nat) (ls : list load) : list load := List.filter (λ l, negb (number l =? n)) ls.
Definition advance (n : nat) (st : stage) (ls : list load) : list load :=
  (λ l, if number l =? n then {| number := number l; l_path := l_path l; reuse := reuse l; same := same l;
                                 l_reused := l_reused l; at_stage := st |} else l) <$> ls.

Definition set_loads (ls : list load) (s : browser) : browser :=
  {| prefs := prefs s; location := location s; currentLoadSeq := currentLoadSeq s;
     lastDirectoryPath := lastDirectoryPath s; currentRepositoryFormat := currentRepositoryFormat s;
     currentRepoDetails := currentRepoDetails s; currentRepositoryName := currentRepositoryName s;
     crumbs := crumbs s; content := content s; loads := ls;
     snippets_of := snippets_of s; upload_of := upload_of s; stats_of := stats_of s; search_of := search_of s |}.

Definition set_content (v : view) (search : jsstring * jsstring) (ls : list load) (s : browser) : browser :=
  {| prefs := prefs s; location := location s; currentLoadSeq := currentLoadSeq s;
     lastDirectoryPath := lastDirectoryPath s; currentRepositoryFormat := currentRepositoryFormat s;
     currentRepoDetails := currentRepoDetails s; currentRepositoryName := currentRepositoryName s;
     crumbs := crumbs s; content := v; loads := ls;
     snippets_of := snippets_of s; upload_of := upload_of s; stats_of := stats_of s; search_of := search |}.

(** The [catch] of a load that is not stale. *)
Definition show_error (text : jsstring) (v : view) : view :=
  setStateVisibility false true
    (set_error_text text (set_rows ([], next_row v) (setRepositoryContentMode [] v))).

Definition fail_load (n : nat) (text : jsstring) (s : browser) : browser :=
  if negb (n =? currentLoadSeq s) then set_loads (without n (loads s)) s
  else set_content (show_error text (content s)) ([], js "maven") (without n (loads s)) s.

(** The rows of a directory, or the empty list. *)
Definition show_listing (p : preferences) (path : jsstring) (same : bool) (files : list file) (v : view) : view :=
  let v := setStateVisibility false false v in
  match applyAdjustments p files with
  | [] => setStateVisibility true false (set_empty_key (empty_message path) (set_rows ([], next_row v) v))
  | shown =>
      set_rows (if same && match rows v with [] => false | _ => true end
                then renderFileListReconciled shown path (rows v) (next_row v)
                else fresh_rows shown path (next_row v)) v
  end.

(** The details a load ends with, and whether the repository has a view of its own. *)
Definition details_for (l : load) (d : option details) : option details :=
  if wants_details (l_path l) then (if reuse l then l_reused l else d) else None.

Definition has_view (path : jsstring) (d : option details) : bool :=
  custom_format (format_id d) && negb (eqs (format_id d) "maven" && negb (bool_decide (is_Some d)))
  && match path_segments path with [] => false | _ => true end.

(** After the first [await]. *)
Definition answered (l : load) (a : answer) (s : browser) : browser :=
  let n := number l in
  let path := l_path l in
  if negb (n =? currentLoadSeq s) then set_loads (without n (loads s)) s
  else match a with
  | Rejected text => fail_load n text s
  | Fulfilled dir d =>
      let d := details_for l d in
      let fmt := format_id d in
      let s := {| prefs := prefs s; location := location s; currentLoadSeq := currentLoadSeq s;
                  lastDirectoryPath := lastDirectoryPath s; currentRepositoryFormat := fmt;
                  currentRepoDetails := d;
                  currentRepositoryName := match d with Some _ => repository_name path | None => [] end;
                  crumbs := reconcile (crumbs s) (desired path fmt);
                  content := setRepositoryContentMode (if has_view path d then fmt else []) (content s);
                  loads := loads s; snippets_of := snippets_of s; upload_of := upload_of s;
                  stats_of := stats_of s;
                  search_of := (match d with Some _ => repository_name path | None => [] end, fmt) |} in
      if has_view path d then
        set_content (show_custom fmt path (setStateVisibility false false (content s))) (search_of s)
          (advance n Viewing (loads s)) s
      else match (if reuse l then None else Some dir) with
      | Some {| ok := true; data := Some files |} =>
          set_content (show_listing (prefs s) path (same l) files (content s)) (search_of s) (without n (loads s)) s
      | _ => set_loads (advance n Reading (loads s)) s
      end
  end.

Definition find_load (n : nat) (s : browser) : option load := List.find (λ l, number l =? n) (loads s).

Inductive event :=
  | Navigate (path : jsstring)          (* navigateToPath, or the history of the browser *)
  | Refresh                             (* after an upload or a deletion *)
  | PreferencesChanged (p : preferences)
  | SettingsChanged (repository : jsstring)
  | Answered (n : nat) (a : answer)
  | ViewShown (n : nat)
  | LoadFailed (n : nat) (text : jsstring)  (* the view rejects, or the text of the error is read *)
  | RowGone (k : nat)
  | Deleted (k : nat)                       (* the server has deleted the file of a row, by its button *)
  | DeletionShown (k : nat) (path : jsstring).  (* the animation after it ends; [path] is the directory of the row *)

(** [navigateToPath] sets the address; only paths of the site are followed. *)
Definition navigateToPath (path : jsstring) (s : browser) : browser :=
  if negb (startsWith path "/") then s
  else loadDirectory path
    {| prefs := prefs s; location := path; currentLoadSeq := currentLoadSeq s;
       lastDirectoryPath := lastDirectoryPath s; currentRepositoryFormat := currentRepositoryFormat s;
       currentRepoDetails := currentRepoDetails s; currentRepositoryName := currentRepositoryName s;
       crumbs := crumbs s; content := content s; loads := loads s;
       snippets_of := snippets_of s; upload_of := upload_of s; stats_of := stats_of s; search_of := search_of s |}.

Definition change_preferences (p : preferences) (s : browser) : browser :=
  loadDirectory (location s)
    {| prefs := p; location := location s; currentLoadSeq := currentLoadSeq s;
       lastDirectoryPath := lastDirectoryPath s; currentRepositoryFormat := currentRepositoryFormat s;
       currentRepoDetails := currentRepoDetails s; currentRepositoryName := currentRepositoryName s;
       crumbs := crumbs s; content := content s; loads := loads s;
       snippets_of := snippets_of s; upload_of := upload_of s; stats_of := stats_of s; search_of := search_of s |}.

Definition handleRepositorySettingsChanged (repository : jsstring) (s : browser) : browser :=
  if negb (eqs repository (currentRepositoryName s)) then s
  else
    {| prefs := prefs s; location := location s; currentLoadSeq := currentLoadSeq s;
       lastDirectoryPath := lastDirectoryPath s; currentRepositoryFormat := currentRepositoryFormat s;
       currentRepoDetails := None; currentRepositoryName := [];
       crumbs := crumbs s; content := content s; loads := loads s;
       snippets_of := snippets_of s; upload_of := upload_of s; stats_of := stats_of s; search_of := search_of s |}.

(** The animation of a row on its way out ends. *)
Definition row_gone (k : nat) (s : browser) : browser :=
  set_content (set_rows (List.filter (λ r, negb ((row_id r =? k) && removing r)) (rows (content s)), next_row (content s)) (content s))
    (search_of s) (loads s) s.

(** [removeFileItemAnimated], up to its animation. *)
Definition row_deleted (k : nat) (s : browser) : browser :=
  set_content (set_rows ((λ r, if row_id r =? k then out_row r else r) <$> rows (content s), next_row (content s)) (content s)) (search_of s) (loads s) s.

(** Its end, with [showEmptyIfNoFiles]. *)
Definition deletion_shown (k : nat) (path : jsstring) (s : browser) : browser :=
  let v := content s in
  let rs := List.filter (λ r, negb (row_id r =? k)) (rows v) in
  let v := match visible rs with
           | [] => setStateVisibility true false (set_empty_key (empty_message path) (set_rows ([], next_row v) v))
           | _ => set_rows (rs, next_row v) v
           end in
  set_content v (search_of s) (loads s) s.

Definition step (e : event) (s : browser) : browser :=
  match e with
  | Navigate path => navigateToPath path s
  | Refresh => loadDirectory (location s) s
  | PreferencesChanged p => change_preferences p s
  | SettingsChanged r => handleRepositorySettingsChanged r s
  | Answered n a =>
      match find_load n s with
      | Some l => match at_stage l with Waiting => answered l a s | _ => s end
      | None => s
      end
  | ViewShown n =>
      match find_load n s with
      | Some l => match at_stage l with Viewing => set_loads (without n (loads s)) s | _ => s end
      | None => s
      end
  | LoadFailed n text =>
      match find_load n s with
      | Some l => match at_stage l with Waiting => s | _ => fail_load n text s end
      | None => s
      end
  | RowGone k => row_gone k s
  | Deleted k => row_deleted k s
  | DeletionShown k path => deletion_shown k path s
  end.

Definition run (es : list event) (s : browser) : browser := foldl (λ s e, step e s) s es.

Definition initial (p : preferences) (path : jsstring) : browser := {|
  prefs := p; location := path; currentLoadSeq := 0; lastDirectoryPath := []; currentRepositoryFormat := "maven";
  currentRepoDetails := None; currentRepositoryName := []; crumbs := [];
  content := {| mode := []; custom := None; rows := []; next_row := 0; empty_hidden := true; error_hidden := true;
                list_hidden := false; error_text := []; empty_key := "browser.emptyState" |};
  loads := []; snippets_of := []; upload_of := []; stats_of := None; search_of := ([], [])
|}.

(** *** What is shown *)

(** Another load starts, or a file is deleted by its button. *)
Definition interferes (e : event) : bool :=
  match e with Navigate _ | Refresh | PreferencesChanged _ | Deleted _ | DeletionShown _ _ => true | _ => false end.

(** Nothing changed, except that rows on their way out may have left. *)
Definition undisturbed (v0 v : view) : Prop :=
  v = set_rows (rows v, next_row v0) v0 ∧ visible (rows v) = visible (rows v0) ∧ (rows v0 = [] → rows v = []).

(** What a view shows at the end of the load [l], that started over the view [v0], after the events [es]. *)
Inductive shows (p : preferences) (l : load) (es : list event) (v0 v : view) : Prop :=
  | Shows_error text :
      Answered (number l) (Rejected text) ∈ es ∨ LoadFailed (number l) text ∈ es →
      mode v = [] → custom v = None → rows v = [] → error_hidden v = false → empty_hidden v = true →
      error_text v = text → shows p l es v0 v
  | Shows_view dir d :
      Answered (number l) (Fulfilled dir d) ∈ es → has_view (l_path l) (details_for l d) = true →
      mode v = format_id (details_for l d) → custom v = Some (format_id (details_for l d), l_path l) →
      error_hidden v = true → empty_hidden v = true → shows p l es v0 v
  | Shows_empty files d :
      Answered (number l) (Fulfilled {| ok := true; data := Some files |} d) ∈ es →
      has_view (l_path l) (details_for l d) = false → applyAdjustments p files = [] →
      mode v = [] → custom v = None → rows v = [] → empty_hidden v = false → error_hidden v = true →
      empty_key v = empty_message (l_path l) → shows p l es v0 v
  | Shows_rows files d :
      Answered (number l) (Fulfilled {| ok := true; data := Some files |} d) ∈ es →
      has_view (l_path l) (details_for l d) = false →
      mode v = [] → custom v = None → list_hidden v = false → error_hidden v = true → empty_hidden v = true →
      (same l = true ∧ (∃ before, visible before = visible (rows v0) ∧
          visible (rows v) = visible (renderFileListReconciled (applyAdjustments p files) (l_path l) before (next_row v0)).1)
       ∨ (same l = true → visible (rows v0) = []) ∧ row_file <$> visible (rows v) = applyAdjustments p files ∧
          Forall (λ r, row_path r = l_path l) (visible (rows v))) →
      shows p l es v0 v.

Lemma find_load_without n m ls :
  List.find (λ l, number l =? n) (without m ls) = if n =? m then None else List.find (λ l, number l =? n) ls.
Proof.
  unfold without. induction ls as [|l ls IH]; cbn; [by destruct (n =? m)|].
  destruct (number l =? m) eqn:Em, (number l =? n) eqn:En; cbn; rewrite ?En; bool_prop;
    destruct (n =? m) eqn:E; bool_prop; congruence.
Qed.

Definition at_stage' (st : stage) (l : load) : load :=
  {| number := number l; l_path := l_path l; reuse := reuse l; same := same l; l_reused := l_reused l; at_stage := st |}.

Lemma find_advance n m st ls :
  List.find (λ l, number l =? n) (advance m st ls)
  = (if n =? m then at_stage' st else λ l, l) <$> List.find (λ l, number l =? n) ls.
Proof.
  unfold advance. induction ls as [|l ls IH]; [done|]. rewrite fmap_cons. cbn [List.find].
  destruct (number l =? m) eqn:Em; cbn [number]; destruct (number l =? n) eqn:En; try exact IH;
    destruct (n =? m) eqn:E; bool_prop; done || congruence.
Qed.

Lemma find_load_number n s l : find_load n s = Some l → number l = n.
Proof. intros Hf. apply List.find_some in Hf as [_ Hf]. by apply Nat.eqb_eq in Hf. Qed.

Lemma visible_gone k (rs : list row) : visible (List.filter (λ r, negb ((row_id r =? k) && removing r)) rs) = visible rs.
Proof.
  induction rs as [|r rs IH]; [done|]. unfold visible in *. cbn.
  destruct (removing r) eqn:E; [|by rewrite andb_false_r; cbn; rewrite E, IH].
  destruct (row_id r =? k); cbn; rewrite ?E; done.
Qed.

Lemma undisturbed_gone v0 k s : undisturbed v0 (content s) → undisturbed v0 (content (row_gone k s)).
Proof.
  intros (E & Hv & Hn). unfold row_gone, undisturbed. cbn [content set_content set_rows rows fst snd]. rewrite visible_gone.
  split_and!; [by rewrite E|done|]. intros Hr. by rewrite (Hn Hr).
Qed.

Lemma shows_gone p l es v0 k s : shows p l es v0 (content s) → shows p l es v0 (content (row_gone k s)).
Proof.
  assert (∀ rs : list row, rs = [] → List.filter (λ r, negb ((row_id r =? k) && removing r)) rs = []) as Hnil by (by intros rs ->).
  destruct 1 as [text| | |files d ? ? ? ? ? ? ? Hr]; unfold row_gone.
  - eapply Shows_error with (text := text); cbn; auto.
  - eapply Shows_view; cbn; eauto.
  - eapply Shows_empty; cbn; eauto.
  - eapply Shows_rows; cbn; eauto. by rewrite visible_gone.
Qed.

Lemma shows_more p l es es' v0 v : shows p l es v0 v → shows p l (es ++ es') v0 v.
Proof.
  assert (∀ e, e ∈ es → e ∈ es ++ es') as H by (intros e He; apply elem_of_app; by left).
  destruct 1; [eapply Shows_error|eapply Shows_view|eapply Shows_empty|eapply Shows_rows]; eauto; naive_solver.
Qed.

Lemma next_load s path :
  Forall (λ l, number l ≤ currentLoadSeq s) (loads s) →
  ∃ l, find_load (S (currentLoadSeq s)) (loadDirectory path s) = Some l ∧ number l = S (currentLoadSeq s) ∧
       l_path l = path ∧ at_stage l = Waiting ∧ same l = eqs (lastDirectoryPath s) path.
Proof.
  intros H. unfold find_load, loadDirectory. cbn [loads currentLoadSeq]. induction H as [|l ls Hl _ IH]; cbn.
  - rewrite Nat.eqb_refl. eexists. by split_and!.
  - destruct (number l =? _) eqn:E; bool_prop; [lia|done].
Qed.

Lemma loads_numbered es p0 path0 :
  let s := run es (initial p0 path0) in Forall (λ l, number l ≤ currentLoadSeq s) (loads s).
Proof.
  induction es as [|e es IH] using rev_ind; [by constructor|]. unfold run. rewrite foldl_snoc. fold (run es (initial p0 path0)).
  set (s := run es (initial p0 path0)) in *. cbn zeta in *.
  assert (∀ f, Forall (λ l, number l ≤ currentLoadSeq s) (List.filter f (loads s))) as Hf.
  { intros f. rewrite Forall_forall in *. intros l Hl. apply IH. apply list_elem_of_In, filter_In in Hl as [Hl _].
    by apply list_elem_of_In. }
  assert (∀ n st, Forall (λ l, number l ≤ currentLoadSeq s) (advance n st (loads s))) as Ha.
  { intros n st. apply Forall_fmap. eapply Forall_impl; [exact IH|]. intros l Hl. cbn. by destruct (number l =? n). }
  assert (∀ path s', currentLoadSeq s' = currentLoadSeq s → loads s' = loads s →
    Forall (λ l, number l ≤ currentLoadSeq (loadDirectory path s')) (loads (loadDirectory path s'))) as Hn.
  { intros path s' E1 E2. unfold loadDirectory. cbn. rewrite E1, E2. apply Forall_app. split; [|repeat constructor].
    eapply Forall_impl; [exact IH|]. cbn. lia. }
  destruct e; cbn [step].
  - unfold navigateToPath. destruct (negb _); [done|]. by apply Hn.
  - by apply Hn.
  - by apply Hn.
  - unfold handleRepositorySettingsChanged. by destruct (negb _).
  - destruct (find_load n s) as [l|]; [|done]. destruct (at_stage l); try done. unfold answered.
    destruct (negb _); [apply Hf|]. destruct a as [text|dir d]; [unfold fail_load; destruct (negb _); apply Hf|].
    destruct (has_view _ _); [apply Ha|]. destruct (reuse l); [apply Ha|].
    destruct dir as [[] [files|]]; (apply Hf || apply Ha).
  - destruct (find_load n s) as [l|]; [|done]. destruct (at_stage l); try done. apply Hf.
  - destruct (find_load n s) as [l|]; [|done]. destruct (at_stage l); try done; unfold fail_load; destruct (negb _); apply Hf.
  - done.
  - done.
  - done.
Qed.

Lemma show_error_shows p l es v0 v text :
  Answered (number l) (Rejected text) ∈ es ∨ LoadFailed (number l) text ∈ es → shows p l es v0 (show_error text v).
Proof. intros Ht. eapply Shows_error; [exact Ht|..]; try done. cbn. by destruct (custom v) as [[[]]|]. Qed.

Lemma fresh_rows_spec files path next :
  row_file <$> (fresh_rows files path next).1 = files ∧ visible (fresh_rows files path next).1 = (fresh_rows files path next).1 ∧
  Forall (λ r, row_path r = path) (fresh_rows files path next).1.
Proof.
  unfold fresh_rows. cbn [fst]. split_and!.
  - apply list_eq. intros i. rewrite list_lookup_fmap, list_lookup_imap. by destruct (files !! i).
  - apply visible_all, Forall_lookup. intros i r. rewrite list_lookup_imap. by intros (f & _ & ->)%fmap_Some.
  - apply Forall_lookup. intros i r. rewrite list_lookup_imap. by intros (f & _ & ->)%fmap_Some.
Qed.

Lemma show_listing_shows p l es v0 v files d :
  undisturbed v0 v → Answered (number l) (Fulfilled {| ok := true; data := Some files |} d) ∈ es →
  has_view (l_path l) (details_for l d) = false →
  shows p l es v0 (show_listing p (l_path l) (same l) files (setRepositoryContentMode [] v)).
Proof.
  intros (Ev & Hv & Hn0) He Hh. unfold show_listing.
  assert (custom (setRepositoryContentMode [] v) = None) as Hc by (cbn; by destruct (custom v) as [[[]]|]).
  destruct (applyAdjustments p files) as [|f fs] eqn:Ea; [by eapply Shows_empty|].
  rewrite <- Ea. eapply Shows_rows; try done. rewrite Ev.
  cbn [rows next_row set_rows setStateVisibility setRepositoryContentMode fst snd].
  destruct (fresh_rows_spec (applyAdjustments p files) (l_path l) (next_row v0)) as (Hf & Hs & Hp).
  destruct (same l && match rows v with [] => false | _ => true end) eqn:E.
  - apply andb_true_iff in E as [Esame E]. left. split; [done|]. by exists (rows v).
  - right. rewrite Hs. split_and!; [|done|done]. intros Esame. rewrite Esame in E. rewrite <- Hv. by destruct (rows v).
Qed.

(** The load [l] over the view [v0], after the events [es]. *)
Definition loading_phase (p : preferences) (l : load) (es : list event) (v0 : view) (s : browser) : Prop :=
  prefs s = p ∧ currentLoadSeq s = number l ∧
  match find_load (number l) s with
  | Some k => k = at_stage' (at_stage k) l ∧
      match at_stage k with
      | Waiting => undisturbed v0 (content s)
      | Viewing => shows p l es v0 (content s)
      | Reading => mode (content s) = [] ∧ custom (content s) = None ∧ visible (rows (content s)) = visible (rows v0)
      end
  | None => shows p l es v0 (content s)
  end.

Lemma phase_same p l es es' v0 s s' :
  loading_phase p l es v0 s → prefs s' = prefs s → currentLoadSeq s' = currentLoadSeq s → content s' = content s →
  find_load (number l) s' = find_load (number l) s → loading_phase p l (es ++ es') v0 s'.
Proof.
  unfold loading_phase. intros (Hp & Hn & Hs) -> -> -> ->. split_and!; [done|done|].
  destruct (find_load (number l) s) as [k|]; [|by apply shows_more]. destruct Hs as [Hk Hs]. split; [done|].
  destruct (at_stage k); [done|by apply shows_more|done].
Qed.

Lemma find_set_loads n ls s : find_load n (set_loads ls s) = List.find (λ l, number l =? n) ls.
Proof. done. Qed.
Lemma find_set_content n v search ls s : find_load n (set_content v search ls s) = List.find (λ l, number l =? n) ls.
Proof. done. Qed.

Lemma phase_answered p l es v0 s a :
  loading_phase p l es v0 s → find_load (number l) s = Some l → at_stage l = Waiting →
  loading_phase p l (es ++ [Answered (number l) a]) v0 (answered l a s).
Proof.
  intros (Hp & Hn & Hs) Hf Hw. rewrite Hf, Hw in Hs. destruct Hs as [_ Hu].
  assert (∀ a, Answered (number l) a ∈ es ++ [Answered (number l) a]) as He by (intros; apply elem_of_app; right; left).
  unfold answered. rewrite Hn, Nat.eqb_refl. cbn [negb]. destruct a as [text|dir d].
  { unfold fail_load. rewrite Hn, Nat.eqb_refl. cbn [negb]. split_and!; [done|done|].
    rewrite find_set_content, find_load_without, Nat.eqb_refl. apply show_error_shows. left. apply He. }
  assert (∀ s', find_load (number l) s' = List.find (λ k, number k =? number l) (advance (number l) Reading (loads s)) →
    prefs s' = p → currentLoadSeq s' = number l → content s' = setRepositoryContentMode [] (content s) →
    loading_phase p l (es ++ [Answered (number l) (Fulfilled dir d)]) v0 s') as Hreading.
  { intros s' E E1 E2 Ec. split_and!; [done|done|]. rewrite E, find_advance, Nat.eqb_refl. unfold find_load in Hf.
    rewrite Hf. cbn [fmap option_fmap option_map at_stage at_stage']. split; [done|]. rewrite Ec. cbn.
    destruct Hu as (_ & Hv & _). split_and!; [done| |done]. by destruct (custom (content s)) as [[[]]|]. }
  destruct (has_view (l_path l) (details_for l d)) eqn:Eh.
  - split_and!; [done|done|]. rewrite find_set_content. cbn [loads]. rewrite find_advance, Nat.eqb_refl. unfold find_load in Hf.
    rewrite Hf. cbn [fmap option_fmap option_map at_stage at_stage']. split; [done|].
    eapply Shows_view; [apply He|done|cbn|done..].
    apply andb_true_iff in Eh as [Eh _]. apply andb_true_iff in Eh as [-> _]. done.
  - destruct (reuse l) eqn:Er; [by apply Hreading|].
    destruct dir as [[] [files|]]; try by apply Hreading.
    split_and!; [done|done|]. rewrite find_set_content, find_load_without, Nat.eqb_refl. cbn [content set_content prefs].
    rewrite <- Hp in *. eapply show_listing_shows; [done|apply He|done].
Qed.

Lemma phase_fail p l es v0 s n text k :
  loading_phase p l es v0 s → find_load n s = Some k → at_stage k ≠ Waiting →
  loading_phase p l (es ++ [LoadFailed n text]) v0 (fail_load n text s).
Proof.
  intros Hs Hk Hst. destruct (Hs) as (Hp & Hn & _). unfold fail_load. rewrite Hn.
  destruct (n =? number l) eqn:E; cbn [negb]; bool_prop.
  - subst n. split_and!; [done|done|]. rewrite find_set_content, find_load_without, Nat.eqb_refl.
    apply show_error_shows. right. apply elem_of_app. right. left.
  - eapply phase_same; [exact Hs|done..|]. rewrite find_set_loads, find_load_without.
    destruct (number l =? n) eqn:E2; [|done]. bool_prop. congruence.
Qed.

Lemma phase_step p l es v0 s e :
  at_stage l = Waiting → interferes e = false → loading_phase p l es v0 s → loading_phase p l (es ++ [e]) v0 (step e s).
Proof.
  intros Hw He Hs. assert (loading_phase p l (es ++ [e]) v0 s) as Hsame by (by apply (phase_same _ _ es _ _ s)).
  destruct e as [path| |q|r|n a|n|n text|k|k|k path]; try done; cbn [step].
  - unfold handleRepositorySettingsChanged. destruct (negb _); [done|]. by apply (phase_same _ _ es _ _ s).
  - destruct (find_load n s) as [k|] eqn:Ek; [|done]. destruct (at_stage k) eqn:Est; try done.
    pose proof (find_load_number n s k Ek) as Hk. destruct (decide (n = number l)) as [->|Hne].
    + assert (k = l) as ->; [|by apply phase_answered]. destruct Hs as (_ & _ & Hs). rewrite Ek, Est in Hs.
      destruct Hs as [-> _]. destruct l. cbn in *. by subst.
    + unfold answered. destruct Hs as (Hp & Hn & Hs). rewrite Hk, Hn. destruct (n =? number l) eqn:E; bool_prop; [done|].
      cbn [negb]. apply (phase_same _ _ es _ _ s); [by split_and!|done..|]. rewrite find_set_loads, find_load_without.
      destruct (number l =? n) eqn:E2; [|done]. bool_prop. congruence.
  - destruct (find_load n s) as [k|] eqn:Ek; [|done]. destruct (at_stage k) eqn:Est; try done.
    destruct (decide (n = number l)) as [->|Hne].
    + destruct Hs as (Hp & Hn & Hs). rewrite Ek, Est in Hs. split_and!; [done|done|].
      rewrite find_set_loads, find_load_without, Nat.eqb_refl. destruct Hs as [_ Hs]. by apply shows_more.
    + eapply phase_same; [exact Hs|done..|]. rewrite find_set_loads, find_load_without.
      destruct (number l =? n) eqn:E2; [|done]. bool_prop. congruence.
  - destruct (find_load n s) as [k|] eqn:Ek; [|done].
    destruct (at_stage k) eqn:Est; [done| |]; (eapply phase_fail; [done|done|congruence]).
  - destruct Hsame as (Hp & Hn & Hs'). split_and!; [done|done|]. unfold row_gone at 1. rewrite find_set_content.
    fold (find_load (number l) s). destruct (find_load (number l) s) as [j|]; [|by apply shows_gone].
    destruct Hs' as [Hj Hs']. split; [done|]. destruct (at_stage j); [by apply undisturbed_gone|by apply shows_gone|].
    cbn. by rewrite visible_gone.
Qed.

Lemma phase_run p l es v0 s :
  at_stage l = Waiting → loading_phase p l [] v0 s → Forall (λ e, interferes e = false) es →
  loading_phase p l es v0 (run es s).
Proof.
  intros Hw Hs. induction es as [|e es IH] using rev_ind; [done|]. rewrite Forall_app, Forall_singleton. intros [He Hl].
  unfold run. rewrite foldl_snoc. apply phase_step; auto.
Qed.

(** C17: Whatever loads are under way when the user goes to a directory, and in whatever order they and
    the new one are answered, shown or rejected, while no other load starts and no file is deleted by its
    button: until the new load is answered, the browser
    stays as it was; from then on it shows that load's answer for that directory (the view of the
    repository's format, its files, the empty list, or the error). If the load before was for another directory, the files are
    rows of their own into this directory, and nothing of an older load is left. If it was for the same one, the
    files are merged into the rows on the page: rows of the same names stay as they are, with their links, even if
    they are of another directory because the load before was not shown yet. *)
Theorem directory_shown p0 path0 es0 path es :
  let s := run es0 (initial p0 path0) in
  let s0 := step (Navigate path) s in
  let s1 := run es s0 in
  startsWith path "/" = true → Forall (λ e, interferes e = false) es →
  ∃ l, find_load (S (currentLoadSeq s)) s0 = Some l ∧ l_path l = path ∧ same l = eqs (lastDirectoryPath s) path ∧
    match find_load (number l) s1 with
    | None => shows (prefs s) l es (content s) (content s1)
    | Some k =>
        match at_stage k with
        | Waiting => undisturbed (content s) (content s1)
        | Viewing => shows (prefs s) l es (content s) (content s1)
        | Reading => mode (content s1) = [] ∧ custom (content s1) = None ∧ visible (rows (content s1)) = visible (rows (content s))
        end
    end.
Proof.
  intros s s0 s1 Hpath Hes. pose proof (loads_numbered es0 p0 path0) as Hnum. cbn zeta in Hnum. fold s in Hnum.
  set (s' := {| prefs := prefs s; location := path; currentLoadSeq := currentLoadSeq s;
       lastDirectoryPath := lastDirectoryPath s; currentRepositoryFormat := currentRepositoryFormat s;
       currentRepoDetails := currentRepoDetails s; currentRepositoryName := currentRepositoryName s;
       crumbs := crumbs s; content := content s; loads := loads s;
       snippets_of := snippets_of s; upload_of := upload_of s; stats_of := stats_of s; search_of := search_of s |}).
  assert (s0 = loadDirectory path s') as E0 by (unfold s0; cbn [step]; unfold navigateToPath; by rewrite Hpath).
  destruct (next_load s' path Hnum) as (l & Hl & Hn & Hp & Hw & Hsame). cbn in Hl, Hn, Hsame.
  exists l. rewrite E0. split_and!; [done|done|done|].
  assert (loading_phase (prefs s) l es (content s) s1) as (_ & _ & Hphase).
  { apply phase_run; [done| |done]. rewrite E0. split_and!; [done|done|]. rewrite Hn. cbn. rewrite Hl.
    split; [by destruct l; cbn in *; subst|]. rewrite Hw. split_and!; [by destruct (content s)|done|done]. }
  destruct (find_load (number l) s1) as [k|]; [|done]. by destruct Hphase as [_ Hphase].
Qed.
End Loading.

(** *** Runs *)

#[local] Existing Instance BrowserUtils.plain_collator.

Definition plain_order : preferences := {| reversedFileOrder := false; displayHashFiles := true |}.
Definition of_format (repository format : jsstring) : option details := Some {| repository := repository; d_format := format |}.
Definition listed (names : list jsstring) : directory_answer := {| ok := true; data := Some (file_of <$> names) |}.

(** The user leaves [/libs] for [/other] before it is loaded, and the answers come in the other order. *)
Lemma directory_shown_witness :
  let s := run [Navigate "/libs"] (initial plain_order "/") in
  let s0 := step (Navigate "/other") s in
  let es := [Answered 2 (Fulfilled (listed [js "b.txt"; js "a.txt"]) (of_format "other" "files"));
             Answered 1 (Fulfilled (listed [js "c.txt"]) (of_format "libs" "files"))] in
  let s1 := run es s0 in
  row_name <$> visible (rows (content s1)) = [js "a.txt"; js "b.txt"] ∧
  ∃ l, find_load 2 s0 = Some l ∧ l_path l = js "/other" ∧ shows plain_order l es (content s) (content s1).
Proof.
  intros s s0 es s1. split; [vm_compute; reflexivity|].
  destruct (directory_shown plain_order "/" [Navigate "/libs"] "/other" es) as (l & Hl & Hp & _ & Hm);
    [reflexivity|repeat constructor|].
  exists l. split; [exact Hl|]. split; [exact Hp|]. rewrite (find_load_number _ _ _ Hl) in Hm. exact Hm.
Defined.

(** The panels beside the list are told of a directory when its load starts, unless the details are at hand.
    Back in a Maven repository before another one is loaded, the panels are left with the other one. *)
Lemma panels_of_other :
  let s := run [Navigate "/libs"; Answered 1 (Fulfilled (listed []) (of_format "libs" "maven")); ViewShown 1;
                Navigate "/other"; Navigate "/libs"; Answered 3 (Fulfilled (listed []) None); ViewShown 3;
                Answered 2 (Fulfilled (listed []) (of_format "other" "npm"))] (initial plain_order "/") in
  location s = js "/libs" ∧ loads s = [] ∧ custom (content s) = Some (js "maven", js "/libs") ∧
  snippets_of s = js "/other" ∧ upload_of s = js "/other" ∧ stats_of s = Some (js "other").
Proof. by vm_compute. Qed.

(** A double click on a directory starts two loads; the second one is a reload, although the rows
    on the page are still those of the parent. A file of both directories keeps the link of the parent. *)
Lemma double_click_keeps_links :
  let s := run [Navigate "/libs/app"; Answered 1 (Fulfilled (listed [js "maven-metadata.xml"; js "1.0"]) (of_format "libs" "maven-classic"));
                Navigate "/libs/app/1.0"; Navigate "/libs/app/1.0";
                Answered 2 (Fulfilled (listed [js "maven-metadata.xml"]) (of_format "libs" "maven-classic"));
                Answered 3 (Fulfilled (listed [js "maven-metadata.xml"]) (of_format "libs" "maven-classic"))] (initial plain_order "/") in
  location s = js "/libs/app/1.0" ∧ loads s = [] ∧
  (λ r, (row_path r, row_name r)) <$> visible (rows (content s)) = [(js "/libs/app", js "maven-metadata.xml")].
Proof. by vm_compute. Qed.

(** A file is deleted by its button, and while it fades out another directory fails to load: the error is replaced by the message of
    an empty list. *)
Lemma deletion_hides_error :
  let s := run [Navigate "/libs"; Answered 1 (Fulfilled (listed [js "a.txt"]) (of_format "libs" "files")); Deleted 0;
                Navigate "/other"; Answered 2 (Rejected "offline"); DeletionShown 0 "/libs"] (initial plain_order "/") in
  location s = js "/other" ∧ loads s = [] ∧ error_hidden (content s) = true ∧ empty_hidden (content s) = false.
Proof. by vm_compute. Qed.

(** ** The cache of prefetched addresses *)

(** Every address is fetched once while it is held: the map has no address twice and at most 128. *)
Inductive prefetch_event := Fetch (url : jsstring) | Loaded (url : jsstring) (n : nat) (good : bool).

Definition prefetch_step (e : prefetch_event) (p : prefetch) : prefetch :=
  match e with Fetch url => prefetchUrl url p | Loaded url n good => prefetch_done url n good p end.

Lemma prefetch_bounded es : prefetch_ok (foldl (λ p e, prefetch_step e p) {| cache := []; links := []; next_link := 0 |} es).
Proof.
  induction es as [|e es IH] using rev_ind; [by split; [constructor|cbn; lia]|]. rewrite foldl_snoc.
  destruct e; [by apply prefetch_ok_url|by apply prefetch_ok_done].
Qed.
