(* ===== verification/Suggestions.v ===== *)
(** * User suggestions

    [internal/service/frontend/renop-html/js/browser/user-suggestions.js]: the list of user names under a field, with its debounce,
    its answers in any order, the keyboard and the leaving animation. One event is the code between two
    [await]s; timers and the animation frame are events that are enabled while they are set. The
    position of the list and the focus are left out. *)

From S2P Require Import Prelude JsText.
From coqutil Require Import Datatypes.RecordSettersUsingExistingGetters.
Local Open Scope nat_scope.

#[local] Arguments const {E} _ _ /.
#[local] Arguments cons {A} & _ _.

(** ** The controller *)

(** The list box: its [hidden] attribute, its two classes, and the names on its options. *)
Record listbox := { hidden : bool; is_visible : bool; is_leaving : bool; options : list jsstring }.

(** A search with its text and version. *)
Record search := { query : jsstring; version : nat }.

(** The field ([None]: detached) with its text, whether it says the list is expanded, and the option it names as active. *)
Record combobox := { value : jsstring; expanded : bool; descendant : option Z }.

(** [requests]: the searches whose answer is awaited; [frames]: the frames that show the list; [observed]: failures reported. *)
Record state := {
  input : option combobox; panel : option listbox; suggestions : list jsstring; activeIndex : Z;
  searchTimer : option search; closeTimer : bool; requestVersion : nat;
  requests : list search; frames : nat; observed : nat
}.

Definition with_input (f : combobox → combobox) (s : state) : state := { s with input := f <$> input s }.
Definition text (s : state) : jsstring := match input s with Some i => value i | None => [] end.

Section suggestions.
(** [this.maxResults] *)
Variable maxResults : nat.

Definition ensurePanel (s : state) : listbox :=
  match panel s with Some p => p | None => {| hidden := true; is_visible := false; is_leaving := false; options := [] |} end.

Definition close (immediate : bool) (s : state) : state :=
  let s := with_input (λ i, { { i with expanded := false } with descendant := None }) { { s with suggestions := [] } with activeIndex := (-1)%Z } in
  match panel s with
  | None => s
  | Some p =>
      let p := { p with is_visible := false } in
      if immediate || hidden p
      then { { s with panel := Some { { p with hidden := true } with is_leaving := false } } with closeTimer := false }
      else { { s with panel := Some { p with is_leaving := true } } with closeTimer := true }
  end.

Definition render (users : list jsstring) (s : state) : state :=
  let p := ensurePanel s in
  let shown := take maxResults users in
  let s := { { { s with suggestions := shown } with activeIndex := (-1)%Z } with panel := Some { p with options := shown } } in
  match shown with
  | [] => close false s
  | _ =>
      let s := { { s with closeTimer := false } with panel := Some { { { p with options := shown } with hidden := false } with is_leaving := false } } in
      { with_input (λ i, { i with expanded := true }) s with frames := S (frames s) }
  end.

Definition detach (s : state) : state :=
  let s := close true { { s with requestVersion := S (requestVersion s) } with searchTimer := None } in
  { s with input := None }.

Definition attach (v : jsstring) (s : state) : state :=
  { detach s with input := Some {| value := v; expanded := false; descendant := None |} }.

Definition handleInput (v : jsstring) (s : state) : state :=
  let s := with_input (λ i, { i with value := v }) { s with searchTimer := None } in
  let s := { s with requestVersion := S (requestVersion s) } in
  let query := trim v in
  if truthy query then { s with searchTimer := Some {| query := query; version := requestVersion s |} }
  else close true (render [] s).

(** The end of the debounce, and the answer to a search: [None] is a failure. *)
Definition start_load (r : search) (s : state) : state := { { s with searchTimer := None } with requests := requests s ++ [r] }.

Definition answered (r : search) (users : option (list jsstring)) (s : state) : state :=
  match users with
  | Some users => if negb (version r =? requestVersion s) || negb (eqs (trim (text s)) (query r)) then s else render users s
  | None => let s := { s with observed := S (observed s) } in if version r =? requestVersion s then render [] s else s
  end.

Definition apply (username : jsstring) (s : state) : state :=
  close false (with_input (λ i, { i with value := username }) s).

(** A click on the [i]-th option of the list. *)
Definition handlePanelClick (i : nat) (s : state) : state :=
  match panel s with
  | Some p => if hidden p || negb (is_visible p) then s else match options p !! i with Some u => apply u s | None => s end
  | None => s
  end.

Inductive pressed := Escape | ArrowDown | ArrowUp | Enter | Other.

Definition move_to (k : Z) (s : state) : state :=
  let s := { s with activeIndex := k } in
  match panel s with
  | Some p => if (0 <=? k)%Z && (k <? Z.of_nat (length (options p)))%Z then with_input (λ i, { i with descendant := Some k }) s else s
  | None => s
  end.

Definition handleKeydown (k : pressed) (s : state) : state :=
  let n := Z.of_nat (length (suggestions s)) in
  match k with
  | Escape => close false s
  | _ =>
      if bool_decide (suggestions s = []) then s
      else match k with
           | ArrowDown => move_to (Z.rem (activeIndex s + 1) n) s
           | ArrowUp => move_to (Z.rem (activeIndex s - 1 + n) n) s
           | Enter => if (0 <=? activeIndex s)%Z then match suggestions s !! Z.to_nat (activeIndex s) with Some u => apply u s | None => s end else s
           | _ => s
           end
  end.

Definition clear (s : state) : state := close false (with_input (λ i, { i with value := [] }) s).

(** The frames left only reach the list that is removed. *)
Definition destroy (s : state) : state := { { detach s with panel := None } with frames := 0 }.

(** ** Runs *)

Inductive event :=
  | Attach (v : jsstring) | Detach | Destroy | Clear
  | Type_text (v : jsstring) | Set_text (v : jsstring)   (* by the user; by the page, without an event *)
  | Press (k : pressed) | Panel_click (i : nat) | Outside_click
  | Search_timer | Close_timer | Frame
  | Answer (i : nat) (users : option (list jsstring)).

Definition attached (s : state) : bool := match input s with Some _ => true | None => false end.

Definition step (e : event) (s : state) : option state :=
  match e with
  | Attach v => Some (attach v s)
  | Detach => Some (detach s)
  | Destroy => Some (destroy s)
  | Clear => Some (clear s)
  | Type_text v => if attached s then Some (handleInput v s) else None
  | Set_text v => Some (with_input (λ i, { i with value := v }) s)
  | Press k => if attached s then Some (handleKeydown k s) else None
  | Panel_click i => Some (handlePanelClick i s)
  | Outside_click => if attached s then Some (close false s) else None
  | Search_timer => r ← searchTimer s; Some (start_load r s)
  | Close_timer =>
      if closeTimer s then
        Some { { s with panel := (λ p, { { p with hidden := true } with is_leaving := false }) <$> panel s } with closeTimer := false }
      else None
  | Frame =>
      match frames s with
      | O => None
      | S n => Some { { s with panel := (λ p, { p with is_visible := true }) <$> panel s } with frames := n }
      end
  | Answer i users => r ← requests s !! i; Some (answered r users { s with requests := delete i (requests s) })
  end.

Definition initial : state := {|
  input := None; panel := None; suggestions := []; activeIndex := (-1)%Z; searchTimer := None; closeTimer := false;
  requestVersion := 0; requests := []; frames := 0; observed := 0
|}.

Definition steps (s s' : state) : Prop := ∃ e, step e s = Some s'.

(** ** What holds between two events *)

Record list_ok (s : state) : Prop := {
  ok_count : length (suggestions s) ≤ maxResults;
  ok_active : (-1 ≤ activeIndex s)%Z ∧ (activeIndex s < Z.of_nat (length (suggestions s)))%Z;
  ok_shown : suggestions s ≠ [] → ∃ i p, input s = Some i ∧ expanded i = true ∧ panel s = Some p ∧ hidden p = false
               ∧ is_leaving p = false ∧ options p = suggestions s ∧ closeTimer s = false;
  ok_gone : suggestions s = [] → ∀ i, input s = Some i → expanded i = false ∧ descendant i = None;
  ok_leaving : closeTimer s = true → ∃ p, panel s = Some p ∧ hidden p = false ∧ is_leaving p = true ∧ suggestions s = [];
  ok_timer : ∀ r, searchTimer s = Some r → attached s = true ∧ version r = requestVersion s ∧ truthy (query r) = true;
  ok_requests : NoDup (version <$> (requests s ++ match searchTimer s with Some r => [r] | None => [] end));
  ok_versions : ∀ r, r ∈ requests s → version r ≤ requestVersion s ∧ truthy (query r) = true
}.

Lemma with_input_input f s : input (with_input f s) = f <$> input s. Proof. done. Qed.

(** The searches that are still to be answered. *)
Definition searches (s : state) : list search := requests s ++ match searchTimer s with Some r => [r] | None => [] end.

(** What concerns the list only, and what concerns the searches only. *)
Record shown_ok (s : state) : Prop := {
  sh_count : length (suggestions s) ≤ maxResults;
  sh_active : (-1 ≤ activeIndex s)%Z ∧ (activeIndex s < Z.of_nat (length (suggestions s)))%Z;
  sh_shown : suggestions s ≠ [] → ∃ i p, input s = Some i ∧ expanded i = true ∧ panel s = Some p ∧ hidden p = false
               ∧ is_leaving p = false ∧ options p = suggestions s ∧ closeTimer s = false;
  sh_gone : suggestions s = [] → ∀ i, input s = Some i → expanded i = false ∧ descendant i = None;
  sh_leaving : closeTimer s = true → ∃ p, panel s = Some p ∧ hidden p = false ∧ is_leaving p = true ∧ suggestions s = []
}.

Record searches_ok (s : state) : Prop := {
  se_timer : ∀ r, searchTimer s = Some r → attached s = true ∧ version r = requestVersion s ∧ truthy (query r) = true;
  se_requests : NoDup (version <$> searches s);
  se_versions : ∀ r, r ∈ requests s → version r ≤ requestVersion s ∧ truthy (query r) = true
}.

Lemma list_ok_parts s : list_ok s ↔ shown_ok s ∧ searches_ok s.
Proof. split; [intros []; by split; split|intros [[] []]; by split]. Qed.

(** Closing only needs the animation to belong to the list. *)
Lemma close_shown b s : (panel s = None → closeTimer s = false) → shown_ok (close b s).
Proof.
  intros Ht. unfold close. cbv zeta. set (s1 := with_input _ _). assert (panel s1 = panel s) as -> by done.
  destruct (panel s) as [p|] eqn:E.
  - destruct (b || hidden _) eqn:Eb; split; cbn; try lia; try done.
    + intros _ i Hi. destruct (input s) as [j|]; [|done]. by injection Hi as <-.
    + intros _ i Hi. destruct (input s) as [j|]; [|done]. by injection Hi as <-.
    + intros _. eexists. split_and!; try done. apply orb_false_iff in Eb as [_ Eb]. exact Eb.
  - split; cbn; try lia; try done.
    + intros _ i Hi. destruct (input s) as [j|]; [|done]. by injection Hi as <-.
    + rewrite Ht by done. done.
Qed.

Lemma close_input b s : input (close b s) = (λ i, {| value := value i; expanded := false; descendant := None |}) <$> input s.
Proof. unfold close. cbv zeta. destruct (panel _) as [p|]; [destruct (b || _)|]; cbn; by destruct (input s) as [[]|]. Qed.

Lemma close_rest b s :
  suggestions (close b s) = [] ∧ searchTimer (close b s) = searchTimer s ∧ requestVersion (close b s) = requestVersion s ∧
  requests (close b s) = requests s ∧ frames (close b s) = frames s.
Proof. unfold close. cbv zeta. destruct (panel _) as [p|]; [destruct (b || _)|]; done. Qed.

Lemma render_shown users s : (panel s = None → closeTimer s = false) → (users ≠ [] → attached s = true) → shown_ok (render users s).
Proof.
  intros Ht Ha. unfold render. cbv zeta. destruct (take maxResults users) as [|u us] eqn:E.
  - apply close_shown. done.
  - assert (attached s = true) as Hat by (apply Ha; intros ->; by rewrite take_nil in E).
    assert (length (u :: us) ≤ maxResults) as Hl by (rewrite <- E, length_take; lia). unfold attached in Hat.
    destruct (input s) as [i|] eqn:Ei; [|done]. split; cbn; try done.
    intros _. rewrite Ei. eexists _, _. done.
Qed.

Lemma render_rest users s :
  searchTimer (render users s) = searchTimer s ∧ requestVersion (render users s) = requestVersion s ∧
  requests (render users s) = requests s ∧ attached (render users s) = attached s ∧ text (render users s) = text s
  ∧ suggestions (render users s) = take maxResults users.
Proof.
  unfold render. cbv zeta. destruct (take maxResults users) as [|u us] eqn:E.
  - match goal with |- context [close false ?v] => destruct (close_rest false v) as (-> & -> & -> & -> & _); pose proof (close_input false v) as Hi end.
    split_and!; try done; unfold attached, text; rewrite Hi; cbn; by destruct (input s).
  - split_and!; try done; unfold attached, text; cbn; by destruct (input s).
Qed.


(** *** The list *)

Lemma shown_timer s : shown_ok s → panel s = None → closeTimer s = false.
Proof. intros Hs Hp. destruct (closeTimer s) eqn:E; [|done]. destruct (sh_leaving _ Hs E) as (p & Hp' & _). congruence. Qed.

Lemma value_shown v s : shown_ok s → shown_ok (with_input (λ i, { i with value := v }) s).
Proof.
  intros [H1 H2 H3 H4 H5]. split; try done.
  - intros Hne. destruct (H3 Hne) as (i & p & Hi & Hex & Hr). exists { i with value := v }, p. cbn. by rewrite Hi.
  - intros He i Hi. cbn in Hi. destruct (input s) as [j|] eqn:Ej; [|done]. injection Hi as <-. exact (H4 He j eq_refl).
Qed.

Lemma input_shown i s :
  shown_ok s → suggestions s = [] → (∀ j, i = Some j → expanded j = false ∧ descendant j = None) → shown_ok { s with input := i }.
Proof. intros [H1 H2 H3 H4 H5] He Hi. by split. Qed.

Lemma detach_shown s : shown_ok s → shown_ok (detach s).
Proof. intros Hs. unfold detach. apply input_shown; [|apply close_rest|done]. apply close_shown, (shown_timer _ Hs). Qed.

Lemma detach_timer s : shown_ok s → closeTimer (detach s) = false.
Proof.
  intros Hs. unfold detach, close. cbv zeta.
  match goal with |- context [match ?q with Some _ => _ | None => _ end] => change q with (panel s) end.
  destruct (panel s) as [p|] eqn:E; [done|]. exact (shown_timer _ Hs E).
Qed.

Lemma move_shown k s :
  shown_ok s → (0 <= k)%Z → (k < Z.of_nat (length (suggestions s)))%Z → shown_ok (move_to k s).
Proof.
  intros [H1 H2 H3 H4 H5] Hk Hl. assert (suggestions s ≠ []) as Hne by (intros E; rewrite E in Hl; cbn in Hl; lia).
  destruct (H3 Hne) as (i & p & Hi & Hex & Hp & Hh & Hv & Ho & Hc). unfold move_to. cbv zeta. change (panel { s with activeIndex := k }) with (panel s). rewrite Hp.
  destruct (_ && _); split; cbn; try done; try lia; intros _; rewrite ?Hi; eexists _, _; cbn; by rewrite ?Hp.
Qed.

Lemma rem_range k n : (0 <= k)%Z → (0 < n)%Z → (0 <= Z.rem k n < n)%Z.
Proof. intros. apply Z.rem_bound_pos; lia. Qed.

Lemma apply_shown u s : shown_ok s → shown_ok (apply u s).
Proof. intros Hs. unfold apply. apply close_shown, (shown_timer _ (value_shown u s Hs)). Qed.

Lemma keydown_shown k s : shown_ok s → shown_ok (handleKeydown k s).
Proof.
  intros Hs. unfold handleKeydown. cbv zeta. destruct k; [apply close_shown, (shown_timer _ Hs)|..]; (case_bool_decide as Hne; [done|]);
    destruct (sh_active _ Hs) as [Ha1 Ha2].
  - assert (0 < Z.of_nat (length (suggestions s)))%Z by (destruct (suggestions s); [done|cbn; lia]).
    destruct (rem_range (activeIndex s + 1) (Z.of_nat (length (suggestions s)))); [lia|lia|]. by apply move_shown.
  - assert (0 < Z.of_nat (length (suggestions s)))%Z by (destruct (suggestions s); [done|cbn; lia]).
    destruct (Z.eq_dec (activeIndex s - 1 + Z.of_nat (length (suggestions s))) (-1)) as [E|E].
    + rewrite E. assert (Z.of_nat (length (suggestions s)) = 1%Z) as -> by lia. change (Z.rem (-1) 1) with 0%Z. apply move_shown; [done|lia|lia].
    + destruct (rem_range (activeIndex s - 1 + Z.of_nat (length (suggestions s))) (Z.of_nat (length (suggestions s)))); [lia|lia|]. by apply move_shown.
  - destruct (0 <=? activeIndex s)%Z; [|done]. destruct (suggestions s !! _); [by apply apply_shown|done].
  - done.
Qed.

Lemma step_shown e s s' : step e s = Some s' → shown_ok s → searches_ok s → shown_ok s'.
Proof.
  intros He Hs Hq. pose proof (shown_timer s Hs) as Ht. destruct e; cbn [step] in He; try (apply (inj Some) in He as <-).
  - unfold attach. apply input_shown; [by apply detach_shown|apply close_rest|]. by intros j [= <-].
  - by apply detach_shown.
  - pose proof (detach_timer s Hs) as Hc. pose proof (detach_shown s Hs) as [H1 H2 H3 H4 H5]. unfold destroy.
    assert (suggestions (detach s) = []) as E by apply close_rest. split; try done; cbn; rewrite ?E; try done.
    intros H. change (closeTimer (detach s) = true) in H. congruence.
  - unfold clear. by apply close_shown.
  - destruct (attached s); [|done]. apply (inj Some) in He as <-. unfold handleInput. cbv zeta.
    set (s1 := with_input _ _). assert (shown_ok s1) as Hs1.
    { apply (value_shown v { s with searchTimer := None }). by destruct Hs. }
    set (s2 := { s1 with requestVersion := _ }). assert (shown_ok s2) as Hs2 by by destruct Hs1.
    destruct (truthy _); [by destruct Hs2|]. apply close_shown, shown_timer, render_shown; [by apply shown_timer|done].
  - by apply value_shown.
  - destruct (attached s); [|done]. apply (inj Some) in He as <-. by apply keydown_shown.
  - unfold handlePanelClick. destruct (panel s) as [p|]; [|done]. destruct (_ || _); [done|]. destruct (_ !! _); [by apply apply_shown|done].
  - destruct (attached s); [|done]. apply (inj Some) in He as <-. by apply close_shown.
  - destruct (searchTimer s) as [r|]; [|done]. apply (inj Some) in He as <-. by destruct Hs.
  - destruct (closeTimer s) eqn:E; [|done]. apply (inj Some) in He as <-. destruct (sh_leaving _ Hs E) as (p & Hp & _ & _ & Hsu).
    destruct Hs as [H1 H2 H3 H4 H5]. split; try done.
  - destruct (frames s) as [|n]; [done|]. apply (inj Some) in He as <-. destruct Hs as [H1 H2 H3 H4 H5]. split; try done.
    + intros Hne. destruct (H3 Hne) as (i & p & Hi & Hex & Hp & Hr). exists i, { p with is_visible := true }. cbn. by rewrite Hp.
    + intros Hc. destruct (H5 Hc) as (p & Hp & Hr). exists { p with is_visible := true }. cbn. by rewrite Hp.
  - destruct (requests s !! i) as [r|] eqn:Er; [|done]. apply (inj Some) in He as <-.
    set (s1 := { s with requests := _ }). assert (shown_ok s1) as Hs1 by by destruct Hs.
    unfold answered. destruct users as [us|].
    + destruct (negb _ || _) eqn:E; [done|]. apply orb_false_iff in E as [_ E]. apply negb_false_iff, eqs_true in E.
      apply render_shown; [done|]. intros _. unfold attached. unfold text in E. change (input s1) with (input s) in *.
      destruct (input s); [done|]. destruct (se_versions _ Hq r) as [_ Hr]; [by apply list_elem_of_lookup_2 in Er|].
      by rewrite <- E in Hr.
    + cbv zeta. destruct (_ =? _); [|by destruct Hs1]. by apply render_shown.
Qed.


(** *** The searches *)

Lemma searches_keep s s' :
  searchTimer s' = searchTimer s → requests s' = requests s → requestVersion s' = requestVersion s → attached s' = attached s →
  searches_ok s → searches_ok s'.
Proof. intros E1 E2 E3 E4 [H1 H2 H3]. split; unfold searches in *; rewrite ?E1, ?E2, ?E3, ?E4; done. Qed.

Lemma attached_with f s : attached (with_input f s) = attached s.
Proof. unfold attached. cbn. by destruct (input s). Qed.

Lemma attached_close b s : attached (close b s) = attached s.
Proof. unfold attached. rewrite close_input. by destruct (input s). Qed.

Lemma close_searches b s : searches_ok s → searches_ok (close b s).
Proof. destruct (close_rest b s) as (_ & E1 & E2 & E3 & _). apply searches_keep; try done. apply attached_close. Qed.

Lemma with_searches f s : searches_ok s → searches_ok (with_input f s).
Proof. apply searches_keep; try done. apply attached_with. Qed.

Lemma render_searches us s : searches_ok s → searches_ok (render us s).
Proof. destruct (render_rest us s) as (E1 & E2 & E3 & E4 & _). by apply searches_keep. Qed.

Lemma apply_searches u s : searches_ok s → searches_ok (apply u s).
Proof. intros Hs. by apply close_searches, with_searches. Qed.

Lemma prefix_requests s : searches_ok s → NoDup (version <$> requests s).
Proof. intros [_ H _]. unfold searches in H. rewrite fmap_app in H. by apply NoDup_app in H as (H & _). Qed.

(** A new version without a timer. *)
Lemma next_searches s : searches_ok s → searches_ok { { s with searchTimer := None } with requestVersion := S (requestVersion s) }.
Proof.
  intros Hs. split; cbn; [done| |].
  - unfold searches. cbn. rewrite app_nil_r. by apply prefix_requests.
  - intros r Hr. destruct (se_versions _ Hs r Hr). split; [lia|done].
Qed.

Lemma detach_searches s : searches_ok s → searches_ok (detach s).
Proof.
  intros Hs. apply next_searches in Hs. unfold detach. set (s1 := { { s with requestVersion := _ } with searchTimer := None }).
  assert (searches_ok s1) as Hs1 by (revert Hs; by apply searches_keep). apply (close_searches true) in Hs1 as [H1 H2 H3].
  destruct (close_rest true s1) as (_ & E & _). split; cbn; [rewrite E; done|done|done].
Qed.

Lemma input_searches v s : attached s = true → searches_ok s → searches_ok (handleInput v s).
Proof.
  intros Ha Hs. unfold handleInput. cbv zeta. set (s1 := { with_input _ _ with requestVersion := _ }).
  assert (searches_ok s1) as Hs1.
  { pose proof (next_searches s Hs) as H. revert H. apply searches_keep; try done. unfold attached. cbn. by destruct (input s). }
  destruct (truthy (trim v)) eqn:Et; [|by apply close_searches, render_searches].
  assert (attached s1 = true) as Ha1 by (unfold attached in *; cbn; by destruct (input s)).
  split; [by intros r [= <-]| |apply Hs1]. unfold searches. cbn. rewrite fmap_app. apply NoDup_app. split_and!.
  - exact (prefix_requests _ Hs).
  - intros n (r & -> & Hr)%list_elem_of_fmap Hn. apply list_elem_of_singleton in Hn. cbn in Hn.
    destruct (se_versions _ Hs r Hr). lia.
  - apply NoDup_singleton.
Qed.

Lemma move_searches k s : searches_ok s → searches_ok (move_to k s).
Proof.
  intros Hs. unfold move_to. cbv zeta. destruct (panel _); [destruct (_ && _); [apply with_searches|]|]; revert Hs; by apply searches_keep.
Qed.

Lemma step_searches e s s' : step e s = Some s' → searches_ok s → searches_ok s'.
Proof.
  intros He Hs. destruct e; cbn [step] in He; try (apply (inj Some) in He as <-).
  - pose proof (detach_searches s Hs) as Hd. unfold attach. assert (searchTimer (detach s) = None) as E by apply close_rest.
    destruct Hd as [H1 H2 H3].
    split; [|exact H2|exact H3]. change (∀ r, searchTimer (detach s) = Some r → attached (attach v s) = true ∧ version r = requestVersion (detach s) ∧ truthy (query r) = true).
    by rewrite E.
  - by apply detach_searches.
  - pose proof (detach_searches s Hs) as Hd. revert Hd. by apply searches_keep.
  - by apply apply_searches.
  - destruct (attached s) eqn:E; [|done]. apply (inj Some) in He as <-. by apply input_searches.
  - by apply with_searches.
  - destruct (attached s); [|done]. apply (inj Some) in He as <-. unfold handleKeydown. cbv zeta.
    destruct k; [by apply close_searches|..]; (case_bool_decide; [done|]); [by apply move_searches|by apply move_searches| |done].
    destruct (0 <=? _)%Z; [|done]. destruct (_ !! _); [by apply apply_searches|done].
  - unfold handlePanelClick. destruct (panel s); [|done]. destruct (_ || _); [done|]. destruct (_ !! _); [by apply apply_searches|done].
  - destruct (attached s); [|done]. apply (inj Some) in He as <-. by apply close_searches.
  - destruct (searchTimer s) as [r|] eqn:E; [|done]. apply (inj Some) in He as <-. destruct (se_timer _ Hs r E) as (Ha & Hv & Ht).
    split; [done| |]; unfold searches; cbn.
    + destruct Hs as [_ H _]. unfold searches in H. rewrite E in H. by rewrite app_nil_r.
    + intros q [Hq|Hq%list_elem_of_singleton]%elem_of_app; [by apply (se_versions _ Hs)|]. subst q. split; [lia|done].
  - destruct (closeTimer s); [|done]. apply (inj Some) in He as <-. revert Hs. by apply searches_keep.
  - destruct (frames s); [done|]. apply (inj Some) in He as <-. revert Hs. by apply searches_keep.
  - destruct (requests s !! i) as [r|] eqn:Er; [|done]. apply (inj Some) in He as <-.
    set (s1 := { s with requests := _ }). assert (searches_ok s1) as Hs1.
    { destruct Hs as [H1 H2 H3]. split; [done| |].
      - unfold searches in *. cbn. eapply sublist_NoDup; [exact H2|]. apply fmap_sublist, sublist_app; [apply sublist_delete|done].
      - intros q Hq. apply H3. eapply elem_of_sublist; [exact Hq|apply sublist_delete]. }
    unfold answered. destruct users; [destruct (_ || _); [done|by apply render_searches]|].
    cbv zeta. destruct (_ =? _); [apply render_searches|]; revert Hs1; by apply searches_keep.
Qed.


(** What an event may do to the names. *)
Lemma suggestions_change e s s' :
  step e s = Some s' →
  suggestions s' = suggestions s ∨ suggestions s' = [] ∨
  ∃ i users r, e = Answer i (Some users) ∧ requests s !! i = Some r ∧ version r = requestVersion s ∧ query r = trim (text s) ∧
    suggestions s' = take maxResults users.
Proof.
  intros He. assert (∀ b v, suggestions (close b v) = []) as Hc by (intros b v; apply close_rest).
  destruct e; cbn [step] in He; try (apply (inj Some) in He as <-); try (by right; left; apply Hc); try by left.
  - destruct (attached s); [|done]. apply (inj Some) in He as <-. unfold handleInput. cbv zeta. destruct (truthy _); [by left|right; left; apply Hc].
  - destruct (attached s); [|done]. apply (inj Some) in He as <-. unfold handleKeydown, move_to, apply. cbv zeta.
    destruct k; [right; left; apply Hc|..]; (case_bool_decide; [by left|]);
      try (left; destruct (panel _); [destruct (_ && _)|]; done); [|by left].
    destruct (0 <=? _)%Z; [|by left]. destruct (_ !! _); [right; left; apply Hc|by left].
  - unfold handlePanelClick, apply. destruct (panel s); [|by left]. destruct (_ || _); [by left|]. destruct (_ !! _); [right; left; apply Hc|by left].
  - destruct (attached s); [|done]. apply (inj Some) in He as <-. right; left; apply Hc.
  - destruct (searchTimer s); [|done]. apply (inj Some) in He as <-. by left.
  - destruct (closeTimer s); [|done]. apply (inj Some) in He as <-. by left.
  - destruct (frames s); [done|]. apply (inj Some) in He as <-. by left.
  - destruct (requests s !! i) as [r|] eqn:Er; [|done]. apply (inj Some) in He as <-. unfold answered. destruct users as [us|].
    + destruct (negb _ || _) eqn:E; [by left|]. apply orb_false_iff in E as [Ev E]. apply negb_false_iff, eqs_true in E.
      apply negb_false_iff, Nat.eqb_eq in Ev. right; right. exists i, us, r. split_and!; try done. apply render_rest.
    + cbv zeta. destruct (_ =? _); [|by left]. right; left. etransitivity; [apply render_rest|apply take_nil].
Qed.

(** At any moment, whatever order answers, timers, frames, keys and clicks come in: at most [maxResults] names are
    suggested; the active one is among them; a list with names is open under an attached field, not leaving, with just
    these names on its options; without names the field says nothing is expanded. The searches under way have different
    versions, so that names only ever appear as the answer to the search of the latest input, for the text that is
    still in the field. *)
Theorem suggestion_list s :
  reachable (λ s, s = initial) steps s →
  list_ok s ∧
  (∀ e s', step e s = Some s' → suggestions s' ≠ suggestions s →
     suggestions s' = [] ∨
     ∃ i users r, e = Answer i (Some users) ∧ requests s !! i = Some r ∧ version r = requestVersion s ∧ query r = trim (text s) ∧
       suggestions s' = take maxResults users).
Proof.
  intros Hr. split.
  - apply list_ok_parts. revert s Hr. apply invariant_reachable.
    + intros s ->. split; split; cbn; try done; try lia; [constructor|by intros r ?%not_elem_of_nil].
    + intros s s' [H1 H2] [e He]. split; [by eapply step_shown|by eapply step_searches].
  - intros e s' He Hne. apply suggestions_change in He as [E|[E|E]]; [done|by left|by right].
Qed.

End suggestions.

(** ** Examples *)

Fixpoint run (es : list event) (s : state) : option state :=
  match es with [] => Some s | e :: es => s' ← step 8 e s; run es s' end.

Lemma suggestions_run es s : run es initial = Some s → reachable (λ s, s = initial) (steps 8) s.
Proof.
  assert (reachable (λ s, s = initial) (steps 8) initial) as H by by apply reachable_init.
  revert H. generalize initial at 2 3. induction es as [|e es IH]; intros a Ha; cbn [run].
  - by intros [= <-].
  - destruct (step 8 e a) as [b|] eqn:E; [|done]. apply IH. eapply reachable_step; [done|]. by exists e.
Qed.

Definition three : option (list jsstring) := Some [js "alice"; js "albert"; js "alma"].
Definition searched : list event := [Attach []; Type_text "al"; Search_timer; Answer 0 three; Frame].

(** The answer to the older search comes last and is dropped. *)
Example stale_answer :
  suggestions <$> run [Attach []; Type_text "a"; Search_timer; Type_text "al"; Search_timer; Answer 1 three; Answer 0 (Some [js "zoe"])] initial
  = Some [js "alice"; js "albert"; js "alma"].
Proof. vm_compute. reflexivity. Qed.

Example chosen_by_keyboard : text <$> run (searched ++ [Press ArrowDown; Press ArrowDown; Press Enter]) initial = Some (js "albert").
Proof. vm_compute. reflexivity. Qed.

(** From no choice, the key upwards passes over the last name. *)
Example up_skips_the_last : activeIndex <$> run (searched ++ [Press ArrowUp]) initial = Some 1%Z.
Proof. vm_compute. reflexivity. Qed.

(** The key that closes the list does not end the search under way, which opens it again. *)
Example escape_reopens :
  suggestions <$> run [Attach []; Type_text "al"; Search_timer; Press Escape; Answer 0 three] initial = Some [js "alice"; js "albert"; js "alma"].
Proof. vm_compute. reflexivity. Qed.

(** The field names an option of the list before as active, of which none is. *)
Example stale_descendant :
  (λ s, (activeIndex s, descendant <$> input s)) <$> run (searched ++ [Press ArrowDown; Type_text "alm"; Search_timer; Answer 0 three]) initial
  = Some ((-1)%Z, Some (Some 0%Z)).
Proof. vm_compute. reflexivity. Qed.

Lemma suggestion_list_witness :
  (λ s, (length (suggestions s), activeIndex s)) <$> run (searched ++ [Press ArrowDown]) initial = Some (3, 0%Z) ∧
  (∀ s, run (searched ++ [Press ArrowDown]) initial = Some s → list_ok 8 s).
Proof.
  split; [vm_compute; reflexivity|]. intros s Hs. exact (proj1 (suggestion_list 8 s (suggestions_run _ _ Hs))).
Defined.
