(* ===== verification/Messages.v ===== *)
(** * The message centre

    [internal/service/frontend/renop-html/js/messages.js]: the pages of messages behind a cursor, the unread count and its polling,
    reading, deciding, deleting and clearing, with requests and animations that overlap. Messages are objects
    that are shared between the list and the running operations, so they live in a heap and are named by
    their place in it. One event is the code between two [await]s. Texts, the heights of the animations
    and the focus are left out. *)

From S2P Require Import Prelude JsText.
From coqutil Require Import Datatypes.RecordSettersUsingExistingGetters.
Local Open Scope nat_scope.

#[local] Arguments const {E} _ _ /.
#[local] Arguments cons {A} & _ _.

(** ** The state *)

Record user_message := { id : jsstring; read : bool; action_kind : jsstring; action_status : jsstring }.

(** The answer with a page: its messages, [next_cursor] (empty when there is none) and [unread_count]. *)
Record message_page := { page_messages : list user_message; next_cursor : jsstring; unread_count : Z }.

(** What goes on when a fetch ends: nothing, or the rest of [clearAllMessages]. *)
Inductive after := Nothing | Cleared.

(** A suspended operation: the answer, the end of [logout], of the confirmation or of the animations it waits for. *)
Inductive task :=
  | Fetch (reset : bool) (cursor : jsstring) (a : after)
  | Kicked_fetch (a : after)
  | Unread | Kicked_unread
  | Mark (m : nat) | Mark_all
  | Confirm | Clear | Clear_leaving (retained : list nat) (leaving : list nat)
  | Delete (m : nat) | Delete_leaving (m : nat) (remaining : list nat) (leaving : list nat)
  | Act (m : nat) (accept : bool).

Inductive alert := Load_failed | Update_failed | Clear_failed | Delete_failed | Action_failed | All_cleared.

(** [cards]: the articles in the document, each an object with the identifier it shows; [more]: the cursor the load-more
    button carries while it can be used; [logouts]: the calls of [logout] after an answer 401. *)
Record state := {
  signed_in : bool; heap : list user_message; messages : list nat; nextCursor : jsstring; unreadCount : Z;
  pollTimer : bool; loading : bool; clearingMessages : bool; handlers : list jsstring;
  modal : bool; cards : list (nat * jsstring); next_card : nat; more : jsstring;
  tasks : list task; logouts : nat; alerts : list alert
}.

Definition message_at (m : nat) (s : state) : option user_message := heap s !! m.
Definition ids (ms : list nat) (s : state) : list jsstring := omap (λ m, id <$> message_at m s) ms.
Definition start (t : task) (s : state) : state := { s with tasks := tasks s ++ [t] }.
Definition alerting (a : alert) (s : state) : state := { s with alerts := alerts s ++ [a] }.
Definition update (m : nat) (f : user_message → user_message) (s : state) : state := { s with heap := alter f m (heap s) }.

Definition setUnreadCount (n : Z) (s : state) : state := { s with unreadCount := Z.max 0 n }.

(** ** The list *)

(** The load-more button: shown with the cursor, and enabled when nothing loads. *)
Definition has_more (s : state) : bool := negb (bool_decide (messages s = [])) && truthy (nextCursor s).
Definition syncLoadMoreButton (s : state) : state := { s with more := if has_more s && negb (loading s) then nextCursor s else [] }.

Definition new_cards (names : list jsstring) (s : state) : list (nat * jsstring) := imap (λ k i, (next_card s + k, i)) names.

(** [renderMessages]: the cards from the first added message on, or all of them. *)
Definition renderMessages (focusMessageID : jsstring) (s : state) : state :=
  let s := syncLoadMoreButton s in
  let all := ids (messages s) s in
  let startIndex := match list_find (λ i, i = focusMessageID) all with
                    | Some (k, _) => if truthy focusMessageID then k else 0 | None => 0 end in
  let fresh := if (0 <? startIndex) && (length (cards s) =? startIndex) then drop startIndex all else all in
  let kept := if (0 <? startIndex) && (length (cards s) =? startIndex) then cards s else [] in
  { { s with cards := kept ++ new_cards fresh s } with next_card := next_card s + length fresh }.

(** [appendUniqueMessagePage], and the first added identifier. *)
Fixpoint append_unique (page : list (nat * jsstring)) (existing : list jsstring) : list nat * jsstring :=
  match page with
  | [] => ([], [])
  | (m, i) :: page =>
      if negb (truthy i) || existsb (eqs i) existing then append_unique page existing
      else let rest := append_unique page (existing ++ [i]) in (m :: rest.1, i)
  end.

Definition appendUniqueMessagePage (page : list (nat * jsstring)) (s : state) : jsstring * state :=
  let r := append_unique page (ids (messages s) s) in (r.2, { s with messages := messages s ++ r.1 }).

(** ** Operations *)

Definition stopPolling (s : state) : state := { s with pollTimer := false }.
Definition refreshMessageUnreadCount (s : state) : state := if signed_in s then start Unread s else s.
Definition startPolling (s : state) : state := { refreshMessageUnreadCount (stopPolling s) with pollTimer := true }.

(** [fetchMessages]; the [after] goes on at once when there is nothing to do. *)
Definition go_on (a : after) (s : state) : state :=
  match a with Nothing => s | Cleared => { alerting All_cleared s with clearingMessages := false } end.

Definition fetchMessages (reset : bool) (cursor : jsstring) (a : after) (s : state) : state :=
  if loading s || (negb reset && negb (truthy cursor)) then go_on a s
  else start (Fetch reset (if reset then [] else cursor) a) (syncLoadMoreButton { s with loading := true }).

Definition openMessageCenter (s : state) : state :=
  if signed_in s then fetchMessages true [] Nothing { s with modal := true } else s.

Definition loadMoreMessages (s : state) : state :=
  if truthy (more s) && negb (loading s) then fetchMessages false (more s) Nothing s else s.

Definition page_loaded (s : state) : state := syncLoadMoreButton { s with loading := false }.

(** The objects of a page get places in the heap. *)
Definition place_page (p : list user_message) (s : state) : list (nat * jsstring) * state :=
  (imap (λ k m, (length (heap s) + k, id m)) p, { s with heap := heap s ++ p }).

Inductive answer (A : Type) := Good (a : A) | Unauthorized | Failed.
Arguments Good {A} a. Arguments Unauthorized {A}. Arguments Failed {A}.

Definition page_fetched (reset : bool) (a : after) (r : answer message_page) (s : state) : state :=
  match r with
  | Good p =>
      let page := (place_page (page_messages p) s).1 in
      let s := (place_page (page_messages p) s).2 in
      let added := if reset then ([], { s with messages := page.*1 }) else appendUniqueMessagePage page s in
      let s := added.2 in
      let s := { s with nextCursor := if bool_decide (page = []) then [] else next_cursor p } in
      let s := renderMessages added.1 (setUnreadCount (unread_count p) s) in
      go_on a (page_loaded s)
  | Unauthorized => start (Kicked_fetch a) { s with logouts := S (logouts s) }
  | Failed => go_on a (page_loaded (alerting Load_failed s))
  end.

Definition unread_answered (r : answer Z) (s : state) : state :=
  match r with
  | Good n => setUnreadCount n s
  | Unauthorized => start Kicked_unread { s with logouts := S (logouts s) }
  | Failed => s
  end.

Definition mark_read (m : user_message) : user_message := { m with read := true }.
Definition is_read (m : nat) (s : state) : bool := match message_at m s with Some m => read m | None => true end.

(** The rest of [markMessageRead], [markAllRead] and [executeMessageAction]; [None] is a failure. *)
Definition marked (m : nat) (ok : bool) (s : state) : state :=
  if ok then renderMessages [] (setUnreadCount (unreadCount s - 1) (update m mark_read s)) else s.

Definition all_marked (ok : bool) (s : state) : state :=
  if ok then renderMessages [] (setUnreadCount 0 (foldr (λ m, update m mark_read) s (messages s))) else alerting Update_failed s.

Definition acted (m : nat) (accept : bool) (r : option bool) (s : state) : state :=
  match r with
  | Some true =>
      let was := is_read m s in
      let s := update m (λ o, { { o with action_status := if accept then js "accepted" else js "rejected" } with read := true }) s in
      renderMessages [] (if was then s else setUnreadCount (unreadCount s - 1) s)
  | Some false => s
  | None => alerting Action_failed s
  end.

(** [deleteMessage]: what remains is known before the animations, and put back after them. *)
Definition all_but (i : jsstring) (s : state) : list nat :=
  List.filter (λ m, match message_at m s with Some o => negb (eqs (id o) i) | None => false end) (messages s).

Definition find_card (i : jsstring) (s : state) : list nat :=
  match list_find (λ c, c.2 = i) (cards s) with Some (_, c) => [c.1] | None => [] end.

Definition delete_answered (m : nat) (ok : bool) (s : state) : state :=
  let i := match message_at m s with Some o => id o | None => [] end in
  if ok then start (Delete_leaving m (all_but i s) (find_card i s)) s else alerting Delete_failed s.

Definition remove_cards (gone : list nat) (s : state) : state :=
  { s with cards := List.filter (λ c, negb (bool_decide (c.1 ∈ gone))) (cards s) }.

Definition deleted (m : nat) (remaining leaving : list nat) (s : state) : state :=
  let s := if is_read m s then s else setUnreadCount (unreadCount s - 1) s in
  let s := syncLoadMoreButton (remove_cards leaving { s with messages := remaining }) in
  if bool_decide (messages s = []) && truthy (nextCursor s) then fetchMessages true [] Nothing s else s.

(** [clearAllMessages]: the guard, the confirmation, the request, the animations, the fetch. *)
Definition isPendingActionMessage (m : user_message) : bool := truthy (action_kind m) && eqs (action_status m) "pending".
Definition retained (s : state) : list nat :=
  List.filter (λ m, match message_at m s with Some o => isPendingActionMessage o | None => false end) (messages s).

Definition clearAllMessages (s : state) : state :=
  if clearingMessages s || loading s then s else start Confirm { s with clearingMessages := true }.

Definition confirmed (ok : bool) (s : state) : state :=
  if ok then start Clear s else { s with clearingMessages := false }.

Definition dismissible_cards (s : state) : list nat :=
  mjoin ((λ m, match message_at m s with Some o => if isPendingActionMessage o then [] else find_card (id o) s | None => [] end) <$> messages s).

Definition cleared (kept leaving : list nat) (s : state) : state :=
  let s := { { remove_cards leaving s with messages := kept } with nextCursor := [] } in
  fetchMessages true [] Cleared (syncLoadMoreButton s).

(** Without cards to remove there is no animation to wait for. *)
Definition clear_answered (ok : bool) (s : state) : state :=
  if ok then
    let leaving := dismissible_cards s in
    if bool_decide (leaving = []) then cleared (retained s) [] s else start (Clear_leaving (retained s) leaving) s
  else { alerting Clear_failed s with clearingMessages := false }.

(** ** Events *)

Inductive operation := Read_it | Delete_it | Accept_it | Reject_it.

(** [handleMessageListClick] on a card and its button. *)
Definition card_click (c : jsstring) (o : operation) (s : state) : state :=
  match list_find (λ m, id <$> message_at m s = Some c) (messages s) with
  | None => s
  | Some (_, m) =>
      match o with
      | Delete_it => start (Delete m) s
      | Accept_it | Reject_it =>
          if existsb (eqs (match message_at m s with Some x => action_kind x | None => [] end)) (handlers s)
          then start (Act m (match o with Accept_it => true | _ => false end)) s else s
      | Read_it => if is_read m s then s else start (Mark m) s
      end
  end.

Definition handleAuthChanged (b : bool) (s : state) : state :=
  let s := { s with signed_in := b } in
  if b then startPolling s
  else { setUnreadCount 0 { { stopPolling s with messages := [] } with nextCursor := [] } with modal := false }.

Inductive event :=
  | Auth_changed (b : bool) | Language_changed | Register_handler (kind : jsstring)
  | Open | Close | Load_more | Mark_all_click | Clear_click | Card_click (c : jsstring) (o : operation)
  | Poll
  | Page_answer (k : nat) (r : answer message_page) | Unread_answer (k : nat) (r : answer Z)
  | Logged_out (k : nat)
  | Done (k : nat) (ok : bool)              (* the answer, the confirmation or the end of the animations *)
  | Decided (k : nat) (r : option bool).

Definition close_task (k : nat) (s : state) : state := { s with tasks := delete k (tasks s) }.

Definition step (e : event) (s : state) : option state :=
  match e with
  | Auth_changed b => Some (handleAuthChanged b s)
  | Language_changed => Some (renderMessages [] s)
  | Register_handler kind => Some (renderMessages [] { s with handlers := kind :: handlers s })
  | Open => Some (openMessageCenter s)
  | Close => Some { s with modal := false }
  | Load_more => Some (loadMoreMessages s)
  | Mark_all_click => Some (start Mark_all s)
  | Clear_click => Some (clearAllMessages s)
  | Card_click c o => Some (card_click c o s)
  | Poll => if pollTimer s then Some (refreshMessageUnreadCount s) else None
  | Page_answer k r => match tasks s !! k with Some (Fetch reset _ a) => Some (page_fetched reset a r (close_task k s)) | _ => None end
  | Unread_answer k r => match tasks s !! k with Some Unread => Some (unread_answered r (close_task k s)) | _ => None end
  | Logged_out k =>
      match tasks s !! k with
      | Some (Kicked_fetch a) => Some (go_on a (page_loaded (close_task k s)))
      | Some Kicked_unread => Some (close_task k s)
      | _ => None
      end
  | Done k ok =>
      match tasks s !! k with
      | Some (Mark m) => Some (marked m ok (close_task k s))
      | Some Mark_all => Some (all_marked ok (close_task k s))
      | Some Confirm => Some (confirmed ok (close_task k s))
      | Some Clear => Some (clear_answered ok (close_task k s))
      | Some (Clear_leaving kept leaving) => Some (cleared kept leaving (close_task k s))
      | Some (Delete m) => Some (delete_answered m ok (close_task k s))
      | Some (Delete_leaving m rest leaving) => Some (deleted m rest leaving (close_task k s))
      | _ => None
      end
  | Decided k r => match tasks s !! k with Some (Act m accept) => Some (acted m accept r (close_task k s)) | _ => None end
  end.

(** The document as loaded, and [initMessageCenter]. *)
Definition initial : state := {|
  signed_in := false; heap := []; messages := []; nextCursor := []; unreadCount := 0; pollTimer := false; loading := false;
  clearingMessages := false; handlers := []; modal := false; cards := []; next_card := 0; more := [];
  tasks := []; logouts := 0; alerts := []
|}.

Fixpoint run (es : list event) (s : state) : option state :=
  match es with [] => Some s | e :: es => s' ← step e s; run es s' end.

(** ** One fetch and one clearing at a time *)

Definition fetch_of (t : task) : nat := match t with Fetch _ _ _ | Kicked_fetch _ => 1 | _ => 0 end.
Definition cleared_of (a : after) : nat := match a with Cleared => 1 | Nothing => 0 end.
Definition clear_of (t : task) : nat :=
  match t with Confirm | Clear | Clear_leaving _ _ => 1 | Fetch _ _ a | Kicked_fetch a => cleared_of a | _ => 0 end.

(** The tasks, with [f] fetches and [c] clearings that the running event has taken from them. *)
Record counted (f c : nat) (s : state) : Prop := {
  n_fetch : sum_list_with fetch_of (tasks s) + f = Nat.b2n (loading s);
  n_clear : sum_list_with clear_of (tasks s) + c = Nat.b2n (clearingMessages s);
  n_unread : (0 <= unreadCount s)%Z;
  n_poll : pollTimer s = signed_in s;
  n_more : loading s = true → more s = []
}.

Lemma sum_delete (f : task → nat) k t l : l !! k = Some t → sum_list_with f l = sum_list_with f (delete k l) + f t.
Proof.
  intros Hk. rewrite delete_take_drop, sum_list_with_app. rewrite <- (take_drop_middle l k t Hk) at 1.
  rewrite sum_list_with_app. cbn. lia.
Qed.

Lemma counted_drop k t s : tasks s !! k = Some t → counted 0 0 s → counted (fetch_of t) (clear_of t) (close_task k s).
Proof.
  intros Hk [H1 H2 H3 H4 H5]. pose proof (sum_delete fetch_of k t _ Hk). pose proof (sum_delete clear_of k t _ Hk).
  split; cbn; try done; lia.
Qed.

Lemma counted_start t s : counted (fetch_of t) (clear_of t) s → counted 0 0 (start t s).
Proof. intros [H1 H2 H3 H4 H5]. split; cbn; try done; rewrite sum_list_with_app; cbn; lia. Qed.

Lemma counted_sync f c s : counted f c s → counted f c (syncLoadMoreButton s).
Proof.
  intros [H1 H2 H3 H4 H5]. split; try done. intros Hl. unfold syncLoadMoreButton. change (loading s = true) in Hl. cbn.
  by rewrite Hl, andb_false_r.
Qed.

Lemma counted_render f c i s : counted f c s → counted f c (renderMessages i s).
Proof. intros Hs. apply counted_sync in Hs as []. by split. Qed.

Lemma counted_unread f c n s : counted f c s → counted f c (setUnreadCount n s).
Proof. intros [H1 H2 H3 H4 H5]. split; try done. cbn. lia. Qed.

Lemma counted_finish a s : counted 0 (cleared_of a) s → counted 0 0 (go_on a s).
Proof. intros [H1 H2 H3 H4 H5]. destruct a; split; cbn in *; try done. destruct (clearingMessages s); cbn in *; lia. Qed.

Lemma counted_loaded c s : counted 1 c s → counted 0 c (page_loaded s).
Proof.
  intros [H1 H2 H3 H4 H5]. apply counted_sync. split; cbn; try done. destruct (loading s); cbn in *; lia.
Qed.

Lemma counted_fetch reset cursor a s : counted 0 (cleared_of a) s → counted 0 0 (fetchMessages reset cursor a s).
Proof.
  intros Hs. unfold fetchMessages. destruct (_ || _) eqn:E; [by apply counted_finish|]. apply orb_false_iff in E as [E _].
  apply counted_start. destruct Hs as [H1 H2 H3 H4 H5]. rewrite E in H1.
  split; unfold syncLoadMoreButton; cbn; try done; [cbn in *; lia|]. intros _. by rewrite andb_false_r.
Qed.

Lemma counted_same f c s s' :
  tasks s' = tasks s → loading s' = loading s → clearingMessages s' = clearingMessages s → unreadCount s' = unreadCount s →
  pollTimer s' = pollTimer s → signed_in s' = signed_in s → more s' = more s → counted f c s → counted f c s'.
Proof. intros E1 E2 E3 E4 E5 E6 E7 [H1 H2 H3 H4 H5]. split; by rewrite ?E1, ?E2, ?E3, ?E4, ?E5, ?E6, ?E7. Qed.

(** Fields that the counting does not read. *)
Ltac same := by apply counted_same.

Lemma counted_mark_all f c ms s : counted f c s → counted f c (foldr (λ m, update m mark_read) s ms).
Proof. intros Hs. induction ms as [|m ms IH]; [done|]. cbn [foldr]. revert IH. same. Qed.

Lemma counted_fetched reset a r s : counted 1 (cleared_of a) s → counted 0 0 (page_fetched reset a r s).
Proof.
  intros Hs. destruct r as [p| |]; cbn [page_fetched].
  - apply counted_finish, counted_loaded, counted_render, counted_unread. revert Hs. destruct reset; same.
  - apply counted_start. revert Hs. same.
  - apply counted_finish, counted_loaded. revert Hs. same.
Qed.

Lemma counted_auth b s : counted 0 0 s → counted 0 0 (handleAuthChanged b s).
Proof.
  intros Hs. unfold handleAuthChanged. cbv zeta. destruct b.
  - unfold startPolling, refreshMessageUnreadCount. cbn. pose proof (counted_start Unread s Hs) as [H1 H2 H3 H4 H5]. by split.
  - apply (counted_unread _ _ 0) in Hs as [H1 H2 H3 H4 H5]. by split.
Qed.

Lemma counted_click c o s : counted 0 0 s → counted 0 0 (card_click c o s).
Proof.
  intros Hs. unfold card_click. destruct (list_find _ _) as [[_ m]|]; [|done].
  destruct o; [destruct (is_read m s); [done|]| |destruct (existsb _ _); [|done]..]; by apply counted_start.
Qed.

Lemma counted_cleared kept leaving s : counted 0 1 s → counted 0 0 (cleared kept leaving s).
Proof. intros Hs. unfold cleared. apply (counted_fetch true [] Cleared), counted_sync. revert Hs. same. Qed.

Lemma counted_step e s s' : step e s = Some s' → counted 0 0 s → counted 0 0 s'.
Proof.
  intros He Hs. destruct e; cbn [step] in He; try (apply (inj Some) in He as <-).
  - by apply counted_auth.
  - by apply counted_render.
  - apply counted_render. revert Hs. same.
  - unfold openMessageCenter. destruct (signed_in s) eqn:E; [|done]. apply counted_fetch. revert Hs. same.
  - revert Hs. same.
  - unfold loadMoreMessages. destruct (_ && _); [by apply counted_fetch|done].
  - by apply counted_start.
  - unfold clearAllMessages. destruct (_ || _) eqn:E; [done|]. apply orb_false_iff in E as [E _]. apply counted_start.
    destruct Hs as [H1 H2 H3 H4 H5]. rewrite E in H2. split; cbn in *; try done; lia.
  - by apply counted_click.
  - destruct (pollTimer s); [|done]. apply (inj Some) in He as <-. unfold refreshMessageUnreadCount. destruct (signed_in s); [by apply counted_start|done].
  - destruct (tasks s !! k) as [[]|] eqn:E; try done. apply (inj Some) in He as <-. apply (counted_drop k _ s E) in Hs. by apply counted_fetched.
  - destruct (tasks s !! k) as [[]|] eqn:E; try done. apply (inj Some) in He as <-. apply (counted_drop k _ s E) in Hs.
    destruct r; cbn [unread_answered]; [by apply counted_unread| |done]. apply counted_start. revert Hs. same.
  - destruct (tasks s !! k) as [[]|] eqn:E; try done; apply (inj Some) in He as <-; apply (counted_drop k _ s E) in Hs; [|done].
    by apply counted_finish, counted_loaded.
  - destruct (tasks s !! k) as [[]|] eqn:E; try done; apply (inj Some) in He as <-; apply (counted_drop k _ s E) in Hs.
    + unfold marked. destruct ok; [|done]. apply counted_render, counted_unread. revert Hs. same.
    + unfold all_marked. destruct ok; [by apply counted_render, counted_unread, counted_mark_all|]. revert Hs. same.
    + unfold confirmed. destruct ok; [by apply counted_start|]. destruct Hs as [H1 H2 H3 H4 H5]. split; cbn in *; try done.
      destruct (clearingMessages s); cbn in *; lia.
    + unfold clear_answered. cbv zeta. destruct ok; [case_bool_decide; [by apply counted_cleared|by apply counted_start]|]. destruct Hs as [H1 H2 H3 H4 H5]. split; cbn in *; try done.
      destruct (clearingMessages s); cbn in *; lia.
    + by apply counted_cleared.
    + unfold delete_answered. cbv zeta. destruct ok; [by apply counted_start|]. revert Hs. same.
    + unfold deleted. cbv zeta. match goal with |- counted 0 0 (if ?b then _ else _) => destruct b end; [apply (counted_fetch true [] Nothing)|];
        apply counted_sync; (match goal with |- counted 0 _ (remove_cards _ { ?v with messages := _ }) => cut (counted 0 0 v); [same|] end);
        (destruct (is_read _ _); [done|by apply counted_unread]).
  - destruct (tasks s !! k) as [[]|] eqn:E; try done; apply (inj Some) in He as <-; apply (counted_drop k _ s E) in Hs.
    unfold acted. destruct r as [[]|]; [|done|revert Hs; same]. cbv zeta. apply counted_render.
    destruct (is_read _ _); [|apply counted_unread]; revert Hs; same.
Qed.

(** ** The names of the messages *)

Definition name_at (m : nat) (s : state) : option jsstring := id <$> message_at m s.

(** A list of objects with different identifiers. *)
Definition distinct (ms : list nat) (s : state) : Prop := Forall (λ m, is_Some (name_at m s)) ms ∧ NoDup (ids ms s).

Definition task_lists (t : task) : list (list nat) :=
  match t with Clear_leaving kept _ => [kept] | Delete_leaving _ rest _ => [rest] | _ => [] end.

Definition names_ok (s : state) : Prop :=
  distinct (messages s) s ∧ Forall (λ t, Forall (λ ms, distinct ms s) (task_lists t)) (tasks s).

(** Objects keep their identifiers. *)
Definition extends (s s' : state) : Prop := ∀ m i, name_at m s = Some i → name_at m s' = Some i.

Lemma ids_cons m ms s : ids (m :: ms) s = match name_at m s with Some i => i :: ids ms s | None => ids ms s end.
Proof. unfold ids, name_at. cbn. by destruct (message_at m s). Qed.

Lemma ids_app ms ns s : ids (ms ++ ns) s = ids ms s ++ ids ns s.
Proof. unfold ids. by rewrite omap_app. Qed.

Lemma extends_ids s s' ms : extends s s' → Forall (λ m, is_Some (name_at m s)) ms → ids ms s' = ids ms s.
Proof.
  intros He. induction 1 as [|m ms [i Hi] _ IH]; [done|]. by rewrite !ids_cons, Hi, (He m i Hi), IH.
Qed.

Lemma extends_distinct s s' ms : extends s s' → distinct ms s → distinct ms s'.
Proof.
  intros He [H1 H2]. split; [|by rewrite (extends_ids s s')]. eapply Forall_impl; [exact H1|]. intros m [i Hi]. exists i. by apply He.
Qed.

Lemma extends_names s s' : extends s s' → messages s' = messages s → tasks s' = tasks s → names_ok s → names_ok s'.
Proof.
  intros He E1 E2 [H1 H2]. split; rewrite ?E1, ?E2; [by eapply extends_distinct|].
  eapply Forall_impl; [exact H2|]. intros t Ht. eapply Forall_impl; [exact Ht|]. intros ms. by apply extends_distinct.
Qed.

Lemma same_heap s s' : heap s' = heap s → extends s s'.
Proof. intros E m i. unfold name_at, message_at. by rewrite E. Qed.

Lemma update_extends m f s : (∀ o, id (f o) = id o) → extends s (update m f s).
Proof.
  intros Hf n i. unfold name_at, message_at, update. cbn. destruct (decide (m = n)) as [->|Hn].
  - rewrite list_lookup_alter_eq. destruct (heap s !! n); [|done]. cbn. by rewrite Hf.
  - by rewrite list_lookup_alter_ne.
Qed.

Lemma filter_distinct (p : nat → bool) ms s : distinct ms s → distinct (List.filter p ms) s.
Proof.
  intros [H1 H2]. split.
  - rewrite Forall_forall in *. intros m Hm. apply H1. rewrite list_elem_of_In in *. by apply filter_In in Hm as [Hm _].
  - eapply sublist_NoDup; [exact H2|]. clear H1 H2. induction ms as [|m ms IH]; [done|]. cbn [List.filter]. rewrite ids_cons.
    destruct (p m); [rewrite ids_cons|]; destruct (name_at m s); [by constructor|done|by constructor|done].
Qed.

(** New tasks and those that are over. *)
Lemma names_drop k s : names_ok s → names_ok (close_task k s).
Proof.
  intros [H1 H2]. split; [done|]. cbn. rewrite Forall_forall in *. intros t Ht. apply H2. eapply elem_of_sublist; [exact Ht|apply sublist_delete].
Qed.

Lemma names_task k t s : names_ok s → tasks s !! k = Some t → Forall (λ ms, distinct ms (close_task k s)) (task_lists t).
Proof. intros [_ H] Hk. rewrite Forall_forall in H. by apply (H t), list_elem_of_lookup_2 with k. Qed.

Lemma names_start t s : Forall (λ ms, distinct ms s) (task_lists t) → names_ok s → names_ok (start t s).
Proof. intros Ht [H1 H2]. split; [done|]. cbn. apply Forall_app. split; [done|]. by constructor. Qed.

Lemma centre_names_same s s' : heap s' = heap s → messages s' = messages s → tasks s' = tasks s → names_ok s → names_ok s'.
Proof. intros E. by apply extends_names, same_heap. Qed.

Lemma names_messages ms s s' : heap s' = heap s → messages s' = ms → tasks s' = tasks s → distinct ms s → names_ok s → names_ok s'.
Proof.
  intros E E1 E2 Hd [_ H]. split; [rewrite E1; revert Hd; by apply extends_distinct, same_heap|]. rewrite E2.
  eapply Forall_impl; [exact H|]. intros t Ht. eapply Forall_impl; [exact Ht|]. intros k. by apply extends_distinct, same_heap.
Qed.

Ltac same_names := by apply centre_names_same.

Lemma names_fetch reset cursor a s : names_ok s → names_ok (fetchMessages reset cursor a s).
Proof.
  intros Hs. unfold fetchMessages, go_on. destruct (_ || _); [destruct a; revert Hs; same_names|]. apply names_start; [constructor|].
  revert Hs. same_names.
Qed.

Lemma names_cleared kept leaving s : distinct kept s → names_ok s → names_ok (cleared kept leaving s).
Proof. intros Ht Hd. unfold cleared. cbv zeta. apply names_fetch. revert Ht Hd. by apply names_messages. Qed.

(** *** Pages *)

Lemma append_unique_spec page s existing :
  Forall (λ mi, name_at mi.1 s = Some mi.2) page → NoDup existing →
  let new := (append_unique page existing).1 in
  Forall (λ m, is_Some (name_at m s)) new ∧ NoDup (existing ++ ids new s) ∧ ids new s `sublist_of` page.*2 ∧
  (∀ i, i ∈ page.*2 → i ≠ [] → i ∈ existing ++ ids new s).
Proof.
  intros Hp. revert existing. induction Hp as [|[m i] page Hm _ IH]; intros existing He; cbn [append_unique].
  - split_and!; [constructor|by rewrite app_nil_r|done|by intros i ?%not_elem_of_nil].
  - cbn [fst snd] in Hm. destruct (negb (truthy i) || existsb (eqs i) existing) eqn:E.
    + destruct (IH existing He) as (H1 & H2 & H3 & H4). split_and!; [done|done|by constructor|].
      intros j [->|Hj]%elem_of_cons Hne; [|by apply H4]. apply orb_true_iff in E as [E|E].
      * by apply negb_true_iff, truthy_false in E.
      * apply existsb_elem in E as (k & Hk & ->%eqs_true). apply elem_of_app. by left.
    + apply orb_false_iff in E as [E1 E2]. rewrite existsb_none in E2. cbn [fst].
      assert (NoDup (existing ++ [i])) as He'.
      { apply NoDup_app. split_and!; [done| |apply NoDup_singleton]. intros j Hj ->%list_elem_of_singleton. specialize (E2 i Hj). by rewrite eqs_refl in E2. }
      destruct (IH _ He') as (H1 & H2 & H3 & H4). rewrite ids_cons, Hm. rewrite <- !app_assoc in H2. cbn [app] in *.
      split_and!; [by constructor|done|by constructor|]. intros j [->|Hj]%elem_of_cons Hne.
      * apply elem_of_app. right. by left.
      * specialize (H4 j Hj Hne). by rewrite <- app_assoc in H4.
Qed.

Lemma place_page_spec p s :
  let r := place_page p s in
  Forall (λ mi, name_at mi.1 r.2 = Some mi.2) r.1 ∧ r.1.*2 = id <$> p ∧ extends s r.2 ∧
  Forall (λ m, is_Some (name_at m r.2)) r.1.*1 ∧ ids r.1.*1 r.2 = id <$> p.
Proof.
  cbv zeta. assert (Forall (λ mi, name_at mi.1 (place_page p s).2 = Some mi.2) (place_page p s).1) as H1.
  { apply Forall_forall. intros [m i] (k & o & E & Hk)%elem_of_lookup_imap. cbn in *. simplify_eq. unfold name_at, message_at. cbn.
    rewrite lookup_app_r by lia. replace (length (heap s) + k - length (heap s)) with k by lia. by rewrite Hk. }
  assert ((place_page p s).1.*2 = id <$> p) as H2.
  { cbn. rewrite fmap_imap. apply list_eq. intros k. rewrite list_lookup_imap, list_lookup_fmap. by destruct (p !! k). }
  split_and!; [done|done| | |].
  - intros m i. unfold name_at, message_at. cbn. destruct (heap s !! m) as [o|] eqn:E; [|done]. by rewrite (lookup_app_l_Some _ _ _ _ E).
  - apply Forall_fmap. eapply Forall_impl; [exact H1|]. intros [m i] E. cbn in *. by exists i.
  - rewrite <- H2. clear H2. induction H1 as [|[m i] l E _ IH]; [done|]. rewrite !fmap_cons, ids_cons. cbn [fst snd] in *. by rewrite E, IH.
Qed.

(** The state an answered page leads to, before the cards are drawn. *)
Definition paged (reset : bool) (p : message_page) (s : state) : state :=
  let r := place_page (page_messages p) s in
  if reset then { r.2 with messages := r.1.*1 } else (appendUniqueMessagePage r.1 r.2).2.

Lemma fetched_messages reset a p s :
  let s' := page_fetched reset a (Good p) s in
  heap s' = heap (paged reset p s) ∧ (messages s' = messages (paged reset p s)) ∧
  (nextCursor s' = if bool_decide (page_messages p = []) then [] else next_cursor p) ∧ unreadCount s' = Z.max 0 (unread_count p) ∧
  tasks s' = tasks s.
Proof.
  cbv zeta. cbn [page_fetched]. unfold paged.
  assert (bool_decide ((place_page (page_messages p) s).1 = []) = bool_decide (page_messages p = [])) as ->
    by (apply bool_decide_ext; cbn; by destruct (page_messages p)).
  destruct reset, a; cbn; done.
Qed.

Lemma finish_same a s : heap (go_on a s) = heap s ∧ messages (go_on a s) = messages s ∧ tasks (go_on a s) = tasks s.
Proof. by destruct a. Qed.

(** What the server promises of a page. *)
Definition page_ok (p : message_page) : Prop := NoDup (id <$> page_messages p).

Lemma paged_spec reset p s :
  names_ok s → page_ok p →
  extends s (paged reset p s) ∧ tasks (paged reset p s) = tasks s ∧ distinct (messages (paged reset p s)) (paged reset p s) ∧
  let old := ids (messages s) s in
  let new := ids (messages (paged reset p s)) (paged reset p s) in
  if reset then new = id <$> page_messages p
  else ∃ added, new = old ++ added ∧ added `sublist_of` id <$> page_messages p ∧ (∀ i, i ∈ id <$> page_messages p → i ≠ [] → i ∈ new).
Proof.
  intros [[H1 H2] _] Hp. destruct (place_page_spec (page_messages p) s) as (Hr1 & Hr2 & He & Hr3 & Hr4). unfold paged. cbv zeta.
  set (r := place_page (page_messages p) s) in *. destruct reset.
  - split_and!; [revert He; done|done| |done]. split; [done|]. change (ids _ _) with (ids r.1.*1 r.2). by rewrite Hr4.
  - unfold appendUniqueMessagePage. cbv zeta. cbn [snd]. assert (messages r.2 = messages s) as Em by done. rewrite Em.
    assert (ids (messages s) r.2 = ids (messages s) s) as Ei by by apply extends_ids. rewrite Ei.
    destruct (append_unique_spec r.1 r.2 (ids (messages s) s) Hr1 H2) as (A1 & A2 & A3 & A4). cbv zeta in *.
    set (new := (append_unique r.1 (ids (messages s) s)).1) in *.
    change (messages { r.2 with messages := messages s ++ new }) with (messages s ++ new).
    assert (∀ ms, ids ms { r.2 with messages := messages s ++ new } = ids ms r.2) as Es by done. rewrite Es, ids_app, Ei.
    split_and!; [exact He|done| |].
    + split; [apply Forall_app; split; [|exact A1]|].
      * eapply Forall_impl; [exact H1|]. intros m [i Hi]. exists i. by apply He.
      * by rewrite Es, ids_app, Ei.
    + rewrite Hr2 in *. exists (ids new r.2). by split_and!.
Qed.

Lemma names_fetched reset a r s :
  names_ok s → (∀ p, r = Good p → page_ok p) → names_ok (page_fetched reset a r s).
Proof.
  intros Hs Hr. destruct r as [p| |]; cbn [page_fetched].
  - destruct (fetched_messages reset a p s) as (E1 & E2 & _ & _ & E3). cbn [page_fetched] in *.
    destruct (paged_spec reset p s Hs (Hr p eq_refl)) as (He & Et & Hd & _).
    assert (names_ok (paged reset p s)) as [_ Hn].
    { split; [done|]. rewrite Et. destruct Hs as [_ Hs]. eapply Forall_impl; [exact Hs|]. intros t Ht. eapply Forall_impl; [exact Ht|].
      intros ms. by apply extends_distinct. }
    split; rewrite ?E2, ?E3, <- ?Et.
    + revert Hd. by apply extends_distinct, same_heap.
    + eapply Forall_impl; [exact Hn|]. intros t Ht. eapply Forall_impl; [exact Ht|]. intros ms. by apply extends_distinct, same_heap.
  - apply names_start; [constructor|]. revert Hs. same_names.
  - destruct a; revert Hs; same_names.
Qed.

Lemma mark_all_names ms s : names_ok s → names_ok (foldr (λ m, update m mark_read) s ms).
Proof. intros Hs. induction ms as [|m ms IH]; [done|]. cbn [foldr]. revert IH. apply extends_names; [by apply update_extends|done..]. Qed.

Lemma names_step e s s' :
  (∀ k p, e = Page_answer k (Good p) → page_ok p) → step e s = Some s' → names_ok s → names_ok s'.
Proof.
  intros Hp He Hs. destruct e; cbn [step] in He; try (apply (inj Some) in He as <-).
  - unfold handleAuthChanged. cbv zeta. destruct b; [unfold startPolling, refreshMessageUnreadCount|].
    + cbn. apply (names_start Unread) in Hs; [|constructor]. revert Hs. same_names.
    + apply (names_messages [] s); try done. split; [constructor|apply NoDup_nil_2].
  - revert Hs. same_names.
  - revert Hs. same_names.
  - unfold openMessageCenter. destruct (signed_in s); [|done]. apply names_fetch. revert Hs. same_names.
  - revert Hs. same_names.
  - unfold loadMoreMessages. destruct (_ && _); [by apply names_fetch|done].
  - by apply names_start; [constructor|].
  - unfold clearAllMessages. destruct (_ || _); [done|]. apply names_start; [constructor|]. revert Hs. same_names.
  - unfold card_click. destruct (list_find _ _) as [[_ m]|]; [|done].
    destruct o; [destruct (is_read m s); [done|]| |destruct (existsb _ _); [|done]..]; by apply names_start; [constructor|].
  - destruct (pollTimer s); [|done]. apply (inj Some) in He as <-. unfold refreshMessageUnreadCount. destruct (signed_in s); [|done].
    by apply names_start; [constructor|].
  - destruct (tasks s !! k) as [[]|] eqn:E; try done. apply (inj Some) in He as <-. apply names_fetched; [by apply names_drop|].
    intros p ->. by eapply Hp.
  - destruct (tasks s !! k) as [[]|] eqn:E; try done. apply (inj Some) in He as <-. apply (names_drop k) in Hs.
    destruct r; cbn [unread_answered]; [revert Hs; same_names|apply names_start; [constructor|]; revert Hs; same_names|done].
  - destruct (tasks s !! k) as [[]|] eqn:E; try done; apply (inj Some) in He as <-; apply (names_drop k) in Hs; [|done].
    destruct a; revert Hs; same_names.
  - pose proof (names_drop k s Hs) as Hd. destruct (tasks s !! k) as [t|] eqn:E; [|done]. pose proof (names_task k t s Hs E) as Ht.
    assert (∀ p, distinct (List.filter p (messages s)) (close_task k s)) as Hf by (intros p; apply filter_distinct, Hd).
    destruct t; try done; apply (inj Some) in He as <-; cbn [task_lists] in Ht.
    + unfold marked. destruct ok; [|done]. revert Hd. apply extends_names; [|done..]. by apply update_extends.
    + unfold all_marked. destruct ok; [apply (mark_all_names (messages (close_task k s))) in Hd|]; revert Hd; same_names.
    + unfold confirmed. destruct ok; [by apply names_start; [constructor|]|]. revert Hd. same_names.
    + unfold clear_answered. cbv zeta. destruct ok; [|revert Hd; same_names]. case_bool_decide; [apply names_cleared; [apply Hf|done]|].
      apply names_start; [|done]. constructor; [|constructor]. apply Hf.
    + apply Forall_cons in Ht as [Ht _]. by apply names_cleared.
    + unfold delete_answered. cbv zeta. destruct ok; [|revert Hd; same_names]. apply names_start; [|done]. constructor; [|constructor]. apply Hf.
    + unfold deleted. cbv zeta. apply Forall_cons in Ht as [Ht _].
      match goal with |- names_ok (if ?b then fetchMessages _ _ _ ?v else _) => assert (names_ok v) as Hv; [|destruct b; [by apply names_fetch|done]] end.
      destruct (is_read _ _); revert Ht Hd; by apply names_messages.
  - destruct (tasks s !! k) as [[]|] eqn:E; try done; apply (inj Some) in He as <-; apply (names_drop k) in Hs.
    unfold acted. destruct r as [[]|]; [|done|revert Hs; same_names]. cbv zeta.
    match goal with |- context [update ?m ?f ?v] => assert (names_ok (update m f v)) as Hu by (revert Hs; apply extends_names; [by apply update_extends|done..]) end.
    destruct (is_read _ _); revert Hu; same_names.
Qed.

(** The events of a server that names the messages of a page differently. *)
Definition steps (s s' : state) : Prop := ∃ e, (∀ k p, e = Page_answer k (Good p) → page_ok p) ∧ step e s = Some s'.

(** C30: In every run, whatever overlaps: at most one page is being loaded and at most one clearing is under way, and the
    flags that disable the controls say so; the unread count is not negative; it is polled exactly while someone is signed
    in; no message is listed twice. The next page continues the list with the messages of the server that
    are not there yet, in its order and without losing one; the first page replaces the list. *)
Theorem message_centre s :
  reachable (λ s, s = initial) steps s →
  counted 0 0 s ∧ NoDup (ids (messages s) s) ∧
  (∀ k reset cursor a p s',
     tasks s !! k = Some (Fetch reset cursor a) → page_ok p → step (Page_answer k (Good p)) s = Some s' →
     loading s' = false ∧
     (if reset then ids (messages s') s' = id <$> page_messages p
      else ∃ added, ids (messages s') s' = ids (messages s) s ++ added ∧ added `sublist_of` id <$> page_messages p ∧
             (∀ i, i ∈ id <$> page_messages p → i ≠ [] → i ∈ ids (messages s') s'))).
Proof.
  intros Hr. assert (counted 0 0 s ∧ names_ok s) as [Hc Hn].
  { revert s Hr. apply invariant_reachable.
    - intros s ->. split; [by split|]. split; [split; [constructor|apply NoDup_nil_2]|constructor].
    - intros s s' [H1 H2] (e & Hp & He). split; [by eapply counted_step|by eapply names_step]. }
  split_and!; [done|apply Hn|]. intros k reset cursor a p s' Hk Hp He.
  pose proof (counted_step _ _ _ He Hc) as Hc'. cbn [step] in He. rewrite Hk in He. apply (inj Some) in He. subst s'.
  destruct (paged_spec reset p (close_task k s) (names_drop k s Hn) Hp) as (_ & _ & _ & Hi).
  destruct (fetched_messages reset a p (close_task k s)) as (E1 & E2 & _). cbv zeta in *.
  assert (∀ ms, ids ms (page_fetched reset a (Good p) (close_task k s)) = ids ms (paged reset p (close_task k s))) as Ei
    by (intros ms; unfold ids, message_at; by rewrite E1).
  split; [by destruct a|]. rewrite E2, Ei. exact Hi.
Qed.

(** ** Examples *)

Definition note (i : string) : user_message := {| id := js i; read := false; action_kind := []; action_status := [] |}.
Definition page_of (is_ : list string) (next : string) (n : Z) : message_page :=
  {| page_messages := note <$> is_; next_cursor := js next; unread_count := n |}.
Definition listed (s : state) : list jsstring := ids (messages s) s.

(** Signed in, and the first page of two has come. *)
Definition first_page : list event :=
  [Auth_changed true; Unread_answer 0 (Good 5%Z); Open; Page_answer 0 (Good (page_of ["a"; "b"] "c1" 5))].

Example next_page : listed <$> run (first_page ++ [Load_more; Page_answer 0 (Good (page_of ["b"; "c"] "" 5))]) initial = Some [js "a"; js "b"; js "c"].
Proof. vm_compute. reflexivity. Qed.

(** Two messages deleted within the animation: the first comes back. *)
Example deleted_comes_back :
  (λ s, (listed s, snd <$> cards s)) <$>
    run (first_page ++ [Card_click "a" Delete_it; Done 0 true; Card_click "b" Delete_it; Done 1 true; Done 0 true; Done 0 true]) initial
  = Some ([js "a"], []).
Proof. vm_compute. reflexivity. Qed.

(** A message clicked twice before the answer counts twice. *)
Example read_twice :
  unreadCount <$> run (first_page ++ [Card_click "a" Read_it; Card_click "a" Read_it; Done 0 true; Done 0 true]) initial = Some 3%Z.
Proof. vm_compute. reflexivity. Qed.

(** The page that was asked for before signing out is shown after it. *)
Example page_after_sign_out :
  (λ s, (signed_in s, listed s)) <$> run [Auth_changed true; Open; Auth_changed false; Page_answer 1 (Good (page_of ["a"] "" 1))] initial
  = Some (false, [js "a"]).
Proof. vm_compute. reflexivity. Qed.

(** The next account opens the centre on the cards of the one before, until its own page comes. *)
Example cards_of_the_other_account :
  (λ s, (listed s, modal s, snd <$> cards s)) <$> run (first_page ++ [Auth_changed false; Auth_changed true; Open]) initial
  = Some ([], true, [js "a"; js "b"]).
Proof. vm_compute. reflexivity. Qed.

Lemma opened_reachable s : run first_page initial = Some s → reachable (λ s, s = initial) steps s.
Proof.
  assert (∀ es a, (∀ e k p, e ∈ es → e = Page_answer k (Good p) → page_ok p) → run es a = Some s →
          reachable (λ s, s = initial) steps a → reachable (λ s, s = initial) steps s) as H.
  { induction es as [|e es IH]; intros a Hp; cbn [run].
    - by intros [= <-].
    - destruct (step e a) as [b|] eqn:E; [|done]. intros Hr Ha. apply (IH b); [|done|].
      + intros e' k p He'. apply (Hp e'). by right.
      + eapply reachable_step; [done|]. exists e. split; [|done]. intros k p He. apply (Hp e k p); [by left|done]. }
  intros Hr. apply (H first_page initial); [|done|by apply reachable_init].
  intros e k p He ->. unfold first_page in He. rewrite !elem_of_cons in He. destruct He as [?|[?|[?|[[= -> ->]|?%not_elem_of_nil]]]]; try done.
  unfold page_ok. cbn. apply NoDup_cons. split; [by intros [=]%list_elem_of_singleton|apply NoDup_singleton].
Qed.

Lemma message_centre_witness :
  (λ s, (listed s, more s)) <$> run first_page initial = Some ([js "a"; js "b"], js "c1") ∧
  (∀ s, run first_page initial = Some s → NoDup (ids (messages s) s)).
Proof.
  split; [vm_compute; reflexivity|]. intros s Hs. exact (proj1 (proj2 (message_centre s (opened_reachable s Hs)))).
Defined.
