(* ===== verification/Composer.v ===== *)
(** * The composer of notifications

    [internal/service/frontend/renop-html/js/notification-composer.js]: the dialog in which an administrator writes to
    users, with the suggestions of names at the caret, the switch for all users and the submission. One
    event is the code between two [await]s; timers are numbered as the browser numbers them, so that the one that
    is overwritten goes on. Labels, the focus and scrolling are left out. *)

From S2P Require Import Prelude JsText.
From coqutil Require Import Datatypes.RecordSettersUsingExistingGetters.
Local Open Scope nat_scope.

#[local] Arguments const {E} _ _ /.
#[local] Arguments cons {A} & _ _.

(** ** Names in the field *)

(** [character] is [undefined] ([None]) past the end of a string; the text of it holds no space. *)
Definition isRecipientSeparator (character : option ascii) : bool :=
  match character with Some c => ascii_eqb c "," || is_space c | None => false end.

Definition separates (c : ascii) : bool := isRecipientSeparator (Some c).

(** The loops that look for the ends of the name at the caret. *)
Fixpoint token_start (value : jsstring) (start : nat) : nat :=
  match start with
  | S k => if isRecipientSeparator (value !! k) then start else token_start value k
  | O => O
  end.

(** The text from [end_] on is [rest]. *)
Fixpoint token_end (rest : jsstring) (end_ : nat) : nat :=
  match rest with
  | c :: rest => if separates c then end_ else token_end rest (S end_)
  | [] => end_
  end.

Definition slice (from to : nat) (s : jsstring) : jsstring := drop from (take to s).

(** An input with its text, caret ([selectionStart], which is [null] for some types of inputs), limit and state. *)
Record field := { value : jsstring; selectionStart : option nat; maxLength : nat; disabled : bool; expanded : bool }.

Definition caret_of (input : field) : nat := or_else (selectionStart input) (length (value input)).

Definition currentRecipientQuery (input : field) : jsstring :=
  let caret := caret_of input in
  toLowerCase (trim (slice (token_start (value input) caret) caret (value input))).

(** The new text, before the caret and in full. *)
Definition up_to_name (input : field) (username : jsstring) : jsstring :=
  let prefix := reverse (dropWhile separates (reverse (take (token_start (value input) (caret_of input)) (value input)))) in
  if truthy prefix then prefix ++ js ", " ++ username else username.

Definition with_name (input : field) (username : jsstring) : jsstring :=
  let end_ := token_end (drop (caret_of input) (value input)) (caret_of input) in
  let suffix := dropWhile separates (drop end_ (value input)) in
  up_to_name input username ++ if truthy suffix then js ", " ++ suffix else js ", ".

Definition put_name (input : field) (username : jsstring) : field :=
  let nextCaret := length (up_to_name input username) + 2 in
  let v := take (maxLength input) (with_name input username) in
  { { input with value := v } with selectionStart := Some (Nat.min nextCaret (length v)) }.

(** [value.split(/[\s,]+/u)]: a run of separators is one separator. *)
Fixpoint split_runs (s : jsstring) : list jsstring :=
  match s with
  | [] => [[]]
  | c :: rest =>
      if separates c then
        if isRecipientSeparator (head rest) then split_runs rest else [] :: split_runs rest
      else match split_runs rest with p :: ps => (c :: p) :: ps | [] => [[c]] end
  end.

Definition parseRecipientNames (value : jsstring) : list jsstring := List.filter truthy (split_runs value).

(** ** The dialog *)

Record request := { all : bool; recipients : list jsstring; severity : jsstring; title : jsstring; body : jsstring }.

Inductive submit_state := Idle | Sending | Success.
Inductive alert := Invalid_notification | Sent (count : Z) | Send_failed.

(** A search for names whose answer is awaited. *)
Record name_query := { asked : jsstring; asked_version : nat }.

(** [display]: the list is displayed; [timers]: the timers of completion that run; [posts]: the submissions whose answer is
    awaited; [posted]: all that were sent. *)
Record state := {
  cachedIsManager : bool; is_open : bool; sending : bool; completionTimer : option nat; timers : list nat; next_timer : nat;
  field_of : field; broadcast : bool; severity_value : jsstring; title_value : jsstring; body_value : jsstring;
  recipientSuggestions : list jsstring; activeRecipientSuggestion : Z; display : bool;
  recipientSuggestionTimer : bool; recipientSuggestionVersion : nat; submit_of : submit_state;
  queries : list name_query; posts : list request; posted : list request; alerts : list alert
}.

(** The empty form. *)
Definition initial (manager : bool) : state := {|
  cachedIsManager := manager; is_open := false; sending := false; completionTimer := None; timers := []; next_timer := 1;
  field_of := {| value := []; selectionStart := Some 0; maxLength := 4096; disabled := false; expanded := false |};
  broadcast := false; severity_value := js "info"; title_value := []; body_value := [];
  recipientSuggestions := []; activeRecipientSuggestion := (-1)%Z; display := false; recipientSuggestionTimer := false;
  recipientSuggestionVersion := 0; submit_of := Idle; queries := []; posts := []; posted := []; alerts := []
|}.

Definition hideRecipientSuggestions (s : state) : state :=
  let s := { { s with recipientSuggestionTimer := false } with recipientSuggestionVersion := S (recipientSuggestionVersion s) } in
  let s := { { { s with recipientSuggestions := [] } with activeRecipientSuggestion := (-1)%Z } with display := false } in
  { s with field_of := { field_of s with expanded := false } }.

Definition handleBroadcastChange (s : state) : state :=
  let s := { s with field_of := { field_of s with disabled := broadcast s } } in
  if broadcast s then hideRecipientSuggestions s else s.

Definition setSubmitState (st : submit_state) (s : state) : state := { s with submit_of := st }.

(** [form.reset()]: the select is no control of the form. *)
Definition reset_form (s : state) : state :=
  let s := { s with field_of := { { field_of s with value := [] } with selectionStart := Some 0 } } in
  { { { s with title_value := [] } with body_value := [] } with broadcast := false }.

(** [by_user]: the call has an event with a type. *)
Definition closeNotificationComposer (by_user : bool) (s : state) : state :=
  if sending s && by_user then s
  else
    let s := { s with is_open := false } in
    let s := match completionTimer s with
             | Some t => { { s with timers := List.filter (λ k, negb (k =? t)) (timers s) } with completionTimer := None }
             | None => s
             end in
    let s := { reset_form (hideRecipientSuggestions s) with severity_value := js "info" } in
    setSubmitState Idle (handleBroadcastChange { s with broadcast := false }).

Definition openNotificationComposer (s : state) : state :=
  if negb (cachedIsManager s) || sending s then s else setSubmitState Idle { s with is_open := true }.

Definition handleBroadcastToggleChange (checked : bool) (s : state) : state := handleBroadcastChange { s with broadcast := checked }.

Definition handleLanguageChanged (s : state) : state := { s with severity_value := js "info" }.

(** The cache changes and [authChanged] is dispatched. *)
Definition updateComposerVisibility (manager : bool) (s : state) : state :=
  let s := { s with cachedIsManager := manager } in
  if negb manager && is_open s then closeNotificationComposer false s else s.

(** The user writes: the field has a new text and caret. *)
Definition handleRecipientInput (v : jsstring) (caret : option nat) (s : state) : state :=
  let s := hideRecipientSuggestions { s with field_of := { { field_of s with value := v } with selectionStart := caret } } in
  if negb (cachedIsManager s) || disabled (field_of s) || negb (truthy (currentRecipientQuery (field_of s))) then s
  else { s with recipientSuggestionTimer := true }.

(** Up to the request, and after the answer: [None] is a failure. *)
Definition fetchRecipientSuggestions (s : state) : state :=
  let s := { s with recipientSuggestionTimer := false } in
  let query := currentRecipientQuery (field_of s) in
  if negb (cachedIsManager s) || disabled (field_of s) || negb (truthy query) then s
  else { s with queries := queries s ++ [{| asked := query; asked_version := recipientSuggestionVersion s |}] }.

Definition renderRecipientSuggestions (users : list jsstring) (s : state) : state :=
  let names := List.filter truthy users in
  let visible := negb (bool_decide (names = [])) in
  let s := { { s with recipientSuggestions := names } with activeRecipientSuggestion := (-1)%Z } in
  { { s with display := visible } with field_of := { field_of s with expanded := visible } }.

Definition suggestions_answered (q : name_query) (users : option (list jsstring)) (s : state) : state :=
  if negb (asked_version q =? recipientSuggestionVersion s) then s
  else match users with
       | Some users => if negb (eqs (asked q) (currentRecipientQuery (field_of s))) then s else renderRecipientSuggestions users s
       | None => hideRecipientSuggestions s
       end.

Definition setActiveRecipientSuggestion (requested : Z) (s : state) : state :=
  let n := Z.of_nat (length (recipientSuggestions s)) in
  if (n =? 0)%Z then s else { s with activeRecipientSuggestion := Z.rem (requested + n) n }.

Definition insertRecipientSuggestion (username : option jsstring) (s : state) : state :=
  match username with
  | Some u => if truthy u then hideRecipientSuggestions { s with field_of := put_name (field_of s) u } else s
  | None => s
  end.

Inductive key_press := ArrowDown | ArrowUp | Enter | Escape | Other.

Definition handleRecipientKeydown (k : key_press) (s : state) : state :=
  let a := activeRecipientSuggestion s in
  if negb (display s) || (length (recipientSuggestions s) =? 0) then s
  else match k with
       | ArrowDown => setActiveRecipientSuggestion (a + 1) s
       | ArrowUp => setActiveRecipientSuggestion (if (a <? 0)%Z then Z.of_nat (length (recipientSuggestions s)) - 1 else a - 1) s
       | Enter => insertRecipientSuggestion (recipientSuggestions s !! Z.to_nat (if (a <? 0)%Z then 0 else a)) s
       | Escape => hideRecipientSuggestions s
       | Other => s
       end.

(** The click on the [i]-th option. *)
Definition handleRecipientSuggestionClick (i : nat) (s : state) : state := insertRecipientSuggestion (recipientSuggestions s !! i) s.

Definition completeSuccessfulNotification (s : state) : state := closeNotificationComposer false { s with completionTimer := None }.

(** The request the form stands for. *)
Definition form_request (s : state) : request := {|
  all := broadcast s; recipients := parseRecipientNames (value (field_of s)); severity := str_or (severity_value s) (js "info");
  title := trim (title_value s); body := trim (body_value s)
|}.

Definition valid_request (r : request) : bool := (all r || negb (bool_decide (recipients r = []))) && truthy (title r) && truthy (body r).

(** Up to the request, and after the answer: [None] is a failure of any kind. *)
Definition submitNotification (s : state) : state :=
  if negb (cachedIsManager s) || sending s then s
  else
    let r := form_request s in
    if negb (valid_request r) then { s with alerts := alerts s ++ [Invalid_notification] }
    else
      let s := setSubmitState Sending { s with sending := true } in
      { { s with posts := posts s ++ [r] } with posted := posted s ++ [r] }.

Definition notification_answered (count : option Z) (s : state) : state :=
  let s := { s with sending := false } in
  match count with
  | Some n =>
      let s := setSubmitState Success s in
      let s := { { s with alerts := alerts s ++ [Sent n] } with completionTimer := Some (next_timer s) } in
      { { s with timers := timers s ++ [next_timer s] } with next_timer := S (next_timer s) }
  | None => let s := setSubmitState Idle s in { s with alerts := alerts s ++ [Send_failed] }
  end.

Inductive event :=
  | Open | Close_click | Auth_changed (manager : bool) | Language_changed
  | Type_recipients (v : jsstring) (caret : option nat) | Move_caret (caret : option nat) | Press (k : key_press)
  | Option_click (i : nat) | Outside_click | Toggle (checked : bool)
  | Type_title (v : jsstring) | Type_body (v : jsstring) | Choose_severity (v : jsstring)
  | Suggestion_timer | Suggestions (i : nat) (users : option (list jsstring))
  | Submit | Answer (i : nat) (count : option Z) | Completion_timer (t : nat).

#[export] Instance submit_state_eq : EqDecision submit_state.
Proof. solve_decision. Defined.

(** A disabled field or switch gives no events. *)
Definition step (e : event) (s : state) : option state :=
  match e with
  | Open => Some (openNotificationComposer s)
  | Close_click => Some (closeNotificationComposer true s)
  | Auth_changed b => Some (updateComposerVisibility b s)
  | Language_changed => Some (handleLanguageChanged s)
  | Type_recipients v c => if disabled (field_of s) then None else Some (handleRecipientInput v c s)
  | Move_caret c => if disabled (field_of s) then None else Some { s with field_of := { field_of s with selectionStart := c } }
  | Press k => if disabled (field_of s) then None else Some (handleRecipientKeydown k s)
  | Option_click i => Some (handleRecipientSuggestionClick i s)
  | Outside_click => Some (hideRecipientSuggestions s)
  | Toggle b => if bool_decide (submit_of s = Sending) then None else Some (handleBroadcastToggleChange b s)
  | Type_title v => Some { s with title_value := v }
  | Type_body v => Some { s with body_value := v }
  | Choose_severity v => Some { s with severity_value := v }
  | Suggestion_timer => if recipientSuggestionTimer s then Some (fetchRecipientSuggestions s) else None
  | Suggestions i users => q ← queries s !! i; Some (suggestions_answered q users { s with queries := delete i (queries s) })
  | Submit => Some (submitNotification s)
  | Answer i count => _ ← posts s !! i; Some (notification_answered count { s with posts := delete i (posts s) })
  | Completion_timer t =>
      if bool_decide (t ∈ timers s)
      then Some (completeSuccessfulNotification { s with timers := List.filter (λ k, negb (k =? t)) (timers s) }) else None
  end.

(** ** Parsing *)

Lemma split_runs_head s : s = [] ∨ isRecipientSeparator (head s) = true → ∃ ps, split_runs s = [] :: ps.
Proof.
  induction s as [|c s IH]; intros [Hs | Hs]; try done; [by exists []|]. cbn [head] in Hs.
  cbn [split_runs]. change (separates c = true) in Hs. rewrite Hs. destruct (isRecipientSeparator (head s)) eqn:E; [apply IH; by right|by eexists].
Qed.

Lemma names_separator c s : separates c = true → parseRecipientNames (c :: s) = parseRecipientNames s.
Proof. intros Hc. unfold parseRecipientNames. cbn -[separates]. rewrite Hc. by destruct (isRecipientSeparator (head s)). Qed.

Lemma names_dropWhile s : parseRecipientNames (dropWhile separates s) = parseRecipientNames s.
Proof. induction s as [|c s IH]; [done|]. cbn [dropWhile]. destruct (separates c) eqn:E; [by rewrite names_separator|done]. Qed.

(** A text without separators, followed by a separator or the end, is a name. *)
Definition is_name (u : jsstring) : bool := truthy u && forallb (λ c, negb (separates c)) u.

Lemma split_runs_token t s :
  forallb (λ c, negb (separates c)) t = true → s = [] ∨ isRecipientSeparator (head s) = true →
  ∃ ps, split_runs s = [] :: ps ∧ split_runs (t ++ s) = t :: ps.
Proof.
  intros Ht Hs. destruct (split_runs_head s Hs) as [ps Hps]. exists ps. split; [done|].
  induction t as [|c t IH]; [done|]. cbn -[separates] in *. apply andb_true_iff in Ht as [Hc Ht].
  apply negb_true_iff in Hc. by rewrite Hc, IH.
Qed.

Lemma names_token t s :
  forallb (λ c, negb (separates c)) t = true → s = [] ∨ isRecipientSeparator (head s) = true →
  parseRecipientNames (t ++ s) = (if truthy t then [t] else []) ++ parseRecipientNames s.
Proof.
  intros Ht Hs. destruct (split_runs_token t s Ht Hs) as (ps & E1 & E2). unfold parseRecipientNames. rewrite E1, E2. cbn.
  by destruct (truthy t).
Qed.

(** The name a text begins with. *)
Lemma span_token s : ∃ t rest, s = t ++ rest ∧ forallb (λ c, negb (separates c)) t = true ∧ (rest = [] ∨ isRecipientSeparator (head rest) = true).
Proof.
  induction s as [|c s (t & rest & -> & Ht & Hr)]; [by exists [], []; auto|]. destruct (separates c) eqn:E.
  - exists [], (c :: t ++ rest). auto.
  - exists (c :: t), rest. cbn -[separates]. by rewrite E.
Qed.

(** A separator keeps the names of both sides apart. *)
Lemma names_app s1 s2 :
  s2 = [] ∨ isRecipientSeparator (head s2) = true → parseRecipientNames (s1 ++ s2) = parseRecipientNames s1 ++ parseRecipientNames s2.
Proof.
  intros Hs. remember (length s1) as n eqn:En. revert s1 En. induction n as [n IH] using lt_wf_ind. intros s1 ->.
  destruct (span_token s1) as (t & rest & -> & Ht & Hr). rewrite <- app_assoc. destruct rest as [|c rest].
  - rewrite app_nil_r. cbn [app]. rewrite names_token by done. pose proof (names_token t [] Ht (or_introl eq_refl)) as E0.
    rewrite app_nil_r in E0. rewrite E0. cbn. by rewrite app_nil_r.
  - destruct Hr as [[=] | Hc]. change (separates c = true) in Hc. rewrite (names_token t (c :: rest)) by (done || by right).
    rewrite (names_token t ((c :: rest) ++ s2)) by (done || by right). rewrite <- app_assoc. f_equal. cbn [app]. rewrite !(names_separator c) by done. apply (IH (length rest)); [rewrite length_app; cbn; lia|done].
Qed.

Lemma names_ending p c s : separates c = true → parseRecipientNames ((p ++ [c]) ++ s) = parseRecipientNames (p ++ [c]) ++ parseRecipientNames s.
Proof.
  intros Hc. rewrite <- app_assoc. cbn [app]. rewrite !names_app by (by right). rewrite !names_separator by done. cbn. by rewrite app_nil_r.
Qed.

Lemma names_separators s : forallb separates s = true → parseRecipientNames s = [].
Proof. induction s as [|c s IH]; [done|]. intros [Hc Hs]%andb_true_iff. rewrite names_separator by done. by apply IH. Qed.

Lemma dropWhile_split {A} (p : A → bool) l : ∃ k, l = k ++ dropWhile p l ∧ forallb p k = true.
Proof.
  induction l as [|x l (k & Hk & Hp)]; [by exists []|]. cbn. destruct (p x) eqn:E; [|by exists []].
  exists (x :: k). cbn. rewrite E, <- Hk. done.
Qed.

Lemma forallb_reverse {A} (p : A → bool) l : forallb p (reverse l) = forallb p l.
Proof. induction l as [|x l IH]; [done|]. rewrite reverse_cons, forallb_app, IH. cbn. by rewrite andb_true_r, andb_comm. Qed.

Lemma names_strip s : parseRecipientNames (reverse (dropWhile separates (reverse s))) = parseRecipientNames s.
Proof.
  destruct (dropWhile_split separates (reverse s)) as (k & Hk & Hp). revert Hk. generalize (dropWhile separates (reverse s)). intros d Hk.
  assert (s = reverse d ++ reverse k) as -> by (by rewrite <- reverse_app, <- Hk, reverse_involutive).
  assert (forallb separates (reverse k) = true) as Hr by by rewrite forallb_reverse. rewrite names_app.
  - rewrite (names_separators (reverse k)) by done. by rewrite app_nil_r.
  - destruct (reverse k) as [|c k']; [by left|right]. by apply andb_true_iff in Hr as [Hc _].
Qed.

(** ** The name at the caret *)

Lemma token_start_spec v c :
  c ≤ length v → ∃ before part, take c v = before ++ part ∧ length before = token_start v c ∧
  forallb (λ x, negb (separates x)) part = true ∧ (before = [] ∨ ∃ p x, before = p ++ [x] ∧ separates x = true).
Proof.
  induction c as [|c IH]; intros Hc; [exists [], []; by rewrite take_0; auto|].
  destruct (lookup_lt_is_Some_2 v c) as [x Hx]; [lia|]. cbn [token_start]. rewrite Hx, (take_S_r _ _ _ Hx).
  change (isRecipientSeparator (Some x)) with (separates x). destruct (separates x) eqn:E.
  - exists (take c v ++ [x]), []. rewrite app_nil_r, length_app, length_take. cbn. split_and!; [done|lia|done|]. right. by eexists _, _.
  - destruct IH as (b & part & Hb & Hl & Hp & Hs); [lia|]. exists b, (part ++ [x]). rewrite Hb, <- app_assoc, forallb_app, Hp. cbn -[separates]. by rewrite E.
Qed.

Lemma token_end_spec r c :
  ∃ part after, r = part ++ after ∧ token_end r c = c + length part ∧
  forallb (λ x, negb (separates x)) part = true ∧ (after = [] ∨ isRecipientSeparator (head after) = true).
Proof.
  revert c. induction r as [|x r IH]; intros c; cbn [token_end]; [exists [], []; auto|]. destruct (separates x) eqn:E.
  - exists [], (x :: r). split_and!; [done|cbn; lia|done|by right].
  - destruct (IH (S c)) as (part & after & -> & -> & Hp & Ha). exists (x :: part), after. cbn -[separates]. rewrite E. split_and!; [done|lia|done|done].
Qed.

(** The field falls into what is before the name at the caret, that name, and what is after it. *)
Lemma token_split input :
  caret_of input ≤ length (value input) →
  ∃ before p1 p2 after, value input = before ++ p1 ++ p2 ++ after ∧ take (caret_of input) (value input) = before ++ p1 ∧
  take (token_start (value input) (caret_of input)) (value input) = before ∧
  drop (token_end (drop (caret_of input) (value input)) (caret_of input)) (value input) = after ∧
  forallb (λ x, negb (separates x)) (p1 ++ p2) = true ∧ (after = [] ∨ isRecipientSeparator (head after) = true) ∧
  (before = [] ∨ ∃ p x, before = p ++ [x] ∧ separates x = true).
Proof.
  intros Hc. set (c := caret_of input) in *. set (v := value input) in *.
  destruct (token_start_spec v c Hc) as (b & p1 & H1 & Hl & Hp1 & Hb). destruct (token_end_spec (drop c v) c) as (p2 & a & H2 & He & Hp2 & Ha).
  exists b, p1, p2, a. rewrite forallb_app, Hp1, Hp2. assert (v = b ++ p1 ++ p2 ++ a) as Ev.
  { rewrite <- (take_drop c v), H1, H2. by rewrite <- app_assoc. }
  split_and!; try done.
  - rewrite <- Hl, Ev. apply take_app_length.
  - rewrite He, <- drop_drop, H2. by rewrite drop_app_length.
Qed.

Lemma names_around before t after :
  forallb (λ x, negb (separates x)) t = true → (after = [] ∨ isRecipientSeparator (head after) = true) →
  (before = [] ∨ ∃ p x, before = p ++ [x] ∧ separates x = true) →
  parseRecipientNames (before ++ t ++ after) = parseRecipientNames before ++ (if truthy t then [t] else []) ++ parseRecipientNames after.
Proof.
  intros Ht Ha [-> | (p & x & -> & Hx)]; [exact (names_token t after Ht Ha)|]. rewrite names_ending by done. by rewrite (names_token t).
Qed.

Lemma names_single u : is_name u = true → parseRecipientNames u = [u].
Proof.
  intros [Hu Hs]%andb_true_iff. pose proof (names_token u [] Hs (or_introl eq_refl)) as E. rewrite app_nil_r, Hu in E. exact E.
Qed.

(** A comma and a space separate what they stand between. *)
Lemma names_comma p s : parseRecipientNames (p ++ js ", " ++ s) = parseRecipientNames p ++ parseRecipientNames s.
Proof. change (js ", ") with [","%char; " "%char]. rewrite names_app by by right. cbn [app]. by rewrite !names_separator. Qed.

Lemma names_up input u :
  is_name u = true → parseRecipientNames (up_to_name input u) =
  parseRecipientNames (take (token_start (value input) (caret_of input)) (value input)) ++ [u].
Proof.
  intros Hu. unfold up_to_name. set (b := take _ _). rewrite <- (names_strip b).
  destruct (truthy _) eqn:E; [by rewrite names_comma, (names_single u)|]. apply truthy_false in E. rewrite E. by apply names_single.
Qed.

Lemma names_with input u :
  is_name u = true → parseRecipientNames (with_name input u) =
  parseRecipientNames (take (token_start (value input) (caret_of input)) (value input)) ++ [u] ++
  parseRecipientNames (drop (token_end (drop (caret_of input) (value input)) (caret_of input)) (value input)).
Proof.
  intros Hu. unfold with_name. set (a := drop (token_end _ _) _). rewrite <- (names_dropWhile a).
  destruct (truthy (dropWhile separates a)) eqn:E; [rewrite names_comma, names_up by done; by rewrite <- app_assoc|].
  apply truthy_false in E. rewrite E. rewrite <- (app_nil_r (js ", ")), names_comma, names_up by done. by rewrite <- app_assoc.
Qed.

Lemma with_name_up input u : ∃ rest, with_name input u = (up_to_name input u ++ js ", ") ++ rest.
Proof.
  unfold with_name. destruct (truthy _); [|exists []; by rewrite app_nil_r]. eexists. by rewrite <- app_assoc.
Qed.

(** No name is searched right after a separator. *)
Lemma query_after_separator input p c rest :
  value input = (p ++ [c]) ++ rest → caret_of input = length (p ++ [c]) → separates c = true → currentRecipientQuery input = [].
Proof.
  intros Hv Hc Hs. unfold currentRecipientQuery. rewrite Hc, Hv. rewrite length_app. cbn [length].
  replace (length p + 1) with (S (length p)) by lia. cbn [token_start].
  rewrite <- app_assoc. cbn [app]. rewrite list_lookup_middle by done. change (isRecipientSeparator (Some c)) with (separates c). rewrite Hs.
  unfold slice. rewrite drop_ge; [done|]. rewrite length_take. lia.
Qed.

(** A name taken from the suggestions replaces exactly the name the caret is in (or comes between the names next
    to it): all other names of the field are kept, in their order, and the caret is behind the new name, where the user goes on without
    a search. This is for a field that has room for it; a longer text is cut ([cut_name]). *)
Theorem recipient_accepted input u :
  caret_of input ≤ length (value input) → is_name u = true → length (with_name input u) ≤ maxLength input →
  ∃ before token after, value input = before ++ token ++ after ∧ length before ≤ caret_of input ≤ length (before ++ token) ∧
  parseRecipientNames (value input) = parseRecipientNames before ++ (if truthy token then [token] else []) ++ parseRecipientNames after ∧
  parseRecipientNames (value (put_name input u)) = parseRecipientNames before ++ [u] ++ parseRecipientNames after ∧
  parseRecipientNames (take (caret_of (put_name input u)) (value (put_name input u))) = parseRecipientNames before ++ [u] ∧
  currentRecipientQuery (put_name input u) = [].
Proof.
  intros Hc Hu Hl. destruct (token_split input Hc) as (b & p1 & p2 & a & Hv & Ht & Hb & Ha & Hn & Has & Hbs).
  pose proof (f_equal length Ht) as Hlen. rewrite length_take, length_app in Hlen. exists b, (p1 ++ p2), a.
  pose proof (names_with input u Hu) as Hw. pose proof (names_up input u Hu) as Hp. rewrite Hb in Hp. rewrite Hb, Ha in Hw.
  destruct (with_name_up input u) as [rest Hr].
  assert (value (put_name input u) = with_name input u) as Ev by by apply take_ge.
  assert (caret_of (put_name input u) = length (up_to_name input u ++ js ", ")) as Ec.
  { unfold put_name, caret_of. cbn. rewrite take_ge by done. rewrite Hr, !length_app. change (length (js ", ")) with 2. lia. }
  split_and!.
  - by rewrite Hv, <- !app_assoc.
  - lia.
  - rewrite !length_app. lia.
  - rewrite Hv, (app_assoc p1), names_around by done. done.
  - by rewrite Ev.
  - rewrite Ev, Ec, Hr, take_app_length. rewrite <- (app_nil_r (js ", ")), names_comma, Hp. by rewrite app_nil_r.
  - apply (query_after_separator _ (up_to_name input u ++ js ",") " "%char rest); rewrite <- ?(app_assoc _ (js ",")); cbn [app js]; [by rewrite Ev|done|done].
Qed.

(** ** What holds between two events *)

(** The searches on their way: each of its own version, none of a later one. *)
Record queries_ok (s : state) : Prop := {
  qu_versions : NoDup (asked_version <$> queries s);
  qu_bound : Forall (λ q, asked_version q ≤ recipientSuggestionVersion s ∧ truthy (asked q) = true) (queries s)
}.

(** The list under the field. While it is shown or about to be searched for, no other answer can come for it. *)
Record list_ok (s : state) : Prop := {
  li_display : display s = negb (bool_decide (recipientSuggestions s = []));
  li_expanded : expanded (field_of s) = display s;
  li_active : (-1 ≤ activeRecipientSuggestion s < Z.of_nat (length (recipientSuggestions s)))%Z ∨ recipientSuggestions s = [];
  li_none : recipientSuggestions s = [] → activeRecipientSuggestion s = (-1)%Z;
  li_names : Forall (λ u, truthy u = true) (recipientSuggestions s);
  li_disabled : disabled (field_of s) = broadcast s;
  li_off : broadcast s = true → recipientSuggestions s = [] ∧ recipientSuggestionTimer s = false;
  li_timer : recipientSuggestionTimer s = true → recipientSuggestions s = [];
  li_quiet : recipientSuggestionTimer s = true ∨ recipientSuggestions s ≠ [] ∨ broadcast s = true →
             recipientSuggestionVersion s ∉ asked_version <$> queries s
}.

(** The submissions: at most one on its way, and every submission has one outcome. *)
Definition is_outcome (a : alert) : bool := match a with Invalid_notification => false | _ => true end.

Record sending_ok (s : state) : Prop := {
  se_posts : length (posts s) = if sending s then 1 else 0;
  se_outcomes : length (posted s) = length (posts s) + length (List.filter is_outcome (alerts s));
  se_valid : Forall (λ r, valid_request r = true) (posted s);
  se_open : is_open s = true → cachedIsManager s = true;
  se_timer : ∀ t, completionTimer s = Some t → t ∈ timers s
}.

(** *** The list *)

Lemma fresh_version s : queries_ok s → recipientSuggestionVersion (hideRecipientSuggestions s) ∉ asked_version <$> queries s.
Proof.
  intros [_ Hb] (q & Hv & Hi)%list_elem_of_fmap. rewrite Forall_forall in Hb. specialize (Hb _ Hi). cbn in *. lia.
Qed.

Lemma hide_list s : queries_ok s → disabled (field_of s) = broadcast s → list_ok (hideRecipientSuggestions s).
Proof. intros Hq Hd. split; try done; [by right|]. intros _. exact (fresh_version s Hq). Qed.

Lemma hide_queries s : queries_ok s → queries_ok (hideRecipientSuggestions s).
Proof. intros [H1 H2]. split; [done|]. eapply Forall_impl; [exact H2|]. cbn. intros q []. split; [lia|done]. Qed.

(** Fields that the list does not concern. *)
Definition same_list (s s' : state) : Prop :=
  (recipientSuggestions s', activeRecipientSuggestion s', display s', expanded (field_of s'), recipientSuggestionTimer s') =
  (recipientSuggestions s, activeRecipientSuggestion s, display s, expanded (field_of s), recipientSuggestionTimer s) ∧
  (recipientSuggestionVersion s', queries s', disabled (field_of s'), broadcast s') =
  (recipientSuggestionVersion s, queries s, disabled (field_of s), broadcast s).

Lemma list_same s s' : same_list s s' → list_ok s → list_ok s'.
Proof. intros [[= E1 E2 E3 E4 E5] [= E6 E7 E8 E9]] []. split; rewrite ?E1, ?E2, ?E3, ?E4, ?E5, ?E6, ?E7, ?E8, ?E9; done. Qed.

Lemma queries_same s s' :
  queries s' = queries s → recipientSuggestionVersion s' = recipientSuggestionVersion s → queries_ok s → queries_ok s'.
Proof. intros E1 E2 []. split; by rewrite ?E1, ?E2. Qed.

Lemma toggle_list b s : queries_ok s → list_ok s → list_ok (handleBroadcastToggleChange b s).
Proof.
  intros Hq Hl. unfold handleBroadcastToggleChange, handleBroadcastChange. cbv zeta. destruct b; cbn [broadcast].
  - apply hide_list; [by apply (queries_same s)|done].
  - destruct Hl as [H1 H2 H3 H4 H5 H6 H7 H8 H9]. split; try done. cbn. intros [H | [H | [=]]]; apply H9; auto.
Qed.

Lemma toggle_queries b s : queries_ok s → queries_ok (handleBroadcastToggleChange b s).
Proof.
  intros Hq. unfold handleBroadcastToggleChange, handleBroadcastChange. cbv zeta.
  destruct b; cbn [broadcast]; [apply hide_queries|]; by apply (queries_same s).
Qed.

(** The rest of closing, once the list is hidden. *)
Lemma blank_ok h :
  queries_ok h → list_ok h → recipientSuggestions h = [] →
  let r := handleBroadcastChange { { reset_form h with severity_value := js "info" } with broadcast := false } in
  queries_ok (setSubmitState Idle r) ∧ list_ok (setSubmitState Idle r).
Proof.
  intros Hq [] Hn. unfold handleBroadcastChange, reset_form. cbv zeta. cbn [broadcast].
  split; [by apply (queries_same h)|].
  split; try done. cbn. intros [H | [H | [=]]]; auto.
Qed.

Lemma closing_ok b s : queries_ok s → list_ok s → queries_ok (closeNotificationComposer b s) ∧ list_ok (closeNotificationComposer b s).
Proof.
  intros Hq Hl. unfold closeNotificationComposer. destruct (sending s && b); [done|]. cbv zeta.
  set (s1 := match _ with Some _ => _ | None => _ end).
  assert (queries_ok s1) as Hq1 by (subst s1; destruct (completionTimer _); by apply (queries_same s)).
  assert (disabled (field_of s1) = broadcast s1) as Hd by (subst s1; destruct (completionTimer _); apply (li_disabled _ Hl)).
  apply blank_ok; [by apply hide_queries|by apply hide_list|reflexivity].
Qed.

Lemma insert_ok u s : queries_ok s → list_ok s → queries_ok (insertRecipientSuggestion u s) ∧ list_ok (insertRecipientSuggestion u s).
Proof.
  intros Hq Hl. unfold insertRecipientSuggestion. destruct u as [u|]; [|done]. destruct (truthy u); [|done].
  split; [apply hide_queries|apply hide_list]; try (by apply (queries_same s)). cbn. by destruct Hl.
Qed.

Lemma active_ok k s :
  (-1 ≤ k ≤ Z.of_nat (length (recipientSuggestions s)))%Z → list_ok s → list_ok (setActiveRecipientSuggestion k s).
Proof.
  intros Hk Hl. unfold setActiveRecipientSuggestion. cbv zeta. destruct (_ =? 0)%Z eqn:E; [done|].
  apply Z.eqb_neq in E. destruct Hl as [H1 H2 H3 H4 H5 H6 H7 H8 H9]. split; try done; cbn.
  - left. pose proof (Z.rem_bound_pos (k + Z.of_nat (length (recipientSuggestions s))) (Z.of_nat (length (recipientSuggestions s)))). lia.
  - intros E0. by rewrite E0 in E.
Qed.

Lemma keydown_ok k s : queries_ok s → list_ok s → queries_ok (handleRecipientKeydown k s) ∧ list_ok (handleRecipientKeydown k s).
Proof.
  intros Hq Hl. unfold handleRecipientKeydown. cbv zeta. destruct (negb (display s) || _) eqn:E; [done|].
  apply orb_false_iff in E as [_ E%Nat.eqb_neq]. destruct (li_active _ Hl) as [Ha | Ha]; [|by rewrite Ha in E].
  assert (∀ j, queries_ok (setActiveRecipientSuggestion j s)) as Hs.
  { intros j. unfold setActiveRecipientSuggestion. cbv zeta. destruct (_ =? 0)%Z; [done|by apply (queries_same s)]. }
  destruct k; try done.
  - split; [done|]. apply active_ok; [lia|done].
  - split; [done|]. apply active_ok; [destruct (_ <? 0)%Z eqn:E1; [|apply Z.ltb_ge in E1]; lia|done].
  - by apply insert_ok.
  - split; [by apply hide_queries|]. apply hide_list; [done|by destruct Hl].
Qed.

Lemma timer_list s :
  list_ok s → disabled (field_of s) = false → recipientSuggestions s = [] → recipientSuggestionVersion s ∉ asked_version <$> queries s →
  list_ok { s with recipientSuggestionTimer := true }.
Proof.
  intros [H1 H2 H3 H4 H5 H6 H7 H8 H9] Hd Hn Hv. split; [exact H1|exact H2|exact H3|exact H4|exact H5|exact H6| |done|done].
  intros Hb. cbn in Hb. congruence.
Qed.

Lemma input_ok v c s :
  queries_ok s → list_ok s → queries_ok (handleRecipientInput v c s) ∧ list_ok (handleRecipientInput v c s).
Proof.
  intros Hq Hl. unfold handleRecipientInput. cbv zeta. set (s0 := { s with field_of := _ }).
  assert (queries_ok s0) as Hq0 by by apply (queries_same s).
  pose proof (hide_queries s0 Hq0) as Hq1. assert (list_ok (hideRecipientSuggestions s0)) as Hl1.
  { apply hide_list; [done|]. apply (li_disabled s Hl). }
  pose proof (fresh_version s0 Hq0 : _ ∉ asked_version <$> queries (hideRecipientSuggestions s0)) as Hv.
  assert (recipientSuggestions (hideRecipientSuggestions s0) = []) as Hn by reflexivity.
  revert Hq1 Hl1 Hv Hn. generalize (hideRecipientSuggestions s0). intros h Hq1 Hl1 Hv Hn.
  destruct (_ || _) eqn:E; [done|]. split; [by apply (queries_same h)|].
  apply orb_false_iff in E as [[_ E]%orb_false_iff _]. by apply timer_list.
Qed.

Lemma fetch_ok s : queries_ok s → list_ok s → recipientSuggestionTimer s = true →
  queries_ok (fetchRecipientSuggestions s) ∧ list_ok (fetchRecipientSuggestions s).
Proof.
  intros Hq Hl Ht. unfold fetchRecipientSuggestions. cbv zeta. pose proof (li_timer _ Hl Ht) as Hn. pose proof (li_quiet _ Hl (or_introl Ht)) as Hqu.
  assert (list_ok { s with recipientSuggestionTimer := false }) as Hl0.
  { destruct Hl as [H1 H2 H3 H4 H5 H6 H7 H8 H9]. split; try done. }
  destruct (_ || _) eqn:E; [split; [by apply (queries_same s)|exact Hl0]|].
  apply orb_false_iff in E as [[_ Ed]%orb_false_iff E%negb_false_iff]. destruct Hq as [Hq1 Hq2]. split.
  - split; cbn.
    + rewrite fmap_app. apply NoDup_app. split_and!; [done| |apply NoDup_singleton]. intros v Hv ->%list_elem_of_singleton. done.
    + apply Forall_app. split; [done|]. by apply Forall_singleton.
  - pose proof (li_disabled _ Hl0) as Hd. destruct Hl0 as [H1 H2 H3 H4 H5 H6 H7 H8 H9]. split; try done.
    cbn in *. intros [[=] | [[] | Hb]]; [done|congruence].
Qed.

(** The answer that is taken off, and what is left. *)
Lemma queries_delete i q s :
  queries_ok s → queries s !! i = Some q →
  (asked_version q ∉ asked_version <$> delete i (queries s)) ∧ (delete i (queries s) ⊆ queries s) ∧
  queries_ok { s with queries := delete i (queries s) }.
Proof.
  intros [Hq Hb] Hi. pose proof (sublist_delete (queries s) i) as Hsub. rewrite <- (take_drop_middle _ _ _ Hi) in Hq.
  rewrite fmap_app, fmap_cons in Hq. apply NoDup_app in Hq as (H1 & Hd & [Hn H2]%NoDup_cons).
  assert (NoDup (asked_version <$> delete i (queries s))) as Hnd.
  { rewrite delete_take_drop, fmap_app. apply NoDup_app. split_and!; [done| |done]. intros x Hx Hx'. apply (Hd x Hx). by right. }
  assert (delete i (queries s) ⊆ queries s) as Hin by (intros x Hx; by eapply elem_of_sublist). split_and!; [|done|].
  - rewrite delete_take_drop, fmap_app, elem_of_app. intros [Hx | Hx]; [|done]. apply (Hd _ Hx). by left.
  - split; [done|]. cbn. rewrite Forall_forall in *. auto.
Qed.

Lemma queries_list l s : list_ok s → l ⊆ queries s → list_ok { s with queries := l }.
Proof.
  intros [H1 H2 H3 H4 H5 H6 H7 H8 H9] Hl. split; try done. cbn. intros Hq (q & Hv & Hi)%list_elem_of_fmap.
  apply (H9 Hq), list_elem_of_fmap. exists q. auto.
Qed.

Lemma render_ok users s :
  queries_ok s → list_ok s → recipientSuggestionTimer s = false → broadcast s = false →
  recipientSuggestionVersion s ∉ asked_version <$> queries s →
  queries_ok (renderRecipientSuggestions users s) ∧ list_ok (renderRecipientSuggestions users s).
Proof.
  intros Hq [] Ht Hb Hv. unfold renderRecipientSuggestions. cbv zeta. split; [by apply (queries_same s)|]. split; try done; cbn.
  - destruct (List.filter truthy users) eqn:E; [by right|left]. cbn. lia.
  - apply Forall_forall. intros u. rewrite list_elem_of_In, filter_In. tauto.
  - congruence.
  - congruence.
Qed.

Lemma answer_ok i q users s :
  queries_ok s → list_ok s → queries s !! i = Some q →
  queries_ok (suggestions_answered q users { s with queries := delete i (queries s) }) ∧
  list_ok (suggestions_answered q users { s with queries := delete i (queries s) }).
Proof.
  intros Hq Hl Hi. destruct (queries_delete i q s Hq Hi) as (Hn & Hs & Hq1). pose proof (queries_list _ s Hl Hs) as Hl1.
  assert (asked_version q ∈ asked_version <$> queries s) as Hin by (apply list_elem_of_fmap; exists q; split; [done|by eapply list_elem_of_lookup_2]).
  unfold suggestions_answered. destruct (asked_version q =? _) eqn:E; [|done]. apply Nat.eqb_eq in E. change (asked_version q = recipientSuggestionVersion s) in E.
  cbn [negb]. destruct users as [us|]; [|split; [by apply hide_queries|apply hide_list; [done|apply Hl]]].
  destruct (negb _); [done|]. rewrite E in Hn, Hin. apply render_ok; try done; cbn.
  - destruct (recipientSuggestionTimer s) eqn:Et; [|done]. destruct (li_quiet _ Hl); auto.
  - destruct (broadcast s) eqn:Et; [|done]. destruct (li_quiet _ Hl); auto.
Qed.

Lemma step_list e s s' : step e s = Some s' → queries_ok s → list_ok s → queries_ok s' ∧ list_ok s'.
Proof.
  intros He Hq Hl. assert (∀ s1, same_list s s1 → queries_ok s1 ∧ list_ok s1) as Hsame.
  { intros s1 Hs. split; [|by apply (list_same s)]. destruct Hs as [_ [=]]. by apply (queries_same s). }
  destruct e; cbn [step] in He; try (apply (inj Some) in He as <-).
  - unfold openNotificationComposer. destruct (_ || _); by apply Hsame.
  - by apply closing_ok.
  - unfold updateComposerVisibility. cbv zeta. destruct (_ && _); [apply closing_ok|]; by apply Hsame.
  - by apply Hsame.
  - destruct (disabled _); [done|]. apply (inj Some) in He as <-. by apply input_ok.
  - destruct (disabled _); [done|]. apply (inj Some) in He as <-. by apply Hsame.
  - destruct (disabled _); [done|]. apply (inj Some) in He as <-. by apply keydown_ok.
  - by apply insert_ok.
  - split; [by apply hide_queries|apply hide_list; [done|apply Hl]].
  - case_bool_decide; [done|]. apply (inj Some) in He as <-. split; [by apply toggle_queries|by apply toggle_list].
  - by apply Hsame.
  - by apply Hsame.
  - by apply Hsame.
  - destruct (recipientSuggestionTimer s) eqn:Et; [|done]. apply (inj Some) in He as <-. by apply fetch_ok.
  - destruct (queries s !! i) as [q|] eqn:Ei; [|done]. apply (inj Some) in He as <-. by apply answer_ok.
  - unfold submitNotification. destruct (_ || _); [by apply Hsame|]. cbv zeta. destruct (negb _); by apply Hsame.
  - destruct (posts s !! i); [|done]. apply (inj Some) in He as <-. destruct count; by apply Hsame.
  - case_bool_decide; [|done]. apply (inj Some) in He as <-. apply closing_ok; by apply Hsame.
Qed.

(** *** The submissions *)

(** What the submissions are about, but for the timers. *)
Definition same_sending (s s' : state) : Prop :=
  (posts s', sending s', posted s', alerts s') = (posts s, sending s, posted s, alerts s) ∧
  (is_open s', cachedIsManager s', completionTimer s', timers s') = (is_open s, cachedIsManager s, completionTimer s, timers s).

Lemma sending_same s s' : same_sending s s' → sending_ok s → sending_ok s'.
Proof. intros [[= E1 E2 E3 E4] [= E5 E6 E7 E8]] []. split; rewrite ?E1, ?E2, ?E3, ?E4, ?E5, ?E6, ?E7, ?E8; done. Qed.

Lemma hide_sending s : same_sending s (hideRecipientSuggestions s).
Proof. done. Qed.

Lemma toggle_sending b s : same_sending s (handleBroadcastToggleChange b s).
Proof. by destruct b. Qed.

Lemma insert_sending u s : same_sending s (insertRecipientSuggestion u s).
Proof. unfold insertRecipientSuggestion. destruct u as [u|]; [|done]. by destruct (truthy u). Qed.

Lemma active_sending k s : same_sending s (setActiveRecipientSuggestion k s).
Proof. unfold setActiveRecipientSuggestion. cbv zeta. by destruct (_ =? 0)%Z. Qed.

Lemma keydown_sending k s : same_sending s (handleRecipientKeydown k s).
Proof.
  unfold handleRecipientKeydown. cbv zeta. destruct (_ || _); [done|].
  destruct k; [apply active_sending|apply active_sending|apply insert_sending|apply hide_sending|done].
Qed.

Lemma input_sending v c s : same_sending s (handleRecipientInput v c s).
Proof. unfold handleRecipientInput. cbv zeta. by destruct (_ || _). Qed.

Lemma fetch_sending s : same_sending s (fetchRecipientSuggestions s).
Proof. unfold fetchRecipientSuggestions. cbv zeta. by destruct (_ || _). Qed.

Lemma answer_sending q us s : same_sending s (suggestions_answered q us s).
Proof. unfold suggestions_answered. destruct (negb _); [done|]. destruct us; [|done]. by destruct (negb _). Qed.

(** Closing ends the timer and leaves the submissions alone. *)
Lemma close_sending b s :
  (∀ t, completionTimer s = Some t → t ∈ timers s) → sending s && b = false →
  let r := closeNotificationComposer b s in
  (posts r, sending r, posted r, alerts r, cachedIsManager r) = (posts s, sending s, posted s, alerts s, cachedIsManager s) ∧
  is_open r = false ∧ completionTimer r = None.
Proof.
  intros Ht Hb. unfold closeNotificationComposer. rewrite Hb. cbv zeta. cbn [completionTimer].
  change (completionTimer { s with is_open := false }) with (completionTimer s). by destruct (completionTimer s) eqn:E.
Qed.

Lemma close_sending_ok b s : sending_ok s → sending_ok (closeNotificationComposer b s).
Proof.
  intros Hs. destruct (sending s && b) eqn:Eb; [unfold closeNotificationComposer; by rewrite Eb|].
  destruct (close_sending b s (se_timer _ Hs) Eb) as ([= E1 E2 E3 E4 E5] & E6 & E7).
  destruct Hs. split; rewrite ?E1, ?E2, ?E3, ?E4, ?E6, ?E7; done.
Qed.

(** Closing does not ask whether the composer is open. *)
Lemma close_reopened s : closeNotificationComposer false s = closeNotificationComposer false { s with is_open := false }.
Proof. unfold closeNotificationComposer. rewrite !andb_false_r. reflexivity. Qed.

(** The form is sent by a submission only. *)
Lemma posted_step e s s' :
  step e s = Some s' → posted s' = posted s ∨ (e = Submit ∧ cachedIsManager s = true ∧ sending s = false ∧ posted s' = posted s ++ [form_request s]).
Proof.
  assert (∀ b s0, posted (closeNotificationComposer b s0) = posted s0) as Hc.
  { intros b s0. unfold closeNotificationComposer. destruct (_ && _); [done|]. cbv zeta. by destruct (completionTimer _). }
  assert (∀ s0 s1, same_sending s0 s1 → posted s1 = posted s0) as Hp by by intros s0 s1 [[=] _].
  intros He. destruct e; cbn [step] in He; try (apply (inj Some) in He as <-); try (left; done); try (left; apply Hc).
  - left. unfold openNotificationComposer. by destruct (_ || _).
  - left. unfold updateComposerVisibility. cbv zeta. destruct (_ && _); [by rewrite Hc|done].
  - left. destruct (disabled _); [done|]. apply (inj Some) in He as <-. apply Hp, input_sending.
  - left. destruct (disabled _); [done|]. by apply (inj Some) in He as <-.
  - left. destruct (disabled _); [done|]. apply (inj Some) in He as <-. apply Hp, keydown_sending.
  - left. apply Hp, insert_sending.
  - left. case_bool_decide; [done|]. apply (inj Some) in He as <-. apply Hp, toggle_sending.
  - left. destruct (recipientSuggestionTimer s); [|done]. apply (inj Some) in He as <-. apply Hp, fetch_sending.
  - left. destruct (queries s !! i); [|done]. apply (inj Some) in He as <-.
    by rewrite (Hp _ _ (answer_sending _ users _)).
  - unfold submitNotification. destruct (_ || _) eqn:E; [by left|]. cbv zeta.
    destruct (negb (valid_request _)) eqn:Ev; [by left|right]. by apply orb_false_iff in E as [E%negb_false_iff Es].
  - left. destruct (posts s !! i); [|done]. apply (inj Some) in He as <-. by destruct count.
  - left. case_bool_decide; [|done]. apply (inj Some) in He as <-. unfold completeSuccessfulNotification. by rewrite Hc.
Qed.

Lemma submit_sending s : sending_ok s → sending_ok (submitNotification s).
Proof.
  intros Hs. unfold submitNotification. destruct (_ || _) eqn:E; [done|]. cbv zeta. apply orb_false_iff in E as [_ Es].
  destruct Hs as [H1 H2 H3 H4 H5]. destruct (negb _) eqn:Ev.
  - split; try done. cbn. rewrite List.filter_app, length_app. cbn. lia.
  - apply negb_false_iff in Ev. rewrite Es in H1. split; try done; cbn.
    + rewrite length_app, H1. done.
    + rewrite !length_app. cbn. lia.
    + apply Forall_app. split; [done|]. by apply Forall_singleton.
Qed.

Lemma outcome_sending i count r s :
  sending_ok s → posts s !! i = Some r → sending_ok (notification_answered count { s with posts := delete i (posts s) }).
Proof.
  intros [H1 H2 H3 H4 H5] Hi. destruct (sending s); [|destruct (posts s); done]. destruct (posts s) as [|p [|]] eqn:Ep; [done| |done].
  destruct i as [|i]; [|done]. cbn in Hi. destruct count as [n|]; split; try done; cbn; rewrite ?List.filter_app, ?length_app, ?Ep; cbn in *; try lia; try done.
  intros t [= <-]. apply elem_of_app. right. by left.
Qed.

Lemma step_sending e s s' : step e s = Some s' → sending_ok s → sending_ok s'.
Proof.
  intros He Hs. destruct e; cbn [step] in He; try (apply (inj Some) in He as <-); try (by apply (sending_same s)).
  - unfold openNotificationComposer. destruct (negb _ || _) eqn:E; [done|]. apply orb_false_iff in E as [E%negb_false_iff _].
    by destruct Hs.
  - by apply close_sending_ok.
  - unfold updateComposerVisibility. cbv zeta. destruct (negb manager && is_open _) eqn:E.
    + rewrite close_reopened. apply close_sending_ok. destruct Hs. by split.
    + change (negb manager && is_open s = false) in E. destruct Hs as [H1 H2 H3 H4 H5].
      split; try done. cbn. intros Ho. rewrite Ho in E. by destruct manager.
  - destruct (disabled _); [done|]. apply (inj Some) in He as <-. revert Hs. apply sending_same, input_sending.
  - destruct (disabled _); [done|]. apply (inj Some) in He as <-. by apply (sending_same s).
  - destruct (disabled _); [done|]. apply (inj Some) in He as <-. revert Hs. apply sending_same, keydown_sending.
  - revert Hs. apply sending_same, insert_sending.
  - case_bool_decide; [done|]. apply (inj Some) in He as <-. revert Hs. apply sending_same, toggle_sending.
  - destruct (recipientSuggestionTimer s); [|done]. apply (inj Some) in He as <-. revert Hs. apply sending_same, fetch_sending.
  - destruct (queries s !! i); [|done]. apply (inj Some) in He as <-. eapply sending_same; [apply answer_sending|]. by apply (sending_same s).
  - by apply submit_sending.
  - destruct (posts s !! i) eqn:Ei; [|done]. apply (inj Some) in He as <-. by eapply outcome_sending.
  - case_bool_decide; [|done]. apply (inj Some) in He as <-. apply close_sending_ok. destruct Hs. by split.
Qed.

Definition steps (s s' : state) : Prop := ∃ e, step e s = Some s'.

(** C29: Whatever the order of typing, clicks, answers, timers and changes of the session: at most one notification is on its way,
    and every one that was sent ends in one message of success or failure; a notification is only sent by a submission of a manager,
    with the contents of the form at that moment, and it has a title, a text and a recipient (or goes to all). The composer is only open for
    a manager. The list under the field is displayed exactly when it has names, one of them at most is active, and none is shown
    while the notification goes to all. *)
Theorem notification_sent m s :
  rtc steps (initial m) s →
  length (posts s) = (if sending s then 1 else 0) ∧ length (posted s) = length (posts s) + length (List.filter is_outcome (alerts s)) ∧
  (∀ r, r ∈ posted s → title r ≠ [] ∧ body r ≠ [] ∧ (all r = true ∨ recipients r ≠ [])) ∧
  (is_open s = true → cachedIsManager s = true) ∧
  (∀ e s', step e s = Some s' → posted s' ≠ posted s →
     e = Submit ∧ cachedIsManager s = true ∧ sending s = false ∧ posted s' = posted s ++ [form_request s]) ∧
  (display s = true ↔ recipientSuggestions s ≠ []) ∧
  (display s = true → broadcast s = false ∧ disabled (field_of s) = false ∧ Forall (λ u, u ≠ []) (recipientSuggestions s) ∧
     (-1 ≤ activeRecipientSuggestion s < Z.of_nat (length (recipientSuggestions s)))%Z).
Proof.
  intros Hr. assert ((queries_ok s ∧ list_ok s) ∧ sending_ok s) as [[_ Hl] Hs].
  { refine (rtc_preserves steps (λ s, (queries_ok s ∧ list_ok s) ∧ sending_ok s) _ _ _ Hr _).
    - intros s1 s2 [[Hq Hl] Hs] [e He]. split; [by eapply step_list|by eapply step_sending].
    - repeat split; try done; [apply NoDup_nil_2|by right|by intros _ ?%elem_of_nil]. }
  assert (display s = true ↔ recipientSuggestions s ≠ []) as Hd.
  { rewrite (li_display _ Hl). by rewrite negb_true_iff, bool_decide_eq_false. }
  split_and!; [apply Hs|apply Hs| |apply Hs| |done|].
  - intros r Hr1. pose proof (se_valid _ Hs) as Hv. rewrite Forall_forall in Hv. specialize (Hv _ Hr1).
    apply andb_true_iff in Hv as [[Hv1%orb_true_iff Hv2%truthy_true]%andb_true_iff Hv3%truthy_true]. split_and!; [done|done|].
    destruct Hv1 as [? | Hv1%negb_true_iff%bool_decide_eq_false]; auto.
  - intros e s' He Hne. by destruct (posted_step e s s' He).
  - intros Hdd. pose proof (proj1 Hd Hdd) as Hne. assert (broadcast s = false) as Hb.
    { destruct (broadcast s) eqn:E; [|done]. by destruct (li_off _ Hl E). }
    split_and!; [done|by rewrite (li_disabled _ Hl)| |by destruct (li_active _ Hl) as [[] | ?]|by destruct (li_active _ Hl) as [[] | ?]].
    eapply Forall_impl; [apply (li_names _ Hl)|]. by intros u Hu%truthy_true.
Qed.

(** ** Runs *)

Fixpoint run (es : list event) (s : state) : option state :=
  match es with [] => Some s | e :: es => s' ← step e s; run es s' end.

Lemma run_steps es s s' : run es s = Some s' → rtc steps s s'.
Proof.
  revert s. induction es as [|e es IH]; cbn; intros s; [by intros [= ->]|]. destruct (step e s) as [s1|] eqn:E; [|done]. cbn.
  intros Hr. eapply rtc_l; [by exists e|by apply IH].
Qed.

Definition written : list event := [
  Open; Type_recipients (js "ann, bo") (Some 7); Suggestion_timer; Suggestions 0 (Some [js "bob"; []; js "bo"]);
  Press ArrowUp; Press ArrowUp; Press Enter; Type_title (js " News "); Type_body (js "Read this")].

Definition shown (s : option state) : option (jsstring * nat * list jsstring * submit_state * list alert) :=
  (λ s, (value (field_of s), caret_of (field_of s), recipientSuggestions s, submit_of s, alerts s)) <$> s.

Example write_sample : shown (run written (initial true)) = Some (js "ann, bob, ", 10, [], Idle, []).
Proof. vm_compute. reflexivity. Qed.

(** A submission right after one that succeeded: the same notification goes out again, and the first timer empties the form
    while the second is on its way. *)
Definition sent_again : list event := written ++ [Submit; Answer 0 (Some 2%Z); Submit; Completion_timer 1].

Example sent_twice :
  (λ s, (length (posted s), bool_decide (nth_error (map body (posted s)) 0 = nth_error (map body (posted s)) 1), sending s, is_open s, body_value s))
    <$> run sent_again (initial true) = Some (2, true, true, false, []).
Proof. vm_compute. reflexivity. Qed.

(** A name taken with no room left cuts the last name of the field, which names another user. *)
Example cut_name :
  parseRecipientNames (value (put_name {| value := js "a, maxine"; selectionStart := Some 1; maxLength := 11; disabled := false; expanded := true |} (js "alice")))
  = [js "alice"; js "maxi"].
Proof. vm_compute. reflexivity. Qed.

Lemma recipient_accepted_witness :
  let input := {| value := js "ann, bo cy"; selectionStart := Some 6; maxLength := 4096; disabled := false; expanded := true |} in
  is_name (js "bob") = true ∧ parseRecipientNames (value (put_name input (js "bob"))) = [js "ann"; js "bob"; js "cy"] ∧
  currentRecipientQuery (put_name input (js "bob")) = [].
Proof.
  set (input := {| value := js "ann, bo cy"; selectionStart := Some 6; maxLength := 4096; disabled := false; expanded := true |}).
  destruct (recipient_accepted input (js "bob")) as (b & t & a & _ & _ & _ & _ & _ & H); [vm_compute; lia|reflexivity|vm_compute; lia|].
  split; [reflexivity|]. split; [reflexivity|exact H].
Defined.

Lemma notification_sent_witness :
  ∃ s, run (written ++ [Submit]) (initial true) = Some s ∧ length (posts s) = 1 ∧ length (posted s) = 1.
Proof.
  destruct (run (written ++ [Submit]) (initial true)) as [s|] eqn:E; [|discriminate E]. exists s.
  destruct (notification_sent true s) as (H1 & H2 & _); [by apply run_steps in E|].
  vm_compute in E. injection E as <-. split; [reflexivity|]. by split.
Defined.
