(* ===== verification/Settings.v ===== *)
(** * The settings pages

    [internal/service/frontend/renop-html/js/settings.js]: the list of pages an account may open, the draft of each page,
    loading, saving and discarding, with answers that overlap and accounts that change. Configurations are objects that the
    form, the draft and a submission share, so they live in a heap, and so do drafts, which a submission under way holds. What a
    page's renderer sets in its configuration is a parameter of the model: the theorems hold for any renderer. One event is the
    code between two [await]s. Labels, the focus and the animation of the form are left out. *)

From S2P Require Import Prelude JsText JsValue.
From coqutil Require Import Datatypes.RecordSettersUsingExistingGetters.
Local Open Scope nat_scope.

#[local] Arguments const {E} _ _ /.
#[local] Arguments cons {A} & _ _.

(** ** [JSON.stringify] *)

Definition json_hex (n : N) : ascii := if (n <? 10)%N then chr (48 + n) else chr (87 + n).

Definition json_escape (c : ascii) : jsstring :=
  let n := code c in
  if (n =? 34)%N then js "\" ++ [c] else if (n =? 92)%N then js "\\"
  else if (n =? 8)%N then js "\b" else if (n =? 12)%N then js "\f" else if (n =? 10)%N then js "\n"
  else if (n =? 13)%N then js "\r" else if (n =? 9)%N then js "\t"
  else if (n <? 32)%N then js "\u00" ++ [json_hex (n / 16); json_hex (n mod 16)] else [c].

Definition json_quote (s : jsstring) : jsstring := [chr 34] ++ concat (json_escape <$> s) ++ [chr 34].

(** [None] is [undefined]: such an element of an array prints as [null], such a property not at all. *)
Fixpoint stringify (v : jsval) : option jsstring :=
  match v with
  | JUndef => None
  | JNull => Some (js "null")
  | JBool b => Some (if b then js "true" else js "false")
  | JNum (Int z) => Some (str_of_Z z)
  | JNum _ => Some (js "null")
  | JStr s => Some (json_quote s)
  | JArr l => Some (js "[" ++ join (js ",") ((λ x, or_else (stringify x) (js "null")) <$> l) ++ js "]")
  | JObj fields => Some (js "{" ++ join (js ",") (omap (λ kv, (λ t, json_quote kv.1 ++ js ":" ++ t) <$> stringify kv.2) fields) ++ js "}")
  end.

(** [o[k] = v] *)
Definition assign (k : jsstring) (v : jsval) (o : jsval) : jsval :=
  match o with JObj fields => JObj (set_key fields k v) | _ => o end.

(** ** The state *)

Definition SETTINGS_PAGES : list jsstring := js <$> [
  "captcha"; "legal"; "frontend"; "server"; "proxy"; "storage"; "oauth_providers"; "super_teams"; "publication_quota";
  "maven_domains"; "cache"; "mail"; "registration"; "updater"; "index"]%stdpp.

(** The pages whose messages are protobuf, and have no body in the answer to a save. *)
Definition DOMAIN_MESSAGE_TYPES : list jsstring := js <$> ["frontend"; "server"; "storage"; "proxy"; "updater"; "index"]%stdpp.

(** [made]: the generation of the account the draft was loaded for, which the code does not keep. *)
Record draft := { config : nat; initial : jsval; made : nat }.

(** What the container shows: nothing or a skeleton, the form of a page over its object, or a notice with a button that loads a
    page again ([Some]) or the list of pages ([None]). *)
Inductive shown := Blank | Form (domain : jsstring) (object : nat) | Notice (retry : option jsstring).

Record page_load := { fetch_id : nat; load_domain : jsstring; load_generation : nat }.
Record save := { save_domain : jsstring; save_draft : nat; save_generation : nat; submitted : jsval }.

Inductive alert := Saved_success | Save_failed.

Record state := {
  configs : list jsval; draft_objects : list draft; drafts : gmap jsstring nat;
  currentDomain : option jsstring; currentConfig : option nat; domainsList : list jsstring;
  activeFetchId : nat; discoveryId : nat; accountGeneration : nat; settingsOwner : jsstring; saving : bool;
  view : shown; form_inert : bool; exits : nat; logouts : nat; alerts : list alert;
  discoveries : list nat; loads : list page_load; saves : list save; confirms : list jsstring
}.

Definition start : state := {|
  configs := []; draft_objects := []; drafts := ∅; currentDomain := None; currentConfig := None; domainsList := [];
  activeFetchId := 0; discoveryId := 0; accountGeneration := 0; settingsOwner := []; saving := false; view := Blank; form_inert := false;
  exits := 0; logouts := 0; alerts := []; discoveries := []; loads := []; saves := []; confirms := []
|}.

(** The draft of a page, and the object it edits. *)
Definition open_draft (d : jsstring) (s : state) : option draft := k ← drafts s !! d; draft_objects s !! k.

Definition config_of (k : nat) (s : state) : option jsval := r ← draft_objects s !! k; configs s !! config r.

Definition dirty_object (k : nat) (s : state) : bool :=
  match draft_objects s !! k with
  | Some r => match configs s !! config r with
              | Some v => negb (bool_decide (stringify v = stringify (initial r)))
              | None => false
              end
  | None => false
  end.

(** [dirtyDraft(drafts.get(domain))] *)
Definition dirtyDraft (d : jsstring) (s : state) : bool := match drafts s !! d with Some k => dirty_object k s | None => false end.

Definition dirty_current (s : state) : bool := match currentDomain s with Some d => dirtyDraft d s | None => false end.

(** Whether leaving the site is to be confirmed. *)
Definition beforeunload (s : state) : bool := existsb (λ dk, dirty_object dk.2 s) (map_to_list (drafts s)).

(** Of what it shows, only the inertness of the form acts on the state. *)
Definition enableSave (s : state) : state := { s with form_inert := saving s }.

Definition renderDomainNavigation (s : state) : state := enableSave s.

Definition settingsLoadState (retry : option jsstring) (s : state) : state := { s with view := Notice retry }.

(** The outcome of a request: denied (by an answer 401, or 403), failed in any other way, or its data. *)
Inductive answer (A : Type) := Denied (unauthorized : bool) | Failed | Data (data : A).
Arguments Denied {A} unauthorized.
Arguments Failed {A}.
Arguments Data {A} data.

Section settings.
Context (render : jsstring → jsval → jsval).

Definition renderSettingsForm (d : jsstring) (l : nat) (s : state) : state :=
  { { s with configs := alter (render d) l (configs s) } with view := Form d l }.

(** [draft.initial = structuredClone(draft.config)] *)
Definition settle_draft (k : nat) (s : state) : state :=
  match config_of k s with
  | Some v => { s with draft_objects := alter (λ r, { r with initial := v }) k (draft_objects s) }
  | None => s
  end.

(** A new object, and a new draft in the map. *)
Definition new_config (v : jsval) (s : state) : state := { s with configs := configs s ++ [v] }.

Definition set_draft (d : jsstring) (r : draft) (s : state) : state :=
  { { s with draft_objects := draft_objects s ++ [r] } with drafts := <[d := length (draft_objects s)]> (drafts s) }.

(** [if (saving) return] of [initSettings], up to its request. *)
Definition initSettings (s : state) : state :=
  if saving s then s
  else let id := S (discoveryId s) in { { s with discoveryId := id } with discoveries := discoveries s ++ [id] }.

(** A page is opened: from here its form is shown or its request is sent. *)
Definition page_opened (d : jsstring) (s : state) : state :=
  let s := { { { s with activeFetchId := S (activeFetchId s) } with currentDomain := Some d } with currentConfig := None } in
  { renderDomainNavigation s with form_inert := true }.

Definition requesting (d : jsstring) (s : state) : state :=
  { s with loads := loads s ++ [{| fetch_id := activeFetchId s; load_domain := d; load_generation := accountGeneration s |}] }.

Definition showing (d : jsstring) (l : nat) (s : state) : state :=
  { enableSave (renderSettingsForm d l { s with currentConfig := Some l }) with form_inert := false }.

(** Up to the request; a page with unsaved changes is shown at once. *)
Definition loadDomainSettings (d : jsstring) (s : state) : state :=
  if saving s || negb (bool_decide (d ∈ domainsList s)) then s
  else match open_draft d s with
       | Some r => if dirtyDraft d s then showing d (config r) (page_opened d s) else requesting d (page_opened d s)
       | None => requesting d (page_opened d s)
       end.

Definition page_denied (unauthorized : bool) (s : state) : state :=
  let s := { s with exits := S (exits s) } in
  if unauthorized then { s with logouts := S (logouts s) } else s.

Definition discovered (domains : list jsstring) : list jsstring :=
  List.filter (λ d, bool_decide (d ∈ SETTINGS_PAGES)) (reverse (remove_dups (reverse domains))).

Definition discovery_answered (id : nat) (a : answer (list jsstring)) (s : state) : state :=
  if negb (id =? discoveryId s) then s
  else match a with
       | Denied unauthorized => page_denied unauthorized s
       | Failed => settingsLoadState None s
       | Data domains =>
           let list := discovered domains in
           let s := { { s with domainsList := list } with drafts := filter (λ kv, kv.1 ∈ list) (drafts s) } in
           let current := match currentDomain s with Some d => if bool_decide (d ∈ list) then Some d else head list | None => head list end in
           let s := renderDomainNavigation { s with currentDomain := current } in
           match current with Some d => loadDomainSettings d s | None => settingsLoadState None s end
       end.

Definition load_answered (r : page_load) (a : answer jsval) (s : state) : state :=
  if negb (fetch_id r =? activeFetchId s) then s
  else
    let s := match a with
             | Denied unauthorized => page_denied unauthorized s
             | Failed => settingsLoadState (Some (load_domain r)) s
             | Data v =>
                 let l := length (configs s) in
                 let k := length (draft_objects s) in
                 let s := set_draft (load_domain r) {| config := l; initial := v; made := load_generation r |} (new_config v s) in
                 enableSave (settle_draft k (renderSettingsForm (load_domain r) l { s with currentConfig := Some l }))
             end in
    { s with form_inert := false }.

(** The form is used: its object has a new value. *)
Definition edit (l : nat) (v : jsval) (s : state) : state := enableSave { s with configs := <[l := v]> (configs s) }.

(** [invalid]: a field of the form is invalid. *)
Definition saveDomainSettings (invalid : bool) (s : state) : state :=
  match currentDomain s, currentConfig s with
  | Some d, Some _ =>
      if saving s || negb (dirtyDraft d s) || eqs d (js "index") || invalid then s
      else match drafts s !! d with
           | Some k => match config_of k s with
                       | Some v =>
                           let r := {| save_domain := d; save_draft := k; save_generation := accountGeneration s; submitted := v |} in
                           enableSave { { s with saving := true } with saves := saves s ++ [r] }
                       | None => s
                       end
           | None => s
           end
  | _, _ => s
  end.

(** What the draft is after the answer [savedData]. *)
Definition saved_config (d : jsstring) (savedData : jsval) (submitted : jsval) : jsval :=
  let c := val_or (if bool_decide (d ∈ DOMAIN_MESSAGE_TYPES) then JUndef else savedData) submitted in
  let c := if eqs d (js "cache") then assign (js "clear_password") (JBool false) (assign (js "password") (JStr []) c) else c in
  if eqs d (js "mail") then assign (js "clear_secrets") (JObj []) c else c.

Definition save_answered (r : save) (a : answer jsval) (s : state) : state :=
  if negb (save_generation r =? accountGeneration s) then s
  else
    let s := match a with
             | Data savedData =>
                 let l := length (configs s) in
                 let s := new_config (saved_config (save_domain r) savedData (submitted r)) s in
                 let s := { s with draft_objects := alter (λ x, { x with config := l }) (save_draft r) (draft_objects s) } in
                 let s := renderSettingsForm (save_domain r) l { s with currentConfig := Some l } in
                 let s := settle_draft (save_draft r) s in
                 { s with alerts := alerts s ++ [Saved_success] }
             | _ => { s with alerts := alerts s ++ [Save_failed] }
             end in
    enableSave { s with saving := false }.

(** The click on the button that discards, and the answer to its question. *)
Definition reset_clicked (s : state) : state :=
  match currentDomain s with
  | Some d => if saving s || negb (dirtyDraft d s) then s else { s with confirms := confirms s ++ [d] }
  | None => s
  end.

Definition reset_confirmed (d : jsstring) (confirmed : bool) (s : state) : state :=
  if negb confirmed || negb (bool_decide (currentDomain s = Some d)) || saving s then s
  else loadDomainSettings d { s with drafts := delete d (drafts s) }.

(** [manager]: the name of the account if it is signed in and a manager. *)
Definition authChanged (manager : option jsstring) (s : state) : state :=
  if bool_decide (manager = Some (settingsOwner s)) then s
  else
    let s := { s with settingsOwner := or_else manager [] } in
    let s := { { { s with accountGeneration := S (accountGeneration s) } with activeFetchId := S (activeFetchId s) } with discoveryId := S (discoveryId s) } in
    let s := { { { s with drafts := ∅ } with currentDomain := None } with currentConfig := None } in
    renderDomainNavigation { { { s with saving := false } with domainsList := [] } with view := Blank }.

(** The click on a page of the list, and on the buttons for the next page and the one before. *)
Definition open_page (d : jsstring) (s : state) : state :=
  if bool_decide (currentDomain s = Some d) then s else loadDomainSettings d s.

(** The index of the page is [-1] if it is not in the list. *)
Definition turn_page (forward : bool) (s : state) : state :=
  match currentDomain s with
  | Some d =>
      let i := match list_find (λ x, x = d) (domainsList s) with Some (i, _) => Z.of_nat i | None => (-1)%Z end in
      let j := if forward then (i + 1)%Z else (i - 1)%Z in
      match (if (j <? 0)%Z then None else domainsList s !! Z.to_nat j) with
      | Some d' => loadDomainSettings d' s
      | None => s
      end
  | None => s
  end.

Inductive event :=
  | Open_settings | Open_page (d : jsstring) | Turn_page (forward : bool) | Retry
  | Edit (v : jsval) | Late_edit (l : nat) (v : jsval) | Save (invalid : bool) | Reset_click | Confirm_answer (i : nat) (confirmed : bool)
  | Auth_changed (manager : option jsstring)
  | Discovery_answer (i : nat) (a : answer (list jsstring)) | Load_answer (i : nat) (a : answer jsval) | Save_answer (i : nat) (a : answer jsval).

(** Controls are off while a page is saved, and in an inert form. [Late_edit]: a timer of the form changes an object. *)
Definition step (e : event) (s : state) : option state :=
  match e with
  | Open_settings => Some (initSettings s)
  | Open_page d => if saving s then None else Some (open_page d s)
  | Turn_page f => if saving s then None else Some (turn_page f s)
  | Retry =>
      if form_inert s then None
      else match view s with
           | Notice (Some d) => Some (loadDomainSettings d s)
           | Notice None => Some (initSettings s)
           | _ => None
           end
  | Edit v => match view s with Form _ l => if form_inert s then None else Some (edit l v s) | _ => None end
  | Late_edit l v => if bool_decide (l < length (configs s)) then Some (edit l v s) else None
  | Save invalid => Some (saveDomainSettings invalid s)
  | Reset_click => Some (reset_clicked s)
  | Confirm_answer i b => d ← confirms s !! i; Some (reset_confirmed d b { s with confirms := delete i (confirms s) })
  | Auth_changed m => Some (authChanged m s)
  | Discovery_answer i a => id ← discoveries s !! i; Some (discovery_answered id a { s with discoveries := delete i (discoveries s) })
  | Load_answer i a => r ← loads s !! i; Some (load_answered r a { s with loads := delete i (loads s) })
  | Save_answer i a => r ← saves s !! i; Some (save_answered r a { s with saves := delete i (saves s) })
  end.


(** ** How the parts of the state belong together *)

Record links (s : state) : Prop := {
  li_objects : ∀ k r, draft_objects s !! k = Some r → config r < length (configs s);
  li_config : ∀ k1 k2 r1 r2, draft_objects s !! k1 = Some r1 → draft_objects s !! k2 = Some r2 → config r1 = config r2 → k1 = k2;
  li_drafts : ∀ d k, drafts s !! d = Some k → ∃ r, draft_objects s !! k = Some r ∧ made r = accountGeneration s;
  li_domain : ∀ d1 d2 k, drafts s !! d1 = Some k → drafts s !! d2 = Some k → d1 = d2;
  li_form : ∀ d l, view s = Form d l → l < length (configs s) ∧
    ∀ d' k r, drafts s !! d' = Some k → draft_objects s !! k = Some r → config r = l → d' = d;
  li_saves : ∀ r, r ∈ saves s → save_draft r < length (draft_objects s) ∧ ∀ d, drafts s !! d = Some (save_draft r) → d = save_domain r;
  li_past : ∀ r, r ∈ saves s → save_generation r ≤ accountGeneration s;
  li_loads : ∀ r, r ∈ loads s → fetch_id r ≤ activeFetchId s ∧ (fetch_id r = activeFetchId s → load_generation r = accountGeneration s)
}.

(** A form only shows the draft of its own page, and objects are not shared between drafts. *)
Definition shows (d : jsstring) (l : nat) (s : state) : Prop :=
  l < length (configs s) ∧ ∀ d' k r, drafts s !! d' = Some k → draft_objects s !! k = Some r → config r = l → d' = d.

Lemma render_links d l s : shows d l s → links s → links (renderSettingsForm d l s).
Proof.
  intros Hsh []. split; cbn; try done.
  - intros k r Hk. rewrite length_alter. eauto.
  - intros d' l' [= <- <-]. by rewrite length_alter.
Qed.

Lemma alter_lookup_inv {A} (f : A → A) k (l : list A) i y : alter f k l !! i = Some y → ∃ x, l !! i = Some x ∧ (y = x ∨ y = f x).
Proof.
  destruct (decide (i = k)) as [-> | Hne].
  - rewrite list_lookup_alter_eq. intros (x & Hx & ->)%fmap_Some. eauto.
  - rewrite list_lookup_alter_ne by done. eauto.
Qed.

(** Only the saved state of a draft changes. *)
Lemma settle_links k s : links s → links (settle_draft k s).
Proof.
  intros [H1 H2 H3 H4 H5 H6 H7 H9]. unfold settle_draft. destruct (config_of k s) as [v|]; [|by split].
  assert (∀ i r', alter (λ r, { r with initial := v }) k (draft_objects s) !! i = Some r' →
    ∃ r, draft_objects s !! i = Some r ∧ config r' = config r ∧ made r' = made r) as Hinv.
  { intros i r' (r & Hr & [-> | ->])%alter_lookup_inv; eauto. }
  split; cbn; try done.
  - intros i r' (r & Hr & -> & _)%Hinv. eauto.
  - intros k1 k2 r1 r2 (r1' & Hr1 & -> & _)%Hinv (r2' & Hr2 & -> & _)%Hinv. eauto.
  - intros d i Hd. destruct (H3 d i Hd) as (r & Hr & Hm). destruct (decide (i = k)) as [-> | Hne].
    + rewrite list_lookup_alter_eq, Hr. eexists. split; [done|exact Hm].
    + rewrite list_lookup_alter_ne by done. eauto.
  - intros d l Hv. destruct (H5 d l Hv) as [Hl Hd]. split; [done|]. intros d' i r' Hi (r & Hr & -> & _)%Hinv. eauto.
  - rewrite length_alter. eauto.
Qed.

Lemma new_config_links v s : links s → links (new_config v s).
Proof.
  intros [H1 H2 H3 H4 H5 H6 H7 H9]. split; cbn; try done; rewrite ?length_app; cbn.
  - intros k r Hk. specialize (H1 k r Hk). lia.
  - intros d l Hv. destruct (H5 d l Hv) as [Hl Hd]. split; [lia|done].
Qed.

(** A new draft over an object that is no draft's. *)
Lemma set_draft_links d r s :
  config r < length (configs s) → (∀ k r', draft_objects s !! k = Some r' → config r' ≠ config r) → made r = accountGeneration s →
  (∀ d' l, view s = Form d' l → l ≠ config r) → links s → links (set_draft d r s).
Proof.
  intros Hl Hnew Hm Hv [H1 H2 H3 H4 H5 H6 H7 H9].
  assert (∀ i x, (draft_objects s ++ [r]) !! i = Some x → (draft_objects s !! i = Some x ∧ i < length (draft_objects s)) ∨ (i = length (draft_objects s) ∧ x = r)) as Hinv.
  { intros i x [Hx | [Hi Hx]]%lookup_app_Some; [left; split; [done|by eapply lookup_lt_Some]|right].
    apply list_lookup_singleton_Some in Hx as [Hx <-]. split; [lia|done]. }
  assert (∀ d' k, <[d:=length (draft_objects s)]> (drafts s) !! d' = Some k →
    (d' = d ∧ k = length (draft_objects s)) ∨ (d' ≠ d ∧ drafts s !! d' = Some k ∧ k < length (draft_objects s))) as Hdr.
  { intros d' k [[<- <-] | [Hne Hk]]%lookup_insert_Some; [by left|right]. split_and!; try done. destruct (H3 d' k Hk) as (x & Hx & _). by eapply lookup_lt_Some. }
  split; cbn; try done.
  - intros k x [[Hx _] | [_ ->]]%Hinv; eauto.
  - intros k1 k2 r1 r2 [[Hx1 _] | [-> ->]]%Hinv [[Hx2 _] | [-> ->]]%Hinv Hc; [by eapply H2|by destruct (Hnew k1 r1)|by destruct (Hnew k2 r2)|done].
  - intros d' k [[-> ->] | (Hne & Hk & Hlt)]%Hdr; [exists r; by rewrite list_lookup_middle|].
    destruct (H3 d' k Hk) as (x & Hx & Hmx). exists x. by rewrite lookup_app_l.
  - intros d1 d2 k [[-> ->] | (Hne & Hk & Hlt)]%Hdr [[-> ?] | (Hne' & Hk' & Hlt')]%Hdr; [done|lia|lia|by eapply H4].
  - intros d' l Hf. destruct (H5 d' l Hf) as [Hlt Hd]. split; [done|]. intros d2 k x Hk [[Hx _] | [_ ->]]%Hinv Hc; [|by destruct (Hv d' l Hf)].
    apply Hdr in Hk as [[-> ->] | (Hne & Hk & _)]; [|by eapply Hd]. apply lookup_lt_Some in Hx. lia.
  - intros x Hx. destruct (H6 x Hx) as [Hlt Hd]. rewrite length_app. cbn. split; [lia|].
    intros d' [[-> Hk] | (Hne & Hk & _)]%Hdr; [lia|eauto].
Qed.

(** Fewer drafts, another notice, fewer answers to come: nothing new belongs together. *)
Lemma links_less s s' :
  configs s' = configs s → draft_objects s' = draft_objects s → drafts s' ⊆ drafts s → (view s' = view s ∨ ∀ d l, view s' ≠ Form d l) →
  saves s' ⊆ saves s → accountGeneration s' = accountGeneration s → loads s' ⊆ loads s →
  activeFetchId s' = activeFetchId s → links s → links s'.
Proof.
  intros E1 E2 Hd Hv E3 E5 Hl E6 [H1 H2 H3 H4 H5 H6 H7 H9].
  assert (∀ d k, drafts s' !! d = Some k → drafts s !! d = Some k) as Hd' by (intros d k Hk; by eapply lookup_weaken).
  split; rewrite ?E1, ?E2, ?E5, ?E6; try done.
  - intros d k Hk%Hd'. eauto.
  - intros d1 d2 k H10%Hd' H11%Hd'. eauto.
  - intros d l Hf. destruct Hv as [Hv | Hv]; [|by destruct (Hv d l)]. rewrite Hv in Hf. destruct (H5 d l Hf) as [Hlt Hx].
    split; [done|]. intros d' k r Hk%Hd'. eauto.
  - intros r Hr. destruct (H6 r (E3 r Hr)) as [Hlt Hx]. split; [done|]. intros d Hk%Hd'. eauto.
  - intros r Hr. apply H7. by apply E3.
  - intros r Hr. apply H9. by apply Hl.
Qed.

Ltac less s := apply (links_less s); try done; try (by left); try (by right).

Lemma load_cases d s :
  (loadDomainSettings d s = s ∧ (saving s = true ∨ d ∉ domainsList s)) ∨
  (saving s = false ∧ d ∈ domainsList s ∧ dirtyDraft d s = false ∧ loadDomainSettings d s = requesting d (page_opened d s)) ∨
  (saving s = false ∧ d ∈ domainsList s ∧ dirtyDraft d s = true ∧ ∃ k r, drafts s !! d = Some k ∧ draft_objects s !! k = Some r ∧
   loadDomainSettings d s = showing d (config r) (page_opened d s)).
Proof.
  unfold loadDomainSettings, open_draft, dirtyDraft, dirty_object. destruct (saving s); [left; auto|].
  case_bool_decide as Hd; [|left; auto]. cbn [orb negb]. right.
  destruct (drafts s !! d) as [k|]; [|left; split_and!; reflexivity || done]. cbn [mbind option_bind].
  destruct (draft_objects s !! k) as [r|] eqn:Er; [|left; split_and!; reflexivity || done].
  destruct (configs s !! config r) as [v|]; [|left; split_and!; reflexivity || done].
  destruct (negb _); [right|left; split_and!; reflexivity || done]. split_and!; [reflexivity|done|reflexivity|].
  exists k, r. split_and!; [reflexivity|exact Er|reflexivity].
Qed.

Lemma opened_links d s : links s → links (page_opened d s).
Proof.
  intros []. split; cbn; try done. intros r Hr. destruct (li_loads0 r Hr). split; [lia|]. intros. lia.
Qed.

Lemma load_links d s : links s → links (loadDomainSettings d s).
Proof.
  intros Hs. pose proof (opened_links d s Hs) as Ho.
  destruct (load_cases d s) as [[-> _] | [(_ & _ & _ & ->) | (_ & _ & _ & k & r & Hk & Hr & ->)]]; [done| |].
  - destruct Ho. split; try done. cbn. intros x [Hx | ->%list_elem_of_singleton]%elem_of_app; [by apply li_loads0|done].
  - unfold showing. set (s1 := { page_opened d s with currentConfig := _ }).
    assert (links (renderSettingsForm d (config r) s1)) as Hs1.
    { apply render_links; [|by less (page_opened d s)]. split; [by apply (li_objects _ Hs k)|].
      intros d' k' r' Hk' Hr' Hc. assert (k' = k) as -> by (by eapply (li_config _ Hs)). by eapply (li_domain _ Hs). }
    revert Hs1. generalize (renderSettingsForm d (config r) s1). intros y Hy. by less y.
Qed.

Lemma discovery_links id a s : links s → links (discovery_answered id a s).
Proof.
  intros Hs. unfold discovery_answered. destruct (negb _); [done|]. destruct a as [u| |ds].
  - unfold page_denied. destruct u; by less s.
  - less s.
  - cbv zeta. set (list := discovered ds). set (s1 := { { s with domainsList := list } with drafts := _ }).
    assert (links s1) as Hs1 by (less s; apply map_filter_subseteq).
    generalize dependent s1. intros s1 Hs1. set (c := match currentDomain s1 with Some _ => _ | None => _ end).
    destruct c as [d|]; [apply load_links|]; less s1.
Qed.

Lemma load_answer_links r a s :
  (fetch_id r = activeFetchId s → load_generation r = accountGeneration s) → links s → links (load_answered r a s).
Proof.
  intros Hg Hs. unfold load_answered. destruct (negb _) eqn:E; [done|]. apply negb_false_iff, Nat.eqb_eq in E. specialize (Hg E). cbv zeta.
  match goal with |- links { ?x with form_inert := false } => assert (links x) as Hx; [|by less x] end.
  destruct a as [u| |v].
  - unfold page_denied. destruct u; by less s.
  - less s.
  - set (d := load_domain r). set (l := length (configs s)).
    set (x := {| config := l; initial := v; made := load_generation r |}). set (s1 := set_draft d x (new_config v s)).
    assert (links s1) as Hs1.
    { apply set_draft_links; [cbn; rewrite length_app; cbn; lia| |done| |by apply new_config_links].
      - intros k r' Hk. cbn in Hk. pose proof (li_objects _ Hs k r' Hk). cbn. lia.
      - intros d' l' Hv. destruct (li_form _ Hs d' l' Hv) as [Hlt _]. cbn. lia. }
    match goal with |- links (enableSave ?y) => assert (links y) as Hy; [|by less y] end.
    apply settle_links, render_links; [|by less s1]. split; [cbn; rewrite length_app; cbn; lia|].
    intros d' k' r' Hk' Hr' Hc. assert (k' = length (draft_objects s)) as ->.
    { apply (li_config _ Hs1 k' _ r' x Hr'); [cbn; by rewrite list_lookup_middle|exact Hc]. }
    eapply (li_domain _ Hs1); [exact Hk'|]. cbn. by rewrite lookup_insert_eq.
Qed.

Lemma edit_links l v s : links s → links (edit l v s).
Proof.
  intros [H1 H2 H3 H4 H5 H6 H7 H9]. split; cbn; try done.
  - intros k r Hk. rewrite length_insert. eauto.
  - intros d l' Hf. rewrite length_insert. eauto.
Qed.

Definition current_saves (s : state) : list save := List.filter (λ r, save_generation r =? accountGeneration s) (saves s).

Lemma save_links invalid s : links s → links (saveDomainSettings invalid s).
Proof.
  intros Hs. unfold saveDomainSettings. destruct (currentDomain s) as [d|]; [|done]. destruct (currentConfig s) as [c|]; [|done].
  destruct (_ || invalid) eqn:E; [done|]. destruct (drafts s !! d) as [k|] eqn:Ek; [|done]. destruct (config_of k s) as [v|] eqn:Ev; [|done].
  destruct Hs as [H1 H2 H3 H4 H5 H6 H7 H9]. split; cbn; try done.
  - intros x [Hx | ->%list_elem_of_singleton]%elem_of_app; [eauto|]. cbn. split; [|eauto].
    destruct (H3 d k Ek) as (r & Hr & _). by eapply lookup_lt_Some.
  - intros x [Hx | ->%list_elem_of_singleton]%elem_of_app; [eauto|done].
Qed.

(** The submissions of the account, without one of them. *)
Lemma filter_delete {A} (P : A → bool) i r l :
  l !! i = Some r → length (List.filter P l) = length (List.filter P (delete i l)) + (if P r then 1 else 0).
Proof.
  intros Hi. rewrite delete_take_drop, List.filter_app, length_app. rewrite <- (take_drop_middle l i r Hi) at 1.
  rewrite List.filter_app, length_app. cbn. destruct (P r); cbn; lia.
Qed.

Lemma delete_subset {A} i (l : list A) : delete i l ⊆ l.
Proof. intros x Hx. eapply elem_of_sublist; [exact Hx|apply sublist_delete]. Qed.

(** The draft that was saved edits a new object. *)
Lemma replaced_links k r l s :
  draft_objects s !! k = Some r → l < length (configs s) → (∀ i x, draft_objects s !! i = Some x → config x ≠ l) →
  (∀ d l', view s = Form d l' → l' ≠ l) → links s →
  links { s with draft_objects := alter (λ x, { x with config := l }) k (draft_objects s) }.
Proof.
  intros Hk Hl Hnew Hv [H1 H2 H3 H4 H5 H6 H7 H9].
  assert (∀ i x, alter (λ x, { x with config := l }) k (draft_objects s) !! i = Some x →
    (i ≠ k ∧ draft_objects s !! i = Some x) ∨ (i = k ∧ config x = l ∧ made x = made r)) as Hinv.
  { intros i x. destruct (decide (i = k)) as [-> | Hne]; [|rewrite list_lookup_alter_ne by done; auto].
    rewrite list_lookup_alter_eq, Hk. intros [= <-]. auto. }
  split; cbn; try done.
  - intros i x [[_ Hx] | (_ & -> & _)]%Hinv; eauto.
  - intros i1 i2 x1 x2 [[Hn1 Hx1] | (-> & Hc1 & _)]%Hinv [[Hn2 Hx2] | (-> & Hc2 & _)]%Hinv Hc; eauto; rewrite ?Hc1, ?Hc2 in Hc.
    + by destruct (Hnew i1 x1).
    + by destruct (Hnew i2 x2).
  - intros d i Hd. destruct (H3 d i Hd) as (x & Hx & Hm). destruct (decide (i = k)) as [-> | Hne].
    + rewrite list_lookup_alter_eq, Hx. eexists. by split.
    + rewrite list_lookup_alter_ne by done. eauto.
  - intros d l' Hf. destruct (H5 d l' Hf) as [Hlt Hd]. split; [done|]. intros d' i x Hi [[_ Hx] | (-> & Hc & _)]%Hinv Heq; [eauto|].
    destruct (Hv d l' Hf). congruence.
  - intros x Hx. rewrite length_alter. eauto.
Qed.

Lemma save_answer_links i r a s : saves s !! i = Some r → links s → links (save_answered r a { s with saves := delete i (saves s) }).
Proof.
  intros Hi Hs. set (s0 := { s with saves := _ }). assert (links s0) as Hs0 by (less s; apply delete_subset).
  unfold save_answered. destruct (negb _); [done|]. cbv zeta.
  match goal with |- links (enableSave { ?x with saving := false }) => assert (links x) as Hx; [|by less x] end.
  destruct a as [u| |data]; try (by less s0).
  destruct (li_saves _ Hs r) as [Hlt Hdom]; [by eapply list_elem_of_lookup_2|]. destruct (lookup_lt_is_Some_2 _ _ Hlt) as [x Hx].
  set (l := length (configs s0)). set (v := saved_config _ _ _). pose proof (new_config_links v s0 Hs0) as Hn.
  assert (links { new_config v s0 with draft_objects := alter (λ x, { x with config := l }) (save_draft r) (draft_objects s) }) as Hr.
  { apply (replaced_links (save_draft r) x l (new_config v s0) Hx); [cbn; rewrite length_app; cbn; lia| | |exact Hn].
    - intros j y Hy. cbn in Hy. pose proof (li_objects _ Hs j y Hy). cbn in l. lia.
    - intros d l' Hf. destruct (li_form _ Hs d l' Hf) as [Hll _]. cbn in l. lia. }
  set (s1 := { new_config v s0 with draft_objects := _ }) in *.
  match goal with |- links { ?y with alerts := _ } => assert (links y) as Hy; [|by less y] end.
  apply settle_links, render_links; [|by less s1]. split; [cbn; rewrite length_app; cbn; lia|]. intros d' k' r' Hk' Hr' Hc.
  assert (k' = save_draft r) as ->; [|by apply Hdom]. apply (li_config _ Hr k' _ r' { x with config := l } Hr'); [|exact Hc].
  cbn. by rewrite list_lookup_alter_eq, Hx.
Qed.

Lemma auth_links m s : links s → links (authChanged m s).
Proof.
  intros [H1 H2 H3 H4 H5 H6 H7 H9]. unfold authChanged. case_bool_decide; [by split|]. cbv zeta. split; cbn; try done.
  - intros r Hr. destruct (H6 r Hr). by split.
  - intros r Hr. specialize (H7 r Hr). lia.
  - intros r Hr. destruct (H9 r Hr). split; [lia|]. intros. lia.
Qed.

Lemma reset_links d b s : links s → links (reset_confirmed d b s).
Proof. intros Hs. unfold reset_confirmed. destruct (_ || _); [done|]. apply load_links. less s. apply delete_subseteq. Qed.

Lemma step_links e s s' : step e s = Some s' → links s → links s'.
Proof.
  intros He Hs. destruct e; cbn [step] in He; try (apply (inj Some) in He as <-).
  - unfold initSettings. destruct (saving s); [done|]. by less s.
  - destruct (saving s); [done|]. apply (inj Some) in He as <-. unfold open_page. case_bool_decide; [done|by apply load_links].
  - destruct (saving s); [done|]. apply (inj Some) in He as <-. unfold turn_page. destruct (currentDomain s); [|done]. cbv zeta.
    destruct (if (_ <? 0)%Z then _ else _); [by apply load_links|done].
  - destruct (form_inert s); [done|]. destruct (view s) as [| |[d|]]; try done; apply (inj Some) in He as <-; [by apply load_links|].
    unfold initSettings. destruct (saving s); [done|]. by less s.
  - destruct (view s) as [|d l|]; try done. destruct (form_inert s); [done|]. apply (inj Some) in He as <-. by apply edit_links.
  - case_bool_decide; [|done]. apply (inj Some) in He as <-. by apply edit_links.
  - by apply save_links.
  - unfold reset_clicked. destruct (currentDomain s); [|done]. destruct (_ || _); [done|]. by less s.
  - destruct (confirms s !! i) as [d|]; [|done]. apply (inj Some) in He as <-. apply reset_links. by less s.
  - by apply auth_links.
  - destruct (discoveries s !! i) as [id|]; [|done]. apply (inj Some) in He as <-. apply discovery_links. by less s.
  - destruct (loads s !! i) as [r|] eqn:Ei; [|done]. apply (inj Some) in He as <-.
    apply load_answer_links; [|less s; apply delete_subset]. apply (li_loads _ Hs). by eapply list_elem_of_lookup_2.
  - destruct (saves s !! i) as [r|] eqn:Ei; [|done]. apply (inj Some) in He as <-. by apply save_answer_links.
Qed.

(** ** One submission at a time *)

Definition counted (s : state) : Prop := length (current_saves s) = if saving s then 1 else 0.

Lemma counted_as s s' :
  saves s' = saves s → saving s' = saving s → accountGeneration s' = accountGeneration s → counted s → counted s'.
Proof. unfold counted, current_saves. by intros -> -> ->. Qed.

Lemma load_saves d s :
  saves (loadDomainSettings d s) = saves s ∧ saving (loadDomainSettings d s) = saving s ∧
  accountGeneration (loadDomainSettings d s) = accountGeneration s.
Proof. destruct (load_cases d s) as [[-> _] | [(_ & _ & _ & ->) | (_ & _ & _ & k & r & _ & _ & ->)]]; done. Qed.

Lemma load_counted d s : counted s → counted (loadDomainSettings d s).
Proof. destruct (load_saves d s) as (E1 & E2 & E3). by apply counted_as. Qed.

Lemma settle_saves k s :
  saves (settle_draft k s) = saves s ∧ saving (settle_draft k s) = saving s ∧ accountGeneration (settle_draft k s) = accountGeneration s ∧
  loads (settle_draft k s) = loads s ∧ activeFetchId (settle_draft k s) = activeFetchId s.
Proof. unfold settle_draft. by destruct (config_of k s). Qed.

Lemma discovery_counted id a s : counted s → counted (discovery_answered id a s).
Proof.
  intros Hs. unfold discovery_answered. destruct (negb _); [done|]. destruct a as [u| |ds]; [by destruct u|done|]. cbv zeta.
  match goal with |- context [match ?c with Some d => loadDomainSettings d ?x | None => _ end] => destruct c; [apply load_counted|] end; done.
Qed.

Lemma load_answer_saves r a s :
  saves (load_answered r a s) = saves s ∧ saving (load_answered r a s) = saving s ∧
  accountGeneration (load_answered r a s) = accountGeneration s ∧ loads (load_answered r a s) = loads s ∧
  activeFetchId (load_answered r a s) = activeFetchId s.
Proof.
  unfold load_answered. destruct (negb _); [done|]. cbv zeta. destruct a as [u| |v]; [by destruct u|done|].
  match goal with |- context [settle_draft ?k ?y] => destruct (settle_saves k y) as (E1 & E2 & E3 & E4 & E5); revert E1 E2 E3 E4 E5; generalize (settle_draft k y) end.
  intros z E1 E2 E3 E4 E5. split_and!; [exact E1|exact E2|exact E3|exact E4|exact E5].
Qed.

Lemma save_counted invalid s : counted s → counted (saveDomainSettings invalid s).
Proof.
  intros Hs. unfold saveDomainSettings. destruct (currentDomain s) as [d|]; [|done]. destruct (currentConfig s) as [c|]; [|done].
  destruct (saving s) eqn:E; [done|]. cbn [orb]. destruct (_ || invalid); [done|]. destruct (drafts s !! d) as [k|]; [|done]. destruct (config_of k s) as [v|]; [|done].
  unfold counted, current_saves in *. rewrite E in Hs. cbn. rewrite List.filter_app, length_app, Hs. cbn. by rewrite Nat.eqb_refl.
Qed.

Lemma save_answer_cases r a s :
  (save_generation r ≠ accountGeneration s ∧ save_answered r a s = s) ∨
  (save_generation r = accountGeneration s ∧ saves (save_answered r a s) = saves s ∧ saving (save_answered r a s) = false ∧
   accountGeneration (save_answered r a s) = accountGeneration s ∧ loads (save_answered r a s) = loads s ∧
   activeFetchId (save_answered r a s) = activeFetchId s).
Proof.
  unfold save_answered. destruct (negb _) eqn:E; [left; by apply negb_true_iff, Nat.eqb_neq in E|right].
  apply negb_false_iff, Nat.eqb_eq in E. cbv zeta. split; [done|]. destruct a as [u| |data]; try done.
  match goal with |- context [settle_draft ?k ?y] => destruct (settle_saves k y) as (E1 & E2 & E3 & E4 & E5); revert E1 E2 E3 E4 E5; generalize (settle_draft k y) end.
  intros z E1 E2 E3 E4 E5. split_and!; [exact E1|done|exact E3|exact E4|exact E5].
Qed.

Lemma save_answer_counted i r a s :
  saves s !! i = Some r → counted s → counted (save_answered r a { s with saves := delete i (saves s) }).
Proof.
  intros Hi Hs. unfold counted, current_saves in *. rewrite (filter_delete _ _ _ _ Hi) in Hs.
  destruct (save_answer_cases r a { s with saves := delete i (saves s) }) as [[Hg ->] | (Hg & E1 & E2 & E3 & _)]; cbn in Hg.
  - apply Nat.eqb_neq in Hg. rewrite Hg in Hs. cbn. lia.
  - rewrite E1, E2, E3. cbn. apply Nat.eqb_eq in Hg. rewrite Hg in Hs. destruct (saving s); lia.
Qed.

Lemma auth_counted m s : links s → counted s → counted (authChanged m s).
Proof.
  intros Hl Hs. unfold authChanged. case_bool_decide; [done|]. cbv zeta. unfold counted, current_saves. cbn.
  destruct (List.filter _ (saves s)) as [|r l] eqn:E; [done|]. exfalso.
  assert (r ∈ List.filter (λ r, save_generation r =? S (accountGeneration s)) (saves s)) as Hr by (rewrite E; by left).
  apply list_elem_of_In, filter_In in Hr as [Hr Hg%Nat.eqb_eq]. apply list_elem_of_In, (li_past _ Hl) in Hr. lia.
Qed.

Lemma step_counted e s s' : step e s = Some s' → links s → counted s → counted s'.
Proof.
  intros He Hl Hs. destruct e; cbn [step] in He; try (apply (inj Some) in He as <-).
  - unfold initSettings. destruct (saving s) eqn:E; [done|]. by apply (counted_as s).
  - destruct (saving s); [done|]. apply (inj Some) in He as <-. unfold open_page. case_bool_decide; [done|by apply load_counted].
  - destruct (saving s); [done|]. apply (inj Some) in He as <-. unfold turn_page. destruct (currentDomain s); [|done]. cbv zeta.
    destruct (if (_ <? 0)%Z then _ else _); [by apply load_counted|done].
  - destruct (form_inert s); [done|]. destruct (view s) as [| |[d|]]; try done; apply (inj Some) in He as <-; [by apply load_counted|].
    unfold initSettings. destruct (saving s) eqn:E; [done|]. by apply (counted_as s).
  - destruct (view s) as [|d l|]; try done. destruct (form_inert s); [done|]. by apply (inj Some) in He as <-.
  - case_bool_decide; [|done]. by apply (inj Some) in He as <-.
  - by apply save_counted.
  - unfold reset_clicked. destruct (currentDomain s); [|done]. by destruct (_ || _).
  - destruct (confirms s !! i) as [d|]; [|done]. apply (inj Some) in He as <-. unfold reset_confirmed. destruct (_ || _); [done|]. by apply load_counted.
  - by apply auth_counted.
  - destruct (discoveries s !! i) as [id|]; [|done]. apply (inj Some) in He as <-. by apply discovery_counted.
  - destruct (loads s !! i) as [r|] eqn:Ei; [|done]. apply (inj Some) in He as <-.
    destruct (load_answer_saves r a { s with loads := delete i (loads s) }) as (E1 & E2 & E3 & _). by apply (counted_as s).
  - destruct (saves s !! i) as [r|] eqn:Ei; [|done]. apply (inj Some) in He as <-. by apply save_answer_counted.
Qed.

(** ** Without changes behind the form's back *)

Record quiet (s : state) : Prop := {
  qu_inert : saving s = true → form_inert s = true;
  qu_ids : NoDup (fetch_id <$> loads s);
  qu_loads : ∀ r, r ∈ loads s → fetch_id r = activeFetchId s → saving s = false ∧ currentConfig s = None ∧
    dirtyDraft (load_domain r) s = false ∧ (form_inert s = true ∨ ∀ d l, view s ≠ Form d l);
  qu_sent : ∀ r, r ∈ current_saves s → ∀ k, drafts s !! save_domain r = Some k → k = save_draft r ∧ config_of k s = Some (submitted r)
}.

Lemma no_saves s : counted s → saving s = false → current_saves s = [].
Proof. unfold counted. intros Hc Hs. rewrite Hs in Hc. by apply nil_length_inv. Qed.

(** Nothing is saved, and no page is loaded. *)
Lemma quiet_idle s :
  saving s = false → counted s → NoDup (fetch_id <$> loads s) → (∀ r, r ∈ loads s → fetch_id r ≠ activeFetchId s) → quiet s.
Proof.
  intros Hs Hc Hn Hl. split; [congruence|done| |].
  - intros r Hr He. by destruct (Hl r Hr).
  - intros r Hr. rewrite (no_saves s Hc Hs) in Hr. by apply elem_of_nil in Hr.
Qed.

Lemma dirty_less s s' d :
  configs s' = configs s → draft_objects s' = draft_objects s → drafts s' ⊆ drafts s → dirtyDraft d s = false → dirtyDraft d s' = false.
Proof.
  intros E1 E2 Hd. unfold dirtyDraft. destruct (drafts s' !! d) as [k|] eqn:Ek; [|done].
  rewrite (lookup_weaken _ _ _ _ Ek Hd). unfold dirty_object. by rewrite E1, E2.
Qed.

Lemma quiet_less s s' :
  configs s' = configs s → draft_objects s' = draft_objects s → drafts s' ⊆ drafts s → view s' = view s → form_inert s' = form_inert s →
  current_saves s' ⊆ current_saves s → saving s' = saving s → sublist (loads s') (loads s) →
  activeFetchId s' = activeFetchId s → currentConfig s' = currentConfig s → quiet s → quiet s'.
Proof.
  intros E1 E2 Hd E3 E4 Hs E5 Hl E6 E7 [H1 H2 H3 H4]. split; rewrite ?E3, ?E4, ?E5, ?E6, ?E7.
  - done.
  - eapply sublist_NoDup; [exact H2|by apply fmap_sublist].
  - intros r Hr He. destruct (H3 r) as (Ha & Hb & Hc & Hf); [by eapply elem_of_sublist|done|]. split_and!; try done. by eapply dirty_less.
  - intros r Hr k Hk. destruct (H4 r (Hs r Hr) k) as [-> Hv]; [by eapply lookup_weaken|]. split; [done|]. unfold config_of in *. by rewrite E1, E2.
Qed.

Ltac less_quiet s := apply (quiet_less s); try done.

(** The pages being loaded are older than the one that is opened. *)
Lemma opened_loads d s : links s → ∀ r, r ∈ loads (page_opened d s) → fetch_id r ≠ activeFetchId (page_opened d s).
Proof. intros Hl r Hr. destruct (li_loads _ Hl r Hr). cbn. lia. Qed.

Lemma load_fresh d s :
  saving s = false → d ∈ domainsList s → links s → counted s → NoDup (fetch_id <$> loads s) → quiet (loadDomainSettings d s).
Proof.
  intros Hs Hin Hl Hc Hn. pose proof (opened_loads d s Hl) as Ho. pose proof (load_counted d s Hc) as Hc'.
  destruct (load_cases d s) as [[_ [Hf | Hf]] | [(_ & _ & Hd & E) | (_ & _ & _ & k & r & _ & _ & E)]]; [congruence|done| |]; rewrite E in *.
  - split; cbn; try (rewrite Hs; done).
    + rewrite fmap_app. apply NoDup_app. split_and!; [done| |apply NoDup_singleton].
      intros i (x & -> & Hx)%list_elem_of_fmap Hi. apply list_elem_of_singleton in Hi. cbn in Hi. by destruct (Ho x Hx).
    + intros x [Hx | ->%list_elem_of_singleton]%elem_of_app Hi; [by destruct (Ho x Hx)|]. split_and!; [done|done|exact Hd|by left].
    + intros x Hx. pose proof (no_saves s Hc Hs) as Hx'. change (x ∈ current_saves s) in Hx. rewrite Hx' in Hx. by apply elem_of_nil in Hx.
  - by apply quiet_idle.
Qed.

Lemma load_quiet d s : links s → counted s → quiet s → quiet (loadDomainSettings d s).
Proof.
  intros Hl Hc Hq. destruct (saving s) eqn:Es; [unfold loadDomainSettings; by rewrite Es|].
  destruct (decide (d ∈ domainsList s)) as [Hd | Hd]; [by apply load_fresh; [| | | |apply Hq]|].
  unfold loadDomainSettings. rewrite Es, bool_decide_false by done. done.
Qed.

(** While a page is saved none is loaded. *)
Lemma saving_loads s : quiet s → saving s = true → ∀ r, r ∈ loads s → fetch_id r ≠ activeFetchId s.
Proof. intros Hq Hs r Hr He. destruct (qu_loads _ Hq r Hr He) as [Hf _]. congruence. Qed.

Lemma discovery_quiet id a s : links s → counted s → quiet s → quiet (discovery_answered id a s).
Proof.
  intros Hl Hc Hq. unfold discovery_answered. destruct (negb _); [done|]. destruct a as [u| |ds].
  - unfold page_denied. destruct u; by less_quiet s.
  - destruct Hq as [H1 H2 H3 H4]. split; try done. intros r Hr He. destruct (H3 r Hr He) as (Ha & Hb & Hd & _). split_and!; try done. by right.
  - cbv zeta. set (list := discovered ds). set (s1 := { { s with domainsList := list } with drafts := _ }).
    assert (links s1) as Hl1 by (less s; apply map_filter_subseteq). assert (quiet s1) as Hq1 by (less_quiet s; apply map_filter_subseteq).
    assert (counted s1) as Hc1 by done. assert (domainsList s1 = list) as El by done. clear Hl Hc Hq. generalize dependent s1. intros s1 Hl1 Hq1 Hc1 El. clear s.
    set (c := match currentDomain s1 with Some _ => _ | None => _ end).
    assert (∀ d, c = Some d → d ∈ list) as Hin.
    { intros d. subst c. destruct (currentDomain s1) as [d0|]; [case_bool_decide as Hd0; [by intros [= <-]|]|]; intros Hd; by apply head_Some_elem_of in Hd. }
    set (s2 := renderDomainNavigation { s1 with currentDomain := c }). assert (links s2) as Hl2 by (by less s1).
    assert (counted s2) as Hc2 by done. destruct c as [d|] eqn:Ed.
    + destruct (saving s1) eqn:Es; [|apply load_fresh; try done; [cbn; rewrite El; by apply Hin|apply Hq1]].
      apply load_quiet; [done|done|]. pose proof (saving_loads s1 Hq1 Es) as Hld. destruct Hq1 as [H1 H2 H3 H4].
      split; try done. intros r Hr He. by destruct (Hld r Hr).
    + destruct Hq1 as [H1 H2 H3 H4]. split; try done. intros r Hr He. destruct (H3 r Hr He) as (Ha & Hb & Hd & _).
      split_and!; [done|done|exact Hd|by right].
Qed.

Lemma delete_ids i l : NoDup (fetch_id <$> l) → NoDup (fetch_id <$> delete i l).
Proof. intros Hn. eapply sublist_NoDup; [exact Hn|]. apply fmap_sublist, sublist_delete. Qed.

(** The answer to a page that is awaited is the last one of its number. *)
Lemma answered_ids i r l : l !! i = Some r → NoDup (fetch_id <$> l) → ∀ x, x ∈ delete i l → fetch_id x ≠ fetch_id r.
Proof.
  intros Hi Hn x Hx He. rewrite <- (take_drop_middle l i r Hi), fmap_app, fmap_cons in Hn.
  apply NoDup_app in Hn as (_ & Hd & [Hr _]%NoDup_cons). rewrite delete_take_drop in Hx. apply elem_of_app in Hx as [Hx | Hx].
  - apply (Hd (fetch_id x)); [by apply list_elem_of_fmap_2|]. rewrite He. by left.
  - apply Hr. rewrite <- He. by apply list_elem_of_fmap_2.
Qed.

Lemma load_answer_quiet i r a s :
  loads s !! i = Some r → counted s → quiet s → quiet (load_answered r a { s with loads := delete i (loads s) }).
Proof.
  intros Hi Hc Hq. set (s0 := { s with loads := _ }). assert (quiet s0) as Hq0 by (less_quiet s; apply sublist_delete).
  destruct (Nat.eq_dec (fetch_id r) (activeFetchId s)) as [He | Hne].
  - destruct (qu_loads _ Hq r) as [Hs _]; [by eapply list_elem_of_lookup_2|done|].
    destruct (load_answer_saves r a s0) as (E1 & E2 & E3 & E4 & E5). apply quiet_idle.
    + by rewrite E2.
    + by apply (counted_as s).
    + rewrite E4. apply delete_ids, Hq.
    + rewrite E4, E5. intros x Hx. change (activeFetchId s0) with (activeFetchId s). rewrite <- He. eapply answered_ids; [exact Hi|apply Hq|exact Hx].
  - apply Nat.eqb_neq in Hne. unfold load_answered. change (activeFetchId s0) with (activeFetchId s). by rewrite Hne.
Qed.

Lemma save_answer_quiet i r a s :
  saves s !! i = Some r → links s → counted s → quiet s → quiet (save_answered r a { s with saves := delete i (saves s) }).
Proof.
  intros Hi Hl Hc Hq. pose proof (save_answer_counted i r a s Hi Hc) as Hc'. set (s0 := { s with saves := _ }) in *.
  destruct (save_answer_cases r a s0) as [[_ E] | (Hg & E1 & E2 & E3 & E4 & E5)].
  - rewrite E. less_quiet s. cbn. intros x Hx. apply list_elem_of_In, filter_In in Hx as [Hx%list_elem_of_In%delete_subset Hg].
    apply list_elem_of_In, filter_In. split; [by apply list_elem_of_In|done].
  - assert (saving s = true) as Hs.
    { destruct (saving s) eqn:Es; [done|]. pose proof (no_saves s Hc Es) as Hn. assert (r ∈ current_saves s) as Hr.
      { apply list_elem_of_In, filter_In. split; [by apply list_elem_of_In; eapply list_elem_of_lookup_2|by apply Nat.eqb_eq]. }
      rewrite Hn in Hr. by apply elem_of_nil in Hr. }
    apply quiet_idle; [done|done| |]; rewrite E4, ?E5; [apply Hq|exact (saving_loads s Hq Hs)].
Qed.

Lemma save_quiet invalid s : links s → counted s → quiet s → quiet (saveDomainSettings invalid s).
Proof.
  intros Hl Hc Hq. pose proof (save_counted invalid s Hc) as Hc'. unfold saveDomainSettings in *.
  destruct (currentDomain s) as [d|]; [|done]. destruct (currentConfig s) as [c|] eqn:Ecc; [|done].
  destruct (saving s) eqn:Es; [done|]. cbn [orb] in *. destruct (_ || invalid); [done|]. destruct (drafts s !! d) as [k|] eqn:Ek; [|done].
  destruct (config_of k s) as [v|] eqn:Ev; [|done]. split; try done.
  - apply Hq.
  - intros x Hx He. destruct (qu_loads _ Hq x Hx He) as (_ & Hn & _). congruence.
  - intros x Hx k' Hk'. pose proof (no_saves s Hc Es) as Hn. unfold current_saves in *. cbn in Hx. rewrite List.filter_app, Hn in Hx. cbn in Hx.
    rewrite Nat.eqb_refl in Hx. apply list_elem_of_singleton in Hx as ->. cbn in *. rewrite Ek in Hk'. injection Hk' as <-. split; [done|exact Ev].
Qed.

(** A form that can be used is that of a page that neither loads nor is saved. *)
Lemma edit_quiet d l v s : view s = Form d l → form_inert s = false → links s → counted s → quiet s → quiet (edit l v s).
Proof.
  intros Hv Hi Hl Hc Hq. assert (saving s = false) as Hs.
  { destruct (saving s) eqn:E; [|done]. pose proof (qu_inert _ Hq E). congruence. }
  apply quiet_idle; [done|done|apply Hq|]. intros r Hr He. destruct (qu_loads _ Hq r Hr He) as (_ & _ & _ & [Hf | Hf]); [congruence|].
  by destruct (Hf d l).
Qed.

Lemma auth_quiet m s : links s → counted s → quiet s → quiet (authChanged m s).
Proof.
  intros Hl Hc Hq. pose proof (auth_counted m s Hl Hc) as Hc'. unfold authChanged in *. case_bool_decide; [done|]. cbv zeta in *.
  apply quiet_idle; [done|done|apply Hq|]. intros r Hr. destruct (li_loads _ Hl r Hr). cbn. lia.
Qed.

Definition behind (e : event) : bool := match e with Late_edit _ _ => true | _ => false end.

Lemma step_quiet e s s' : step e s = Some s' → behind e = false → links s → counted s → quiet s → quiet s'.
Proof.
  intros He Hb Hl Hc Hq. destruct e; cbn [step] in He; try (apply (inj Some) in He as <-).
  - unfold initSettings. destruct (saving s); [done|]. by less_quiet s.
  - destruct (saving s); [done|]. apply (inj Some) in He as <-. unfold open_page. case_bool_decide; [done|by apply load_quiet].
  - destruct (saving s); [done|]. apply (inj Some) in He as <-. unfold turn_page. destruct (currentDomain s); [|done]. cbv zeta.
    destruct (if (_ <? 0)%Z then _ else _); [by apply load_quiet|done].
  - destruct (form_inert s); [done|]. destruct (view s) as [| |[d|]]; try done; apply (inj Some) in He as <-; [by apply load_quiet|].
    unfold initSettings. destruct (saving s); [done|]. by less_quiet s.
  - destruct (view s) as [|d l|] eqn:Ev; try done. destruct (form_inert s) eqn:Ei; [done|]. apply (inj Some) in He as <-. by eapply edit_quiet.
  - done.
  - by apply save_quiet.
  - unfold reset_clicked. destruct (currentDomain s); [|done]. destruct (_ || _); [done|]. by less_quiet s.
  - destruct (confirms s !! i) as [d|]; [|done]. apply (inj Some) in He as <-. unfold reset_confirmed. set (s0 := { s with confirms := _ }).
    assert (links s0) as Hl0 by (by less s). assert (quiet s0) as Hq0 by (by less_quiet s). assert (counted s0) as Hc0 by done.
    clear Hl Hc Hq. generalize dependent s0. intros s0 Hl0 Hq0 Hc0. destruct (_ || _); [done|].
    apply load_quiet; [less s0; apply delete_subseteq|done|less_quiet s0; apply delete_subseteq].
  - by apply auth_quiet.
  - destruct (discoveries s !! i) as [id|]; [|done]. apply (inj Some) in He as <-. apply discovery_quiet; [by less s|done|by less_quiet s].
  - destruct (loads s !! i) as [r|] eqn:Ei; [|done]. apply (inj Some) in He as <-. by apply load_answer_quiet.
  - destruct (saves s !! i) as [r|] eqn:Ei; [|done]. apply (inj Some) in He as <-. by apply save_answer_quiet.
Qed.

(** ** Unsaved changes *)

(** The draft of a page is the same object with the same contents, up to what the page's renderer sets. *)
Definition draft_kept (d : jsstring) (k : nat) (s s' : state) : Prop :=
  drafts s' !! d = Some k ∧ draft_objects s' !! k = draft_objects s !! k ∧
  (config_of k s' = config_of k s ∨ config_of k s' = render d <$> config_of k s).

Lemma kept_same d k s s' :
  drafts s !! d = Some k → drafts s' !! d = Some k → draft_objects s' !! k = draft_objects s !! k →
  (∀ r, draft_objects s !! k = Some r → configs s' !! config r = configs s !! config r) → draft_kept d k s s'.
Proof.
  intros Hk Hk' Ho Hc. split_and!; [done|done|left]. unfold config_of. rewrite Ho. destruct (draft_objects s !! k) as [r|]; [|done]. by apply Hc.
Qed.

Lemma load_kept d d' k s : links s → drafts s !! d = Some k → draft_kept d k s (loadDomainSettings d' s).
Proof.
  intros Hl Hk. destruct (load_cases d' s) as [[-> _] | [(_ & _ & _ & ->) | (_ & _ & _ & k' & r & Hk' & Hr & ->)]]; [by apply kept_same|by apply kept_same|].
  destruct (decide (d' = d)) as [-> | Hne].
  - rewrite Hk in Hk'. injection Hk' as <-. split_and!; [done|done|right]. unfold config_of. cbn. rewrite Hr. cbn. apply list_lookup_alter_eq.
  - apply kept_same; [done|done|done|]. intros x Hx. cbn. apply list_lookup_alter_ne. intros Hc.
    assert (k' = k) as -> by (by eapply (li_config _ Hl)). destruct Hne. by eapply (li_domain _ Hl).
Qed.

Lemma settle_other k k' s : k ≠ k' → draft_objects (settle_draft k' s) !! k = draft_objects s !! k.
Proof. intros Hne. unfold settle_draft. destruct (config_of k' s); [|done]. cbn. by rewrite list_lookup_alter_ne. Qed.

Lemma settle_rest k s : drafts (settle_draft k s) = drafts s ∧ configs (settle_draft k s) = configs s.
Proof. unfold settle_draft. by destruct (config_of k s). Qed.

Lemma load_answer_kept r a d k s :
  links s → drafts s !! d = Some k → (fetch_id r = activeFetchId s → load_domain r ≠ d) → draft_kept d k s (load_answered r a s).
Proof.
  intros Hl Hk Hd. unfold load_answered. destruct (negb _) eqn:E; [by apply kept_same|]. apply negb_false_iff, Nat.eqb_eq in E. specialize (Hd E).
  cbv zeta. destruct a as [u| |v]; [destruct u; by apply kept_same|by apply kept_same|].
  destruct (li_drafts _ Hl d k Hk) as (x & Hx & _). pose proof (lookup_lt_Some _ _ _ Hx) as Hlt. pose proof (li_objects _ Hl k x Hx) as Hlc.
  match goal with |- context [settle_draft ?i ?y] => destruct (settle_rest i y) as [E1 E2]; pose proof (settle_other k i y) as E3; revert E1 E2 E3; generalize (settle_draft i y) end.
  intros z E1 E2 E3. apply kept_same; [done| | |].
  - cbn. rewrite E1. cbn. by rewrite lookup_insert_ne.
  - cbn. rewrite E3 by (cbn; lia). cbn. by rewrite lookup_app_l.
  - intros x' Hx'. rewrite Hx in Hx'. injection Hx' as <-. cbn. rewrite E2. cbn. rewrite list_lookup_alter_ne by lia. by rewrite lookup_app_l.
Qed.

Lemma save_answer_kept r a d k s :
  links s → drafts s !! d = Some k → (∀ v, a = Data v → save_generation r = accountGeneration s → save_draft r ≠ k) → draft_kept d k s (save_answered r a s).
Proof.
  intros Hl Hk Hd. unfold save_answered. destruct (negb _) eqn:E; [by apply kept_same|]. apply negb_false_iff, Nat.eqb_eq in E.
  cbv zeta. destruct a as [u| |v]; [by apply kept_same|by apply kept_same|]. specialize (Hd v eq_refl E).
  destruct (li_drafts _ Hl d k Hk) as (x & Hx & _). pose proof (li_objects _ Hl k x Hx) as Hlc.
  match goal with |- context [settle_draft ?i ?y] => destruct (settle_rest i y) as [E1 E2]; pose proof (settle_other k i y) as E3; revert E1 E2 E3; generalize (settle_draft i y) end.
  intros z E1 E2 E3. apply kept_same; [done| | |].
  - cbn. by rewrite E1.
  - cbn. rewrite E3 by done. cbn. by rewrite list_lookup_alter_ne.
  - intros x' Hx'. rewrite Hx in Hx'. injection Hx' as <-. cbn. rewrite E2. cbn. rewrite list_lookup_alter_ne by lia. by rewrite lookup_app_l.
Qed.

Lemma discovery_kept id a d k s :
  links s → drafts s !! d = Some k → (∀ ds, a = Data ds → d ∈ discovered ds) → draft_kept d k s (discovery_answered id a s).
Proof.
  intros Hl Hk Hd. unfold discovery_answered. destruct (negb _); [by apply kept_same|]. destruct a as [u| |ds]; [destruct u; by apply kept_same|by apply kept_same|].
  specialize (Hd ds eq_refl). cbv zeta. set (s1 := { { s with domainsList := _ } with drafts := _ }).
  assert (links s1) as Hl1 by (less s; apply map_filter_subseteq). assert (drafts s1 !! d = Some k) as Hk1 by (by apply map_lookup_filter_Some).
  set (c := match currentDomain s1 with Some _ => _ | None => _ end). set (s2 := renderDomainNavigation _).
  destruct c as [d'|]; [|by apply kept_same]. assert (links s2) as Hl2 by (by less s1).
  exact (load_kept d d' k s2 Hl2 Hk1).
Qed.

(** What may change the draft of page [d]: its own form, the answer to its own submission, its discarding, a change of the account, and a list of
    pages without it. *)
Definition concerns (e : event) (d : jsstring) (s : state) : Prop :=
  match e with
  | Edit _ => ∃ l, view s = Form d l
  | Save_answer i (Data _) => ∃ r, saves s !! i = Some r ∧ save_domain r = d ∧ save_generation r = accountGeneration s
  | Confirm_answer i true => confirms s !! i = Some d ∧ currentDomain s = Some d
  | Auth_changed m => m ≠ Some (settingsOwner s)
  | Discovery_answer _ (Data ds) => d ∉ discovered ds
  | _ => False
  end.

Lemma step_kept e d k s s' :
  step e s = Some s' → behind e = false → links s → quiet s → drafts s !! d = Some k → dirtyDraft d s = true → concerns e d s ∨ draft_kept d k s s'.
Proof.
  intros He Hb Hl Hq Hk Hd. assert (draft_kept d k s s) as Hsame by (by apply kept_same).
  destruct e; cbn [step] in He; try (apply (inj Some) in He as <-).
  - right. unfold initSettings. by destruct (saving s).
  - destruct (saving s); [done|]. apply (inj Some) in He as <-. right. unfold open_page. case_bool_decide; [done|by apply load_kept].
  - destruct (saving s); [done|]. apply (inj Some) in He as <-. right. unfold turn_page. destruct (currentDomain s); [|done]. cbv zeta.
    destruct (if (_ <? 0)%Z then _ else _); [by apply load_kept|done].
  - destruct (form_inert s); [done|]. destruct (view s) as [| |[d'|]]; try done; apply (inj Some) in He as <-; right; [by apply load_kept|].
    unfold initSettings. by destruct (saving s).
  - destruct (view s) as [|d' l|] eqn:Ev; try done. destruct (form_inert s); [done|]. apply (inj Some) in He as <-.
    destruct (decide (d' = d)) as [-> | Hne]; [left; by exists l|right]. apply kept_same; [done|done|done|]. intros r Hr. cbn. apply list_lookup_insert_ne.
    intros ->. destruct Hne. symmetry. destruct (li_form _ Hl d' _ Ev) as [_ Hf]. by eapply Hf.
  - done.
  - right. unfold saveDomainSettings. destruct (currentDomain s) as [d'|]; [|done]. destruct (currentConfig s); [|done]. destruct (_ || _); [done|].
    destruct (drafts s !! d') as [k'|]; [|done]. by destruct (config_of k' s).
  - right. unfold reset_clicked. destruct (currentDomain s); [|done]. by destruct (_ || _).
  - destruct (confirms s !! i) as [d'|] eqn:Ei; [|done]. apply (inj Some) in He as <-. unfold reset_confirmed. set (s0 := { s with confirms := _ }).
    destruct (_ || saving s0) eqn:E; [by right|]. apply orb_false_iff in E as [[E1%negb_false_iff E2%negb_false_iff]%orb_false_iff E3].
    apply bool_decide_eq_true in E2. destruct (decide (d' = d)) as [-> | Hne]; [left; rewrite E1; by split|right].
    assert (links { s0 with drafts := delete d' (drafts s0) }) as Hl0 by (less s; apply delete_subseteq).
    refine (load_kept d d' k _ Hl0 _). cbn. by rewrite lookup_delete_ne.
  - unfold authChanged. case_bool_decide as Ho; [by right|]. by left.
  - destruct (discoveries s !! i) as [id|]; [|done]. apply (inj Some) in He as <-.
    assert (links { s with discoveries := delete i (discoveries s) }) as Hl0 by (by less s).
    destruct a as [u| |ds]; [right; by refine (discovery_kept id _ d k _ Hl0 Hk _)|right; by refine (discovery_kept id _ d k _ Hl0 Hk _)|].
    destruct (decide (d ∈ discovered ds)) as [Hin | Hin]; [|by left]. right. refine (discovery_kept id _ d k _ Hl0 Hk _). by intros ? [= <-].
  - destruct (loads s !! i) as [r|] eqn:Ei; [|done]. apply (inj Some) in He as <-. right.
    assert (links { s with loads := delete i (loads s) }) as Hl0 by (less s; apply delete_subset).
    refine (load_answer_kept r a d k _ Hl0 Hk _). intros He <-. apply list_elem_of_lookup_2 in Ei. destruct (qu_loads _ Hq r Ei He) as (_ & _ & Hf & _). congruence.
  - destruct (saves s !! i) as [r|] eqn:Ei; [|done]. apply (inj Some) in He as <-.
    assert (links { s with saves := delete i (saves s) }) as Hl0 by (less s; apply delete_subset).
    destruct (decide (save_draft r = k)) as [<- | Hne].
    + destruct (li_saves _ Hl r) as [_ Hsd]; [by eapply list_elem_of_lookup_2|]. specialize (Hsd d Hk). subst d.
      destruct (Nat.eq_dec (save_generation r) (accountGeneration s)) as [Hg | Hg].
      * destruct a as [u| |v]; [right; by refine (save_answer_kept r _ _ _ _ Hl0 Hk _)|right; by refine (save_answer_kept r _ _ _ _ Hl0 Hk _)|].
        left. by exists r.
      * right. refine (save_answer_kept r _ _ _ _ Hl0 Hk _). by intros ? _ ?.
    + right. by refine (save_answer_kept r _ _ _ _ Hl0 Hk _).
Qed.

(** A draft is clean once it is settled. *)
Lemma settle_clean k v s :
  config_of k s = Some v → config_of k (settle_draft k s) = Some v ∧ dirty_object k (settle_draft k s) = false.
Proof.
  intros Hv. unfold settle_draft. rewrite Hv. unfold config_of, dirty_object in *. cbn. rewrite list_lookup_alter_eq.
  destruct (draft_objects s !! k) as [r|]; [|done]. cbn in *. rewrite Hv. by rewrite bool_decide_true.
Qed.

Lemma saved_result r v s x :
  draft_objects s !! save_draft r = Some x → save_generation r = accountGeneration s →
  let s' := save_answered r (Data v) s in
  config_of (save_draft r) s' = Some (render (save_domain r) (saved_config (save_domain r) v (submitted r))) ∧
  dirty_object (save_draft r) s' = false ∧ form_inert s' = false.
Proof.
  intros Hx Hg s'. subst s'. unfold save_answered. apply Nat.eqb_eq in Hg. rewrite Hg. cbn [negb]. cbv zeta.
  match goal with |- context [settle_draft ?k ?y] => pose proof (settle_clean k (render (save_domain r) (saved_config (save_domain r) v (submitted r))) y) as Hc;
    assert (config_of k y = Some (render (save_domain r) (saved_config (save_domain r) v (submitted r)))) as Hy end.
  { unfold config_of. cbn. rewrite list_lookup_alter_eq, Hx. cbn. rewrite list_lookup_alter_eq.
    by rewrite list_lookup_middle. }
  specialize (Hc Hy). clear Hy. revert Hc. generalize (settle_draft (save_draft r)). intros f [Hc Hd]. split_and!; [exact Hc|exact Hd|done].
Qed.

Definition usual_step (s s' : state) : Prop := ∃ e, behind e = false ∧ step e s = Some s'.

Lemma start_links : links start.
Proof. split; cbn; try done; intros ?; try done; try (by intros ?%elem_of_nil); intros ? ?; by rewrite ?lookup_empty. Qed.

Lemma usual_ok s : rtc usual_step start s → links s ∧ counted s ∧ quiet s.
Proof.
  intros Hr. refine (rtc_preserves usual_step (λ s, links s ∧ counted s ∧ quiet s) _ _ _ Hr _).
  - intros s1 s2 (Hl & Hc & Hq) (e & Hb & He). split_and!; [by eapply step_links|by eapply step_counted|by eapply step_quiet].
  - split_and!; [apply start_links|done|]. apply quiet_idle; [done|done|apply NoDup_nil_2|]. by intros ? ?%elem_of_nil.
Qed.

(** C14: Unsaved changes are kept. Whatever pages are opened and whatever answers come in, in whatever order: the draft of a page that has
    unsaved changes stays the same, up to what the page's own renderer sets, unless the step is about this draft: a change in its own form, the answer
    to its own submission, its discarding after a confirmation, a change of the account, or a list of pages that has it no more. (Changes by
    timers of a form that is gone are excluded, see [deletion_lost].) *)
Theorem unsaved_changes_kept s e s' d k :
  rtc usual_step start s → behind e = false → step e s = Some s' →
  drafts s !! d = Some k → dirtyDraft d s = true → ¬ concerns e d s → draft_kept d k s s'.
Proof. intros (Hl & _ & Hq)%usual_ok Hb He Hk Hd Hn. by destruct (step_kept e d k s s' He Hb Hl Hq Hk Hd). Qed.

(** C24: What saving does. At most one submission of an account is under way, and while it is, the form cannot be used. The answer replaces in the draft
    exactly what was submitted, so that no change made in the form is lost, by the configuration the server has, and leaves the draft without unsaved
    changes. The answer to a submission of an account that is gone changes nothing, and every draft was loaded for the present account.
    Excluded is the removal of a proxy, which changes the draft by a timer 180 ms after it was confirmed, where the timer fires while the form is
    submitted or gone: such a removal may be lost, see [deletion_lost] and [deletion_lost_in_save]. *)
Theorem settings_saved s i r v s' :
  rtc usual_step start s → saves s !! i = Some r → step (Save_answer i (Data v)) s = Some s' →
  length (current_saves s) ≤ 1 ∧ (saving s = true → form_inert s = true) ∧
  (∀ d k x, drafts s !! d = Some k → draft_objects s !! k = Some x → made x = accountGeneration s) ∧
  (save_generation r ≠ accountGeneration s → s' = { s with saves := delete i (saves s) }) ∧
  (save_generation r = accountGeneration s →
     (∀ k, drafts s !! save_domain r = Some k → k = save_draft r ∧ config_of k s = Some (submitted r)) ∧
     saving s' = false ∧ current_saves s' = [] ∧ form_inert s' = false ∧ dirty_object (save_draft r) s' = false ∧
     config_of (save_draft r) s' = Some (render (save_domain r) (saved_config (save_domain r) v (submitted r)))).
Proof.
  intros (Hl & Hc & Hq)%usual_ok Hi He. pose proof (step_counted _ _ _ He Hl Hc) as Hc'.
  assert (r ∈ saves s) as Hr by by eapply list_elem_of_lookup_2.
  cbn [step] in He. rewrite Hi in He. apply (inj Some) in He as <-. split_and!.
  - unfold counted in Hc. destruct (saving s); lia.
  - apply Hq.
  - intros d k x Hk Hx. destruct (li_drafts _ Hl d k Hk) as (y & Hy & Hm). congruence.
  - intros Hg. destruct (save_answer_cases r (Data v) { s with saves := delete i (saves s) }) as [[_ E] | [Hg' _]]; [exact E|done].
  - intros Hg. destruct (li_saves _ Hl r Hr) as [Hlt _]. destruct (lookup_lt_is_Some_2 _ _ Hlt) as [x Hx].
    set (s0 := { s with saves := delete i (saves s) }) in *. destruct (saved_result r v s0 x Hx Hg) as (H1 & H2 & H3).
    destruct (save_answer_cases r (Data v) s0) as [[Hn _] | (_ & _ & E & _)]; [done|].
    split_and!; [|exact E|by apply no_saves|exact H3|exact H2|exact H1]. apply (qu_sent _ Hq). apply list_elem_of_In, filter_In. split; [by apply list_elem_of_In|by apply Nat.eqb_eq].
Qed.

Fixpoint run (es : list event) (s : state) : option state :=
  match es with [] => Some s | e :: es => s' ← step e s; run es s' end.

Lemma run_usual es s s' : forallb (λ e, negb (behind e)) es = true → run es s = Some s' → rtc usual_step s s'.
Proof.
  revert s. induction es as [|e es IH]; cbn; intros s; [by intros _ [= ->]|]. intros [Hb%negb_true_iff Hes]%andb_true_iff.
  destruct (step e s) as [s1|] eqn:E; [|done]. cbn. intros Hr. eapply rtc_l; [by exists e|by apply IH].
Qed.

End settings.

(** ** Runs *)

(** A renderer that sets nothing. *)
Definition plain (d : jsstring) (v : jsval) : jsval := v.

Definition name_is (n : string) : jsval := JObj [(js "name", JStr (js n))].

(** Two pages, the second with unsaved changes. *)
Definition changed : list event := [
  Auth_changed (Some (js "root")); Open_settings; Discovery_answer 0 (Data (js <$> ["server"; "proxy"; "toString"]%stdpp));
  Load_answer 0 (Data (name_is "old")); Open_page (js "proxy"); Load_answer 0 (Data (name_is "a")); Edit (name_is "b")].

Definition summary (s : option state) : option (option jsstring * bool * bool * bool * nat * nat * option jsval) :=
  (λ s, (currentDomain s, saving s, form_inert s, dirty_current s, length (loads s), length (saves s), d ← currentDomain s; k ← drafts s !! d; config_of k s)) <$> s.

Example settings_sample : summary (run plain changed start) = Some (Some (js "proxy"), false, false, true, 0, 0, Some (name_is "b")).
Proof. vm_compute. reflexivity. Qed.

Example return_sample :
  summary (run plain (changed ++ [Open_page (js "server"); Open_page (js "proxy"); Load_answer 0 (Data (name_is "late"))]) start)
  = Some (Some (js "proxy"), false, false, true, 0, 0, Some (name_is "b")).
Proof. vm_compute. reflexivity. Qed.

Example save_sample :
  summary (run plain (changed ++ [Save false; Save_answer 0 (Data JUndef)]) start) = Some (Some (js "proxy"), false, false, false, 0, 0, Some (name_is "b")).
Proof. vm_compute. reflexivity. Qed.

(** A timer of the form changes the draft of a page while the page is loaded again: the answer replaces the change. *)
Example deletion_lost :
  let es := [Auth_changed (Some (js "root")); Open_settings; Discovery_answer 0 (Data (js <$> ["server"; "proxy"]%stdpp)); Open_page (js "proxy");
    Load_answer 1 (Data (name_is "a")); Open_page (js "server"); Open_page (js "proxy"); Late_edit 0 (name_is "b")] in
  (λ s, (dirtyDraft (js "proxy") s)) <$> run plain es start = Some true ∧
  summary (run plain (es ++ [Load_answer 2 (Data (name_is "a"))]) start) = Some (Some (js "proxy"), false, false, false, 2, 0, Some (name_is "a")).
Proof. vm_compute. split; reflexivity. Qed.

(** Such a timer fires while the page is submitted: the answer replaces the change, and nothing is left to save. *)
Example deletion_lost_in_save :
  let es := changed ++ [Save false; Late_edit 1 (name_is "c")] in
  summary (run plain es start) = Some (Some (js "proxy"), true, true, true, 0, 1, Some (name_is "c")) ∧
  summary (run plain (es ++ [Save_answer 0 (Data JUndef)]) start) = Some (Some (js "proxy"), false, false, false, 0, 0, Some (name_is "b")).
Proof. vm_compute. split; reflexivity. Qed.

(** A list of pages without the page that is being saved: the form of that page comes back under the name of another. *)
Example form_of_another_page :
  (λ s, (currentDomain s, view s)) <$> run plain (changed ++ [Open_settings; Save false; Discovery_answer 0 (Data (js <$> ["server"]%stdpp)); Save_answer 0 (Data JUndef)]) start
  = Some (Some (js "server"), Form (js "proxy") 2).
Proof. vm_compute. reflexivity. Qed.

Definition at_change : state := or_else (run plain changed start) start.
Definition at_save : state := or_else (run plain (changed ++ [Save false]) start) start.
Definition the_save : save := {| save_domain := js "proxy"; save_draft := 1; save_generation := 1; submitted := name_is "b" |}.

Lemma at_change_run : rtc (usual_step plain) start at_change.
Proof. apply (run_usual plain changed); vm_compute; reflexivity. Qed.

Lemma at_save_run : rtc (usual_step plain) start at_save.
Proof. apply (run_usual plain (changed ++ [Save false])); vm_compute; reflexivity. Qed.

Lemma unsaved_changes_kept_witness :
  drafts at_change !! js "proxy" = Some 1 ∧ dirtyDraft (js "proxy") at_change = true ∧
  draft_kept plain (js "proxy") 1 at_change (open_page plain (js "server") at_change).
Proof.
  assert (drafts at_change !! js "proxy" = Some 1) as Hk by (vm_compute; reflexivity).
  assert (dirtyDraft (js "proxy") at_change = true) as Hd by (vm_compute; reflexivity).
  assert (saving at_change = false) as Hs by (vm_compute; reflexivity). split; [exact Hk|]. split; [exact Hd|].
  apply (unsaved_changes_kept plain at_change (Open_page (js "server")) _ (js "proxy") 1 at_change_run eq_refl); [|exact Hk|exact Hd|exact (λ H, H)].
  cbn [step]. by rewrite Hs.
Defined.

Lemma settings_saved_witness :
  saves at_save !! 0 = Some the_save ∧
  config_of 1 (save_answered plain the_save (Data JUndef) { at_save with saves := delete 0 (saves at_save) }) = Some (name_is "b").
Proof.
  assert (saves at_save !! 0 = Some the_save) as Hi by (vm_compute; reflexivity).
  assert (save_generation the_save = accountGeneration at_save) as Hg by (vm_compute; reflexivity). split; [exact Hi|].
  destruct (settings_saved plain at_save 0 the_save JUndef (save_answered plain the_save (Data JUndef) { at_save with saves := delete 0 (saves at_save) })) as (_ & _ & _ & _ & H).
  - exact at_save_run.
  - exact Hi.
  - cbn [step]. by rewrite Hi.
  - destruct (H Hg) as (_ & _ & _ & _ & _ & Hc). exact Hc.
Defined.
