(* ===== verification/Proxies.v ===== *)
(** * The global proxies

    [internal/service/frontend/renop-html/js/settings.js], the page of proxies: the proxy that is selected, the list with its
    names, adding, changing and removing. The proxies are objects that the list, the selection and a removal under way
    share, so they live in a heap and are named by their place in it. One event is the code between two [await]s; the end of the
    animation of a removal is an event. Building the form and [enableSave] ([Settings]) are left out. *)

From S2P Require Import Prelude JsText.
From coqutil Require Import Datatypes.RecordSettersUsingExistingGetters.
Local Open Scope nat_scope.

#[local] Arguments const {E} _ _ /.
#[local] Arguments cons {A} & _ _.

Definition MAX_GLOBAL_PROXIES : nat := 16.

Record global_proxy := { name : jsstring; url : jsstring; username : jsstring; password : jsstring }.

(** ** Names *)

(** The values of the options: direct routing, and every name. *)
Definition globalProxyOptions (proxies : list global_proxy) : list jsstring :=
  [] :: List.filter truthy ((λ p, trim (name p)) <$> proxies).

Definition candidate (number : nat) : jsstring := js "proxy-" ++ str_of_nat number.

(** The loop from [number] on, for [fuel] more names; after them [Date.now()] makes the name. *)
Fixpoint first_unused (names : list jsstring) (now : jsstring) (number fuel : nat) : jsstring :=
  match fuel with
  | O => js "proxy-" ++ now
  | S fuel => if bool_decide (candidate number ∈ names) then first_unused names now (S number) fuel else candidate number
  end.

Definition taken (proxies : list global_proxy) : list jsstring := (λ p, toLowerCase (trim (name p))) <$> proxies.

Definition nextGlobalProxyName (now : jsstring) (proxies : list global_proxy) : jsstring :=
  first_unused (taken proxies) now 1 (MAX_GLOBAL_PROXIES + 1).

(** ** The page *)

(** A removal: the index its button was made with, and the proxy that was there at the click. *)
Record removal := { at_index : nat; removed : nat }.

(** [asking], [leaving]: the removals that wait for the confirmation, and for the end of their animation. *)
Record state := {
  objects : list global_proxy; proxies : list nat; selected : jsstring; selectedProxy : option nat;
  asking : list removal; leaving : list removal
}.

Definition proxy_of (s : state) (i : nat) : option global_proxy := objects s !! i.
Definition proxy_list (s : state) : list global_proxy := omap (proxy_of s) (proxies s).

(** The first proxy with a name. *)
Definition find_proxy (value : jsstring) (s : state) : option nat :=
  head (List.filter (λ i, match proxy_of s i with Some p => eqs (name p) value | None => false end) (proxies s)).

Definition renderProxySettings (data : list global_proxy) (chosen : jsstring) : state :=
  let s := {| objects := data; proxies := seq 0 (length data); selected := chosen; selectedProxy := None; asking := []; leaving := [] |} in
  { s with selectedProxy := find_proxy chosen s }.

Definition refreshActiveSelect (s : state) : state :=
  { s with selected := match selectedProxy s with
                       | Some i => match proxy_of s i with Some p => trim (name p) | None => [] end
                       | None => []
                       end }.

Definition choose_proxy (value : jsstring) (s : state) : state := { { s with selected := value } with selectedProxy := find_proxy value s }.

(** The click on the button of the entry [index]. *)
Definition removeProxy (index : nat) (s : state) : state :=
  match proxies s !! index with
  | Some p => { s with asking := asking s ++ [{| at_index := index; removed := p |}] }
  | None => s
  end.

Definition removal_confirmed (r : removal) (confirmed : bool) (s : state) : state :=
  if confirmed then { s with leaving := leaving s ++ [r] } else s.

(** [proxies.splice(index, 1)], which does nothing past the end. *)
Definition removal_ended (r : removal) (s : state) : state :=
  let s := if bool_decide (selectedProxy s = Some (removed r)) then { s with selectedProxy := None } else s in
  refreshActiveSelect { s with proxies := delete (at_index r) (proxies s) }.

Definition add_proxy (now : jsstring) (s : state) : state :=
  if MAX_GLOBAL_PROXIES <=? length (proxies s) then s
  else
    let p := {| name := nextGlobalProxyName now (proxy_list s); url := []; username := []; password := [] |} in
    refreshActiveSelect { { s with objects := objects s ++ [p] } with proxies := proxies s ++ [length (objects s)] }.

Definition change_proxy (i : nat) (f : global_proxy → global_proxy) (s : state) : state := { s with objects := alter f i (objects s) }.

Inductive event :=
  | Choose (value : jsstring) | Add (now : jsstring) | Remove (index : nat) | Confirm (k : nat) (confirmed : bool) | Removal_timer (k : nat)
  | Type_name (index : nat) (v : jsstring) | Type_url (index : nat) (v : jsstring) | Type_username (index : nat) (v : jsstring)
  | Type_password (index : nat) (v : jsstring).

(** Only values of the options can be chosen. The entries are made again whenever the list changes. *)
Definition step (e : event) (s : state) : option state :=
  match e with
  | Choose v => if bool_decide (v ∈ globalProxyOptions (proxy_list s)) then Some (choose_proxy v s) else None
  | Add now => Some (add_proxy now s)
  | Remove i => if i <? length (proxies s) then Some (removeProxy i s) else None
  | Confirm k b => r ← asking s !! k; Some (removal_confirmed r b { s with asking := delete k (asking s) })
  | Removal_timer k => r ← leaving s !! k; Some (removal_ended r { s with leaving := delete k (leaving s) })
  | Type_name i v => p ← proxies s !! i; Some (refreshActiveSelect (change_proxy p (λ x, { x with name := v }) s))
  | Type_url i v => p ← proxies s !! i; Some (change_proxy p (λ x, { x with url := v }) s)
  | Type_username i v => p ← proxies s !! i; Some (change_proxy p (λ x, { x with username := v }) s)
  | Type_password i v => p ← proxies s !! i; Some (change_proxy p (λ x, { x with password := v }) s)
  end.

(** ** The name of a new proxy *)

Lemma first_unused_spec names now n fuel m :
  n ≤ m → m < n + fuel → candidate m ∉ names →
  ∃ j, n ≤ j < n + fuel ∧ first_unused names now n fuel = candidate j ∧ candidate j ∉ names.
Proof.
  revert n. induction fuel as [|fuel IH]; intros n Hn Hm Hc; [lia|]. cbn. case_bool_decide as Hin.
  - destruct (Nat.eq_dec m n) as [-> | Hne]; [done|]. destruct (IH (S n)) as (j & Hj & E & Hu); [lia|lia|done|]. exists j. split_and!; try done; lia.
  - exists n. split_and!; try done; lia.
Qed.

Lemma candidate_inj i j : candidate i = candidate j → i = j.
Proof. unfold candidate. intros H%app_inv_head. by apply str_of_nat_inj. Qed.

(** A name among the first seventeen is free while there are at most sixteen names. *)
Lemma candidate_free names : length names ≤ MAX_GLOBAL_PROXIES → ∃ m, 1 ≤ m < 1 + (MAX_GLOBAL_PROXIES + 1) ∧ candidate m ∉ names.
Proof.
  intros Hl. destruct (decide (Forall (λ m, candidate m ∈ names) (seq 1 (MAX_GLOBAL_PROXIES + 1)))) as [Hall | Hn].
  - assert (candidate <$> seq 1 (MAX_GLOBAL_PROXIES + 1) ⊆+ names) as Hs.
    { apply NoDup_submseteq; [apply NoDup_fmap_2; [intros i j; apply candidate_inj|apply NoDup_seq]|].
      intros x (m & -> & Hm)%list_elem_of_fmap. rewrite Forall_forall in Hall. by apply Hall. }
    apply submseteq_length in Hs. rewrite length_fmap, length_seq in Hs. lia.
  - apply not_Forall_Exists, Exists_exists in Hn as (m & Hm & Hc); [|apply _]. apply elem_of_seq in Hm. by exists m.
Qed.

Lemma candidate_plain m : 1 ≤ m < 1 + (MAX_GLOBAL_PROXIES + 1) → toLowerCase (trim (candidate m)) = candidate m.
Proof.
  intros Hm. assert (forallb (λ m, eqs (toLowerCase (trim (candidate m))) (candidate m)) (seq 1 (MAX_GLOBAL_PROXIES + 1)) = true) as Ha by (vm_compute; reflexivity).
  rewrite forallb_forall in Ha. apply eqs_true, Ha, list_elem_of_In, elem_of_seq. lia.
Qed.

Lemma next_name_new now ps :
  length ps ≤ MAX_GLOBAL_PROXIES →
  nextGlobalProxyName now ps ∈ candidate <$> seq 1 (MAX_GLOBAL_PROXIES + 1) ∧ toLowerCase (trim (nextGlobalProxyName now ps)) ∉ taken ps.
Proof.
  intros Hl. destruct (candidate_free (taken ps)) as (m & Hm & Hc); [unfold taken; by rewrite length_fmap|].
  destruct (first_unused_spec (taken ps) now 1 (MAX_GLOBAL_PROXIES + 1) m) as (j & Hj & E & Hu); [lia|lia|done|].
  unfold nextGlobalProxyName. rewrite E, candidate_plain by done. split; [|done]. apply list_elem_of_fmap. exists j. split; [done|]. apply elem_of_seq. lia.
Qed.

(** ** One removal at a time *)

Definition pending (s : state) : list removal := asking s ++ leaving s.

(** The button of a removal is not used while another removal is under way. *)
Definition calm (e : event) (s : state) : bool := match e with Remove _ => match pending s with [] => true | _ => false end | _ => true end.
Definition calm_step (s s' : state) : Prop := ∃ e, calm e s = true ∧ step e s = Some s'.

Record ok (s : state) : Prop := {
  ok_dup : NoDup (proxies s);
  ok_objects : ∀ i, i ∈ proxies s → i < length (objects s);
  ok_proxy : ∀ p, selectedProxy s = Some p → p ∈ proxies s;
  ok_selected : selected s ∈ globalProxyOptions (proxy_list s);
  ok_pending : ∀ r, r ∈ pending s → proxies s !! at_index r = Some (removed r);
  ok_one : length (pending s) ≤ 1
}.

Lemma option_listed p i s : i ∈ proxies s → proxy_of s i = Some p → trim (name p) ∈ globalProxyOptions (proxy_list s).
Proof.
  intros Hi Hp. unfold globalProxyOptions. destruct (trim (name p)) as [|c t] eqn:E; [by left|right].
  apply list_elem_of_In, filter_In. split; [|done]. rewrite <- E. apply list_elem_of_In, list_elem_of_fmap.
  exists p. split; [done|]. apply list_elem_of_omap. by exists i.
Qed.

Lemma refresh_selected s : (∀ p, selectedProxy s = Some p → p ∈ proxies s) → selected (refreshActiveSelect s) ∈ globalProxyOptions (proxy_list s).
Proof.
  intros Hp. cbn. destruct (selectedProxy s) as [i|]; [|by left]. destruct (proxy_of s i) as [p|] eqn:E; [|by left].
  eapply option_listed; [by apply Hp|done].
Qed.

Lemma find_listed v s p : find_proxy v s = Some p → p ∈ proxies s.
Proof.
  intros H%head_Some_elem_of. apply list_elem_of_In, filter_In in H as [H _]. by apply list_elem_of_In.
Qed.

(** Names are what the options are made of. *)
Lemma change_options i f s : (∀ p, name (f p) = name p) → globalProxyOptions (proxy_list (change_proxy i f s)) = globalProxyOptions (proxy_list s).
Proof.
  intros Hf. unfold globalProxyOptions. do 2 f_equal. unfold proxy_list. change (proxies (change_proxy i f s)) with (proxies s).
  induction (proxies s) as [|j l IH]; [done|]. cbn [omap list_omap].
  assert (name <$> proxy_of (change_proxy i f s) j = name <$> proxy_of s j) as Hj.
  { unfold proxy_of. cbn. destruct (decide (j = i)) as [-> | Hne]; [|by rewrite list_lookup_alter_ne].
    rewrite list_lookup_alter_eq. destruct (objects s !! i); [|done]. cbn. by rewrite Hf. }
  destruct (proxy_of (change_proxy i f s) j) as [p|], (proxy_of s j) as [q|]; try done.
  injection Hj as Hj. cbn. rewrite Hj. f_equal. exact IH.
Qed.

Lemma change_ok i f s : ok s → ok (refreshActiveSelect (change_proxy i f s)).
Proof.
  intros [H1 H2 H3 H4 H5 H6]. split; try done.
  - cbn. intros j Hj. rewrite length_alter. by apply H2.
  - by apply (refresh_selected (change_proxy i f s)).
Qed.

Lemma change_ok_same i f s : (∀ p, name (f p) = name p) → ok s → ok (change_proxy i f s).
Proof.
  intros Hf [H1 H2 H3 H4 H5 H6]. split; try done.
  - cbn. intros j Hj. rewrite length_alter. by apply H2.
  - rewrite change_options by done. exact H4.
Qed.

Lemma pending_delete k r s :
  ok s → (asking s !! k = Some r ∨ leaving s !! k = Some r) → pending s = [r].
Proof.
  intros Hs Hk. assert (r ∈ pending s) as Hr by (apply elem_of_app; destruct Hk as [Hk | Hk]; apply list_elem_of_lookup_2 in Hk; auto).
  pose proof (ok_one _ Hs). destruct (pending s) as [|r' [|]]; [by apply elem_of_nil in Hr| |cbn in *; lia].
  by apply list_elem_of_singleton in Hr as ->.
Qed.

(** Which list holds the one removal. *)
Lemma pending_one r (l1 l2 : list removal) k :
  l1 ++ l2 = [r] → (l1 !! k = Some r → k = 0 ∧ l1 = [r] ∧ l2 = []) ∧ (l2 !! k = Some r → k = 0 ∧ l1 = [] ∧ l2 = [r]).
Proof.
  destruct l1 as [|a [|]]; destruct l2 as [|b [|]]; try done; intros [= ->]; split; intros H; try done; destruct k; done.
Qed.

Lemma delete_elem {A} i (x : A) l : NoDup l → l !! i = Some x → ∀ y, y ∈ delete i l ↔ y ∈ l ∧ y ≠ x.
Proof.
  intros Hn Hi y. rewrite <- (take_drop_middle l i x Hi) in Hn. apply NoDup_app in Hn as (_ & Hd & [Hx _]%NoDup_cons).
  rewrite <- (take_drop_middle l i x Hi) at 2. rewrite delete_take_drop, !elem_of_app, elem_of_cons. split.
  - intros [Hy | Hy]; split; auto; intros ->; [|done]. apply (Hd x Hy). by left.
  - tauto.
Qed.

Lemma listed_add p s : (∀ i, i ∈ proxies s → i < length (objects s)) →
  proxy_list { { s with objects := objects s ++ [p] } with proxies := proxies s ++ [length (objects s)] } = proxy_list s ++ [p].
Proof.
  intros Hb. set (z := { { s with objects := _ } with proxies := _ }).
  change (proxy_list z) with (omap (proxy_of z) (proxies s ++ [length (objects s)])). rewrite omap_app. f_equal.
  - unfold proxy_list. revert Hb. induction (proxies s) as [|i l IH]; intros Hb; [done|]. cbn [omap list_omap].
    assert (proxy_of z i = proxy_of s i) as -> by (apply lookup_app_l, Hb; by left).
    destruct (proxy_of s i); [f_equal|]; apply IH; intros j Hj; apply Hb; by right.
  - cbn [omap list_omap]. assert (proxy_of z (length (objects s)) = Some p) as -> by (by apply list_lookup_middle). done.
Qed.

Lemma listed_length s : (∀ i, i ∈ proxies s → i < length (objects s)) → length (proxy_list s) = length (proxies s).
Proof.
  unfold proxy_list. induction (proxies s) as [|i l IH]; intros Hb; [done|]. cbn.
  destruct (lookup_lt_is_Some_2 (objects s) i) as [p Hp]; [apply Hb; by left|]. unfold proxy_of at 1. rewrite Hp. cbn. f_equal. apply IH.
  intros j Hj. apply Hb. by right.
Qed.

Lemma add_ok now s : ok s → ok (add_proxy now s).
Proof.
  intros [H1 H2 H3 H4 H5 H6]. unfold add_proxy. destruct (_ <=? _); [done|]. cbv zeta. set (p := {| name := _; url := _; username := _; password := _ |}).
  split; try done.
  - cbn. apply NoDup_app. split_and!; [done| |apply NoDup_singleton]. intros i Hi ->%list_elem_of_singleton. specialize (H2 _ Hi). lia.
  - cbn. rewrite length_app. cbn. intros i [Hi | ->%list_elem_of_singleton]%elem_of_app; [specialize (H2 _ Hi)|]; lia.
  - cbn. intros q Hq. apply elem_of_app. auto.
  - apply (refresh_selected { { s with objects := objects s ++ [p] } with proxies := proxies s ++ [length (objects s)] }).
    cbn. intros q Hq. apply elem_of_app. auto.
  - cbn. intros r Hr. apply lookup_app_l_Some. by apply H5.
Qed.

Lemma ended_ok r s : ok s → pending s = [r] →
  ok (removal_ended r { { s with asking := [] } with leaving := [] }).
Proof.
  intros [H1 H2 H3 H4 H5 H6] Hp. assert (proxies s !! at_index r = Some (removed r)) as Hr by (apply H5; rewrite Hp; by left).
  pose proof (delete_elem _ _ _ H1 Hr) as Hd. unfold removal_ended. cbv zeta. cbn [selectedProxy].
  assert (∀ z, (∀ p, selectedProxy z = Some p → p ∈ delete (at_index r) (proxies s)) → objects z = objects s → proxies z = proxies s → pending z = [] →
    ok (refreshActiveSelect { z with proxies := delete (at_index r) (proxies z) })) as Hz.
  { intros z Hs Eo Ep En. split.
    - cbn. rewrite Ep. eapply sublist_NoDup; [exact H1|apply sublist_delete].
    - cbn. rewrite Ep, Eo. intros i [Hi _]%Hd. auto.
    - cbn. rewrite Ep. exact Hs.
    - apply (refresh_selected { z with proxies := delete (at_index r) (proxies z) }). cbn. by rewrite Ep.
    - change (pending (refreshActiveSelect _)) with (pending z). rewrite En. by intros ? ?%elem_of_nil.
    - change (pending (refreshActiveSelect _)) with (pending z). rewrite En. cbn. lia. }
  case_bool_decide as Hsel; apply Hz; try done. cbn in *. intros p Hp'. apply Hd. split; [auto|]. congruence.
Qed.

Lemma step_ok e s s' : calm e s = true → step e s = Some s' → ok s → ok s'.
Proof.
  intros Hc He Hs. destruct e as [v|now|i|k b|k|i v|i v|i v|i v]; cbn [step] in He.
  - case_bool_decide as Hv; [|done]. apply (inj Some) in He as <-. destruct Hs as [H1 H2 H3 H4 H5 H6]. split; try done.
    cbn. intros p. apply find_listed.
  - apply (inj Some) in He as <-. by apply add_ok.
  - destruct (i <? length (proxies s)); [|done]. apply (inj Some) in He as <-. unfold removeProxy. destruct (proxies s !! i) as [p|] eqn:Ep; [|done].
    destruct Hs as [H1 H2 H3 H4 H5 H6]. unfold calm in Hc. destruct (pending s) eqn:En; [|done]. apply app_eq_nil in En as [Ha Hl].
    split; try done; unfold pending; cbn; rewrite Ha, Hl; [|cbn; lia]. intros r ->%list_elem_of_singleton. exact Ep.
  - destruct (asking s !! k) as [r|] eqn:Ek; [|done]. apply (inj Some) in He as <-.
    pose proof (pending_delete k r s Hs (or_introl Ek)) as Hp. destruct (pending_one r (asking s) (leaving s) k Hp) as [H _].
    destruct (H Ek) as (-> & Ea & El). destruct Hs as [H1 H2 H3 H4 H5 H6]. unfold removal_confirmed. cbv zeta.
    destruct b; split; try done; unfold pending in *; cbn; rewrite ?Ea, ?El in *; cbn in *; try lia; intros x Hx; try (by apply elem_of_nil in Hx); by apply H5.
  - destruct (leaving s !! k) as [r|] eqn:Ek; [|done]. apply (inj Some) in He as <-.
    pose proof (pending_delete k r s Hs (or_intror Ek)) as Hp. destruct (pending_one r (asking s) (leaving s) k Hp) as [_ H].
    destruct (H Ek) as (-> & Ea & El). pose proof (ended_ok r s Hs Hp) as Hok. rewrite El. cbn [delete list_delete].
    replace { s with leaving := [] } with { { s with asking := [] } with leaving := [] }; [exact Hok|]. clear - Ea. destruct s; cbn in *. by rewrite Ea.
  - destruct (proxies s !! i) as [p|]; [|done]. apply (inj Some) in He as <-. by apply change_ok.
  - destruct (proxies s !! i) as [p|]; [|done]. apply (inj Some) in He as <-. by apply change_ok_same.
  - destruct (proxies s !! i) as [p|]; [|done]. apply (inj Some) in He as <-. by apply change_ok_same.
  - destruct (proxies s !! i) as [p|]; [|done]. apply (inj Some) in He as <-. by apply change_ok_same.
Qed.

Lemma seq_listed s pre suf : objects s = pre ++ suf → omap (proxy_of s) (seq (length pre) (length suf)) = suf.
Proof.
  revert pre. induction suf as [|p suf IH]; intros pre Ho; [done|]. cbn [length seq omap list_omap].
  assert (proxy_of s (length pre) = Some p) as -> by (unfold proxy_of; rewrite Ho; by apply list_lookup_middle). f_equal.
  specialize (IH (pre ++ [p])). rewrite length_app in IH. cbn in IH. rewrite Nat.add_1_r in IH. apply IH. by rewrite <- app_assoc.
Qed.

Lemma start_ok data chosen : chosen ∈ globalProxyOptions data → ok (renderProxySettings data chosen).
Proof.
  intros Hc. split; cbn.
  - apply NoDup_seq.
  - intros i Hi%elem_of_seq. lia.
  - intros p. apply find_listed.
  - unfold proxy_list. cbn. by rewrite (seq_listed _ [] data).
  - by intros ? ?%elem_of_nil.
  - lia.
Qed.

(** No event makes the list longer than what was loaded or the limit. *)
Lemma step_length e s s' : step e s = Some s' → length (proxies s') ≤ Nat.max MAX_GLOBAL_PROXIES (length (proxies s)).
Proof.
  intros He. destruct e as [v|now|i|k b|k|i v|i v|i v|i v]; cbn [step] in He.
  - case_bool_decide; [|done]. apply (inj Some) in He as <-. cbn. lia.
  - apply (inj Some) in He as <-. unfold add_proxy. destruct (MAX_GLOBAL_PROXIES <=? length (proxies s)) eqn:E; [lia|]. apply Nat.leb_gt in E.
    cbn. rewrite length_app. cbn in *. lia.
  - destruct (_ <? _); [|done]. apply (inj Some) in He as <-. unfold removeProxy. destruct (_ !! i); cbn; lia.
  - destruct (asking s !! k); [|done]. apply (inj Some) in He as <-. destruct b; cbn; lia.
  - destruct (leaving s !! k) as [r|]; [|done]. apply (inj Some) in He as <-. unfold removal_ended. cbv zeta.
    assert (length (delete (at_index r) (proxies s)) ≤ length (proxies s)) by (apply sublist_length, sublist_delete). case_bool_decide; cbn; lia.
  - destruct (proxies s !! i); [|done]. apply (inj Some) in He as <-. cbn. lia.
  - destruct (proxies s !! i); [|done]. apply (inj Some) in He as <-. cbn. lia.
  - destruct (proxies s !! i); [|done]. apply (inj Some) in He as <-. cbn. lia.
  - destruct (proxies s !! i); [|done]. apply (inj Some) in He as <-. cbn. lia.
Qed.

(** The list of proxies, when a removal ends before the next one begins: what is selected is always direct routing or a name in the
    list; the list does not grow over sixteen; a removal takes exactly the proxy it asked about; and a new proxy comes last
    under one of the names proxy-1 to proxy-17, which no proxy has in any spelling. *)
Theorem global_proxies data chosen s :
  chosen ∈ globalProxyOptions data → rtc calm_step (renderProxySettings data chosen) s →
  selected s ∈ globalProxyOptions (proxy_list s) ∧ length (proxy_list s) ≤ Nat.max MAX_GLOBAL_PROXIES (length data) ∧
  (∀ k r s', leaving s !! k = Some r → step (Removal_timer k) s = Some s' → ∀ p, p ∈ proxies s' ↔ p ∈ proxies s ∧ p ≠ removed r) ∧
  (∀ now s', length (proxies s) < MAX_GLOBAL_PROXIES → step (Add now) s = Some s' →
     ∃ p, proxy_list s' = proxy_list s ++ [p] ∧ name p ∈ candidate <$> seq 1 (MAX_GLOBAL_PROXIES + 1) ∧ toLowerCase (trim (name p)) ∉ taken (proxy_list s)).
Proof.
  intros Hc Hr. assert (ok s ∧ length (proxies s) ≤ Nat.max MAX_GLOBAL_PROXIES (length data)) as [Hs Hl].
  { refine (rtc_preserves calm_step (λ s, ok s ∧ length (proxies s) ≤ Nat.max MAX_GLOBAL_PROXIES (length data)) _ _ _ Hr _).
    - intros s1 s2 [H1 H2] (e & He & Hstep). split; [by eapply step_ok|]. pose proof (step_length _ _ _ Hstep). lia.
    - split; [by apply start_ok|]. cbn. rewrite length_seq. lia. }
  split_and!; [apply Hs|by rewrite (listed_length s (ok_objects _ Hs))| |].
  - intros k r s' Hk He. cbn [step] in He. rewrite Hk in He. apply (inj Some) in He as <-.
    assert (proxies s !! at_index r = Some (removed r)) as Hi by (apply (ok_pending _ Hs), elem_of_app; right; by eapply list_elem_of_lookup_2).
    intros p. rewrite <- (delete_elem _ _ _ (ok_dup _ Hs) Hi). unfold removal_ended. cbv zeta. by case_bool_decide.
  - intros now s' Hlt He. cbn [step] in He. apply (inj Some) in He as <-. unfold add_proxy.
    destruct (_ <=? _) eqn:E; [apply Nat.leb_le in E; lia|]. cbv zeta. eexists. split; [exact (listed_add _ s (ok_objects _ Hs))|].
    apply next_name_new. rewrite (listed_length s (ok_objects _ Hs)). lia.
Qed.

(** ** Runs *)

Fixpoint run (es : list event) (s : state) : option state :=
  match es with [] => Some s | e :: es => s' ← step e s; run es s' end.

Definition a_proxy (n : string) : global_proxy := {| name := js n; url := []; username := []; password := [] |}.
Definition three : state := renderProxySettings (a_proxy <$> ["a"; "b"; "c"]%stdpp) (js "b").

Definition names (s : option state) : option (list jsstring * jsstring) := (λ s, (name <$> proxy_list s, selected s)) <$> s.

Example proxies_sample :
  names (run [Remove 0; Confirm 0 true; Removal_timer 0; Add []; Choose (js "proxy-1"); Type_name 2 (js " Fast ")] three)
  = Some (js <$> ["b"; "c"; " Fast "]%stdpp, js "Fast").
Proof. vm_compute. reflexivity. Qed.

(** The button of the second proxy is used before the first removal ends: the user confirms the removal of b, and c is removed. *)
Example wrong_proxy_removed :
  names (run [Remove 0; Confirm 0 true; Remove 1; Removal_timer 0; Confirm 0 true; Removal_timer 0] three) = Some ([js "b"], []).
Proof. vm_compute. reflexivity. Qed.

(** A proxy whose name has a space at its end can be selected, but the next change of the list deselects it. *)
Example selection_lost :
  names (run [Choose (js "a"); Add []] (renderProxySettings [a_proxy "a "] [])) = Some (js <$> ["a "; "proxy-1"]%stdpp, []).
Proof. vm_compute. reflexivity. Qed.

Definition removing : state := or_else (run [Remove 0; Confirm 0 true] three) three.
Definition the_removal : removal := {| at_index := 0; removed := 0 |}.

Lemma removing_run : rtc calm_step three removing.
Proof.
  assert (step (Confirm 0 true) (removeProxy 0 three) = Some removing) as H2 by (vm_compute; reflexivity).
  eapply rtc_l; [exists (Remove 0); split; reflexivity|]. eapply rtc_l; [exists (Confirm 0 true); split; [reflexivity|exact H2]|]. apply rtc_refl.
Qed.

Lemma global_proxies_witness :
  leaving removing !! 0 = Some the_removal ∧ selected removing ∈ globalProxyOptions (proxy_list removing) ∧
  (1 ∈ proxies (removal_ended the_removal { removing with leaving := delete 0 (leaving removing) }) ↔ 1 ∈ proxies removing ∧ 1 ≠ 0).
Proof.
  assert (leaving removing !! 0 = Some the_removal) as Hl by (vm_compute; reflexivity).
  assert (js "b" ∈ globalProxyOptions (a_proxy <$> ["a"; "b"; "c"]%stdpp)) as Hb by (cbn; right; right; left).
  destruct (global_proxies _ _ removing Hb removing_run) as (H1 & _ & H3 & _). split; [exact Hl|]. split; [exact H1|].
  apply (H3 0 the_removal _ Hl). cbn [step]. by rewrite Hl.
Defined.
