(* ===== verification/Cargo.v ===== *)
(** * Repositories of Cargo packages

    [internal/service/frontend/renop-html/js/browser/cargo.js]: the catalog of packages with what the user may manage, the version that is
    selected, and the pages of a repository: routes, answers that overlap, and the operations on a package. Records of packages are
    dynamic values. One event is the code between two [await]s; a view is drawn at once, its animation is left out, and so are the parts
    of a page, the upload of documentation, levels and invitations of the team, and the mark of a busy view. *)

From S2P Require Import Prelude JsText JsValue Uri Sorting BrowserUtils.
From Stdlib Require Import Sorted.
From coqutil Require Import Datatypes.RecordSettersUsingExistingGetters.
Local Open Scope nat_scope.

#[local] Arguments const {E} _ _ /.
#[local] Arguments cons {A} & _ _.

(** ** Records *)

(** [record?.k] of a record: its own property, or [undefined]. *)
Definition property (k : jsstring) (record : jsval) : jsval :=
  match record with JObj fields => or_else (assoc fields k) JUndef | _ => JUndef end.

Definition normalizeCargoPackageName (value : jsval) : jsstring :=
  replaceAll "_" (js "-") (toLowerCase (trim (toString (val_or value (JStr []))))).

Definition key_of (record : jsval) : jsstring := normalizeCargoPackageName (property (js "name") record).

Definition fields_of (v : jsval) : list (jsstring * jsval) := match v with JObj fields => fields | _ => [] end.

(** [{...(old || {}), ...new}] *)
Definition merged (old : option jsval) (new : jsval) : jsval := JObj (spread (fields_of (or_else old (JObj []))) (fields_of new)).

Definition is_archived (record : jsval) : bool := match property (js "archived") record with JBool true => true | _ => false end.

(** ** The catalog *)

(** [activePackageList] and the set [activePublicPackageNames]. *)
Record package_catalog := { packages : list jsval; public_names : list jsstring }.

Definition add_name (k : jsstring) (names : list jsstring) : list jsstring := if bool_decide (k ∈ names) then names else names ++ [k].

(** The [Map] of the records by name, in the order of insertion. *)
Definition by_name := list (jsstring * jsval).

Definition put_known (m : by_name) (record : jsval) : by_name :=
  if truthy (key_of record) then set_key m (key_of record) record else m.

Definition put_public (mn : by_name * list jsstring) (record : jsval) : by_name * list jsstring :=
  let key := key_of record in
  if truthy key then (set_key mn.1 key (merged (assoc mn.1 key) record), add_name key mn.2) else mn.

Definition put_managed (mn : by_name * list jsstring) (record : jsval) : by_name * list jsstring :=
  let key := key_of record in
  if truthy key then
    (set_key mn.1 key (merged (assoc mn.1 key) record), if is_archived record then mn.2 else add_name key mn.2)
  else mn.

Section package_catalog.
Context `{Collator}.

Definition compare_records (left right : jsval) : Z := localeCompare (key_of left) (key_of right).

Definition mergeCargoPackageRecords (publicPackages managedPackages : list jsval) (reset : bool) (c : package_catalog) : package_catalog :=
  let records := if reset then [] else packages c in
  let m := foldl put_known [] records in
  let mn := foldl put_managed (foldl put_public (m, public_names c) publicPackages) managedPackages in
  {| packages := sort_by compare_records mn.1.*2; public_names := mn.2 |}.

(** [total]: what the server counts as public. *)
Definition cargoCatalogCount (total : Z) (c : package_catalog) : Z :=
  total + Z.of_nat (length (List.filter (λ r, truthy (key_of r) && is_archived r && negb (bool_decide (key_of r ∈ public_names c))) (packages c))).

(** [activePublicPackageNames.size < activePublicPackageTotal] *)
Definition has_more_packages (total : Z) (c : package_catalog) : bool := (Z.of_nat (length (public_names c)) <? total)%Z.

End package_catalog.

(** ** The selected version *)

Record version := { version_name : jsstring; pending_review : bool; yanked : bool }.

(** The newest version that is not yanked, or the newest one, of those not under review. *)
Definition default_version (versions : list version) : option version :=
  match List.find (λ v, negb (pending_review v) && negb (yanked v)) versions with
  | Some v => Some v
  | None => List.find (λ v, negb (pending_review v)) versions
  end.

(** The version shown, and the new [activeSelectedVersion]. *)
Definition getSelectedVersion (versions : list version) (activeSelectedVersion : jsstring) : option version * jsstring :=
  let found := if truthy activeSelectedVersion then List.find (λ v, eqs (version_name v) activeSelectedVersion) versions else None in
  match versions, found with
  | [], _ => (None, activeSelectedVersion)
  | _, Some v =>
      if negb (pending_review v) then (Some v, activeSelectedVersion)
      else (default_version versions, match default_version versions with Some v => version_name v | None => [] end)
  | _, None => (default_version versions, match default_version versions with Some v => version_name v | None => [] end)
  end.

(** ** Addresses and routes *)

Definition cargoAPIPath (repository : jsstring) (segments : list jsstring) : jsstring :=
  js "/" ++ encodeURIComponent repository ++ js "/api/v1/" ++ join "/" (encodeURIComponent <$> segments).

Definition cargoPagePath (repository packageName : jsstring) : jsstring :=
  let base := js "/" ++ encodeURIComponent repository ++ js "/packages" in
  if truthy packageName then base ++ js "/" ++ encodeURIComponent packageName else base.

(** A page of the public packages. *)
Definition catalog_url (repository : jsstring) (page : nat) : jsstring :=
  cargoAPIPath repository [js "crates"] ++ js "?q=&per_page=50&page=" ++ str_of_nat page.

Definition package_url (repository packageName : jsstring) : jsstring := cargoAPIPath repository [js "crates"; packageName].

Inductive route := Away | All_packages | One_package (name : jsstring) | Unknown_page.

(** The repository and the page of a path: [None] if it has none, or if a part has an escape that the model does not hold. *)
Definition parse_route (path : jsstring) : option (jsstring * route) :=
  match decodePathSegment <$> path_segments path with
  | [Seg r] => Some (r, All_packages)
  | [Seg r; Seg p] => Some (r, if eqs p (js "packages") then All_packages else Unknown_page)
  | [Seg r; Seg p; Seg n] => Some (r, if eqs p (js "packages") && truthy n then One_package n else Unknown_page)
  | Seg r :: rest => if existsb (λ s, match s with Wide_seg => true | _ => false end) rest then None else Some (r, Unknown_page)
  | _ => None
  end.

(** ** The pages of a repository *)

(** What a request for a package returns. *)
Record details := { package_name : jsstring; archived : bool; versions : list version; may_administer : bool }.

Inductive operation :=
  | Archive | Unarchive | Delete_package | Yank (version : jsstring) | Unyank (version : jsstring) | Delete_version (version : jsstring)
  | Delete_docs (version : jsstring) | Remove_member (username userID : jsstring).

Definition destructive (op : operation) : bool :=
  match op with Delete_package | Delete_version _ | Delete_docs _ | Remove_member _ _ => true | _ => false end.

(** The segments and the method of the request of an operation. *)
Definition segments_of (name : jsstring) (op : operation) : list jsstring :=
  match op with
  | Archive | Unarchive => [js "crates"; name; js "archive"]
  | Delete_package => [js "crates"; name]
  | Yank v => [js "crates"; name; v; js "yank"]
  | Unyank v => [js "crates"; name; v; js "unyank"]
  | Delete_version v => [js "crates"; name; v]
  | Delete_docs v => [js "crates"; name; v; js "docs"]
  | Remove_member u i => [js "crates"; name; js "owners"; str_or i u]
  end.

Definition method_of (op : operation) : jsstring := match op with Archive | Unyank _ => js "PUT" | _ => js "DELETE" end.

(** Where a button was on the page: the repository its content was built for, and the package shown. *)
Record button_place := { at_repository : jsstring; at_package : jsstring }.

Record request := { clicked : button_place; asked : operation; method : jsstring; url : jsstring }.

(** A page of the catalog that was read: its address, and what the registry answered. *)
Record page_read := { page_url : jsstring; page_total : Z; page_crates : list jsval; page_managed : list jsval }.

(** What the view shows. [sources]: the pages whose answers make up the list; [source]: the address the package was read from. *)
Inductive content :=
  | Nothing | Skeleton | Unavailable
  | Packages (repository : jsstring) (rows : list jsval) (count : Z) (more : bool) (sources : list page_read)
  | Package (repository : jsstring) (shown : details) (source : jsstring).

Inductive kind := No_kind | Overview_kind | Package_kind | Error_kind.

(** What is under way between two [await]s. *)
Inductive job :=
  | Load_catalog (sequence : nat) (from : jsstring)
  | Load_package (sequence : nat) (name : jsstring) (from : jsstring)
  | Load_more (sequence page : nat) (from : jsstring)
  | Naming (at_ : button_place) (name : jsstring) (op : operation)
  | Confirming (at_ : button_place) (name : jsstring) (op : operation)
  | Sending (at_ : button_place) (name : jsstring) (op : operation)
  | Refreshing (name : jsstring) (from : jsstring).

(** [current]: the page that was asked last. [pages_read]: the pages read since the catalog was last loaded. [confirmed]: the
    operations that were confirmed. The code keeps none of the three. *)
Record view := {
  cargoLoadSequence : nat; activeRepository : jsstring; activeAdministrator : bool; activePackageDetails : option (details * jsstring);
  known : package_catalog; activePublicPackageTotal : Z; activeCatalogPage : nat; activeRouteKind : kind; activeSelectedVersion : jsstring;
  navigable : bool; hidden : bool; body : content; jobs : list job; sent : list request; navigations : list jsstring;
  current : route; pages_read : list page_read; confirmed : list (button_place * operation)
}.

Definition no_packages : package_catalog := {| packages := []; public_names := [] |}.

Definition start : view := {|
  cargoLoadSequence := 0; activeRepository := []; activeAdministrator := false; activePackageDetails := None;
  known := no_packages; activePublicPackageTotal := 0; activeCatalogPage := 1; activeRouteKind := No_kind; activeSelectedVersion := [];
  navigable := false; hidden := true; body := Nothing; jobs := []; sent := []; navigations := []; current := Away; pages_read := []; confirmed := []
|}.

Definition spawn (j : job) (s : view) : view := { s with jobs := jobs s ++ [j] }.

Definition renderCargoError (s : view) : view := { { s with activeRouteKind := Error_kind } with body := Unavailable }.

Definition beginCargoRouteLoad (s : view) : view := match body s with Nothing => { s with body := Skeleton } | _ => s end.

Definition renderCargoOverview (s : view) : view :=
  { { { s with activePackageDetails := None } with activeRouteKind := Overview_kind } with
    body := Packages (activeRepository s) (packages (known s)) (cargoCatalogCount (activePublicPackageTotal s) (known s))
              (has_more_packages (activePublicPackageTotal s) (known s)) (pages_read s) }.

Definition renderCargoPackagePage (s : view) : view :=
  match activePackageDetails s with
  | None => s
  | Some (d, from) =>
      { { { s with activeRouteKind := Package_kind } with
          activeSelectedVersion := (getSelectedVersion (versions d) (activeSelectedVersion s)).2 } with
        body := Package (activeRepository s) d from }
  end.

(** The answer to a request for a package: rejected, or its data, which may hold no package. *)
Definition details_read (d : option details) (from : jsstring) (s : view) : view :=
  renderCargoPackagePage
    { { s with activePackageDetails := (λ d, (d, from)) <$> d } with
      activeAdministrator := match d with Some d => may_administer d | None => false end }.

Definition loadCargoOverview (s : view) : view :=
  let s := beginCargoRouteLoad { { s with activePackageDetails := None } with activeSelectedVersion := [] } in
  spawn (Load_catalog (cargoLoadSequence s) (catalog_url (activeRepository s) 1)) s.

Definition loadCargoPackage (packageName : jsstring) (s : view) : view :=
  spawn (Load_package (cargoLoadSequence s) packageName (package_url (activeRepository s) packageName)) (beginCargoRouteLoad s).

Definition hideCargoRepositoryView (s : view) : view :=
  let s := { { { s with cargoLoadSequence := S (cargoLoadSequence s) } with activeRepository := [] } with activeAdministrator := false } in
  let s := { { { s with activePackageDetails := None } with known := no_packages } with activePublicPackageTotal := 0%Z } in
  let s := { { { s with activeCatalogPage := 1 } with navigable := false } with activeSelectedVersion := [] } in
  { { { { s with hidden := true } with body := Nothing } with current := Away } with pages_read := [] }.

(** [format]: the identifier of the repository's format. [None]: the path is not held by the model. *)
Definition renderCargoRepository (path format : jsstring) (s : view) : option view :=
  if negb (eqs format (js "cargo")) || bool_decide (path_segments path = []) then Some (hideCargoRepositoryView s)
  else match parse_route path with
       | None => None
       | Some (repository, r) =>
           let s := { { s with cargoLoadSequence := S (cargoLoadSequence s) } with activeRepository := repository } in
           let s := { { { s with navigable := true } with hidden := false } with current := r } in
           Some match r with
                | All_packages => loadCargoOverview s
                | One_package name => loadCargoPackage name s
                | _ => renderCargoError s
                end
       end.

Definition handleCargoStateChanged (changedRepository pathname : jsstring) (s : view) : option view :=
  if negb (truthy (activeRepository s)) || (truthy changedRepository && negb (eqs changedRepository (activeRepository s))) then Some s
  else renderCargoRepository pathname (js "cargo") s.

Definition handleCargoLanguageChanged (s : view) : view :=
  if hidden s then s
  else match activeRouteKind s, activePackageDetails s with
  | Package_kind, Some _ => renderCargoPackagePage s
  | Overview_kind, _ => renderCargoOverview s
  | _, _ => s
  end.

(** A page of public packages: their total and their records. What the account manages: whether it administers, and its records. *)
Definition catalog_page : Type := Z * list jsval.
Definition managed_packages : Type := bool * list jsval.

Section pages.
Context `{Collator}.

(** [package_catalog]: [None] is a rejected request. [managed]: the same for the second request, which is [(false, [])] without account. *)
Definition catalog_answered (q : nat) (from : jsstring) (page : option catalog_page) (managed : option managed_packages) (s : view) : view :=
  if negb (q =? cargoLoadSequence s) then s
  else match page with
       | None => renderCargoError s
       | Some (total, crates) =>
           let managed := or_else managed (false, []) in
           let s := { { s with activeAdministrator := managed.1 } with activePublicPackageTotal := Z.max 0 total } in
           let s := { { s with activeCatalogPage := 1 } with
                     pages_read := [{| page_url := from; page_total := total; page_crates := crates; page_managed := managed.2 |}] } in
           renderCargoOverview
             { s with known := mergeCargoPackageRecords crates managed.2 true {| packages := packages (known s); public_names := [] |} }
       end.

Definition package_answered (q : nat) (from : jsstring) (answer : option (option details)) (s : view) : view :=
  if negb (q =? cargoLoadSequence s) then s
  else match answer with None => renderCargoError s | Some d => details_read d from s end.

Definition loadMoreCargoPackages (s : view) : view :=
  if negb (has_more_packages (activePublicPackageTotal s) (known s)) then s
  else let page := S (activeCatalogPage s) in spawn (Load_more (cargoLoadSequence s) page (catalog_url (activeRepository s) page)) s.

Definition more_answered (q page : nat) (from : jsstring) (answer : option catalog_page) (s : view) : view :=
  if negb (q =? cargoLoadSequence s) then s
  else match answer with
       | None => s
       | Some (total, crates) =>
           let s := { { s with activeCatalogPage := page } with
                     pages_read := pages_read s ++ [{| page_url := from; page_total := total; page_crates := crates; page_managed := [] |}] } in
           let s := { s with activePublicPackageTotal := Z.max (activePublicPackageTotal s) (Z.max 0 total) } in
           renderCargoOverview { s with known := mergeCargoPackageRecords crates [] false (known s) }
       end.

Definition refreshCargoPackagePage (s : view) : view :=
  match activePackageDetails s with
  | Some (d, _) => spawn (Refreshing (package_name d) (package_url (activeRepository s) (package_name d))) s
  | None => s
  end.

(** The request of an operation, with the repository of now. *)
Definition send (at_ : button_place) (name : jsstring) (op : operation) (s : view) : view :=
  let r := {| clicked := at_; asked := op; method := method_of op; url := cargoAPIPath (activeRepository s) (segments_of name op) |} in
  spawn (Sending at_ name op) { s with sent := sent s ++ [r] }.

Definition leave_to (path : jsstring) (s : view) : view := if navigable s then { s with navigations := navigations s ++ [path] } else s.

Context (username : jsstring).

(** [username]: what is stored as the name of the account. *)
Definition is_self (name : jsstring) : bool := eqs (toLowerCase name) (toLowerCase (trim username)).

Inductive page_button :=
  | Toggle_archive | Delete_package_button | Yank_button (version : jsstring) | Unyank_button (version : jsstring)
  | Delete_version_button (version : jsstring) | Delete_docs_button (version : jsstring) | Remove_member_button (username userID : jsstring).

Definition handleCargoPageClick (at_ : button_place) (b : page_button) (s : view) : view :=
  match activePackageDetails s with
  | None => s
  | Some (d, _) =>
      let name := package_name d in
      match b with
      | Toggle_archive => send at_ name (if archived d then Unarchive else Archive) s
      | Delete_package_button => spawn (Confirming at_ name Delete_package) s
      | Yank_button v => send at_ name (Yank v) s
      | Unyank_button v => send at_ name (Unyank v) s
      | Delete_version_button v => spawn (Confirming at_ name (Delete_version v)) s
      | Delete_docs_button v =>
          if truthy v then spawn (Confirming at_ name (Delete_docs v)) s
          else
            let '(shown, selected) := getSelectedVersion (versions d) (activeSelectedVersion s) in
            let v := match shown with Some x => version_name x | None => [] end in
            let v := str_or v (match versions d with x :: _ => version_name x | [] => [] end) in
            spawn (Confirming at_ name (Delete_docs v)) { s with activeSelectedVersion := selected }
      | Remove_member_button u i => spawn ((if is_self u then Confirming else Naming) at_ name (Remove_member u i)) s
      end
  end.

(** What follows an operation that succeeded. *)
Definition operation_done (op : operation) (s : view) : view :=
  match op with
  | Delete_package => leave_to (cargoPagePath (activeRepository s) []) s
  | Remove_member u _ => if is_self u then leave_to (cargoPagePath (activeRepository s) []) s else refreshCargoPackagePage s
  | _ => refreshCargoPackagePage s
  end.

Inductive answer :=
  | Catalog_answer (page : option catalog_page) (managed : option managed_packages)
  | Details_answer (d : option (option details))
  | More_answer (page : option catalog_page)
  | Named | Chosen (confirmed : bool) | Finished (ok : bool).

(** [None]: not an answer to this. *)
Definition job_answered (j : job) (a : answer) (s : view) : option view :=
  match j, a with
  | Load_catalog q from, Catalog_answer page managed => Some (catalog_answered q from page managed s)
  | Load_package q _ from, Details_answer d => Some (package_answered q from d s)
  | Load_more q page from, More_answer p => Some (more_answered q page from p s)
  | Naming at_ name op, Named => Some (spawn (Confirming at_ name op) s)
  | Confirming at_ name op, Chosen true => Some (send at_ name op { s with confirmed := confirmed s ++ [(at_, op)] })
  | Confirming _ _ _, Chosen false => Some s
  | Sending _ _ op, Finished ok => Some (if ok then operation_done op s else s)
  | Refreshing _ from, Details_answer d => Some (match d with Some d => details_read d from s | None => s end)
  | _, _ => None
  end.

Inductive event :=
  | Visit (path format : jsstring) | Hide | State_changed (changedRepository pathname : jsstring) | Language_changed
  | Click (b : page_button) | More_click | Choose (v : jsstring) | Answer (i : nat) (a : answer).

(** A button is clicked that is on the page; a version is chosen that is in its list. *)
Definition step (e : event) (s : view) : option view :=
  match e with
  | Visit path format => renderCargoRepository path format s
  | Hide => Some (hideCargoRepositoryView s)
  | State_changed r path => handleCargoStateChanged r path s
  | Language_changed => Some (handleCargoLanguageChanged s)
  | Click b =>
      match body s with
      | Package r d _ => Some (handleCargoPageClick {| at_repository := r; at_package := package_name d |} b s)
      | _ => None
      end
  | More_click => match body s with Packages _ _ _ true _ => Some (loadMoreCargoPackages s) | _ => None end
  | Choose v =>
      match body s with
      | Package _ d _ =>
          if bool_decide (v ∈ version_name <$> List.filter (λ v, negb (pending_review v)) (versions d))
          then Some { s with activeSelectedVersion := v } else None
      | _ => None
      end
  | Answer i a => j ← jobs s !! i; job_answered j a { s with jobs := delete i (jobs s) }
  end.

End pages.

(** ** Maps by name *)

Lemma add_name_nodup k l : NoDup l → NoDup (add_name k l).
Proof.
  unfold add_name. case_bool_decide; [done|]. intros Hl. apply NoDup_app. split_and!; [done| |apply NoDup_singleton]. by intros x Hx ->%list_elem_of_singleton.
Qed.

Lemma elem_of_add_name x k l : x ∈ add_name k l ↔ x = k ∨ x ∈ l.
Proof. unfold add_name. case_bool_decide; rewrite ?elem_of_app, ?list_elem_of_singleton; naive_solver. Qed.

(** An object has every property once. *)
Definition wf (record : jsval) : Prop := NoDup (fields_of record).*1.

Lemma key_object r : key_of r ≠ [] → ∃ fields, r = JObj fields ∧ is_Some (assoc fields (js "name")).
Proof.
  intros Hk. destruct r as [| | | | | |fields]; try (by destruct Hk). exists fields. split; [done|]. destruct (assoc fields (js "name")) eqn:E; [done|].
  destruct Hk. unfold key_of, property. by rewrite E.
Qed.

(** The properties of the new record come first. *)
Lemma property_merged old r k : wf r → is_Some (assoc (fields_of r) k) → property k (merged old r) = property k r.
Proof.
  intros Hw [v Hv]. unfold merged. cbn [property]. rewrite assoc_spread by done. rewrite Hv. destruct r; try done. cbn in *. by rewrite Hv.
Qed.

Lemma key_merged old r : wf r → key_of r ≠ [] → key_of (merged old r) = key_of r.
Proof.
  intros Hw (fields & -> & Hn)%key_object. unfold key_of at 1. rewrite property_merged; done.
Qed.

Lemma archived_merged old r : wf r → is_archived r = true → is_archived (merged old r) = true.
Proof.
  intros Hw Ha. unfold is_archived in *. rewrite property_merged; [done|done|].
  destruct r as [| | | | | |fields]; try done. cbn in *. destruct (assoc fields (js "archived")); done.
Qed.

(** *** The map while it is filled *)

Record filled (m : by_name) (names : list jsstring) : Prop := {
  fi_keys : NoDup m.*1;
  fi_key : ∀ k r, (k, r) ∈ m → key_of r = k ∧ k ≠ [];
  fi_names : NoDup names;
  fi_sub : ∀ k, k ∈ names → k ∈ m.*1;
  fi_rest : ∀ k r, (k, r) ∈ m → k ∉ names → is_archived r = true
}.

Lemma elem_of_keys (m : by_name) k v x : x ∈ (set_key m k v).*1 ↔ x = k ∨ x ∈ m.*1.
Proof. rewrite set_key_keys. exact (elem_of_add_name x k m.*1). Qed.

Lemma filled_put m names names' r :
  wf r → key_of r ≠ [] → NoDup names' → (∀ k, k ∈ names' → k = key_of r ∨ k ∈ names) → (∀ k, k ∈ names → k ∈ names') →
  (key_of r ∉ names' → is_archived r = true) → filled m names → filled (set_key m (key_of r) (merged (assoc m (key_of r)) r)) names'.
Proof.
  intros Hw Hk Hn Hsub Hsup Ha [H1 H2 H3 H4 H5]. split.
  - rewrite set_key_keys. exact (add_name_nodup _ _ H1).
  - intros k x [[= -> ->] | [_ Hin]]%elem_of_set_key; [|by apply H2|done]. split; [by apply key_merged|done].
  - done.
  - intros k Hin%Hsub. apply elem_of_keys. destruct Hin; auto.
  - intros k x [[= -> ->] | [_ Hin]]%elem_of_set_key Hnot; [apply archived_merged; auto| |done]. apply (H5 _ _ Hin). auto.
Qed.

Lemma put_public_filled mn r : wf r → filled mn.1 mn.2 → filled (put_public mn r).1 (put_public mn r).2.
Proof.
  intros Hw Hf. unfold put_public. cbv zeta. destruct (truthy (key_of r)) eqn:E; [|done]. apply truthy_true in E.
  apply (filled_put mn.1 mn.2); cbn; [done|done|apply add_name_nodup, Hf|by intros k ?%elem_of_add_name|intros k Hin; apply elem_of_add_name; by right| |done].
  intros Hn. destruct Hn. apply elem_of_add_name. by left.
Qed.

Lemma put_managed_filled mn r : wf r → filled mn.1 mn.2 → filled (put_managed mn r).1 (put_managed mn r).2.
Proof.
  intros Hw Hf. unfold put_managed. cbv zeta. destruct (truthy (key_of r)) eqn:E; [|done]. apply truthy_true in E. destruct (is_archived r) eqn:Ea.
  - apply (filled_put mn.1 mn.2); cbn; [done|done|apply Hf|by auto|by auto|done|done].
  - apply (filled_put mn.1 mn.2); cbn; [done|done|apply add_name_nodup, Hf|by intros k ?%elem_of_add_name|intros k Hin; apply elem_of_add_name; by right| |done].
    intros Hn. destruct Hn. apply elem_of_add_name. by left.
Qed.

Lemma put_filled {f : by_name * list jsstring → jsval → by_name * list jsstring} (l : list jsval) mn :
  (∀ mn r, wf r → filled mn.1 mn.2 → filled (f mn r).1 (f mn r).2) → Forall wf l → filled mn.1 mn.2 → filled (foldl f mn l).1 (foldl f mn l).2.
Proof. intros Hf Hl. revert mn. induction Hl as [|r l Hr _ IH]; intros mn Hm; [done|]. cbn. auto. Qed.

(** Each step adds the key of its record. *)
Definition adds_key (f : by_name * list jsstring → jsval → by_name * list jsstring) : Prop :=
  ∀ mn r x, x ∈ (f mn r).1.*1 ↔ (x = key_of r ∧ x ≠ []) ∨ x ∈ mn.1.*1.

Lemma put_public_key : adds_key put_public.
Proof.
  intros mn r x. unfold put_public. cbv zeta. destruct (truthy (key_of r)) eqn:E.
  - apply truthy_true in E. cbn [fst]. rewrite elem_of_keys. naive_solver.
  - apply truthy_false in E. rewrite E. naive_solver.
Qed.

Lemma put_managed_key : adds_key put_managed.
Proof.
  intros mn r x. unfold put_managed. cbv zeta. destruct (truthy (key_of r)) eqn:E.
  - apply truthy_true in E. cbn [fst]. rewrite elem_of_keys. naive_solver.
  - apply truthy_false in E. rewrite E. naive_solver.
Qed.

Lemma fold_keys f l mn x : adds_key f → x ∈ (foldl f mn l).1.*1 ↔ (x ≠ [] ∧ x ∈ key_of <$> l) ∨ x ∈ mn.1.*1.
Proof.
  unfold adds_key. intros Hf. revert mn. induction l as [|r l IH]; intros mn; cbn [foldl].
  - cbn. rewrite elem_of_nil. tauto.
  - rewrite IH, Hf, fmap_cons, elem_of_cons. tauto.
Qed.

Definition keyed (l : list jsval) : by_name := (λ r, (key_of r, r)) <$> l.

Lemma keyed_fst l : (keyed l).*1 = key_of <$> l.
Proof. unfold keyed. rewrite <- list_fmap_compose. done. Qed.

Lemma keyed_snd l : (keyed l).*2 = l.
Proof. unfold keyed. rewrite <- list_fmap_compose. cbn. apply list_fmap_id. Qed.

Lemma known_records l m : NoDup (m.*1 ++ (key_of <$> l)) → [] ∉ key_of <$> l → foldl put_known m l = m ++ keyed l.
Proof.
  revert m. induction l as [|r l IH]; intros m Hn Hk; cbn [foldl]; [by rewrite app_nil_r|].
  rewrite fmap_cons in Hn, Hk. apply not_elem_of_cons in Hk as [Hr Hk].
  assert (put_known m r = m ++ [(key_of r, r)]) as ->.
  { unfold put_known. assert (truthy (key_of r) = true) as -> by (apply truthy_true; congruence). apply set_key_absent.
    apply NoDup_app in Hn as (_ & Hd & _). intros Hin. apply (Hd _ Hin). by left. }
  rewrite IH; [by rewrite <- app_assoc| |done]. rewrite fmap_app, <- app_assoc. exact Hn.
Qed.

Lemma keyed_self m names : filled m names → keyed m.*2 = m.
Proof.
  intros [_ Hk _ _ _]. induction m as [|[k r] m IH]; [done|]. csimpl. destruct (Hk k r) as [-> _]; [by left|]. f_equal. apply IH.
  intros k' r' Hin. apply Hk. by right.
Qed.

Lemma filled_perm m m' names : m ≡ₚ m' → filled m names → filled m' names.
Proof.
  intros Hp [H1 H2 H3 H4 H5]. split; [by rewrite <- Hp|by intros k r; rewrite <- Hp; apply H2|done|by intros k Hk; rewrite <- Hp; auto|].
  intros k r. rewrite <- Hp. apply H5.
Qed.

Section merging.
Context `{Collator}.

(** What the catalog is before and after every page: records of different names, of which those that are not known as public are archived. *)
Definition catalog_ok (c : package_catalog) : Prop := filled (keyed (packages c)) (public_names c).

(** The map before it is sorted. *)
Definition merge_map (pub man : list jsval) (reset : bool) (c : package_catalog) : by_name * list jsstring :=
  foldl put_managed (foldl put_public (keyed (if reset then [] else packages c), public_names c) pub) man.

Lemma merge_is pub man reset c :
  catalog_ok c → mergeCargoPackageRecords pub man reset c =
  {| packages := sort_by compare_records (merge_map pub man reset c).1.*2; public_names := (merge_map pub man reset c).2 |}.
Proof.
  intros Hc. unfold mergeCargoPackageRecords, merge_map. cbv zeta. rewrite (known_records (if reset then [] else packages c) []); [done| |].
  - cbn. destruct reset; [apply NoDup_nil_2|]. rewrite <- keyed_fst. apply Hc.
  - destruct reset; [apply not_elem_of_nil|]. intros (r & Hr & Hin)%list_elem_of_fmap.
    destruct (fi_key _ _ Hc (key_of r) r) as [_ Hne]; [by apply (list_elem_of_fmap_2 (λ r, (key_of r, r)))|]. congruence.
Qed.

Lemma merge_filled pub man reset c :
  catalog_ok c → (reset = true → public_names c = []) → Forall wf pub → Forall wf man →
  filled (merge_map pub man reset c).1 (merge_map pub man reset c).2.
Proof.
  intros Hc Hr Hp Hm. unfold merge_map. apply put_filled; [apply put_managed_filled|done|]. apply put_filled; [apply put_public_filled|done|].
  cbn. destruct reset; [|exact Hc]. rewrite Hr by done. split; try done; [apply NoDup_nil_2|by intros ? ? ?%elem_of_nil|apply NoDup_nil_2|by intros ? ? ?%elem_of_nil].
Qed.

(** A managed record is kept with its properties by the records of other names that follow. *)
Lemma managed_kept l mn k x : k ∉ key_of <$> l → assoc mn.1 k = Some x → assoc (foldl put_managed mn l).1 k = Some x.
Proof.
  revert mn. induction l as [|r l IH]; intros mn Hk Ha; [done|]. rewrite fmap_cons in Hk. apply not_elem_of_cons in Hk as [Hne Hk].
  cbn [foldl]. apply IH; [done|]. unfold put_managed. cbv zeta. destruct (truthy (key_of r)); [|done]. cbn [fst]. rewrite assoc_set_key.
  destruct (eqs (key_of r) k) eqn:E; [apply eqs_true in E; congruence|done].
Qed.

Lemma managed_in man mn m :
  m ∈ man → key_of m ≠ [] → NoDup (key_of <$> man) → ∃ old, assoc (foldl put_managed mn man).1 (key_of m) = Some (merged old m).
Proof.
  intros (pre & post & ->)%list_elem_of_split Hk Hn. rewrite foldl_app. cbn [foldl].
  rewrite fmap_app, fmap_cons in Hn. apply NoDup_app in Hn as (_ & _ & [Hpost _]%NoDup_cons). eexists. apply managed_kept; [done|].
  unfold put_managed at 1. cbv zeta. apply truthy_true in Hk. rewrite Hk. cbn [fst]. by rewrite assoc_set_key, eqs_refl.
Qed.

Lemma filter_names names (l : list jsval) :
  NoDup (key_of <$> l) → NoDup names → (∀ k, k ∈ names → k ∈ key_of <$> l) →
  length (List.filter (λ r, bool_decide (key_of r ∈ names)) l) = length names.
Proof.
  intros Hl Hn Hsub. rewrite <- (length_fmap key_of). apply Permutation_length. apply NoDup_Permutation; [|done|].
  - eapply sublist_NoDup; [exact Hl|]. apply fmap_sublist. clear. induction l as [|r l IH]; cbn; [constructor|].
    destruct (bool_decide _); by constructor.
  - intros k. rewrite list_elem_of_fmap. split.
    + intros (r & -> & Hr%list_elem_of_In). apply filter_In in Hr as [_ Hr]. by apply bool_decide_eq_true in Hr.
    + intros Hk. destruct (proj1 (list_elem_of_fmap _ _ _) (Hsub k Hk)) as (r & -> & Hr). exists r. split; [done|].
      apply list_elem_of_In, filter_In. split; [by apply list_elem_of_In|]. by apply bool_decide_eq_true.
Qed.

Lemma filter_split {A} (p q : A → bool) l : (∀ x, x ∈ l → q x = negb (p x)) → length (List.filter p l) + length (List.filter q l) = length l.
Proof.
  induction l as [|x l IH]; intros Hq; [done|]. cbn. rewrite (Hq x) by by left. specialize (IH (λ y Hy, Hq y (list_elem_of_further _ _ _ Hy))).
  destruct (p x); cbn; lia.
Qed.

Lemma filled_ok m names : filled m names → catalog_ok {| packages := sort_by compare_records m.*2; public_names := names |}.
Proof.
  intros Hf. unfold catalog_ok. cbn. apply (filled_perm m); [|done].
  rewrite <- (keyed_self _ _ Hf) at 1. unfold keyed. by rewrite sort_by_perm.
Qed.

Lemma compare_records_consistent : consistent (λ _, True) compare_records.
Proof. apply (consistent_on (λ _, True) key_of), localeCompare_consistent. Qed.

Lemma catalog_key c r : catalog_ok c → r ∈ packages c → key_of r ≠ [].
Proof. intros Hc Hr. by destruct (fi_key _ _ Hc (key_of r) r (list_elem_of_fmap_2 (λ r, (key_of r, r)) _ _ Hr)). Qed.

Lemma catalog_rest c r : catalog_ok c → r ∈ packages c → key_of r ∉ public_names c → is_archived r = true.
Proof. intros Hc Hr. exact (fi_rest _ _ Hc (key_of r) r (list_elem_of_fmap_2 (λ r, (key_of r, r)) _ _ Hr)). Qed.

(** The count is the number of the packages of the list once all public ones are known. *)
Lemma count_packages total c : catalog_ok c → total = Z.of_nat (length (public_names c)) → cargoCatalogCount total c = Z.of_nat (length (packages c)).
Proof.
  intros Hc ->. unfold cargoCatalogCount.
  rewrite <- (filter_split (λ r, bool_decide (key_of r ∈ public_names c))
    (λ r, truthy (key_of r) && is_archived r && negb (bool_decide (key_of r ∈ public_names c))) (packages c)).
  - rewrite filter_names; [lia| | |].
    + rewrite <- keyed_fst. apply Hc.
    + apply Hc.
    + intros k Hk. rewrite <- keyed_fst. by apply Hc.
  - intros r Hr. pose proof (proj2 (truthy_true _) (catalog_key _ _ Hc Hr)) as ->. case_bool_decide as Hn; [by rewrite andb_false_r|].
    by rewrite (catalog_rest _ _ Hc Hr Hn).
Qed.
End merging.

(** A page of public packages and the managed ones, each with its properties once, are merged into the catalog, or replace it:
    the list has every name once, in the order of the names, and no other names than before and in the answers. A managed record keeps
    its properties, whatever else is known of the package. The records that are not public are archived ones, so the count is the
    number of packages on the page when all public ones are known. *)
Theorem catalog_merged `{Collator} pub man (reset : bool) c :
  catalog_ok c → (reset = true → public_names c = []) → Forall wf pub → Forall wf man →
  let c' := mergeCargoPackageRecords pub man reset c in
  catalog_ok c' ∧ StronglySorted (le_by compare_records) (packages c') ∧ NoDup (key_of <$> packages c') ∧
  (∀ k, k ∈ key_of <$> packages c' ↔ k ≠ [] ∧ k ∈ key_of <$> (if reset then [] else packages c) ++ pub ++ man) ∧
  (∀ r k, r ∈ man → key_of r ≠ [] → NoDup (key_of <$> man) → is_Some (assoc (fields_of r) k) →
     ∃ r', r' ∈ packages c' ∧ key_of r' = key_of r ∧ property k r' = property k r) ∧
  cargoCatalogCount (Z.of_nat (length (public_names c'))) c' = Z.of_nat (length (packages c')).
Proof.
  intros Hc Hr Hp Hm. rewrite merge_is by done. cbv zeta. pose proof (merge_filled pub man reset c Hc Hr Hp Hm) as Hf.
  pose proof (filled_ok _ _ Hf) as Hok. set (mn := merge_map pub man reset c) in *.
  assert (Hkeys : ∀ k, k ∈ key_of <$> sort_by compare_records mn.1.*2 ↔ k ∈ mn.1.*1).
  { intros k. rewrite sort_by_perm. by rewrite <- keyed_fst, (keyed_self _ _ Hf). }
  split; [exact Hok|]. cbn [packages public_names]. split_and!.
  - apply (sort_by_sorted (λ _, True)); [apply compare_records_consistent|by apply Forall_true].
  - rewrite sort_by_perm, <- keyed_fst, (keyed_self _ _ Hf). apply Hf.
  - intros k. rewrite Hkeys. unfold mn, merge_map. rewrite (fold_keys _ _ _ _ put_managed_key), (fold_keys _ _ _ _ put_public_key).
    rewrite !fmap_app, !elem_of_app. cbn [fst]. rewrite keyed_fst. split; [|tauto]. intros [?|[?|Hk]]; [tauto|tauto|]. split; [|tauto].
    destruct reset; [by apply elem_of_nil in Hk|]. apply list_elem_of_fmap in Hk as (r & -> & Hr'). exact (catalog_key c r Hc Hr').
  - intros r k Hin Hk Hn Hs. destruct (managed_in man (foldl put_public (keyed (if reset then [] else packages c), public_names c) pub) r Hin Hk Hn) as (old & E%assoc_elem).
    exists (merged old r). assert (Hw : wf r) by by eapply Forall_forall. split_and!; [|by apply key_merged|by apply property_merged].
    rewrite sort_by_perm. by apply (list_elem_of_fmap_2 snd) in E.
  - by apply (count_packages _ _ Hok).
Qed.

(** ** The version shown *)

(** The version shown is one of the list that is not under review, and there is one unless all are. What was selected is shown if it
    can be; then it stays selected, and a version is selected that is not yanked if there is one. *)
Theorem version_selected versions selected :
  let r := getSelectedVersion versions selected in
  (∀ v, r.1 = Some v → v ∈ versions ∧ pending_review v = false) ∧
  ((∃ v, v ∈ versions ∧ pending_review v = false) → is_Some r.1) ∧
  (∀ v, selected ≠ [] → List.find (λ x, eqs (version_name x) selected) versions = Some v → pending_review v = false → r = (Some v, selected)) ∧
  (∀ v, selected = [] → v ∈ versions → pending_review v = false → yanked v = false → ∃ v', r.1 = Some v' ∧ yanked v' = false).
Proof.
  intros r. assert (Hd : ∀ v, default_version versions = Some v → v ∈ versions ∧ pending_review v = false).
  { unfold default_version. intros v. destruct (List.find _ versions) eqn:E.
    - intros [= <-]. apply find_some in E as [Hin [E _]%andb_true_iff]. by apply list_elem_of_In in Hin; apply negb_true_iff in E.
    - intros E'. apply find_some in E' as [Hin E']. by apply list_elem_of_In in Hin; apply negb_true_iff in E'. }
  assert (Hany : ∀ v, v ∈ versions → pending_review v = false → is_Some (default_version versions)).
  { unfold default_version. intros v Hv Hp. destruct (List.find _ versions); [done|]. destruct (List.find (λ v, negb (pending_review v)) versions) eqn:E; [done|].
    apply list_elem_of_In in Hv. pose proof (find_none _ _ E v Hv) as Hn. cbn in Hn. by rewrite Hp in Hn. }
  assert (Hr : r.1 = default_version versions ∨ ∃ v, r = (Some v, selected) ∧ v ∈ versions ∧ pending_review v = false).
  { subst r. unfold getSelectedVersion. destruct versions as [|v0 vs]; [by left|]. destruct (truthy selected); [|by left].
    destruct (List.find (λ v, eqs (version_name v) selected) (v0 :: vs)) as [v|] eqn:E; [|by left]. destruct (pending_review v) eqn:Ep; cbn; [by left|].
    right. exists v. apply find_some in E as [Hin _]. split; [done|]. split; [by apply list_elem_of_In|done]. }
  split_and!.
  - intros v Hv. destruct Hr as [E | (v' & E & Hin & Hp)]; [apply Hd; congruence|]. rewrite E in Hv. by injection Hv as <-.
  - intros (v & Hv & Hp). destruct Hr as [-> | (v' & -> & _)]; [by eapply Hany|done].
  - intros v Hs E Hp. subst r. unfold getSelectedVersion. apply truthy_true in Hs. rewrite Hs. rewrite E. destruct versions as [|v0 vs]; [done|]. by rewrite Hp.
  - intros v -> Hv Hp Hy. subst r. unfold getSelectedVersion. cbn [truthy]. destruct versions as [|v0 vs]; [by apply elem_of_nil in Hv|]. cbn [fst].
    unfold default_version. destruct (List.find (λ v, negb (pending_review v) && negb (yanked v)) (v0 :: vs)) as [x|] eqn:E.
    + exists x. apply find_some in E as [_ [_ E]%andb_true_iff]. split; [done|]. by apply negb_true_iff in E.
    + apply list_elem_of_In in Hv. pose proof (find_none _ _ E v Hv) as Hn. cbn in Hn. by rewrite Hp, Hy in Hn.
Qed.

(** ** The pages follow the route *)

Section follow.
Context `{Collator} (username : jsstring).

Definition name_key (name : jsstring) : jsstring := normalizeCargoPackageName (JStr name).

(** The package of the route is on the page, read from this repository, and buttons act on it. *)
Definition shows_package (name : jsstring) (s : view) : Prop :=
  ∃ d m, body s = Package (activeRepository s) d (package_url (activeRepository s) m) ∧ activeRouteKind s = Package_kind ∧
    activePackageDetails s = Some (d, package_url (activeRepository s) m) ∧ name_key m = name_key name ∧ name_key (package_name d) = name_key name.

(** What the answers of pages make up, merged in turn into an empty catalog; the greatest of their totals. *)
Definition merged_pages (ps : list page_read) : package_catalog :=
  foldl (λ c p, mergeCargoPackageRecords (page_crates p) (page_managed p) false c) no_packages ps.

Definition pages_total (ps : list page_read) : Z := foldl (λ t p, Z.max t (Z.max 0 (page_total p))) 0%Z ps.

Definition page_records (p : page_read) : list jsval := page_crates p ++ page_managed p.

(** The state holds the first pages of this repository and no others: their records, and no other names. *)
Definition reads_pages (s : view) : Prop :=
  page_url <$> pages_read s = catalog_url (activeRepository s) <$> seq 1 (activeCatalogPage s) ∧
  known s = merged_pages (pages_read s) ∧ activePublicPackageTotal s = pages_total (pages_read s) ∧
  Forall (λ p, Forall wf (page_records p)) (pages_read s) ∧
  (∀ k, k ∈ key_of <$> packages (known s) ↔ k ≠ [] ∧ ∃ p, p ∈ pages_read s ∧ k ∈ key_of <$> page_records p).

(** The catalog is on the page: what the first pages of this repository make up. *)
Definition shows_catalog (s : view) : Prop :=
  body s = Packages (activeRepository s) (packages (known s)) (cargoCatalogCount (activePublicPackageTotal s) (known s))
             (has_more_packages (activePublicPackageTotal s) (known s)) (pages_read s) ∧
  activeRouteKind s = Overview_kind ∧ activePackageDetails s = None ∧ reads_pages s.

Definition failed (s : view) : Prop := body s = Unavailable ∧ activeRouteKind s = Error_kind.

Definition follows_route (s : view) : Prop :=
  match current s with
  | Away => body s = Nothing ∧ hidden s = true
  | All_packages => shows_catalog s ∨ failed s
  | One_package name => shows_package name s ∨ failed s
  | Unknown_page => failed s
  end.

(** What loads a page, with its sequence; what is part of an operation. *)
Definition load_sequence (j : job) : option nat :=
  match j with Load_catalog q _ | Load_package q _ _ | Load_more q _ _ => Some q | _ => None end.

Definition loads_now (q : nat) (j : job) : bool := bool_decide (load_sequence j = Some q).

Definition loads_route (q : nat) (j : job) : bool := match j with Load_more _ _ _ => false | _ => loads_now q j end.

Definition is_operation (j : job) : bool := match load_sequence j with Some _ => false | None => true end.

Definition loaded (s : view) : bool := forallb (λ j, negb (loads_now (cargoLoadSequence s) j)) (jobs s).

Definition no_operations (s : view) : bool := forallb (λ j, negb (is_operation j)) (jobs s).

(** The registry answers with the package that was asked, up to the spelling; objects have each property once. *)
Definition fits (j : job) (a : answer) : Prop :=
  match j, a with
  | Load_catalog _ _, Catalog_answer page managed =>
      (∀ p, page = Some p → Forall wf p.2) ∧ (∀ m, managed = Some m → Forall wf m.2)
  | Load_more _ _ _, More_answer page => ∀ p, page = Some p → Forall wf p.2
  | Load_package _ name _, Details_answer (Some d) | Refreshing name _, Details_answer (Some d) =>
      ∃ d', d = Some d' ∧ name_key (package_name d') = name_key name
  | _, _ => True
  end.

(** Routes change when no operation is under way, and buttons are clicked when no page is loading. *)
Definition calm (e : event) (s : view) : Prop :=
  match e with
  | Visit _ _ | Hide | State_changed _ _ => no_operations s = true
  | Click _ | More_click => loaded s = true
  | Answer i a => ∀ j, jobs s !! i = Some j → fits j a
  | Language_changed | Choose _ => True
  end.

Definition calm_step (s s' : view) : Prop := ∃ e, calm e s ∧ step username e s = Some s'.

(** *** The invariant *)

Definition op_ok (s : view) (name : jsstring) : Prop := ∃ n, current s = One_package n ∧ shows_package n s ∧ name_key name = name_key n.

Definition at_ok (s : view) (at_ : button_place) (name : jsstring) : Prop := at_repository at_ = activeRepository s ∧ at_package at_ = name ∧ op_ok s name.

Definition job_ok (s : view) (j : job) : Prop :=
  match j with
  | Load_catalog q u => q = cargoLoadSequence s → current s = All_packages ∧ u = catalog_url (activeRepository s) 1
  | Load_package q n u => q = cargoLoadSequence s → current s = One_package n ∧ u = package_url (activeRepository s) n
  | Load_more q p u =>
      q = cargoLoadSequence s → current s = All_packages ∧ p = S (activeCatalogPage s) ∧ u = catalog_url (activeRepository s) p ∧ shows_catalog s
  | Naming a n op => at_ok s a n
  | Confirming a n op => at_ok s a n
  | Sending a n op => at_ok s a n
  | Refreshing n u => u = package_url (activeRepository s) n ∧ op_ok s n
  end.

(** The request goes to the repository and the package of the button, after the question if the operation destroys something. *)
Definition request_ok (s : view) (r : request) : Prop :=
  url r = cargoAPIPath (at_repository (clicked r)) (segments_of (at_package (clicked r)) (asked r)) ∧ method r = method_of (asked r) ∧
  (destructive (asked r) = true → (clicked r, asked r) ∈ confirmed s).

Record base (s : view) : Prop := {
  ba_past : ∀ j q, j ∈ jobs s → load_sequence j = Some q → q ≤ cargoLoadSequence s;
  ba_one : length (List.filter (loads_now (cargoLoadSequence s)) (jobs s)) ≤ 1;
  ba_quiet : ∀ j j', j ∈ jobs s → j' ∈ jobs s → is_operation j = true → loads_now (cargoLoadSequence s) j' = false;
  ba_jobs : ∀ j, j ∈ jobs s → job_ok s j;
  ba_sent : ∀ r, r ∈ sent s → request_ok s r;
  ba_catalog : catalog_ok (known s)
}.

Definition shown_ok (s : view) : Prop := (∀ j, j ∈ jobs s → loads_route (cargoLoadSequence s) j = false) → follows_route s.

(** *** Requests under way *)

(** Only loads of pages that were left. *)
Definition left_behind (q : nat) (js : list job) : Prop := ∀ j, j ∈ js → ∃ q', load_sequence j = Some q' ∧ q' < q.

Definition idle (s : view) : Prop := ∀ j, j ∈ jobs s → loads_now (cargoLoadSequence s) j = false.

Lemma loads_now_true q j : loads_now q j = true ↔ load_sequence j = Some q.
Proof. unfold loads_now. apply bool_decide_eq_true. Qed.

Lemma route_loads_now q j : loads_route q j = true → loads_now q j = true.
Proof. by destruct j. Qed.

Lemma stale_now q js j : left_behind q js → j ∈ js → loads_now q j = false ∧ is_operation j = false.
Proof.
  intros Hs (q' & E & Hlt)%Hs. unfold is_operation. rewrite E. split; [|done]. apply bool_decide_eq_false. rewrite E. intros [= ->]. lia.
Qed.

Lemma stale_job s j : left_behind (cargoLoadSequence s) (jobs s) → j ∈ jobs s → job_ok s j.
Proof. intros Hs (q' & E & Hlt)%Hs. destruct j; cbn in *; simplify_eq; lia. Qed.

Lemma elem_of_delete {A} (l : list A) i x : x ∈ delete i l → x ∈ l.
Proof. intros Hx. eapply elem_of_sublist; [exact Hx|apply sublist_delete]. Qed.

Lemma filter_nil_all {A} (p : A → bool) l : (∀ x, x ∈ l → p x = false) → List.filter p l = [].
Proof. induction l as [|x l IH]; intros Hl; [done|]. cbn. rewrite (Hl x) by by left. apply IH. intros y Hy. apply Hl. by right. Qed.

Lemma stale_filter q js : left_behind q js → List.filter (loads_now q) js = [].
Proof.
  intros Hs. induction js as [|j js IH]; [done|]. cbn. destruct (stale_now q (j :: js) j Hs) as [-> _]; [by left|]. apply IH. intros j' Hj. apply Hs. by right.
Qed.

Lemma stale_base s :
  left_behind (cargoLoadSequence s) (jobs s) → (∀ r, r ∈ sent s → request_ok s r) → catalog_ok (known s) → base s.
Proof.
  intros Hs Hr Hc. split; [| | | |done|done].
  - intros j q (q' & -> & Hlt)%Hs [= ->]. lia.
  - rewrite (stale_filter _ _ Hs). cbn. lia.
  - intros j j' Hj _ Ho. destruct (stale_now _ _ j Hs Hj) as [_ E]. congruence.
  - intros j Hj. by apply stale_job.
Qed.

Lemma load_base s j js :
  jobs s = js ++ [j] → left_behind (cargoLoadSequence s) js → load_sequence j = Some (cargoLoadSequence s) → job_ok s j →
  (∀ r, r ∈ sent s → request_ok s r) → catalog_ok (known s) → base s.
Proof.
  intros Hj Hs Hq Hok Hr Hc. split; [| | | |done|done]; rewrite Hj.
  - intros j' q [(q' & -> & Hlt)%Hs | ->%list_elem_of_singleton]%elem_of_app; intros E; rewrite ?Hq in E; simplify_eq; lia.
  - rewrite List.filter_app, (stale_filter _ _ Hs). cbn. destruct (loads_now _ j); cbn; lia.
  - intros j1 j2 [H1 | ->%list_elem_of_singleton]%elem_of_app _ Ho.
    + destruct (stale_now _ _ j1 Hs H1) as [_ E]. congruence.
    + unfold is_operation in Ho. by rewrite Hq in Ho.
  - intros j' [H1 | ->%list_elem_of_singleton]%elem_of_app; [|done]. destruct (Hs _ H1) as (q' & E & Hlt). destruct j'; cbn in *; simplify_eq; lia.
Qed.

(** The answer to the load of the page: what is left is stale. *)
Lemma rest_stale s i j :
  base s → jobs s !! i = Some j → loads_now (cargoLoadSequence s) j = true → left_behind (cargoLoadSequence s) (delete i (jobs s)).
Proof.
  intros [Hpast Hone Hquiet _ _ _] Hi Hj j' Hj'. pose proof (elem_of_delete _ _ _ Hj') as Hin.
  destruct (load_sequence j') as [q'|] eqn:E.
  - exists q'. split; [done|]. pose proof (Hpast _ _ Hin E) as Hle. destruct (decide (q' = cargoLoadSequence s)) as [->|]; [exfalso|lia].
    apply loads_now_true in E. destruct (list_elem_of_split_length _ _ _ Hi) as (l1 & l2 & El & ->). rewrite El, delete_middle in Hj'. rewrite El in Hone.
    assert (Hin' : In j' (List.filter (loads_now (cargoLoadSequence s)) (l1 ++ l2))) by (apply filter_In; split; [by apply list_elem_of_In|done]).
    rewrite List.filter_app in Hone, Hin'. cbn in Hone. rewrite Hj, length_app in Hone. cbn in Hone.
    assert (length (List.filter (loads_now (cargoLoadSequence s)) l1 ++ List.filter (loads_now (cargoLoadSequence s)) l2) = 0) as E0%nil_length_inv
      by (rewrite length_app; lia).
    by rewrite E0 in Hin'.
  - exfalso. assert (Ho : is_operation j' = true) by (unfold is_operation; by rewrite E). 
    rewrite (Hquiet j' j Hin) in Hj; [done| |done]. by eapply list_elem_of_lookup_2.
Qed.

(** *** Operations *)

(** Between two loads of pages. *)
Record ready (s : view) : Prop := { re_base : base s; re_idle : idle s; re_page : follows_route s }.

Lemma ready_ok s : ready s → base s ∧ shown_ok s.
Proof. intros [Hb _ Hp]. split; [done|]. by intros _. Qed.

Lemma idle_ready s : base s → shown_ok s → idle s → ready s.
Proof.
  intros Hb Hsh Hi. split; [done|done|]. apply Hsh. intros j Hj. apply not_true_is_false. intros Hr%route_loads_now. by rewrite Hi in Hr.
Qed.

Lemma length_filter_delete {A} (p : A → bool) l i : length (List.filter p (delete i l)) ≤ length (List.filter p l).
Proof.
  revert i. induction l as [|x l IH]; intros [|i]; [done|done|cbn; destruct (p x); cbn; lia|].
  change (delete (S i) (x :: l)) with (x :: delete i l). specialize (IH i). cbn. destruct (p x); cbn; lia.
Qed.

Lemma delete_base s i : base s → base { s with jobs := delete i (jobs s) }.
Proof.
  intros []. assert (Hsub : ∀ j, j ∈ delete i (jobs s) → j ∈ jobs s) by (intros j; apply elem_of_delete).
  split; cbn; [by eauto| |by eauto|by intros j Hj%Hsub; apply ba_jobs0|done|done]. etrans; [apply length_filter_delete|done].
Qed.

Lemma delete_ready s i : ready s → ready { s with jobs := delete i (jobs s) }.
Proof. intros [Hb Hi Hp]. split; [by apply delete_base|intros j Hj; exact (Hi j (elem_of_delete _ _ _ Hj))|exact Hp]. Qed.

Lemma delete_shown s i j :
  jobs s !! i = Some j → loads_route (cargoLoadSequence s) j = false → shown_ok s → shown_ok { s with jobs := delete i (jobs s) }.
Proof.
  intros Hi Hj Hs Hno. apply Hs. intros j' Hin. rewrite (delete_Permutation _ _ _ Hi) in Hin. apply elem_of_cons in Hin as [-> | Hin]; [done|]. by apply Hno.
Qed.

Lemma ready_spawn s j : ready s → is_operation j = true → job_ok s j → ready (spawn j s).
Proof.
  intros [[Hpast Hone Hquiet Hjobs Hsent Hcat] Hi Hp] Ho Hok.
  assert (Hn : load_sequence j = None) by (unfold is_operation in Ho; by destruct (load_sequence j)).
  assert (Hidle : idle (spawn j s)).
  { intros j' [H1 | ->%list_elem_of_singleton]%elem_of_app; [by apply Hi|]. unfold loads_now. by rewrite Hn. }
  split; [|done|exact Hp]. split; [| | | |done|done].
  - intros j' q [H1 | ->%list_elem_of_singleton]%elem_of_app E; [by apply (Hpast j')|congruence].
  - rewrite filter_nil_all by done. cbn. lia.
  - intros j1 j2 _ H2 _. by apply Hidle.
  - intros j' [H1 | ->%list_elem_of_singleton]%elem_of_app; [by apply Hjobs|done].
Qed.

Lemma ready_sent s r : ready s → request_ok s r → ready { s with sent := sent s ++ [r] }.
Proof.
  intros [[] Hi Hp] Hr. split; [|exact Hi|exact Hp]. split; try done. intros r' [H1 | ->%list_elem_of_singleton]%elem_of_app; [by apply ba_sent0|done].
Qed.

Lemma ready_confirmed s c : ready s → ready { s with confirmed := confirmed s ++ [c] }.
Proof.
  intros [[] Hi Hp]. split; [|exact Hi|exact Hp]. split; try done. intros r Hr. destruct (ba_sent0 r Hr) as (H1 & H2 & H3).
  split; [done|split; [done|]]. intros Hd. cbn. apply elem_of_app. left. auto.
Qed.

Lemma ready_selected s v : ready s → ready { s with activeSelectedVersion := v }.
Proof. intros [[] Hi Hp]. split; [by split|exact Hi|exact Hp]. Qed.

Lemma ready_navigate s path : ready s → ready (leave_to path s).
Proof. intros Hr. unfold leave_to. destruct (navigable s); [|done]. destruct Hr as [[] Hi Hp]. split; [by split|exact Hi|exact Hp]. Qed.

Lemma ready_send s a name op :
  ready s → at_ok s a name → (destructive op = true → (a, op) ∈ confirmed s) → ready (send a name op s).
Proof.
  intros Hr Ha Hc. unfold send. cbv zeta. apply ready_spawn; [|done|exact Ha]. apply ready_sent; [done|].
  destruct Ha as (H1 & H2 & _). unfold request_ok. cbn. rewrite H1, H2. split; [done|split; [done|exact Hc]].
Qed.

Lemma op_details s name : op_ok s name → ∃ d from, activePackageDetails s = Some (d, from) ∧ ∃ n, current s = One_package n ∧ shows_package n s ∧ name_key (package_name d) = name_key n.
Proof. intros (n & Hn & Hs & _). pose proof Hs as (d & m & _ & _ & Hd & _ & Hk). eauto 10. Qed.

Lemma ready_refresh s name : ready s → op_ok s name → ready (refreshCargoPackagePage s).
Proof.
  intros Hr (d & from & E & n & Hn & Hs & Hk)%op_details. unfold refreshCargoPackagePage. rewrite E. apply ready_spawn; [done|done|]. cbn. split; [done|]. by exists n.
Qed.

Lemma ready_done s name op : ready s → op_ok s name → ready (operation_done username op s).
Proof.
  intros Hr Ho. destruct op; cbn [operation_done]; try (by eapply ready_refresh); [by apply ready_navigate|].
  destruct (is_self username username0); [by apply ready_navigate|by eapply ready_refresh].
Qed.

(** The answer to a refresh: the page shows it. *)
Lemma ready_details s n d m :
  ready s → current s = One_package n → name_key m = name_key n → name_key (package_name d) = name_key n →
  ready (details_read (Some d) (package_url (activeRepository s) m) s).
Proof.
  intros [[Hpast Hone Hquiet Hjobs Hsent Hcat] Hi Hp] Hc Hm Hd. set (s' := details_read _ _ s).
  assert (Hs : shows_package n s') by by exists d, m.
  assert (Hop : ∀ name, op_ok s name → op_ok s' name).
  { intros name (n' & Hn & _ & Hk). rewrite Hc in Hn. injection Hn as <-. by exists n. }
  split; [|exact Hi|]; [|unfold follows_route; change (current s') with (current s); rewrite Hc; by left].
  split; [exact Hpast|exact Hone|exact Hquiet| |exact Hsent|exact Hcat].
  intros j Hj. specialize (Hjobs j Hj). specialize (Hi j Hj). destruct j; cbn in Hjobs |- *.
  1-3: intros ->; apply bool_decide_eq_false in Hi; by destruct Hi.
  1-3: destruct Hjobs as (H1 & H2 & H3); split; [exact H1|split; [exact H2|by apply Hop]].
  destruct Hjobs as [H1 H2]. split; [exact H1|by apply Hop].
Qed.

(** *** Routes *)

Lemma empty_ok : catalog_ok no_packages.
Proof. split; try done; [apply NoDup_nil_2|by intros ? ? ?%elem_of_nil|apply NoDup_nil_2|by intros ? ? ?%elem_of_nil]. Qed.

Lemma left_stale s : base s → no_operations s = true → left_behind (S (cargoLoadSequence s)) (jobs s).
Proof.
  intros Hb Hn j Hj. unfold no_operations in Hn. rewrite forallb_forall in Hn. specialize (Hn j (proj1 (list_elem_of_In _ _) Hj)).
  unfold is_operation in Hn. destruct (load_sequence j) as [q|] eqn:E; [|done]. exists q. split; [done|]. pose proof (ba_past _ Hb _ _ Hj E). lia.
Qed.

Lemma hide_inv s : base s → no_operations s = true → base (hideCargoRepositoryView s) ∧ shown_ok (hideCargoRepositoryView s).
Proof.
  intros Hb Hn. split; [|by intros _]. apply stale_base; [exact (left_stale s Hb Hn)|apply Hb|apply empty_ok].
Qed.

Lemma parse_away path r : parse_route path ≠ Some (r, Away).
Proof. unfold parse_route. destruct (decodePathSegment <$> path_segments path) as [|[a|] [|[b|] [|[c|] [|d l]]]]; try done; cbn; repeat case_match; congruence. Qed.

Lemma begin_load_is s : ∃ b, beginCargoRouteLoad s = { s with body := b }.
Proof. unfold beginCargoRouteLoad. destruct s as [? ? ? ? ? ? ? ? ? ? ? b ? ? ? ? ? ?]; cbn. destruct b; by eexists. Qed.

(** A load of the page is started. *)
Lemma load_inv s j :
  left_behind (cargoLoadSequence s) (jobs s) → load_sequence j = Some (cargoLoadSequence s) → loads_route (cargoLoadSequence s) j = true → job_ok s j →
  (∀ r, r ∈ sent s → request_ok s r) → catalog_ok (known s) → base (spawn j s) ∧ shown_ok (spawn j s).
Proof.
  intros Hs Hq Hr Hok Hsent Hc. split; [by apply (load_base (spawn j s) j (jobs s))|]. intros Hno. cbn in Hno. rewrite Hno in Hr; [done|].
  apply elem_of_app. right. by left.
Qed.

Lemma visit_inv s path format s' :
  base s → no_operations s = true → renderCargoRepository path format s = Some s' → base s' ∧ shown_ok s'.
Proof.
  intros Hb Hn. unfold renderCargoRepository. destruct (_ || _); [intros [= <-]; by apply hide_inv|].
  destruct (parse_route path) as [[repo r]|] eqn:E; [|done]. cbv zeta. intros [= <-]. pose proof (left_stale s Hb Hn) as Hst. pose proof (ba_sent _ Hb) as Hsent.
  pose proof (ba_catalog _ Hb) as Hcat.
  set (s1 := { { { s with cargoLoadSequence := S (cargoLoadSequence s) } with activeRepository := repo } with navigable := true }).
  set (s0 := { { s1 with hidden := false } with current := r }).
  change (left_behind (cargoLoadSequence s0) (jobs s0)) in Hst. destruct r as [| |name|].
  - by apply parse_away in E.
  - unfold loadCargoOverview. set (s2 := { { s0 with activePackageDetails := None } with activeSelectedVersion := [] }).
    destruct (begin_load_is s2) as [b ->]. apply load_inv; try done. by apply bool_decide_eq_true.
  - unfold loadCargoPackage. destruct (begin_load_is s0) as [b ->]. apply load_inv; try done. by apply bool_decide_eq_true.
  - split; [by apply stale_base|]. intros _. done.
Qed.

(** *** Answers *)

Lemma merged_ok pub man (reset : bool) c :
  (if reset then public_names c = [] else catalog_ok c) → Forall wf pub → Forall wf man → catalog_ok (mergeCargoPackageRecords pub man reset c).
Proof.
  intros Hc Hp Hm. assert (∃ c', catalog_ok c' ∧ (reset = true → public_names c' = []) ∧ mergeCargoPackageRecords pub man reset c = mergeCargoPackageRecords pub man reset c')
    as (c' & H1 & H2 & ->).
  { destruct reset; [|by exists c]. exists no_packages. split; [apply empty_ok|split; [done|]]. unfold mergeCargoPackageRecords. by rewrite Hc. }
  rewrite merge_is by done. by apply filled_ok, merge_filled.
Qed.

Lemma merged_snoc ps p : merged_pages (ps ++ [p]) = mergeCargoPackageRecords (page_crates p) (page_managed p) false (merged_pages ps).
Proof. unfold merged_pages. by rewrite foldl_snoc. Qed.

(** The names of the catalog are those of the records of its pages. *)
Lemma pages_keys ps :
  Forall (λ p, Forall wf (page_records p)) ps →
  catalog_ok (merged_pages ps) ∧
  ∀ k, k ∈ key_of <$> packages (merged_pages ps) ↔ k ≠ [] ∧ ∃ p, p ∈ ps ∧ k ∈ key_of <$> page_records p.
Proof.
  induction ps as [|p ps IH] using rev_ind; intros Hw.
  - split; [apply empty_ok|]. intros k. split; [by intros ?%elem_of_nil|]. by intros (_ & p & ?%elem_of_nil & _).
  - apply Forall_app in Hw as [Hw Hp]. rewrite Forall_singleton in Hp. destruct (IH Hw) as [Hok Hk]. rewrite merged_snoc.
    apply Forall_app in Hp as [Hpub Hman]. destruct (catalog_merged (page_crates p) (page_managed p) false (merged_pages ps) Hok) as (H1 & _ & _ & H2 & _); [done|done|done|].
    split; [exact H1|]. intros k. rewrite H2, fmap_app, elem_of_app, Hk. setoid_rewrite elem_of_app. setoid_rewrite list_elem_of_singleton. unfold page_records. naive_solver.
Qed.

Lemma total_snoc ps p : pages_total (ps ++ [p]) = Z.max (pages_total ps) (Z.max 0 (page_total p)).
Proof. unfold pages_total. by rewrite foldl_snoc. Qed.

Lemma reads_intro s :
  page_url <$> pages_read s = catalog_url (activeRepository s) <$> seq 1 (activeCatalogPage s) →
  known s = merged_pages (pages_read s) → activePublicPackageTotal s = pages_total (pages_read s) →
  Forall (λ p, Forall wf (page_records p)) (pages_read s) → reads_pages s.
Proof. intros Hu Hk Ht Hw. split_and!; try done. rewrite Hk. by apply pages_keys. Qed.

(** A load of the page is answered: from here on the state has only stale loads. *)
Lemma answered_inv s : left_behind (cargoLoadSequence s) (jobs s) → (∀ r, r ∈ sent s → request_ok s r) → catalog_ok (known s) → follows_route s → base s ∧ shown_ok s.
Proof. intros Hs Hr Hc Hf. split; [by apply stale_base|]. by intros _. Qed.

(** An answer that comes too late is dropped. *)
Lemma late_inv s i j :
  base s → shown_ok s → jobs s !! i = Some j → loads_now (cargoLoadSequence s) j = false →
  base { s with jobs := delete i (jobs s) } ∧ shown_ok { s with jobs := delete i (jobs s) }.
Proof.
  intros Hb Hs Hi Hj. split; [by apply delete_base|]. eapply delete_shown; [exact Hi| |exact Hs]. apply not_true_is_false. intros Hr%route_loads_now. congruence.
Qed.

Lemma job_in s i j : jobs s !! i = Some j → j ∈ jobs s.
Proof. apply list_elem_of_lookup_2. Qed.

Lemma catalog_inv s i q from page managed :
  base s → shown_ok s → jobs s !! i = Some (Load_catalog q from) → fits (Load_catalog q from) (Catalog_answer page managed) →
  base (catalog_answered q from page managed { s with jobs := delete i (jobs s) }) ∧
  shown_ok (catalog_answered q from page managed { s with jobs := delete i (jobs s) }).
Proof.
  intros Hb Hs Hi [Hp Hm]. unfold catalog_answered. set (s0 := { s with jobs := delete i (jobs s) }). change (cargoLoadSequence s0) with (cargoLoadSequence s).
  destruct (q =? cargoLoadSequence s) eqn:E; cbn [negb].
  - apply Nat.eqb_eq in E as ->. pose proof (rest_stale s i _ Hb Hi (proj2 (bool_decide_eq_true _) eq_refl)) as Hst.
    destruct (ba_jobs _ Hb _ (job_in _ _ _ Hi) eq_refl) as [Hc ->].
    destruct page as [[total crates]|]; cbv zeta.
    + apply answered_inv; [exact Hst|apply Hb| |].
      * apply merged_ok; [done|by apply (Hp _ eq_refl)|]. destruct managed as [m|]; [by apply (Hm _ eq_refl)|done].
      * unfold follows_route. cbn. rewrite Hc. left. split_and!; [done|done|done|].
        apply reads_intro; [done|done|cbn; unfold pages_total; cbn; lia|]. apply Forall_singleton, Forall_app. split; [by apply (Hp _ eq_refl)|].
        destruct managed as [m|]; [by apply (Hm _ eq_refl)|done].
    + apply answered_inv; [exact Hst|apply Hb|apply Hb|]. unfold follows_route. cbn. rewrite Hc. by right.
  - eapply late_inv; [done|done|done|]. apply bool_decide_eq_false. cbn. intros [= ->]. by rewrite Nat.eqb_refl in E.
Qed.

Lemma package_inv s i q n from d :
  base s → shown_ok s → jobs s !! i = Some (Load_package q n from) → fits (Load_package q n from) (Details_answer d) →
  base (package_answered q from d { s with jobs := delete i (jobs s) }) ∧ shown_ok (package_answered q from d { s with jobs := delete i (jobs s) }).
Proof.
  intros Hb Hs Hi Hf. unfold package_answered. set (s0 := { s with jobs := delete i (jobs s) }). change (cargoLoadSequence s0) with (cargoLoadSequence s).
  destruct (q =? cargoLoadSequence s) eqn:E; cbn [negb].
  - apply Nat.eqb_eq in E as ->. pose proof (rest_stale s i _ Hb Hi (proj2 (bool_decide_eq_true _) eq_refl)) as Hst.
    destruct (ba_jobs _ Hb _ (job_in _ _ _ Hi) eq_refl) as [Hc ->]. destruct d as [d|].
    + destruct Hf as (d' & -> & Hk). apply answered_inv; [exact Hst|apply Hb|apply Hb|]. unfold follows_route. cbn. rewrite Hc. left. by exists d', n.
    + apply answered_inv; [exact Hst|apply Hb|apply Hb|]. unfold follows_route. cbn. rewrite Hc. by right.
  - eapply late_inv; [done|done|done|]. apply bool_decide_eq_false. cbn. intros [= ->]. by rewrite Nat.eqb_refl in E.
Qed.

Lemma more_inv s i q p from page :
  base s → shown_ok s → jobs s !! i = Some (Load_more q p from) → fits (Load_more q p from) (More_answer page) →
  base (more_answered q p from page { s with jobs := delete i (jobs s) }) ∧ shown_ok (more_answered q p from page { s with jobs := delete i (jobs s) }).
Proof.
  intros Hb Hs Hi Hf. unfold more_answered. set (s0 := { s with jobs := delete i (jobs s) }). change (cargoLoadSequence s0) with (cargoLoadSequence s).
  destruct (q =? cargoLoadSequence s) eqn:E; cbn [negb].
  - apply Nat.eqb_eq in E as ->. pose proof (rest_stale s i _ Hb Hi (proj2 (bool_decide_eq_true _) eq_refl)) as Hst.
    destruct (ba_jobs _ Hb _ (job_in _ _ _ Hi) eq_refl) as (Hc & -> & -> & Hsh). destruct page as [[total crates]|]; cbv zeta.
    + destruct Hsh as (_ & _ & _ & Hu & Hk & Ht & Hw & _). apply answered_inv; [exact Hst|apply Hb| |].
      * apply merged_ok; [apply Hb|by apply (Hf _ eq_refl)|done].
      * unfold follows_route. cbn. rewrite Hc. left. split_and!; [done|done|done|]. apply reads_intro; cbn.
        -- rewrite fmap_app, Hu. symmetry. change (catalog_url (activeRepository s) <$> seq 1 (S (activeCatalogPage s)) = (catalog_url (activeRepository s) <$> seq 1 (activeCatalogPage s)) ++ [catalog_url (activeRepository s) (S (activeCatalogPage s))]).
           by rewrite seq_S, fmap_app.
        -- by rewrite merged_snoc, <- Hk.
        -- by rewrite total_snoc, <- Ht.
        -- apply Forall_app. split; [done|]. apply Forall_singleton, Forall_app. split; [by apply (Hf _ eq_refl)|done].
    + apply answered_inv; [exact Hst|apply Hb|apply Hb|]. unfold follows_route. cbn. rewrite Hc. by left.
  - eapply late_inv; [done|done|done|]. apply bool_decide_eq_false. cbn. intros [= ->]. by rewrite Nat.eqb_refl in E.
Qed.

Lemma operation_idle s j : base s → j ∈ jobs s → is_operation j = true → idle s.
Proof. intros Hb Hj Ho j' Hj'. by apply (ba_quiet _ Hb j j'). Qed.

(** The answer to a step of an operation. *)
Lemma operation_inv s i j a s' :
  ready s → jobs s !! i = Some j → is_operation j = true → fits j a → job_answered username j a { s with jobs := delete i (jobs s) } = Some s' → ready s'.
Proof.
  intros Hr Hi Ho Hf. pose proof (ba_jobs _ (re_base _ Hr) j (job_in _ _ _ Hi)) as Hj. pose proof (delete_ready s i Hr) as Hr0.
  set (s0 := { s with jobs := delete i (jobs s) }) in *. change (job_ok s0 j) in Hj.
  destruct j as [| | |b n op|b n op|b n op|n from]; try done; destruct a; try done; cbn [job_answered].
  - intros [= <-]. by apply ready_spawn.
  - destruct confirmed0; intros [= <-]; [|done]. apply ready_send; [exact (ready_confirmed s0 _ Hr0)|exact Hj|].
    intros _. cbn. apply elem_of_app. right. by left.
  - intros [= <-]. destruct Hj as (_ & _ & Hop). destruct ok; [by eapply ready_done|done].
  - intros [= <-]. destruct d as [d|]; [|done]. destruct Hf as (d' & -> & Hk). destruct Hj as [-> (m & Hc & _ & Hm)].
    apply (ready_details _ m); [done|done|done|by rewrite Hk].
Qed.

Lemma answer_inv s i a s' :
  base s → shown_ok s → calm (Answer i a) s → step username (Answer i a) s = Some s' → base s' ∧ shown_ok s'.
Proof.
  intros Hb Hs Hf. cbn [step]. destruct (jobs s !! i) as [j|] eqn:Hi; [|done]. cbn [mbind option_bind]. specialize (Hf j Hi).
  destruct (is_operation j) eqn:Ho.
  - intros Ha. eapply ready_ok, operation_inv; [|exact Hi|exact Ho|exact Hf|exact Ha]. apply idle_ready; [done|done|].
    eapply operation_idle; [done|by eapply job_in|done].
  - destruct j; try done; destruct a; try done; intros [= <-]; [by apply catalog_inv|by eapply package_inv|by apply more_inv].
Qed.

(** *** Buttons and languages *)

Lemma settled_idle s : loaded s = true → idle s.
Proof.
  unfold loaded. rewrite forallb_forall. intros Hs j Hj. specialize (Hs j (proj1 (list_elem_of_In _ _) Hj)). by destruct (loads_now _ j).
Qed.

(** On the page of a package, its buttons act on it. *)
Lemma package_place s r d from :
  follows_route s → body s = Package r d from → r = activeRepository s ∧ activePackageDetails s = Some (d, from) ∧ op_ok s (package_name d).
Proof.
  unfold follows_route. intros Hf Hb. destruct (current s) as [| |n|] eqn:Ec.
  - destruct Hf as [E _]. congruence.
  - destruct Hf as [(E & _) | [E _]]; congruence.
  - destruct Hf as [Hs | [E _]]; [|congruence]. pose proof Hs as (d' & m & E & Hk & Hd & Hm & Hn). rewrite Hb in E. injection E as -> -> ->.
    split; [done|split; [done|]]. by exists n.
  - destruct Hf as [E _]. congruence.
Qed.

Lemma click_ready s b s' : ready s → step username (Click b) s = Some s' → ready s'.
Proof.
  intros Hr. cbn [step]. destruct (body s) as [| | | |r d from] eqn:Eb; try done. intros [= <-].
  destruct (package_place s r d from (re_page _ Hr) Eb) as (-> & Ed & Ho). set (a := {| at_repository := _; at_package := _ |}).
  assert (Ha : at_ok s a (package_name d)) by done. unfold handleCargoPageClick. rewrite Ed.
  destruct b as [| |v|v|v|v|u uid]; try (by apply ready_spawn); try (by apply ready_send); [destruct (archived d); by apply ready_send| |destruct (is_self _ _); by apply ready_spawn].
  destruct (truthy v); [by apply ready_spawn|]. destruct (getSelectedVersion _ _) as [shown selected]. cbv zeta.
  apply ready_spawn; [by apply ready_selected|done|exact Ha].
Qed.

Lemma more_click_inv s s' : base s → ready s → step username More_click s = Some s' → base s' ∧ shown_ok s'.
Proof.
  intros Hb Hr. cbn [step]. destruct (body s) as [| | |repo rows count more sources|] eqn:Eb; try done. destruct more; [|done]. intros [= <-].
  unfold loadMoreCargoPackages. destruct (negb _); [by apply ready_ok|]. cbv zeta.
  assert (Hs : current s = All_packages ∧ shows_catalog s).
  { pose proof (re_page _ Hr) as Hf. unfold follows_route in Hf. destruct (current s) as [| |n|]; [by destruct Hf; congruence| | |by destruct Hf; congruence].
    - destruct Hf as [Hs | [E _]]; [done|congruence].
    - destruct Hf as [(? & ? & E & _) | [E _]]; congruence. }
  destruct Hs as [Hc Hs]. assert (Hst : left_behind (cargoLoadSequence s) (jobs s)).
  { intros j Hj. pose proof (ba_jobs _ Hb j Hj) as Hok. pose proof (re_idle _ Hr j Hj) as Hi%bool_decide_eq_false.
    destruct (load_sequence j) as [q|] eqn:E; [exists q; split; [done|]|].
    - pose proof (ba_past _ Hb _ _ Hj E). assert (q ≠ cargoLoadSequence s) by congruence. lia.
    - destruct j; try done; cbn in Hok; [destruct Hok as (_ & _ & n & E' & _)..|destruct Hok as (_ & n & E' & _)]; congruence. }
  split; [|intros _; exact (re_page _ Hr)]. eapply load_base; [done|exact Hst|done| |apply Hb|apply Hb]. intros _. split; [exact Hc|split; [done|split; [done|exact Hs]]].
Qed.

(** The page that is shown is built again from the same state. *)
Lemma language_same s : follows_route s → ∃ v, handleCargoLanguageChanged s = { s with activeSelectedVersion := v }.
Proof.
  intros Hf. unfold handleCargoLanguageChanged, follows_route in *. destruct (hidden s) eqn:Eh; [exists (activeSelectedVersion s); by destruct s|].
  assert (Hsame : ∃ v, s = { s with activeSelectedVersion := v }) by (exists (activeSelectedVersion s); by destruct s).
  destruct (current s) as [| |n|] eqn:Ec.
  - destruct Hf; congruence.
  - destruct Hf as [(Eb & Ek & Ed & _) | [_ Ek]]; rewrite Ek; [|done]. exists (activeSelectedVersion s).
    unfold renderCargoOverview. destruct s; cbn in *. by subst.
  - destruct Hf as [(d & m & Eb & Ek & Ed & Hm & Hd) | [_ Ek]]; rewrite Ek; [|done]. rewrite Ed. unfold renderCargoPackagePage. rewrite Ed.
    generalize (getSelectedVersion (versions d) (activeSelectedVersion s)).2. intros v. exists v. destruct s; cbn in *. by subst.
  - destruct Hf as [_ Ek]. by rewrite Ek.
Qed.

Lemma language_frame s :
  ∃ d k v b, handleCargoLanguageChanged s =
    { { { { s with activePackageDetails := d } with activeRouteKind := k } with activeSelectedVersion := v } with body := b }.
Proof.
  set (s' := handleCargoLanguageChanged s). exists (activePackageDetails s'), (activeRouteKind s'), (activeSelectedVersion s'), (body s').
  subst s'. unfold handleCargoLanguageChanged, renderCargoPackagePage, renderCargoOverview. destruct s; cbn.
  destruct hidden0; [done|]. by destruct activeRouteKind0; destruct activePackageDetails0 as [[]|].
Qed.

(** While a page is loading, nothing depends on what is shown. *)
Lemma language_loading s j :
  base s → j ∈ jobs s → loads_route (cargoLoadSequence s) j = true → base (handleCargoLanguageChanged s) ∧ shown_ok (handleCargoLanguageChanged s).
Proof.
  intros Hb Hj Hr. destruct (language_frame s) as (d & k & v & b & ->). split; [|intros Hno; specialize (Hno j Hj); cbn in Hno; congruence].
  pose proof Hj as (i & Hi)%list_elem_of_lookup. pose proof (rest_stale s i j Hb Hi (route_loads_now _ _ Hr)) as Hst. destruct Hb. split; try done.
  intros j' Hj'. cbn in Hj'. rewrite (delete_Permutation _ _ _ Hi) in Hj'. apply elem_of_cons in Hj' as [-> | Hj'].
  - specialize (ba_jobs0 j Hj). by destruct j.
  - destruct (Hst _ Hj') as (q & E & Hlt). destruct j'; cbn in *; simplify_eq; lia.
Qed.

Lemma language_inv s : base s → shown_ok s → base (handleCargoLanguageChanged s) ∧ shown_ok (handleCargoLanguageChanged s).
Proof.
  intros Hb Hs. destruct (existsb (loads_route (cargoLoadSequence s)) (jobs s)) eqn:E.
  - apply existsb_exists in E as (j & Hj%list_elem_of_In & Hr). by eapply language_loading.
  - assert (Hf : follows_route s).
    { apply Hs. intros j Hj. apply not_true_is_false. intros Hr. assert (existsb (loads_route (cargoLoadSequence s)) (jobs s) = true); [|congruence].
      apply existsb_exists. exists j. by rewrite <- list_elem_of_In. }
    destruct (language_same s Hf) as [v ->]. split; [by destruct Hb; split|]. by intros _.
Qed.

Lemma calm_inv s s' : calm_step s s' → base s ∧ shown_ok s → base s' ∧ shown_ok s'.
Proof.
  intros (e & Hc & Hstep) [Hb Hs]. destruct e as [path format| |r path| |b| |v|i a]; cbn [calm] in Hc.
  - by eapply visit_inv.
  - injection Hstep as <-. by apply hide_inv.
  - cbn [step] in Hstep. unfold handleCargoStateChanged in Hstep. destruct (_ || _); [by injection Hstep as <-|]. by eapply visit_inv.
  - injection Hstep as <-. by apply language_inv.
  - eapply ready_ok, click_ready; [|exact Hstep]. apply idle_ready; [done|done|by apply settled_idle].
  - eapply more_click_inv; [done| |exact Hstep]. apply idle_ready; [done|done|by apply settled_idle].
  - cbn [step] in Hstep. destruct (body s); try done. destruct (bool_decide _); [|done]. injection Hstep as <-. split; [by destruct Hb; split|exact Hs].
  - by eapply answer_inv.
Qed.

(** C33: Routes change when no operation is under way, and buttons are clicked when no page is loading; the registry answers with
    the package that was asked. Then, whatever the order of the answers: when no page is loading, the view shows the page of the
    route, or that it failed: the catalog, made up of the answers to the first pages of this repository and nothing else (their records
    merged in turn, their greatest total, the names in them and no others), or the package, read from the repository, with its buttons
    acting on it. Every operation is sent to the repository and the package whose button was clicked, and what
    destroys something only after its question. The records of the catalog have names of their own, and those that are not public are archived. *)
Theorem operations_on_page s :
  rtc calm_step start s →
  (loaded s = true → follows_route s) ∧ (∀ r, r ∈ sent s → request_ok s r) ∧ catalog_ok (known s).
Proof.
  intros Hr. assert (base s ∧ shown_ok s) as [Hb Hs].
  { refine (rtc_preserves calm_step (λ s, base s ∧ shown_ok s) _ _ _ Hr _); [intros ? ? ? ?; by eapply calm_inv|].
    split; [|by intros _]. apply stale_base; [by intros ? ?%elem_of_nil|by intros ? ?%elem_of_nil|apply empty_ok]. }
  split; [|split; [apply Hb|apply Hb]]. intros Hset%settled_idle. by destruct (idle_ready s Hb Hs Hset).
Qed.

End follow.

(** ** Examples *)

Module Runs.
#[local] Existing Instance BrowserUtils.plain_collator.

Definition me : jsstring := js "ada".

Fixpoint run (es : list event) (s : view) : option view :=
  match es with [] => Some s | e :: es => s' ← step me e s; run es s' end.

Definition record (name : jsstring) (is_archived : bool) : jsval := JObj [(js "name", JStr name); (js "archived", JBool is_archived)].

Definition released (v : jsstring) (y : bool) : version := {| version_name := v; pending_review := false; yanked := y |}.

Definition package (n : jsstring) (vs : list version) : details := {| package_name := n; archived := false; versions := vs; may_administer := true |}.

(** The catalog of a repository is read, a package is opened, and a version of it is deleted. *)
Definition package_opened : list event := [
  Visit (js "/crates/packages") (js "cargo");
  Answer 0 (Catalog_answer (Some (2%Z, [record (js "Tokio_util") false; record (js "serde") false])) (Some (true, [record (js "tokio-util") false; record (js "old") true])));
  Visit (js "/crates/packages/tokio-util") (js "cargo");
  Answer 0 (Details_answer (Some (Some (package (js "tokio_util") [released (js "1.1.0") true; released (js "1.0.0") false]))))].

Definition version_deleted : list event := package_opened ++ [Click (Delete_version_button (js "1.1.0")); Answer 0 (Chosen true)].

(** [calm], decided. *)
Definition all_wf (l : list jsval) : bool := bool_decide (Forall (λ r, NoDup (fields_of r).*1) l).

Definition fits_b (j : job) (a : answer) : bool :=
  match j, a with
  | Load_catalog _ _, Catalog_answer page managed =>
      match page with Some p => all_wf p.2 | None => true end && match managed with Some m => all_wf m.2 | None => true end
  | Load_more _ _ _, More_answer page => match page with Some p => all_wf p.2 | None => true end
  | Load_package _ name _, Details_answer (Some d) | Refreshing name _, Details_answer (Some d) =>
      match d with Some d' => eqs (name_key (package_name d')) (name_key name) | None => false end
  | _, _ => true
  end.

Definition calm_b (e : event) (s : view) : bool :=
  match e with
  | Visit _ _ | Hide | State_changed _ _ => no_operations s
  | Click _ | More_click => loaded s
  | Answer i a => match jobs s !! i with Some j => fits_b j a | None => true end
  | Language_changed | Choose _ => true
  end.

Fixpoint calm_run (es : list event) (s : view) : option view :=
  match es with
  | [] => Some s
  | e :: es => if calm_b e s then s' ← step me e s; calm_run es s' else None
  end.

Lemma fits_b_true j a : fits_b j a = true → fits j a.
Proof.
  assert (Hw : ∀ l, all_wf l = true → Forall wf l) by (intros l; apply bool_decide_eq_true).
  destruct j, a; try done; cbn.
  - intros [H1 H2]%andb_true_iff. split; [intros p ->|intros m ->]; auto.
  - destruct d as [[d|]|]; try done. intros E%eqs_true. by exists d.
  - intros H1 p ->. auto.
  - destruct d as [[d|]|]; try done. intros E%eqs_true. by exists d.
Qed.

Lemma calm_reached es s s0 s' : rtc (calm_step me) s0 s → calm_run es s = Some s' → rtc (calm_step me) s0 s'.
Proof.
  revert s. induction es as [|e es IH]; intros s Hs; cbn [calm_run]; [by intros [= <-]|].
  destruct (calm_b e s) eqn:Ec; [|done]. destruct (step me e s) as [s1|] eqn:E; [|done]. cbn [mbind option_bind]. apply IH.
  eapply rtc_r; [exact Hs|]. exists e. split; [|done]. destruct e; cbn in Ec |- *; try done. intros j Hj. rewrite Hj in Ec. by apply fits_b_true.
Qed.

Definition at_delete : view := or_else (calm_run version_deleted start) start.

Lemma deleted_reached : rtc (calm_step me) start at_delete.
Proof. apply (calm_reached version_deleted start); [constructor|]. vm_compute. reflexivity. Qed.

(** The yanked version is deleted, the other one is shown. *)
Lemma deleted_requests :
  url <$> sent at_delete = [js "/crates/api/v1/crates/tokio_util/1.1.0"] ∧ activeSelectedVersion at_delete = js "1.0.0" ∧
  (key_of <$> packages (known at_delete)) = [js "old"; js "serde"; js "tokio-util"].
Proof. split_and!; vm_compute; reflexivity. Qed.

(** Another repository is opened: the list has its packages only, with those of its second page. *)
Lemma other_catalog :
  ∃ s, calm_run (package_opened ++ [Visit (js "/other/packages") (js "cargo");
      Answer 0 (Catalog_answer (Some (2%Z, [record (js "rand") false])) (Some (false, [])));
      More_click; Answer 0 (More_answer (Some (2%Z, [record (js "anyhow") false])))]) start = Some s ∧
    key_of <$> packages (known s) = [js "anyhow"; js "rand"] ∧
    page_url <$> pages_read s = [js "/other/api/v1/crates?q=&per_page=50&page=1"; js "/other/api/v1/crates?q=&per_page=50&page=2"].
Proof. eexists. split_and!; vm_compute; reflexivity. Qed.

(** The question is still open when another repository is shown: the request goes there. *)
Lemma question_kept_open :
  ∃ s, run (package_opened ++ [Click Delete_package_button; Visit (js "/other/packages") (js "cargo"); Answer 0 (Chosen true)]) start = Some s ∧
    (at_repository ∘ clicked <$> sent s) = [js "crates"] ∧ url <$> sent s = [js "/other/api/v1/crates/tokio_util"].
Proof. eexists. split_and!; vm_compute; reflexivity. Qed.

(** The refresh after an operation ends late: the package is shown on the page of another one. *)
Lemma refresh_shows_previous :
  ∃ s d from, run (package_opened ++ [Click Toggle_archive; Answer 0 (Finished true); Visit (js "/crates/packages/serde") (js "cargo");
      Answer 1 (Details_answer (Some (Some (package (js "serde") [released (js "2.0.0") false]))));
      Answer 0 (Details_answer (Some (Some (package (js "tokio_util") []))))]) start = Some s ∧
    loaded s = true ∧ current s = One_package (js "serde") ∧ body s = Package (js "crates") d from ∧ package_name d = js "tokio_util".
Proof. do 3 eexists. split_and!; vm_compute; reflexivity. Qed.

(** The version that was chosen for one package stays selected for the next one that has it, though it has a newer one. *)
Lemma selection_leaks :
  ∃ s, run (package_opened ++ [Choose (js "1.0.0"); Visit (js "/crates/packages/serde") (js "cargo");
      Answer 0 (Details_answer (Some (Some (package (js "serde") [released (js "2.0.0") false; released (js "1.0.0") false]))))]) start = Some s ∧
    activeSelectedVersion s = js "1.0.0" ∧ default_version [released (js "2.0.0") false; released (js "1.0.0") false] = Some (released (js "2.0.0") false).
Proof. eexists. split_and!; vm_compute; reflexivity. Qed.

End Runs.

Lemma operations_on_page_witness :
  rtc (@calm_step BrowserUtils.plain_collator Runs.me) start Runs.at_delete ∧
  (loaded Runs.at_delete = true → @follows_route BrowserUtils.plain_collator Runs.at_delete) ∧ (∀ r, r ∈ sent Runs.at_delete → request_ok Runs.at_delete r) ∧
  catalog_ok (known Runs.at_delete).
Proof. split; [exact Runs.deleted_reached|]. apply (@operations_on_page BrowserUtils.plain_collator Runs.me), Runs.deleted_reached. Defined.

Lemma catalog_merged_witness :
  let pub := [Runs.record (js "serde") false; Runs.record (js "Tokio_util") false] in
  let man := [Runs.record (js "old") true] in
  NoDup (key_of <$> packages (@mergeCargoPackageRecords BrowserUtils.plain_collator pub man true no_packages)).
Proof.
  apply (@catalog_merged BrowserUtils.plain_collator [Runs.record (js "serde") false; Runs.record (js "Tokio_util") false] [Runs.record (js "old") true] true no_packages).
  - apply empty_ok.
  - done.
  - apply (bool_decide_eq_true (Forall _ _)). reflexivity.
  - apply (bool_decide_eq_true (Forall _ _)). reflexivity.
Defined.
