(* ===== verification/Search.v ===== *)
(** * The search in a repository

    [internal/service/frontend/renop-html/js/browser/search.js]: the delay after a key, requests that overlap and are aborted, the
    panel of results with its transitions, and what a result leads to. One event is the code between two [await]s, a timer or a
    frame. The rows, their icons and the place of the panel are left out. *)

From S2P Require Import Prelude JsText JsValue Uri BrowserUtils.
From coqutil Require Import Datatypes.RecordSettersUsingExistingGetters.
Local Open Scope nat_scope.

#[local] Arguments const {E} _ _ /.
#[local] Arguments cons {A} & _ _.

(** ** Data *)

(** [type] is in upper case. *)
Record result := { result_type : jsstring; result_path : jsstring; result_name : jsstring }.

#[export] Instance result_eq_dec : EqDecision result.
Proof. solve_decision. Defined.

(** The content of the panel: a status, or the results of a request. *)
Inductive panel_content := Vacant | Searching | Search_failed | Results (repository query : jsstring) (rows : list result).

Record search_request := { of_repository : jsstring; of_query : jsstring; of_version : nat; signal_aborted : bool }.

(** [typed]: the value of the input. [visible], [leaving]: classes of the panel; [frame]: a frame will add the first;
    [closing]: the timer that hides the panel. [controller]: the last request, by its index. *)
Record state := {
  typed : jsstring; activeRepository : jsstring; activeFormat : jsstring;
  searchTimer : option (jsstring * nat); searchVersion : nat; requestController : option nat; requests : list search_request; answers : list nat;
  content : panel_content; hidden : bool; visible : bool; leaving : bool; frame : bool; closing : bool;
  assigned : list jsstring; navigated : list jsstring
}.

Definition start : state := {|
  typed := []; activeRepository := []; activeFormat := js "maven";
  searchTimer := None; searchVersion := 0; requestController := None; requests := []; answers := [];
  content := Vacant; hidden := true; visible := false; leaving := false; frame := false; closing := false;
  assigned := []; navigated := []
|}.

(** ** Results *)

Definition resultPath (repository relativePath : jsstring) : jsstring :=
  js "/" ++ encodeURIComponent repository ++ js "/" ++ join "/" (encodeURIComponent <$> path_segments relativePath).

(** ** The panel *)

Definition openResultsPanel (s : state) : state :=
  { { { { s with closing := false } with hidden := false } with leaving := false } with frame := true }.

Definition closeResultsPanel (s : state) : state :=
  let s := { { s with closing := false } with visible := false } in
  if hidden s then { s with leaving := false }
  else { { s with leaving := true } with closing := true }.

(** [mutate] sets the content. *)
Definition replaceResultsContent (c : panel_content) (s : state) : state :=
  if hidden s || negb (visible s) then openResultsPanel { s with content := c } else { s with content := c }.

(** ** Requests *)

Definition abort_request (s : state) : state :=
  match requestController s with
  | Some k => { s with requests := alter (λ r, { r with signal_aborted := true }) k (requests s) }
  | None => s
  end.

(** Up to the request; the timer has run. *)
Definition fetchRepositorySearch (query : jsstring) (version : nat) (s : state) : state :=
  if negb (truthy (activeRepository s)) then s
  else
    let s := abort_request s in
    let k := length (requests s) in
    let r := {| of_repository := activeRepository s; of_query := query; of_version := version; signal_aborted := false |} in
    { { { s with requestController := Some k } with requests := requests s ++ [r] } with answers := answers s ++ [k] }.

(** [rows]: [None] if the request fails. An aborted request is rejected with an [AbortError]. *)
Definition search_answered (k : nat) (rows : option (list result)) (s : state) : state :=
  match requests s !! k with
  | None => s
  | Some r =>
      match rows with
      | Some rows => if negb (of_version r =? searchVersion s) then s else replaceResultsContent (Results (of_repository r) (of_query r) rows) s
      | None => if signal_aborted r || negb (of_version r =? searchVersion s) then s else replaceResultsContent Search_failed s
      end
  end.

Definition handleSearchInput (value : jsstring) (s : state) : state :=
  let s := { { s with typed := value } with searchTimer := None } in
  let query := trim value in
  let version := S (searchVersion s) in
  let s := { s with searchVersion := version } in
  if negb (truthy query) then closeResultsPanel (abort_request s)
  else { replaceResultsContent Searching s with searchTimer := Some (query, version) }.

(** The timer is kept. *)
Definition clearRepositorySearch (s : state) : state :=
  let s := { { s with typed := [] } with searchVersion := S (searchVersion s) } in
  closeResultsPanel (abort_request s).

Definition handleResultClick (r : result) (s : state) : state :=
  let path := resultPath (activeRepository s) (result_path r) in
  let s := closeResultsPanel s in
  if eqs (result_type r) (js "FILE") then { s with assigned := assigned s ++ [path] } else { s with navigated := navigated s ++ [path] }.

Definition updateRepositorySearch (repository format : jsstring) (s : state) : state :=
  let changed := negb (eqs repository (activeRepository s)) || negb (eqs format (activeFormat s)) in
  let s := { { s with activeRepository := repository } with activeFormat := str_or format (js "maven") } in
  if changed || negb (truthy repository) then clearRepositorySearch s else s.

Inductive event :=
  | Typed (value : jsstring) | Clear_click | Close | Result_click (r : result) | Repository (repository format : jsstring)
  | Timer | Frame | Panel_closed | Answered (i : nat) (rows : option (list result)).

(** The form is hidden without a repository; a result is clicked that is in the panel. [Close]: the key, or a click outside. *)
Definition step (e : event) (s : state) : option state :=
  match e with
  | Typed v => if truthy (activeRepository s) then Some (handleSearchInput v s) else None
  | Clear_click => if truthy (activeRepository s) then Some (clearRepositorySearch s) else None
  | Close => Some (closeResultsPanel s)
  | Result_click r =>
      match content s with
      | Results _ _ rows => if bool_decide (r ∈ rows) && negb (hidden s) then Some (handleResultClick r s) else None
      | _ => None
      end
  | Repository r f => Some (updateRepositorySearch r f s)
  | Timer => '(q, v) ← searchTimer s; Some (fetchRepositorySearch q v { s with searchTimer := None })
  | Frame => if frame s then Some { { s with frame := false } with visible := true } else None
  | Panel_closed => if closing s then Some { { { s with hidden := true } with leaving := false } with closing := false } else None
  | Answered i rows => k ← answers s !! i; Some (search_answered k rows { s with answers := delete i (answers s) })
  end.

(** ** The panel follows the input *)

Definition steps (s s' : state) : Prop := ∃ e, step e s = Some s'.

(** What is shown belongs to the repository and the text of now. *)
Definition current (s : state) : Prop :=
  match content s with
  | Vacant => False
  | Searching | Search_failed => trim (typed s) ≠ []
  | Results repository query _ => repository = activeRepository s ∧ query = trim (typed s) ∧ query ≠ []
  end.

Definition shown (s : state) : Prop := hidden s = false ∧ leaving s = false.

(** A request that may still answer the text of now. *)
Definition awaited (s : state) : Prop :=
  ∃ k r, k ∈ answers s ∧ requests s !! k = Some r ∧ signal_aborted r = false ∧ of_version r = searchVersion s.

Record base (s : state) : Prop := {
  ba_requests : ∀ k r, requests s !! k = Some r → of_version r ≤ searchVersion s ∧
    (of_version r = searchVersion s → of_repository r = activeRepository s ∧ of_query r = trim (typed s) ∧ of_query r ≠ []);
  ba_timer : ∀ q v, searchTimer s = Some (q, v) → v ≤ searchVersion s ∧ (v = searchVersion s ∧ q = trim (typed s) ∧ q ≠ [] ∨ v ≠ searchVersion s ∧ trim (typed s) = []);
  ba_repository : trim (typed s) ≠ [] → activeRepository s ≠ [];
  ba_live : ∀ k r, requests s !! k = Some r → signal_aborted r = false → requestController s = Some k;
  ba_wait : content s = Searching → trim (typed s) ≠ [] → searchTimer s = Some (trim (typed s), searchVersion s) ∨ awaited s
}.

Definition inv (s : state) : Prop := base s ∧ (shown s → current s).

(** A change of the panel only. *)
Definition panel_change (s s' : state) : Prop :=
  ∃ h v l f c, s' = { { { { { s with hidden := h } with visible := v } with leaving := l } with frame := f } with closing := c }.

Lemma panel_base s s' : panel_change s s' → base s → base s'.
Proof. intros (h & v & l & f & c & ->) []. by split. Qed.

Lemma close_change s : panel_change s (closeResultsPanel s).
Proof. unfold panel_change, closeResultsPanel. destruct s; cbn. destruct hidden0; by eexists _, _, _, _, _. Qed.

Lemma open_change s : panel_change s (openResultsPanel s).
Proof. unfold panel_change, openResultsPanel. destruct s; cbn. by eexists _, _, _, _, _. Qed.

Lemma close_inv s : base s → inv (closeResultsPanel s).
Proof.
  intros Hb. split; [exact (panel_base _ _ (close_change s) Hb)|]. intros [Hh Hl]. exfalso. revert Hh Hl. unfold closeResultsPanel. cbn.
  by destruct (hidden s) eqn:E; cbn; rewrite ?E.
Qed.

Lemma replace_change c s : panel_change { s with content := c } (replaceResultsContent c s).
Proof.
  unfold replaceResultsContent. destruct (_ || _); [apply open_change|]. unfold panel_change. destruct s; cbn. by eexists _, _, _, _, _.
Qed.

Lemma panel_current s s' : panel_change s s' → current s → current s'.
Proof. by intros (h & v & l & f & c & ->). Qed.

(** New content that belongs to the text of now. *)
Lemma replace_inv c s :
  base s → current { s with content := c } → (c = Searching → searchTimer s = Some (trim (typed s), searchVersion s) ∨ awaited s) → inv (replaceResultsContent c s).
Proof.
  intros Hb Hc Hw. pose proof (replace_change c s) as Hp. split; [|intros _; exact (panel_current _ _ Hp Hc)].
  apply (panel_base _ _ Hp). destruct Hb. split; try done. intros E _. by apply Hw.
Qed.

(** *** Requests *)

Lemma abort_lookup s k r : requests (abort_request s) !! k = Some r →
  ∃ r0, requests s !! k = Some r0 ∧ of_repository r = of_repository r0 ∧ of_query r = of_query r0 ∧ of_version r = of_version r0 ∧
    (signal_aborted r = false → signal_aborted r0 = false ∧ requestController s ≠ Some k).
Proof.
  unfold abort_request. destruct (requestController s) as [k0|]; [|intros E; by exists r]. cbn.
  destruct (decide (k0 = k)) as [->|Hne].
  - rewrite list_lookup_alter_eq. destruct (requests s !! k) as [r0|]; [|done]. cbn. intros [= <-]. by exists r0.
  - rewrite list_lookup_alter_ne by done. intros E. exists r. split_and!; try done. intros Hr. split; [done|]. congruence.
Qed.

(** What holds of requests and the timer whatever the input and the repository are. *)
Record past (s : state) : Prop := {
  pa_requests : ∀ k r, requests s !! k = Some r → of_version r ≤ searchVersion s;
  pa_timer : ∀ q v, searchTimer s = Some (q, v) → v ≤ searchVersion s;
  pa_live : ∀ k r, requests s !! k = Some r → signal_aborted r = false → requestController s = Some k
}.

Lemma base_past s : base s → past s.
Proof. intros []. split; [naive_solver|naive_solver|done]. Qed.

(** A new version: what was requested before is not of it. *)
Lemma renewed_base s :
  (∀ k r, requests s !! k = Some r → of_version r < searchVersion s) →
  (∀ q v, searchTimer s = Some (q, v) → v = searchVersion s ∧ q = trim (typed s) ∧ q ≠ [] ∨ v < searchVersion s ∧ trim (typed s) = []) →
  (trim (typed s) ≠ [] → activeRepository s ≠ []) → (∀ k r, requests s !! k = Some r → signal_aborted r = false → requestController s = Some k) →
  (trim (typed s) ≠ [] → searchTimer s = Some (trim (typed s), searchVersion s)) → base s.
Proof.
  intros Hr Ht Hrep Hl Hw. split; [| |done|done|by auto].
  - intros k r E. pose proof (Hr _ _ E). split; [lia|]. intros E'. lia.
  - intros q v E. destruct (Ht _ _ E) as [(-> & H2 & H3) | [H1 H2]]; [split; [lia|by left]|split; [lia|]]. right. split; [lia|done].
Qed.

Lemma abort_frame s : abort_request s = { s with requests := requests (abort_request s) }.
Proof. unfold abort_request. destruct (requestController s); destruct s; done. Qed.

Lemma clear_inv s : past s → inv (clearRepositorySearch s).
Proof.
  intros [Hr Ht Hl]. unfold clearRepositorySearch. cbv zeta. apply close_inv. rewrite abort_frame. apply renewed_base; cbn; try done.
  - intros k r (r0 & E & _ & _ & -> & _)%abort_lookup. pose proof (Hr _ _ E). cbn. lia.
  - intros q v E%Ht. right. split; [lia|done].
  - intros k r (r0 & E & _ & _ & _ & Ha)%abort_lookup Hs. by apply (Hl k r0); [|apply Ha].
Qed.

Lemma replace_timer c s x : { replaceResultsContent c s with searchTimer := x } = replaceResultsContent c { s with searchTimer := x }.
Proof. unfold replaceResultsContent. cbn. by destruct (_ || _). Qed.

Lemma input_inv v s : base s → activeRepository s ≠ [] → inv (handleSearchInput v s).
Proof.
  intros Hb Hrep. destruct (base_past _ Hb) as [Hr Ht Hl]. unfold handleSearchInput. cbv zeta. destruct (truthy (trim v)) eqn:E; cbn [negb].
  - apply truthy_true in E. rewrite replace_timer. apply replace_inv; [|done|by left]. apply renewed_base; cbn; try done.
    + intros k r E'%Hr. lia.
    + intros q w [= <- <-]. by left.
  - apply truthy_false in E. apply close_inv. rewrite abort_frame. apply renewed_base; cbn; try done.
    + intros k r (r0 & E' & _ & _ & -> & _)%abort_lookup. pose proof (Hr _ _ E'). lia.
    + intros k r (r0 & E' & _ & _ & _ & Ha)%abort_lookup Hs. by apply (Hl k r0); [|apply Ha].
Qed.

Lemma update_inv r f s : inv s → inv (updateRepositorySearch r f s).
Proof.
  intros [Hb Hc]. unfold updateRepositorySearch. cbv zeta. destruct (_ || _) eqn:E.
  - apply clear_inv. destruct (base_past _ Hb) as [Hr Ht Hl]. by split.
  - apply orb_false_iff in E as [[E _]%orb_false_iff _]. apply negb_false_iff, eqs_true in E as ->.
    assert (E : { s with activeRepository := activeRepository s } = s) by by destruct s. rewrite E. destruct Hb. split; [by split|exact Hc].
Qed.

Lemma fetch_inv q v s : inv s → searchTimer s = Some (q, v) → inv (fetchRepositorySearch q v { s with searchTimer := None }).
Proof.
  intros [Hb Hc] Ht. unfold fetchRepositorySearch. set (s0 := { s with searchTimer := None }). change (activeRepository s0) with (activeRepository s). destruct (truthy (activeRepository s)) eqn:E; cbn [negb].
  - apply truthy_true in E. rewrite abort_frame. split; [|exact Hc].
    destruct Hb as [Hr Htm Hrep Hl Hw]. destruct (Htm _ _ Ht) as [Hv Hq]. split; cbn.
    + intros k r [(r0 & E' & -> & -> & -> & _)%abort_lookup|[_ [_ <-]%list_lookup_singleton_Some]]%lookup_app_Some; [exact (Hr k r0 E')|].
      cbn. split; [done|]. intros ->. by destruct Hq as [(_ & -> & Hne) | [? _]].
    + done.
    + done.
    + intros k r [(r0 & E' & _ & _ & _ & Ha)%abort_lookup|[Hk [Hi <-]%list_lookup_singleton_Some]]%lookup_app_Some Hs.
      * destruct (Ha Hs) as [Ha' Hne]. destruct Hne. by apply (Hl k r0).
      * f_equal. lia.
    + intros Ec Hne. right. destruct Hq as [(-> & -> & _) | [_ Hq]]; [|done].
      eexists (length (requests (abort_request s0))), _. split; [apply elem_of_app; right; by left|]. split; [by apply list_lookup_middle|done].
  - apply truthy_false in E. split; [|exact Hc]. destruct Hb. split; try done. intros _ Hne. by destruct (ba_repository0 Hne).
Qed.

(** A request that is answered, or whose answer is dropped, is not awaited any more. *)
Lemma taken_base i k s :
  base s → answers s !! i = Some k →
  (∀ r, requests s !! k = Some r → signal_aborted r = false → of_version r ≠ searchVersion s) → base { s with answers := delete i (answers s) }.
Proof.
  intros [] Hi Hk. split; try done. intros Hc Hne. destruct (ba_wait0 Hc Hne) as [Ht | (k' & r & Hin & Er & Ha & Hv)]; [by left|right].
  exists k', r. split; [|done]. rewrite (delete_Permutation _ _ _ Hi) in Hin. apply elem_of_cons in Hin as [-> | Hin]; [|done].
  by destruct (Hk r Er Ha).
Qed.

(** The answer to the text of now. *)
Lemma shown_answer i c s :
  base s → c ≠ Searching → current { s with content := c } → inv (replaceResultsContent c { s with answers := delete i (answers s) }).
Proof.
  intros [] Hc Hcur. pose proof (replace_change c { s with answers := delete i (answers s) }) as Hp.
  split; [|intros _; exact (panel_current _ _ Hp Hcur)]. apply (panel_base _ _ Hp). by split.
Qed.

Lemma search_answer_inv i k rows s : inv s → answers s !! i = Some k → inv (search_answered k rows { s with answers := delete i (answers s) }).
Proof.
  intros [Hb Hc] Hi. unfold search_answered. set (s0 := { s with answers := delete i (answers s) }). change (requests s0) with (requests s).
  change (searchVersion s0) with (searchVersion s). destruct (requests s !! k) as [r|] eqn:E.
  2: { split; [|exact Hc]. eapply taken_base; [done|exact Hi|]. congruence. }
  destruct (ba_requests _ Hb _ _ E) as [Hv Hnow]. destruct (of_version r =? searchVersion s) eqn:Ev.
  - apply Nat.eqb_eq in Ev. destruct (Hnow Ev) as (H1 & H2 & H3). destruct rows as [rows|]; cbn [negb].
    + apply shown_answer; [done|done|]. unfold current. cbn. by rewrite H2 in H3 |- *.
    + rewrite orb_false_r. destruct (signal_aborted r) eqn:Ea.
      * split; [|exact Hc]. eapply taken_base; [done|exact Hi|]. congruence.
      * apply shown_answer; [done|done|]. rewrite H2 in H3. exact H3.
  - apply Nat.eqb_neq in Ev. assert (Hd : inv s0).
    { split; [|exact Hc]. eapply taken_base; [done|exact Hi|]. congruence. }
    destruct rows; cbn [negb]; [done|]. by rewrite orb_true_r.
Qed.

Lemma search_step_inv s s' : steps s s' → inv s → inv s'.
Proof.
  intros [e He] Hi. pose proof Hi as [Hb Hc]. destruct e; cbn [step] in He.
  - destruct (truthy (activeRepository s)) eqn:E; [|done]. injection He as <-. apply truthy_true in E. by apply input_inv.
  - destruct (truthy _); [|done]. injection He as <-. by apply clear_inv, base_past.
  - injection He as <-. by apply close_inv.
  - destruct (content s); try done. destruct (_ && _); [|done]. injection He as <-. pose proof (close_inv s Hb) as [Hb' Hc'].
    unfold handleResultClick. cbv zeta. destruct (eqs _ _); (split; [by destruct Hb'; split|exact Hc']).
  - injection He as <-. by apply update_inv.
  - destruct (searchTimer s) as [[q v]|] eqn:E; [|done]. injection He as <-. by apply fetch_inv.
  - destruct (frame s); [|done]. injection He as <-. split; [by destruct Hb; split|exact Hc].
  - destruct (closing s); [|done]. injection He as <-. split; [by destruct Hb; split|]. by intros [? _].
  - destruct (answers s !! i) as [k|] eqn:E; [|done]. injection He as <-. by apply search_answer_inv.
Qed.

(** C38: The panel follows the input. What is shown in an open panel is about the repository and the text of now: the results of a
    request for them, whatever the order of the answers, a failure, or the notice that the search is under way, which does not stay:
    then a request is to be sent, or one is under way that was not aborted. At most one request is not aborted, the last one. *)
Theorem search_follows_input s :
  rtc steps start s →
  (shown s → current s) ∧
  (shown s → content s = Searching → searchTimer s = Some (trim (typed s), searchVersion s) ∨ awaited s) ∧
  (∀ k k' r r', requests s !! k = Some r → requests s !! k' = Some r' → signal_aborted r = false → signal_aborted r' = false → k = k').
Proof.
  intros Hr. assert (inv s) as [Hb Hc].
  { refine (rtc_preserves steps inv _ _ _ Hr _); [intros ? ? ? ?; by eapply search_step_inv|]. split; [by split|]. by intros [? _]. }
  split; [done|]. split.
  - intros Hs Ec. apply (ba_wait _ Hb Ec). specialize (Hc Hs). unfold current in Hc. by rewrite Ec in Hc.
  - intros k k' r r' E E' Ha Ha'. pose proof (ba_live _ Hb _ _ E Ha). pose proof (ba_live _ Hb _ _ E' Ha'). congruence.
Qed.

(** ** Where a result leads *)

(** The first part of an address. *)
Lemma path_segments_part p q : "/"%char ∉ p → truthy p = true → path_segments (p ++ js "/" ++ q) = p :: path_segments q.
Proof.
  intros Hp Ht. unfold path_segments, split. change (p ++ js "/" ++ q) with (p ++ "/"%char :: q). rewrite splitBy_app; [cbn; by rewrite Ht| |apply ascii_eqb_refl].
  apply Forall_forall. intros x Hx. destruct (ascii_eqb_spec "/" x) as [<-|]; [by destruct (Hp Hx)|done].
Qed.

(** A result leads below its repository: the parts of its address are the repository and the parts of the path of the result, as they
    are decoded again, whatever characters they hold. *)
Theorem result_below repository relativePath :
  repository ≠ [] →
  decodePathSegment <$> path_segments (resultPath repository relativePath) = Seg repository :: (Seg <$> path_segments relativePath).
Proof.
  intros Hr. unfold resultPath. change (path_segments (js "/" ++ ?x)) with (path_segments x). rewrite path_segments_part.
  - rewrite path_segments_join.
    + rewrite fmap_cons, <- list_fmap_compose. unfold decodePathSegment at 1. rewrite decode_encodeURIComponent. f_equal. apply list_fmap_ext.
      intros i p _. unfold compose, decodePathSegment. by rewrite decode_encodeURIComponent.
    + apply Forall_fmap. eapply Forall_impl; [apply path_segments_ok|]. cbn. intros p [_ Hp]. split; [by apply encodeURIComponent_no|].
      apply truthy_true. intros E%(proj1 (encodeURIComponent_nil _)). by apply truthy_true in Hp.
  - by apply encodeURIComponent_no.
  - apply truthy_true. by intros E%(proj1 (encodeURIComponent_nil _)).
Qed.

(** ** Examples *)

Fixpoint run (es : list event) (s : state) : option state :=
  match es with [] => Some s | e :: es => s' ← step e s; run es s' end.

Lemma search_run_steps es s s' : run es s = Some s' → rtc steps s s'.
Proof.
  revert s. induction es as [|e es IH]; intros s; cbn [run]; [intros [= <-]; constructor|].
  destruct (step e s) as [s1|] eqn:E; [|done]. intros Hr. eapply rtc_l; [by exists e|by apply IH].
Qed.

Definition serde : result := {| result_type := js "PACKAGE"; result_path := js "packages/serde"; result_name := js "serde" |}.

(** The text is changed while its first search is under way, and the answers come in the other order. *)
Definition searched : state := or_else (run [
  Repository (js "crates") (js "cargo"); Typed (js "se"); Frame; Timer; Typed (js "serde "); Timer; Answered 1 (Some [serde]); Answered 0 (Some [])] start) start.

Lemma searched_steps : rtc steps start searched.
Proof. unfold searched. destruct (run _ start) as [s|] eqn:E; [by apply search_run_steps in E|constructor]. Qed.

Lemma searched_results : content searched = Results (js "crates") (js "serde") [serde] ∧ shown searched.
Proof. vm_compute. done. Qed.

Lemma search_follows_input_witness :
  rtc steps start searched ∧ (shown searched → current searched).
Proof. split; [exact searched_steps|]. apply (search_follows_input searched searched_steps). Defined.

Lemma result_below_witness :
  js "crates" ≠ [] ∧ decodePathSegment <$> path_segments (resultPath (js "crates") (js "packages/a b%")) = [Seg (js "crates"); Seg (js "packages"); Seg (js "a b%")].
Proof. split; [done|]. rewrite (result_below (js "crates") (js "packages/a b%")); [vm_compute; reflexivity|done]. Defined.

(** The panel was closed by a key; the answer opens it again. *)
Lemma closed_panel_opens :
  ∃ s, run [Repository (js "crates") (js "cargo"); Typed (js "se"); Frame; Timer; Close; Panel_closed; Answered 0 (Some [serde])] start = Some s ∧ shown s.
Proof. eexists. split; vm_compute; reflexivity || done. Qed.

(** A path of dots keeps its dots, which lead out of the repository. *)
Lemma dots_kept : resultPath (js "crates") (js "../other/x") = js "/crates/../other/x".
Proof. reflexivity. Qed.

(** The panel is closed in the frame that opens it: the answer is put into the panel while it goes, and is not seen. *)
Lemma answer_not_seen :
  ∃ s, run [Repository (js "crates") (js "cargo"); Typed (js "se"); Timer; Close; Frame; Answered 0 (Some [serde]); Panel_closed] start = Some s ∧
    content s = Results (js "crates") (js "se") [serde] ∧ hidden s = true.
Proof. eexists. split_and!; vm_compute; reflexivity. Qed.
