(* ===== verification/Dialogs.v ===== *)
(** * Dialogs

    [internal/service/frontend/renop-html/js/components/dialog.js] with [packages/renop-ui/js/modal.js], as [app-ui.js] configures
    it: dialogs that are shown under an identifier and give out an answer, modals of the page, their closing, and whether the page
    behind them is inert. Elements are kept in the order of the document. The structure of a dialog and its animation are left out. *)

From S2P Require Import Prelude JsText JsValue.
From coqutil Require Import Datatypes.RecordSettersUsingExistingGetters.
Local Open Scope nat_scope.

#[local] Arguments const {E} _ _ /.
#[local] Arguments cons {A} & _ _.

(** ** State *)

(** A dialog, or a modal of the page. [closing_attr] is [data-is-closing]; [isClosing], [shown_as] are fields of a dialog: the second is
    the call of [show_dialog] whose options, promise and key handler it has. *)
Record dialog_node := {
  ident : option jsstring; is_dialog : bool; connected : bool; displayed : bool; closing_attr : bool; isClosing : bool;
  closable : bool; destroyOnClose : bool; shown_as : option nat
}.

(** A call of [show_dialog]: the answer of its promise, and the calls of its [onClose]. [choice] is what it was closed with first, which the
    code does not keep. *)
Record dialog_call := { answer : option jsval; onClose_calls : list jsval; choice : option jsval }.

(** The end of the animation of an element; [result] of a dialog. *)
Record timer := { of_element : nat; result : option jsval }.

(** [listeners]: the key handlers on the document, by the call of [show_dialog] and the element. *)
Record state := { elements : list dialog_node; shows : list dialog_call; listeners : list (nat * nat); timers : list timer; inert : bool }.

Record options := { opt_id : jsstring; opt_closable : bool; opt_destroyOnClose : bool }.

(** ** Elements *)

Definition isModalOpen (e : dialog_node) : bool := negb (closing_attr e) && displayed e.

Definition has_id (id : jsstring) (e : dialog_node) : Prop := connected e = true ∧ ident e = Some id.

#[export] Instance has_id_dec id e : Decision (has_id id e).
Proof. apply _. Defined.

Definition getElementById (id : jsstring) (s : state) : option (nat * dialog_node) := list_find (has_id id) (elements s).

(** [f] at one element. *)
Definition update (i : nat) (f : dialog_node → dialog_node) (s : state) : state := { s with elements := alter f i (elements s) }.

Section dialogs.
Context (modalIds : list jsstring).

Definition any_open (s : state) : bool :=
  existsb (λ id, match getElementById id s with Some (_, e) => isModalOpen e | None => false end) modalIds.

Definition updateModalInertState (s : state) : state := { s with inert := any_open s }.

(** ** Modals *)

Definition openModalWithAnim (i : nat) (s : state) : state :=
  match elements s !! i with
  | Some e => if closing_attr e then s else updateModalInertState (update i (λ e, { e with displayed := true }) s)
  | None => s
  end.

(** Up to the timer. [r]: the result the callback of a dialog holds. *)
Definition closeModalWithAnim (i : nat) (r : option jsval) (s : state) : state :=
  match elements s !! i with
  | Some e =>
      if closing_attr e then s
      else
        let s := updateModalInertState (update i (λ e, { e with closing_attr := true }) s) in
        { s with timers := timers s ++ [{| of_element := i; result := r |}] }
  | None => s
  end.

(** [close] of [bindModalChrome]. *)
Definition close_bound (i : nat) (s : state) : state :=
  match elements s !! i with
  | Some e => if negb (isModalOpen e) && negb (displayed e) then s else closeModalWithAnim i None s
  | None => s
  end.

(** ** Dialogs *)

Definition new_element (o : options) : dialog_node := {|
  ident := if truthy (opt_id o) then Some (opt_id o) else None; is_dialog := true; connected := true; displayed := false;
  closing_attr := false; isClosing := false; closable := true; destroyOnClose := true; shown_as := None
|}.

(** The element that [show_dialog] uses: the one with the identifier if it is a dialog, or a new one at the end of the page. *)
Definition dialog_for (o : options) (s : state) : nat * state :=
  match (if truthy (opt_id o) then getElementById (opt_id o) s else None) with
  | Some (i, e) => if is_dialog e then (i, s) else (length (elements s), { s with elements := elements s ++ [new_element o] })
  | None => (length (elements s), { s with elements := elements s ++ [new_element o] })
  end.

(** The fields that [show_dialog], [buildUI] and [open] set. *)
Definition opened_as (n : nat) (o : options) (e : dialog_node) : dialog_node :=
  { { { { { e with shown_as := Some n } with closable := opt_closable o } with destroyOnClose := opt_destroyOnClose o }
      with isClosing := false } with displayed := true }.

Definition show_dialog (o : options) (s : state) : state :=
  let n := length (shows s) in
  let '(i, s) := dialog_for o s in
  let s := { s with shows := shows s ++ [{| answer := None; onClose_calls := []; choice := None |}] } in
  let s := updateModalInertState (update i (opened_as n o) s) in
  { s with listeners := listeners s ++ [(n, i)] }.

Definition update_show (n : option nat) (f : dialog_call → dialog_call) (s : state) : state :=
  match n with Some n => { s with shows := alter f n (shows s) } | None => s end.

Definition first_choice (r : jsval) (c : dialog_call) : dialog_call := { c with choice := match choice c with Some r' => Some r' | None => Some r end }.

Definition close (i : nat) (r : jsval) (s : state) : state :=
  match elements s !! i with
  | Some e =>
      if isClosing e || closing_attr e then s
      else
        let s := update i (λ e, { e with isClosing := true }) s in
        let s := { s with listeners := List.filter (λ l, negb (bool_decide (Some l.1 = shown_as e))) (listeners s) } in
        closeModalWithAnim i (Some r) (update_show (shown_as e) (first_choice r) s)
  | None => s
  end.

(** The callback of [close]: a promise keeps its first answer. *)
Definition give_answer (r : jsval) (c : dialog_call) : dialog_call :=
  { { c with onClose_calls := onClose_calls c ++ [r] } with answer := match answer c with Some r' => Some r' | None => Some r end }.

Definition animation_ended (t : timer) (s : state) : state :=
  let i := of_element t in
  let s := updateModalInertState (update i (λ e, { { e with displayed := false } with closing_attr := false }) s) in
  match result t, elements s !! i with
  | Some r, Some e =>
      let s := if destroyOnClose e then update i (λ e, { e with connected := false }) s else s in
      update i (λ e, { e with isClosing := false }) (update_show (shown_as e) (give_answer r) s)
  | _, _ => s
  end.

(** ** Events *)

(** [Chosen]: a button of a dialog that is shown closes it with a result. [Closed]: some code closes a dialog. *)
Inductive event :=
  | Show (o : options) | Chosen (i : nat) (r : jsval) | Closed (i : nat) (r : jsval) | Backdrop (i : nat) | Escape
  | Open_modal (i : nat) | Close_modal (i : nat) | Animation_ended (k : nat).

(** The handlers on the document, those of the modals first; a handler that was removed meanwhile is not called. *)
Definition escape_modal (s : state) (i : nat) : state :=
  match elements s !! i with
  | Some e => if negb (is_dialog e) && isModalOpen e then close_bound i s else s
  | None => s
  end.

Definition escape_dialog (s : state) (l : nat * nat) : state := if bool_decide (l ∈ listeners s) then close l.2 (JBool false) s else s.

Definition escape_pressed (s : state) : state := foldl escape_dialog (foldl escape_modal s (seq 0 (length (elements s)))) (listeners s).

Definition at_element (i : nat) (s : state) (p : dialog_node → bool) (f : state → state) : option state :=
  match elements s !! i with Some e => if p e then Some (f s) else None | None => None end.

Definition step (e : event) (s : state) : option state :=
  match e with
  | Show o => Some (show_dialog o s)
  | Chosen i r => at_element i s (λ e, is_dialog e && connected e && displayed e) (close i r)
  | Closed i r => at_element i s is_dialog (close i r)
  | Backdrop i => at_element i s (λ e, is_dialog e && connected e && displayed e && closable e) (close i (JBool false))
  | Escape => Some (escape_pressed s)
  | Open_modal i => at_element i s (λ e, negb (is_dialog e)) (openModalWithAnim i)
  | Close_modal i => at_element i s (λ e, negb (is_dialog e)) (close_bound i)
  | Animation_ended k => t ← timers s !! k; Some (animation_ended t { s with timers := delete k (timers s) })
  end.

(** The page: modals that are not open. *)
Definition modal (id : jsstring) : dialog_node := {|
  ident := Some id; is_dialog := false; connected := true; displayed := false; closing_attr := false; isClosing := false;
  closable := true; destroyOnClose := false; shown_as := None
|}.

Definition page (ids : list jsstring) : state := {| elements := modal <$> ids; shows := []; listeners := []; timers := []; inert := false |}.

End dialogs.

(** ** Elements of the document *)

Lemma find_alter {A} (P : A → Prop) `{∀ x, Decision (P x)} (f : A → A) l i :
  (∀ x, P (f x) ↔ P x) → list_find P (alter f i l) = (λ p, (p.1, if decide (p.1 = i) then f p.2 else p.2)) <$> list_find P l.
Proof.
  intros Hf. revert i. induction l as [|x l IH]; intros i; [by destruct i|]. destruct i as [|i]; cbn.
  - destruct (decide (P (f x))) as [H1|H1], (decide (P x)) as [H2|H2]; rewrite ?Hf in H1; try done. by destruct (list_find P l) as [[k y]|].
  - destruct (decide (P x)); [done|]. rewrite IH.
    destruct (list_find P l) as [[k y]|]; [|done]. cbn. f_equal. destruct (decide (k = i)) as [->|Hne].
    + by rewrite decide_True by done.
    + by rewrite decide_False by congruence.
Qed.

Lemma found_app {A} (P : A → Prop) `{∀ x, Decision (P x)} l x :
  list_find P (l ++ [x]) = match list_find P l with Some p => Some p | None => if decide (P x) then Some (length l, x) else None end.
Proof.
  induction l as [|y l IH]; cbn; [by destruct (decide (P x))|]. destruct (decide (P y)); [done|]. rewrite IH.
  destruct (list_find P l) as [[k z]|]; [done|]. by destruct (decide (P x)).
Qed.

Lemma foldl_preserves {A B} (P : A → Prop) (f : A → B → A) l s : (∀ s x, P s → P (f s x)) → P s → P (foldl f s l).
Proof. intros Hf. revert s. induction l as [|x l IH]; intros s Hs; [done|]. cbn. auto. Qed.

Lemma existsb_same {A} (p q : A → bool) l : (∀ x, p x = q x) → existsb p l = existsb q l.
Proof. intros Hpq. induction l as [|x l IH]; [done|]. cbn. by rewrite Hpq, IH. Qed.

(** An update that keeps what [getElementById] reads. *)
Definition keeps_identity (f : dialog_node → dialog_node) : Prop := ∀ e, ident (f e) = ident e ∧ connected (f e) = connected e ∧ is_dialog (f e) = is_dialog e.

Lemma keeps_id f id e : keeps_identity f → has_id id (f e) ↔ has_id id e.
Proof. intros Hf. unfold has_id. by destruct (Hf e) as (-> & -> & _). Qed.

Lemma get_update id i f s :
  keeps_identity f → getElementById id (update i f s) = (λ p, (p.1, if decide (p.1 = i) then f p.2 else p.2)) <$> getElementById id s.
Proof. intros Hf. apply find_alter. intros e. by apply keeps_id. Qed.

Lemma lookup_update i f s j : elements (update i f s) !! j = (if decide (j = i) then f <$> elements s !! j else elements s !! j).
Proof.
  cbn. destruct (decide (j = i)) as [->|]; [apply list_lookup_alter_eq|by apply list_lookup_alter_ne].
Qed.

Section inertness.
Context (modalIds : list jsstring).

Lemma any_open_update i f s :
  keeps_identity f → (∀ e, elements s !! i = Some e → isModalOpen (f e) = isModalOpen e) → any_open modalIds (update i f s) = any_open modalIds s.
Proof.
  intros Hk Ho. apply existsb_same. intros id.
  rewrite get_update by done. destruct (getElementById id s) as [[j e]|] eqn:E; [|done]. cbn. destruct (decide (j = i)) as [->|]; [|done].
  apply Ho. by apply list_find_Some in E as (E & _).
Qed.

(** A dialog that is found under its identifier is the only element with it. *)
Definition dialogs_unique (s : state) : Prop :=
  ∀ id i e, getElementById id s = Some (i, e) → is_dialog e = true → ∀ j e', elements s !! j = Some e' → has_id id e' → j = i.

Record doc (s : state) : Prop := {
  do_unique : dialogs_unique s;
  do_listeners : ∀ l, l ∈ listeners s → ∃ e, elements s !! l.2 = Some e ∧ is_dialog e = true;
  do_timers : ∀ t r, t ∈ timers s → result t = Some r → ∃ e, elements s !! of_element t = Some e ∧ is_dialog e = true;
  do_inert : inert s = any_open modalIds s
}.

Lemma unique_update i f s : keeps_identity f → dialogs_unique s → dialogs_unique (update i f s).
Proof.
  intros Hf Hu id j e. rewrite get_update by done. destruct (getElementById id s) as [[k e0]|] eqn:E; [|done]. cbn [fmap option_fmap option_map fst snd]. intros [= -> <-] Hd.
  assert (Hd0 : is_dialog e0 = true). { destruct (decide (j = i)); [|done]. destruct (Hf e0) as (_ & _ & <-). done. }
  intros j' e'. rewrite lookup_update. destruct (decide (j' = i)) as [->|]; [|by eapply Hu].
  destruct (elements s !! i) as [e1|] eqn:E1; [|done]. cbn. intros [= <-]. rewrite keeps_id by done. by eapply Hu.
Qed.

Lemma dialog_update i f s j : keeps_identity f → (∃ e, elements s !! j = Some e ∧ is_dialog e = true) → ∃ e, elements (update i f s) !! j = Some e ∧ is_dialog e = true.
Proof.
  intros Hf (e & E & Hd). rewrite lookup_update, E. destruct (decide (j = i)); [|by exists e]. exists (f e). split; [done|]. by destruct (Hf e) as (_ & _ & ->).
Qed.

(** An update whose end sets the inertness again. *)
Lemma doc_update i f s : keeps_identity f → doc s → doc (updateModalInertState modalIds (update i f s)).
Proof.
  intros Hf [Hu Hl Ht _]. split; [by apply unique_update| | |done].
  - intros l Hin. apply (dialog_update i f s l.2 Hf). by apply Hl.
  - intros t r Hin Hr. apply (dialog_update i f s (of_element t) Hf). by eapply Ht.
Qed.

(** An update that does not open or close. *)
Lemma doc_frame i f s : keeps_identity f → (∀ e, elements s !! i = Some e → isModalOpen (f e) = isModalOpen e) → doc s → doc (update i f s).
Proof.
  intros Hf Ho [Hu Hl Ht Hi]. split; [by apply unique_update| | |].
  - intros l Hin. apply (dialog_update i f s l.2 Hf). by apply Hl.
  - intros t r Hin Hr. apply (dialog_update i f s (of_element t) Hf). by eapply Ht.
  - rewrite any_open_update by done. exact Hi.
Qed.

Lemma doc_shows s n f : doc s → doc (update_show n f s).
Proof. intros []. destruct n; [|done]. by split. Qed.

Lemma doc_open i s : doc s → doc (openModalWithAnim modalIds i s).
Proof. intros Hd. unfold openModalWithAnim. destruct (elements s !! i) as [e|]; [|done]. destruct (closing_attr e); [done|]. by apply doc_update. Qed.

Lemma doc_animate i r s :
  doc s → (∀ x, r = Some x → ∃ e, elements s !! i = Some e ∧ is_dialog e = true) → doc (closeModalWithAnim modalIds i r s).
Proof.
  intros Hd Hr. unfold closeModalWithAnim. destruct (elements s !! i) as [e|] eqn:E; [|done]. destruct (closing_attr e); [done|]. cbv zeta.
  set (s1 := updateModalInertState _ _). assert (Hd1 : doc s1) by by apply doc_update. destruct Hd1 as [Hu Hl Ht Hi]. split; [done|done| |done].
  intros t x [Hin | ->%list_elem_of_singleton]%elem_of_app Hx; [by eapply Ht|]. destruct (Hr _ Hx) as (e0 & E0 & Hd0).
  apply (dialog_update i _ s i); [done|rewrite E; by exists e0].
Qed.

Lemma doc_bound i s : doc s → doc (close_bound modalIds i s).
Proof. intros Hd. unfold close_bound. destruct (elements s !! i); [|done]. destruct (_ && _); [done|]. by apply doc_animate. Qed.

Lemma doc_close i r s : doc s → (∃ e, elements s !! i = Some e ∧ is_dialog e = true) → doc (close modalIds i r s).
Proof.
  intros Hd He. unfold close. destruct (elements s !! i) as [e|] eqn:E; [|done]. destruct (_ || _); [done|]. cbv zeta.
  set (s1 := update i (λ e, { e with isClosing := true }) s). assert (Hd1 : doc s1) by by apply doc_frame.
  assert (He1 : ∃ e, elements s1 !! i = Some e ∧ is_dialog e = true) by (apply dialog_update; [done|by rewrite E]).
  set (s2 := { s1 with listeners := _ }). assert (Hd2 : doc s2).
  { destruct Hd1 as [Hu Hl Ht Hi]. split; [done| |done|done]. intros l Hin%list_elem_of_In. apply Hl, list_elem_of_In. by apply filter_In in Hin as [Hin _]. }
  apply doc_animate; [by apply doc_shows|]. intros _ _. unfold update_show. by destruct (shown_as e).
Qed.
(** A dialog that is not open leaves the document. *)
Definition leave (e : dialog_node) : dialog_node := { e with connected := false }.

Lemma leave_id id e : ¬ has_id id (leave e).
Proof. by intros [? _]. Qed.

Lemma get_leave id i s :
  dialogs_unique s → (∀ e, elements s !! i = Some e → is_dialog e = true) →
  getElementById id (update i leave s) = match getElementById id s with Some (j, e) => if decide (j = i) then None else Some (j, e) | None => None end.
Proof.
  intros Hu Hd. destruct (getElementById id s) as [[j e]|] eqn:E.
  - pose proof E as (Ej & Hp & Hmin)%list_find_Some. destruct (decide (j = i)) as [->|Hne].
    + apply list_find_None, Forall_lookup_2. intros k x. rewrite (lookup_update i leave s k). destruct (decide (k = i)) as [->|Hk].
      * rewrite Ej. intros [= <-]. apply leave_id.
      * intros Ex Hx. apply Hk. eapply (Hu id i e E); [by apply Hd|exact Ex|exact Hx].
    + apply list_find_Some. rewrite (lookup_update i leave s j), decide_False by done. split; [done|]. split; [done|]. intros k x.
      rewrite (lookup_update i leave s k). destruct (decide (k = i)) as [->|Hk]; [|by eauto]. destruct (elements s !! i); [|done]. intros [= <-] _. apply leave_id.
  - apply list_find_None, Forall_lookup_2. apply list_find_None in E. rewrite Forall_lookup in E. intros k x. rewrite (lookup_update i leave s k).
    destruct (decide (k = i)) as [->|]; [|apply E]. destruct (elements s !! i); [|done]. intros [= <-]. apply leave_id.
Qed.

Lemma doc_leave i s :
  doc s → (∀ e, elements s !! i = Some e → is_dialog e = true ∧ isModalOpen e = false) → doc (update i leave s).
Proof.
  intros [Hu Hl Ht Hi] Hd. assert (Hd' : ∀ e, elements s !! i = Some e → is_dialog e = true) by (intros e E; by apply Hd).
  assert (Hdia : ∀ j, (∃ e, elements s !! j = Some e ∧ is_dialog e = true) → ∃ e, elements (update i leave s) !! j = Some e ∧ is_dialog e = true).
  { intros j (e & E & He). rewrite lookup_update, E. destruct (decide (j = i)); [by exists (leave e)|by exists e]. }
  split.
  - intros id j e. rewrite get_leave by done. destruct (getElementById id s) as [[k e0]|] eqn:E; [|done]. destruct (decide (k = i)) as [|Hk]; [done|].
    intros [= -> ->] He j' e'. rewrite lookup_update. destruct (decide (j' = i)) as [->|]; [|by eapply Hu].
    destruct (elements s !! i); [|done]. intros [= <-] Hx. by apply leave_id in Hx.
  - intros l Hin. apply Hdia. by apply Hl.
  - intros t r Hin Hr. apply Hdia. by eapply Ht.
  - change (inert (update i leave s)) with (inert s). rewrite Hi. apply existsb_same. intros id. rewrite get_leave by done.
    destruct (getElementById id s) as [[k e0]|] eqn:E; [|done]. destruct (decide (k = i)) as [->|]; [|done].
    apply list_find_Some in E as (E & _). by apply Hd.
Qed.

Lemma doc_ended t s :
  doc s → (∀ r, result t = Some r → ∃ e, elements s !! of_element t = Some e ∧ is_dialog e = true) → doc (animation_ended modalIds t s).
Proof.
  intros Hd Ht. unfold animation_ended. cbv zeta. set (i := of_element t). set (f := λ e, { { e with displayed := false } with closing_attr := false }).
  set (s1 := updateModalInertState modalIds (update i f s)). assert (Hd1 : doc s1) by by apply doc_update.
  destruct (result t) as [r|] eqn:Er; [|done]. destruct (elements s1 !! i) as [e|] eqn:Ei; [|done].
  destruct (Ht _ eq_refl) as (e0 & E0 & He0). assert (Ee : e = f e0).
  { change (elements s1) with (elements (update i f s)) in Ei. rewrite lookup_update, decide_True in Ei by done. unfold i in Ei. rewrite E0 in Ei. by injection Ei. }
  apply doc_frame; [done|done|]. apply doc_shows. destruct (destroyOnClose e); [|done]. apply (doc_leave i s1); [done|].
  intros e1. rewrite Ei. intros [= <-]. rewrite Ee. split; [exact He0|]. unfold isModalOpen. cbn. done.
Qed.

Lemma doc_append o s :
  doc s → (∀ id i e, ident (new_element o) = Some id → getElementById id s = Some (i, e) → is_dialog e = false) →
  doc { s with elements := elements s ++ [new_element o] }.
Proof.
  intros [Hu Hl Ht Hi] Hn. set (s' := { s with elements := _ }).
  assert (Hget : ∀ id, getElementById id s' = match getElementById id s with Some p => Some p | None =>
    if decide (has_id id (new_element o)) then Some (length (elements s), new_element o) else None end) by (intros id; apply found_app).
  assert (Hdia : ∀ j, (∃ e, elements s !! j = Some e ∧ is_dialog e = true) → ∃ e, elements s' !! j = Some e ∧ is_dialog e = true).
  { intros j (e & E & He). exists e. split; [|done]. by apply lookup_app_l_Some. }
  split.
  - intros id i e. rewrite Hget. destruct (getElementById id s) as [[k e0]|] eqn:E.
    + intros [= -> ->] He j e' [Ej | [Hlen [Ej <-]%list_lookup_singleton_Some]]%lookup_app_Some Hid; [by eapply Hu|].
      destruct Hid as [_ Hid]. by rewrite (Hn _ _ _ Hid E) in He.
    + destruct (decide _) as [Hid|]; [|done]. intros [= <- <-] _ j e' [Ej | [Hlen [Ej <-]%list_lookup_singleton_Some]]%lookup_app_Some Hid'.
      * apply list_find_None in E. rewrite Forall_lookup in E. by destruct (E _ _ Ej).
      * lia.
  - intros l Hin. apply Hdia. by apply Hl.
  - intros t r Hin Hr. apply Hdia. by eapply Ht.
  - change (inert s') with (inert s). rewrite Hi. apply existsb_same. intros id. rewrite Hget. destruct (getElementById id s) as [[k e0]|]; [done|].
    by destruct (decide _).
Qed.

Lemma dialog_for_is o s :
  (∃ i e, truthy (opt_id o) = true ∧ getElementById (opt_id o) s = Some (i, e) ∧ is_dialog e = true ∧ dialog_for o s = (i, s)) ∨
  ((∀ id i e, ident (new_element o) = Some id → getElementById id s = Some (i, e) → is_dialog e = false) ∧
   dialog_for o s = (length (elements s), { s with elements := elements s ++ [new_element o] })).
Proof.
  unfold dialog_for. cbn [new_element ident]. destruct (truthy (opt_id o)) eqn:Et; [|by right].
  destruct (getElementById (opt_id o) s) as [[i e]|] eqn:E.
  - destruct (is_dialog e) eqn:Ed; [left; by exists i, e|right]. split; [|done]. intros id j e' [= <-]. rewrite E. by intros [= -> ->].
  - right. split; [|done]. intros id j e' [= <-]. by rewrite E.
Qed.

Lemma opened_keeps n o : keeps_identity (opened_as n o).
Proof. done. Qed.

Lemma doc_show o s : doc s → doc (show_dialog modalIds o s).
Proof.
  intros Hd. unfold show_dialog. assert (Hf : ∃ i s', dialog_for o s = (i, s') ∧ doc s' ∧ ∃ e, elements s' !! i = Some e ∧ is_dialog e = true).
  { destruct (dialog_for_is o s) as [(i & e & _ & E & He & ->) | [Hn ->]].
    - exists i, s. split; [done|split; [done|]]. exists e. split; [|done]. by apply list_find_Some in E as (E & _).
    - eexists _, _. split; [done|split; [by apply doc_append|]]. exists (new_element o). split; [|done]. by apply list_lookup_middle. }
  destruct Hf as (i & s' & -> & Hd' & He). set (s1 := { s' with shows := _ }). assert (Hd1 : doc s1) by by destruct Hd'.
  set (s2 := updateModalInertState modalIds (update i _ s1)). assert (Hd2 : doc s2) by by apply doc_update.
  destruct Hd2 as [Hu Hl Ht Hi]. split; [done| |done|done]. intros l [Hin | ->%list_elem_of_singleton]%elem_of_app; [by apply Hl|].
  exact (dialog_update i _ s1 i (opened_keeps _ _) He).
Qed.

Lemma doc_escape s : doc s → doc (escape_pressed modalIds s).
Proof.
  intros Hd. unfold escape_pressed. apply (foldl_preserves doc).
  - intros s' l Hd'. unfold escape_dialog. case_bool_decide; [|done]. apply doc_close; [done|]. by apply Hd'.
  - apply (foldl_preserves doc); [|done]. intros s' i Hd'. unfold escape_modal. destruct (elements s' !! i); [|done]. destruct (_ && _); [by apply doc_bound|done].
Qed.

Lemma at_element_some i s p f s' : at_element i s p f = Some s' → ∃ e, elements s !! i = Some e ∧ p e = true ∧ s' = f s.
Proof. unfold at_element. destruct (elements s !! i) as [e|]; [|done]. destruct (p e) eqn:E; [|done]. intros [= <-]. by exists e. Qed.

Lemma doc_step e s s' : step modalIds e s = Some s' → doc s → doc s'.
Proof.
  intros He Hd. destruct e; cbn [step] in He.
  - injection He as <-. by apply doc_show.
  - apply at_element_some in He as (e & E & [[Hp _]%andb_true_iff _]%andb_true_iff & ->). apply doc_close; [done|by exists e].
  - apply at_element_some in He as (e & E & Hp & ->). apply doc_close; [done|by exists e].
  - apply at_element_some in He as (e & E & [[[Hp _]%andb_true_iff _]%andb_true_iff _]%andb_true_iff & ->). apply doc_close; [done|by exists e].
  - injection He as <-. by apply doc_escape.
  - apply at_element_some in He as (e & _ & _ & ->). by apply doc_open.
  - apply at_element_some in He as (e & _ & _ & ->). by apply doc_bound.
  - destruct (timers s !! k) as [t|] eqn:E; [|done]. injection He as <-. apply list_elem_of_lookup_2 in E.
    apply doc_ended; [|intros r Hr; by apply (do_timers _ Hd t r)].
    destruct Hd as [Hu Hl Ht Hi]. split; [done|done| |done]. intros t' r Hin. apply Ht. eapply elem_of_sublist; [exact Hin|apply sublist_delete].
Qed.
End inertness.

(** ** Answers *)

Section answers.
Context (modalIds : list jsstring).

(** A dialog is shown under an identifier when the one of before is gone, and code closes only dialogs that are shown. *)
Definition calm (e : event) (s : state) : Prop :=
  match e with
  | Show o => ∀ i x, (if truthy (opt_id o) then getElementById (opt_id o) s else None) = Some (i, x) → is_dialog x = true → displayed x = false
  | Closed i _ => ∀ x, elements s !! i = Some x → displayed x = true
  | _ => True
  end.

Definition calm_step (s s' : state) : Prop := ∃ e, calm e s ∧ step modalIds e s = Some s'.

Definition idle (i : nat) (s : state) : Prop := ∀ t, t ∈ timers s → of_element t ≠ i.

(** Where a dialog is: open, with its key handler; closing, with a choice and a timer; or gone, with its promise settled. *)
Definition dialog_ok (s : state) (i : nat) (e : dialog_node) : Prop :=
  if displayed e then
    connected e = true ∧ ∃ n c, shown_as e = Some n ∧ shows s !! n = Some c ∧ answer c = None ∧ onClose_calls c = [] ∧
      if closing_attr e then isClosing e = true ∧ (∃ r, choice c = Some r ∧ {| of_element := i; result := Some r |} ∈ timers s) ∧ ∀ m, (m, i) ∉ listeners s
      else isClosing e = false ∧ choice c = None ∧ (n, i) ∈ listeners s ∧ idle i s
  else closing_attr e = false ∧ isClosing e = false ∧ idle i s ∧ (∀ n, (n, i) ∉ listeners s) ∧
    ∀ n, shown_as e = Some n → ∃ c, shows s !! n = Some c ∧ is_Some (answer c).

Definition modal_ok (s : state) (i : nat) (e : dialog_node) : Prop :=
  isClosing e = false ∧ shown_as e = None ∧ (∀ n, (n, i) ∉ listeners s) ∧
  if closing_attr e then displayed e = true ∧ {| of_element := i; result := None |} ∈ timers s else idle i s.

Definition el_ok (s : state) (i : nat) (e : dialog_node) : Prop := if is_dialog e then dialog_ok s i e else modal_ok s i e.

Definition call_ok (s : state) (n : nat) (c : dialog_call) : Prop :=
  match answer c with
  | Some r => choice c = Some r ∧ onClose_calls c = [r]
  | None => ∃ i e, elements s !! i = Some e ∧ is_dialog e = true ∧ displayed e = true ∧ shown_as e = Some n
  end.

Record links (s : state) : Prop := {
  li_elements : ∀ i e, elements s !! i = Some e → el_ok s i e;
  li_calls : ∀ n c, shows s !! n = Some c → call_ok s n c;
  li_own : ∀ i j e e' n, elements s !! i = Some e → elements s !! j = Some e' → shown_as e = Some n → shown_as e' = Some n → i = j;
  li_listeners : ∀ n i, (n, i) ∈ listeners s → ∃ e, elements s !! i = Some e ∧ shown_as e = Some n;
  li_timers : NoDup (of_element <$> timers s);
  li_exist : ∀ t, t ∈ timers s → is_Some (elements s !! of_element t)
}.

(** One element is replaced. *)
Definition replaced (i : nat) (e : dialog_node) (s s' : state) : Prop := ∀ j, elements s' !! j = if decide (j = i) then Some e else elements s !! j.

(** What an element depends on. *)
Lemma el_frame s s' i e :
  (∀ n, shown_as e = Some n → shows s' !! n = shows s !! n) → (∀ n, (n, i) ∈ listeners s' ↔ (n, i) ∈ listeners s) →
  (∀ t, of_element t = i → t ∈ timers s' ↔ t ∈ timers s) → el_ok s i e → el_ok s' i e.
Proof.
  intros Hs Hl Ht. assert (Hi : idle i s → idle i s') by (intros Hi t Hin E; apply (Hi t); [by apply Ht|done]).
  unfold el_ok, dialog_ok, modal_ok. destruct (is_dialog e).
  - destruct (displayed e).
    + intros (Hc & n & c & En & Ec & Ha & Ho & Hrest). split; [done|]. exists n, c. rewrite Hs by done. do 4 (split; [done|]).
      destruct (closing_attr e); [|rewrite Hl; naive_solver]. destruct Hrest as (H1 & (r & H2 & H3) & H4). split; [done|]. split; [exists r; by rewrite Ht|].
      intros m. by rewrite Hl.
    + intros (H1 & H2 & H3 & H4 & H5). split_and!; [done|done|auto|intros n; by rewrite Hl|]. intros n En. rewrite Hs by done. auto.
  - intros (H1 & H2 & H3 & H4). split_and!; [done|done|intros n; by rewrite Hl|]. destruct (closing_attr e); [rewrite Ht by done; done|auto].
Qed.

(** The timer of a closing element is the only one it has. *)
Lemma timer_of s t i e :
  links s → t ∈ timers s → of_element t = i → elements s !! i = Some e →
  displayed e = true ∧ closing_attr e = true ∧
  (if is_dialog e then ∃ n c r, shown_as e = Some n ∧ shows s !! n = Some c ∧ answer c = None ∧ onClose_calls c = [] ∧ choice c = Some r ∧ result t = Some r ∧
     connected e = true ∧ ∀ m, (m, i) ∉ listeners s
   else result t = None ∧ isClosing e = false ∧ shown_as e = None ∧ ∀ m, (m, i) ∉ listeners s).
Proof.
  intros Hl Ht Hi E. assert (Huniq : ∀ t', t' ∈ timers s → of_element t' = i → t' = t).
  { intros t' Ht' Hi'. apply list_elem_of_lookup in Ht as [a Ha], Ht' as [b Hb]. assert (a = b) as ->; [|congruence].
    apply (NoDup_lookup (of_element <$> timers s) a b i); [apply (li_timers _ Hl)|rewrite list_lookup_fmap, Ha; cbn; congruence|].
    rewrite list_lookup_fmap, Hb. cbn. congruence. }
  pose proof (li_elements _ Hl i e E) as He. unfold el_ok, dialog_ok, modal_ok in He. destruct (is_dialog e).
  - destruct (displayed e); [|by destruct He as (_ & _ & H3 & _); destruct (H3 t)].
    destruct He as (Hc & n & c & En & Ec & Ha & Ho & He). destruct (closing_attr e); [|by destruct He as (_ & _ & _ & H4); destruct (H4 t)].
    destruct He as (_ & (r & Hr & Hin) & Hn). split; [done|]. split; [done|]. exists n, c, r. split_and!; try done.
    by rewrite <- (Huniq _ Hin eq_refl).
  - destruct He as (H1 & H2 & H3 & He). destruct (closing_attr e); [|by destruct (He t)]. destruct He as [Hd Hin].
    split; [done|]. split; [done|]. split_and!; try done. by rewrite <- (Huniq _ Hin eq_refl).
Qed.
(** A step at one element. *)
Lemma links_change i e e' s s' :
  links s → elements s !! i = Some e → replaced i e' s s' →
  (∀ n, shown_as e' = Some n → shown_as e = Some n ∨ ∀ j x, elements s !! j = Some x → shown_as x ≠ Some n) →
  (∀ m, shown_as e ≠ Some m → shown_as e' ≠ Some m → shows s' !! m = shows s !! m) →
  (∀ m j, j ≠ i → (m, j) ∈ listeners s' ↔ (m, j) ∈ listeners s) →
  (∀ t, of_element t ≠ i → t ∈ timers s' ↔ t ∈ timers s) →
  el_ok s' i e' →
  (∀ n c, shown_as e = Some n ∨ shown_as e' = Some n → shows s' !! n = Some c → call_ok s' n c) →
  (∀ m, (m, i) ∈ listeners s' → shown_as e' = Some m) →
  NoDup (of_element <$> timers s') → links s'.
Proof.
  intros Hl Ei Hr Hown Hsh Hli Hti Hok Hcall Hlis Hnd.
  assert (Hoth : ∀ j x, j ≠ i → elements s !! j = Some x → ∀ n, shown_as x = Some n → shown_as e ≠ Some n ∧ shown_as e' ≠ Some n).
  { intros j x Hne Ej n En. assert (shown_as e ≠ Some n) as H1 by (intros En'; apply Hne; by eapply (li_own _ Hl j i)).
    split; [done|]. intros [En'|Hfr]%Hown; [done|]. by destruct (Hfr _ _ Ej). }
  assert (Hlook : ∀ j x, j ≠ i → elements s' !! j = Some x → elements s !! j = Some x) by (intros j x Hne; rewrite Hr; by rewrite decide_False).
  assert (Hself : elements s' !! i = Some e') by (rewrite Hr; by rewrite decide_True).
  split.
  - intros j x Ej. destruct (decide (j = i)) as [->|Hne]; [congruence|]. pose proof (Hlook _ _ Hne Ej) as Ej'.
    apply (el_frame s); [|by intros m; apply Hli|intros t <-; by apply Hti|by apply Hl]. intros n En. by apply Hsh; eapply Hoth.
  - intros n c Ec. destruct (decide (shown_as e = Some n)); [by eauto|]. destruct (decide (shown_as e' = Some n)); [by eauto|].
    rewrite Hsh in Ec by done. pose proof (li_calls _ Hl n c Ec) as Hc. unfold call_ok in *. destruct (answer c); [done|].
    destruct Hc as (j & x & Ej & H1 & H2 & H3). exists j, x. split; [|done]. rewrite Hr, decide_False; [done|]. intros ->. congruence.
  - assert (Hmix : ∀ j x n, j ≠ i → elements s' !! j = Some x → shown_as x = Some n → shown_as e' ≠ Some n).
    { intros j x n Hne Ej En. eapply Hoth; [exact Hne|by apply Hlook|done]. }
    intros j k x y n Ej Ek Ex Ey. destruct (decide (j = i)) as [->|Hj], (decide (k = i)) as [->|Hk]; [done| | |].
    + rewrite Hself in Ej. injection Ej as <-. by destruct (Hmix k y n).
    + rewrite Hself in Ek. injection Ek as <-. by destruct (Hmix j x n).
    + eapply (li_own _ Hl j k); [by apply Hlook|by apply Hlook|done|done].
  - intros n j Hin. destruct (decide (j = i)) as [->|Hne]; [exists e'; split; [done|by apply Hlis]|].
    apply Hli in Hin; [|done]. destruct (li_listeners _ Hl n j Hin) as (x & Ej & En). exists x. split; [|done]. by rewrite Hr, decide_False.
  - done.
  - intros t Ht. rewrite Hr. destruct (decide (of_element t = i)) as [|Hne]; [done|]. apply Hti in Ht; [|done]. by apply (li_exist _ Hl).
Qed.

(** ** The operations *)

Lemma close_open i r s e :
  elements s !! i = Some e → isClosing e = false → closing_attr e = false → ∃ s',
  close modalIds i r s = s' ∧ replaced i { { e with isClosing := true } with closing_attr := true } s s' ∧
  shows s' = shows (update_show (shown_as e) (first_choice r) s) ∧
  listeners s' = List.filter (λ l, negb (bool_decide (Some l.1 = shown_as e))) (listeners s) ∧ timers s' = timers s ++ [{| of_element := i; result := Some r |}].
Proof.
  intros E H1 H2. eexists. split; [reflexivity|]. unfold close. rewrite E, H1, H2. cbn [orb]. cbv zeta. unfold closeModalWithAnim.
  set (s1 := update_show _ _ _). assert (E1 : elements s1 !! i = Some { e with isClosing := true }).
  { transitivity (elements (update i (λ e, { e with isClosing := true }) s) !! i); [by destruct (shown_as e)|]. by rewrite lookup_update, decide_True, E. }
  rewrite E1. change (closing_attr { e with isClosing := true }) with (closing_attr e). rewrite H2. split_and!.
  - intros j. transitivity (elements (update i (λ e, { e with closing_attr := true }) s1) !! j); [done|]. rewrite lookup_update.
    destruct (decide (j = i)) as [->|Hne]; [by rewrite E1|]. transitivity (elements (update i (λ e, { e with isClosing := true }) s) !! j); [by destruct (shown_as e)|].
    by rewrite lookup_update, decide_False.
  - unfold s1. by destruct (shown_as e).
  - unfold s1. by destruct (shown_as e).
  - unfold s1. by destruct (shown_as e).
Qed.

Lemma close_links i r s :
  links s → (∀ e, elements s !! i = Some e → is_dialog e = true ∧ displayed e = true) → links (close modalIds i r s).
Proof.
  intros Hl Hd. destruct (elements s !! i) as [e|] eqn:E; [|unfold close; by rewrite E]. destruct (Hd _ eq_refl) as [Hdi Hdis].
  pose proof (li_elements _ Hl i e E) as He. unfold el_ok, dialog_ok in He. rewrite Hdi, Hdis in He.
  destruct He as (Hc & n & c & En & Ec & Ha & Ho & He). destruct (closing_attr e) eqn:Eat.
  { unfold close. rewrite E, Eat. destruct (isClosing e); done. }
  destruct He as (Ecl & Ech & Hin & Hidle). destruct (close_open i r s e E Ecl Eat) as (s' & -> & Hr & Hsh & Hli & Hti).
  assert (Hsh' : shows s' = alter (first_choice r) n (shows s)) by by rewrite Hsh, En.
  eapply (links_change i e _ s s' Hl E Hr); cbn [shown_as].
  - by left.
  - intros m Hm _. rewrite Hsh'. apply list_lookup_alter_ne. congruence.
  - intros m j Hne. rewrite Hli, elem_of_filtered. split; [tauto|]. intros Hm. split; [done|].
    apply negb_true_iff, bool_decide_eq_false. intros Hm'. destruct (li_listeners _ Hl m j Hm) as (x & Ej & Ex). apply Hne. by eapply (li_own _ Hl j i x e m).
  - intros t Hne. rewrite Hti, elem_of_app, list_elem_of_singleton. split; [|by left]. intros [?| ->]; [done|]. done.
  - unfold el_ok, dialog_ok. cbn. rewrite Hdi, Hdis. split; [done|]. exists n, (first_choice r c). rewrite Hsh', list_lookup_alter_eq, Ec.
    split_and!; try done.
    + exists r. split; [unfold first_choice; cbn; by rewrite Ech|]. rewrite Hti. apply elem_of_app. right. by left.
    + intros m. rewrite Hli, elem_of_filtered. intros [Hm Hm']. apply negb_true_iff, bool_decide_eq_false in Hm'.
      destruct (li_listeners _ Hl m i Hm) as (x & Ex & Exn). rewrite E in Ex. injection Ex as <-. done.
  - intros m c' [Em|Em]; (assert (m = n) as -> by (change (shown_as e = Some m) in Em; congruence)); rewrite Hsh', list_lookup_alter_eq, Ec; intros [= <-];
      unfold call_ok; cbn; rewrite Ha; eexists i, _; (split; [rewrite Hr; by rewrite decide_True|done]).
  - intros m. rewrite Hli, elem_of_filtered. intros [Hm Hm']. destruct (li_listeners _ Hl m i Hm) as (x & Ex & Exn). rewrite E in Ex. by injection Ex as <-.
  - rewrite Hti, fmap_app. apply NoDup_app. split_and!; [apply Hl| |apply NoDup_singleton]. intros j (t & -> & Ht)%list_elem_of_fmap Hj%list_elem_of_singleton.
    by apply (Hidle t).
Qed.

(** The element after the end of its animation. *)
Definition gone (destroyed : bool) (e : dialog_node) : dialog_node :=
  { { { { e with displayed := false } with closing_attr := false } with connected := connected e && negb destroyed } with isClosing := false }.

Lemma update_self i f s j e : elements s !! i = Some e → elements (update i f s) !! j = if decide (j = i) then Some (f e) else elements s !! j.
Proof. intros E. rewrite lookup_update. destruct (decide (j = i)) as [->|]; [by rewrite E|done]. Qed.

Lemma ended_dialog t r s e :
  elements s !! of_element t = Some e → result t = Some r → ∃ s',
  animation_ended modalIds t s = s' ∧ replaced (of_element t) (gone (destroyOnClose e) e) s s' ∧
  shows s' = shows (update_show (shown_as e) (give_answer r) s) ∧ listeners s' = listeners s ∧ timers s' = timers s.
Proof.
  intros E Hr. eexists. split; [reflexivity|]. unfold animation_ended. cbv zeta. set (i := of_element t) in *. rewrite Hr.
  set (f := λ e, { { e with displayed := false } with closing_attr := false }). set (s1 := updateModalInertState modalIds (update i f s)).
  assert (H1 : ∀ j, elements s1 !! j = if decide (j = i) then Some (f e) else elements s !! j) by (intros j; by apply (update_self i f s)).
  rewrite (H1 i), decide_True by done. change (destroyOnClose (f e)) with (destroyOnClose e). change (shown_as (f e)) with (shown_as e).
  set (s2 := if destroyOnClose e then update i (λ e, { e with connected := false }) s1 else s1).
  set (g := λ e0, { e0 with connected := connected e0 && negb (destroyOnClose e) }).
  assert (H2 : ∀ j, elements s2 !! j = if decide (j = i) then Some (g (f e)) else elements s !! j).
  { intros j. unfold s2. destruct (destroyOnClose e) eqn:Ed.
    - rewrite (update_self i _ s1 j (f e)) by (rewrite H1; by rewrite decide_True). rewrite H1. destruct (decide (j = i)); [|done].
      f_equal. unfold g. cbn. by rewrite ?Ed, andb_false_r.
    - rewrite H1. destruct (decide (j = i)); [|done]. f_equal. unfold g. cbn. rewrite ?Ed, andb_true_r. by destruct e. }
  set (s3 := update_show (shown_as e) (give_answer r) s2). assert (H3 : elements s3 = elements s2) by (unfold s3; by destruct (shown_as e)).
  split_and!.
  - intros j. rewrite (update_self i _ s3 j (g (f e))) by (rewrite H3, H2; by rewrite decide_True). rewrite H3, H2. by destruct (decide (j = i)).
  - unfold s3, s2. destruct (shown_as e), (destroyOnClose e); done.
  - unfold s3, s2. destruct (shown_as e), (destroyOnClose e); done.
  - unfold s3, s2. destruct (shown_as e), (destroyOnClose e); done.
Qed.

Lemma ended_modal t s e :
  elements s !! of_element t = Some e → result t = None →
  replaced (of_element t) { { e with displayed := false } with closing_attr := false } s (animation_ended modalIds t s) ∧
  shows (animation_ended modalIds t s) = shows s ∧ listeners (animation_ended modalIds t s) = listeners s ∧ timers (animation_ended modalIds t s) = timers s.
Proof.
  intros E Hr. unfold animation_ended. cbv zeta. rewrite Hr. split; [|done]. intros j.
  exact (update_self (of_element t) (λ e, { { e with displayed := false } with closing_attr := false }) s j e E).
Qed.

(** The timer that fires is taken from the list. *)
Lemma timer_taken s k t :
  links s → timers s !! k = Some t →
  NoDup (of_element <$> delete k (timers s)) ∧ (∀ t', t' ∈ delete k (timers s) → of_element t' ≠ of_element t) ∧
  ∀ t', of_element t' ≠ of_element t → t' ∈ delete k (timers s) ↔ t' ∈ timers s.
Proof.
  intros Hl Hk. pose proof (delete_Permutation _ _ _ Hk) as Hp. pose proof (li_timers _ Hl) as Hn. rewrite Hp, fmap_cons in Hn.
  apply NoDup_cons in Hn as [Hnot Hn]. split; [done|]. split.
  - intros t' Hin E. apply Hnot. rewrite <- E. by apply list_elem_of_fmap_2.
  - intros t' Hne. rewrite (elem_of_Permutation_proper t' _ _ Hp), elem_of_cons. split; [by right|]. by intros [-> | ?].
Qed.

Lemma ended_links k t s : links s → timers s !! k = Some t → links (animation_ended modalIds t { s with timers := delete k (timers s) }).
Proof.
  intros Hl Hk. pose proof (list_elem_of_lookup_2 _ _ _ Hk) as Hin. destruct (li_exist _ Hl t Hin) as [e E].
  destruct (timer_taken s k t Hl Hk) as (Hnd & Hno & Hoth). destruct (timer_of s t _ e Hl Hin eq_refl E) as (Hdis & Hat & Hrest).
  set (s0 := { s with timers := delete k (timers s) }). change (elements s !! of_element t = Some e) with (elements s0 !! of_element t = Some e) in E.
  destruct (is_dialog e) eqn:Hdi.
  - destruct Hrest as (n & c & r & En & Ec & Ha & Ho & Hch & Hr & Hc & Hlis). destruct (ended_dialog t r s0 e E Hr) as (s' & -> & Hrep & Hsh & Hli & Hti).
    assert (Hsh' : shows s' = alter (give_answer r) n (shows s)) by by rewrite Hsh, En.
    eapply (links_change (of_element t) e _ s s' Hl E Hrep).
    + by left.
    + intros m Hm _. rewrite Hsh'. apply list_lookup_alter_ne. congruence.
    + intros m j Hne. by rewrite Hli.
    + intros t' Hne. rewrite Hti. by apply Hoth.
    + unfold el_ok, dialog_ok. cbn. rewrite Hdi. split_and!; [done|done|intros t' Ht'; rewrite Hti in Ht'; by apply Hno|intros m; rewrite Hli; by apply Hlis|].
      intros m Em. assert (m = n) as -> by congruence. exists (give_answer r c). rewrite Hsh', list_lookup_alter_eq, Ec. split; [done|]. unfold give_answer. cbn. rewrite Ha. done.
    + intros m c' [Em|Em]; (assert (m = n) as -> by (change (shown_as e = Some m) in Em; congruence)); rewrite Hsh', list_lookup_alter_eq, Ec; intros [= <-];
        unfold call_ok; cbn; by rewrite Ha, Ho.
    + intros m. rewrite Hli. intros Hm. by apply Hlis in Hm.
    + by rewrite Hti.
  - destruct Hrest as (Hr & Hcl & Hsn & Hlis). destruct (ended_modal t s0 e E Hr) as (Hrep & Hsh & Hli & Hti).
    eapply (links_change (of_element t) e _ s _ Hl E Hrep).
    + by left.
    + intros m _ _. by rewrite Hsh.
    + intros m j Hne. by rewrite Hli.
    + intros t' Hne. rewrite Hti. by apply Hoth.
    + unfold el_ok, modal_ok. cbn. rewrite Hdi. split_and!; [done|done|intros m; rewrite Hli; by apply Hlis|]. intros t' Ht'. rewrite Hti in Ht'. by apply Hno.
    + intros m c' [Em|Em]; change (shown_as e = Some m) in Em; congruence.
    + intros m. rewrite Hli. intros Hm. by apply Hlis in Hm.
    + by rewrite Hti.
Qed.

(** A new dialog, which is not shown yet. *)
Lemma append_links o s : links s → links { s with elements := elements s ++ [new_element o] }.
Proof.
  intros Hl. set (s' := { s with elements := _ }).
  assert (Hold : ∀ j x, elements s' !! j = Some x → elements s !! j = Some x ∨ (j = length (elements s) ∧ x = new_element o)).
  { intros j x [Hj | [Hlen [Hj <-]%list_lookup_singleton_Some]]%lookup_app_Some; [by left|right]. split; [lia|done]. }
  assert (Hnew : ∀ j x, elements s !! j = Some x → elements s' !! j = Some x) by (intros j x; apply lookup_app_l_Some).
  assert (Hnone : elements s !! length (elements s) = None) by by apply lookup_ge_None.
  split.
  - intros j x [Hj | [-> ->]]%Hold; [exact (li_elements _ Hl j x Hj)|]. unfold el_ok, dialog_ok. cbn. split_and!; try done.
    + intros t Ht E. destruct (li_exist _ Hl t Ht) as [y Ey]. rewrite E in Ey. congruence.
    + intros n Hn. destruct (li_listeners _ Hl _ _ Hn) as (y & Ey & _). congruence.
  - intros n c Ec. pose proof (li_calls _ Hl n c Ec) as Hc. unfold call_ok in *. destruct (answer c); [done|]. destruct Hc as (j & x & Ej & Hx). exists j, x. auto.
  - intros j k x y n [Hj | [-> ->]]%Hold [Hk | [-> ->]]%Hold Ex Ey; [by eapply (li_own _ Hl j k)|done|done|done].
  - intros n j Hin. destruct (li_listeners _ Hl n j Hin) as (x & Ej & En). exists x. auto.
  - apply Hl.
  - intros t Ht. destruct (li_exist _ Hl t Ht) as [x Ex]. exists x. auto.
Qed.

Lemma calls_below s i e n : links s → elements s !! i = Some e → shown_as e = Some n → is_Some (shows s !! n).
Proof.
  intros Hl Ei En. pose proof (li_elements _ Hl i e Ei) as He. unfold el_ok, dialog_ok, modal_ok in He. destruct (is_dialog e); [|by destruct He as (_ & ? & _); congruence].
  destruct (displayed e).
  - destruct He as (_ & m & c & Em & Ec & _). exists c. congruence.
  - destruct He as (_ & _ & _ & _ & Hs). destruct (Hs n En) as (c & Ec & _). by exists c.
Qed.

Lemma show_links o s : links s → calm (Show o) s → links (show_dialog modalIds o s).
Proof.
  intros Hl Hc. unfold show_dialog. assert (Hf : ∃ i s0 e, dialog_for o s = (i, s0) ∧ links s0 ∧ shows s0 = shows s ∧ elements s0 !! i = Some e ∧ is_dialog e = true ∧ displayed e = false ∧ connected e = true).
  { destruct (dialog_for_is o s) as [(i & e & Ht & E & He & ->) | [Hn ->]].
    - exists i, s, e. pose proof E as (Ei & [Hcon _] & _)%list_find_Some. split_and!; try done. apply (Hc i e); [by rewrite Ht|done].
    - eexists _, _, (new_element o). split; [done|split; [by apply append_links|]]. split; [done|]. split; [by apply list_lookup_middle|done]. }
  destruct Hf as (i & s0 & e & -> & Hl0 & Hs0 & Ei & Hdi & Hdis & Hcon). set (n := length (shows s)).
  pose proof (li_elements _ Hl0 i e Ei) as He. unfold el_ok, dialog_ok in He. rewrite Hdi, Hdis in He. destruct He as (Hat & Hcl & Hidle & Hlis & Hset).
  assert (Hfresh : ∀ j x, elements s0 !! j = Some x → shown_as x ≠ Some n).
  { intros j x Ej En. destruct (calls_below s0 j x n Hl0 Ej En) as [c Ec]. rewrite Hs0 in Ec. apply lookup_lt_Some in Ec. unfold n in Ec. lia. }
  set (c0 := {| answer := None; onClose_calls := []; choice := None |}). set (s1 := { s0 with shows := shows s0 ++ [c0] }).
  set (s2 := updateModalInertState modalIds (update i (opened_as n o) s1)). set (s' := { s2 with listeners := listeners s2 ++ [(n, i)] }).
  assert (Hrep : replaced i (opened_as n o e) s0 s') by (intros j; by apply (update_self i (opened_as n o) s0)).
  assert (Hshn : shows s' !! n = Some c0). { change (shows s') with (shows s0 ++ [c0]). rewrite Hs0. by apply list_lookup_middle. }
  eapply (links_change i e _ s0 s' Hl0 Ei Hrep).
  - intros m [= <-]. by right.
  - intros m _ Hm. change (shows s') with (shows s0 ++ [c0]). rewrite Hs0. assert (m ≠ n) by (intros ->; by apply Hm).
    destruct (decide (m < n)); [by apply lookup_app_l|]. rewrite (proj2 (lookup_ge_None _ _)), (proj2 (lookup_ge_None _ _)); [done|unfold n in *; lia|].
    rewrite length_app. cbn. unfold n in *. lia.
  - intros m j Hne. change (listeners s') with (listeners s0 ++ [(n, i)]). rewrite elem_of_app, list_elem_of_singleton. split; [|by left].
    intros [?|[= -> ->]]; done.
  - done.
  - unfold el_ok, dialog_ok. cbn. rewrite Hdi. split; [done|]. exists n, c0. rewrite Hat. split_and!; try done. apply elem_of_app. right. by left.
  - intros m c [Em|[= <-]] Ec.
    + destruct (Hset m Em) as (c' & Ec' & [r Hr]). assert (E : shows s' !! m = Some c') by by apply lookup_app_l_Some.
      rewrite E in Ec. injection Ec as <-. pose proof (li_calls _ Hl0 m c' Ec') as Hcall. unfold call_ok in *. by rewrite Hr in *.
    + rewrite Hshn in Ec. injection Ec as <-. unfold call_ok. cbn. pose proof (Hrep i) as E. rewrite decide_True in E by done. by exists i, (opened_as n o e).
  - intros m [Hm | [= ->]%list_elem_of_singleton]%elem_of_app; [|done]. by apply Hlis in Hm.
  - apply Hl0.
Qed.

(** A modal of the page changes. *)
Lemma modal_links i e e' s s' :
  links s → elements s !! i = Some e → is_dialog e = false → is_dialog e' = false → isClosing e' = false → shown_as e' = None → replaced i e' s s' →
  shows s' = shows s → listeners s' = listeners s → (∀ t, of_element t ≠ i → t ∈ timers s' ↔ t ∈ timers s) → NoDup (of_element <$> timers s') →
  (if closing_attr e' then displayed e' = true ∧ {| of_element := i; result := None |} ∈ timers s' else idle i s') → links s'.
Proof.
  intros Hl Ei Hdi Hdi' Hcl' Hsn' Hrep Hsh Hli Hti Hnd Hok. pose proof (li_elements _ Hl i e Ei) as He. unfold el_ok, modal_ok in He. rewrite Hdi in He.
  destruct He as (_ & Hsn & Hlis & _). eapply (links_change i e e' s s' Hl Ei Hrep).
  - congruence.
  - intros m _ _. by rewrite Hsh.
  - intros m j _. by rewrite Hli.
  - done.
  - unfold el_ok, modal_ok. rewrite Hdi'. split_and!; [done|done|intros m; rewrite Hli; by apply Hlis|done].
  - intros m c [Em|Em]; congruence.
  - intros m. rewrite Hli. intros Hm. by apply Hlis in Hm.
  - done.
Qed.

Lemma open_links i s : links s → (∀ e, elements s !! i = Some e → is_dialog e = false) → links (openModalWithAnim modalIds i s).
Proof.
  intros Hl Hd. unfold openModalWithAnim. destruct (elements s !! i) as [e|] eqn:Ei; [|done]. destruct (closing_attr e) eqn:Eat; [done|].
  pose proof (li_elements _ Hl i e Ei) as He. unfold el_ok, modal_ok in He. rewrite (Hd _ eq_refl), Eat in He. destruct He as (Hcl & Hsn & Hlis & Hidle).
  eapply (modal_links i e { e with displayed := true } s); try done; [by apply Hd|by apply (Hd e)| |apply Hl|cbn; by rewrite Eat].
  intros j. exact (update_self i (λ e, { e with displayed := true }) s j e Ei).
Qed.

Lemma bound_links i s : links s → (∀ e, elements s !! i = Some e → is_dialog e = false) → links (close_bound modalIds i s).
Proof.
  intros Hl Hd. unfold close_bound. destruct (elements s !! i) as [e|] eqn:Ei; [|done]. destruct (_ && _) eqn:Eo; [done|].
  unfold closeModalWithAnim. rewrite Ei. destruct (closing_attr e) eqn:Eat; [done|]. cbv zeta.
  assert (Hdis : displayed e = true). { apply andb_false_iff in Eo as [Eo|Eo]; apply negb_false_iff in Eo; [by apply andb_true_iff in Eo as [_ ?]|done]. }
  pose proof (li_elements _ Hl i e Ei) as He. unfold el_ok, modal_ok in He. rewrite (Hd _ eq_refl), Eat in He. destruct He as (Hcl & Hsn & Hlis & Hidle).
  eapply (modal_links i e { e with closing_attr := true } s); try done; [by apply Hd|by apply (Hd e)| | | |].
  - intros j. exact (update_self i (λ e, { e with closing_attr := true }) s j e Ei).
  - intros t Hne. cbn. rewrite elem_of_app, list_elem_of_singleton. split; [|by left]. by intros [?| ->].
  - cbn. rewrite fmap_app. apply NoDup_app. split_and!; [apply Hl| |apply NoDup_singleton]. intros j (t & -> & Ht)%list_elem_of_fmap Hj%list_elem_of_singleton.
    by apply (Hidle t).
  - cbn. split; [done|]. apply elem_of_app. right. by left.
Qed.

Lemma escape_links s : links s → links (escape_pressed modalIds s).
Proof.
  intros Hl. unfold escape_pressed. apply (foldl_preserves links).
  - intros s' [n i] Hl'. unfold escape_dialog. case_bool_decide as Hin; [|done]. apply close_links; [done|]. cbn. intros e Ei.
    destruct (li_listeners _ Hl' n i Hin) as (x & Ex & _). rewrite Ei in Ex. injection Ex as <-.
    pose proof (li_elements _ Hl' i e Ei) as He. unfold el_ok, dialog_ok, modal_ok in He. destruct (is_dialog e); [|by destruct He as (_ & _ & H3 & _); destruct (H3 n)].
    destruct (displayed e); [done|]. by destruct He as (_ & _ & _ & H4 & _); destruct (H4 n).
  - apply (foldl_preserves links); [|done]. intros s' i Hl'. unfold escape_modal. destruct (elements s' !! i) as [e|] eqn:Ei; [|done].
    destruct (_ && _) eqn:Eb; [|done]. apply andb_true_iff in Eb as [Hd%negb_true_iff _]. apply bound_links; [done|]. rewrite Ei. by intros e' [= <-].
Qed.

Lemma calm_links s s' : calm_step s s' → links s → links s'.
Proof.
  intros (e & Hc & He) Hl. destruct e; cbn [step] in He.
  - injection He as <-. by apply show_links.
  - apply at_element_some in He as (e & E & [[Hp _]%andb_true_iff Hd]%andb_true_iff & ->). apply close_links; [done|]. rewrite E. by intros e' [= <-].
  - apply at_element_some in He as (e & E & Hp & ->). apply close_links; [done|]. intros e' E'. split; [congruence|by apply Hc].
  - apply at_element_some in He as (e & E & [[[Hp _]%andb_true_iff Hd]%andb_true_iff _]%andb_true_iff & ->). apply close_links; [done|]. rewrite E. by intros e' [= <-].
  - injection He as <-. by apply escape_links.
  - apply at_element_some in He as (e & E & Hp%negb_true_iff & ->). apply open_links; [done|]. rewrite E. by intros e' [= <-].
  - apply at_element_some in He as (e & E & Hp%negb_true_iff & ->). apply bound_links; [done|]. rewrite E. by intros e' [= <-].
  - destruct (timers s !! k) as [t|] eqn:E; [|done]. injection He as <-. by apply ended_links.
Qed.

(** ** Theorems *)

Definition steps (s s' : state) : Prop := ∃ e, step modalIds e s = Some s'.

Lemma page_modal ids i e : elements (page ids) !! i = Some e → ∃ id, e = modal id.
Proof. cbn. rewrite list_lookup_fmap. destruct (ids !! i) as [id|]; [|done]. intros [= <-]. by exists id. Qed.

Lemma page_doc ids : doc modalIds (page ids).
Proof.
  split; [|by intros ? ?%elem_of_nil|by intros ? ? ?%elem_of_nil|].
  - intros id i e E. apply list_find_Some in E as (E & _). by destruct (page_modal _ _ _ E) as [x ->].
  - symmetry. apply existsb_none. intros id _.
    destruct (getElementById id (page ids)) as [[i e]|] eqn:E; [|done]. apply list_find_Some in E as (E & _). by destruct (page_modal _ _ _ E) as [x ->].
Qed.

Lemma page_links ids : links (page ids).
Proof.
  split; [| | | |apply NoDup_nil_2|by intros ? ?%elem_of_nil].
  - intros i e [id ->]%page_modal. unfold el_ok, modal_ok. cbn. split_and!; [done|done|by intros ? ?%elem_of_nil|by intros ? ?%elem_of_nil].
  - by intros n c.
  - intros i j e e' n [id ->]%page_modal. done.
  - by intros n i ?%elem_of_nil.
Qed.

(** Whatever is shown, closed or pressed, in whatever order, also dialogs under an identifier in use and dialogs that are closed
    twice: the page behind is inert exactly when one of the known modals is open, and a dialog that is found under its identifier is
    the only element with it. *)
Theorem page_inert ids s : rtc steps (page ids) s → inert s = any_open modalIds s ∧ dialogs_unique s.
Proof.
  intros Hr. assert (doc modalIds s) as [Hu _ _ Hi]; [|done].
  refine (rtc_preserves steps (doc modalIds) _ _ _ Hr (page_doc ids)). intros s1 s2 Hd [e He]. by eapply doc_step.
Qed.

(** C19: A dialog is shown under an identifier when the one of before is gone, and code closes only dialogs that are shown. Then every
    call of [show_dialog] is open, closing or settled. Settled, its promise has what the dialog was closed with first, and [onClose] was called
    with it, once. Before, the dialog is on the page: open, with its key handler on the document, or closing with its choice, which a
    timer will give out. No other key handler is on the document. *)
Theorem dialog_answers ids s :
  rtc calm_step (page ids) s →
  (∀ n c, shows s !! n = Some c →
     match answer c with
     | Some r => choice c = Some r ∧ onClose_calls c = [r]
     | None =>
         onClose_calls c = [] ∧ ∃ i e, elements s !! i = Some e ∧ shown_as e = Some n ∧ connected e = true ∧ displayed e = true ∧
           match choice c with
           | None => isModalOpen e = true ∧ (n, i) ∈ listeners s
           | Some r => isModalOpen e = false ∧ {| of_element := i; result := Some r |} ∈ timers s
           end
     end) ∧
  (∀ n i, (n, i) ∈ listeners s → ∃ e, elements s !! i = Some e ∧ shown_as e = Some n ∧ isModalOpen e = true).
Proof.
  intros Hr. assert (Hl : links s) by (refine (rtc_preserves calm_step links _ _ _ Hr (page_links ids)); intros ? ? ? ?; by eapply calm_links).
  split.
  - intros n c Ec. pose proof (li_calls _ Hl n c Ec) as Hc. unfold call_ok in Hc. destruct (answer c) as [r|] eqn:Ea; [done|].
    destruct Hc as (i & e & Ei & Hd & Hdis & En). pose proof (li_elements _ Hl i e Ei) as He. unfold el_ok, dialog_ok in He. rewrite Hd, Hdis in He.
    destruct He as (Hcon & n' & c' & En' & Ec' & _ & Ho & He). assert (n' = n) as -> by congruence. assert (c' = c) as -> by congruence.
    split; [done|]. exists i, e. do 4 (split; [done|]). unfold isModalOpen. rewrite Hdis. destruct (closing_attr e).
    + destruct He as (_ & (r & -> & Hin) & _). done.
    + destruct He as (_ & -> & Hin & _). done.
  - intros n i Hin. destruct (li_listeners _ Hl n i Hin) as (e & Ei & En). exists e. split; [done|split; [done|]].
    pose proof (li_elements _ Hl i e Ei) as He. unfold el_ok, dialog_ok, modal_ok in He. unfold isModalOpen.
    destruct (is_dialog e); [|by destruct He as (_ & _ & H3 & _); destruct (H3 n)]. destruct (displayed e); [|by destruct He as (_ & _ & _ & H4 & _); destruct (H4 n)].
    destruct He as (_ & m & c & _ & _ & _ & _ & He). destruct (closing_attr e); [|done]. by destruct He as (_ & _ & H3); destruct (H3 n).
Qed.
End answers.

(** ** Examples *)

Module Runs.

(** [FRONTEND_MODAL_IDS] of [app-ui.js], and the modals the page starts with. *)
Definition FRONTEND_MODAL_IDS : list jsstring := js <$> [
  "user-editor-modal"; "user-password-result-modal"; "repo-mirrors-modal"; "language-modal"; "message-center-modal"; "message-compose-modal";
  "renop-confirm-container"; "renop-prompt-container"]%stdpp.

Definition start : state := page [js "language-modal"].

Fixpoint run (es : list event) (s : state) : option state :=
  match es with [] => Some s | e :: es => s' ← step FRONTEND_MODAL_IDS e s; run es s' end.

Lemma dialog_run_steps es s s' : run es s = Some s' → rtc (steps FRONTEND_MODAL_IDS) s s'.
Proof.
  revert s. induction es as [|e es IH]; intros s; cbn [run]; [intros [= <-]; constructor|].
  destruct (step FRONTEND_MODAL_IDS e s) as [s1|] eqn:E; [|done]. intros Hr. eapply rtc_l; [by exists e|by apply IH].
Qed.

Definition question : options := {| opt_id := js "renop-confirm-container"; opt_closable := true; opt_destroyOnClose := true |}.
Definition locks : options := {| opt_id := js "resource-lock-dialog"; opt_closable := true; opt_destroyOnClose := true |}.
Definition wizard : options := {| opt_id := js "wizard"; opt_closable := false; opt_destroyOnClose := true |}.

Definition yes : jsval := JBool true.

(** A question over a modal of the page: answered, it gives out the answer, and the page is inert until the modal is closed too. *)
Definition asked : list event := [Open_modal 0; Show question; Chosen 1 yes; Escape; Animation_ended 0].

Definition at_answer : state := or_else (run asked start) start.

(** [calm], decided. *)
Definition calm_b (e : event) (s : state) : bool :=
  match e with
  | Show o => match (if truthy (opt_id o) then getElementById (opt_id o) s else None) with Some (_, x) => negb (is_dialog x && displayed x) | None => true end
  | Closed i _ => match elements s !! i with Some x => displayed x | None => true end
  | _ => true
  end.

Fixpoint calm_run (es : list event) (s : state) : option state :=
  match es with
  | [] => Some s
  | e :: es => if calm_b e s then s' ← step FRONTEND_MODAL_IDS e s; calm_run es s' else None
  end.

Lemma dialog_calm_reached es s s' : calm_run es s = Some s' → rtc (calm_step FRONTEND_MODAL_IDS) s s'.
Proof.
  revert s. induction es as [|e es IH]; intros s; cbn [calm_run]; [intros [= <-]; constructor|].
  destruct (calm_b e s) eqn:Ec; [|done]. destruct (step FRONTEND_MODAL_IDS e s) as [s1|] eqn:E; [|done]. intros Hr. eapply rtc_l; [|by apply IH]. exists e.
  split; [|done]. destruct e; cbn in Ec |- *; try done.
  - intros i x Hx Hd. rewrite Hx, Hd in Ec. by apply negb_true_iff in Ec.
  - intros x Hx. by rewrite Hx in Ec.
Qed.

Lemma answer_reached : rtc (calm_step FRONTEND_MODAL_IDS) start at_answer.
Proof. apply (dialog_calm_reached asked). vm_compute. reflexivity. Qed.

Lemma answer_steps : rtc (steps FRONTEND_MODAL_IDS) start at_answer.
Proof. apply (dialog_run_steps asked). vm_compute. reflexivity. Qed.

Lemma answer_given : answer <$> shows at_answer = [Some yes] ∧ listeners at_answer = [] ∧ inert at_answer = false.
Proof. split_and!; vm_compute; reflexivity. Qed.

(** A question is asked again while the answer to the one of before fades: the new question gets the old answer, unasked, and the old one
    none at all. *)
Lemma answer_of_before :
  ∃ s, run [Show question; Chosen 1 yes; Show question; Animation_ended 0] start = Some s ∧ answer <$> shows s = [None; Some yes].
Proof. eexists. split; vm_compute; reflexivity. Qed.

(** A question is asked again while it is open: the first one is never answered, and its key handler stays on the document. *)
Lemma question_replaced :
  ∃ s, run [Show question; Show question; Chosen 1 yes; Animation_ended 0] start = Some s ∧ answer <$> shows s = [None; Some yes] ∧ listeners s = [(0, 1)].
Proof. eexists. split_and!; vm_compute; reflexivity. Qed.

(** Code closes a dialog that was closed by a key meanwhile: its [onClose] is called twice. *)
Lemma closed_twice :
  ∃ s, run [Show question; Escape; Animation_ended 0; Closed 1 yes; Animation_ended 0] start = Some s ∧
    onClose_calls <$> shows s = [[JBool false; yes]].
Proof. eexists. split; vm_compute; reflexivity. Qed.

(** The key closes every dialog that is open, and also one that is not to be closed by it. *)
Lemma escape_closes_all :
  ∃ s, run [Show wizard; Show question; Escape] start = Some s ∧ timers s = [{| of_element := 1; result := Some (JBool false) |}; {| of_element := 2; result := Some (JBool false) |}].
Proof. eexists. split; vm_compute; reflexivity. Qed.

(** The page stays usable behind a dialog whose identifier is not in the list. *)
Lemma page_behind : ∃ s, run [Show locks] start = Some s ∧ inert s = false ∧ listeners s = [(0, 1)].
Proof. eexists. split_and!; vm_compute; reflexivity. Qed.

End Runs.

Lemma page_inert_witness :
  rtc (steps Runs.FRONTEND_MODAL_IDS) (page [js "language-modal"]) Runs.at_answer ∧ inert Runs.at_answer = any_open Runs.FRONTEND_MODAL_IDS Runs.at_answer.
Proof. split; [exact Runs.answer_steps|]. apply (page_inert Runs.FRONTEND_MODAL_IDS [js "language-modal"] Runs.at_answer Runs.answer_steps). Defined.

Lemma dialog_answers_witness :
  rtc (calm_step Runs.FRONTEND_MODAL_IDS) (page [js "language-modal"]) Runs.at_answer ∧
  (∀ n i, (n, i) ∈ listeners Runs.at_answer → ∃ e, elements Runs.at_answer !! i = Some e ∧ shown_as e = Some n ∧ isModalOpen e = true).
Proof. split; [exact Runs.answer_reached|]. apply (dialog_answers Runs.FRONTEND_MODAL_IDS [js "language-modal"] Runs.at_answer Runs.answer_reached). Defined.
