(* ===== verification/ApiTokens.v ===== *)
(** * Tokens of an account

    [internal/service/frontend/renop-html/js/api-tokens.js]: the form that creates a token with scopes and targets, and the list of
    tokens that overlapping requests fill. What a token may do is decided by the server ([internal/service/auth/api_token.go],
    [api_token_routes.go], [internal/core/api_token.go], [super_team.go], [internal/utils/path.go]), whose rules are modelled as well:
    a token that the form creates may do exactly what the form says. Secrets, the database and the cards of the list are left out. *)

From S2P Require Import Prelude JsText JsValue Uri Sorting Auth.
From Stdlib Require Import Sorted.
From coqutil Require Import Datatypes.RecordSettersUsingExistingGetters.
Local Open Scope nat_scope.

#[local] Arguments const {E} _ _ /.
#[local] Arguments cons {A} & _ _.

(** ** The form *)

Definition scopeGroups : list (jsstring * list jsstring) := [
  (js "repository", js <$> ["repository:read"; "repository:publish"; "repository:delete"]%stdpp);
  (js "package", js <$> ["package:create"; "package:metadata"; "package:lifecycle"; "team:manage"]%stdpp);
  (js "domain", js <$> ["domain:read"; "domain:create"; "domain:verify"; "domain:lifecycle"]%stdpp);
  (js "account", js <$> ["messages:read"; "account:read"; "account:write"; "statistics:read"]%stdpp);
  (js "administration", js <$> ["admin:users"; "admin:repositories"; "admin:settings"; "admin:audit"; "admin:notifications"; "admin:updates"; "admin:statistics"]%stdpp)].

(** The scopes the server offers, the kinds of their targets, and the number of targets of a token. *)
Record scope_catalog := { scopes : list jsstring; targetKinds : list (jsstring * jsstring); targetLimit : nat }.

(** The groups with their scopes; an empty group is left out. *)
Definition createScopeGroups (allowedScopes : list jsstring) : list (jsstring * list jsstring) :=
  List.filter (λ g, negb (length g.2 =? 0)) ((λ g, (g.1, List.filter (λ s, bool_decide (s ∈ allowedScopes)) g.2)) <$> scopeGroups).

Definition shown_scopes (allowedScopes : list jsstring) : list jsstring := concat (createScopeGroups allowedScopes).*2.

Definition checked_at_first (scope : jsstring) : bool := eqs scope (js "repository:read") || eqs scope (js "repository:publish").

(** What the form holds. [expiration]: one of the choices. *)
Record token_form := { token_name : jsstring; checked : jsstring → bool; texts : jsstring → jsstring; expiration : jsstring }.

Definition expiration_values : list jsstring := js <$> ["7"; "30"; "90"; "365"; "0"]%stdpp.

Definition opened_form : token_form := {| token_name := []; checked := checked_at_first; texts := λ _, []; expiration := js "30" |}.

(** [Number(expirationValue) || 0] *)
Definition expiration_days (value : jsstring) : Z :=
  if eqs value (js "7") then 7 else if eqs value (js "30") then 30 else if eqs value (js "90") then 90 else if eqs value (js "365") then 365 else 0.

Definition has_editor (catalog : scope_catalog) (scope : jsstring) : bool :=
  match assoc (targetKinds catalog) scope with Some kind => truthy kind | None => false end.

(** [[...new Set(l)]] *)
Definition distinct (l : list jsstring) : list jsstring := reverse (remove_dups (reverse l)).

(** [editor.value.split(/[\n,]+/u)], trimmed; between two separators in a row there is an empty part, which is dropped. *)
Definition typed_targets (text : jsstring) : list jsstring :=
  distinct (List.filter truthy (trim <$> splitBy (λ c, ascii_eqb c (chr 10) || ascii_eqb c ","%char) text)).

Record token_request := { req_name : jsstring; req_scopes : list jsstring; req_targets : list (jsstring * list jsstring); req_expires : option Z }.

Inductive form_error := Name_required | Scope_required | Target_limit_reached (limit : nat).

Definition form_targets (catalog : scope_catalog) (form : token_form) (scopes : list jsstring) : list (jsstring * list jsstring) :=
  omap (λ scope, if has_editor catalog scope then match typed_targets (texts form scope) with [] => None | values => Some (scope, values) end else None) scopes.

(** Submitting the form, up to the request. *)
Definition submit (catalog : scope_catalog) (form : token_form) (now : Z) : form_error + token_request :=
  let scopes := List.filter (checked form) (shown_scopes (scopes catalog)) in
  if negb (truthy (trim (token_name form))) then inl Name_required
  else if length scopes =? 0 then inl Scope_required
  else
    let targets := form_targets catalog form scopes in
    if targetLimit catalog <? list_sum ((λ st, length st.2) <$> targets) then inl (Target_limit_reached (targetLimit catalog))
    else
      let days := expiration_days (expiration form) in
      inr {| req_name := trim (token_name form); req_scopes := scopes; req_targets := targets;
             req_expires := if (0 <? days)%Z then Some (now + days * 86400000)%Z else None |}.

(** ** Text of the server

    Characters of Latin-1; the length of a text is that of its UTF-8 encoding. *)

Definition byte_length (s : jsstring) : nat := list_sum ((λ c, if (code c <? 128)%N then 1 else 2) <$> s).

(** [strings.Trim(s, "/")], [strings.TrimSuffix(s, ".")] *)
Definition trim_slashes : jsstring → jsstring := trim_by (ascii_eqb "/"%char).
Definition trim_dot (s : jsstring) : jsstring := if endsWith s (js ".") then take (length s - 1) s else s.

(** [strings.Cut(s, "/")] *)
Fixpoint cut (s : jsstring) : option (jsstring * jsstring) :=
  match s with
  | [] => None
  | c :: s => if ascii_eqb c "/"%char then Some ([], s) else (λ ab, (c :: ab.1, ab.2)) <$> cut s
  end.

(** ** Names of the server *)

Definition isReservedDeviceName (part : jsstring) : bool :=
  let base := match split "." part with b :: _ => b | [] => [] end in
  existsb (eqs (toLowerCase base)) (js <$> ["con"; "prn"; "aux"; "nul"; "com1"; "com2"; "com3"; "com4"; "com5"; "com6"; "com7"; "com8"; "com9";
    "lpt1"; "lpt2"; "lpt3"; "lpt4"; "lpt5"; "lpt6"; "lpt7"; "lpt8"; "lpt9"]%stdpp).

Definition forbidden_char (c : ascii) : bool := go_control c || existsb (ascii_eqb c) (js "\:%*?#<>|" ++ [chr 34]).

(** One part of [SanitizePath]: [Some []] if it is dropped, [None] if the path is refused. A text decoded beyond Latin-1 is refused
    here: it is not the text it was decoded from. *)
Definition sanitized_part (part : jsstring) : option jsstring :=
  if negb (truthy part) || eqs part (js ".") then Some []
  else match decodeURIComponent part with
       | Decoded part =>
           if negb (truthy part) || eqs part (js ".") then Some []
           else if eqs part (js "..") || existsb (λ c, ascii_eqb c "/"%char || ascii_eqb c "\"%char) part || endsWith part (js " ") || endsWith part (js ".")
                   || isReservedDeviceName part || existsb forbidden_char part then None
           else Some part
       | _ => None
       end.

Definition IsValidRepositoryName (name : jsstring) : bool :=
  if negb (truthy name) || existsb (ascii_eqb "/"%char) name then false
  else match sanitized_part name with Some s => eqs s name | None => false end.

Definition NormalizeSuperTeamPrefix (prefix : jsstring) : option jsstring :=
  let prefix := toLowerCase (TrimSpace prefix) in
  let inner := removelast (drop 1 prefix) in
  let plain c := is_lower c || is_digit c in
  let ends := match prefix with [] => false | c :: _ => plain c end && match reverse prefix with [] => false | c :: _ => plain c end in
  if (byte_length prefix <? 2) || (64 <? byte_length prefix) then None
  else if ends && forallb (λ c, plain c || ascii_eqb c "-"%char || ascii_eqb c "_"%char) inner then Some prefix else None.

(** ** Targets of the server: their canonical form *)

Definition normalizeRepositoryTarget (value : jsstring) : option jsstring :=
  let value := TrimSpace value in
  if IsValidRepositoryName value && (byte_length value <=? 64) then Some value else None.

Definition normalizeDomainTarget (value : jsstring) : option jsstring :=
  let value := toLowerCase (trim_dot (TrimSpace value)) in
  if negb (truthy value) || (253 <? byte_length value) || existsb (λ c, ascii_eqb c "/"%char || ascii_eqb c "\"%char) value then None
  else if existsb (λ c, go_control c || go_space c) value then None
  else Some value.

Definition plain_part (part : jsstring) : bool :=
  negb (negb (truthy part) || eqs part (js ".") || eqs part (js "..")) && negb (existsb go_control part).

Definition normalizePackageTarget (value : jsstring) : option jsstring :=
  let value := trim_slashes (TrimSpace value) in
  match cut value with
  | None => None
  | Some (repository, name) =>
      if negb (truthy name) || existsb (ascii_eqb "\"%char) name || includes name (js "//") then None
      else match normalizeRepositoryTarget repository with
           | None => None
           | Some _ =>
               if forallb plain_part (split "/" name) && (byte_length value <=? 512) then Some (repository ++ js "/" ++ name) else None
           end
  end.

Definition normalizeTeamTarget (value : jsstring) : option jsstring :=
  let value := trim_slashes (TrimSpace value) in
  let rest (prefix : jsstring) := drop (length prefix) value in
  if startsWith value (js "domain/") then app (js "domain/") <$> normalizeDomainTarget (rest (js "domain/"))
  else if startsWith value (js "package/") then app (js "package/") <$> normalizePackageTarget (rest (js "package/"))
  else if startsWith value (js "global/") then app (js "global/") <$> NormalizeSuperTeamPrefix (rest (js "global/"))
  else None.

Definition normalizeAPITokenTarget (kind value : jsstring) : option jsstring :=
  if eqs kind (js "repository") then normalizeRepositoryTarget value
  else if eqs kind (js "domain") then normalizeDomainTarget value
  else if eqs kind (js "package") then normalizePackageTarget value
  else if eqs kind (js "team") then normalizeTeamTarget value
  else None.

(** ** Scopes of the server *)

Record apiTokenScopeDefinition := { Scope : jsstring; ManagerOnly : bool; TargetKind : jsstring }.

Definition scope_definition (m : bool) (kind scope : string) : apiTokenScopeDefinition := {| Scope := js scope; ManagerOnly := m; TargetKind := js kind |}.

Definition apiTokenScopeDefinitions : list apiTokenScopeDefinition :=
  (scope_definition false "repository" <$> ["repository:read"; "repository:publish"; "repository:delete"; "package:create"]%stdpp) ++
  (scope_definition false "package" <$> ["package:metadata"; "package:lifecycle"]%stdpp) ++
  [scope_definition false "team" "team:manage"] ++
  (scope_definition false "domain" <$> ["domain:read"; "domain:create"; "domain:verify"; "domain:lifecycle"]%stdpp) ++
  (scope_definition false "" <$> ["messages:read"; "account:read"; "account:write"; "statistics:read"]%stdpp) ++
  (scope_definition true "" <$> ["admin:users"; "admin:repositories"; "admin:settings"; "admin:audit"; "admin:notifications"; "admin:updates"; "admin:statistics"]%stdpp).

(** [manager]: [isManagerPermissions] of the account. *)
Definition allowedAPITokenScopes (manager : bool) : list jsstring :=
  Scope <$> List.filter (λ d, negb (ManagerOnly d) || manager) apiTokenScopeDefinitions.

Definition allowedAPITokenTargetKinds (manager : bool) : list (jsstring * jsstring) :=
  (λ d, (Scope d, TargetKind d)) <$> List.filter (λ d, truthy (TargetKind d) && (negb (ManagerOnly d) || manager)) apiTokenScopeDefinitions.

Definition MaxAPITokensPerUser := 50.
Definition MaxAPITokenNameLength := 80.
Definition MaxAPITokenScopes := 24.
Definition MaxAPITokenTargets := 128.
Definition MaxAPITokenTargetLength := 512.

(** What the form is opened with. *)
Definition listProfileAPITokenScopes (permissions : list jsstring) : scope_catalog :=
  let manager := isManagerPermissions permissions in
  {| scopes := allowedAPITokenScopes manager; targetKinds := allowedAPITokenTargetKinds manager; targetLimit := MaxAPITokenTargets |}.

(** [slices.Sort] and [slices.Compact]; the order of the bytes of UTF-8 is that of the characters. *)
Definition str_cmp (s k : jsstring) : Z := if str_leb s k then if eqs s k then 0 else -1 else 1.

Fixpoint compact (l : list jsstring) : list jsstring :=
  match l with
  | x :: (y :: _) as l' => if eqs x y then compact l' else x :: compact l'
  | _ => l
  end.

Definition sort_compact (l : list jsstring) : list jsstring := compact (sort_by str_cmp l).

Definition normalizeAPITokenScopes (manager : bool) (requested : list jsstring) : option (list jsstring) :=
  if (length requested =? 0) || (MaxAPITokenScopes <? length requested) then None
  else
    normalized ← mapM (λ scope, let scope := toLowerCase (TrimSpace scope) in
                                if bool_decide (scope ∈ allowedAPITokenScopes manager) then Some scope else None) requested;
    match sort_compact normalized with [] => None | normalized => Some normalized end.

(** The targets of one scope. *)
Definition normalize_scope_targets (manager : bool) (selected : list jsstring) (st : jsstring * list jsstring) : option (jsstring * list jsstring) :=
  if negb (bool_decide (st.1 ∈ selected)) || (length st.2 =? 0) then None
  else
    kind ← assoc (allowedAPITokenTargetKinds manager) st.1;
    targets ← mapM (normalizeAPITokenTarget kind) st.2;
    Some (st.1, sort_compact targets).

Definition total_targets (l : list (jsstring * list jsstring)) : nat := list_sum ((λ st, length st.2) <$> l).

Definition normalizeAPITokenTargets (manager : bool) (selected : list jsstring) (requested : list (jsstring * list jsstring)) : option (list (jsstring * list jsstring)) :=
  if length requested =? 0 then Some []
  else
    normalized ← mapM (normalize_scope_targets manager selected) requested;
    if (total_targets normalized =? 0) || (MaxAPITokenTargets <? total_targets normalized) then None else Some normalized.

(** ** Creating a token *)

Definition LegacyAPITokenNamePrefix : jsstring := js "Migrated upload token ".

Definition legacy_name (value : jsstring) : bool := startsWith (toLowerCase value) (toLowerCase LegacyAPITokenNamePrefix).

Definition validAPITokenName (value : jsstring) : bool :=
  negb (negb (truthy value) || (MaxAPITokenNameLength <? byte_length value) || legacy_name value) && negb (existsb go_control value).

Definition normalizeAPITokenExpiry (expiresAt : option Z) (now : Z) : option (option Z) :=
  match expiresAt with
  | None => Some None
  | Some e =>
      if (e =? 0)%Z then Some None
      else if (e <? now + 5 * 60 * 1000)%Z || (now + 5 * 365 * 24 * 60 * 60 * 1000 <? e)%Z then None
      else Some (Some e)
  end.

Record server_token := { Name : jsstring; Scopes : list jsstring; Targets : list (jsstring * list jsstring); CreatedAt : Z; ExpiresAt : option Z }.

Inductive create_error := Token_invalid | Token_limit | Token_name_exists | Token_failed.

(** The longest prefix of [s] that has at most [n] bytes. *)
Fixpoint truncateUTF8 (s : jsstring) (n : nat) : jsstring :=
  match s with
  | [] => []
  | c :: s => let k := if (code c <? 128)%N then 1 else 2 in if n <? k then [] else c :: truncateUTF8 s (n - k)
  end.

Definition control_byte (c : ascii) : bool :=
  (code c <? 32)%N && negb (existsb (λ n, N.eqb (code c) n) [9; 10; 13]%N) || N.eqb (code c) 127.

Definition SanitizeInputString (s : jsstring) (maxLen : nat) : jsstring := truncateUTF8 (List.filter (λ c, negb (control_byte c)) s) maxLen.

Definition stored_target (t : jsstring) : option jsstring :=
  let t := TrimSpace t in
  if negb (truthy t) || (MaxAPITokenTargetLength <? byte_length t) then None else Some t.

(** The targets of one scope as they are stored. *)
Definition stored_scope_targets (selected : list jsstring) (st : jsstring * list jsstring) : option (jsstring * list jsstring) :=
  if negb (bool_decide (st.1 ∈ selected)) || (length st.2 =? 0) then None
  else
    targets ← mapM stored_target st.2;
    Some (st.1, sort_compact targets).

(** The rules of the database; the identifier of a token is left out. *)
Definition normalizeStoredAPIToken (token : server_token) : option server_token :=
  let name := TrimSpace (SanitizeInputString (Name token) MaxAPITokenNameLength) in
  let selected := sort_compact (Scopes token) in
  if (CreatedAt token <=? 0)%Z then None
  else if negb (truthy name) || legacy_name name then None
  else if (length (Scopes token) =? 0) || (MaxAPITokenScopes <? length (Scopes token)) then None
  else if existsb (λ scope, negb (truthy scope) || (64 <? byte_length scope)) selected then None
  else
    targets ← mapM (stored_scope_targets selected) (Targets token);
    if MaxAPITokenTargets <? total_targets targets then None
    else if match ExpiresAt token with Some e => (e <=? CreatedAt token)%Z | None => false end then None
    else Some {| Name := name; Scopes := selected; Targets := targets; CreatedAt := CreatedAt token; ExpiresAt := ExpiresAt token |}.

Section create.
(** [LOWER(a) = LOWER(b)] of the database *)
Context (same_name : jsstring → jsstring → bool).

(** [existing]: the names of the account's tokens. *)
Definition CreateAPIToken (existing : list jsstring) (token : server_token) : create_error + server_token :=
  match normalizeStoredAPIToken token with
  | None => inl Token_failed
  | Some token =>
      if MaxAPITokensPerUser <=? length existing then inl Token_limit
      else if existsb (λ name, same_name name (Name token)) existing then inl Token_name_exists
      else inr token
  end.

Definition createAPITokenForAccount (permissions : list jsstring) (existing : list jsstring) (req : token_request) (now : Z) : create_error + server_token :=
  let manager := isManagerPermissions permissions in
  let name := TrimSpace (req_name req) in
  if negb (validAPITokenName name) then inl Token_invalid
  else match normalizeAPITokenScopes manager (req_scopes req) with
  | None => inl Token_invalid
  | Some scopes =>
      match normalizeAPITokenTargets manager scopes (req_targets req) with
      | None => inl Token_invalid
      | Some targets =>
          match normalizeAPITokenExpiry (req_expires req) now with
          | None => inl Token_invalid
          | Some expiresAt =>
              CreateAPIToken existing {| Name := name; Scopes := scopes; Targets := targets; CreatedAt := now; ExpiresAt := expiresAt |}
          end
      end
  end.
End create.

(** The message of the form for a request that fails. *)
Definition create_failure (e : create_error) : jsstring :=
  match e with
  | Token_name_exists => js "profile.apiTokenNameConflict"
  | Token_limit => js "profile.apiTokenLimitReached"
  | _ => js "profile.apiTokenCreateFailed"
  end.

(** [apiTokenAuthorizationAllows] with the scopes and targets of the token. *)
Definition allows (token : server_token) (scope target : jsstring) : bool :=
  bool_decide (scope ∈ Scopes token) &&
  match assoc (Targets token) scope with
  | None => true
  | Some restricted => truthy target && bool_decide (target ∈ restricted)
  end.

(** The rows of a token's card that tell its targets, and whether it is shown as expired. *)
Definition target_rows (targets : list (jsstring * list jsstring)) : list (jsstring * list jsstring) :=
  List.filter (λ st, negb (length st.2 =? 0)) targets.

Definition expired (now : Z) (expires_at : option Z) : bool :=
  match expires_at with Some e => (0 <? e)%Z && (e <=? now)%Z | None => false end.

(** ** The abstract policy: what the form says *)

(** The target that a typed text stands for. *)
Definition canonical (kind v : jsstring) : option jsstring :=
  t ← normalizeAPITokenTarget kind v; stored_target t.

(** The targets typed for a scope, with their kind. *)
Definition restriction (catalog : scope_catalog) (form : token_form) (scope : jsstring) : option (jsstring * list jsstring) :=
  match assoc (targetKinds catalog) scope with
  | Some kind => match typed_targets (texts form scope) with [] => None | values => Some (kind, values) end
  | None => None
  end.

Definition chosen (catalog : scope_catalog) (form : token_form) (scope : jsstring) : Prop :=
  scope ∈ scopes catalog ∧ checked form scope = true.

Definition policy (catalog : scope_catalog) (form : token_form) (scope target : jsstring) : Prop :=
  chosen catalog form scope ∧
  match restriction catalog form scope with
  | None => True
  | Some (kind, values) => ∃ v, v ∈ values ∧ canonical kind v = Some target
  end.

Definition well_typed (catalog : scope_catalog) (form : token_form) : Prop :=
  ∀ scope kind values v, chosen catalog form scope → restriction catalog form scope = Some (kind, values) → v ∈ values → is_Some (canonical kind v).

(** ** Lemmas *)

(** Lists of options. *)
Section mapM.
Context {A B C : Type}.

Lemma mapM_elem (f : A → option B) l k y : mapM f l = Some k → (y ∈ k ↔ ∃ x, x ∈ l ∧ f x = Some y).
Proof.
  rewrite mapM_Some. induction 1 as [|x z l k Hx _ IH]; [set_solver|].
  rewrite elem_of_cons, IH. split.
  - intros [->|(x' & ? & ?)]; [exists x|exists x']; set_solver.
  - intros (x' & [->|?]%elem_of_cons & ?); [left; congruence|right; by exists x'].
Qed.

Lemma mapM_bind (f : A → option B) (g : B → option C) l : mapM f l ≫= mapM g = mapM (λ x, f x ≫= g) l.
Proof.
  induction l as [|x l IH]; [done|]. cbn [mapM]. destruct (f x) as [y|]; [cbn|done].
  rewrite <- IH. destruct (mapM f l) as [k|]; cbn; [done|]. by destruct (g y).
Qed.
End mapM.

Lemma assoc_mapM {A B} (f : jsstring * A → option (jsstring * B)) l k s :
  (∀ st y, f st = Some y → y.1 = st.1) → mapM f l = Some k →
  match assoc l s with None => assoc k s = None | Some v => ∃ w, assoc k s = Some w ∧ f (s, v) = Some (s, w) end.
Proof.
  intros Hf. rewrite mapM_Some. induction 1 as [|[s1 v] [s2 w] l k Hx _ IH]; [done|].
  pose proof (Hf _ _ Hx) as E. cbn in E. subst s2. cbn [assoc]. destruct (eqs s1 s) eqn:E; [|done].
  apply eqs_true in E as ->. by exists w.
Qed.

Lemma and_cong_l (P Q R : Prop) : (P → (Q ↔ R)) → (P ∧ Q ↔ P ∧ R).
Proof. naive_solver. Qed.

(** Sorted lists without repetition. *)
Lemma elem_of_compact x l : x ∈ compact l ↔ x ∈ l.
Proof.
  induction l as [|y l IH]; [done|]. destruct l as [|z l]; [done|]. cbn [compact].
  destruct (eqs y z) eqn:E; [apply eqs_true in E as ->|]; rewrite ?elem_of_cons, IH; set_solver.
Qed.

Lemma length_compact l : length (compact l) ≤ length l.
Proof. induction l as [|y [|z l] IH]; [done|done|].
  change (compact (y :: z :: l)) with (if eqs y z then compact (z :: l) else y :: compact (z :: l)).
  split_if; cbn [length] in IH |- *; lia. Qed.

Lemma elem_of_sort_compact x l : x ∈ sort_compact l ↔ x ∈ l.
Proof. unfold sort_compact. by rewrite elem_of_compact, elem_of_sort_by. Qed.

Lemma length_sort_compact l : length (sort_compact l) ≤ length l.
Proof. unfold sort_compact. rewrite length_compact. by rewrite sort_by_perm. Qed.

Lemma sort_compact_nonempty l : l ≠ [] → sort_compact l ≠ [].
Proof. destruct l as [|x l]; [done|]. intros _ E. assert (H : x ∈ sort_compact (x :: l)) by (apply elem_of_sort_compact; set_solver). rewrite E in H. set_solver. Qed.

(** Names. *)
Lemma truncateUTF8_id s n : byte_length s ≤ n → truncateUTF8 s n = s.
Proof.
  revert n. induction s as [|c s IH]; intros n; [done|]. cbn [truncateUTF8].
  change (byte_length (c :: s)) with ((if (code c <? 128)%N then 1 else 2) + byte_length s). intros H.
  rewrite (proj2 (Nat.ltb_ge _ _)) by lia. f_equal. apply IH. lia.
Qed.

Lemma control_byte_go c : control_byte c = true → go_control c = true.
Proof. by_all_chars c. Qed.

Lemma stored_name name : validAPITokenName (TrimSpace name) = true → TrimSpace (SanitizeInputString (TrimSpace name) MaxAPITokenNameLength) = TrimSpace name.
Proof.
  unfold validAPITokenName, SanitizeInputString. rewrite andb_true_iff, !negb_true_iff, !orb_false_iff, Nat.ltb_ge. intros (((_ & Hlen) & _) & Hc).
  rewrite filter_all, truncateUTF8_id by
    (done || apply Forall_forall; intros c Hc'; apply negb_true_iff, not_true_iff_false; intros Hb%control_byte_go;
     apply (not_true_iff_false _) in Hc; apply Hc, existsb_elem; by exists c).
  apply trim_by_idemp.
Qed.

(** Scopes. *)
Lemma shown_scopes_allowed m : ∀ s, s ∈ shown_scopes (allowedAPITokenScopes m) ↔ s ∈ allowedAPITokenScopes m.
Proof.
  assert (Forall (λ s, s ∈ allowedAPITokenScopes m) (shown_scopes (allowedAPITokenScopes m)) ∧
          Forall (λ s, s ∈ shown_scopes (allowedAPITokenScopes m)) (allowedAPITokenScopes m)) as [H1 H2].
  { apply (bool_decide_unpack _). by destruct m; vm_compute. }
  rewrite Forall_forall in H1, H2. split; auto.
Qed.

Lemma length_shown_scopes m : length (shown_scopes (allowedAPITokenScopes m)) ≤ MaxAPITokenScopes.
Proof. apply Nat.leb_le. by destruct m; vm_compute. Qed.

Lemma allowed_scope m s : s ∈ allowedAPITokenScopes m → toLowerCase (TrimSpace s) = s ∧ s ≠ [] ∧ byte_length s ≤ 64.
Proof.
  intros Hs. assert (H : Forall (λ s, toLowerCase (TrimSpace s) = s ∧ s ≠ [] ∧ byte_length s ≤ 64) (allowedAPITokenScopes m)).
  { apply (bool_decide_unpack _). by destruct m; vm_compute. }
  rewrite Forall_forall in H. by apply H.
Qed.

Lemma target_kind_truthy m s kind : assoc (allowedAPITokenTargetKinds m) s = Some kind → truthy kind = true.
Proof.
  intros H%assoc_elem. assert (Hk : Forall (λ st, truthy st.2 = true) (allowedAPITokenTargetKinds m)).
  { apply (bool_decide_unpack _). by destruct m; vm_compute. }
  rewrite Forall_forall in Hk. by apply Hk in H.
Qed.

Lemma normalizeAPITokenScopes_Some m l :
  l ≠ [] → length l ≤ MaxAPITokenScopes → Forall (λ s, s ∈ allowedAPITokenScopes m) l → normalizeAPITokenScopes m l = Some (sort_compact l).
Proof.
  intros Hl Hlen HF. unfold normalizeAPITokenScopes.
  rewrite (proj2 (Nat.eqb_neq _ _)), (proj2 (Nat.ltb_ge _ _)) by (done || by destruct l).
  erewrite (proj2 (mapM_Some _ _ l)); cbn [orb mbind option_bind].
  - pose proof (sort_compact_nonempty l Hl). by destruct (sort_compact l).
  - clear -HF. induction HF as [|s l Hs _ IH]; constructor; [|done]. destruct (allowed_scope _ _ Hs) as (-> & _ & _).
    by rewrite bool_decide_true by done.
Qed.

(** Targets. *)
Definition both_targets (m : bool) (sel sel' : list jsstring) (st : jsstring * list jsstring) : option (jsstring * list jsstring) :=
  normalize_scope_targets m sel st ≫= stored_scope_targets sel'.

Section scope_targets.
Context (m : bool) (sel sel' : list jsstring) (s : jsstring) (kind : jsstring) (vs : list jsstring).
Context (Hs : s ∈ sel) (Hs' : s ∈ sel') (Hk : assoc (allowedAPITokenTargetKinds m) s = Some kind) (Hvs : vs ≠ []).

Lemma normalize_scope_targets_Some : normalize_scope_targets m sel (s, vs) = (λ ts, (s, sort_compact ts)) <$> mapM (normalizeAPITokenTarget kind) vs.
Proof using Type*.
  unfold normalize_scope_targets; cbn [fst snd]. rewrite bool_decide_true by done. rewrite (proj2 (Nat.eqb_neq _ _)) by by destruct vs.
  cbn [negb orb]. rewrite Hk. cbn [mbind option_bind]. by destruct (mapM _ vs).
Qed.

Lemma stored_scope_targets_Some ts : ts ≠ [] → stored_scope_targets sel' (s, ts) = (λ us, (s, sort_compact us)) <$> mapM stored_target ts.
Proof using Type*.
  intros Hts. unfold stored_scope_targets; cbn [fst snd]. rewrite bool_decide_true by done. rewrite (proj2 (Nat.eqb_neq _ _)) by by destruct ts.
  cbn [negb orb]. by destruct (mapM _ ts).
Qed.

Lemma both_targets_Some st' : both_targets m sel sel' (s, vs) = Some st' →
  st'.1 = s ∧ st'.2 ≠ [] ∧ length st'.2 ≤ length vs ∧ ∀ x, x ∈ st'.2 ↔ ∃ v, v ∈ vs ∧ canonical kind v = Some x.
Proof using Type*.
  unfold both_targets. rewrite normalize_scope_targets_Some. destruct (mapM _ vs) as [ts|] eqn:Et; [|done]. cbn [fmap option_fmap option_map mbind option_bind].
  assert (Hlt : length ts = length vs) by (symmetry; by eapply length_mapM).
  assert (Hts : ts ≠ []) by (intros ->; by destruct vs).
  rewrite stored_scope_targets_Some by by apply sort_compact_nonempty. intros (us & Eu & ->)%fmap_Some. cbn [fst snd].
  pose proof (length_mapM _ _ _ Eu) as Hlu. pose proof (length_sort_compact us). pose proof (length_sort_compact ts).
  split_and!; [done| |lia|].
  - apply sort_compact_nonempty. intros ->. apply (sort_compact_nonempty ts Hts). by destruct (sort_compact ts).
  - intros x. rewrite elem_of_sort_compact, (mapM_elem _ _ _ _ Eu). unfold canonical. split.
    + intros (t & (v & Hv & Ht)%(proj1 (elem_of_sort_compact _ _))%(proj1 (mapM_elem _ _ _ _ Et)) & Hx). exists v. by rewrite Ht.
    + intros (v & Hv & (t & Ht & Hx)%bind_Some). exists t. rewrite elem_of_sort_compact. split; [|done]. apply (mapM_elem _ _ _ _ Et). by exists v.
Qed.

Lemma both_targets_is_Some : is_Some (both_targets m sel sel' (s, vs)) ↔ ∀ v, v ∈ vs → is_Some (canonical kind v).
Proof using Type*.
  unfold both_targets. rewrite normalize_scope_targets_Some. split.
  - intros [st' H] v Hv. destruct (mapM _ vs) as [ts|] eqn:Et; [|done]. cbn [fmap option_fmap option_map mbind option_bind] in H.
    assert (Hts : ts ≠ []) by (intros ->; apply length_mapM in Et; by destruct vs).
    rewrite stored_scope_targets_Some in H by by apply sort_compact_nonempty. apply fmap_Some in H as (us & Eu & _).
    destruct (proj1 (Forall_forall _ _) (mapM_is_Some_1 _ _ (mk_is_Some _ _ Et)) v Hv) as [t Ht]. unfold canonical. rewrite Ht. cbn.
    apply (proj1 (Forall_forall _ _) (mapM_is_Some_1 _ _ (mk_is_Some _ _ Eu)) t). apply elem_of_sort_compact, (mapM_elem _ _ _ _ Et). by exists v.
  - intros Hall. destruct (mapM_is_Some_2 (normalizeAPITokenTarget kind) vs) as [ts Et].
    { apply Forall_forall. intros v Hv. destruct (Hall v Hv) as [x (t & Ht & _)%bind_Some]. by exists t. }
    rewrite Et. cbn [fmap option_fmap option_map mbind option_bind].
    assert (Hts : ts ≠ []) by (intros ->; apply length_mapM in Et; by destruct vs).
    rewrite stored_scope_targets_Some by by apply sort_compact_nonempty. apply fmap_is_Some, mapM_is_Some_2, Forall_forall.
    intros t (v & Hv & Ht)%elem_of_sort_compact%(proj1 (mapM_elem _ _ _ _ Et)). specialize (Hall v Hv). unfold canonical in Hall. by rewrite Ht in Hall.
Qed.
End scope_targets.

(** Numbers of targets. *)
Definition shrinks (f : jsstring * list jsstring → option (jsstring * list jsstring)) : Prop :=
  ∀ st y, f st = Some y → y.1 = st.1 ∧ y.2 ≠ [] ∧ length y.2 ≤ length st.2.

Lemma mapM_shrinks (g : jsstring → option jsstring) (l k : list jsstring) :
  length l ≠ 0 → mapM g l = Some k → sort_compact k ≠ [] ∧ length (sort_compact k) ≤ length l.
Proof.
  intros Hl Hk%length_mapM. pose proof (length_sort_compact k). split; [|lia].
  apply sort_compact_nonempty. intros ->. by rewrite Hk in Hl.
Qed.

Lemma normalize_shrinks m sel : shrinks (normalize_scope_targets m sel).
Proof.
  intros [s vs] y. unfold normalize_scope_targets. cbn [fst snd]. destruct (negb _ || _) eqn:E; [done|].
  apply orb_false_iff in E as [_ E%Nat.eqb_neq]. intros (kind & _ & (ts & Et & [= <-])%bind_Some)%bind_Some.
  split; [done|]. by eapply mapM_shrinks.
Qed.

Lemma stored_shrinks sel : shrinks (stored_scope_targets sel).
Proof.
  intros [s vs] y. unfold stored_scope_targets. cbn [fst snd]. destruct (negb _ || _) eqn:E; [done|].
  apply orb_false_iff in E as [_ E%Nat.eqb_neq]. intros (ts & Et & [= <-])%bind_Some. split; [done|]. by eapply mapM_shrinks.
Qed.

Lemma both_shrinks m sel sel' : shrinks (both_targets m sel sel').
Proof.
  intros st y (z & Hz & Hy)%bind_Some. apply normalize_shrinks in Hz as (<- & _ & ?). apply stored_shrinks in Hy as (-> & ? & ?). split_and!; [done..|lia].
Qed.

Lemma total_mapM f l k : shrinks f → mapM f l = Some k → total_targets k ≤ total_targets l ∧ (l ≠ [] → 0 < total_targets k).
Proof.
  intros Hf. rewrite mapM_Some. induction 1 as [|st y l k Hy _ [IH _]]; [done|]. apply Hf in Hy as (_ & Hy & Hlen).
  assert (length y.2 ≠ 0) by by destruct y.2. change (total_targets (?x :: ?r)) with (length x.2 + total_targets r).
  change (total_targets (st :: l)) with (length st.2 + total_targets l). change (total_targets (y :: k)) with (length y.2 + total_targets k). lia.
Qed.

Lemma normalizeAPITokenTargets_eq m sel T :
  total_targets T ≤ MaxAPITokenTargets → normalizeAPITokenTargets m sel T = mapM (normalize_scope_targets m sel) T.
Proof.
  intros HT. unfold normalizeAPITokenTargets. destruct (Nat.eqb_spec (length T) 0) as [E|E]; [by destruct T|].
  destruct (mapM _ T) as [a|] eqn:Ea; [|done]. destruct (total_mapM _ _ _ (normalize_shrinks m sel) Ea) as [Hle Hpos]. cbn [mbind option_bind].
  assert (0 < total_targets a) by (apply Hpos; by intros ->).
  by rewrite (proj2 (Nat.eqb_neq _ _)), (proj2 (Nat.ltb_ge _ _)) by lia.
Qed.

(** ** What the form sends *)

Lemma assoc_omap {A} (g : jsstring → option A) l s :
  assoc (omap (λ s, pair s <$> g s) l) s = if bool_decide (s ∈ l) then g s else None.
Proof.
  induction l as [|x l IH]; [done|]. cbn [omap list_omap]. destruct (decide (x = s)) as [->|Hne].
  - rewrite bool_decide_true by set_solver. destruct (g s) as [a|] eqn:E; cbn; [by rewrite eqs_refl|].
    fold (omap (M := list) (λ s, pair s <$> g s) l). rewrite IH. by destruct (bool_decide _).
  - assert (bool_decide (s ∈ x :: l) = bool_decide (s ∈ l)) as -> by (apply bool_decide_ext; set_solver).
    rewrite <- IH. destruct (g x) as [a|]; cbn; [|done]. by destruct (eqs x s) eqn:E; [apply eqs_true in E|].
Qed.

Section form.
Context (permissions : list jsstring) (form : token_form).

Let m := isManagerPermissions permissions.
Let catalog := listProfileAPITokenScopes permissions.

Definition form_scopes : list jsstring := List.filter (checked form) (shown_scopes (scopes (listProfileAPITokenScopes permissions))).

Lemma elem_of_form_scopes s : s ∈ form_scopes ↔ chosen catalog form s.
Proof.
  unfold form_scopes, chosen. rewrite list_elem_of_In, filter_In, <- list_elem_of_In.
  change (scopes (listProfileAPITokenScopes permissions)) with (allowedAPITokenScopes m). change (scopes catalog) with (allowedAPITokenScopes m).
  by rewrite shown_scopes_allowed.
Qed.

Lemma form_targets_restriction : form_targets catalog form form_scopes = omap (λ s, pair s <$> (snd <$> restriction catalog form s)) form_scopes.
Proof.
  unfold form_targets. generalize form_scopes. intros l. apply list_omap_ext, Forall2_same_length_lookup_2; [done|].
  intros i x ? H1 H2. simplify_eq. unfold has_editor, restriction. destruct (assoc (targetKinds catalog) x) as [kind|] eqn:E; [|done].
  rewrite (target_kind_truthy m x kind E). by destruct (typed_targets _).
Qed.

Lemma assoc_form_targets s : chosen catalog form s → assoc (form_targets catalog form form_scopes) s = snd <$> restriction catalog form s.
Proof. intros Hs. rewrite form_targets_restriction, assoc_omap, bool_decide_true; [done|]. by apply elem_of_form_scopes. Qed.

Lemma form_targets_elem s vs : (s, vs) ∈ form_targets catalog form form_scopes ↔ chosen catalog form s ∧ ∃ kind, restriction catalog form s = Some (kind, vs).
Proof.
  rewrite form_targets_restriction, list_elem_of_omap. setoid_rewrite elem_of_form_scopes. split.
  - intros (x & Hx & H). destruct (restriction catalog form x) as [[kind ws]|] eqn:E; [|done]. cbn in H. simplify_eq. eauto.
  - intros [Hs [kind Hr]]. exists s. by rewrite Hr.
Qed.

Lemma restriction_kind s kind vs : restriction catalog form s = Some (kind, vs) → assoc (allowedAPITokenTargetKinds m) s = Some kind ∧ vs ≠ [].
Proof.
  unfold restriction. change (targetKinds catalog) with (allowedAPITokenTargetKinds m). destruct (assoc _ s) as [k|]; [|done].
  destruct (typed_targets _); [done|]. intros [= -> <-]. done.
Qed.

Lemma submit_inv now req : submit catalog form now = inr req →
  form_scopes ≠ [] ∧ total_targets (form_targets catalog form form_scopes) ≤ MaxAPITokenTargets ∧
  req = {| req_name := trim (token_name form); req_scopes := form_scopes; req_targets := form_targets catalog form form_scopes;
           req_expires := if (0 <? expiration_days (expiration form))%Z then Some (now + expiration_days (expiration form) * 86400000)%Z else None |}.
Proof.
  unfold submit. cbv zeta. change (List.filter (checked form) (shown_scopes (scopes catalog))) with form_scopes. destruct (negb _); [done|]. destruct (Nat.eqb_spec (length form_scopes) 0) as [|Hn]; [done|].
  destruct (Nat.ltb_spec (targetLimit catalog) (list_sum ((λ st, length st.2) <$> form_targets catalog form form_scopes))) as [|Hl]; [done|].
  intros [= <-]. split_and!; [by intros E; rewrite E in Hn|exact Hl|done].
Qed.
End form.

(** ** The token that is created *)

Lemma stored_Some token name sel targets :
  Name token = TrimSpace name → validAPITokenName (TrimSpace name) = true → Scopes token = sort_compact sel →
  sel ≠ [] → length sel ≤ MaxAPITokenScopes → (∀ s, s ∈ sel → s ≠ [] ∧ byte_length s ≤ 64) →
  (0 < CreatedAt token)%Z → (∀ e, ExpiresAt token = Some e → (CreatedAt token < e)%Z) →
  (∀ t, mapM (stored_scope_targets (sort_compact (sort_compact sel))) (Targets token) = Some t → total_targets t ≤ MaxAPITokenTargets) →
  mapM (stored_scope_targets (sort_compact (sort_compact sel))) (Targets token) = targets →
  normalizeStoredAPIToken token =
    (λ t, {| Name := TrimSpace name; Scopes := sort_compact (sort_compact sel); Targets := t; CreatedAt := CreatedAt token; ExpiresAt := ExpiresAt token |}) <$> targets.
Proof.
  intros En Hv Es Hsel Hlen Hsc Hc He Ht <-. unfold normalizeStoredAPIToken. cbv zeta. rewrite En, Es, stored_name by done.
  pose proof (sort_compact_nonempty sel Hsel) as Hsel'. pose proof (length_sort_compact sel). pose proof Hv as Hv'.
  unfold validAPITokenName in Hv. rewrite andb_true_iff, negb_true_iff, !orb_false_iff, negb_false_iff in Hv. destruct Hv as (((Hv1 & _) & Hv2) & _).
  rewrite (proj2 (Z.leb_gt _ _)), Hv1, Hv2, (proj2 (Nat.eqb_neq _ _)), (proj2 (Nat.ltb_ge _ _)) by (lia || by destruct (sort_compact sel)).
  cbn [negb orb]. destruct (existsb _ _) eqn:Ex.
  { apply existsb_elem in Ex as (s & Hs & Hb). rewrite !elem_of_sort_compact in Hs. apply Hsc in Hs as [Hs1%truthy_true Hs2].
    rewrite Hs1, (proj2 (Nat.ltb_ge _ _)) in Hb by done. done. }
  destruct (mapM _ _) as [t|] eqn:Et; [|done]. cbn [mbind option_bind fmap option_fmap option_map].
  rewrite (proj2 (Nat.ltb_ge _ _)) by by apply Ht. destruct (ExpiresAt token) as [e|] eqn:Ee; [|done].
  by rewrite (proj2 (Z.leb_gt _ _)) by by apply He.
Qed.

Section created.
Context (permissions : list jsstring) (form : token_form) (same_name : jsstring → jsstring → bool) (existing : list jsstring).
Context (now server_now : Z) (req : token_request).
Let m := isManagerPermissions permissions.
Let catalog := listProfileAPITokenScopes permissions.
Let sel := sort_compact (form_scopes permissions form).
Let name := TrimSpace (trim (token_name form)).
Context (Hsub : submit catalog form now = inr req) (Hnow : (0 < server_now)%Z) (Hskew : (Z.abs (now - server_now) ≤ 86400000)%Z).

Lemma expiry_accepted : normalizeAPITokenExpiry (req_expires req) server_now = Some (req_expires req) ∧ ∀ e, req_expires req = Some e → (server_now < e)%Z.
Proof using Type*.
  apply submit_inv in Hsub as (_ & _ & ->). cbn [req_expires]. unfold expiration_days, normalizeAPITokenExpiry.
  repeat match goal with |- context [if eqs ?a ?b then _ else _] => destruct (eqs a b) end; cbn [Z.ltb Z.compare Pos.compare Pos.compare_cont];
    (split; [|intros e [= <-]; lia]); [..|done];
    by rewrite (proj2 (Z.eqb_neq _ _)), (proj2 (Z.ltb_ge _ _)), (proj2 (Z.ltb_ge _ _)) by lia.
Qed.

Lemma created_inv tok : createAPITokenForAccount same_name permissions existing req server_now = inr tok ↔
  validAPITokenName name = true ∧ length existing < MaxAPITokensPerUser ∧ existsb (λ n, same_name n name) existing = false ∧
  ∃ targets, mapM (both_targets m sel (sort_compact sel)) (form_targets catalog form (form_scopes permissions form)) = Some targets ∧
    tok = {| Name := name; Scopes := sort_compact sel; Targets := targets; CreatedAt := server_now; ExpiresAt := req_expires req |}.
Proof using Type*.
  destruct expiry_accepted as [Hexp Hexp']. pose proof (submit_inv _ _ _ _ Hsub) as (Hne & Htot & Hreq).
  set (T := form_targets catalog form (form_scopes permissions form)) in *.
  assert (En : TrimSpace (req_name req) = name) by by rewrite Hreq. assert (Es : req_scopes req = form_scopes permissions form) by by rewrite Hreq.
  assert (Et : req_targets req = T) by by rewrite Hreq.
  assert (Hall : ∀ s, s ∈ form_scopes permissions form → s ∈ allowedAPITokenScopes m) by (intros s [Hs _]%elem_of_form_scopes; exact Hs).
  assert (Hlen : length (form_scopes permissions form) ≤ MaxAPITokenScopes).
  { unfold form_scopes. etransitivity; [apply filter_length_le|apply length_shown_scopes]. }
  unfold createAPITokenForAccount. cbv zeta. fold m. rewrite En, Es, Et, Hexp. destruct (validAPITokenName name) eqn:Ev; cbn [negb]; [|by split; [|intros [? _]]].
  rewrite normalizeAPITokenScopes_Some by (done || by apply Forall_forall). fold sel. rewrite normalizeAPITokenTargets_eq by done.
  unfold both_targets. rewrite <- (mapM_bind (normalize_scope_targets m sel) (stored_scope_targets (sort_compact sel))).
  destruct (mapM (normalize_scope_targets m sel) T) as [a|] eqn:Ea; cbn [mbind option_bind];
    [|by split; [|intros (_ & _ & _ & ? & ? & _)]]. cbn [mbind option_bind].
  destruct (total_mapM _ _ _ (normalize_shrinks m sel) Ea) as [Ha _]. unfold CreateAPIToken.
  rewrite (stored_Some {| Name := name; Scopes := sel; Targets := a; CreatedAt := server_now; ExpiresAt := req_expires req |} (trim (token_name form))
    (form_scopes permissions form) (mapM (stored_scope_targets (sort_compact sel)) a)
    eq_refl Ev eq_refl Hne Hlen); cbn [Scopes Targets CreatedAt ExpiresAt]; [|..|exact Hnow|exact Hexp'| |reflexivity].
  - destruct (mapM (stored_scope_targets (sort_compact sel)) a) as [t|] eqn:Est; cbn [fmap option_fmap option_map];
      [|by split; [|intros (_ & _ & _ & ? & ? & _)]].
    cbn [Name]. fold name. destruct (Nat.leb_spec MaxAPITokensPerUser (length existing)); [split; [done|lia]|].
    destruct (existsb _ _); [by split; [|intros (_ & _ & ? & _)]|]. split.
    + intros [= <-]. split_and!; [done..|]. by exists t.
    + by intros (_ & _ & _ & ? & [= <-] & ->).
  - intros s Hs%Hall%allowed_scope. naive_solver.
  - intros t Hst. destruct (total_mapM _ _ _ (stored_shrinks _) Hst) as [Hle _].
    etransitivity; [exact Hle|]. by etransitivity; [exact Ha|].
Qed.

(** The card shows every restriction, and the token is not expired. *)
Lemma created_card tok : createAPITokenForAccount same_name permissions existing req server_now = inr tok →
  target_rows (Targets tok) = Targets tok ∧ expired server_now (ExpiresAt tok) = false.
Proof using Type*.
  intros (_ & _ & _ & targets & Ht & ->)%created_inv. cbn [Targets ExpiresAt]. split.
  - apply filter_all, Forall_forall. intros st (x & _ & (_ & Hne & _)%both_shrinks)%(proj1 (mapM_elem _ _ _ _ Ht)). by destruct st.2.
  - destruct expiry_accepted as [_ He]. unfold expired. destruct (req_expires req) as [e|]; [|done]. specialize (He e eq_refl).
    apply andb_false_iff. right. apply Z.leb_gt. lia.
Qed.
End created.

(** ** What the form says is what the token may do *)

(** C21: when the form sends a request, the server creates a token exactly if the name is valid and new, the account has room for
    one more, and every typed target of a checked scope stands for something; a token that is created allows a scope on a target
    exactly if the server offers the scope, it is checked, and nothing is typed for it or the target is what one of the typed
    texts stands for; it expires after the chosen number of days. *)
Theorem token_policy permissions form same_name existing now server_now req :
  let catalog := listProfileAPITokenScopes permissions in
  let name := TrimSpace (trim (token_name form)) in
  let create := createAPITokenForAccount same_name permissions existing req server_now in
  submit catalog form now = inr req → (0 < server_now)%Z → (Z.abs (now - server_now) ≤ 86400000)%Z →
  ((∃ token, create = inr token) ↔
     validAPITokenName name = true ∧ length existing < 50 ∧ (∀ n, n ∈ existing → same_name n name = false) ∧ well_typed catalog form) ∧
  ∀ token, create = inr token →
    (∀ scope target, allows token scope target = true ↔ policy catalog form scope target) ∧
    ExpiresAt token = (if (0 <? expiration_days (expiration form))%Z then Some (now + expiration_days (expiration form) * 86400000)%Z else None).
Proof.
  intros catalog name create Hsub Hnow Hskew. unfold create. clear create.
  pose proof (created_inv permissions form same_name existing now server_now req Hsub Hnow Hskew) as Hc.
  set (sel := sort_compact (form_scopes permissions form)) in *. set (m := isManagerPermissions permissions) in *.
  assert (Hsel : ∀ s, s ∈ sel ↔ chosen catalog form s) by (intros s; unfold sel; by rewrite elem_of_sort_compact, elem_of_form_scopes).
  assert (Hsel' : ∀ s, s ∈ sort_compact sel ↔ chosen catalog form s) by (intros s; by rewrite elem_of_sort_compact).
  split.
  - setoid_rewrite Hc. transitivity (validAPITokenName name = true ∧ length existing < MaxAPITokensPerUser ∧ existsb (λ n, same_name n name) existing = false ∧
      is_Some (mapM (both_targets m sel (sort_compact sel)) (form_targets catalog form (form_scopes permissions form)))).
    { unfold is_Some. naive_solver. }
    rewrite existsb_none, mapM_is_Some, Forall_forall. do 3 (apply and_iff_compat_l). split.
    + intros H s kind vs v Hs Hr Hv. destruct (restriction_kind _ _ _ _ _ Hr) as [Hk Hne].
      apply (both_targets_is_Some m sel (sort_compact sel) s kind vs) with (v := v); try done; [by apply Hsel|by apply Hsel'|].
      apply H, form_targets_elem. eauto.
    + intros H [s vs] (Hs & kind & Hr)%form_targets_elem. destruct (restriction_kind _ _ _ _ _ Hr) as [Hk Hne].
      apply (both_targets_is_Some m sel (sort_compact sel) s kind vs); try done; [by apply Hsel|by apply Hsel'|]. intros v Hv. by eapply H.
  - intros token (_ & _ & _ & targets & Ht & ->)%Hc. split; [|by apply submit_inv in Hsub as (_ & _ & ->)].
    intros s x. unfold allows, policy. cbn [Scopes Targets]. rewrite andb_true_iff, bool_decide_eq_true, Hsel'. apply and_cong_l. intros Hs.
    pose proof (assoc_mapM _ _ _ s (λ st y Hy, proj1 (both_shrinks _ _ _ st y Hy)) Ht) as Ha. rewrite assoc_form_targets in Ha by done.
    fold catalog in Ha.
    destruct (restriction catalog form s) as [[kind vs]|] eqn:Hr; cbn [fmap option_fmap option_map snd] in Ha; [|by rewrite Ha].
    destruct Ha as (ws & -> & Hw). destruct (restriction_kind _ _ _ _ _ Hr) as [Hk Hne].
    destruct (both_targets_Some m sel (sort_compact sel) s kind vs (proj2 (Hsel s) Hs) (proj2 (Hsel' s) Hs) Hk Hne _ Hw) as (_ & _ & _ & Hx).
    cbn [snd] in Hx. rewrite andb_true_iff, bool_decide_eq_true, Hx. split; [by intros [_ H]|]. intros H. split; [|done].
    destruct H as (v & _ & (t & _ & E)%bind_Some). unfold stored_target in E. by destruct (truthy (TrimSpace t)) eqn:Et; simplify_eq/=; repeat case_match; simplify_eq.
Qed.

(** ** The list of tokens

    An answer holds the tokens there were when its request was sent. The manager's requests have no sequence number; those of the
    line on the profile page have one. *)

(** [number]: the manager that sent the request, counting those that were opened. *)
Inductive token_load := Summary_load (sequence : nat) | Manager_load (number : nat) (first : bool).

Record manager_state := {
  tokens : list jsstring; limit : nat; loaded : bool; loadFailed : bool;
  scopesLoaded : bool; offered : list jsstring; create_disabled : bool;
  shown : option (list jsstring)                          (* the cards; [None]: the text that loading failed *)
}.

Record state := {
  existing : list jsstring;                               (* the tokens on the server *)
  apiTokenLoadSequence : nat;
  cachedTokenCount : option nat;
  summary : option nat;                                   (* the number on the page; [None]: no number is shown *)
  opened : nat;                                           (* managers opened so far *)
  manager : option manager_state;                         (* the open one, which is the last *)
  pending : list (token_load * list jsstring)
}.

Inductive event :=
  | Refreshed                                             (* [refreshAPITokenSummary] *)
  | Manager_opened                                        (* [openAPITokenManager] *)
  | Acted (number : nat) (tokens : list jsstring)         (* a token was created, disabled, enabled or revoked in a manager *)
  | Loaded (i : nat)
  | Load_failed (i : nat)
  | Scopes_loaded (number : nat) (scopes : list jsstring)
  | Scopes_failed (number : nat)
  | Manager_closed.

Definition updateCreateAvailability (m : manager_state) : manager_state :=
  { m with create_disabled := loadFailed m || negb (loaded m) || negb (scopesLoaded m) || (limit m <=? length (tokens m)) || (length (offered m) =? 0) }.

Definition opened_manager : manager_state :=
  {| tokens := []; limit := 50; loaded := false; loadFailed := false; scopesLoaded := false; offered := []; create_disabled := true; shown := Some [] |}.

Definition request (k : token_load) (s : state) : state := { s with pending := pending s ++ [(k, existing s)] }.

(** A closed manager is changed by its requests too, but nobody sees it. *)
Definition at_manager (number : nat) (f : manager_state → manager_state) (s : state) : state :=
  if number =? opened s then { s with manager := f <$> manager s } else s.

(** A request that succeeded. *)
Definition token_load_answered (k : token_load) (l : list jsstring) (s : state) : state :=
  match k with
  | Summary_load n => if n =? apiTokenLoadSequence s then { s with cachedTokenCount := Some (length l); summary := Some (length l) } else s
  | Manager_load number _ =>
      let s := { s with cachedTokenCount := Some (length l); summary := Some (length l) } in
      at_manager number (λ m, let m := updateCreateAvailability { m with tokens := l; limit := MaxAPITokensPerUser; loaded := true; loadFailed := false } in
                              { m with shown := Some l }) s
  end.

(** A request that failed; a reload after an action keeps what is shown. *)
Definition token_load_failed (k : token_load) (s : state) : state :=
  match k with
  | Summary_load n => if n =? apiTokenLoadSequence s then { s with summary := None } else s
  | Manager_load number true => at_manager number (λ m, updateCreateAvailability { m with loadFailed := true; shown := None }) s
  | Manager_load _ false => s
  end.

Definition step (e : event) (s : state) : state :=
  match e with
  | Refreshed => let s := { s with apiTokenLoadSequence := S (apiTokenLoadSequence s) } in request (Summary_load (apiTokenLoadSequence s)) s
  | Manager_opened => match manager s with Some _ => s | None => request (Manager_load (S (opened s)) true) { s with opened := S (opened s); manager := Some opened_manager } end
  | Acted number l => request (Manager_load number false) { s with existing := l }
  | Loaded i => match pending s !! i with Some (k, l) => token_load_answered k l { s with pending := delete i (pending s) } | None => s end
  | Load_failed i => match pending s !! i with Some (k, _) => token_load_failed k { s with pending := delete i (pending s) } | None => s end
  | Scopes_loaded number l => at_manager number (λ m, updateCreateAvailability { m with scopesLoaded := true; offered := l }) s
  | Scopes_failed number => at_manager number (λ m, updateCreateAvailability { m with scopesLoaded := false }) s
  | Manager_closed => { s with manager := None }
  end.

Definition start (l : list jsstring) : state :=
  {| existing := l; apiTokenLoadSequence := 0; cachedTokenCount := None; summary := None; opened := 0; manager := None; pending := [] |}.

(** A token can be created exactly while the list and the scopes are loaded, the list has room, and the server offers a scope. *)
Definition available (m : manager_state) : Prop :=
  create_disabled m = false ↔ loadFailed m = false ∧ loaded m = true ∧ scopesLoaded m = true ∧ length (tokens m) < limit m ∧ offered m ≠ [].

Lemma update_available m : available (updateCreateAvailability m).
Proof.
  unfold available, updateCreateAvailability; cbn. rewrite !orb_false_iff, !negb_false_iff, Nat.leb_gt, Nat.eqb_neq.
  assert (length (offered m) ≠ 0 ↔ offered m ≠ []) as -> by by destruct (offered m). tauto.
Qed.

Lemma at_manager_available number f s m :
  (∀ m, available (f m)) → (∀ m, manager s = Some m → available m) → manager (at_manager number f s) = Some m → available m.
Proof. intros Hf Hs. unfold at_manager. split_if; [|apply Hs]. cbn. intros (m' & _ & ->)%fmap_Some. apply Hf. Qed.

Theorem create_available l es m : manager (foldl (flip step) (start l) es) = Some m → available m.
Proof.
  revert m. induction es as [|e es IH] using rev_ind; [done|]. rewrite foldl_app. cbn [foldl flip]. set (s := foldl _ _ es) in *. intros m.
  assert (HA : ∀ k l' s', manager s' = manager s → manager (token_load_answered k l' s') = Some m → available m).
  { intros [n|n b] l' s' Es; cbn [token_load_answered]; [split_if; cbn; rewrite Es; apply IH|].
    apply at_manager_available; [|cbn; rewrite Es; exact IH].
    intros m'. exact (update_available { m' with tokens := l'; limit := MaxAPITokensPerUser; loaded := true; loadFailed := false }). }
  assert (HF : ∀ k s', manager s' = manager s → manager (token_load_failed k s') = Some m → available m).
  { intros [n|n []] s' Es; cbn [token_load_failed]; [split_if; cbn; rewrite Es; apply IH| |rewrite Es; apply IH].
    apply at_manager_available; [intros m'; apply update_available|rewrite Es; exact IH]. }
  destruct e; cbn [step].
  - apply IH.
  - destruct (manager s) eqn:E; [rewrite E; apply IH; done|]. cbn. intros [= <-]. unfold available; cbn. naive_solver.
  - apply IH.
  - destruct (pending s !! i) as [[k l']|]; [by apply HA|apply IH].
  - destruct (pending s !! i) as [[k l']|]; [by apply HF|apply IH].
  - apply at_manager_available; [intros m'; apply update_available|exact IH].
  - apply at_manager_available; [intros m'; apply update_available|exact IH].
  - done.
Qed.

(** ** Runs *)

Module Runs.

Definition never_same (a b : jsstring) : bool := false.

Definition ci_form : token_form := {|
  token_name := js " ci "; expiration := js "30";
  checked := λ s, existsb (eqs s) (js <$> ["repository:read"; "repository:publish"; "domain:verify"]%stdpp);
  texts := λ s, if eqs s (js "repository:publish") then js "releases, snapshots,releases" else if eqs s (js "domain:verify") then js "COM.Example." else [] |}.

Definition ci_request : token_request := {|
  req_name := js "ci"; req_scopes := js <$> ["repository:read"; "repository:publish"; "domain:verify"]%stdpp;
  req_targets := [(js "repository:publish", js <$> ["releases"; "snapshots"]%stdpp); (js "domain:verify", [js "COM.Example."])]; req_expires := Some 2593000000 |}%Z.

(** The token may publish to two repositories, read every one, and verify one domain. *)
Lemma token_policy_witness :
  submit (listProfileAPITokenScopes []) ci_form 1000000 = inr ci_request ∧
  ∃ token, createAPITokenForAccount never_same [] [js "old"] ci_request 1000500 = inr token ∧
    policy (listProfileAPITokenScopes []) ci_form (js "domain:verify") (js "com.example") ∧
    ¬ policy (listProfileAPITokenScopes []) ci_form (js "repository:publish") (js "private").
Proof.
  assert (H : submit (listProfileAPITokenScopes []) ci_form 1000000 = inr ci_request) by (vm_compute; reflexivity). split; [exact H|].
  pose proof (token_policy [] ci_form never_same [js "old"] 1000000 1000500 ci_request H ltac:(lia) ltac:(lia)) as [_ Hp].
  destruct (createAPITokenForAccount never_same [] [js "old"] ci_request 1000500) as [e|token] eqn:E; [vm_compute in E; discriminate E|].
  exists token. split; [reflexivity|]. destruct (Hp token eq_refl) as [Ha _]. vm_compute in E. injection E as <-. split.
  - apply Ha. vm_compute. reflexivity.
  - intros C. apply Ha in C. vm_compute in C. discriminate C.
Defined.

(** The server trims the name of a repository to check it, and keeps it untrimmed: this target matches no package. *)
Example space_kept : canonical (js "package") (js "releases /org.example:lib") = Some (js "releases /org.example:lib").
Proof. by vm_compute. Qed.

(** A target of a team is checked without its prefix and stored with it. *)
Example too_long_to_store :
  let v := js "package/releases/" ++ repeat "a"%char 500 in is_Some (normalizeAPITokenTarget (js "team") v) ∧ canonical (js "team") v = None.
Proof. split; [eexists|]; by vm_compute. Qed.

(** 80 characters fit into the field; the server counts bytes. *)
Example name_of_80 : length (repeat (chr 233) 80) = 80 ∧ validAPITokenName (repeat (chr 233) 80) = false.
Proof. split; by vm_compute. Qed.

(** Two tokens are revoked one after the other, and the second list arrives first: the first list replaces it. *)
Definition three : list jsstring := js <$> ["a"; "b"; "c"]%stdpp.
Definition two_revoked : list event :=
  [Manager_opened; Loaded 0; Acted 1 (js <$> ["b"; "c"]%stdpp); Acted 1 [js "c"]; Loaded 1; Loaded 0].

Example older_list : manager (foldl (flip step) (start three) two_revoked) ≫= shown = Some (js <$> ["b"; "c"]%stdpp) ∧
  existing (foldl (flip step) (start three) two_revoked) = [js "c"].
Proof. by vm_compute. Qed.
End Runs.
