(* ===== verification/Repositories.v ===== *)
(** * Settings of the repositories

    [internal/service/frontend/renop-html/js/repositories.js], [repository-list.js] and the list of rules of [cfg-ui.js]: the filtered and
    paginated list, the controls of a repository, which save it at once, the creation and removal of a repository, and the policy of
    reviews, which has a request of its own. A page is modelled from its load on. Of the server ([internal/service/settings/maven.go],
    [review.go]) the model has what it keeps of the settings there are; its validation is a parameter. Layout, animation, statistics and
    the migration of an engine, which reload the page, are left out. *)

From S2P Require Import Prelude JsText JsValue Sorting BrowserUtils Formats.
From coqutil Require Import Datatypes.RecordSettersUsingExistingGetters.
Local Open Scope nat_scope.

#[local] Arguments const {E} _ _ /.
#[local] Arguments cons {A} & _ _.

(** ** Equality of JSON texts

    [JSON.stringify] gives the same text exactly for values with the same fields in the same order. *)

Fixpoint jsval_eqb (a b : jsval) {struct a} : bool :=
  match a, b with
  | JUndef, JUndef | JNull, JNull => true
  | JBool x, JBool y => Bool.eqb x y
  | JNum x, JNum y => bool_decide (x = y)
  | JStr x, JStr y => eqs x y
  | JArr l, JArr k =>
      (fix go (l k : list jsval) {struct l} : bool :=
         match l, k with [], [] => true | x :: l, y :: k => jsval_eqb x y && go l k | _, _ => false end) l k
  | JObj l, JObj k =>
      (fix go (l k : list (jsstring * jsval)) {struct l} : bool :=
         match l, k with [], [] => true | (i, x) :: l, (j, y) :: k => eqs i j && jsval_eqb x y && go l k | _, _ => false end) l k
  | _, _ => false
  end.

(** A repository: the fields of its object, in order. *)
Abbreviation repo := (list (jsstring * jsval)).

Definition same_json (a b : repo) : bool := jsval_eqb (JObj a) (JObj b).
#[local] Arguments same_json : simpl never.

(** ** The list *)

Section list.
Context `{Collator}.

(** Names of the repositories of the selected engines, or of all. *)
Definition protocol_of (r : repo) : jsstring :=
  match getRepositoryFormat (default JUndef (assoc r (js "format"))) with Descriptor f => protocol f | InheritedMember => [] end.

Definition sortedRepositoryNames (repositories : list (jsstring * repo)) (selected : list jsstring) : list jsstring :=
  sort_by localeCompare
    (List.filter (λ name, (length selected =? 0) || bool_decide (protocol_of (default [] (assoc repositories name)) ∈ selected)) repositories.*1).

Record name_page := { names : list jsstring; page : nat; pages : nat; total : nat; first : nat; last_ : nat }.

Definition paginateRepositoryNames (l : list jsstring) (requestedPage pageSize : nat) : name_page :=
  let pageSize := if pageSize =? 0 then 10 else pageSize in
  let pages := Nat.max 1 ((length l + (pageSize - 1)) / pageSize) in
  let page := Nat.min requestedPage (pages - 1) in
  let offset := page * pageSize in
  let pageNames := take pageSize (drop offset l) in
  {| names := pageNames; page := page; pages := pages; total := length l;
     first := if 0 <? length pageNames then offset + 1 else 0; last_ := offset + length pageNames |}.

Record list_view := { repositoryPage : nat; selectedRepositoryEngines : list jsstring }.

Definition repositoryPageSize := 10.

Inductive list_event := All_engines | Engine (protocol : jsstring) | Previous | Next | Added (name : jsstring).

(** [renderRepositories]: the page that is shown, which becomes the page that is asked for. *)
Definition shown_page (repositories : list (jsstring * repo)) (v : list_view) : name_page :=
  paginateRepositoryNames (sortedRepositoryNames repositories (selectedRepositoryEngines v)) (repositoryPage v) repositoryPageSize.

Definition renderRepositories (repositories : list (jsstring * repo)) (v : list_view) : list_view :=
  { v with repositoryPage := page (shown_page repositories v) }.

(** [keys.indexOf(name)]; an absent name gives the first page. *)
Definition page_of_name (name : jsstring) (keys : list jsstring) : nat :=
  match list_find (eq name) keys with Some (i, _) => i / repositoryPageSize | None => 0 end.

Definition list_step (repositories : list (jsstring * repo)) (e : list_event) (v : list_view) : list_view :=
  let p := shown_page repositories v in
  renderRepositories repositories
    match e with
    | All_engines => {| repositoryPage := 0; selectedRepositoryEngines := [] |}
    | Engine protocol =>
        {| repositoryPage := 0;
           selectedRepositoryEngines :=
             if bool_decide (protocol ∈ selectedRepositoryEngines v) then List.filter (λ q, negb (eqs q protocol)) (selectedRepositoryEngines v)
             else selectedRepositoryEngines v ++ [protocol] |}
    | Previous => { v with repositoryPage := page p - 1 }
    | Next => { v with repositoryPage := Nat.min (pages p - 1) (page p + 1) }
    | Added name => {| repositoryPage := page_of_name name (sortedRepositoryNames repositories []); selectedRepositoryEngines := [] |}
    end.
End list.

(** ** Controls

    A handler changes the repository, or is ignored ([None]) and saves nothing. *)

Definition set_prop (k : string) (v : jsval) (r : repo) : repo := set_key r (js k) v.

(** The storage of a repository; what the form shows becomes a field when the section is built. *)
Definition s3_default : repo :=
  [(js "enabled", JFalse); (js "endpoint", JStr []); (js "bucket", JStr []); (js "region", JStr "auto"); (js "access_key_id", JStr []);
   (js "secret_access_key", JStr []); (js "key_prefix", JStr []); (js "force_path_style", JTrue); (js "redirect_downloads", JFalse)].

Definition with_s3 (r : repo) : repo :=
  match assoc r (js "s3") with Some v => if truthy_val v then r else set_prop "s3" (JObj s3_default) r | None => set_prop "s3" (JObj s3_default) r end.

Definition fields_of (v : jsval) : repo := match v with JObj fields => fields | _ => [] end.
Definition items_of (v : jsval) : list jsval := match v with JArr l => l | _ => [] end.

Definition set_s3 (k : string) (v : jsval) (r : repo) : repo :=
  set_prop "s3" (JObj (set_prop k v (fields_of (default JUndef (assoc r (js "s3")))))) r.

Definition mirrors_of (r : repo) : list jsval := items_of (default JUndef (assoc r (js "mirrors"))).

Inductive auth_method := None_ | Basic | Token | Custom_header.

(** The method the select shows for a stored one. *)
Definition shown_method (authorization : option jsval) : auth_method :=
  let method := match authorization with Some a => if truthy_val a then field_opt a (js "method") else JUndef | None => JUndef end in
  if negb (truthy_val method) then None_
  else
    let m := toLowerCase (toString method) in
    if eqs m "username/password" || eqs m "basic" then Basic
    else if eqs m "bearer" || eqs m "token" then Token
    else if eqs m "custom_header" || eqs m "request-header" || eqs m "header" || eqs m "custom-header" then Custom_header
    else None_.

Definition stored_method (m : auth_method) : jsstring :=
  match m with None_ => js "none" | Basic => js "basic" | Token => js "bearer" | Custom_header => js "custom-header" end.

Inductive mirror_edit :=
  | Mirror_name (value : jsstring) | Mirror_url (value : jsstring) | Artifact_url (value : jsstring) | Mirror_proxy (value : jsstring)
  | Allow_list (l : list jsstring) | Deny_list (l : list jsstring)
  | Auth_method (m : auth_method) (login password : jsstring) | Auth_login (value : jsstring) | Auth_password (value : jsstring)
  | Persist (checked : bool) | Negative_cache (checked : bool) | Cache_ttl (n : num) | Timeout (n : num).

Definition set_or_delete (k : string) (present : bool) (v : jsval) (m : repo) : repo :=
  if present then set_prop k v m else delete_key m (js k).

(** The number fields take what [parseInt] gives. *)
Definition set_number (k : string) (n : num) (m : repo) : option repo :=
  match n with Int z => if (z <? 0)%Z then None else Some (set_prop k (JNum (Int z)) m) | _ => None end.

Definition set_credential (k : string) (v : jsstring) (m : repo) : option repo :=
  match assoc m (js "authorization") with
  | Some a => if truthy_val a then Some (set_prop "authorization" (JObj (set_prop k (JStr v) (fields_of a))) m) else None
  | None => None
  end.

Definition apply_mirror_edit (e : mirror_edit) (m : repo) : option repo :=
  match e with
  | Mirror_name v => Some (set_prop "name" (JStr v) m)
  | Mirror_url v => Some (set_prop "url" (JStr v) m)
  | Artifact_url v => Some (set_or_delete "artifact_url" (truthy v) (JStr v) m)
  | Mirror_proxy v => Some (set_or_delete "proxy" (truthy v) (JStr v) m)
  | Allow_list l => Some (set_or_delete "allow_artifacts" (0 <? length l) (JArr (JStr <$> l)) m)
  | Deny_list l => Some (set_or_delete "deny_artifacts" (0 <? length l) (JArr (JStr <$> l)) m)
  | Auth_method None_ _ _ => Some (delete_key m (js "authorization"))
  | Auth_method method login password =>
      Some (set_prop "authorization"
              (JObj [(js "method", JStr (stored_method method)); (js "login", JStr login); (js "password", JStr password)]) m)
  | Auth_login v => set_credential "login" v m
  | Auth_password v => set_credential "password" v m
  | Persist b => Some (set_prop "persist" (JBool b) m)
  | Negative_cache b => Some (set_prop "negative_cache" (JBool b) m)
  | Cache_ttl n => set_number "cache_ttl_secs" n m
  | Timeout n => set_number "timeout_secs" n m
  end.

Inductive edit :=
  | Visibility (value : jsstring) | Redeployment (checked : bool) | Gpg (checked : bool) | Maven_layout (value : jsstring)
  | S3_flag (k : string) (checked : bool) | S3_text (k : string) (value : jsstring)
  | Mirror_added (unnamed date : jsstring) | Mirror_removed (i : nat) | Mirror_edited (i : nat) (e : mirror_edit).

Definition new_mirror (unnamed date : jsstring) (number : nat) : repo :=
  [(js "name", JStr (unnamed ++ js " " ++ str_of_nat number)); (js "url", JStr []); (js "persist", JTrue); (js "negative_cache", JTrue);
   (js "cache_ttl_secs", JNum (Int 3600)); (js "timeout_secs", JNum (Int 30)); (js "enabled_date", JStr date)].

Definition publication_review (r : repo) : jsval := default JUndef (assoc r (js "_publication_review")).

(** The switch of redeployment is disabled while publications are reviewed. *)
Definition redeployment_disabled (r : repo) : bool :=
  truthy_val (publication_review r) && negb (jsval_eqb (publication_review r) (JStr "off")).

Definition apply_edit (e : edit) (r : repo) : option repo :=
  match e with
  | Visibility v => Some (set_prop "visibility" (JStr v) r)
  | Redeployment b => if redeployment_disabled r then None else Some (set_prop "allow_redeployment" (JBool b) r)
  | Gpg b => Some (set_prop "require_gpg_signature" (JBool b) r)
  | Maven_layout v => Some (set_prop "format" (JStr (if eqs v (js "classic") then "maven-classic" else "maven")) r)
  | S3_flag k b => Some (set_s3 k (JBool b) r)
  | S3_text k v => Some (set_s3 k (JStr v) r)
  | Mirror_added unnamed date => Some (set_prop "mirrors" (JArr (mirrors_of r ++ [JObj (new_mirror unnamed date (S (length (mirrors_of r))))])) r)
  | Mirror_removed i => Some (set_prop "mirrors" (JArr (delete i (mirrors_of r))) r)
  | Mirror_edited i e =>
      match mirrors_of r !! i with
      | Some m => (λ m, set_prop "mirrors" (JArr (<[i := JObj m]> (mirrors_of r))) r) <$> apply_mirror_edit e (fields_of m)
      | None => Some r
      end
  end.

(** ** One repository: the page, the requests, and the server *)

Inductive kind := Put (seq : nat) (payload : repo) (silent create : bool) | Review (policy : jsstring) | Delete.

(** How a request ended for the page: it was recorded, a later save had begun, it was refused, or no answer came. *)
Inductive put_outcome := Recorded | Superseded | Refused | No_answer.

Record request := { r_kind : kind; served : option bool; ended : option put_outcome }.

Record server_repo := { settings : repo; review : jsstring }.

Inductive alert := Saved | Save_failed | Created | Deleted | Delete_failed | Review_saved | Review_failed.

(** [shown]: the object of [currentConfig]; [baseline]: that of [initialReposMap]; [sequence]: the number of the last save. *)
Record entry := {
  shown : option repo; baseline : option repo; sequence : option nat;
  stored : option server_repo; sent : list request; alerts : list alert
}.

(** *** The handler of the server *)

Section server.
(** [wire]: what the server reads of the JSON object of the page, through the generated code of the protobuf messages; [today]: the
    date that a mirror gets when the request gives none. *)
Context (wire : repo → repo) (today : jsstring).

Definition off : jsstring := js "off".

Definition text_of (k : string) (r : repo) : jsstring := match assoc r (js k) with Some (JStr s) => s | _ => [] end.
Definition is_zero (k : string) (r : repo) : bool := match assoc r (js k) with Some (JNum n) => bool_decide (n = Int 0) | Some _ => false | None => true end.

(** [pb.ToMirror]; zero and the empty date are the defaults of the message. *)
Definition ToMirror (m : repo) : repo :=
  let m := if is_zero "cache_ttl_secs" m then set_prop "cache_ttl_secs" (JNum (Int 3600)) m else m in
  let m := if is_zero "timeout_secs" m then set_prop "timeout_secs" (JNum (Int 30)) m else m in
  if truthy (text_of "enabled_date" m) then m else set_prop "enabled_date" (JStr today) m.

(** [pb.ToRepository] *)
Definition ToRepository (r : repo) : repo :=
  let r := set_prop "format" (JStr (toLowerCase (TrimSpace (text_of "format" r)))) r in
  set_prop "mirrors" (JArr ((λ m, JObj (ToMirror (fields_of m))) <$> mirrors_of r)) r.

Definition ConfiguredFormat (r : repo) : jsstring :=
  let format := toLowerCase (TrimSpace (text_of "format" r)) in if truthy format then format else js "maven".

(** [strings.ToUpper] on ASCII text. *)
Definition toUpperCase (s : jsstring) : jsstring := (λ c, if is_lower c then chr (code c - 32) else c) <$> s.

(** [NormalizeS3KeyPrefix] of a prefix that is accepted. *)
Definition NormalizeS3KeyPrefix (raw : jsstring) : jsstring := trim_by (λ c, ascii_eqb c "/") (TrimSpace raw).

(** [PutMavenRepository] of a payload that is accepted: the settings it stores, over those it had. *)
Definition put_settings (existing : option repo) (payload : repo) : repo :=
  let r := ToRepository (wire payload) in
  let requested := text_of "format" r in
  let format := if truthy requested then requested else match existing with Some old => ConfiguredFormat old | None => requested end in
  let r := set_prop "format" (JStr format) r in
  let r := if eqs format "cargo" || eqs format "npm"
           then set_prop "require_gpg_signature" JFalse (set_prop "allow_redeployment" JFalse r) else r in
  let r := if eqs format "files" then set_prop "require_gpg_signature" JFalse (set_prop "allow_redeployment" JTrue r) else r in
  let r := set_prop "visibility" (JStr (toUpperCase (TrimSpace (text_of "visibility" r)))) r in
  let r := if eqs format "cargo" then r
           else set_prop "mirrors" (JArr ((λ m, JObj (set_prop "artifact_url" (JStr []) (fields_of m))) <$> mirrors_of r)) r in
  match assoc r (js "s3") with
  | Some (JObj s3) => set_prop "s3" (JObj (set_prop "key_prefix" (JStr (NormalizeS3KeyPrefix (text_of "key_prefix" s3))) s3)) r
  | _ => r
  end.

Definition without_redeployment (policy : jsstring) (r : repo) : repo :=
  if eqs policy off then r else set_prop "allow_redeployment" JFalse r.

(** [PutMavenRepository], [putRepositoryPublicationReview], [DeleteMavenRepository] for a request that is accepted. *)
Definition serve (k : kind) (x : option server_repo) : option server_repo :=
  match k with
  | Put _ payload _ _ =>
      let policy := match x with Some x => review x | None => off end in
      Some {| settings := without_redeployment policy (put_settings (settings <$> x) payload); review := policy |}
  | Review policy => (λ x, {| settings := without_redeployment policy (settings x); review := policy |}) <$> x
  | Delete => None
  end.

End server.

Definition tell (a : alert) (s : entry) : entry := { s with alerts := alerts s ++ [a] }.
Definition send_request (k : kind) (s : entry) : entry := { s with sent := sent s ++ [{| r_kind := k; served := None; ended := None |}] }.

(** [saveRepoSettings] up to the request. *)
Definition saveRepoSettings (r : repo) (silent create : bool) (s : entry) : entry :=
  let seq := S (default 0 (sequence s)) in
  let s := { s with sequence := Some seq } in
  match baseline s with
  | Some orig =>
      if negb create && same_json orig r then if silent then s else tell Saved s
      else send_request (Put seq r silent create) s
  | None => send_request (Put seq r silent create) s
  end.

Definition end_request (i : nat) (o : put_outcome) (s : entry) : entry :=
  { s with sent := alter (λ r : request, { r with ended := Some o }) i (sent s) }.

(** The end of a creation: a draft that is not saved leaves the page. *)
Definition creation_ended (create ok : bool) (s : entry) : entry :=
  if create then if ok then tell Created s else { s with shown := None } else s.

(** After the answer to a save. *)
Definition put_answered (i seq : nat) (payload : repo) (silent create ok : bool) (s : entry) : entry :=
  if negb (bool_decide (sequence s = Some seq)) then creation_ended create true (end_request i Superseded s)
  else if ok then
    let s := end_request i Recorded { s with baseline := Some payload } in
    creation_ended create true (if silent then s else tell Saved s)
  else creation_ended create false (tell Save_failed (end_request i Refused s)).

(** [handlePublicationReviewChange] after the answer. *)
Definition review_recorded (policy : jsstring) (r : repo) : repo :=
  let r := set_prop "_publication_review" (JStr policy) r in
  if eqs policy off then r else set_prop "allow_redeployment" JFalse r.

Definition answered (i : nat) (k : kind) (ok : bool) (s : entry) : entry :=
  match k with
  | Put seq payload silent create => put_answered i seq payload silent create ok s
  | Review policy =>
      if ok then tell Review_saved (end_request i Recorded { s with shown := review_recorded policy <$> shown s })
      else tell Review_failed (end_request i Refused s)
  | Delete =>
      if ok then tell Deleted (end_request i Recorded { s with shown := None; baseline := None; sequence := None })
      else tell Delete_failed (end_request i Refused s)
  end.

(** The request throws. *)
Definition lost (i : nat) (k : kind) (s : entry) : entry :=
  let s := end_request i No_answer s in
  match k with
  | Put seq payload silent create =>
      creation_ended create false (if bool_decide (sequence s = Some seq) then tell Save_failed s else s)
  | Review _ => tell Review_failed s
  | Delete => tell Delete_failed s
  end.

Section entry.
Context (wire : repo → repo) (today : jsstring).

Inductive event :=
  | Edited (e : edit)
  | Rendered                                     (* the section is built *)
  | Create_submitted (draft : repo)
  | Delete_confirmed
  | Review_changed (policy : jsstring)
  | Served (i : nat) (ok : bool)                 (* the server handles a request *)
  | Answered (i : nat)
  | Lost (i : nat).

Definition exec (e : event) (s : entry) : entry :=
  match e with
  | Edited e =>
      match shown s ≫= apply_edit e with
      | Some r => saveRepoSettings r false false { s with shown := Some r }
      | None => s
      end
  | Rendered => { s with shown := with_s3 <$> shown s }
  | Create_submitted draft => saveRepoSettings draft true true { s with shown := Some draft }
  | Delete_confirmed => send_request Delete s
  | Review_changed policy => send_request (Review policy) s
  | Served i ok =>
      match sent s !! i with
      | Some r =>
          match served r with
          | Some _ => s
          | None => { s with sent := alter (λ r : request, { r with served := Some ok }) i (sent s);
                             stored := if ok then serve wire today (r_kind r) (stored s) else stored s }
          end
      | None => s
      end
  | Answered i =>
      match sent s !! i with
      | Some r => match ended r, served r with None, Some ok => answered i (r_kind r) ok s | _, _ => s end
      | None => s
      end
  | Lost i =>
      match sent s !! i with
      | Some r => match ended r with None => lost i (r_kind r) s | Some _ => s end
      | None => s
      end
  end.

(** A page that was loaded, with a repository or without. *)
Definition loaded (statistics : bool) (x : server_repo) : repo :=
  set_prop "_publication_review" (JStr (review x)) (set_prop "_download_statistics_enabled" (JBool statistics) (settings x)).

Definition start (statistics : bool) (x : option server_repo) : entry :=
  {| shown := loaded statistics <$> x; baseline := loaded statistics <$> x; sequence := None; stored := x; sent := []; alerts := [] |}.

(** ** Runs without disorder

    The requests of a repository are handled in the order in which they were sent; while a repository is being created or removed
    nothing else is done to it, and it is removed when nothing is under way. *)

Definition waits (r : request) : bool := match ended r with None => true | Some _ => false end.

Definition blocks (r : request) : bool :=
  waits r && match r_kind r with Delete => true | Put _ _ _ create => create | Review _ => false end.

Definition unblocked (s : entry) : bool := negb (existsb blocks (sent s)).
Definition idle (s : entry) : bool := negb (existsb waits (sent s)).

Definition is_none {A} (o : option A) : bool := match o with None => true | Some _ => false end.

Definition allowed (e : event) (s : entry) : bool :=
  match e with
  | Edited _ | Review_changed _ => unblocked s && negb (is_none (shown s))
  | Create_submitted _ => idle s && is_none (shown s)
  | Delete_confirmed => idle s && negb (is_none (shown s))
  | Served i _ => forallb (λ r, negb (is_none (served r))) (take i (sent s))
  | Rendered | Answered _ | Lost _ => true
  end.

Inductive step (s : entry) : entry → Prop :=
  | Step e : allowed e s = true → step s (exec e s).

Definition initial (s : entry) : Prop := ∃ statistics x, s = start statistics x.
End entry.

(** ** Creating a repository *)

Inductive creation := Invalid_name | Name_taken | Draft (name : jsstring) (draft : repo).

(** [submitRepositoryCreation] up to the save; [configured]: the names there are. *)
Definition submitRepositoryCreation (configured : list jsstring) (value : jsstring) (format : jsval) : creation :=
  let name := trim value in
  if negb (isValidRepositorySlug (JStr name)) then Invalid_name
  else if existsb (λ n, eqs (toLowerCase n) (toLowerCase name)) configured then Name_taken
  else Draft name (createRepositoryDraft name format).

(** [handleCreateFormatChange] *)
Definition handleCreateFormatChange (value : jsval) : jsval := descriptor_id (getRepositoryFormat value).

(** ** A list of rules *)

(** [items]: the rules, which the chips show; [leaving]: the removals whose chip fades for 140 ms, with the index of the chip when it was
    made; [rules]: what the mirror has. *)
Record tag_list := { items : list jsstring; input : jsstring; error : bool; leaving : list nat; rules : list jsstring }.

Definition rule_separator (c : ascii) : bool :=
  ascii_eqb c ","%char || ascii_eqb c ";"%char || ascii_eqb c (chr 10) || ascii_eqb c (chr 13) || ascii_eqb c (chr 9).

Definition parts_of (raw : jsstring) : list jsstring := List.filter truthy (trim <$> splitBy rule_separator raw).

(** The rules, whether one was added, whether one was there. *)
Definition add_part (acc : list jsstring * bool * bool) (part : jsstring) : list jsstring * bool * bool :=
  let '(l, added, duplicate) := acc in
  if bool_decide (part ∈ l) then (l, added, true) else (l ++ [part], true, duplicate).

(** [onChange] *)
Definition tags_changed (s : tag_list) : tag_list := { s with rules := items s }.

Definition addItemsFromRaw (raw : jsstring) (s : tag_list) : tag_list :=
  let s := { s with error := false } in
  if negb (truthy raw) then s
  else
    let '(l, added, duplicate) := foldl add_part (items s, false, false) (parts_of raw) in
    if added then tags_changed { s with items := l; input := [] }
    else if duplicate then { s with error := true } else s.

Inductive tag_event := Typed (text : jsstring) | Enter | Backspace | Other_key | Pasted | Chip_clicked (i : nat) | Chip_gone | Cleared.

Definition tag_step (e : tag_event) (s : tag_list) : tag_list :=
  match e with
  | Typed text => { s with input := text }
  | Enter => addItemsFromRaw (input s) s
  | Backspace =>
      if negb (truthy (input s)) && (0 <? length (items s)) then tags_changed { s with items := removelast (items s); error := false }
      else { s with error := false }
  | Other_key => { s with error := false }
  | Pasted => if existsb (λ c, ascii_eqb c ","%char || ascii_eqb c ";"%char || ascii_eqb c (chr 10)) (input s) then addItemsFromRaw (input s) s else s
  | Chip_clicked i => if i <? length (items s) then { s with leaving := leaving s ++ [i] } else s
  | Chip_gone =>
      match leaving s with
      | [] => s
      | i :: rest => tags_changed { s with items := delete i (items s); error := false; leaving := rest }
      end
  | Cleared => if 0 <? length (items s) then tags_changed { s with items := []; error := false } else s
  end.

Definition tags (l : list jsstring) : tag_list := {| items := l; input := []; error := false; leaving := []; rules := l |}.

(** ** Lemmas on values *)

Section jsval_rect.
Context (P : jsval → Prop).
Context (Hu : P JUndef) (Hn : P JNull) (Hb : ∀ b, P (JBool b)) (Hnum : ∀ n, P (JNum n)) (Hs : ∀ s, P (JStr s)).
Context (Ha : ∀ l, Forall P l → P (JArr l)) (Ho : ∀ l, Forall (λ f, P f.2) l → P (JObj l)).

Fixpoint jsval_nested_ind (v : jsval) : P v :=
  match v with
  | JUndef => Hu | JNull => Hn | JBool b => Hb b | JNum n => Hnum n | JStr s => Hs s
  | JArr l => Ha l ((fix go l : Forall P l := match l with [] => List.Forall_nil _ | x :: l => @List.Forall_cons _ _ x l (jsval_nested_ind x) (go l) end) l)
  | JObj l => Ho l ((fix go l : Forall (λ f, P f.2) l :=
                       match l with [] => List.Forall_nil _ | (k, x) :: l => @List.Forall_cons _ (λ f, P f.2) (k, x) l (jsval_nested_ind x) (go l) end) l)
  end.
End jsval_rect.

Lemma jsval_eqb_true a b : jsval_eqb a b = true → a = b.
Proof.
  revert b. induction a as [| | | | |l IH|l IH] using jsval_nested_ind; intros [| | | | |k|k]; cbn; try done.
  - by intros ->%eqb_prop.
  - by intros ->%bool_decide_eq_true.
  - by intros ->%eqs_true.
  - intros H. f_equal. revert k H. induction IH as [|x l Hx _ IH]; intros [|y k]; try done.
    intros [->%Hx H]%andb_true_iff. f_equal. by apply IH.
  - intros H. f_equal. revert k H. induction IH as [|[i x] l Hx _ IH]; intros [|[j y] k]; try done.
    cbn in Hx. rewrite !andb_true_iff. intros [[->%eqs_true ->%Hx] H]. f_equal. by apply IH.
Qed.

Lemma same_json_true a b : same_json a b = true → a = b.
Proof. by intros [= ->]%jsval_eqb_true. Qed.

Lemma delete_set_same {A} (o : list (jsstring * A)) k v : delete_key (set_key o k v) k = delete_key o k.
Proof.
  unfold delete_key. induction o as [|[k' v'] o IH]; cbn; [by rewrite eqs_refl|].
  destruct (eqs k' k) eqn:E; cbn; [by rewrite eqs_refl|]. by rewrite E, IH.
Qed.

Lemma delete_set_other {A} (o : list (jsstring * A)) k k' v : k ≠ k' → delete_key (set_key o k v) k' = set_key (delete_key o k') k v.
Proof.
  intros Hne. assert (Ek : eqs k k' = false) by (apply not_true_iff_false; by rewrite eqs_true).
  unfold delete_key. induction o as [|[k0 v0] o IH]; cbn; [by rewrite Ek|].
  destruct (eqs k0 k) eqn:E; cbn.
  - apply eqs_true in E as ->. rewrite Ek. cbn. by rewrite eqs_refl.
  - destruct (eqs k0 k') eqn:E'; cbn; [done|]. by rewrite E, IH.
Qed.

Section comparison.
(** Whether reviews of publications were ever on: only then the permission of redeployment is the server's. *)
Context (reviews : bool).

(** What the page and the server agree on: the settings without those that have requests of their own, or that the server rules. *)
Definition comparable (r : repo) : repo :=
  let r := delete_key (delete_key r (js "_publication_review")) (js "_download_statistics_enabled") in
  with_s3 (if reviews then delete_key r (js "allow_redeployment") else r).

Definition incomparable (k : jsstring) : Prop :=
  k = js "_publication_review" ∨ k = js "_download_statistics_enabled" ∨ reviews = true ∧ k = js "allow_redeployment".

Lemma visible_set k v r : incomparable k → comparable (set_key r k v) = comparable r.
Proof.
  unfold comparable. intros [->|[->|[-> ->]]]; [by rewrite delete_set_same|..].
  - by rewrite (delete_set_other _ _ (js "_publication_review")), delete_set_same by by vm_compute.
  - by rewrite (delete_set_other _ _ (js "_publication_review")), (delete_set_other _ _ (js "_download_statistics_enabled")), delete_set_same by by vm_compute.
Qed.

Lemma with_s3_eq r : with_s3 r = (if match assoc r (js "s3") with Some v => truthy_val v | None => false end then r else set_key r (js "s3") (JObj s3_default)).
Proof. unfold with_s3, set_prop. by destruct (assoc r (js "s3")). Qed.

Lemma visible_with_s3 r : comparable (with_s3 r) = comparable r.
Proof.
  rewrite (with_s3_eq r). destruct (match assoc r (js "s3") with Some v => truthy_val v | None => false end) eqn:E; [done|].
  unfold comparable. cbv zeta. destruct reviews; rewrite !(delete_set_other _ (js "s3")) by (by vm_compute); rewrite !with_s3_eq, assoc_set_key, eqs_refl; cbn [truthy_val];
  rewrite !assoc_delete_key; unfold eqs; rewrite !bool_decide_false by (by vm_compute); (destruct (assoc r (js "s3")); [by rewrite E|done]).
Qed.

(** A policy that there may be. *)
Definition policy_ok (policy : jsstring) : Prop := reviews = false → policy = off.

Lemma visible_without_redeployment policy r : policy_ok policy → comparable (without_redeployment policy r) = comparable r.
Proof.
  intros Hp. unfold without_redeployment. destruct (eqs policy off) eqn:Eo; [done|]. apply visible_set. right; right. split; [|done].
  apply not_false_iff_true. intros E. by rewrite (Hp E), eqs_refl in Eo.
Qed.

Lemma visible_review_recorded policy r : policy_ok policy → comparable (review_recorded policy r) = comparable r.
Proof.
  intros Hp. unfold review_recorded. change (comparable (without_redeployment policy (set_prop "_publication_review" (JStr policy) r)) = comparable r).
  rewrite visible_without_redeployment by done. apply visible_set. by left.
Qed.

Lemma visible_loaded statistics x : comparable (loaded statistics x) = comparable (settings x).
Proof. unfold loaded, set_prop. rewrite !visible_set; [done|right; by left|by left]. Qed.
End comparison.

(** ** What the requests amount to *)

Section folds.
Context {A B : Type} (f : B → A → B).

Lemma foldl_alter_same (g : A → A) (l : list A) (i : nat) x b :
  l !! i = Some x → (∀ b, f b (g x) = f b x) → foldl f b (alter g i l) = foldl f b l.
Proof.
  revert i b. induction l as [|y l IH]; intros [|i] b; try done; cbn.
  - by intros [= ->] ->.
  - intros Hi Hg. by apply IH.
Qed.

Lemma foldl_idle (l : list A) b : (∀ j x, l !! j = Some x → ∀ b, f b x = b) → foldl f b l = b.
Proof.
  revert b. induction l as [|y l IH]; intros b H; [done|]. cbn. rewrite (H 0 y) by done. apply IH. intros j x Hj. by apply (H (S j)).
Qed.

Lemma foldl_alter_step (g : A → A) (h : B → B) (l : list A) (i : nat) x b :
  l !! i = Some x → (∀ b, f b x = b) → (∀ b, f b (g x) = h b) → (∀ j y, i < j → l !! j = Some y → ∀ b, f b y = b) →
  foldl f b (alter g i l) = h (foldl f b l).
Proof.
  revert i b. induction l as [|y l IH]; intros [|i] b; try done; cbn.
  - intros [= ->] Hx Hg Hl. rewrite Hg, Hx, !foldl_idle; [done|..]; intros j y Hj; apply (Hl (S j)); (lia || done).
  - intros Hi Hx Hg Hl. apply IH; [done..|]. intros j z Hj. apply (Hl (S j)). lia.
Qed.

Lemma lookup_alter_inv (g : A → A) (l : list A) (i j : nat) y :
  alter g i l !! j = Some y → (i = j ∧ ∃ x, l !! i = Some x ∧ y = g x) ∨ (i ≠ j ∧ l !! j = Some y).
Proof.
  destruct (decide (i = j)) as [<-|Hne]; [rewrite list_lookup_alter_eq|rewrite list_lookup_alter_ne by done; by right].
  intros (x & ? & ->)%fmap_Some. left. split; [done|]. by exists x.
Qed.
End folds.

Section invariant.
Context (wire : repo → repo) (today : jsstring) (reviews statistics : bool) (x0 : option server_repo).
Hypothesis Hx0 : ∀ x, x0 = Some x → policy_ok reviews (review x).
#[local] Abbreviation comparable := (comparable reviews).
#[local] Abbreviation policy_ok := (policy_ok reviews).

Definition is_review (r : request) : bool := match r_kind r with Review _ => true | _ => false end.

(** The effect of a request on the baseline and on the server. *)
Definition record_effect (b : option repo) (r : request) : option repo :=
  match ended r with
  | Some Recorded => match r_kind r with Put _ p _ _ => Some p | Delete => None | Review _ => b end
  | _ => b
  end.

Definition serve_effect (x : option server_repo) (r : request) : option server_repo :=
  match served r with Some true => serve wire today (r_kind r) x | _ => x end.

Definition ended_ok (r : request) : Prop :=
  match ended r with Some Recorded => served r = Some true | Some Refused => served r = Some false | _ => True end.

(** The latest save that was not refused, reviews left aside, was recorded; [l] has the latest first. *)
Fixpoint settled_from (l : list request) : bool :=
  match l with
  | [] => true
  | r :: l =>
      if is_review r then settled_from l
      else match served r, ended r with Some false, _ => settled_from l | _, Some Recorded => true | _, _ => false end
  end.

Definition saves_settled (s : entry) : bool := settled_from (reverse (sent s)).

(** The server has the settings of [p], or what its handler makes of them. *)
Definition holds (x : server_repo) (p : repo) : Prop :=
  comparable (settings x) = comparable p ∨ ∃ existing, comparable (settings x) = comparable (put_settings wire today existing p).

Definition agrees (x : option server_repo) (b : option repo) : Prop := ∀ p, b = Some p → ∃ y, x = Some y ∧ holds y p.

(** The policies of the requests are possible, and so is the one of the server then. *)
Definition policies_ok (l : list request) : Prop := Forall (λ r, ∀ policy, r_kind r = Review policy → policy_ok policy) l.

Lemma review_ok l x : policies_ok l → foldl serve_effect x0 l = Some x → policy_ok (review x).
Proof using Hx0.
  revert x. induction l as [|r l IH] using rev_ind; intros x; [intros _; apply Hx0|]. unfold policies_ok. rewrite Forall_app, Forall_singleton, foldl_app. cbn [foldl].
  intros [Hl Hr]. unfold serve_effect at 1. destruct (served r) as [[]|]; [|by apply IH..]. destruct (r_kind r) as [seq p silent create|policy|]; cbn [serve]; [| |done].
  - intros [= <-]. cbn. destruct (foldl serve_effect x0 l) as [y|] eqn:E; [by apply IH|by intros _].
  - intros (y & _ & ->)%fmap_Some. by apply Hr.
Qed.

Lemma settled_agrees b0 l :
  agrees x0 b0 → policies_ok l → Forall ended_ok l → settled_from (reverse l) = true → agrees (foldl serve_effect x0 l) (foldl record_effect b0 l).
Proof using Hx0.
  intros H0. induction l as [|r l IH] using rev_ind; [done|]. intros Hpol. pose proof Hpol as [Hpl Hpr]%Forall_app. rewrite Forall_singleton in Hpr.
  rewrite Forall_app, Forall_singleton, reverse_snoc, !foldl_app. cbn [foldl settled_from].
  intros [Hl Hr]. specialize (IH Hpl Hl). unfold ended_ok in Hr. unfold is_review, serve_effect at 1, record_effect at 1.
  destruct r as [k sv en]; cbn [r_kind served ended] in *. destruct k as [seq p silent create|policy|].
  - destruct sv as [[]|]; destruct en as [[]|]; try done. intros _ q [= <-]. eexists. split; [done|]. right. eexists.
    cbn [settings]. apply visible_without_redeployment. destruct (foldl serve_effect x0 l) as [y|] eqn:E; [by eapply review_ok|by intros _].
  - intros Hs p Hp. assert (Hp' : foldl record_effect b0 l = Some p) by (by destruct en as [[]|]).
    destruct (IH Hs p Hp') as (y & Hy & Hh). rewrite Hy. destruct sv as [[]|]; [|by exists y..].
    eexists. split; [done|]. unfold holds. cbn [settings]. rewrite visible_without_redeployment; [done|by apply Hpr].
  - destruct sv as [[]|]; destruct en as [[]|]; done.
Qed.

Record inv (s : entry) : Prop := {
  inv_order : ∀ i j r r', i < j → sent s !! i = Some r → sent s !! j = Some r' → served r = None → served r' = None;
  inv_base : baseline s = foldl record_effect (loaded statistics <$> x0) (sent s);
  inv_stored : stored s = foldl serve_effect x0 (sent s);
  inv_ended : Forall ended_ok (sent s);
  inv_policies : policies_ok (sent s);
  inv_put : ∀ i r seq p silent create, sent s !! i = Some r → waits r = true → r_kind r = Put seq p silent create →
    seq ≤ default 0 (sequence s) ∧ (create = true → sequence s = Some seq) ∧
    (sequence s = Some seq →
       (∀ j r', i < j → sent s !! j = Some r' → is_review r' = true) ∧ ∃ pg, shown s = Some pg ∧ comparable pg = comparable p);
  inv_block : ∀ i r, sent s !! i = Some r → blocks r = true →
    S i = length (sent s) ∧ ∀ j r', j ≠ i → sent s !! j = Some r' → waits r' = false
}.

Lemma inv_start : inv (start statistics x0).
Proof. split; try done. constructor. Qed.

Lemma unblocked_all s : unblocked s = true ↔ ∀ i r, sent s !! i = Some r → blocks r = false.
Proof.
  unfold unblocked. rewrite negb_true_iff, existsb_none. split; [|intros H r [i Hi]%list_elem_of_lookup; by eapply H].
  intros H i r Hi. apply H. by eapply list_elem_of_lookup_2.
Qed.

Lemma idle_all s : idle s = true ↔ ∀ i r, sent s !! i = Some r → waits r = false.
Proof.
  unfold idle. rewrite negb_true_iff, existsb_none. split; [|intros H r [i Hi]%list_elem_of_lookup; by eapply H].
  intros H i r Hi. apply H. by eapply list_elem_of_lookup_2.
Qed.

Lemma idle_unblocked s : idle s = true → unblocked s = true.
Proof. rewrite idle_all, unblocked_all. intros H i r Hi. unfold blocks. by rewrite (H i r Hi). Qed.

Lemma inv_tell a s : inv s → inv (tell a s).
Proof. by intros []; split. Qed.

(** A change of what is shown that the page and the server do not have to agree on. *)
Lemma policies_alter (g : request → request) i l :
  (∀ r, r_kind (g r) = r_kind r) → policies_ok l → policies_ok (alter g i l).
Proof.
  unfold policies_ok. rewrite !Forall_forall. intros Hg H r' [j [(<- & q & Hq & ->)|(_ & Hj)]%lookup_alter_inv]%list_elem_of_lookup.
  - rewrite Hg. apply H. by eapply list_elem_of_lookup_2.
  - apply H. by eapply list_elem_of_lookup_2.
Qed.

Lemma inv_shown f s : (∀ r, comparable (f r) = comparable r) → inv s → inv { s with shown := f <$> shown s }.
Proof.
  intros Hf []; split; cbn; try done. intros i r seq p silent create Hi Hw Hk.
  destruct (inv_put0 i r seq p silent create Hi Hw Hk) as (H1 & H2 & H3). split_and!; [done..|]. intros Es.
  destruct (H3 Es) as (H4 & pg & -> & Hv). split; [done|]. exists (f pg). by rewrite Hf.
Qed.

Lemma inv_hide (b : option repo) s : idle s = true → inv s → inv { s with shown := b }.
Proof. rewrite idle_all. intros Hi []; split; cbn; try done. intros i r seq p silent create Hr Hw. by rewrite (Hi i r Hr) in Hw. Qed.

Lemma snoc_lookup {A} (l : list A) x j y : (l ++ [x]) !! j = Some y → l !! j = Some y ∨ (j = length l ∧ y = x).
Proof. intros [H|[Hj H]]%lookup_app_Some; [by left|right]. apply list_lookup_singleton_Some in H as [Hj' ->]. split; [lia|done]. Qed.

(** A request that is sent: what it needs. *)
Lemma inv_send k s :
  (match k with
   | Put seq p silent create =>
       (if create then idle s else unblocked s) = true ∧ sequence s = Some seq ∧ (∃ pg, shown s = Some pg ∧ comparable pg = comparable p) ∧
       ∀ i r seq' p' silent' create', sent s !! i = Some r → waits r = true → r_kind r = Put seq' p' silent' create' → seq' < seq
   | Review policy => unblocked s = true ∧ policy_ok policy
   | Delete => idle s = true
   end) → inv s → inv (send_request k s).
Proof.
  intros Hk [Hord Hb Hst He Hpol Hp Hbl]. assert (Hu : unblocked s = true) by (destruct k as [? ? ? []| |]; naive_solver auto using idle_unblocked).
  rewrite unblocked_all in Hu.
  change (send_request k s) with {| shown := shown s; baseline := baseline s; sequence := sequence s; stored := stored s;
    sent := sent s ++ [{| r_kind := k; served := None; ended := None |}]; alerts := alerts s |}.
  split; cbn [sent baseline stored sequence shown].
  - intros i j r r' Hij [Hi|[-> ->]]%snoc_lookup [Hj|[-> ->]]%snoc_lookup; try done; [by eapply Hord|]. apply lookup_lt_Some in Hj. lia.
  - by rewrite foldl_app, Hb.
  - by rewrite foldl_app, Hst.
  - rewrite Forall_app, Forall_singleton. done.
  - unfold policies_ok. rewrite Forall_app, Forall_singleton. split; [done|]. intros policy E. cbn in E. subst k. by destruct Hk.
  - intros i r seq p silent create [Hi|[-> ->]]%snoc_lookup Hw Hr.
    + destruct (Hp i r seq p silent create Hi Hw Hr) as (H1 & H2 & H3). split_and!; [done..|]. intros Es.
      destruct (H3 Es) as (H4 & H5). split; [|done]. intros j r' Hij [Hj|[-> ->]]%snoc_lookup; [by eapply H4|].
      destruct k as [seq' p' s' c'| |].
      * destruct Hk as (_ & Es' & _ & Hlt). specialize (Hlt i r seq p silent create Hi Hw Hr). rewrite Es in Es'. simplify_eq. lia.
      * done.
      * rewrite idle_all in Hk. by rewrite (Hk i r Hi) in Hw.
    + cbn in Hr. subst k. destruct Hk as (_ & Es & Hpg & _). rewrite Es. split_and!; [done..|]. intros _. split; [|done].
      intros j r' Hj Hr'%lookup_lt_Some. rewrite length_app in Hr'. cbn in Hr'. lia.
  - intros i r [Hi|[-> ->]]%snoc_lookup Hr; [by rewrite (Hu i r Hi) in Hr|]. rewrite length_app. cbn [length]. split; [lia|].
    assert (Hid : idle s = true) by (destruct k as [? ? ? []| |]; [by apply Hk|done..]). rewrite idle_all in Hid.
    intros j r' Hj [Hj'|[-> ->]]%snoc_lookup; [by eapply Hid|done].
Qed.

Lemma ended_lookup (o : put_outcome) (l : list request) (i j : nat) r' : alter (λ r : request, { r with ended := Some o }) i l !! j = Some r' →
  ∃ q, l !! j = Some q ∧ served q = served r' ∧ is_review q = is_review r' ∧ (waits r' = true → i ≠ j ∧ q = r').
Proof. intros [(<- & q & Hq & ->)|(Hne & Hj)]%lookup_alter_inv; [by exists q|by exists r']. Qed.

Lemma served_lookup (ok : bool) (l : list request) (i j : nat) r' : alter (λ r : request, { r with served := Some ok }) i l !! j = Some r' →
  ∃ q, l !! j = Some q ∧ waits q = waits r' ∧ is_review q = is_review r' ∧ r_kind q = r_kind r' ∧ (served r' = None → i ≠ j ∧ q = r').
Proof. intros [(<- & q & Hq & ->)|(Hne & Hj)]%lookup_alter_inv; [by exists q|by exists r']. Qed.

(** A request that ends without an effect on the baseline, or records it. *)
Lemma inv_finish i r o s b :
  sent s !! i = Some r → ended r = None → ended_ok { r with ended := Some o } →
  (∀ c, record_effect c { r with ended := Some o } = c) ∧ b = baseline s ∨
  (∀ c, record_effect c { r with ended := Some o } = b) ∧ (∀ j r', i < j → sent s !! j = Some r' → is_review r' = true) →
  inv s → inv (end_request i o { s with baseline := b }).
Proof.
  intros Hi He Ho Hb [Hord Hba Hst Hen Hpol Hp Hbl].
  change (end_request i o { s with baseline := b }) with {| shown := shown s; baseline := b; sequence := sequence s; stored := stored s;
    sent := alter (λ r : request, { r with ended := Some o }) i (sent s); alerts := alerts s |}.
  split; cbn [sent baseline stored sequence shown].
  - intros j1 j2 r1 r2 Hj (q1 & H1 & <- & _)%ended_lookup (q2 & H2 & <- & _)%ended_lookup. by apply (Hord j1 j2).
  - destruct Hb as [[Hc ->]|[Hc Hl]].
    + rewrite (foldl_alter_same _ _ _ _ r); [done..|]. intros c. rewrite Hc. unfold record_effect. by rewrite He.
    + symmetry. apply (foldl_alter_step record_effect _ (λ _, b) _ _ r); [done| |done|].
      * intros c. unfold record_effect. by rewrite He.
      * intros j r' Hj Hr' c. specialize (Hl j r' Hj Hr'). unfold record_effect, is_review in *. destruct (ended r') as [[]|]; try done. by destruct (r_kind r').
  - rewrite (foldl_alter_same _ _ _ _ r); done.
  - rewrite Forall_forall in Hen |- *. intros r' [j [(<- & q & Hq & ->)|(_ & Hj)]%lookup_alter_inv]%list_elem_of_lookup.
    + by rewrite Hi in Hq; simplify_eq.
    + apply Hen. by eapply list_elem_of_lookup_2.
  - by apply policies_alter.
  - intros j r' seq p silent create (q & Hj & _ & _ & Hq)%ended_lookup Hw Hk. destruct (Hq Hw) as [_ ->].
    destruct (Hp j r' seq p silent create Hj Hw Hk) as (H1 & H2 & H3). split_and!; [done..|]. intros Es. destruct (H3 Es) as (H4 & H5).
    split; [|done]. intros j' r2 Hlt (q & Hj' & _ & <- & _)%ended_lookup. by eapply H4.
  - intros j r' (q & Hj & _ & _ & Hq)%ended_lookup Hr. destruct Hq as [Hne ->]; [by apply andb_true_iff in Hr as [? _]|].
    destruct (Hbl j r' Hj Hr) as [_ Hw]. specialize (Hw i r Hne Hi). unfold waits in Hw. by rewrite He in Hw.
Qed.

(** A request that was waiting and ends: if it held the others up, none is waiting. *)
Lemma idle_after i r o s : sent s !! i = Some r → blocks r = true → inv s → idle (end_request i o s) = true.
Proof.
  intros Hi Hr [_ _ _ _ _ _ Hbl]. apply idle_all. intros j r' [(<- & q & Hq & ->)|(Hne & Hj)]%lookup_alter_inv; [done|].
  destruct (Hbl i r Hi Hr) as [_ Hw]. by eapply Hw.
Qed.

Lemma inv_served i (ok : bool) r s :
  sent s !! i = Some r → served r = None → forallb (λ r, negb (is_none (served r))) (take i (sent s)) = true → inv s →
  inv { s with sent := alter (λ r : request, { r with served := Some ok }) i (sent s); stored := if ok then serve wire today (r_kind r) (stored s) else stored s }.
Proof.
  intros Hi Hs Hall [Hord Hba Hst Hen Hpol Hp Hbl]. rewrite forallb_elem in Hall.
  assert (Hbefore : ∀ j r', j < i → sent s !! j = Some r' → served r' ≠ None).
  { intros j r' Hj Hr' E. specialize (Hall r'). rewrite E in Hall. cbn in Hall. assert (r' ∈ take i (sent s)) as Hin; [|by specialize (Hall Hin)].
    apply (list_elem_of_lookup_2 _ j). by rewrite lookup_take_lt. }
  match goal with |- inv ?s' => change s' with {| shown := shown s; baseline := baseline s; sequence := sequence s;
    stored := if ok then serve wire today (r_kind r) (stored s) else stored s; sent := alter (λ r : request, { r with served := Some ok }) i (sent s); alerts := alerts s |} end.
  split; cbn [sent baseline stored sequence shown].
  - intros j1 j2 r1 r2 Hj (q1 & H1 & _ & _ & _ & E1)%served_lookup H2' E. pose proof H2' as (q2 & H2 & _)%served_lookup.
    destruct (E1 E) as [Hne1 ->]. pose proof (Hord j1 j2 r1 q2 Hj H1 H2 E) as E'. destruct (decide (i = j2)) as [<-|Hne].
    + destruct (Hbefore j1 r1 Hj H1 E).
    + apply lookup_alter_inv in H2' as [(? & _)|(_ & H3)]; [done|]. by simplify_eq.
  - rewrite (foldl_alter_same _ _ _ _ r); done.
  - rewrite (foldl_alter_step (serve_effect) _ (λ x, if ok then serve wire today (r_kind r) x else x) _ _ r); [by rewrite Hst|done| | |].
    + intros x. unfold serve_effect. by rewrite Hs.
    + intros x. unfold serve_effect. cbn. by destruct ok.
    + intros j r' Hj Hr' x. unfold serve_effect. by rewrite (Hord i j r r' Hj Hi Hr' Hs).
  - rewrite Forall_forall in Hen |- *. intros r' [j [(<- & q & Hq & ->)|(_ & Hj)]%lookup_alter_inv]%list_elem_of_lookup.
    + rewrite Hi in Hq. simplify_eq. specialize (Hen q (list_elem_of_lookup_2 _ _ _ Hi)). unfold ended_ok in *. cbn. rewrite Hs in Hen.
      by destruct (ended q) as [[]|].
    + apply Hen. by eapply list_elem_of_lookup_2.
  - by apply policies_alter.
  - intros j r' seq p silent create (q & Hj & <- & _ & <- & _)%served_lookup Hw Hk.
    destruct (Hp j q seq p silent create Hj Hw Hk) as (H1 & H2 & H3). split_and!; [done..|]. intros Es. destruct (H3 Es) as (H4 & H5). split; [|done].
    intros j' r2 Hlt (q' & Hj' & _ & <- & _)%served_lookup. by eapply H4.
  - rewrite length_alter. intros j r' (q & Hj & Eq1 & _ & Eq2 & _)%served_lookup Hr. unfold blocks in Hr. rewrite <- Eq1, <- Eq2 in Hr.
    destruct (Hbl j q Hj Hr) as [Hlen Hw]. split; [done|]. intros j' r2 Hne (q' & Hj' & <- & _)%served_lookup. by eapply Hw.
Qed.

(** A new save begins. *)
Lemma inv_bump (b : option repo) s : unblocked s = true → inv s → inv { s with shown := b; sequence := Some (S (default 0 (sequence s))) }.
Proof.
  rewrite unblocked_all. intros Hu []; split; cbn; try done. intros i r seq p silent create Hi Hw Hk.
  destruct (inv_put0 i r seq p silent create Hi Hw Hk) as (H1 & _ & _). split_and!; [lia| |intros [= <-]; lia].
  intros ->. specialize (Hu i r Hi). unfold blocks in Hu. by rewrite Hw, Hk in Hu.
Qed.

Lemma inv_save (b : option repo) r (silent create : bool) s :
  (if create then idle s else unblocked s) = true → b = Some r → inv s → inv (saveRepoSettings r silent create { s with shown := b }).
Proof.
  intros Hi -> H. assert (Hu : unblocked s = true) by (destruct create; [by apply idle_unblocked|done]).
  pose proof (inv_bump (Some r) s Hu H) as H1. unfold saveRepoSettings. cbv zeta.
  set (s1 := { s with shown := Some r; sequence := Some (S (default 0 (sequence s))) }) in *.
  assert (Hs : inv (send_request (Put (S (default 0 (sequence s))) r silent create) s1)).
  { apply inv_send; [|done]. split_and!; [by destruct create|done|by exists r|].
    intros i r' seq' p' silent' create' Hr Hw Hk. destruct (inv_put s H i r' seq' p' silent' create' Hr Hw Hk) as [Hle _]. lia. }
  change (inv match baseline s with
    | Some orig => if negb create && same_json orig r then if silent then s1 else tell Saved s1 else send_request (Put (S (default 0 (sequence s))) r silent create) s1
    | None => send_request (Put (S (default 0 (sequence s))) r silent create) s1 end).
  destruct (baseline s) as [orig|]; [|done]. destruct (negb create && same_json orig r); [|done]. destruct silent; [done|by apply inv_tell].
Qed.

Lemma inv_creation (create ok : bool) s : (create = true → ok = false → idle s = true) → inv s → inv (creation_ended create ok s).
Proof. intros Hi Hs. unfold creation_ended. destruct create; [destruct ok; [by apply inv_tell|apply inv_hide; auto]|done]. Qed.

Lemma idle_tell a s : idle (tell a s) = idle s.
Proof. done. Qed.

Section ending.
Context (i : nat) (r : request) (s : entry) (Hi : sent s !! i = Some r) (He : ended r = None) (H : inv s).

Lemma waiting_put seq p silent create : r_kind r = Put seq p silent create →
  seq ≤ default 0 (sequence s) ∧ (create = true → sequence s = Some seq) ∧
  (sequence s = Some seq → (∀ j r', i < j → sent s !! j = Some r' → is_review r' = true) ∧ ∃ pg, shown s = Some pg ∧ comparable pg = comparable p).
Proof using Type*. intros Hk. eapply inv_put; [done|exact Hi|by unfold waits; rewrite He|exact Hk]. Qed.

Lemma blocks_delete : r_kind r = Delete → blocks r = true.
Proof using Type*. intros Hk. unfold blocks, waits. by rewrite He, Hk. Qed.

Lemma blocks_create seq p silent : r_kind r = Put seq p silent true → blocks r = true.
Proof using Type*. intros Hk. unfold blocks, waits. by rewrite He, Hk. Qed.

(** An end that records nothing. *)
Lemma inv_end o : o = Superseded ∨ o = No_answer ∨ (o = Refused ∧ served r = Some false) → inv (end_request i o s).
Proof using Type*.
  intros Ho. change (end_request i o s) with (end_request i o { s with baseline := baseline s }). apply (inv_finish i r); try done.
  - destruct Ho as [->|[->|[-> Hs]]]; done.
  - left. split; [|done]. intros c. by destruct Ho as [->|[->|[-> Hs]]].
Qed.

Lemma review_possible policy : r_kind r = Review policy → policy_ok policy.
Proof using Type*. intros Hk. pose proof (inv_policies s H) as Hp. unfold policies_ok in Hp. rewrite Forall_forall in Hp. by eapply Hp; [eapply list_elem_of_lookup_2|]. Qed.

Lemma inv_review_recorded policy : r_kind r = Review policy → served r = Some true →
  inv (end_request i Recorded { s with shown := review_recorded policy <$> shown s }).
Proof using Type*.
  intros Hk Hs. pose proof (inv_shown (review_recorded policy) s (λ r', visible_review_recorded reviews policy r' (review_possible policy Hk)) H) as H'.
  change (end_request i Recorded { s with shown := review_recorded policy <$> shown s }) with
    (end_request i Recorded { { s with shown := review_recorded policy <$> shown s } with baseline := baseline { s with shown := review_recorded policy <$> shown s } }).
  apply (inv_finish i r); try done. left. split; [|done]. intros c. unfold record_effect. cbn. by rewrite Hk.
Qed.

Lemma inv_put_recorded seq p silent create : r_kind r = Put seq p silent create → served r = Some true → sequence s = Some seq →
  inv (end_request i Recorded { s with baseline := Some p }).
Proof using Type*.
  intros Hk Hs Es. apply (inv_finish i r); try done. right. split; [|by eapply waiting_put]. intros c. unfold record_effect. cbn. by rewrite Hk.
Qed.

Lemma inv_deleted : r_kind r = Delete → served r = Some true → inv (end_request i Recorded { s with shown := None; baseline := None; sequence := None }).
Proof using Type*.
  intros Hk Hs. assert (H' : inv (end_request i Recorded { s with baseline := None })).
  { apply (inv_finish i r); try done. right. split.
    - intros c. unfold record_effect. cbn. by rewrite Hk.
    - intros j r' Hj Hr'%lookup_lt_Some. destruct (inv_block s H i r Hi (blocks_delete Hk)) as [Hlen _]. lia. }
  pose proof (idle_after i r Recorded s Hi (blocks_delete Hk) H) as Hid.
  destruct H'; split; cbn; try done. rewrite idle_all in Hid. intros j r' seq p silent create Hr Hw. by rewrite (Hid j r' Hr) in Hw.
Qed.

Lemma inv_answered ok : served r = Some ok → inv (answered i (r_kind r) ok s).
Proof using Type*.
  intros Hs. destruct (r_kind r) as [seq p silent create|policy|] eqn:Hk; cbn [answered].
  - unfold put_answered. destruct (bool_decide (sequence s = Some seq)) eqn:Es; cbn [negb].
    + apply bool_decide_eq_true in Es. destruct ok.
      * apply inv_creation; [done|]. pose proof (inv_put_recorded seq p silent create Hk Hs Es). cbv zeta. destruct silent; [done|by apply inv_tell].
      * apply inv_creation; [|apply inv_tell, inv_end; auto]. intros -> _. rewrite idle_tell. by eapply idle_after, H; [|eapply blocks_create].
    + apply inv_creation; [done|]. apply inv_end. auto.
  - destruct ok; apply inv_tell; [by apply inv_review_recorded|apply inv_end; auto].
  - destruct ok; apply inv_tell; [by apply inv_deleted|apply inv_end; auto].
Qed.

Lemma inv_lost : inv (lost i (r_kind r) s).
Proof using Type*.
  assert (Hend : inv (end_request i No_answer s)) by (apply inv_end; auto). destruct (r_kind r) as [seq p silent create|policy|] eqn:Hk; cbn [lost]; [|by apply inv_tell..].
  apply inv_creation; [|split_if; [by apply inv_tell|done]]. intros -> _.
  assert (Hid : idle (end_request i No_answer s) = true) by by eapply idle_after, H; [|eapply blocks_create]. by split_if.
Qed.
End ending.

(** Reviews of an event. *)
Definition event_ok (e : event) : Prop := match e with Review_changed policy => policy_ok policy | _ => True end.

Lemma inv_exec e s : allowed e s = true → event_ok e → inv s → inv (exec wire today e s).
Proof using Hx0.
  intros Ha Ho H. destruct e as [e| |draft| |policy|i ok|i|i]; cbn [exec allowed] in *.
  - apply andb_true_iff in Ha as [Hu _]. destruct (shown s ≫= apply_edit e) as [r|]; [|done]. by apply (inv_save (Some r) r false false).
  - apply inv_shown; [apply visible_with_s3|done].
  - apply andb_true_iff in Ha as [Hid _]. by apply (inv_save (Some draft) draft true true).
  - apply andb_true_iff in Ha as [Hid _]. by apply inv_send.
  - apply andb_true_iff in Ha as [Hu _]. by apply inv_send.
  - destruct (sent s !! i) as [r|] eqn:Hi; [|done]. destruct (served r) eqn:Hs; [done|]. by apply (inv_served i ok r s).
  - destruct (sent s !! i) as [r|] eqn:Hi; [|done]. destruct (ended r) eqn:He; [done|]. destruct (served r) eqn:Hs; [|done]. by apply inv_answered.
  - destruct (sent s !! i) as [r|] eqn:Hi; [|done]. destruct (ended r) eqn:He; [done|]. by apply inv_lost.
Qed.

(** ** Messages *)

(** [e] says [a]. *)
Definition says (e : event) (s : entry) (a : alert) : Prop := ∃ l, alerts (exec wire today e s) = alerts s ++ l ∧ a ∈ l.

Lemma says_nothing (s s' : entry) a : alerts s' = alerts s → ¬ ∃ l, alerts s' = alerts s ++ l ∧ a ∈ l.
Proof. intros -> (l & E & Hl). rewrite <- (app_nil_r (alerts s)) in E at 1. apply app_inv_head in E as <-. by apply elem_of_nil in Hl. Qed.

Lemma says_inv (s s' : entry) l a : alerts s' = alerts s ++ l → (∃ l, alerts s' = alerts s ++ l ∧ a ∈ l) → a ∈ l.
Proof. intros -> (l' & E & Hl). by apply app_inv_head in E as <-. Qed.

(** The page shows what the server holds. *)
Definition kept_on_server (s : entry) : Prop := ∃ pg p x, shown s = Some pg ∧ stored s = Some x ∧ comparable pg = comparable p ∧ holds x p.

Lemma agrees_start : agrees x0 (loaded statistics <$> x0).
Proof using Hx0. intros p (x & -> & ->)%fmap_Some. exists x. split; [done|]. left. by rewrite visible_loaded. Qed.

Lemma inv_settled s : inv s → saves_settled s = true → agrees (stored s) (baseline s).
Proof using Hx0. intros [_ -> -> Hen Hpol _ _] Hs. by apply settled_agrees; [apply agrees_start| | |]. Qed.

Lemma settled_recorded l i r :
  l !! i = Some r → is_review r = false → served r = Some true → ended r = Some Recorded →
  (∀ j r', i < j → l !! j = Some r' → is_review r' = true) → settled_from (reverse l) = true.
Proof.
  intros Hi Hr Hs He Hl. apply list_elem_of_split_length in Hi as (l1 & l2 & -> & Hlen). rewrite reverse_app, reverse_cons, <- app_assoc.
  assert (Hrev : Forall (λ r, is_review r = true) (reverse l2)).
  { apply Forall_reverse, Forall_forall. intros r' [j Hj]%list_elem_of_lookup. apply (Hl (S (i + j))); [lia|].
    rewrite lookup_app_r by lia. by replace (S (i + j) - length l1) with (S j) by lia. }
  induction Hrev as [|r' l' Hr' _ IH]; cbn; [by rewrite Hr, Hs, He|by rewrite Hr'].
Qed.

Lemma recorded_kept i r s seq p silent create :
  sent s !! i = Some r → ended r = None → inv s → r_kind r = Put seq p silent create → served r = Some true → sequence s = Some seq →
  kept_on_server (end_request i Recorded { s with baseline := Some p }).
Proof using Hx0.
  intros Hi He H Hk Hs Es. destruct (waiting_put i r s Hi He H seq p silent create Hk) as (_ & _ & H3). destruct (H3 Es) as (Hlater & pg & Hpg & Hv).
  pose proof (inv_put_recorded i r s Hi He H seq p silent create Hk Hs Es) as H'.
  assert (Hset : saves_settled (end_request i Recorded { s with baseline := Some p }) = true).
  { unfold saves_settled. apply (settled_recorded _ i { r with ended := Some Recorded }); try done.
    - change (alter (λ r : request, { r with ended := Some Recorded }) i (sent s) !! i = Some { r with ended := Some Recorded }).
      by rewrite list_lookup_alter_eq, Hi.
    - unfold is_review. cbn. by rewrite Hk.
    - intros j r' Hj (q & Hj' & _ & <- & _)%ended_lookup. by eapply Hlater. }
  destruct (inv_settled _ H' Hset p eq_refl) as (x & Hx & Hh). by exists pg, p, x.
Qed.

Lemma skipped_kept r (create : bool) orig s (s' : entry) :
  inv s → saves_settled s = true → baseline s = Some orig → same_json orig r = true → shown s' = Some r → stored s' = stored s → kept_on_server s'.
Proof using Hx0.
  intros H Hset Hb ->%same_json_true Hs Hst. destruct (inv_settled s H Hset r Hb) as (x & Hx & Hh). exists r, r, x. by rewrite Hst.
Qed.

Definition from_server (e : event) : Prop := match e with Answered _ => True | _ => False end.

Lemma answered_says i r s ok a :
  sent s !! i = Some r → ended r = None → served r = Some ok → inv s →
  (∃ l, alerts (answered i (r_kind r) ok s) = alerts s ++ l ∧ a ∈ l) →
  match a with
  | Saved | Created => kept_on_server (answered i (r_kind r) ok s)
  | Deleted => shown (answered i (r_kind r) ok s) = None ∧ stored (answered i (r_kind r) ok s) = None
  | _ => True
  end.
Proof using Hx0.
  intros Hi He Hs H Ha. destruct (r_kind r) as [seq p silent create|policy|] eqn:Hk; cbn [answered] in *.
  - unfold put_answered in *. destruct (bool_decide (sequence s = Some seq)) eqn:Es; cbn [negb] in *.
    + apply bool_decide_eq_true in Es. destruct ok.
      * pose proof (recorded_kept i r s seq p silent create Hi He H Hk Hs Es) as Hkept. cbv zeta in *.
        assert (Hk' : kept_on_server (creation_ended create true (if silent then end_request i Recorded { s with baseline := Some p } else tell Saved (end_request i Recorded { s with baseline := Some p })))).
        { destruct Hkept as (pg & q & x & ?). exists pg, q, x. by destruct create, silent. }
        destruct a; try done. exfalso. apply (says_inv s _ ((if silent then [] else [Saved]) ++ (if create then [Created] else []))) in Ha.
        -- destruct create, silent; set_solver.
        -- destruct create, silent; cbn; rewrite <- ?app_assoc, ?app_nil_r; done.
      * apply (says_inv s _ [Save_failed]) in Ha as ->%list_elem_of_singleton; [done|]. by destruct create.
    + apply bool_decide_eq_false in Es. destruct (waiting_put i r s Hi He H seq p silent create Hk) as (_ & H2 & _).
      destruct create; [by destruct Es; apply H2|]. by apply says_nothing in Ha.
  - destruct ok; cbn in Ha; destruct Ha as (l & <-%app_inv_head & ->%list_elem_of_singleton); done.
  - destruct ok; cbn in Ha; destruct Ha as (l & <-%app_inv_head & ->%list_elem_of_singleton); [|done].
    split; [done|]. pose proof (inv_deleted i r s Hi He H Hk Hs) as H'.
    destruct (inv_block s H i r Hi (blocks_delete i r s Hi He H Hk)) as [Hlen _]. cbn. rewrite (inv_stored s H).
    apply list_elem_of_split_length in Hi as (l1 & l2 & E & Hl). rewrite E in Hlen |- *. rewrite length_app in Hlen. cbn in Hlen.
    destruct l2; [|cbn in Hlen; lia]. rewrite foldl_app. cbn. unfold serve_effect at 1. by rewrite Hs, Hk.
Qed.
End invariant.

(** ** A save that is reported is kept *)

(** *** The switches of a Maven repository *)

Definition flags (reviews : bool) : list jsstring :=
  if reviews then [js "require_gpg_signature"] else [js "require_gpg_signature"; js "allow_redeployment"].
Definition switches (reviews : bool) : list jsstring := js "format" :: js "visibility" :: flags reviews.

(** A page of a Maven repository: its layout, its visibility and its switches. *)
Definition maven_page (reviews : bool) (r : repo) : Prop :=
  (∃ f, assoc r (js "format") = Some (JStr f) ∧ f ∈ [js "maven"; js "maven-classic"]) ∧
  (∃ v, assoc r (js "visibility") = Some (JStr v) ∧ v ∈ [js "PUBLIC"; js "HIDDEN"; js "PRIVATE"]) ∧
  ∀ k, k ∈ flags reviews → ∃ b, assoc r k = Some (JBool b).

Lemma elem_switches reviews k : k ∈ switches reviews → k = js "format" ∨ k = js "visibility" ∨ k ∈ flags reviews.
Proof. unfold switches. rewrite !elem_of_cons. tauto. Qed.

Lemma elem_flags reviews k : k ∈ flags reviews → k = js "require_gpg_signature" ∨ k = js "allow_redeployment" ∧ reviews = false.
Proof. unfold flags. destruct reviews; rewrite !elem_of_cons, elem_of_nil; tauto. Qed.

Lemma switch_comparable reviews r k : k ∈ switches reviews → assoc (comparable reviews r) k = assoc r k.
Proof.
  intros Hk. assert (Hk' : k = js "format" ∨ k = js "visibility" ∨ k = js "require_gpg_signature" ∨ k = js "allow_redeployment" ∧ reviews = false).
  { apply elem_switches in Hk as [?|[?|Hk%elem_flags]]; tauto. }
  clear Hk. unfold comparable. cbv zeta. rewrite with_s3_eq.
  assert (Hd : ∀ r, assoc (if match assoc r (js "s3") with Some v => truthy_val v | None => false end then r else set_key r (js "s3") (JObj s3_default)) k = assoc r k).
  { intros r'. split_if; [done|]. rewrite assoc_set_key. by destruct Hk' as [->|[->|[->|[-> _]]]]. }
  rewrite Hd. destruct Hk' as [->|[->|[->|[-> ->]]]]; [destruct reviews..|]; by rewrite !assoc_delete_key.
Qed.

Lemma assoc_set_prop a v (r : repo) b : assoc (set_prop a v r) (js b) = if eqs (js a) (js b) then Some v else assoc r (js b).
Proof. apply assoc_set_key. Qed.
Lemma assoc_set_prop' a v (r : repo) k : assoc (set_prop a v r) k = if eqs (js a) k then Some v else assoc r k.
Proof. apply assoc_set_key. Qed.

Section runs.
Context (wire : repo → repo) (today : jsstring).

(** Reviews of publications were on when the page was loaded, or a request set a policy. *)
Definition reviews_used (x0 : option server_repo) (s : entry) : bool :=
  match x0 with Some x => negb (eqs (review x) off) | None => false end
  || existsb (λ r, match r_kind r with Review policy => negb (eqs policy off) | _ => false end) (sent s).

Lemma kinds_alter (g : request → request) (i : nat) (l : list request) : (∀ r, r_kind (g r) = r_kind r) → r_kind <$> alter g i l = r_kind <$> l.
Proof. intros Hg. revert i. induction l as [|r l IH]; intros [|i]; cbn; [done|done|by rewrite Hg|]. f_equal. apply IH. Qed.

Lemma kinds_kept e s : (r_kind <$> sent s) `prefix_of` (r_kind <$> sent (exec wire today e s)).
Proof.
  assert (Hsave : ∀ b r silent create s, (r_kind <$> sent s) `prefix_of` (r_kind <$> sent (saveRepoSettings r silent create { s with shown := b }))).
  { intros b r silent create s'. unfold saveRepoSettings. cbn. destruct (baseline s') as [orig|]; [|cbn; rewrite fmap_app; by apply prefix_app_r].
    destruct (negb create && _); [by destruct silent|]. cbn. rewrite fmap_app. by apply prefix_app_r. }
  assert (Hend : ∀ i o s, r_kind <$> sent (end_request i o s) = r_kind <$> sent s) by (intros i o s'; by apply kinds_alter).
  assert (Hcr : ∀ create ok s, sent (creation_ended create ok s) = sent s) by by intros [] [] ?.
  destruct e as [e| |draft| |policy|i ok|i|i]; cbn [exec].
  - destruct (shown s ≫= apply_edit e) as [r|]; [|done]. apply Hsave.
  - done.
  - apply Hsave.
  - cbn. rewrite fmap_app. by apply prefix_app_r.
  - cbn. rewrite fmap_app. by apply prefix_app_r.
  - destruct (sent s !! i) as [r|]; [|done]. destruct (served r); [done|]. cbn. by rewrite kinds_alter.
  - destruct (sent s !! i) as [r|]; [|done]. destruct (ended r); [done|]. destruct (served r) as [ok|]; [|done].
    destruct (r_kind r) as [seq p silent create|policy|]; cbn [answered]; [|by destruct ok; cbn; rewrite kinds_alter..].
    unfold put_answered. destruct (negb _); rewrite ?Hcr; [by rewrite Hend|]. destruct ok; rewrite Hcr; [|cbn; by rewrite kinds_alter]. destruct silent; cbn; by rewrite kinds_alter.
  - destruct (sent s !! i) as [r|]; [|done]. destruct (ended r); [done|].
    destruct (r_kind r) as [seq p silent create|policy|]; cbn [lost]; [|by cbn; rewrite kinds_alter..]. rewrite Hcr. destruct (bool_decide _); cbn; by rewrite kinds_alter.
Qed.

Lemma reviews_monotone x0 e s : reviews_used x0 (exec wire today e s) = false → reviews_used x0 s = false.
Proof.
  unfold reviews_used. rewrite !orb_false_iff, !existsb_none. intros [H0 H]. split; [done|]. intros r Hr.
  assert (Hk : r_kind r ∈ r_kind <$> sent (exec wire today e s)) by (eapply elem_of_prefix, kinds_kept; by apply list_elem_of_fmap_2).
  apply list_elem_of_fmap in Hk as (r' & -> & Hr'). by apply H.
Qed.

Lemma inv_reached reviews statistics x0 s :
  rtc (step wire today) (start statistics x0) s → (reviews = false → reviews_used x0 s = false) →
  (∀ x, x0 = Some x → policy_ok reviews (review x)) ∧ inv wire today reviews statistics x0 s.
Proof.
  intros Hr Hu.
  assert (H0 : ∀ x, x0 = Some x → policy_ok reviews (review x)).
  { intros x -> E. specialize (Hu E). unfold reviews_used in Hu. apply orb_false_iff in Hu as [Hu _]. by apply negb_false_iff, eqs_true in Hu. }
  split; [done|]. revert s Hr Hu. refine (rtc_ind_r _ _ _ _); [intros _; apply inv_start|]. intros s s' Hr Hs IH Hu.
  destruct Hs as [e Hal]. apply inv_exec; [done|done| |].
  - destruct e as [| | | |policy| | |]; try done. intros E. specialize (Hu E). unfold reviews_used in Hu. apply orb_false_iff in Hu as [_ Hu].
    rewrite existsb_none in Hu. specialize (Hu {| r_kind := Review policy; served := None; ended := None |}). cbn in Hu.
    apply eqs_true, negb_false_iff, Hu. rewrite elem_of_app. right. by apply list_elem_of_singleton.
  - apply IH. intros E. by eapply reviews_monotone, Hu.
Qed.

(** The messages carry the texts and the switches they have fields for. *)
Definition wire_keeps : Prop :=
  ∀ r k v, k ∈ js <$> ["format"; "visibility"; "allow_redeployment"; "require_gpg_signature"]%stdpp →
    (∃ s, v = JStr s) ∨ (∃ b, v = JBool b) → assoc r k = Some v → assoc (wire r) k = Some v.

(** What was sent for a Maven repository is what the server keeps of its switches. *)
Lemma put_keeps reviews existing r k :
  wire_keeps → maven_page reviews r → k ∈ switches reviews → assoc (put_settings wire today existing r) k = assoc r k.
Proof.
  intros Hw ((f & Ef & Hf) & (v & Ev & Hv) & Hb) Hk.
  assert (Wf : assoc (wire r) (js "format") = Some (JStr f)) by (apply Hw; [by left|by left; exists f|done]).
  assert (Wv : assoc (wire r) (js "visibility") = Some (JStr v)) by (apply Hw; [by right; left|by left; exists v|done]).
  assert (Wb : ∀ k, k ∈ flags reviews → assoc (wire r) k = assoc r k).
  { intros k' Hk'. destruct (Hb k' Hk') as [b Eb]. rewrite Eb. apply Hw; [|by right; exists b|done].
    apply elem_flags in Hk' as [->|[-> _]]; [by do 3 right; left|by do 2 right; left]. }
  clear Hw Hb. unfold put_settings. cbv zeta. revert Wf Wv Wb. generalize (wire r). intros w Wf Wv Wb.
  assert (Hreq : text_of "format" (ToRepository today w) = f).
  { unfold ToRepository, text_of. rewrite !assoc_set_prop. cbn match. rewrite Wf. revert Hf. rewrite !elem_of_cons, elem_of_nil. by intros [->|[->|[]]]. }
  assert (Hfields : assoc (ToRepository today w) (js "visibility") = Some (JStr v) ∧ ∀ k, k ∈ flags reviews → assoc (ToRepository today w) k = assoc r k).
  { unfold ToRepository. split; [by rewrite !assoc_set_prop|]. intros k' Hk'. rewrite <- (Wb k' Hk'), !assoc_set_prop'. by apply elem_flags in Hk' as [->|[-> _]]. }
  rewrite Hreq. destruct Hfields as (Fv & Fb). revert Fv Fb. generalize (ToRepository today w). intros t Fv Fb.
  assert (Hc : truthy f = true ∧ eqs f "cargo" = false ∧ eqs f "npm" = false ∧ eqs f "files" = false).
  { revert Hf. rewrite !elem_of_cons, elem_of_nil. by intros [->|[->|[]]]. }
  destruct Hc as (-> & -> & -> & ->). cbn [orb].
  assert (Hvis : toUpperCase (TrimSpace (text_of "visibility" (set_prop "format" (JStr f) t))) = v).
  { unfold text_of. rewrite assoc_set_prop. cbn match. rewrite Fv. revert Hv. rewrite !elem_of_cons, elem_of_nil. by intros [->|[->|[->|[]]]]. }
  rewrite Hvis. match goal with |- context [mirrors_of ?x] => generalize (mirrors_of x) end. intros ms.
  set (R := set_prop "mirrors" _ _).
  assert (HR : assoc R k = assoc r k).
  { subst R. rewrite !assoc_set_prop'. apply elem_switches in Hk as [->|[->|Hk]]; [by rewrite Ef|by rewrite Ev|].
    rewrite <- (Fb k Hk). by apply elem_flags in Hk as [->|[-> _]]. }
  assert (Hs3 : k ≠ js "s3") by (apply elem_switches in Hk as [->|[->|[->|[-> _]]%elem_flags]]; done).
  destruct (assoc R (js "s3")) as [[]|]; try done. unfold set_prop. rewrite assoc_set_key.
  assert (eqs (js "s3") k = false) as ->; [|done]. apply not_true_iff_false. rewrite eqs_true. congruence.
Qed.

(** The server holds the switches that the page shows. *)
Definition same_switches (reviews : bool) (s : entry) : Prop :=
  ∀ pg x k, shown s = Some pg → stored s = Some x → maven_page reviews pg → k ∈ switches reviews → assoc (settings x) k = assoc pg k.

Lemma kept_switches reviews s : wire_keeps → kept_on_server wire today reviews s → same_switches reviews s.
Proof.
  intros Hw (pg & p & x & Hs & Hst & Hpg & Hh) pg' x' k Hs' Hst' Hm Hk. simplify_eq.
  assert (Hp : ∀ k, k ∈ switches reviews → assoc p k = assoc pg k) by (intros k' Hk'; by rewrite <- (switch_comparable reviews p k' Hk'), <- (switch_comparable reviews pg k' Hk'), Hpg).
  rewrite <- (Hp k Hk), <- (switch_comparable reviews (settings x) k Hk). destruct Hh as [->|[existing ->]]; rewrite switch_comparable by done; [done|].
  apply (put_keeps reviews); [done| |done]. destruct Hm as ((f & Ef & Hf) & (v & Ev & Hv) & Hb). split_and!.
  - exists f. by rewrite Hp by left.
  - exists v. by rewrite Hp by (right; left).
  - intros k' Hk'. rewrite Hp by (by do 2 right). by apply Hb.
Qed.
End runs.

(** C6: while the requests of a repository are handled in order, and nothing else is done to it during its creation or removal: when
    the answer of a save reports it, or when a repository is created, the server holds the settings that the page shows, or
    what its handler makes of them; of a Maven repository it holds the very layout, visibility and requirement of
    signatures. The permission of redeployment is among them if reviews of publications were never on, which forbid it on the server.
    When a save is skipped because nothing changed, the same holds if the latest save that was not refused had been recorded. When a
    removal is reported the repository is gone from the page and from the server. *)
Theorem repository_saved wire today statistics x0 s e a :
  wire_keeps wire → rtc (step wire today) (start statistics x0) s → allowed e s = true → says wire today e s a →
  match a with
  | Saved | Created => from_server e ∨ saves_settled s = true →
      kept_on_server wire today (reviews_used x0 s) (exec wire today e s) ∧ same_switches (reviews_used x0 s) (exec wire today e s)
  | Deleted => shown (exec wire today e s) = None ∧ stored (exec wire today e s) = None
  | _ => True
  end.
Proof.
  intros Hw Hr Hal Ha. set (reviews := reviews_used x0 s). destruct (inv_reached wire today reviews statistics x0 s Hr) as [H0 H]; [done|]. clearbody reviews.
  cut (match a with
       | Saved | Created => from_server e ∨ saves_settled s = true → kept_on_server wire today reviews (exec wire today e s)
       | Deleted => shown (exec wire today e s) = None ∧ stored (exec wire today e s) = None
       | _ => True
       end).
  { destruct a; try done; intros Hk He; (split; [by apply Hk|]); eapply kept_switches; eauto. }
  unfold says in Ha. destruct e as [e| |draft| |policy|i ok|i|i]; cbn [exec] in *; try by apply says_nothing in Ha.
  - destruct (shown s ≫= apply_edit e) as [r|]; [|by apply says_nothing in Ha]. unfold saveRepoSettings in *. cbn in *.
    destruct (baseline s) as [orig|] eqn:Eb; [|by apply says_nothing in Ha]. destruct (same_json orig r) eqn:Ej; [|by apply says_nothing in Ha].
    destruct Ha as (l & <-%app_inv_head & ->%list_elem_of_singleton). intros [[]|Hset].
    by eapply (skipped_kept wire today reviews statistics x0 H0 r false orig s).
  - unfold saveRepoSettings in Ha. cbn in Ha. destruct (baseline s); by apply says_nothing in Ha.
  - destruct (sent s !! i) as [r|]; [|by apply says_nothing in Ha]. destruct (served r); by apply says_nothing in Ha.
  - destruct (sent s !! i) as [r|] eqn:Hi; [|by apply says_nothing in Ha]. destruct (ended r) eqn:He; [by apply says_nothing in Ha|].
    destruct (served r) as [ok|] eqn:Hs; [|by apply says_nothing in Ha]. pose proof (answered_says wire today reviews statistics x0 H0 i r s ok a Hi He Hs H Ha). by destruct a.
  - destruct (sent s !! i) as [r|] eqn:Hi; [|by apply says_nothing in Ha]. destruct (ended r) eqn:He; [by apply says_nothing in Ha|].
    assert (Hl : ∃ l, alerts (lost i (r_kind r) s) = alerts s ++ l ∧ Forall (λ b, b ∉ [Saved; Created; Deleted]) l).
    { exists (match r_kind r with
              | Put seq _ _ _ => if bool_decide (sequence s = Some seq) then [Save_failed] else [] | Review _ => [Review_failed] | Delete => [Delete_failed] end).
      destruct (r_kind r) as [seq p silent create|policy|]; cbn; [|split; [done|repeat constructor; set_solver]..].
      destruct (bool_decide _), create; cbn; (split; [by rewrite ?app_nil_r|repeat constructor; set_solver]). }
    destruct Hl as (l & El & Hl). apply (says_inv _ _ l) in Ha; [|done]. rewrite Forall_forall in Hl. specialize (Hl a Ha). destruct a; set_solver.
Qed.

(** ** The list, the names and the rules *)

(** The pages show every name once, in order. *)
Lemma pages_show_all l size : 0 < size →
  mjoin ((λ i, names (paginateRepositoryNames l i size)) <$> seq 0 (pages (paginateRepositoryNames l 0 size))) = l.
Proof.
  intros Hs. unfold paginateRepositoryNames. rewrite (proj2 (Nat.eqb_neq _ _)) by lia. cbn [names pages].
  set (n := Nat.max 1 ((length l + (size - 1)) / size)).
  assert (Hn : length l ≤ n * size).
  { pose proof (Nat.div_mod (length l + (size - 1)) size ltac:(lia)). pose proof (Nat.mod_upper_bound (length l + (size - 1)) size ltac:(lia)). nia. }
  assert (Hk : ∀ k, k ≤ n → mjoin ((λ i, take size (drop (Nat.min i (n - 1) * size) l)) <$> seq 0 k) = take (k * size) l).
  { intros k. induction k as [|k IH]; intros Hk; [done|]. rewrite seq_S, fmap_app, join_app, IH by lia. cbn [Nat.add fmap list_fmap mjoin list_join].
    rewrite app_nil_r, Nat.min_l by lia. replace (S k * size) with (k * size + size) by lia. by rewrite take_take_drop. }
  rewrite Hk by lia. by apply take_ge.
Qed.

(** Names stay distinct, whatever their case, and the draft of a name is a valid one. *)
Lemma created_name configured value format name draft :
  submitRepositoryCreation configured value format = Draft name draft → NoDup (toLowerCase <$> configured) →
  NoDup (toLowerCase <$> (configured ++ [name])) ∧ isValidRepositorySlug (JStr name) = true ∧ name = trim value.
Proof.
  unfold submitRepositoryCreation. destruct (isValidRepositorySlug _) eqn:Ev; [|done]. cbn [negb]. destruct (existsb _ _) eqn:Ex; [done|].
  intros [= <- <-] Hd. split_and!; try done. rewrite fmap_app. apply NoDup_app. split_and!; [done| |apply NoDup_singleton].
  intros x (n & -> & Hn)%list_elem_of_fmap. cbn. rewrite list_elem_of_singleton. intros E. rewrite existsb_none in Ex. specialize (Ex n Hn).
  by rewrite E, eqs_refl in Ex.
Qed.

(** The select shows the method that was chosen with it. *)
Lemma method_kept m e login password mirror :
  e = Auth_method m login password → shown_method (apply_mirror_edit e mirror ≫= (λ r, assoc r (js "authorization"))) = m.
Proof.
  intros ->. destruct m; cbn [apply_mirror_edit]; unfold set_prop; cbn [mbind option_bind]; rewrite ?assoc_set_key, ?assoc_delete_key, eqs_refl; by vm_compute.
Qed.

(** Rules are trimmed, not empty, and free of separators when they are added; they stay distinct; the mirror has those that are shown. *)
Definition well_formed_tags (s : tag_list) : Prop := NoDup (items s) ∧ rules s = items s.

Lemma add_parts_added l b ps : (foldl add_part (l, true, b) ps).1.2 = true.
Proof. revert l b. induction ps as [|p ps IH]; intros l b; [done|]. cbn [foldl add_part]. destruct (bool_decide _); apply IH. Qed.

Lemma add_parts l b1 b2 ps : NoDup l →
  NoDup (foldl add_part (l, b1, b2) ps).1.1 ∧ ((foldl add_part (l, b1, b2) ps).1.2 = false → (foldl add_part (l, b1, b2) ps).1.1 = l).
Proof.
  revert l b1 b2. induction ps as [|p ps IH]; intros l b1 b2 Hl; [done|]. cbn [foldl add_part]. destruct (bool_decide (p ∈ l)) eqn:E; [by apply IH|].
  apply bool_decide_eq_false in E. assert (NoDup (l ++ [p])) by (apply NoDup_app; split_and!; [done|set_solver|apply NoDup_singleton]).
  split; [by apply IH|]. by rewrite add_parts_added.
Qed.

Lemma add_well_formed raw s : well_formed_tags s → well_formed_tags (addItemsFromRaw raw s).
Proof.
  intros [Hd Hr]. unfold addItemsFromRaw. cbv zeta. split_if; [done|]. pose proof (add_parts (items s) false false (parts_of raw) Hd) as [H1 _].
  change (items { s with error := false }) with (items s). destruct (foldl add_part _ _) as [[l added] duplicate]. cbn in H1.
  destruct added; [done|]. by destruct duplicate.
Qed.

Lemma tags_well_formed l es : NoDup l → well_formed_tags (foldl (flip tag_step) (tags l) es).
Proof.
  intros Hl. induction es as [|e es IH] using rev_ind; [done|]. rewrite foldl_app. cbn [foldl flip]. set (s := foldl _ _ es) in *. clearbody s.
  pose proof IH as [Hd Hr]. destruct e; cbn [tag_step]; try done; try by apply add_well_formed.
  - split_if; [|done]. split; [|done]. change (NoDup (removelast (items s))). destruct (items s) as [|x k] using rev_ind; [done|].
    rewrite removelast_last. by apply NoDup_app in Hd as [? _].
  - split_if; [by apply add_well_formed|done].
  - by split_if.
  - destruct (leaving s) as [|i rest]; [done|]. split; [|done]. change (NoDup (delete i (items s))). eapply sublist_NoDup; [exact Hd|]. apply sublist_delete.
  - split_if; [|done]. split; [constructor|done].
Qed.

(** A single removal removes the rule whose chip was clicked. *)
Lemma chip_removed i x s : leaving s = [] → items s !! i = Some x → well_formed_tags s →
  let s' := tag_step Chip_gone (tag_step (Chip_clicked i) s) in rules s' = items s' ∧ ∀ y, y ∈ rules s' ↔ y ∈ rules s ∧ y ≠ x.
Proof.
  intros Hl Hi [Hd Hr]. cbn [tag_step]. rewrite (proj2 (Nat.ltb_lt _ _)) by by eapply lookup_lt_Some. cbn. rewrite Hl. cbn. split; [done|].
  intros y. rewrite Hr. apply list_elem_of_split_length in Hi as (l1 & l2 & E & ->). rewrite E in Hd |- *. rewrite delete_middle.
  apply NoDup_app in Hd as (H1 & H2 & [H3 H4]%NoDup_cons). rewrite !elem_of_app, elem_of_cons. split; [|naive_solver].
  intros Hy. split; [naive_solver|]. intros ->. destruct Hy as [Hy|Hy]; [|done]. by eapply H2; [|left].
Qed.

(** ** Runs *)

Module Runs.

(** Messages that carry everything. *)
Definition as_sent (r : repo) : repo := r.
Definition today : jsstring := js "2026-07-01".

Definition releases : server_repo := {|
  settings := [(js "name", JStr "releases"); (js "format", JStr "maven"); (js "visibility", JStr "PUBLIC"); (js "mirrors", JArr []);
               (js "allow_redeployment", JTrue); (js "s3", JObj s3_default)];
  review := js "off" |}.

Definition opened_entry : entry := start true (Some releases).
Definition run (es : list event) : entry := foldl (flip (exec as_sent today)) opened_entry es.
Definition visibility (r : option repo) : option jsval := r ≫= (λ r, assoc r (js "visibility")).

Fixpoint allowed_run (s : entry) (es : list event) : bool :=
  match es with [] => true | e :: es => allowed e s && allowed_run (exec as_sent today e s) es end.

Lemma entry_run_reachable es : allowed_run opened_entry es = true → rtc (step as_sent today) opened_entry (run es).
Proof.
  intros H. unfold run. revert H. generalize opened_entry. induction es as [|e es IH]; intros s; cbn; [reflexivity|].
  intros [H1 H2]%andb_true_iff. eapply rtc_l; [by constructor|by apply IH].
Qed.

Definition hidden : list event := [Edited (Visibility (js "HIDDEN")); Rendered; Served 0 true].

Lemma repository_saved_witness :
  says as_sent today (Answered 0) (run hidden) Saved ∧
  kept_on_server as_sent today false (exec as_sent today (Answered 0) (run hidden)) ∧ same_switches false (exec as_sent today (Answered 0) (run hidden)) ∧
  visibility (settings <$> stored (run hidden)) = Some (JStr "HIDDEN").
Proof.
  assert (H : says as_sent today (Answered 0) (run hidden) Saved) by (exists [Saved]; split; [vm_compute; reflexivity|left]).
  split; [exact H|].
  destruct (repository_saved as_sent today true (Some releases) (run hidden) (Answered 0) Saved) as [H1 H2]; [intros r k v _ _ E; exact E| |reflexivity|exact H|left; exact I|].
  - apply entry_run_reachable. vm_compute. reflexivity.
  - split; [exact H1|]. split; [exact H2|]. vm_compute; reflexivity.
Defined.

(** A change and its reversal before the first answer: the reversal counts as no change and is not sent. The page says that it is saved and
    shows a public repository, the server keeps it hidden. *)
Definition reversed : list event := [Edited (Visibility (js "HIDDEN")); Edited (Visibility (js "PUBLIC")); Served 0 true; Answered 0].

Example reversal_lost :
  allowed_run opened_entry reversed = true ∧ alerts (run reversed) = [Saved] ∧ visibility (shown (run reversed)) = Some (JStr "PUBLIC") ∧
  visibility (settings <$> stored (run reversed)) = Some (JStr "HIDDEN") ∧ length (sent (run reversed)) = 1.
Proof. by vm_compute. Qed.

(** Reviews are switched on and off, which forbids redeployment on the server. The page allows it again: that is what was loaded, so it is
    reported as saved and not sent. *)
Definition reviewed : list event :=
  [Review_changed (js "new_packages"); Served 0 true; Answered 0; Review_changed (js "off"); Served 1 true; Answered 1; Edited (Redeployment true)].

Example redeployment_not_sent :
  allowed_run opened_entry reviewed = true ∧ alerts (run reviewed) = [Review_saved; Review_saved; Saved] ∧
  shown (run reviewed) ≫= (λ r, assoc r (js "allow_redeployment")) = Some JTrue ∧
  (settings <$> stored (run reviewed)) ≫= (λ r, assoc r (js "allow_redeployment")) = Some JFalse.
Proof. by vm_compute. Qed.

(** Two saves that the server handles in the other order: the older one is kept, and nothing tells. *)
Definition overtaken : list event :=
  [Edited (Visibility (js "HIDDEN")); Edited (Visibility (js "PRIVATE")); Served 1 true; Served 0 true; Answered 0; Answered 1].

Example older_save_kept :
  alerts (run overtaken) = [Saved] ∧ visibility (shown (run overtaken)) = Some (JStr "PRIVATE") ∧
  visibility (settings <$> stored (run overtaken)) = Some (JStr "HIDDEN").
Proof. by vm_compute. Qed.

(** A change while the repository is being removed brings it back on the server. *)
Definition changed_while_removed : list event := [Delete_confirmed; Edited (Gpg true); Served 0 true; Served 1 true; Answered 0; Answered 1].

Example removed_and_back : alerts (run changed_while_removed) = [Deleted] ∧ shown (run changed_while_removed) = None ∧ stored (run changed_while_removed) ≠ None.
Proof. by vm_compute. Qed.

(** The first two rules are removed within 140 ms: the first and the third are gone. *)
Example wrong_rule_removed :
  rules (foldl (flip tag_step) (tags (js <$> ["a"; "b"; "c"]%stdpp)) [Chip_clicked 0; Chip_clicked 1; Chip_gone; Chip_gone]) = [js "b"].
Proof. by vm_compute. Qed.
End Runs.
