(* ===== verification/Quota.v ===== *)
(** * Publication quotas

    [internal/service/frontend/renop-html/js/publication-quota.js]: the panel of what an owner has used, and the form that overrides the
    limits of a user or a team. Of the server ([internal/service/publicationquota/routes.go], [internal/database/publication_quota.go])
    the model has the bounds of an override and what clears it. *)

From S2P Require Import Prelude JsText JsValue.
From coqutil Require Import Datatypes.RecordSettersUsingExistingGetters.
Local Open Scope Z_scope.

#[local] Arguments const {E} _ _ /.
#[local] Arguments cons {A} & _ _.

Definition mebibyte : Z := 1024 * 1024.

(** [quotaURL]; [team]: the owner is a team. *)
Definition quotaURL (team : bool) (encodedKey : jsstring) : jsstring :=
  js "/api/publication-quota/" ++ (if team then js "super-teams" else js "users") ++ js "/" ++ encodedKey.

Record limits := { file_limit : Z; byte_limit : Z; publication_limit : Z; period : jsstring; unlimited : bool }.

(** [inherited]: the owner has no override. *)
Record quota_status := {
  quota : limits; inherited : bool;
  files_used : Z; files_reserved : Z; bytes_used : Z; bytes_reserved : Z; publications_used : Z; publications_reserved : Z
}.

(** ** The panel *)

(** A metric in hundredths of a per cent of its bar, rounded down; without a limit the bar is full. *)
Definition metric (used reserved limit : Z) : Z :=
  let limit := Z.max 0 limit in
  if limit =? 0 then 10000 else Z.max 0 (Z.min 10000 ((used + reserved) * 10000 / limit)).

(** ** The form *)

(** The value of a number field: a whole number, another number, or nothing, which is also the value of a text that is no number. *)
Inductive limit_value := Empty | Whole (z : Z) | Fraction.

(** [Number(value)]: [None] is no safe integer that is not negative. *)
Definition limit_of (v : limit_value) : option Z :=
  match v with
  | Empty => Some 0
  | Whole z => if (z <? 0) || (2 ^ 53 <=? z) then None else Some z
  | Fraction => None
  end.

Record quota_form := {
  form_inherited : bool; form_unlimited : bool; form_period : jsstring;
  fileInput : limit_value; byteInput : limit_value; publicationInput : limit_value
}.

(** [Math.round(bytes / mebibyte)] *)
Definition whole_mebibytes (bytes : Z) : Z := (bytes + mebibyte / 2) / mebibyte.

Definition openPublicationQuotaDialog (s : quota_status) : quota_form := {|
  form_inherited := inherited s; form_unlimited := unlimited (quota s); form_period := str_or (period (quota s)) (js "month");
  fileInput := Whole (file_limit (quota s)); byteInput := Whole (whole_mebibytes (byte_limit (quota s)));
  publicationInput := Whole (publication_limit (quota s)) |}.

Inductive limit_input := File_input | Byte_input | Publication_input.

Inductive form_event :=
  | Inherit_toggled (checked : bool) | Unlimited_toggled (checked : bool) | Period_chosen (p : jsstring) | Limit_typed (i : limit_input) (v : limit_value).

Definition activateOverride (f : quota_form) : quota_form := { f with form_inherited := false }.

(** The fields and the period are disabled while there is no limit. *)
Definition form_step (e : form_event) (f : quota_form) : quota_form :=
  match e with
  | Inherit_toggled checked => if checked then { f with form_inherited := true; form_unlimited := false } else { f with form_inherited := false }
  | Unlimited_toggled checked => { activateOverride f with form_unlimited := checked }
  | Period_chosen p => if form_unlimited f then f else activateOverride { f with form_period := p }
  | Limit_typed i v =>
      if form_unlimited f then f
      else activateOverride
             match i with
             | File_input => { f with fileInput := v }
             | Byte_input => { f with byteInput := v }
             | Publication_input => { f with publicationInput := v }
             end
  end.

(** What is sent: nothing that overrides, or an override. *)
Inductive quota_payload := Defaults | Override (q : limits).

(** The save: [None] if a limit is invalid. *)
Definition save_payload (f : quota_form) : option quota_payload :=
  if form_inherited f then Some Defaults
  else
    fileLimit ← limit_of (fileInput f);
    byteLimitMiB ← limit_of (byteInput f);
    publicationLimit ← limit_of (publicationInput f);
    Some (Override {| file_limit := fileLimit; byte_limit := byteLimitMiB * mebibyte; publication_limit := publicationLimit;
                      period := form_period f; unlimited := form_unlimited f |}).

(** ** The server *)

Definition maxQuotaFileLimit : Z := 10000000.
Definition maxQuotaByteLimit : Z := 2 ^ 50.
Definition maxQuotaPublicationLimit : Z := 1000000.

Definition ValidPublicationQuotaPeriod (p : jsstring) : bool := existsb (eqs p) (js <$> ["day"; "week"; "month"; "lifetime"]%stdpp).

Definition validateQuotaOverride (q : limits) : bool :=
  negb ((file_limit q <? 0) || (maxQuotaFileLimit <? file_limit q)) && negb ((byte_limit q <? 0) || (maxQuotaByteLimit <? byte_limit q)) &&
  negb ((publication_limit q <? 0) || (maxQuotaPublicationLimit <? publication_limit q)) && ValidPublicationQuotaPeriod (period q).

(** The override there is after a request; [None]: it is refused. *)
Definition putOwnerQuota (p : quota_payload) : option (option limits) :=
  match p with
  | Defaults => Some None
  | Override q => if validateQuotaOverride q then Some (Some q) else None
  end.

(** ** What a save does *)

Lemma whole_mebibytes_near b : 0 ≤ b → - (mebibyte / 2) ≤ whole_mebibytes b * mebibyte - b ≤ mebibyte / 2.
Proof.
  intros Hb. unfold whole_mebibytes. change (mebibyte / 2) with 524288. change mebibyte with 1048576.
  pose proof (Z.div_mod (b + 524288) 1048576 ltac:(lia)). pose proof (Z.mod_pos_bound (b + 524288) 1048576 ltac:(lia)). lia.
Qed.

Lemma whole_mebibytes_exact b : whole_mebibytes b * mebibyte = b ↔ (mebibyte | b).
Proof.
  split; [intros <-; by exists (whole_mebibytes b)|]. intros [k ->]. unfold whole_mebibytes. change (mebibyte / 2) with 524288. change mebibyte with 1048576.
  rewrite Z.add_comm, Z.div_add by lia. change (524288 / 1048576) with 0. lia.
Qed.

(** Saving what was opened: defaults stay defaults; an override that the server may have keeps everything but its bytes, which are
    rounded to whole mebibytes. *)
Lemma saved_unchanged s :
  validateQuotaOverride (quota s) = true → byte_limit (quota s) ≤ maxQuotaByteLimit - mebibyte / 2 →
  ∃ p, save_payload (openPublicationQuotaDialog s) = Some p ∧
    putOwnerQuota p = Some (if inherited s then None else Some { quota s with byte_limit := whole_mebibytes (byte_limit (quota s)) * mebibyte }).
Proof.
  unfold validateQuotaOverride. rewrite !andb_true_iff, !negb_true_iff, !orb_false_iff, !Z.ltb_ge. intros ((([Hf1 Hf2] & [Hb1 Hb2]) & [Hp1 Hp2]) & Hper) Hmax.
  assert (Hper' : str_or (period (quota s)) (js "month") = period (quota s)).
  { unfold str_or. destruct (period (quota s)); [by vm_compute in Hper|done]. }
  unfold save_payload, openPublicationQuotaDialog. cbn [form_inherited]. destruct (inherited s); [by exists Defaults|]. cbn [fileInput byteInput publicationInput limit_of].
  unfold maxQuotaFileLimit, maxQuotaByteLimit, maxQuotaPublicationLimit in *.
  pose proof (whole_mebibytes_near (byte_limit (quota s)) Hb1) as [Hw1 Hw2]. change (mebibyte / 2) with 524288 in *. unfold mebibyte in Hw1, Hw2.
  assert (0 ≤ whole_mebibytes (byte_limit (quota s))) by (unfold whole_mebibytes; apply Z.div_pos; change (mebibyte / 2) with 524288; unfold mebibyte; lia).
  rewrite !(proj2 (Z.ltb_ge _ 0)), !(proj2 (Z.leb_gt _ _)) by lia. cbn [orb mbind option_bind]. eexists. split; [done|]. cbn [putOwnerQuota].
  unfold validateQuotaOverride, maxQuotaFileLimit, maxQuotaByteLimit, maxQuotaPublicationLimit. cbn [file_limit byte_limit publication_limit period unlimited form_period form_unlimited].
  rewrite Hper', Hper. unfold mebibyte. rewrite !(proj2 (Z.ltb_ge _ _)) by lia. done.
Qed.

(** A change of a limit overrides the defaults. *)
Lemma change_overrides e f : (∀ checked, e ≠ Inherit_toggled checked) → form_unlimited f = false → form_inherited (form_step e f) = false.
Proof. intros He Hu. destruct e as [checked| |p|i v]; cbn; [by destruct (He checked)|done|by rewrite Hu|]. rewrite Hu. by destruct i. Qed.

(** Defaults are limits: there is no form that both inherits and has no limit, once it was touched. *)
Lemma inherits_limits checked f : form_inherited (form_step (Inherit_toggled checked) f) = true → form_unlimited (form_step (Inherit_toggled checked) f) = false.
Proof. by destruct checked. Qed.

Module Runs.
Definition half : quota_status := {|
  quota := {| file_limit := 600; byte_limit := 400000; publication_limit := 20; period := js "month"; unlimited := false |};
  inherited := false; files_used := 0; files_reserved := 0; bytes_used := 0; bytes_reserved := 0; publications_used := 0; publications_reserved := 0 |}.

(** A limit below half a mebibyte becomes zero when the form is saved as it was opened. *)
Example limit_lost : (save_payload (openPublicationQuotaDialog half) ≫= putOwnerQuota) = Some (Some { quota half with byte_limit := 0 }).
Proof. by vm_compute. Qed.

(** A field that is emptied, or holds what is no number, is saved as zero. *)
Example empty_is_zero : (save_payload (form_step (Limit_typed File_input Empty) (openPublicationQuotaDialog half)) ≫= putOwnerQuota) =
  Some (Some { quota half with file_limit := 0; byte_limit := 0 }).
Proof. by vm_compute. Qed.
End Runs.
