(* ===== verification/Tickets.v ===== *)
(** * Tickets: the workflow

    [internal/service/frontend/renop-html/js/tickets.js] shows a ticket with buttons for what its user may do; the server decides
    what that is when it presents the ticket ([presentTickets] of [internal/database/ticket_access.go]), and decides again when a
    button is clicked ([internal/database/ticket.go], [review.go], [review_creation.go]; [internal/service/ticket/routes.go]).
    This file has both sides: the transitions of a ticket, what is offered, and what the buttons and forms of the interface send.
    The centre that lists tickets is in [TicketCenter]. Who has an account, a role or a lock is a [directory], which may change
    between any two operations. What a decision does to a package is an event; the clock, the audit log and the notifications
    are left out. *)

From S2P Require Import Prelude JsText JsValue Auth.
From coqutil Require Import Datatypes.RecordSettersUsingExistingGetters.
Local Open Scope nat_scope.

#[local] Arguments const {E} _ _ /.
#[local] Arguments cons {A} & _ _.

(** ** Tickets *)

Inductive ticket_kind := Feedback | Suggestion | Report | Super_team_transfer | Publication | Maven_restore.
Inductive review_status := Pending | Approved | Rejected | Cancelled.
Inductive ticket_status := Unprocessed | In_progress | Processed | Closed | Completed.

#[global] Instance ticket_kind_eq : EqDecision ticket_kind. Proof. solve_decision. Defined.
#[global] Instance review_status_eq : EqDecision review_status. Proof. solve_decision. Defined.
#[global] Instance ticket_status_eq : EqDecision ticket_status. Proof. solve_decision. Defined.

(** A task with the state of its ticket; an empty id or prefix is none. *)
Record task := {
  kind : ticket_kind; repository : jsstring; creation : bool; review_team_prefix : jsstring; target_team_prefix : jsstring;
  requested_by_id : jsstring; target_user_ids : list jsstring; status : review_status; decision_reason : jsstring; decided_by_id : jsstring;
  stored_status : ticket_status; assignee_id : jsstring; admin_only : bool; escalations : nat; escalated_by_id : jsstring;
  outcome : jsstring; response : jsstring
}.

Definition is_pending (t : task) : bool := bool_decide (status t = Pending).

Definition supportTicket (t : task) : bool :=
  match kind t with Feedback | Suggestion | Report => true | _ => false end.

(** [ticketStatusExpression]: the status a ticket is shown with. *)
Definition ticketStatusExpression (t : task) : ticket_status :=
  match status t with Cancelled => Closed | Pending => stored_status t | _ => Completed end.

(** ** Accounts *)

Definition role_moderate_all (r : jsstring) : bool := eqs r "canmoderate:*".
Definition role_moderate (r : jsstring) : option jsstring := if eqs r "canmoderate:*" then None else after_prefix "canmoderate:" r.

Definition CheckModeratePermission (repoName : jsstring) (u : user) : bool :=
  IsManager u || existsb role_moderate_all (Roles u)
  || existsb (λ r, match role_moderate r with Some n => eqs n repoName | None => false end) (Roles u).

(** The accounts by id, which of them may act (neither deleted, banned nor expired), the roles in teams and the locks on teams. *)
Record directory := {
  profile : jsstring → option user; live : jsstring → bool; role_level : jsstring → jsstring → nat; team_locked : jsstring → bool
}.

Definition SuperTeamRoleManage : nat := 3.

Inductive ticket_error :=
  | Permission_denied | Invalid_request | Task_conflict | Claim_required | Occupied | Escalation_limit | Publication_active | Resource_conflict.

Definition ticketActorTx (d : directory) (id : jsstring) : result ticket_error user :=
  match profile d id with
  | Some u => if live d id then Ok u else Throw Permission_denied
  | None => Throw Permission_denied
  end.

(** Without a team every role is enough. *)
Definition requireSuperTeamRoleTx (d : directory) (prefix id : jsstring) : bool :=
  negb (truthy prefix) || negb (team_locked d prefix) && (SuperTeamRoleManage <=? role_level d prefix id).

Definition ticketHandlerTx (d : directory) (id : jsstring) (t : task) : result ticket_error user :=
  let! u := ticketActorTx d id in
  if bool_decide (kind t = Report) && (eqs id (requested_by_id t) || existsb (eqs id) (target_user_ids t)) then Throw Permission_denied
  else if admin_only t && negb (IsManager u) then Throw Permission_denied
  else if IsManager u then Ok u
  else if truthy (review_team_prefix t) && negb (supportTicket t) then
    if requireSuperTeamRoleTx d (review_team_prefix t) id then Ok u else Throw Permission_denied
  else if CheckModeratePermission (repository t) u then Ok u else Throw Permission_denied.

(** ** Texts *)

Definition LF : ascii := chr 10.
Definition CR : ascii := chr 13.
Definition TAB : ascii := chr 9.

Fixpoint newlines (s : jsstring) : jsstring :=
  match s with
  | c :: ((c' :: s'') as s') => if ascii_eqb c CR && ascii_eqb c' LF then LF :: newlines s'' else c :: newlines s'
  | _ => s
  end.

Definition normalizeTicketText (value : jsstring) (limit : nat) : option jsstring :=
  let value := TrimSpace (newlines value) in
  if negb (truthy value) || (limit <? length value) || existsb (λ c, go_control c && negb (ascii_eqb c LF || ascii_eqb c TAB)) value
  then None else Some value.

Definition NormalizeSuperTeamText (value : jsstring) (maxRunes : nat) (allowEmpty : bool) : option jsstring :=
  let value := TrimSpace value in
  if negb allowEmpty && negb (truthy value) || (maxRunes <? length value) || existsb go_control value then None else Some value.

(** ** Transitions *)

(** [TicketAction]; [Force] only comes with a claim. *)
Record ticket_action := { Action : jsstring; Force : bool; Outcome : jsstring; Response : jsstring }.

(** The check of [transitionTask] before. *)
Definition well_formed_action (a : ticket_action) : bool := negb (Force a) || eqs (Action a) "claim".

Definition unassigned (t : task) : task := { t with assignee_id := []; stored_status := Unprocessed }.

Definition claim (d : directory) (id : jsstring) (u : user) (force : bool) (t : task) : result ticket_error task :=
  let assigned := Ok { t with assignee_id := id; stored_status := In_progress } in
  if truthy (assignee_id t) then
    if eqs (assignee_id t) id || negb force || negb (IsManager u) || (3 <=? escalations t) then Throw Occupied
    else match profile d (assignee_id t) with
         | Some a => if IsManager a then Throw Occupied else assigned
         | None => Throw Permission_denied
         end
  else if admin_only t && eqs (escalated_by_id t) id then Throw Permission_denied
  else assigned.

Definition release_ticket (escalate : bool) (id : jsstring) (t : task) : result ticket_error task :=
  if negb (eqs (assignee_id t) id) then Throw Claim_required
  else if 3 <=? escalations t then Throw Escalation_limit
  else Ok (unassigned (if escalate then { t with escalations := S (escalations t); admin_only := true; escalated_by_id := id } else t)).

Definition valid_outcome (k : ticket_kind) (o : jsstring) : bool :=
  match k with Report => eqs o "upheld" || eqs o "dismissed" | _ => eqs o "resolved" end.

(** [process], [complete] and [close]. *)
Definition resolve (id : jsstring) (a : ticket_action) (t : task) : result ticket_error task :=
  if negb (supportTicket t) then Throw Invalid_request
  else if negb (eqs (assignee_id t) id) then Throw Claim_required
  else match normalizeTicketText (Response a) 4096 with
       | None => Throw Invalid_request
       | Some text =>
           let close := eqs (Action a) "close" in
           let o := if close then js "closed" else Outcome a in
           if negb close && negb (valid_outcome (kind t) o) then Throw Invalid_request
           else
             let t := { t with outcome := o; response := text; stored_status := Processed } in
             if eqs (Action a) "process" then Ok t
             else Ok { t with status := if close then Cancelled else if eqs o "dismissed" then Rejected else Approved;
                              decision_reason := o; decided_by_id := id }
       end.

Definition TransitionTicket (d : directory) (id : jsstring) (a : ticket_action) (t : task) : result ticket_error task :=
  if negb (is_pending t) then Throw Task_conflict
  else
    let! u := ticketHandlerTx d id t in
    if eqs (Action a) "claim" then claim d id u (Force a) t
    else if eqs (Action a) "release" then release_ticket false id t
    else if eqs (Action a) "escalate" then release_ticket true id t
    else if existsb (eqs (Action a)) (js <$> ["process"; "complete"; "close"]%stdpp) then resolve id a t
    else Throw Invalid_request.

(** ** Decisions *)

(** The assignee of a pending ticket that is being worked on. *)
Definition requireTicketAssigneeTx (d : directory) (id : jsstring) (t : task) : result ticket_error user :=
  let! u := ticketHandlerTx d id t in
  if is_pending t && eqs (assignee_id t) id && bool_decide (stored_status t = In_progress ∨ stored_status t = Processed) then Ok u
  else Throw Claim_required.

(** The reviewer a decision needs, by the kind of the task. *)
Definition reviewer_allowed (d : directory) (id : jsstring) (u : user) (t : task) : bool :=
  match kind t with
  | Publication =>
      if truthy (review_team_prefix t) then IsManager u || requireSuperTeamRoleTx d (review_team_prefix t) id
      else CheckModeratePermission (repository t) u
  | Maven_restore => CheckModeratePermission (repository t) u
  | _ => IsManager u || requireSuperTeamRoleTx d (review_team_prefix t) id
  end.

(** What applying an approval does: it is applied, the resource is no longer as it was, or it fails. *)
Inductive application := Applied | Resource_changed | Apply_failed (e : ticket_error).

(** [settled]: the files of a publication have been there for five seconds. *)
Definition DecideReviewTask (d : directory) (id : jsstring) (approve : bool) (reason : jsstring) (settled : bool) (applied : application)
    (t : task) : result ticket_error task :=
  match NormalizeSuperTeamText reason 512 true with
  | None => Throw Invalid_request
  | Some reason =>
      if negb approve && negb (truthy reason) then Throw Invalid_request
      else if negb (is_pending t) then Throw Task_conflict
      else if supportTicket t then Throw Invalid_request
      else
        let! u := requireTicketAssigneeTx d id t in
        if negb (reviewer_allowed d id u t) then Throw Permission_denied
        else if bool_decide (kind t = Publication) && negb settled then Throw Publication_active
        else
          let t := { t with decided_by_id := id } in
          if negb approve then Ok { t with status := Rejected; decision_reason := reason }
          else if bool_decide (kind t = Publication) then Ok { t with status := Approved; decision_reason := [] }
          else match applied with
               | Applied => Ok { t with status := Approved; decision_reason := [] }
               | Resource_changed => Ok { t with status := Cancelled; decision_reason := js "resource_changed" }
               | Apply_failed e => Throw e
               end
  end.

(** The first of two reviews of a new package of npm or Docker was passed; [requester]: who asked may still create it. *)
Definition AdvancePackageCreationReview (d : directory) (id : jsstring) (settled requester : bool) (t : task) : result ticket_error task :=
  if negb (is_pending t && bool_decide (kind t = Publication) && creation t && truthy (review_team_prefix t)
           && eqs (target_team_prefix t) (review_team_prefix t)) then Throw Task_conflict
  else
    let! u := requireTicketAssigneeTx d id t in
    if negb (IsManager u) && negb (requireSuperTeamRoleTx d (review_team_prefix t) id) then Throw Permission_denied
    else if negb settled then Throw Publication_active
    else if negb requester then Throw Resource_conflict
    else Ok (unassigned { t with review_team_prefix := [] }).

Definition CancelReviewTask (d : directory) (id : jsstring) (t : task) : result ticket_error task :=
  match profile d id with
  | None => Throw Permission_denied
  | Some _ =>
      if negb (is_pending t) then Throw Task_conflict
      else if bool_decide (kind t = Publication) then Throw Invalid_request
      else if negb (eqs (requested_by_id t) id) then Throw Permission_denied
      else Ok { t with status := Cancelled; decision_reason := js "request_cancelled"; decided_by_id := id }
  end.

(** ** What is offered *)

Inductive offer := Cancel | Process | Complete | Close | Decision | Release | Escalate | Claim | Force_claim.
#[global] Instance offer_eq : EqDecision offer. Proof. solve_decision. Defined.

(** [assignee.IsManager()] of the account there is now. *)
Definition AssigneeAdmin (d : directory) (t : task) : bool :=
  match profile d (assignee_id t) with Some a => IsManager a | None => false end.

(** The offers to the handler of a ticket. *)
Definition handler_offers (d : directory) (id : jsstring) (u : user) (t : task) : list offer :=
  if eqs (assignee_id t) id then
    (if supportTicket t then [Process; Complete; Close] else [Decision]) ++ (if escalations t <? 3 then [Release; Escalate] else [])
  else if negb (truthy (assignee_id t)) && (negb (admin_only t) || negb (eqs (escalated_by_id t) id)) then [Claim]
  else if truthy (assignee_id t) && IsManager u && negb (AssigneeAdmin d t) && (escalations t <? 3) then [Force_claim]
  else [].

(** A ticket as it is shown to its user; [Assignee], [DecidedBy] and [EscalatedBy] are hidden from who asked. *)
Record ticket_view := { shown : task; Actions : list offer; hidden : bool }.

(** [presentTickets] of one ticket; [roles] are those of a moment, without the locks on teams. *)
Definition presentTicket (d : directory) (id : jsstring) (requestedView : bool) (t : task) : result ticket_error ticket_view :=
  let! user := ticketActorTx d id in
  if bool_decide (kind t = Report) && existsb (eqs id) (target_user_ids t) then Throw Permission_denied
  else
    let requester := eqs (requested_by_id t) id in
    let team := negb (IsManager user) && negb requestedView && (SuperTeamRoleManage <=? role_level d (review_team_prefix t) id) in
    let staff := negb requestedView && (CheckModeratePermission (repository t) user || truthy (review_team_prefix t) && team) in
    if negb requester && negb staff then Throw Permission_denied
    else
      let handler := staff && (negb (admin_only t) || IsManager user) && (negb (truthy (review_team_prefix t)) || IsManager user || team) in
      Ok {| shown := t; hidden := requester || negb staff;
            Actions := if negb (is_pending t) then []
                       else (if requester && negb (bool_decide (kind t = Publication)) then [Cancel] else [])
                            ++ (if handler && (negb requester || negb (supportTicket t)) then handler_offers d id user t else []) |}.

Definition GetTicket (d : directory) (id : jsstring) (t : task) : result ticket_error ticket_view := presentTicket d id false t.

(** The check of [decideTask] before the decision of a request. *)
Definition decision_checked (v : ticket_view) : result ticket_error () :=
  if negb (is_pending (shown v)) then Throw Task_conflict
  else if bool_decide (Decision ∈ Actions v) then Ok ()
  else if negb (truthy (if hidden v then [] else assignee_id (shown v))) && negb (bool_decide (Claim ∈ Actions v)) then Throw Permission_denied
  else Throw Claim_required.

(** [decideTask] of a task that is no publication. *)
Definition decideTask (d : directory) (id : jsstring) (approve : bool) (reason : jsstring) (applied : application) (t : task) : result ticket_error task :=
  let! v := GetTicket d id t in
  let! _ := decision_checked v in
  DecideReviewTask d id approve reason true applied t.

(** ** The interface *)

(** The buttons of a card, in their order; [detail]: the card of a single ticket, which has a callback. *)
Inductive card_button := Open_button | Offer_button (o : offer) | Bundle_button | Approve_button | Reject_button | Cancel_button.

Definition taskCard (detail : bool) (v : ticket_view) : list card_button :=
  if negb detail then [Open_button]
  else
    (Offer_button <$> List.filter (λ o, bool_decide (o ∈ Actions v)) [Claim; Force_claim; Release; Escalate; Process; Complete; Close])
    ++ (if bool_decide (kind (shown v) = Publication) && is_pending (shown v) then [Bundle_button] else [])
    ++ (if bool_decide (Decision ∈ Actions v) then [Approve_button; Reject_button] else [])
    ++ (if bool_decide (Cancel ∈ Actions v) then [Cancel_button] else []).

(** The name of an action, as in the request. *)
Definition action_name (o : offer) : jsstring :=
  js match o with
     | Claim | Force_claim => "claim" | Release => "release" | Escalate => "escalate" | Process => "process" | Complete => "complete"
     | Close => "close" | Decision => "decision" | Cancel => "cancel"
     end.

(** Claims, releases and escalations are sent at once. *)
Definition assignment_request (o : offer) : ticket_action := {|
  Action := action_name o; Force := bool_decide (o = Force_claim); Outcome := []; Response := [] |}.

(** [openResolutionDialog]: the outcome it starts with, the outcomes it offers, and what it sends. *)
Definition initial_outcome (t : task) : jsstring :=
  match kind t with Report => if eqs (outcome t) "upheld" then js "upheld" else js "dismissed" | _ => js "resolved" end.
Definition outcome_choices (o : offer) (t : task) : list jsstring :=
  if bool_decide (kind t = Report ∧ o ≠ Close) then js <$> ["dismissed"; "upheld"]%stdpp else [].

(** The form of a resolution: what was chosen, if anything, and the text in the field. *)
Record resolution := { chosen : option jsstring; text : jsstring }.

Definition openResolutionDialog (o : offer) (t : task) (r : resolution) : option ticket_action :=
  if negb (truthy (text r)) || (4096 <? length (text r)) then None
  else Some {| Action := action_name o; Force := false; Outcome := default (initial_outcome t) (chosen r); Response := trim (text r) |}.

(** [openRejectDialog]: [None] for a reason that is required and missing. *)
Definition openRejectDialog (t : task) (reasonCode : jsstring) (reason : jsstring) : option (jsstring * jsstring) :=
  if (negb (bool_decide (kind t = Publication)) || eqs reasonCode "custom") && negb (truthy (trim reason)) then None
  else Some (trim reason, if bool_decide (kind t = Publication) then reasonCode else []).

Definition reject_presets : list jsstring := js <$> ["invalid_metadata"; "quality"; "policy_violation"; "copyright"; "malware"; "custom"]%stdpp.

(** The reason on the card of a task that was rejected. *)
Inductive shown_reason := Preset (name : jsstring) | Reason (text : jsstring).
Definition card_reason (reason : jsstring) : shown_reason :=
  if startsWith reason "preset:" then Preset (drop 7 reason) else if startsWith reason "custom:" then Reason (drop 7 reason) else Reason reason.

(** [submitDecision]: the message about a decision; [pending]: the task goes on to a further review. *)
Definition decision_message (t : task) (approve pending : bool) : jsstring :=
  js match kind t with
     | Maven_restore => if approve then "maven.restoreApproved" else "maven.restoreRejected"
     | Publication =>
         if creation t then
           if approve && pending then "review.creationForwarded" else if approve then "review.creationApproved" else "review.creationRejected"
         else if approve then "review.publicationApproved" else "review.publicationRejected"
     | _ => if approve then "review.approved" else "review.rejected"
     end.

(** [publicationDecisionReason] *)
Definition publicationDecisionReason (code reason : jsstring) : option jsstring :=
  if existsb (eqs code) (js <$> ["malware"; "policy_violation"; "invalid_metadata"; "copyright"; "quality"]%stdpp) then Some (js "preset:" ++ code)
  else if eqs code "custom" then
    match NormalizeSuperTeamText reason 505 false with Some reason => Some (js "custom:" ++ reason) | None => None end
  else None.

(** [decideTask] of a publication whose approval ends in [DecideReviewTask] (new packages of npm and Docker, which need no second
    review, are reserved by functions of their own). [policy]: publications of the repository are reviewed. *)
Definition decidePublicationTask (d : directory) (id : jsstring) (approve : bool) (code reason : jsstring) (policy settled requester : bool)
    (applied : application) (t : task) : result ticket_error task :=
  let! v := GetTicket d id t in
  let! _ := decision_checked v in
  let! u := ticketActorTx d id in
  let stage := truthy (review_team_prefix t) in
  if stage && negb (creation t && eqs (target_team_prefix t) (review_team_prefix t)) then Throw Invalid_request
  else if stage && negb (IsManager u) && negb (SuperTeamRoleManage <=? role_level d (review_team_prefix t) id) then Throw Permission_denied
  else if negb stage && negb (CheckModeratePermission (repository t) u) then Throw Permission_denied
  else match (if approve then Some [] else publicationDecisionReason code reason) with
       | None => Throw Invalid_request
       | Some reason =>
           if negb settled then Throw Publication_active
           else if negb approve then DecideReviewTask d id false reason true Applied t
           else if stage && policy then AdvancePackageCreationReview d id true requester t
           else match applied with
                | Apply_failed e => Throw e
                | _ => DecideReviewTask d id true [] true Applied t
                end
       end.

(** ** Errors *)

(** [reviewError] *)
Definition reviewError (e : ticket_error) : jsstring :=
  js match e with
     | Permission_denied => "review_permission" | Invalid_request => "invalid_request" | Task_conflict => "review_decided"
     | Claim_required => "ticket_claim_required" | Occupied => "ticket_occupied" | Escalation_limit => "ticket_escalation_limit"
     | Publication_active => "publication_active" | Resource_conflict => "resource_changed"
     end.

Definition REVIEW_ERROR_KEYS : list (jsstring * jsstring) := (λ '(a, b), (js a, js b)) <$> [
  ("ticket_claim_required", "ticket.claimRequired"); ("ticket_occupied", "ticket.occupied"); ("ticket_escalation_limit", "ticket.escalationLimit");
  ("authentication_required", "review.authenticationRequired"); ("invalid_request", "review.invalidRequest");
  ("resource_changed", "review.resourceChanged"); ("review_decided", "review.alreadyDecided"); ("review_exists", "review.alreadyPending");
  ("review_failed", "review.operationFailed"); ("review_not_found", "review.notFound"); ("review_permission", "review.permissionDenied");
  ("publication_active", "review.publicationActive"); ("publication_sealed", "review.publicationSealed");
  ("review_file_not_found", "review.fileNotFound"); ("review_limit", "review.limitReached"); ("service_unavailable", "review.serviceUnavailable");
  ("super_team_mismatch", "superTeam.bindingMismatch"); ("transfer_restricted", "review.transferRestricted")]%stdpp%string.

Lemma error_has_message e : ∃ key, get REVIEW_ERROR_KEYS (reviewError e) = Own key.
Proof. destruct e; eexists; by vm_compute. Qed.

(** ** The life of a ticket *)

Inductive operation :=
  | Act (a : ticket_action) | Decide (approve : bool) (reason : jsstring) (applied : application)
  | Decide_publication (approve : bool) (code reason : jsstring) (policy settled requester : bool) (applied : application) | Withdraw.

Definition operate (d : directory) (id : jsstring) (o : operation) (t : task) : result ticket_error task :=
  match o with
  | Act a => if well_formed_action a then TransitionTicket d id a t else Throw Invalid_request
  | Decide approve reason applied => if bool_decide (kind t = Publication) then Throw Invalid_request else decideTask d id approve reason applied t
  | Decide_publication approve code reason policy settled requester applied =>
      if bool_decide (kind t = Publication) then decidePublicationTask d id approve code reason policy settled requester applied t else Throw Invalid_request
  | Withdraw => CancelReviewTask d id t
  end.

(** The team that reviews a ticket: support tickets and restorations have none, transfers have one, and a publication has one only
    for a new package of that team ([CreateOrUpdatePublicationReview]). *)
Definition team_ok (t : task) : Prop :=
  match kind t with
  | Publication => review_team_prefix t ≠ [] → creation t = true ∧ target_team_prefix t = review_team_prefix t
  | Super_team_transfer => review_team_prefix t ≠ []
  | _ => review_team_prefix t = []
  end.

(** The request of [submitDecision]: an approval sends no reason and no code, a rejection what [openRejectDialog] gives. The rest is as
    it is once the files have settled, the requester may still create the package and nothing stands in the way of applying it. *)
Definition approval : jsstring * jsstring := ([], []).
Definition submitDecision (t : task) (approve : bool) (sent : jsstring * jsstring) (policy : bool) : operation :=
  if bool_decide (kind t = Publication) then Decide_publication approve (snd sent) (fst sent) policy true true Applied
  else Decide approve (fst sent) Applied.

(** A new ticket. *)
Record created (t : task) : Prop := {
  created_pending : status t = Pending; created_unprocessed : stored_status t = Unprocessed; created_free : assignee_id t = [];
  created_open : admin_only t = false; created_calm : escalations t = 0; created_by : requested_by_id t ≠ [];
  created_team : team_ok t
}.

(** One operation of some account, whatever accounts, roles and locks there are at the time. *)
Definition step (t t' : task) : Prop := ∃ d id o, id ≠ [] ∧ operate d id o t = Ok t'.
Abbreviation reached := (reachable created step).

Record inv (t : task) : Prop := {
  inv_held : (stored_status t = Unprocessed ∧ assignee_id t = []) ∨ ((stored_status t = In_progress ∨ stored_status t = Processed) ∧ assignee_id t ≠ []);
  inv_escalated : escalations t ≤ 3 ∧ (admin_only t = true ↔ 0 < escalations t) ∧ (admin_only t = true → escalated_by_id t ≠ []);
  inv_requester : requested_by_id t ≠ [];
  inv_team : team_ok t;
  inv_answered : stored_status t = Processed → supportTicket t = true ∧ response t ≠ [] ∧ length (response t) ≤ 4096;
  inv_resolved : supportTicket t = true → status t = Approved ∨ status t = Rejected →
                 stored_status t = Processed ∧ valid_outcome (kind t) (outcome t) = true ∧ (status t = Rejected ↔ outcome t = js "dismissed");
  inv_decided : supportTicket t = false → status t = Rejected → decision_reason t ≠ []
}.

(** ** The invariant *)

Lemma new_ticket_inv t : created t → inv t.
Proof.
  intros []. split; [by left| |done|done|by rewrite created_unprocessed0|by rewrite created_pending0; intros _ [?|?]|by rewrite created_pending0].
  rewrite created_calm0, created_open0. split_and!; [lia| |done]. split; [done|lia].
Qed.

Lemma pending_status t : is_pending t = true ↔ status t = Pending.
Proof. unfold is_pending. by rewrite bool_decide_eq_true. Qed.

Lemma inv_unassigned t e b i r :
  inv t → status t = Pending → e ≤ 3 → (b = true ↔ 0 < e) → (b = true → i ≠ []) → (kind t = Publication ∧ r = [] ∨ r = review_team_prefix t) →
  inv (unassigned { t with escalations := e; admin_only := b; escalated_by_id := i; review_team_prefix := r }).
Proof.
  intros [] Hp He Hb Hi Hr. unfold unassigned. split; cbn.
  - by left.
  - done.
  - done.
  - unfold team_ok in *. cbn. destruct Hr as [[-> ->]| ->]; [done|]. done.
  - done.
  - rewrite Hp. by intros _ [?|?].
  - by rewrite Hp.
Qed.

Lemma claim_assigns d id u force t t' : claim d id u force t = Ok t' → t' = { t with assignee_id := id; stored_status := In_progress }.
Proof. unfold claim. intros Hc. by repeat case_match; simplify_eq. Qed.

Lemma inv_claim d id u force t t' : id ≠ [] → inv t → status t = Pending → claim d id u force t = Ok t' → inv t'.
Proof.
  intros Hid [] Hp ->%claim_assigns. split; cbn; try done; [right; split; [by left|done]|]. rewrite Hp. by intros _ [?|?].
Qed.

Lemma inv_release esc id t t' : id ≠ [] → inv t → status t = Pending → release_ticket esc id t = Ok t' → inv t'.
Proof.
  unfold release_ticket. intros Hid Hi Hp Hr. destruct (eqs _ _); cbn [negb] in Hr; [|done]. destruct (3 <=? escalations t) eqn:E; [done|]. apply Nat.leb_gt in E.
  injection Hr as <-. destruct esc.
  - apply (inv_unassigned t (S (escalations t)) true id (review_team_prefix t)); try done; [split; [lia|done]|by right].
  - destruct (inv_escalated t Hi) as (? & ? & ?). apply (inv_unassigned t (escalations t) (admin_only t) (escalated_by_id t) (review_team_prefix t)); try done; by right.
Qed.

Lemma normalized_text v limit s : normalizeTicketText v limit = Some s → s ≠ [] ∧ length s ≤ limit.
Proof.
  unfold normalizeTicketText. case_match; [done|]. intros [= <-]. rewrite !orb_false_iff, negb_false_iff, truthy_true, Nat.ltb_ge in *. tauto.
Qed.

Lemma inv_resolve id a t t' : id ≠ [] → inv t → status t = Pending → resolve id a t = Ok t' → inv t'.
Proof.
  intros Hid [] Hp. unfold resolve. destruct (supportTicket t) eqn:Es; [|done]. cbn [negb]. destruct (eqs (assignee_id t) id) eqn:Ea; [|done]. cbn [negb].
  apply eqs_true in Ea. destruct (normalizeTicketText _ _) as [s|] eqn:En; [|done]. apply normalized_text in En as [Hs Hl].
  set (close := eqs (Action a) "close"). set (o := if close then js "closed" else Outcome a).
  destruct (negb close && negb (valid_outcome (kind t) o)) eqn:Ev; [done|].
  assert (Hh : ((Processed = In_progress ∨ Processed = Processed) ∧ assignee_id t ≠ [])) by (rewrite Ea; auto).
  destruct (eqs (Action a) "process") eqn:Ep; intros [= <-].
  - split; cbn; try done; [by right|..]; rewrite Hp; [by intros _ [?|?]|done].
  - split; cbn; try done; [by right|..].
    + intros _. destruct close eqn:Ec; [by intros [?|?]|]. cbn [negb andb] in Ev. apply negb_false_iff in Ev. intros _. split_and!; [done|done|].
      destruct (eqs o "dismissed") eqn:Ed.
      * apply eqs_true in Ed. by rewrite Ed.
      * split; [done|]. intros ->. by rewrite eqs_refl in Ed.
    + change (supportTicket t = false → (if close then Cancelled else if eqs o "dismissed" then Rejected else Approved) = Rejected → o ≠ []). by rewrite Es.
Qed.

Lemma inv_transition d id a t t' : id ≠ [] → inv t → TransitionTicket d id a t = Ok t' → inv t'.
Proof.
  intros Hid Hi. unfold TransitionTicket. destruct (is_pending t) eqn:Ep; [|done]. apply pending_status in Ep. cbn [negb].
  intros (u & _ & H)%result_bind_Ok.
  destruct (eqs _ "claim"); [by eapply inv_claim|]. destruct (eqs _ "release"); [by eapply inv_release|].
  destruct (eqs _ "escalate"); [by eapply inv_release|]. case_match; [by eapply inv_resolve|done].
Qed.

Lemma inv_cancel d id t t' : inv t → CancelReviewTask d id t = Ok t' → inv t'.
Proof.
  intros [] H. unfold CancelReviewTask in H. destruct (profile d id); [|done]. destruct (is_pending t) eqn:Ep; [|done]. cbn [negb] in H.
  apply pending_status in Ep. repeat (case_match; [done|]). injection H as <-. split; cbn; try done. by intros _ [?|?].
Qed.

Lemma inv_decide d id approve reason settled applied t t' : inv t → DecideReviewTask d id approve reason settled applied t = Ok t' → inv t'.
Proof.
  intros [] H. unfold DecideReviewTask in H. destruct (NormalizeSuperTeamText _ _ _) as [r|]; [|done].
  destruct (negb approve && negb (truthy r)) eqn:Er; [done|]. destruct (negb (is_pending t)); [done|]. destruct (supportTicket t) eqn:Es; [done|].
  apply result_bind_Ok in H as (u & _ & H). destruct (negb (reviewer_allowed d id u t)); [done|]. destruct (bool_decide (kind t = Publication) && negb settled); [done|].
  assert (Ht' : ∃ s x, t' = { t with decided_by_id := id; status := s; decision_reason := x } ∧ (s = Rejected → x ≠ [])).
  { destruct approve; cbn [negb] in H.
    - destruct (bool_decide _); [by injection H as <-; eexists _, _|]. destruct applied; try done; injection H as <-; by eexists _, _.
    - injection H as <-. eexists _, _. split; [done|]. intros _. cbn [negb andb] in Er. by apply negb_false_iff, truthy_true in Er. }
  destruct Ht' as (s & x & -> & Hx). split; cbn; try done; [by intros [? _]%inv_answered0|].
  change (supportTicket t = true → s = Approved ∨ s = Rejected → stored_status t = Processed ∧ valid_outcome (kind t) (outcome t) = true ∧ (s = Rejected ↔ outcome t = js "dismissed")).
  by rewrite Es.
Qed.

Lemma inv_advance d id settled requester t t' : inv t → AdvancePackageCreationReview d id settled requester t = Ok t' → inv t'.
Proof.
  intros Hi H. unfold AdvancePackageCreationReview in H. case_match eqn:E; [done|]. apply negb_false_iff in E. rewrite !andb_true_iff, pending_status in E.
  destruct E as ((((Hp & Hk%bool_decide_eq_true) & _) & _) & _). apply result_bind_Ok in H as (u & _ & H). repeat (case_match; [done|]). injection H as <-.
  destruct (inv_escalated t Hi) as (? & ? & ?). apply (inv_unassigned t (escalations t) (admin_only t) (escalated_by_id t) []); try done. by left.
Qed.

Lemma decide_ok d id approve reason applied t t' :
  decideTask d id approve reason applied t = Ok t' → DecideReviewTask d id approve reason true applied t = Ok t'.
Proof. unfold decideTask. by intros (v & _ & (_ & _ & H)%result_bind_Ok)%result_bind_Ok. Qed.

Lemma decide_publication_ok d id approve code reason policy settled requester applied t t' :
  decidePublicationTask d id approve code reason policy settled requester applied t = Ok t' →
  (∃ approve reason, DecideReviewTask d id approve reason true Applied t = Ok t') ∨ AdvancePackageCreationReview d id true requester t = Ok t'.
Proof.
  unfold decidePublicationTask. intros (v & _ & (_ & _ & (u & _ & H)%result_bind_Ok)%result_bind_Ok)%result_bind_Ok.
  repeat (case_match; try done); eauto.
Qed.

Lemma ticket_step_inv t t' : inv t → step t t' → inv t'.
Proof.
  intros Hi (d & id & o & Hid & H). destruct o; cbn in H.
  - case_match; [|done]. by eapply inv_transition.
  - case_match; [done|]. by eapply inv_decide, decide_ok.
  - case_match; [|done]. apply decide_publication_ok in H as [(? & ? & H)|H]; [by eapply inv_decide|by eapply inv_advance].
  - by eapply inv_cancel.
Qed.

Lemma reached_inv t : reached t → inv t.
Proof. apply invariant_reachable; [apply new_ticket_inv|apply ticket_step_inv]. Qed.

(** ** What is offered is what is accepted *)

Lemma manager_moderates repo u : IsManager u = true → CheckModeratePermission repo u = true.
Proof. unfold CheckModeratePermission. by intros ->. Qed.

Section agreement.
Context (d : directory) (id : jsstring) (t : task) (v : ticket_view).
Hypothesis Hid : id ≠ [].
Hypothesis Ht : inv t.
Hypothesis Hlock : team_locked d (review_team_prefix t) = false.
Hypothesis Hassignee : assignee_id t ≠ [] → is_Some (profile d (assignee_id t)).
Hypothesis Hv : GetTicket d id t = Ok v.

(** A support ticket of one's own is not offered to oneself. *)
Definition own_ticket : bool := eqs (requested_by_id t) id && supportTicket t.

Lemma handler_agrees u :
  ticketActorTx d id = Ok u → bool_decide (kind t = Report) && existsb (eqs id) (target_user_ids t) = false →
  let team := negb (IsManager u) && negb false && (SuperTeamRoleManage <=? role_level d (review_team_prefix t) id) in
  let staff := negb false && (CheckModeratePermission (repository t) u || truthy (review_team_prefix t) && team) in
  own_ticket = false →
  staff && (negb (admin_only t) || IsManager u) && (negb (truthy (review_team_prefix t)) || IsManager u || team)
    = is_ok (ticketHandlerTx d id t).
Proof using Hid Ht Hlock.
  clear Hv v Hassignee. intros Hu Htarget team staff Hown. subst team staff. unfold ticketHandlerTx. rewrite Hu. cbn [result_bind negb andb].
  assert (Hreport : bool_decide (kind t = Report) && (eqs id (requested_by_id t) || existsb (eqs id) (target_user_ids t)) = false).
  { destruct (bool_decide_reflect (kind t = Report)) as [Hk|]; [|done]. cbn [andb] in Htarget |- *. rewrite Htarget, orb_false_r. apply andb_false_iff in Hown as [Hown|Hown].
    - apply not_true_iff_false. rewrite eqs_true. intros ->. by rewrite eqs_refl in Hown.
    - by rewrite (eq_refl : supportTicket t = match kind t with Feedback | Suggestion | Report => true | _ => false end), Hk in Hown. }
  rewrite Hreport. unfold requireSuperTeamRoleTx. rewrite Hlock. cbn [negb andb].
  destruct (IsManager u) eqn:Em; cbn [negb andb orb].
  - rewrite (manager_moderates _ _ Em). by destruct (admin_only t), (truthy (review_team_prefix t)).
  - destruct (admin_only t); cbn [negb andb orb]; [by rewrite andb_false_r|].
    pose proof (inv_team t Ht) as Hteam. unfold team_ok in Hteam. unfold supportTicket. destruct (truthy (review_team_prefix t)) eqn:Er; cbn [negb andb orb].
    + apply truthy_true in Er.
      destruct (kind t); try done; cbn [negb]; by destruct (SuperTeamRoleManage <=? _), (CheckModeratePermission _ _).
    + by destruct (CheckModeratePermission _ _).
Qed.

Lemma view_actions :
  ∃ u, ticketActorTx d id = Ok u ∧ shown v = t ∧
    Actions v = if negb (is_pending t) then []
                else (if eqs (requested_by_id t) id && negb (bool_decide (kind t = Publication)) then [Cancel] else [])
                     ++ (if negb own_ticket && is_ok (ticketHandlerTx d id t) then handler_offers d id u t else []).
Proof using Hid Ht Hlock Hv.
  unfold GetTicket, presentTicket in Hv. apply result_bind_Ok in Hv as (u & Hu & H). destruct (bool_decide _ && existsb _ _) eqn:Htarget; [done|].
  destruct (negb _ && negb _); [done|]. injection H as <-. exists u. split_and!; [done|done|]. cbn [Actions].
  destruct (negb (is_pending t)); [done|]. f_equal. rewrite <- negb_andb. fold own_ticket. destruct own_ticket eqn:Ho; cbn [negb andb]; [by rewrite andb_false_r|].
  rewrite andb_true_r, <- (handler_agrees u Hu Htarget Ho). done.
Qed.

Lemma offered_handler o :
  o ≠ Cancel →
  o ∈ Actions v ↔ is_pending t = true ∧ own_ticket = false ∧ ∃ u, ticketHandlerTx d id t = Ok u ∧ o ∈ handler_offers d id u t.
Proof using Hid Ht Hlock Hv.
  intros Ho. destruct view_actions as (u & Hu & _ & ->). destruct (is_pending t); cbn [negb]; [|split; [by intros ?%elem_of_nil|by intros (? & _)]].
  rewrite elem_of_app.
  assert (Hc : o ∈ (if eqs (requested_by_id t) id && negb (bool_decide (kind t = Publication)) then [Cancel] else []) ↔ False).
  { case_match; [|by rewrite elem_of_nil]. rewrite list_elem_of_singleton. done. }
  rewrite Hc. destruct own_ticket; cbn [negb andb]; [rewrite elem_of_nil; naive_solver|].
  destruct (ticketHandlerTx d id t) as [u'|e] eqn:Eh; cbn [is_ok]; [|rewrite elem_of_nil; naive_solver].
  assert (u' = u) as ->.
  { unfold ticketHandlerTx in Eh. rewrite Hu in Eh. cbn [result_bind] in Eh. repeat case_match; by simplify_eq. }
  naive_solver.
Qed.
End agreement.

Section offers.
Context (d : directory) (id : jsstring) (t : task) (v : ticket_view).
Hypothesis Hid : id ≠ [].
Hypothesis Ht : inv t.
Hypothesis Hlock : team_locked d (review_team_prefix t) = false.
Hypothesis Hassignee : assignee_id t ≠ [] → is_Some (profile d (assignee_id t)).
Hypothesis Hv : GetTicket d id t = Ok v.
Hypothesis Hown : own_ticket id t = false.

Lemma transition_ok a :
  is_ok (TransitionTicket d id a t) = true ↔
  is_pending t = true ∧ ∃ u, ticketHandlerTx d id t = Ok u ∧
    is_ok (if eqs (Action a) "claim" then claim d id u (Force a) t
           else if eqs (Action a) "release" then release_ticket false id t
           else if eqs (Action a) "escalate" then release_ticket true id t
           else if existsb (eqs (Action a)) (js <$> ["process"; "complete"; "close"]%stdpp) then resolve id a t
           else Throw Invalid_request) = true.
Proof using Type.
  unfold TransitionTicket. destruct (is_pending t); cbn [negb]; [|split; [done|by intros [? _]]].
  destruct (ticketHandlerTx d id t) as [u|e]; cbn [result_bind]; [|split; [done|by intros (_ & ? & ? & _)]].
  split; [intros H; split; [done|by exists u]|]. by intros (_ & u' & [= <-] & H).
Qed.

Lemma offered_ok o a :
  o ≠ Cancel →
  (∀ u, ticketHandlerTx d id t = Ok u → o ∈ handler_offers d id u t ↔
    is_ok (if eqs (Action a) "claim" then claim d id u (Force a) t
           else if eqs (Action a) "release" then release_ticket false id t
           else if eqs (Action a) "escalate" then release_ticket true id t
           else if existsb (eqs (Action a)) (js <$> ["process"; "complete"; "close"]%stdpp) then resolve id a t
           else Throw Invalid_request) = true) →
  o ∈ Actions v ↔ is_ok (TransitionTicket d id a t) = true.
Proof using Hid Ht Hlock Hv Hown.
  intros Ho H. rewrite transition_ok, (offered_handler d id t v) by done. split.
  - intros (Hp & _ & u & Hu & Hx). split; [done|]. exists u. split; [done|]. by apply H.
  - intros (Hp & u & Hu & Hx). split_and!; [done|done|]. exists u. split; [done|]. by apply H.
Qed.

(** The cases of [handler_offers]. *)
Lemma elem_handler_offers u o :
  o ∈ handler_offers d id u t ↔
  match o with
  | Cancel => False
  | Process | Complete | Close => assignee_id t = id ∧ supportTicket t = true
  | Decision => assignee_id t = id ∧ supportTicket t = false
  | Release | Escalate => assignee_id t = id ∧ escalations t < 3
  | Claim => assignee_id t = [] ∧ (admin_only t && eqs (escalated_by_id t) id) = false
  | Force_claim => assignee_id t ≠ [] ∧ assignee_id t ≠ id ∧ IsManager u = true ∧ AssigneeAdmin d t = false ∧ escalations t < 3
  end.
Proof using Hid.
  clear Hv Hown Hlock Hassignee Ht. unfold handler_offers. rewrite <- negb_andb. destruct (eqs (assignee_id t) id) eqn:Ea.
  - apply eqs_true in Ea. rewrite Ea, elem_of_app.
    assert (∀ o : offer, o ∈ (if escalations t <? 3 then [Release; Escalate] else []) ↔ (o = Release ∨ o = Escalate) ∧ escalations t < 3) as Hr.
    { intros o'. destruct (Nat.ltb_spec (escalations t) 3); set_solver by lia. }
    rewrite Hr. destruct (supportTicket t); destruct o; set_solver.
  - assert (assignee_id t ≠ id) by (intros E; by rewrite E, eqs_refl in Ea). clear Ea. destruct (truthy (assignee_id t)) eqn:Et; cbn [negb andb].
    + apply truthy_true in Et. destruct (IsManager u), (AssigneeAdmin d t), (Nat.ltb_spec (escalations t) 3); cbn [negb andb]; destruct o; set_solver by lia.
    + apply truthy_false in Et. destruct (admin_only t && eqs (escalated_by_id t) id); cbn [negb]; destruct o; set_solver.
Qed.

Lemma offered_assignment o :
  o ∈ [Claim; Release; Escalate] → o ∈ Actions v ↔ is_ok (TransitionTicket d id (assignment_request o) t) = true.
Proof using Hid Ht Hlock Hv Hown Hassignee.
  intros Ho. assert (o = Claim ∨ o = Release ∨ o = Escalate) as Ho' by set_solver. clear Ho.
  apply offered_ok; [by destruct Ho' as [->|[->| ->]]|]. intros u _. rewrite elem_handler_offers.
  assert (Hr : ∀ esc, is_ok (release_ticket esc id t) = true ↔ assignee_id t = id ∧ escalations t < 3).
  { intros esc. unfold release_ticket. destruct (eqs (assignee_id t) id) eqn:Ea; cbn [negb].
    - apply eqs_true in Ea. destruct (Nat.leb_spec 3 (escalations t)); cbn [is_ok]; split; try done; lia.
    - split; [done|]. intros [E _]. by rewrite E, eqs_refl in Ea. }
  destruct Ho' as [->|[->| ->]]; cbn [assignment_request Action action_name Force].
  - change (eqs (js "claim") "claim") with true. cbn match. unfold claim.
    change (bool_decide (Claim = Force_claim)) with false. cbn [negb]. rewrite orb_true_r. cbn [orb].
    destruct (truthy (assignee_id t)) eqn:Et.
    + apply truthy_true in Et. split; [by intros [? _]|done].
    + apply truthy_false in Et. destruct (admin_only t && _); cbn [is_ok]; split; [by intros [_ ?]|done|done|done].
  - apply iff_sym, Hr.
  - apply iff_sym, Hr.
Qed.

Lemma offered_force :
  Force_claim ∈ Actions v ↔ assignee_id t ≠ [] ∧ is_ok (TransitionTicket d id (assignment_request Force_claim) t) = true.
Proof using Hid Ht Hlock Hv Hown Hassignee.
  rewrite transition_ok, (offered_handler d id t v) by done. cbn [assignment_request Action action_name Force].
  change (eqs (js "claim") "claim") with true. cbn match. unfold claim. change (bool_decide (Force_claim = Force_claim)) with true. cbn [negb orb].
  setoid_rewrite elem_handler_offers.
  destruct (truthy (assignee_id t)) eqn:Et; [apply truthy_true in Et|apply truthy_false in Et; split; [intros (_ & _ & ? & _ & ? & _)|intros [? _]]; done].
  destruct (Hassignee Et) as [a Ha]. unfold AssigneeAdmin. rewrite Ha. rewrite orb_false_r.
  assert (Hm : assignee_id t = id → eqs (assignee_id t) id = true) by (intros ->; apply eqs_refl).
  split.
  - intros (Hp & _ & u & Hu & _ & Hne & Hmu & Hma & He). split_and!; [done|done|]. exists u. split; [done|].
    destruct (eqs (assignee_id t) id) eqn:Ea; [by apply eqs_true in Ea|]. rewrite Hmu, Hma. by destruct (Nat.leb_spec 3 (escalations t)); [lia|].
  - intros (_ & Hp & u & Hu & H). split_and!; [done|done|]. exists u. split; [done|]. destruct (eqs (assignee_id t) id) eqn:Ea; [done|]. cbn [orb] in H.
    destruct (IsManager u) eqn:Hmu; [|done]. cbn [negb orb] in H. destruct (Nat.leb_spec 3 (escalations t)); [done|]. destruct (IsManager a) eqn:Hma; [done|].
    split_and!; [done| |done|done|lia]. by intros E%Hm.
Qed.

Lemma offered_resolution o a :
  o ∈ [Process; Complete; Close] → Action a = action_name o → normalizeTicketText (Response a) 4096 ≠ None →
  o = Close ∨ valid_outcome (kind t) (Outcome a) = true → o ∈ Actions v ↔ is_ok (TransitionTicket d id a t) = true.
Proof using Hid Ht Hlock Hv Hown Hassignee.
  intros Ho Ha Hr Hout. assert (o = Process ∨ o = Complete ∨ o = Close) as Ho' by set_solver. clear Ho.
  apply offered_ok; [by destruct Ho' as [->|[->| ->]]|]. intros u _. rewrite elem_handler_offers, Ha.
  assert (Hres : is_ok (resolve id a t) = true ↔ assignee_id t = id ∧ supportTicket t = true).
  { unfold resolve. rewrite Ha. destruct (supportTicket t); cbn [negb]; [|split; [done|by intros [_ ?]]].
    destruct (eqs (assignee_id t) id) eqn:Ea; cbn [negb]; [|split; [done|intros [E _]; by rewrite E, eqs_refl in Ea]].
    apply eqs_true in Ea. destruct (normalizeTicketText _ _) as [s|]; [|done].
    destruct Ho' as [->|[->| ->]]; destruct Hout as [?|Hout]; try done;
      [change (eqs (action_name Process) "close") with false|change (eqs (action_name Complete) "close") with false|..];
      cbn match; cbn [negb andb]; rewrite ?Hout; cbn [negb andb]; split; done. }
  destruct Ho' as [->|[->| ->]]; apply iff_sym, Hres.
Qed.

(** Who is offered the decision works on the ticket and may review it. *)
Lemma decision_reviewer :
  Decision ∈ Actions v →
  ∃ u, is_pending t = true ∧ supportTicket t = false ∧ requireTicketAssigneeTx d id t = Ok u ∧ ticketActorTx d id = Ok u ∧ reviewer_allowed d id u t = true.
Proof using Hid Ht Hlock Hv Hown.
  intros (Hp & _ & u & Hu & Ho)%(offered_handler d id t v Hid Ht Hlock Hv); [|done]. apply elem_handler_offers in Ho as [Ha Hs].
  exists u. split_and!; [done|done| | |].
  - unfold requireTicketAssigneeTx. rewrite Hu. cbn [result_bind]. rewrite Hp, Ha, eqs_refl. cbn [andb].
    destruct (inv_held t Ht) as [[_ E]|[E _]]; [by rewrite E in Ha; subst id|]. by rewrite bool_decide_eq_true_2.
  - unfold ticketHandlerTx in Hu. apply result_bind_Ok in Hu as (u' & -> & Hu). by repeat case_match; simplify_eq.
  - unfold ticketHandlerTx in Hu. apply result_bind_Ok in Hu as (u' & _ & Hu). destruct (_ && (_ || _)); [done|].
    destruct (admin_only t && negb (IsManager u')); [done|]. pose proof (inv_team t Ht) as Hteam. unfold team_ok in Hteam.
    unfold reviewer_allowed. destruct (IsManager u') eqn:Em.
    + injection Hu as <-. rewrite Em, (manager_moderates _ _ Em). destruct (kind t); try done; by destruct (truthy _).
    + rewrite Hs in Hu. unfold supportTicket in Hs. destruct (kind t); try done; try (rewrite Hteam in Hu; cbn [truthy andb] in Hu).
      * apply truthy_true in Hteam. rewrite Hteam in Hu. cbn [negb andb] in Hu. destruct (requireSuperTeamRoleTx _ _ _); [|done]. by rewrite orb_true_r.
      * destruct (truthy (review_team_prefix t)); cbn [negb andb] in Hu; [destruct (requireSuperTeamRoleTx _ _ _); [|done]; by rewrite orb_true_r|].
        destruct (CheckModeratePermission _ u') eqn:Ec; [|done]. by injection Hu as <-.
      * destruct (CheckModeratePermission _ u') eqn:Ec; [|done]. by injection Hu as <-.
Qed.

Lemma decision_only_offered : Decision ∉ Actions v → is_ok (let! _ := decision_checked v in Ok ()) = false.
Proof using Type.
  intros Hd. unfold decision_checked. rewrite (bool_decide_eq_false_2 _ Hd). by repeat case_match.
Qed.

Lemma decision_passes : Decision ∈ Actions v → decision_checked v = Ok ().
Proof using Hid Ht Hlock Hv Hown.
  intros Hd. destruct (decision_reviewer Hd) as (_ & Hp & _). destruct (view_actions d id t v Hid Ht Hlock Hv) as (_ & _ & Hshown & _).
  unfold decision_checked. by rewrite Hshown, Hp, (bool_decide_eq_true_2 _ Hd).
Qed.

Lemma decide_accepted approve reason :
  Decision ∈ Actions v → NormalizeSuperTeamText reason 512 true = Some reason → approve = true ∨ reason ≠ [] →
  is_ok (DecideReviewTask d id approve reason true Applied t) = true.
Proof using Hid Ht Hlock Hv Hown.
  intros Hd Hn Hr. destruct (decision_reviewer Hd) as (u & Hp & Hs & Hass & _ & Hall). unfold DecideReviewTask.
  rewrite Hn, Hp, Hs, Hass. cbn [negb result_bind]. rewrite Hall. cbn [negb].
  assert (negb approve && negb (truthy reason) = false) as ->.
  { destruct Hr as [->|Hr%truthy_true]; [done|]. by rewrite Hr, andb_false_r. }
  rewrite andb_false_r. destruct approve; [by destruct (bool_decide _)|done].
Qed.

Lemma offered_decision approve reason :
  NormalizeSuperTeamText reason 512 true = Some reason → approve = true ∨ reason ≠ [] →
  Decision ∈ Actions v ↔ is_ok (decideTask d id approve reason Applied t) = true.
Proof using Hid Ht Hlock Hv Hown.
  intros Hn Hr. unfold decideTask. rewrite Hv. cbn [result_bind]. split.
  - intros Hd. rewrite (decision_passes Hd). cbn [result_bind]. by apply decide_accepted.
  - intros H. destruct (decide (Decision ∈ Actions v)) as [Hd|Hd%decision_only_offered]; [done|]. by destruct (decision_checked v).
Qed.

(** The decision of a publication whose files have settled; [code] and [reason] are those of a rejection. *)
Lemma offered_publication_decision approve code reason policy x :
  kind t = Publication →
  (approve = false → publicationDecisionReason code reason = Some x ∧ NormalizeSuperTeamText x 512 true = Some x ∧ x ≠ []) →
  Decision ∈ Actions v ↔ is_ok (decidePublicationTask d id approve code reason policy true true Applied t) = true.
Proof using Hid Ht Hlock Hv Hown.
  intros Hk Hx. unfold decidePublicationTask. rewrite Hv. cbn [result_bind]. split.
  2: { intros H. destruct (decide (Decision ∈ Actions v)) as [Hd|Hd%decision_only_offered]; [done|]. by destruct (decision_checked v). }
  intros Hd. rewrite (decision_passes Hd). cbn [result_bind]. destruct (decision_reviewer Hd) as (u & Hp & Hs & Hass & -> & Hall). cbn [result_bind].
  pose proof (inv_team t Ht) as Hteam. unfold team_ok in Hteam. unfold reviewer_allowed in Hall. rewrite Hk in Hteam, Hall.
  assert (Hrej : approve = false → is_ok (match (if approve then Some [] else publicationDecisionReason code reason) with
       | None => Throw Invalid_request
       | Some reason => DecideReviewTask d id false reason true Applied t end) = true).
  { intros ->. destruct (Hx eq_refl) as (-> & Hn & Hne). apply decide_accepted; auto. }
  assert (Happ : is_ok (DecideReviewTask d id true [] true Applied t) = true) by (apply decide_accepted; auto).
  destruct (truthy (review_team_prefix t)) eqn:Er; cbn [negb andb].
  - apply truthy_true in Er as Er'. destruct (Hteam Er') as [Hc Htar]. rewrite Hc, Htar, eqs_refl. cbn [negb andb].
    assert (negb (IsManager u) && negb (SuperTeamRoleManage <=? role_level d (review_team_prefix t) id) = false) as ->.
    { unfold requireSuperTeamRoleTx in Hall. rewrite Er, Hlock in Hall. cbn [negb andb orb] in Hall. destruct (IsManager u); [done|]. cbn [orb] in Hall. by rewrite Hall. }
    destruct approve; cbn [negb]; [|specialize (Hrej eq_refl); by destruct (publicationDecisionReason code reason)].
    destruct policy; [|done]. unfold AdvancePackageCreationReview. rewrite Hp, (bool_decide_eq_true_2 _ Hk), Hc, Er, Htar, eqs_refl, Hass. cbn [negb andb result_bind].
    destruct (IsManager u); cbn [negb andb]; [done|]. cbn [orb] in Hall. by rewrite Hall.
  - rewrite Hall. cbn [negb]. destruct approve; cbn [negb]; [done|specialize (Hrej eq_refl); by destruct (publicationDecisionReason code reason)].
Qed.

Lemma offered_cancel : Cancel ∈ Actions v ↔ is_ok (CancelReviewTask d id t) = true.
Proof using Hid Ht Hlock Hv.
  clear Hown Hassignee. destruct (view_actions d id t v Hid Ht Hlock Hv) as (u & Hu & _ & ->). unfold CancelReviewTask.
  assert (∃ p, profile d id = Some p) as [p ->] by (unfold ticketActorTx in Hu; destruct (profile d id) as [p|]; [by exists p|done]).
  destruct (is_pending t); cbn [negb]; [|by rewrite elem_of_nil].
  assert (Hno : Cancel ∉ (if negb (own_ticket id t) && is_ok (ticketHandlerTx d id t) then handler_offers d id u t else [])).
  { case_match; [|apply not_elem_of_nil]. intros Hc. by apply elem_handler_offers in Hc. }
  rewrite elem_of_app. destruct (bool_decide (kind t = Publication)); cbn [negb].
  - rewrite andb_false_r. split; [|done]. intros [?%elem_of_nil|?]; done.
  - rewrite andb_true_r. destruct (eqs (requested_by_id t) id); cbn [negb is_ok]; [set_solver|]. split; [|done]. intros [?%elem_of_nil|?]; done.
Qed.
End offers.

(** ** Texts of the forms *)

(** No control characters but line breaks and tabs: what a text area gives. *)
Definition plain (s : jsstring) : Prop := Forall (λ c, go_control c = false ∨ c = LF ∨ c = TAB) s.

Lemma go_space_plain c : go_control c = false ∨ c = LF ∨ c = TAB → go_space c = is_space c.
Proof. revert c. refine (forall_ascii _ _). vm_compute. reflexivity. Qed.

Lemma newlines_plain s : plain s → newlines s = s.
Proof.
  intros Hs. assert (Hcr : ∀ c, go_control c = false ∨ c = LF ∨ c = TAB → ascii_eqb c CR = false) by (refine (forall_ascii _ _); vm_compute; reflexivity).
  induction Hs as [|c s Hc Hs IH]; [done|]. destruct s as [|c' s]; [done|]. 
  change (newlines (c :: c' :: s)) with (if ascii_eqb c CR && ascii_eqb c' LF then LF :: newlines s else c :: newlines (c' :: s)). by rewrite (Hcr c Hc), IH.
Qed.

Lemma dropWhile_ext {A} (p q : A → bool) l : Forall (λ x, p x = q x) l → dropWhile p l = dropWhile q l.
Proof. induction 1 as [|x l Hx _ IH]; [done|]. cbn. by rewrite Hx, IH. Qed.

Lemma plain_suffix s k : k `suffix_of` s → plain s → plain k.
Proof. intros [w ->] [_ H]%Forall_app. done. Qed.

Lemma trim_Forall (P : ascii → Prop) s : Forall P s → Forall P (trim s).
Proof.
  intros Hl. unfold trim, trimEnd, trimStart. apply Forall_reverse. destruct (dropWhile_suffix is_space (reverse (dropWhile is_space s))) as [w Hw].
  destruct (dropWhile_suffix is_space s) as [w' Hw']. rewrite Hw' in Hl. apply Forall_app in Hl as [_ Hl]. apply Forall_reverse in Hl. rewrite Hw in Hl.
  by apply Forall_app in Hl as [_ Hl].
Qed.

Lemma plain_trim s : plain s → plain (trim s).
Proof. apply trim_Forall. Qed.

Lemma TrimSpace_plain s : plain s → TrimSpace s = trim s.
Proof.
  intros Hs. unfold TrimSpace, trim_by, trim, trimEnd, trimStart.
  assert (He : ∀ k, plain k → dropWhile go_space k = dropWhile is_space k).
  { intros k Hk. apply dropWhile_ext. eapply Forall_impl; [exact Hk|]. apply go_space_plain. }
  rewrite (He s Hs), He; [done|]. apply Forall_reverse. eapply plain_suffix; [apply dropWhile_suffix|done].
Qed.

Lemma trim_length s : length (trim s) ≤ length s.
Proof.
  unfold trim, trimEnd, trimStart. rewrite length_reverse. etrans; [apply suffix_length, dropWhile_suffix|]. rewrite length_reverse. apply suffix_length, dropWhile_suffix.
Qed.

(** The server takes the trimmed text of the form as it is. *)
Lemma normalize_plain s limit : plain s → trim s ≠ [] → length s ≤ limit → normalizeTicketText (trim s) limit = Some (trim s).
Proof.
  intros Hs Hne Hl. pose proof (plain_trim s Hs) as Hp. pose proof (trim_length s). unfold normalizeTicketText.
  rewrite (newlines_plain _ Hp), (TrimSpace_plain _ Hp), trim_idemp, (proj2 (truthy_true _) Hne). cbn [negb orb].
  rewrite (proj2 (Nat.ltb_ge limit (length (trim s)))) by lia. cbn [orb].
  assert (existsb (λ c, go_control c && negb (ascii_eqb c LF || ascii_eqb c TAB)) (trim s) = false) as ->; [|done].
  apply existsb_none. intros c Hc. unfold plain in Hp. rewrite Forall_forall in Hp. destruct (Hp c Hc) as [->|[->| ->]]; done.
Qed.

Lemma initial_valid t : valid_outcome (kind t) (initial_outcome t) = true.
Proof. unfold initial_outcome. destruct (kind t); try apply eqs_refl. by destruct (eqs _ _). Qed.

Lemma choice_valid o t c : c ∈ outcome_choices o t → valid_outcome (kind t) c = true.
Proof.
  unfold outcome_choices. destruct (bool_decide_reflect (kind t = Report ∧ o ≠ Close)) as [[Hk _]|]; [|by intros ?%elem_of_nil].
  rewrite Hk. intros Hc. assert (c = js "dismissed" ∨ c = js "upheld") as [->| ->] by (cbn in Hc; set_solver); done.
Qed.

(** The reason of a rejection; a line break in it is not accepted. *)
Lemma normalize_line s limit e : plain s → Forall (λ c, c ≠ LF ∧ c ≠ TAB) s → trim s ≠ [] → length s ≤ limit → NormalizeSuperTeamText (trim s) limit e = Some (trim s).
Proof.
  intros Hs Hl Hne Hlen. pose proof (plain_trim s Hs) as Hp. pose proof (trim_length s). unfold NormalizeSuperTeamText.
  rewrite (TrimSpace_plain _ Hp), trim_idemp, (proj2 (truthy_true _) Hne). cbn [negb]. rewrite andb_false_r, (proj2 (Nat.ltb_ge limit (length (trim s)))) by lia. cbn [orb].
  assert (existsb go_control (trim s) = false) as ->; [|done].
  pose proof (trim_Forall _ s Hl) as Hsub.
  apply existsb_none. intros c Hc. unfold plain in Hp. rewrite Forall_forall in Hp, Hsub. destruct (Hp c Hc) as [->|[->| ->]]; [done|by destruct (proj1 (Hsub LF Hc))|by destruct (proj2 (Hsub TAB Hc))].
Qed.

Lemma preset_reasons :
  forallb (λ code, bool_decide (code = js "custom")
    || existsb (eqs code) (js <$> ["malware"; "policy_violation"; "invalid_metadata"; "copyright"; "quality"]%stdpp)
       && bool_decide (NormalizeSuperTeamText (js "preset:" ++ code) 512 true = Some (js "preset:" ++ code))) reject_presets = true.
Proof. by vm_compute. Qed.

(** The reasons of the form are accepted for a publication, and shown on its card as they were given. *)
Lemma publication_reason t code reason :
  kind t = Publication → code ∈ reject_presets →
  (code = js "custom" → plain reason ∧ Forall (λ c, c ≠ LF ∧ c ≠ TAB) reason ∧ trim reason ≠ [] ∧ length reason ≤ 505) →
  ∃ x, openRejectDialog t code reason = Some (trim reason, code) ∧ publicationDecisionReason code (trim reason) = Some x ∧
    NormalizeSuperTeamText x 512 true = Some x ∧ card_reason x = if eqs code "custom" then Reason (trim reason) else Preset code.
Proof.
  intros Hk Hc Hr. unfold openRejectDialog. rewrite (bool_decide_eq_true_2 _ Hk). cbn [negb orb]. destruct (decide (code = js "custom")) as [->|Hn].
  - destruct (Hr eq_refl) as (Hp & Hl & Hne & Hlen). rewrite (proj2 (truthy_true _) Hne). cbn [negb]. rewrite andb_false_r.
    assert (Ht : trim (js "custom:" ++ trim reason) = js "custom:" ++ trim reason).
    { apply trim_id. split; [done|]. rewrite reverse_app. destruct (trim_trimmed reason) as [_ H]. destruct (reverse (trim reason)) as [|x l] eqn:E; [|done].
      apply (f_equal reverse) in E. rewrite reverse_involutive in E. done. }
    eexists. split_and!; [done| | |].
    + unfold publicationDecisionReason. change (existsb _ _) with false. rewrite eqs_refl. cbn match. by rewrite normalize_line.
    + rewrite <- Ht at 1. rewrite normalize_line; [by rewrite Ht| | | |].
      * apply Forall_app. split; [|by apply plain_trim]. repeat constructor.
      * apply Forall_app. split; [repeat constructor; done|by apply trim_Forall].
      * by rewrite Ht.
      * rewrite length_app. pose proof (trim_length reason). change (length (js "custom:")) with 7. lia.
    + done.
  - assert (eqs code "custom" = false) as -> by (apply not_true_iff_false; by rewrite eqs_true). cbn [andb]. exists (js "preset:" ++ code).
    pose proof (proj1 (forallb_elem _ _) preset_reasons code Hc) as H. cbn beta in H. rewrite (bool_decide_eq_false_2 _ Hn) in H. cbn [orb] in H.
    apply andb_true_iff in H as [H1 H2%bool_decide_eq_true]. unfold publicationDecisionReason, card_reason. by rewrite H1, startsWith_app.
Qed.

(** What the form of a rejection takes: a reason of one line, or for a publication one of the presets, with such a reason if it is
    ["custom"]. *)
Definition one_line (reason : jsstring) (limit : nat) : Prop :=
  plain reason ∧ Forall (λ c, c ≠ LF ∧ c ≠ TAB) reason ∧ trim reason ≠ [] ∧ length reason ≤ limit.
Definition rejection (t : task) (code reason : jsstring) : Prop :=
  if bool_decide (kind t = Publication) then code ∈ reject_presets ∧ (code = js "custom" → one_line reason 505) else one_line reason 512.

(** ** The lifecycle *)

Definition follows (s s' : ticket_status) : bool :=
  match s, s' with
  | Unprocessed, (In_progress | Closed) => true
  | (In_progress | Processed), _ => true
  | _, _ => false
  end.

Lemma held_status t : inv t → status t = Pending → assignee_id t ≠ [] → ∀ s, follows (ticketStatusExpression t) s = true.
Proof. intros Hi Hp Ha s. unfold ticketStatusExpression. rewrite Hp. by destruct (inv_held t Hi) as [[_ ?]|[[-> | ->] _]]. Qed.

Lemma pending_follows t s : inv t → status t = Pending → s = In_progress ∨ s = Closed → follows (ticketStatusExpression t) s = true.
Proof. intros Hi Hp Hs. unfold ticketStatusExpression. rewrite Hp. by destruct (inv_held t Hi) as [[-> _]|[[-> | ->] _]], Hs as [-> | ->]. Qed.

Lemma decide_assignee d id approve reason settled applied t t' :
  DecideReviewTask d id approve reason settled applied t = Ok t' → ∃ u, requireTicketAssigneeTx d id t = Ok u.
Proof.
  unfold DecideReviewTask. destruct (NormalizeSuperTeamText _ _ _); [|done]. do 3 (case_match; [done|]). intros (u & Hu & _)%result_bind_Ok. by exists u.
Qed.

Lemma advance_assignee d id settled requester t t' :
  AdvancePackageCreationReview d id settled requester t = Ok t' → ∃ u, requireTicketAssigneeTx d id t = Ok u.
Proof. unfold AdvancePackageCreationReview. case_match; [done|]. intros (u & Hu & _)%result_bind_Ok. by exists u. Qed.

Lemma assignee_holds d id t u : requireTicketAssigneeTx d id t = Ok u → status t = Pending ∧ assignee_id t = id.
Proof.
  intros (u' & _ & Hu)%result_bind_Ok. case_match eqn:E; [|done]. apply andb_true_iff in E as [[E1%pending_status E2%eqs_true]%andb_true_iff _]. done.
Qed.

Lemma decide_held d id approve reason settled applied t t' : DecideReviewTask d id approve reason settled applied t = Ok t' → status t = Pending ∧ assignee_id t = id.
Proof. intros [u Hu]%decide_assignee. by eapply assignee_holds. Qed.

Lemma advance_held d id settled requester t t' : AdvancePackageCreationReview d id settled requester t = Ok t' → status t = Pending ∧ assignee_id t = id.
Proof. intros [u Hu]%advance_assignee. by eapply assignee_holds. Qed.

Lemma step_follows t t' : inv t → step t t' → follows (ticketStatusExpression t) (ticketStatusExpression t') = true.
Proof.
  intros Hi (d & id & o & Hid & H).
  assert (Hheld : status t = Pending ∧ assignee_id t = id → follows (ticketStatusExpression t) (ticketStatusExpression t') = true) by (intros [Hp <-]; by apply held_status).
  destruct o as [a|approve reason applied|approve code reason policy settled requester applied|]; cbn in H.
  - case_match; [|done]. unfold TransitionTicket in H. destruct (is_pending t) eqn:Ep; [|done]. apply pending_status in Ep. cbn [negb] in H.
    apply result_bind_Ok in H as (u & _ & H). destruct (eqs (Action a) "claim").
    + apply claim_assigns in H as ->. apply pending_follows; [done|done|left]. unfold ticketStatusExpression. cbn. by rewrite Ep.
    + apply Hheld. split; [done|]. apply eqs_true. apply not_false_iff_true. intros E. unfold release_ticket, resolve in H. rewrite E in H. by repeat case_match.
  - case_match; [done|]. by apply decide_ok, decide_held, Hheld in H.
  - case_match; [|done]. apply Hheld. apply decide_publication_ok in H as [(? & ? & H)|H]; [by eapply decide_held|by eapply advance_held].
  - unfold CancelReviewTask in H. destruct (profile d id); [|done]. destruct (is_pending t) eqn:Ep; [|done]. apply pending_status in Ep. cbn [negb] in H.
    repeat (case_match; [done|]). injection H as <-. apply pending_follows; [done|done|by right].
Qed.

Lemma not_offer b (l : list offer) : (∀ o, b ≠ Offer_button o) → b ∈ Offer_button <$> l ↔ False.
Proof. intros Hb. rewrite list_elem_of_fmap. split; [|done]. intros (o & -> & _). by destruct (Hb o). Qed.

Lemma elem_of_if {A} (b : bool) (l : list A) x : x ∈ (if b then l else []) ↔ b = true ∧ x ∈ l.
Proof. destruct b; [tauto|]. rewrite elem_of_nil. by split; [|intros [? _]]. Qed.

Lemma card_offer v o : o ∈ [Claim; Force_claim; Release; Escalate; Process; Complete; Close] → Offer_button o ∈ taskCard true v ↔ o ∈ Actions v.
Proof.
  intros Ho. unfold taskCard. cbn [negb]. rewrite !elem_of_app, list_elem_of_fmap, !elem_of_if, !elem_of_cons, !elem_of_nil.
  setoid_rewrite elem_of_filtered. setoid_rewrite bool_decide_eq_true. split.
  - intros [(o' & [= <-] & _ & H)|H]; [done|]. by destruct H as [[_ [?|?]]|[[_ [?|[?|?]]]|[_ [?|?]]]].
  - intros H. left. by exists o.
Qed.

Lemma card_decision v :
  (Approve_button ∈ taskCard true v ↔ Decision ∈ Actions v) ∧ (Reject_button ∈ taskCard true v ↔ Approve_button ∈ taskCard true v)
  ∧ (Cancel_button ∈ taskCard true v ↔ Cancel ∈ Actions v).
Proof.
  unfold taskCard. cbn [negb]. rewrite !elem_of_app, !not_offer, !elem_of_if, !elem_of_cons, !elem_of_nil, !bool_decide_eq_true by done.
  split_and!; intuition congruence.
Qed.

Lemma offered_rejection d id t v policy code reason :
  inv t → id ≠ [] → team_locked d (review_team_prefix t) = false → GetTicket d id t = Ok v → own_ticket id t = false → rejection t code reason →
  ∃ sent, openRejectDialog t code reason = Some sent ∧ (Decision ∈ Actions v ↔ is_ok (operate d id (submitDecision t false sent policy) t) = true).
Proof.
  intros Hi Hid Hl Hv Hown Hr. unfold rejection in Hr. unfold submitDecision. destruct (bool_decide_reflect (kind t = Publication)) as [Hk|Hk].
  - destruct Hr as [Hc Hr]. destruct (publication_reason t code reason Hk Hc Hr) as (x & -> & Hx & Hn & _). eexists. split; [done|].
    cbn [operate fst snd]. rewrite (bool_decide_eq_true_2 _ Hk). apply (offered_publication_decision d id t v Hid Hi Hl Hv Hown _ _ _ _ x Hk).
    intros _. split_and!; [done|done|]. intros ->. unfold publicationDecisionReason in Hx. by repeat case_match.
  - destruct Hr as (Hp & Hnl & Hne & Hlen). unfold openRejectDialog. rewrite (bool_decide_eq_false_2 _ Hk). cbn [negb orb andb]. rewrite (proj2 (truthy_true _) Hne).
    eexists. split; [done|]. cbn [operate fst]. rewrite (bool_decide_eq_false_2 _ Hk). apply offered_decision; try done; [by apply normalize_line|by right].
Qed.

(** Once only administrators have it, every operation but the withdrawal by its requester is that of an administrator. *)
Lemma handler_manager d id t u : admin_only t = true → ticketHandlerTx d id t = Ok u → profile d id = Some u ∧ IsManager u = true.
Proof.
  intros Ha Hu. unfold ticketHandlerTx, ticketActorTx in Hu. destruct (profile d id) as [p|]; [|done]. destruct (live d id); [|done]. cbn [result_bind] in Hu.
  rewrite Ha in Hu. destruct (_ && (_ || _)); [done|]. destruct (IsManager p) eqn:Em; [|done]. cbn [negb andb] in Hu. by injection Hu as <-.
Qed.

Lemma assignee_manager d id t u : admin_only t = true → requireTicketAssigneeTx d id t = Ok u → profile d id = Some u ∧ IsManager u = true.
Proof. intros Ha (u' & Hu & H)%result_bind_Ok. case_match; [|done]. injection H as <-. by eapply handler_manager. Qed.

Lemma admin_only_operation d id o t t' :
  admin_only t = true → operate d id o t = Ok t' →
  o = Withdraw ∧ requested_by_id t = id ∨ ∃ u, profile d id = Some u ∧ IsManager u = true.
Proof.
  intros Ha H. destruct o as [a|approve reason applied|approve code reason policy settled requester applied|]; cbn [operate] in H.
  - right. case_match; [|done]. unfold TransitionTicket in H. destruct (negb (is_pending t)); [done|]. apply result_bind_Ok in H as (u & Hu & _).
    exists u. by eapply handler_manager.
  - right. case_match; [done|]. apply decide_ok, decide_assignee in H as [u Hu]. exists u. by eapply assignee_manager.
  - right. case_match; [|done]. apply decide_publication_ok in H as [(? & ? & [u Hu]%decide_assignee)|[u Hu]%advance_assignee]; exists u; by eapply assignee_manager.
  - left. split; [done|]. unfold CancelReviewTask in H. destruct (profile d id); [|done]. destruct (negb (is_pending t)); [done|].
    destruct (bool_decide _); [done|]. destruct (eqs (requested_by_id t) id) eqn:E; [|done]. by apply eqs_true.
Qed.

(** ** The properties *)

(** C5: what the card of a ticket offers is exactly what the server does when the button is used. For a ticket there can be, an account
    that is shown it, no lock on the team that reviews it and an account behind its assignee: the buttons that claim, release and
    escalate are there if and only if their request is accepted, the button that takes a ticket over if and only if it is assigned and the
    request is accepted; the forms of a resolution send any text that is not blank, and their buttons are there if and only if that is
    accepted. The button of an approval, which sends no reason, and the button of a rejection, which sends a preset or a reason of one
    line, are there if and only if the decision is taken: for requests and for publications, in the first and the second of their
    reviews, once their files have settled and unless the package itself stands in the way; the button of a cancellation likewise.
    Only for a ticket of one's own that asks for support the handler's buttons are left out. *)
Theorem offered_is_accepted d id t v :
  reached t → id ≠ [] → team_locked d (review_team_prefix t) = false → (assignee_id t ≠ [] → is_Some (profile d (assignee_id t))) →
  GetTicket d id t = Ok v →
  (own_ticket id t = false →
    (∀ o, o ∈ [Claim; Release; Escalate] → Offer_button o ∈ taskCard true v ↔ is_ok (operate d id (Act (assignment_request o)) t) = true)
    ∧ (Offer_button Force_claim ∈ taskCard true v ↔ assignee_id t ≠ [] ∧ is_ok (operate d id (Act (assignment_request Force_claim)) t) = true)
    ∧ (∀ o r, o ∈ [Process; Complete; Close] → plain (text r) → trim (text r) ≠ [] → length (text r) ≤ 4096 →
        (∀ c, chosen r = Some c → c ∈ outcome_choices o t) →
        ∃ a, openResolutionDialog o t r = Some a ∧ (Offer_button o ∈ taskCard true v ↔ is_ok (operate d id (Act a) t) = true))
    ∧ (∀ policy, Approve_button ∈ taskCard true v ↔ is_ok (operate d id (submitDecision t true approval policy) t) = true)
    ∧ (∀ policy code reason, rejection t code reason →
        ∃ sent, openRejectDialog t code reason = Some sent ∧
          (Reject_button ∈ taskCard true v ↔ is_ok (operate d id (submitDecision t false sent policy) t) = true)))
  ∧ (Cancel_button ∈ taskCard true v ↔ is_ok (operate d id Withdraw t) = true).
Proof.
  intros Hi%reached_inv Hid Hl Has Hv.
  destruct (card_decision v) as (Hd1 & Hd2 & Hd3). pose proof (card_offer v) as Ho. split; [intros Hown; split_and!|].
  - intros o Hin. rewrite Ho by (revert Hin; rewrite !elem_of_cons; tauto). cbn [operate].
    assert (well_formed_action (assignment_request o) = true) as -> by (by destruct o). by apply offered_assignment.
  - rewrite Ho by (rewrite !elem_of_cons; tauto). by apply offered_force.
  - intros o r Hin Hp Hne Hlen Hc. unfold openResolutionDialog.
    assert (text r ≠ []) as Hte by (intros E; by rewrite E in Hne). rewrite (proj2 (truthy_true _) Hte), (proj2 (Nat.ltb_ge 4096 _) Hlen). cbn [negb orb].
    eexists. split; [done|]. rewrite Ho by (revert Hin; rewrite !elem_of_cons; tauto). cbn [operate well_formed_action Force negb orb]. apply offered_resolution; try done.
    + cbn [Response]. by rewrite normalize_plain.
    + right. cbn [Outcome]. destruct (chosen r) as [c|] eqn:Ec; cbn [default]; [by eapply choice_valid, Hc|apply initial_valid].
  - intros policy. rewrite Hd1. unfold submitDecision. destruct (bool_decide_reflect (kind t = Publication)) as [Hk|Hk]; cbn [operate].
    + rewrite (bool_decide_eq_true_2 _ Hk). by apply (offered_publication_decision d id t v Hid Hi Hl Hv Hown true [] [] policy []).
    + rewrite (bool_decide_eq_false_2 _ Hk). by apply offered_decision; [..|by left].
  - intros policy code reason Hr. destruct (offered_rejection d id t v policy code reason) as (sent & Hs & H); try done.
    exists sent. split; [done|]. by rewrite Hd2, Hd1.
  - rewrite Hd3. by apply offered_cancel.
Qed.

(** C23: the life of a ticket. In every state it can reach, a pending ticket is assigned exactly while it is shown as in progress or
    processed, and it was escalated at most three times. Once it was escalated, every operation on it is one of an administrator, but for
    a withdrawal by who requested it. A support ticket is answered, and
    dismissed exactly if it was rejected, and a review is only rejected with a reason. Every operation on it moves its status along the
    lifecycle, and none is possible once it is closed or completed. *)
Theorem ticket_life t :
  reached t →
  (status t = Pending → (assignee_id t = [] ↔ ticketStatusExpression t = Unprocessed))
  ∧ escalations t ≤ 3
  ∧ (0 < escalations t → ∀ d id o t', operate d id o t = Ok t' →
       o = Withdraw ∧ requested_by_id t = id ∨ ∃ u, profile d id = Some u ∧ IsManager u = true)
  ∧ (supportTicket t = true → status t = Approved ∨ status t = Rejected → response t ≠ [] ∧ length (response t) ≤ 4096 ∧ (status t = Rejected ↔ outcome t = js "dismissed"))
  ∧ (supportTicket t = false → status t = Rejected → decision_reason t ≠ [])
  ∧ (∀ t', step t t' → follows (ticketStatusExpression t) (ticketStatusExpression t') = true)
  ∧ (ticketStatusExpression t = Closed ∨ ticketStatusExpression t = Completed → ∀ t', ¬ step t t').
Proof.
  intros Hi%reached_inv. destruct (inv_escalated t Hi) as (He & Ha & _). split_and!; [|done| | |by apply inv_decided|intros t'; by apply step_follows|].
  - intros Hp. unfold ticketStatusExpression. rewrite Hp. destruct (inv_held t Hi) as [[-> ->]|[[-> | ->] Hn]]; done.
  - intros He' d id o t' H. eapply admin_only_operation; [by apply Ha|done].
  - intros Hs Hst. destruct (inv_resolved t Hi Hs Hst) as (Hpr & _ & Hd). destruct (inv_answered t Hi Hpr) as (_ & Hr & Hl). done.
  - intros Hc t' Hs%step_follows; [|done]. by destruct Hc as [Hc|Hc]; rewrite Hc in Hs.
Qed.

(** After three escalations a ticket stays with its assignee: nobody takes it over and it is not given back. *)
Lemma held_until_resolved d id a t t' :
  inv t → escalations t = 3 → assignee_id t ≠ [] → TransitionTicket d id a t = Ok t' → assignee_id t = id ∧ assignee_id t' = id ∧ existsb (eqs (Action a)) (js <$> ["process"; "complete"; "close"]%stdpp) = true.
Proof.
  intros Hi He Ha. unfold TransitionTicket. destruct (negb (is_pending t)); [done|]. intros (u & _ & H)%result_bind_Ok.
  destruct (eqs _ "claim"); [unfold claim in H; rewrite He in H; cbn [Nat.leb] in H; rewrite orb_true_r, (proj2 (truthy_true _) Ha) in H; done|].
  assert (Hrel : ∀ esc, release_ticket esc id t ≠ Ok t') by (intros esc; unfold release_ticket; rewrite He; cbn [Nat.leb]; destruct (negb _); discriminate).
  destruct (eqs _ "release"); [by destruct (Hrel false)|]. destruct (eqs _ "escalate"); [by destruct (Hrel true)|].
  destruct (existsb _ _); [|done]. unfold resolve in H. destruct (negb (supportTicket t)); [done|]. destruct (eqs (assignee_id t) id) eqn:E; cbn [negb] in H; [|done]. apply eqs_true in E.
  split_and!; [done| |done]. repeat case_match; try done; by injection H as <-.
Qed.

(** ** Runs *)

Module Runs.
Definition account (roles : list string) : user := {| Username := []; Roles := js <$> roles; ReadPermissions := []; WritePermissions := [] |}.

(** Ann moderates the repository "libs", Mia is a manager, Tom manages the team "core", Bob has no rights; [locked]: so is the team. *)
Definition office (locked : bool) : directory := {|
  profile id := if eqs id "ann" then Some (account ["canmoderate:libs"]) else if eqs id "mia" then Some (account ["manager"])
                else if eqs id "tom" || eqs id "bob" then Some (account []) else None;
  live _ := true; role_level team id := if eqs team "core" && eqs id "tom" then 3 else 0; team_locked _ := locked |}.

Definition ticket (k : ticket_kind) (team by_ : jsstring) : task := {|
  kind := k; repository := js "libs"; creation := true; review_team_prefix := team; target_team_prefix := team; requested_by_id := by_; target_user_ids := [];
  status := Pending; decision_reason := []; decided_by_id := []; stored_status := Unprocessed; assignee_id := []; admin_only := false; escalations := 0;
  escalated_by_id := []; outcome := []; response := [] |}.

Definition feedback : task := ticket Feedback [] "bob".
Definition claimed : task := { feedback with assignee_id := js "ann"; stored_status := In_progress }.
Definition seen : ticket_view := {| shown := claimed; Actions := [Process; Complete; Close; Release; Escalate]; hidden := false |}.

Lemma feedback_created : created feedback.
Proof. by split. Qed.

Lemma claimed_reached : reached claimed.
Proof.
  eapply reachable_step; [by apply reachable_init, feedback_created|]. exists (office false), (js "ann"), (Act (assignment_request Claim)). by vm_compute.
Qed.

(** Ann has claimed the feedback of Bob: she is offered to process, to complete, to close, to release and to escalate it, and each works. *)
Lemma offered_is_accepted_witness :
  Offer_button Release ∈ taskCard true seen ∧ is_ok (operate (office false) (js "ann") (Act (assignment_request Release)) claimed) = true.
Proof.
  assert (H : Offer_button Release ∈ taskCard true seen) by (vm_compute; left).
  split; [exact H|]. refine (proj1 (proj1 (proj1 (offered_is_accepted (office false) (js "ann") claimed seen claimed_reached _ _ _ _) _) Release _) H).
  - done.
  - done.
  - intros _. by eexists.
  - by vm_compute.
  - by vm_compute.
  - by vm_compute; right; left.
Defined.

Lemma ticket_life_witness : status claimed = Pending ∧ (assignee_id claimed = [] ↔ ticketStatusExpression claimed = Unprocessed).
Proof. split; [done|]. by apply (proj1 (ticket_life claimed claimed_reached)). Defined.

(** The whole course: claimed, escalated, taken by a manager, answered. *)
Example course :
  let d := office false in
  (t ← Some feedback;
   t ← match operate d (js "ann") (Act (assignment_request Claim)) t with Ok t => Some t | _ => None end;
   t ← match operate d (js "ann") (Act (assignment_request Escalate)) t with Ok t => Some t | _ => None end;
   t ← match operate d (js "mia") (Act (assignment_request Claim)) t with Ok t => Some t | _ => None end;
   a ← openResolutionDialog Complete t {| chosen := None; text := js " Thank you. " |};
   t ← match operate d (js "mia") (Act a) t with Ok t => Some t | _ => None end;
   Some (ticketStatusExpression t, escalations t, response t)) = Some (Completed, 1, js "Thank you.").
Proof. by vm_compute. Qed.

(** The team of a new package approves it without a reason, which hands it to the repository; there it is rejected with a preset. *)
Example package_creation :
  let t := { ticket Publication "core" "bob" with assignee_id := js "tom"; stored_status := In_progress } in
  (t ← match operate (office false) (js "tom") (submitDecision t true approval true) t with Ok t => Some t | _ => None end;
   t' ← match operate (office false) (js "mia") (Act (assignment_request Claim)) t with Ok t => Some t | _ => None end;
   sent ← openRejectDialog t' (js "malware") [];
   t' ← match operate (office false) (js "mia") (submitDecision t' false sent true) t' with Ok t => Some t | _ => None end;
   Some (review_team_prefix t, ticketStatusExpression t, status t', decision_reason t')) = Some ([], Unprocessed, Rejected, js "preset:malware").
Proof. by vm_compute. Qed.

(** A reason of several lines, which the text area of a rejection takes, is refused. *)
Definition team_transfer : task := { ticket Super_team_transfer "core" "bob" with assignee_id := js "tom"; stored_status := In_progress }.
Example reason_of_two_lines :
  let reason := js "Wrong team." ++ LF :: js "See above." in
  openRejectDialog team_transfer [] reason = Some (reason, []) ∧
  operate (office false) (js "tom") (Decide false reason Applied) team_transfer = Throw Invalid_request ∧
  is_ok (operate (office false) (js "tom") (Decide false (js "Wrong team.") Applied) team_transfer) = true.
Proof. by vm_compute. Qed.

(** A reason that begins like a preset is shown as one that does not exist. *)
Example reason_like_a_preset :
  openRejectDialog team_transfer [] (js "preset:none") = Some (js "preset:none", []) ∧
  (card_reason ∘ decision_reason <$> match operate (office false) (js "tom") (Decide false (js "preset:none") Applied) team_transfer with Ok t => Some t | _ => None end)
    = Some (Preset (js "none")).
Proof. by vm_compute. Qed.

(** A blank response passes the form and is refused. *)
Example blank_response :
  (a ← openResolutionDialog Close claimed {| chosen := None; text := js "  " |}; Some (operate (office false) (js "ann") (Act a) claimed))
  = Some (Throw Invalid_request).
Proof. by vm_compute. Qed.

(** The manager of a locked team is offered to claim its reviews, and is refused. *)
Example locked_team :
  let t := ticket Super_team_transfer "core" "bob" in
  (Actions <$> match GetTicket (office true) (js "tom") t with Ok v => Some v | _ => None end) = Some [Claim] ∧
  operate (office true) (js "tom") (Act (assignment_request Claim)) t = Throw Permission_denied.
Proof. by vm_compute. Qed.

(** The feedback of a moderator is not offered to the moderator; a request of their own is accepted. *)
Example own_feedback :
  let t := ticket Feedback [] "ann" in
  (Actions <$> match GetTicket (office false) (js "ann") t with Ok v => Some v | _ => None end) = Some [Cancel] ∧
  is_ok (operate (office false) (js "ann") (Act (assignment_request Claim)) t) = true.
Proof. by vm_compute. Qed.
End Runs.
