(* ===== verification/TicketCenter.v ===== *)
(** * Tickets: the centre and the files of a review

    [internal/service/frontend/renop-html/js/tickets.js]: the list of tickets with its filters and pages, and the download of the files of
    a publication into an archive. The tickets themselves, their buttons and forms are in [Tickets], the routes in [Shell]. The server answers a query with rows
    and a total; the packing of the archive is a library's. Texts, layout and the dialogs are left out. *)

From S2P Require Import Prelude JsText JsValue Tickets.
From coqutil Require Import Datatypes.RecordSettersUsingExistingGetters.
Local Open Scope nat_scope.

#[local] Arguments const {E} _ _ /.
#[local] Arguments cons {A} & _ _.

(** ** Resources *)

Definition resourceTypes : list jsstring := js <$> [
  "docker_image"; "npm_package"; "cargo_package"; "maven_artifact"; "maven_domain"; "user"; "superteam"; "support"]%stdpp.

Definition canReturnToPersonalOwnership (resourceType resourceKey : jsstring) : bool :=
  if eqs resourceType "docker_image" then negb (includes resourceKey "/")
  else if eqs resourceType "npm_package" then negb (startsWith resourceKey "@") else true.

(** The names of formats in reports. *)
Definition aliases : list (jsstring * jsstring) := (λ '(a, b), (js a, js b)) <$> [
  ("docker_image", "docker"); ("npm_package", "npm"); ("cargo_package", "cargo"); ("maven_artifact", "maven"); ("maven_domain", "maven-domain")]%stdpp%string.

(** The types of a query: a type and its other name. *)
Definition query_types (active : list jsstring) : list jsstring :=
  active ≫= λ type, match assoc aliases type with Some a => [type; a] | None => [type] end.

(** [resourceLabel]: the key of the label of a stored type. *)
Definition resourceLabel (type : jsstring) : jsstring :=
  if existsb (eqs type) (js <$> ["user"; "superteam"; "support"]%stdpp) then js "ticket.type." ++ type
  else js "review.type." ++ match List.find (λ '(_, a), eqs a type) aliases with Some (name, _) => name | None => type end.

(** What is sent and what is stored is shown under the label of the filter. *)
Lemma filtered_label active type ty : ty ∈ query_types active → type ∈ resourceTypes → active = [type] → resourceLabel ty = resourceLabel type.
Proof.
  intros Hty Ht ->. revert Ht Hty. cbn [query_types mbind list_bind]. rewrite app_nil_r.
  assert (H : forallb (λ type, forallb (λ ty, eqs (resourceLabel ty) (resourceLabel type)) (match assoc aliases type with Some a => [type; a] | None => [type] end)) resourceTypes = true)
    by (by vm_compute).
  intros Ht Hty. pose proof (proj1 (forallb_elem _ _) H type Ht) as H'. cbn beta in H'. pose proof (proj1 (forallb_elem _ _) H' ty Hty) as H''. by apply eqs_true in H''.
Qed.

(** ** The list *)

Definition pageSize : nat := 15.

(** [activeView], [activeStatus], [activeTypes], [pageOffset]: what a query is made of. *)
Record query := { requested : bool; filter_status : jsstring; filter_types : list jsstring; offset : nat }.

(** What a request comes to: the session ended, the list is denied, it failed, or rows and a total. *)
Inductive answer := Session_ended | Denied | Broken | Tickets_page (rows : list nat) (total : nat).

(** A load: its loading surface is being shown, or its request was sent, or it is over. *)
Inductive list_load := Preparing | Sent (q : query) | Over.

(** What is shown: rows of a query with a pager for an offset, or no rows. *)
Inductive results := Loading | Listed (q : query) (rows : list nat) (total rendered : nat) | Load_error.

(** [loads]: the load at index [i] has generation [i + 1]; [opening]: the centre was opened with another view, and its page is not loaded yet; [left]: the
    route was exited. *)
Record ticket_center := { filters : query; loads : list list_load; shown_results : results; opening : bool; left : bool }.

Definition loadGeneration (s : ticket_center) : nat := length (loads s).

Definition loadTasks (s : ticket_center) : ticket_center := { s with loads := loads s ++ [Preparing]; shown_results := Loading }.

(** [Math.ceil(total / pageSize)] *)
Definition pages (total : nat) : nat := (total + (pageSize - 1)) / pageSize.

(** The pager: [None] if there is one page; else the page, the pages. *)
Definition list_pager (pageOffset total : nat) : option (nat * nat) :=
  if total <=? pageSize then None else Some (pageOffset / pageSize, pages total).

(** The offset of the last page. *)
Definition last_page (total : nat) : nat := (pages total - 1) * pageSize.

Inductive center_event :=
  | Choose_view (requested : bool) | Choose_status (status : jsstring) | Toggle_type (type : jsstring) | Prev | Next
  | Opened (requested : bool) | Composed | Page_loaded | Changed
  | Surface_shown (i : nat) | Answered (i : nat) (a : answer).

Definition toggle_type (type : jsstring) (types : list jsstring) : list jsstring :=
  if existsb (eqs type) types then List.filter (λ t, negb (eqs t type)) types else types ++ [type].

Definition set_load (i : nat) (l : list_load) (s : ticket_center) : ticket_center := { s with loads := <[i := l]> (loads s) }.

Definition answered (i : nat) (q : query) (a : answer) (s : ticket_center) : ticket_center :=
  let current := S i =? loadGeneration s in
  match a with
  | Session_ended => s
  | Denied => { s with left := true }
  | Broken => if current then { s with shown_results := Load_error } else s
  | Tickets_page rows total =>
      if negb current then s
      else if (total <=? offset (filters s)) && (0 <? offset (filters s)) then
        loadTasks { s with filters := { filters s with offset := last_page total } }
      else { s with shown_results := Listed q rows total (offset (filters s)) }
  end.

(** [None]: the event cannot happen. The buttons of the pager are those of the list that is shown. *)
Definition center_step (e : center_event) (s : ticket_center) : option ticket_center :=
  match e with
  | Choose_view v => Some (loadTasks { s with filters := { filters s with requested := v; offset := 0 } })
  | Choose_status st => Some (loadTasks { s with filters := { filters s with filter_status := st; offset := 0 } })
  | Toggle_type ty => Some (loadTasks { s with filters := { filters s with filter_types := toggle_type ty (filter_types (filters s)); offset := 0 } })
  | Prev =>
      match shown_results s with
      | Listed _ _ total rendered =>
          p ← list_pager rendered total;
          if p.1 =? 0 then None else Some (loadTasks { s with filters := { filters s with offset := offset (filters s) - pageSize } })
      | _ => None
      end
  | Next =>
      match shown_results s with
      | Listed _ _ total rendered =>
          p ← list_pager rendered total;
          if p.2 - 1 <=? p.1 then None else Some (loadTasks { s with filters := { filters s with offset := offset (filters s) + pageSize } })
      | _ => None
      end
  | Opened v => Some { s with filters := { filters s with requested := v; offset := 0 }; opening := true }
  | Composed => Some { s with filters := { filters s with requested := true; filter_status := js "all"; offset := 0 }; opening := true }
  | Page_loaded => Some (loadTasks { s with opening := false })
  | Changed => Some (loadTasks s)
  | Surface_shown i =>
      match loads s !! i with Some Preparing => Some (set_load i (Sent (filters s)) s) | _ => None end
  | Answered i a =>
      match loads s !! i with Some (Sent q) => Some (answered i q a (set_load i Over s)) | _ => None end
  end.

Definition center_init : ticket_center := {|
  filters := {| requested := false; filter_status := js "unprocessed"; filter_types := []; offset := 0 |};
  loads := []; shown_results := Loading; opening := false; left := false |}.

Definition center_next (s s' : ticket_center) : Prop := ∃ e, center_step e s = Some s'.
Abbreviation center_reached := (reachable (eq center_init) center_next).

(** ** The list shows what the filters select *)

Lemma pages_bounds total : pages total * pageSize < total + pageSize ∧ total ≤ pages total * pageSize.
Proof.
  unfold pages, pageSize. change (15 - 1) with 14. pose proof (Nat.div_mod_eq (total + 14) 15). pose proof (Nat.mod_upper_bound (total + 14) 15). lia.
Qed.

(** A page that is past the end is replaced by an earlier one. *)
Lemma last_page_before total offset : total ≤ offset → 0 < offset → last_page total < offset.
Proof. intros. unfold last_page. pose proof (pages_bounds total). unfold pageSize in *. lia. Qed.

Lemma last_page_full total : 0 < total → last_page total < total ∧ total ≤ last_page total + pageSize.
Proof. intros. unfold last_page. pose proof (pages_bounds total). unfold pageSize in *. nia. Qed.

Record center_inv (s : ticket_center) : Prop := {
  (** Only the last load is not over, or has a query of the filters there are. *)
  cinv_sent : ∀ q, opening s = false → last (loads s) = Some (Sent q) → q = filters s;
  cinv_listed : ∀ q rows total r, shown_results s = Listed q rows total r →
    last (loads s) = Some Over ∧ (opening s = false → q = filters s ∧ r = offset (filters s)) ∧ r mod pageSize = 0 ∧ (0 < r → r < total);
  cinv_offset : offset (filters s) mod pageSize = 0
}.

Lemma loaded_inv s : offset (filters s) mod pageSize = 0 → center_inv (loadTasks s).
Proof. intros Ho. split; cbn; [intros q _; by rewrite last_snoc|done|done]. Qed.

Lemma last_insert_other {A} (l : list A) i x : i ≠ length l - 1 → last (<[i := x]> l) = last l.
Proof. intros Hi. rewrite !last_lookup, length_insert. apply list_lookup_insert_ne. lia. Qed.

Lemma last_insert_same {A} (l : list A) x : l ≠ [] → last (<[length l - 1 := x]> l) = Some x.
Proof. intros Hl. rewrite last_lookup, length_insert. rewrite Nat.sub_1_r. apply list_lookup_insert_eq. destruct l; [done|cbn; lia]. Qed.

Lemma last_is_sent s i l : loads s !! i = Some l → S i = loadGeneration s → last (loads s) = Some l.
Proof. unfold loadGeneration. intros Hl Hi. rewrite last_lookup, <- Hi. done. Qed.

Lemma list_answered_inv s i q a : center_inv s → loads s !! i = Some (Sent q) → center_inv (answered i q a (set_load i Over s)).
Proof.
  intros Hi Hl. pose proof (lookup_lt_Some _ _ _ Hl) as Hlt.
  assert (Hg : loadGeneration (set_load i Over s) = loadGeneration s) by (unfold loadGeneration, set_load; cbn; apply length_insert).
  assert (Hlast : last (loads (set_load i Over s)) = if S i =? loadGeneration s then Some Over else last (loads s)).
  { unfold loadGeneration. cbn [set_load loads]. change (loads (set_load i Over s)) with (<[i := Over]> (loads s)).
    destruct (Nat.eqb_spec (S i) (length (loads s))) as [E|E].
    - replace i with (length (loads s) - 1) by lia. apply last_insert_same. intros Hn. rewrite Hn in Hlt. cbn in Hlt. lia.
    - apply last_insert_other. lia. }
  assert (Hkeep : center_inv (set_load i Over s)).
  { split.
    - intros q' Ho Hq. rewrite Hlast in Hq. case_match; [done|]. by apply (cinv_sent s Hi).
    - intros q' rows total r Hs. destruct (cinv_listed s Hi q' rows total r Hs) as (Hov & Hrest). split; [|exact Hrest]. rewrite Hlast. by case_match.
    - apply (cinv_offset s Hi). }
  assert (Hshow : ∀ r, (∀ q' rows total k, r ≠ Listed q' rows total k) → center_inv { set_load i Over s with shown_results := r }).
  { intros r Hr. split; [apply (cinv_sent _ Hkeep)| |apply (cinv_offset _ Hkeep)]. intros q' rows total k E. by apply Hr in E. }
  unfold answered. rewrite Hg. destruct a as [| | |rows total]; [done| | |].
  - split; [apply (cinv_sent _ Hkeep)|apply (cinv_listed _ Hkeep)|apply (cinv_offset _ Hkeep)].
  - destruct (S i =? loadGeneration s); [by apply Hshow|done].
  - destruct (Nat.eqb_spec (S i) (loadGeneration s)) as [E|E]; cbn [negb]; [|done].
    pose proof (last_is_sent s i _ Hl E) as Hsent. change (filters (set_load i Over s)) with (filters s).
    destruct ((total <=? offset (filters s)) && (0 <? offset (filters s))) eqn:Ef.
    + apply loaded_inv. cbn [filters offset]. unfold last_page. apply Nat.Div0.mod_mul.
    + split; [apply (cinv_sent _ Hkeep)| |apply (cinv_offset _ Hkeep)]. intros q' rows' total' r [= <- <- <- <-]. split_and!.
      * exact Hlast.
      * intros Ho. split; [|done]. by apply (cinv_sent s Hi).
      * apply (cinv_offset s Hi).
      * intros Hr. apply andb_false_iff in Ef as [Ef|Ef]; [by apply Nat.leb_gt in Ef|]. apply Nat.ltb_ge in Ef. lia.
Qed.

Lemma center_step_inv e s s' : center_inv s → center_step e s = Some s' → center_inv s'.
Proof.
  intros Hi. pose proof (cinv_offset s Hi) as Ho.
  destruct e; cbn [center_step]; try (intros [= <-]; apply loaded_inv; done).
  - destruct (shown_results s); [done| |done]. destruct (list_pager _ _) as [[p n]|]; [|done]. cbn [mbind option_bind fst snd]. case_match; [done|]. intros [= <-]. apply loaded_inv.
    change ((offset (filters s) - pageSize) mod pageSize = 0). unfold pageSize in *. pose proof (Nat.div_mod_eq (offset (filters s)) 15). rewrite Ho in *.
    replace (offset (filters s) - 15) with ((offset (filters s) / 15 - 1) * 15) by lia. apply Nat.Div0.mod_mul.
  - destruct (shown_results s); [done| |done]. destruct (list_pager _ _) as [[p n]|]; [|done]. cbn [mbind option_bind fst snd]. case_match; [done|]. intros [= <-]. apply loaded_inv.
    change ((offset (filters s) + pageSize) mod pageSize = 0). unfold pageSize in *. rewrite <- (Nat.mul_1_l 15) at 1. by rewrite Nat.Div0.mod_add.
  - intros [= <-]. split; cbn; [done| |done]. intros q rows total r Hs. by destruct (cinv_listed s Hi q rows total r Hs) as (? & _ & ?).
  - intros [= <-]. split; cbn; [done| |done]. intros q rows total r Hs. by destruct (cinv_listed s Hi q rows total r Hs) as (? & _ & ?).
  - destruct (loads s !! i) as [[]|] eqn:Hl; try done. intros [= <-]. pose proof (lookup_lt_Some _ _ _ Hl) as Hlt. split.
    + intros q Hop. cbn [set_load loads]. destruct (decide (i = length (loads s) - 1)) as [->|Hne].
      * cbn. rewrite last_insert_same by (by intros E; rewrite E in Hlt; cbn in Hlt; lia). by intros [= ->].
      * cbn. rewrite last_insert_other by done. by apply (cinv_sent s Hi).
    + intros q rows total r Hs. destruct (cinv_listed s Hi q rows total r Hs) as (Hov & Hrest). split; [|exact Hrest]. cbn.
      destruct (decide (i = length (loads s) - 1)) as [->|Hne]; [|by rewrite last_insert_other].
      rewrite last_lookup, <- Nat.sub_1_r, Hl in Hov. done.
    + done.
  - destruct (loads s !! i) as [[]|] eqn:Hl; try done. intros [= <-]. by apply list_answered_inv.
Qed.

Lemma center_reached_inv s : center_reached s → center_inv s.
Proof.
  apply invariant_reachable; [|intros ? ? ? [e ?]; by eapply center_step_inv]. by intros ? <-.
Qed.

Fixpoint center_run (es : list center_event) (s : ticket_center) : option ticket_center :=
  match es with [] => Some s | e :: es => s ← center_step e s; center_run es s end.

(** No click: surfaces are shown and answers arrive. *)
Definition quiet (e : center_event) : bool := match e with Surface_shown _ | Answered _ _ => true | _ => false end.

Lemma quiet_restarts e s s' :
  quiet e = true → offset (filters s) mod pageSize = 0 → center_step e s = Some s' →
  offset (filters s') mod pageSize = 0 ∧ length (loads s') + offset (filters s') / pageSize ≤ length (loads s) + offset (filters s) / pageSize.
Proof.
  intros He Ho. destruct e; try done; cbn [center_step].
  - destruct (loads s !! i) as [[]|]; try done. intros [= <-]. unfold set_load. cbn [loads filters]. split; [done|]. change (length (<[i:=Sent (filters s)]> (loads s)) + offset (filters s) / pageSize ≤ length (loads s) + offset (filters s) / pageSize).
    by rewrite length_insert.
  - destruct (loads s !! i) as [[]|]; try done. intros [= <-].
    assert (Hlen : length (loads (set_load i Over s)) = length (loads s)) by apply length_insert.
    change (filters s) with (filters (set_load i Over s)) in *. rewrite <- Hlen. generalize (set_load i Over s) as k, Ho. clear Hlen Ho s. intros s Ho.
    unfold answered. destruct a as [| | |rows total]; [done|done|by case_match|]. destruct (negb _); [done|].
    destruct ((total <=? offset (filters s)) && (0 <? offset (filters s))) eqn:Ef; [|done]. apply andb_true_iff in Ef as [Ht%Nat.leb_le Hp%Nat.ltb_lt].
    pose proof (last_page_before total (offset (filters s)) Ht Hp) as Hlt.
    change (last_page total mod pageSize = 0 ∧ length (loads s ++ [Preparing]) + last_page total / pageSize ≤ length (loads s) + offset (filters s) / pageSize).
    unfold last_page in *. rewrite Nat.Div0.mod_mul, Nat.div_mul by done. split; [done|]. rewrite length_app. cbn [length].
    unfold pageSize in *. pose proof (Nat.div_mod_eq (offset (filters s)) 15). lia.
Qed.

Lemma quiet_runs es s s' :
  forallb quiet es = true → offset (filters s) mod pageSize = 0 → center_run es s = Some s' →
  length (loads s') ≤ length (loads s) + offset (filters s) / pageSize.
Proof.
  revert s. induction es as [|e es IH]; cbn [forallb center_run]; intros s Hq Ho; [intros [= <-]; lia|].
  apply andb_true_iff in Hq as [He Hq]. destruct (center_step e s) as [k|] eqn:Ek; [|done]. cbn [mbind option_bind]. intros Hr.
  destruct (quiet_restarts e s k He Ho Ek) as [Hk Hle]. specialize (IH k Hq Hk Hr). lia.
Qed.

Lemma pager_buttons rendered total :
  rendered mod pageSize = 0 → (0 < rendered → rendered < total) →
  ((∃ p, list_pager rendered total = Some p ∧ (p.1 =? 0) = false) ↔ 0 < rendered) ∧
  ((∃ p, list_pager rendered total = Some p ∧ (p.2 - 1 <=? p.1) = false) ↔ rendered + pageSize < total).
Proof.
  intros Hm Hr. unfold list_pager. pose proof (pages_bounds total) as [Hb1 Hb2]. unfold pageSize in *. pose proof (Nat.div_mod_eq rendered 15) as Hd. rewrite Hm in Hd.
  generalize dependent (rendered / 15). intros p Hd. destruct (Nat.leb_spec total 15).
  - split; (split; [by intros (? & ? & _)|lia]).
  - split; (split; [intros (x & [= <-] & H'); cbn [fst snd] in H'|intros H'; eexists; split; [done|]; cbn [fst snd]]).
    + apply Nat.eqb_neq in H'. lia.
    + apply Nat.eqb_neq. lia.
    + apply Nat.leb_gt in H'. lia.
    + apply Nat.leb_gt. lia.
Qed.

(** The list of tickets shows what its filters select. Whatever filters are chosen, pages are turned and tickets are changed, and in
    whatever order surfaces appear and answers arrive, the rows shown are the server's answer to the query of the view, the status, the
    types and the page there are now, unless the centre was just opened again and is about to load. The page is not past the end; there
    is a button to the page before exactly on a page that is not the first, and one to the next page exactly if there are further
    tickets. A page past the end is replaced by the last one, and without a click this repeats at most as often as there are pages before. *)
Theorem list_follows_filters s :
  center_reached s →
  (∀ q rows total rendered, shown_results s = Listed q rows total rendered → opening s = false →
    q = filters s ∧ rendered = offset (filters s) ∧ (0 < rendered → rendered < total) ∧
    (is_Some (center_step Prev s) ↔ 0 < rendered) ∧ (is_Some (center_step Next s) ↔ rendered + pageSize < total))
  ∧ (∀ es s', forallb quiet es = true → center_run es s = Some s' → loadGeneration s' ≤ loadGeneration s + offset (filters s) / pageSize).
Proof.
  intros Hi%center_reached_inv. split; [|intros es s' Hq; by apply quiet_runs, cinv_offset].
  intros q rows total r Hs Ho. destruct (cinv_listed s Hi q rows total r Hs) as (_ & Hq & Hm & Hr). destruct (Hq Ho) as [Hq1 Hq2].
  destruct (pager_buttons r total Hm Hr) as [H1 H2]. split_and!; [done|done|done|rewrite <- H1|rewrite <- H2]; cbn [center_step]; rewrite Hs.
  - destruct (list_pager r total) as [p|]; cbn [mbind option_bind]; [|split; [by intros []|by intros (? & ? & _)]].
    destruct (p.1 =? 0) eqn:E; split; [by intros []|intros (? & [= <-] & ?); congruence|intros _; by exists p|intros _; by eexists].
  - destruct (list_pager r total) as [p|]; cbn [mbind option_bind]; [|split; [by intros []|by intros (? & ? & _)]].
    destruct (p.2 - 1 <=? p.1) eqn:E; split; [by intros []|intros (? & [= <-] & ?); congruence|intros _; by exists p|intros _; by eexists].
Qed.

(** ** The files of a review *)

(** [size] is [Number(file.size) || 0]. *)
Record review_file := { path : jsstring; size : Z; critical : bool }.

Definition file_bytes : Type := list ascii.

(** [downloadReviewFile]: the size that is required, if one is known. *)
Definition expectedSize (f : review_file) : Z := Z.max 0 (size f).
Definition size_ok (f : review_file) (b : file_bytes) : bool := (expectedSize f <=? 0)%Z || (Z.of_nat (length b) =? expectedSize f)%Z.

Definition attempts : nat := 3.

(** [reviewDownloadConcurrency]; [hardware] is [navigator.hardwareConcurrency], zero if unknown. *)
Definition reviewDownloadConcurrency (slow : bool) (hardware : nat) (fileCount : nat) : nat :=
  let hardware := Nat.max 1 (if hardware =? 0 then 2 else hardware) in
  Nat.max 1 (Nat.min fileCount (if slow then 1 else if 4 <=? hardware then 4 else 2)).

(** The pool of [fetchReviewFiles]: the files under way with the number of attempts that failed, the files received in the order in which
    they came, and those that failed. *)
Record pool := { cursor : nat; running : list (nat * nat); received : list (nat * file_bytes); failed : list nat }.

Section pool.
Context (files : list review_file).

(** A worker that is free takes the next file, if there is one. *)
Definition take_next (p : pool) : pool :=
  if cursor p <? length files then { p with running := running p ++ [(cursor p, 0)]; cursor := S (cursor p) } else p.

Definition fetchReviewFiles (workers : nat) : pool :=
  Nat.iter workers take_next {| cursor := 0; running := []; received := []; failed := [] |}.

(** An attempt ends: with a body or without ([requestReview] or the reading failed). *)
Definition attempt (i : nat) (body : option file_bytes) (p : pool) : option pool :=
  match List.find (λ r, r.1 =? i) (running p), files !! i with
  | Some (_, tries), Some f =>
      let rest := List.filter (λ r, negb (r.1 =? i)) (running p) in
      match body with
      | Some b =>
          if size_ok f b then Some (take_next { p with running := rest; received := received p ++ [(i, b)] })
          else if S tries <? attempts then Some { p with running := rest ++ [(i, S tries)] }
          else Some (take_next { p with running := rest; failed := failed p ++ [i] })
      | None =>
          if S tries <? attempts then Some { p with running := rest ++ [(i, S tries)] }
          else Some (take_next { p with running := rest; failed := failed p ++ [i] })
      end
  | _, _ => None
  end.

(** [entries], a [Map] by path. *)
Definition entries (p : pool) : list (jsstring * file_bytes) :=
  foldl (λ m '(i, b), match files !! i with Some f => set_key m (path f) b | None => m end) [] (received p).

(** The end of [downloadPublicationBundle]: the entries of an archive, or the files that are downloaded one by one with an error. *)
Inductive bundle := Archive (m : list (jsstring * file_bytes)) | Single_files (fs : list review_file) (count : nat).

Definition downloadPublicationBundle (p : pool) : bundle :=
  match failed p with
  | [] => Archive (entries p)
  | _ => let c := List.filter critical files in Single_files (match c with [] => take 1 files | _ => c end) (length (failed p))
  end.

Definition pool_step (p p' : pool) : Prop := ∃ i body, attempt i body p = Some p'.

(** Every file before the cursor is under way, received or failed, each once. *)
Definition places (p : pool) : list nat := (running p).*1 ++ (received p).*1 ++ failed p.

Record pool_inv (workers : nat) (p : pool) : Prop := {
  pinv_places : places p ≡ₚ seq 0 (cursor p);
  pinv_cursor : cursor p ≤ length files;
  pinv_busy : length (running p) ≤ workers;
  pinv_all : length (running p) < workers → cursor p = length files;
  pinv_tries : ∀ r, r ∈ running p → r.2 < attempts;
  pinv_sizes : ∀ i b, (i, b) ∈ received p → ∃ f, files !! i = Some f ∧ size_ok f b = true
}.

(** What is left to do: three attempts for a file that is not begun. *)
Definition work (p : pool) : nat := attempts * (length files - cursor p) + sum_list_with (λ r, attempts - r.2) (running p).

Lemma take_one (l : list (nat * nat)) i t : NoDup l.*1 → (i, t) ∈ l → l ≡ₚ (i, t) :: List.filter (λ r, negb (r.1 =? i)) l.
Proof using Type.
  induction l as [|[j u] l IH]; cbn [fmap list_fmap fst]; [by intros _ ?%elem_of_nil|]. intros [Hj Hn]%NoDup_cons [E|Hin]%elem_of_cons.
  - injection E as -> ->. cbn [List.filter fst]. rewrite Nat.eqb_refl. cbn [negb]. f_equiv. rewrite filter_all; [done|]. apply Forall_forall. intros [k v] Hk.
    cbn [fst]. apply negb_true_iff, Nat.eqb_neq. intros ->. apply Hj. apply list_elem_of_fmap. by exists (j, v).
  - cbn [List.filter fst]. destruct (Nat.eqb_spec j i) as [->|]; cbn [negb].
    + destruct Hj. apply list_elem_of_fmap. by exists (i, t).
    + rewrite (IH Hn Hin) at 1. apply perm_swap.
Qed.

(** A pool with a free worker. *)
Record free_inv (workers : nat) (p : pool) : Prop := {
  finv_places : places p ≡ₚ seq 0 (cursor p); finv_cursor : cursor p ≤ length files; finv_busy : length (running p) < workers;
  finv_all : S (length (running p)) < workers → cursor p = length files; finv_tries : ∀ r, r ∈ running p → r.2 < attempts;
  finv_sizes : ∀ i b, (i, b) ∈ received p → ∃ f, files !! i = Some f ∧ size_ok f b = true
}.

Lemma take_next_inv workers p : free_inv workers p → pool_inv workers (take_next p) ∧ work (take_next p) = work p.
Proof using Type.
  intros []. unfold take_next. destruct (Nat.ltb_spec (cursor p) (length files)) as [Hc|Hc].
  - split.
    + split; try done.
      * change ((running p ++ [(cursor p, 0)]).*1 ++ (received p).*1 ++ failed p ≡ₚ seq 0 (S (cursor p))). rewrite seq_S, <- finv_places0. unfold places.
        rewrite fmap_app. cbn [fmap list_fmap fst Nat.add]. solve_Permutation.
      * change (length (running p ++ [(cursor p, 0)]) ≤ workers). rewrite length_app. cbn [length]. lia.
      * change (length (running p ++ [(cursor p, 0)]) < workers → S (cursor p) = length files). rewrite length_app. cbn [length]. lia.
      * intros r [Hr|Hr]%elem_of_app; [by apply finv_tries0|]. apply list_elem_of_singleton in Hr as ->. unfold attempts. cbn. lia.
    + change (attempts * (length files - S (cursor p)) + sum_list_with (λ r, attempts - r.2) (running p ++ [(cursor p, 0)]) = work p).
      rewrite sum_list_with_app. unfold work, attempts. cbn [sum_list_with snd]. lia.
  - split; [|done]. split; try done; lia.
Qed.

Lemma received_before workers p i : pool_inv workers p → i ∈ places p → i < length files.
Proof using Type. intros [] Hi. rewrite pinv_places0 in Hi. apply elem_of_seq in Hi. lia. Qed.

(** The parts of an attempt: the file is free again with one attempt less, or its worker takes the next one. *)
Lemma attempt_inv workers p p' i body : pool_inv workers p → attempt i body p = Some p' → pool_inv workers p' ∧ work p' < work p.
Proof using Type.
  intros Hi. unfold attempt. destruct (List.find _ _) as [[j t]|] eqn:Hf; [|done]. apply find_elem in Hf as [Hin Hj]. cbn [fst] in Hj. apply Nat.eqb_eq in Hj as ->.
  destruct (files !! i) as [f|] eqn:Ef; [|done].
  assert (Hnd : NoDup (running p).*1).
  { pose proof (NoDup_seq 0 (cursor p)) as H. rewrite <- (pinv_places _ _ Hi) in H. unfold places in H. by apply NoDup_app in H as [H _]. }
  pose proof (take_one _ _ _ Hnd Hin) as Hone. set (rest := List.filter _ (running p)) in *.
  pose proof (Permutation_length Hone) as Hlen. cbn [length] in Hlen. destruct Hi.
  assert (Ht : t < attempts) by apply (pinv_tries0 (i, t) Hin).
  assert (Hwork : sum_list_with (λ r, attempts - r.2) (running p) = (attempts - t) + sum_list_with (λ r, attempts - r.2) rest).
  { rewrite Hone. done. }
  assert (Hplaces : ∀ a b, a ++ b ≡ₚ (received p).*1 ++ failed p ++ [i] → rest.*1 ++ a ++ b ≡ₚ seq 0 (cursor p)).
  { intros a b ->. rewrite <- pinv_places0. unfold places. rewrite Hone. cbn [fmap list_fmap fst]. solve_Permutation. }
  assert (Hfree : ∀ r k, r.*1 ++ k ≡ₚ (received p).*1 ++ failed p ++ [i] →
    (∀ i b, (i, b) ∈ r → ∃ f, files !! i = Some f ∧ size_ok f b = true) →
    pool_inv workers (take_next {| cursor := cursor p; running := rest; received := r; failed := k |})
    ∧ work (take_next {| cursor := cursor p; running := rest; received := r; failed := k |}) < work p).
  { intros r k Hr Hs. assert (Hfr : free_inv workers {| cursor := cursor p; running := rest; received := r; failed := k |}).
    { split; cbn [cursor running received failed]; try done; [by apply Hplaces|lia|intros ?; apply pinv_all0; lia|].
      intros x Hx. apply pinv_tries0. rewrite Hone. by apply elem_of_cons; right. }
    apply take_next_inv in Hfr as [H1 H2]. split; [done|]. rewrite H2. unfold work. cbn [cursor running]. rewrite Hwork. lia. }
  assert (Hretry : S t < attempts → pool_inv workers { p with running := rest ++ [(i, S t)] } ∧ work { p with running := rest ++ [(i, S t)] } < work p).
  { intros HS. split.
    - split; try done.
      + change ((rest ++ [(i, S t)]).*1 ++ (received p).*1 ++ failed p ≡ₚ seq 0 (cursor p)). rewrite <- pinv_places0. unfold places. rewrite Hone, fmap_app.
        cbn [fmap list_fmap fst]. solve_Permutation.
      + change (length (rest ++ [(i, S t)]) ≤ workers). rewrite length_app. cbn [length]. lia.
      + change (length (rest ++ [(i, S t)]) < workers → cursor p = length files). rewrite length_app. cbn [length]. intros ?. apply pinv_all0. lia.
      + intros x [Hx|Hx]%elem_of_app; [|by apply list_elem_of_singleton in Hx as ->]. apply pinv_tries0. rewrite Hone. by apply elem_of_cons; right.
    - change (attempts * (length files - cursor p) + sum_list_with (λ r, attempts - r.2) (rest ++ [(i, S t)]) < work p).
      unfold work. rewrite Hwork, sum_list_with_app. cbn [sum_list_with snd]. lia. }
  assert (Hfail : (if S t <? attempts then Some { p with running := rest ++ [(i, S t)] } else Some (take_next { p with running := rest; failed := failed p ++ [i] })) = Some p' →
    pool_inv workers p' ∧ work p' < work p).
  { destruct (Nat.ltb_spec (S t) attempts); intros [= <-]; [by apply Hretry|]. apply (Hfree (received p) (failed p ++ [i])); done. }
  destruct body as [b|]; [|done]. destruct (size_ok f b) eqn:Es; [|done]. intros [= <-].
  apply (Hfree (received p ++ [(i, b)]) (failed p)).
  - rewrite fmap_app. cbn [fmap list_fmap fst]. solve_Permutation.
  - intros k c [Hk|Hk]%elem_of_app; [by apply pinv_sizes0|]. apply list_elem_of_singleton in Hk as [= -> ->]. by exists f.
Qed.

Lemma start_spec k :
  fetchReviewFiles k = {| cursor := k `min` length files; running := (λ i, (i, 0)) <$> seq 0 (k `min` length files); received := []; failed := [] |}.
Proof using Type.
  induction k as [|k IH]; [done|]. change (fetchReviewFiles (S k)) with (take_next (fetchReviewFiles k)). rewrite IH. unfold take_next. cbn [cursor running received failed].
  destruct (Nat.ltb_spec (k `min` length files) (length files)).
  - rewrite (Nat.min_l k), (Nat.min_l (S k)) by lia. by rewrite seq_S, fmap_app.
  - by rewrite (Nat.min_r k), (Nat.min_r (S k)) by lia.
Qed.

Lemma start_inv k : pool_inv k (fetchReviewFiles k).
Proof using Type.
  rewrite start_spec. split; cbn [cursor running received failed].
  - unfold places. cbn [cursor running received failed]. rewrite <- list_fmap_compose. cbn. rewrite app_nil_r. by rewrite list_fmap_id.
  - lia.
  - rewrite length_fmap, length_seq. lia.
  - rewrite length_fmap, length_seq. lia.
  - intros r (i & -> & _)%list_elem_of_fmap. unfold attempts. cbn. lia.
  - by intros ? ? ?%elem_of_nil.
Qed.

Lemma start_work k : work (fetchReviewFiles k) = attempts * length files.
Proof using Type.
  rewrite start_spec. unfold work. cbn [cursor running].
  assert (H : ∀ n m, sum_list_with (λ r, attempts - r.2) ((λ i, (i, 0)) <$> seq m n) = attempts * n).
  { induction n as [|n IH]; intros m; [done|]. cbn [seq fmap list_fmap sum_list_with snd]. rewrite IH. unfold attempts. lia. }
  rewrite H. lia.
Qed.

Lemma pool_reached workers p : reachable (eq (fetchReviewFiles workers)) pool_step p → pool_inv workers p ∧ work p ≤ attempts * length files.
Proof using Type.
  revert p. apply invariant_reachable.
  - intros ? <-. split; [apply start_inv|by rewrite start_work].
  - intros p p' [Hi Hw] (i & body & H). apply (attempt_inv workers) in H as [H1 H2]; [|done]. split; [done|lia].
Qed.

Lemma pool_bounded workers n p p' : pool_inv workers p → nsteps pool_step n p p' → n + work p' ≤ work p.
Proof using Type.
  intros Hi Hn. induction Hn as [|n x y z (i & body & Hxy) _ IH]; [lia|]. apply (attempt_inv workers) in Hxy as [H1 H2]; [|done]. specialize (IH H1). lia.
Qed.

(** ** The archive *)

Definition entry_map (l : list (nat * file_bytes)) : list (jsstring * file_bytes) :=
  foldl (λ m '(i, b), match files !! i with Some f => set_key m (path f) b | None => m end) [] l.

Lemma entry_snoc l i b f : files !! i = Some f → entry_map (l ++ [(i, b)]) = set_key (entry_map l) (path f) b.
Proof using Type. intros Hf. unfold entry_map. rewrite foldl_snoc. by rewrite Hf. Qed.

Lemma entry_from l k b : assoc (entry_map l) k = Some b → ∃ i f, (i, b) ∈ l ∧ files !! i = Some f ∧ path f = k.
Proof using Type.
  revert b. induction l as [|[i c] l IH] using rev_ind; [done|]. intros b. destruct (files !! i) as [f|] eqn:Ef.
  - rewrite (entry_snoc l i c f Ef), assoc_set_key. case_match eqn:E.
    + intros [= ->]. exists i, f. split_and!; [apply elem_of_app; right; by left|done|]. first [done|by apply eqs_true in E|congruence].
    + intros (j & g & Hj & Hg & Hk)%IH. exists j, g. split_and!; [by apply elem_of_app; left|done|done].
  - unfold entry_map in *. rewrite foldl_snoc, Ef. intros (j & g & Hj & Hg & Hk)%IH. exists j, g. split_and!; [by apply elem_of_app; left|done|done].
Qed.

Lemma entry_of l i b f :
  NoDup (path <$> files) → NoDup l.*1 → (∀ j c, (j, c) ∈ l → is_Some (files !! j)) → (i, b) ∈ l → files !! i = Some f → assoc (entry_map l) (path f) = Some b.
Proof using Type.
  intros Hp. induction l as [|[j c] l IH] using rev_ind; [by intros _ _ ?%elem_of_nil|]. intros Hn Hall Hin Hf.
  destruct (Hall j c) as [g Hg]; [apply elem_of_app; right; by left|]. rewrite (entry_snoc l j c g Hg), assoc_set_key.
  rewrite fmap_app in Hn. apply NoDup_app in Hn as (Hn & Hd & _). apply elem_of_app in Hin as [Hin|Hin].
  - assert (Hij : i ≠ j). { intros ->. apply (Hd j); [apply list_elem_of_fmap; by exists (j, b)|by left]. }
    assert (Hpath : path f ≠ path g).
    { intros E. apply Hij. eapply (NoDup_lookup (path <$> files)); [done| |]; rewrite list_lookup_fmap; [by rewrite Hf|rewrite Hg; cbn; by rewrite E]. }
    assert (IH' : assoc (entry_map l) (path f) = Some b) by (apply IH; [done| |done|done]; intros j' c' Hj'; eapply Hall; by apply elem_of_app; left).
    case_match eqn:E; [|done]. exfalso. first [congruence|apply eqs_true in E; congruence].
  - apply list_elem_of_singleton in Hin as [= -> ->]. assert (f = g) as -> by congruence. case_match eqn:E; [done|]. exfalso. first [congruence|by rewrite eqs_refl in E].
Qed.
End pool.

(** A download: its attempts in the order in which they end, each with the body that came, if one did. *)
Definition fetch_run (files : list review_file) (workers : nat) (es : list (nat * option file_bytes)) : option pool :=
  foldl (λ p '(i, body), p ≫= attempt files i body) (Some (fetchReviewFiles files workers)) es.

Lemma fetch_run_reached files workers es p :
  fetch_run files workers es = Some p → reachable (eq (fetchReviewFiles files workers)) (pool_step files) p.
Proof.
  unfold fetch_run. revert p. induction es as [|[i b] es IH] using rev_ind; intros p; [intros [= <-]; by apply reachable_init|].
  rewrite foldl_snoc. destruct (foldl _ _ es) as [k|]; [|done]. cbn [mbind option_bind]. intros Hp. eapply reachable_step; [by apply IH|by exists i, b].
Qed.

(** The body of an attempt at the file at [i] that is accepted. *)
Definition accepted_body (files : list review_file) (e : nat * option file_bytes) : option (nat * file_bytes) :=
  f ← files !! e.1; b ← e.2; if size_ok f b then Some (e.1, b) else None.

Lemma take_next_received files p : received (take_next files p) = received p.
Proof. unfold take_next. by case_match. Qed.

Lemma received_bodies files workers es p : fetch_run files workers es = Some p → received p = omap (accepted_body files) es.
Proof.
  unfold fetch_run. revert p. induction es as [|[i body] es IH] using rev_ind; intros p.
  - intros [= <-]. by rewrite start_spec.
  - rewrite foldl_snoc. destruct (foldl _ _ es) as [k|]; [|done]. cbn [mbind option_bind]. specialize (IH k eq_refl). rewrite omap_app, <- IH.
    unfold attempt. cbn [omap list_omap]. unfold accepted_body. cbn [fst snd]. destruct (List.find _ _) as [[j t]|]; [|done]. destruct (files !! i) as [f|]; [|done].
    cbn [mbind option_bind]. destruct body as [b|]; cbn [mbind option_bind]; repeat case_match; intros [= <-]; rewrite ?take_next_received; try done; by rewrite app_nil_r.
Qed.

Lemma received_body files workers es p i b f :
  fetch_run files workers es = Some p → files !! i = Some f → (i, b) ∈ received p ↔ (i, Some b) ∈ es ∧ size_ok f b = true.
Proof.
  intros Hr Hf. rewrite (received_bodies _ _ _ _ Hr), list_elem_of_omap. split.
  - intros ([j c] & Hin & Ha). unfold accepted_body in Ha. cbn [fst snd] in Ha. destruct (files !! j) as [g|] eqn:Eg; [|done]. cbn in Ha.
    destruct c as [c|]; [|done]. cbn in Ha. destruct (size_ok g c) eqn:Es; [|done]. injection Ha as -> ->. split; [done|]. congruence.
  - intros [Hin Hs]. exists (i, Some b). split; [done|]. unfold accepted_body. cbn [fst snd]. rewrite Hf. cbn. by rewrite Hs.
Qed.

Lemma fst_unique {A B} (l : list (A * B)) i b c : NoDup l.*1 → (i, b) ∈ l → (i, c) ∈ l → b = c.
Proof.
  intros Hn [j Hj]%list_elem_of_lookup_1 [k Hk]%list_elem_of_lookup_1.
  assert (j = k) as -> by (eapply (NoDup_lookup l.*1); [done| |]; rewrite list_lookup_fmap; [by rewrite Hj|by rewrite Hk]). congruence.
Qed.

(** What the archive has under the path of a file: the only body with the file's size that came for it. *)
Definition holds_body (files : list review_file) (es : list (nat * option file_bytes)) (m : list (jsstring * file_bytes)) (i : nat) (f : review_file) : Prop :=
  ∃ b, assoc m (path f) = Some b ∧ ∀ c, (i, Some c) ∈ es ∧ size_ok f c = true ↔ c = b.

Lemma archive_bodies files workers es p :
  NoDup (path <$> files) → fetch_run files workers es = Some p → (received p).*1 ≡ₚ seq 0 (length files) →
  (∀ i f, files !! i = Some f → holds_body files es (entries files p) i f) ∧ (∀ k, is_Some (assoc (entries files p) k) → k ∈ path <$> files).
Proof.
  intros Hp Hr Hall. assert (Hn : NoDup (received p).*1) by (rewrite Hall; apply NoDup_seq).
  assert (Hin : ∀ j c, (j, c) ∈ received p → is_Some (files !! j)).
  { intros j c Hj. apply lookup_lt_is_Some. assert (j ∈ (received p).*1) as H by (apply list_elem_of_fmap; by exists (j, c)).
    rewrite Hall in H. apply elem_of_seq in H. lia. }
  split.
  - intros i f Hf. assert (i ∈ (received p).*1) as ([i' b] & E & Hi)%list_elem_of_fmap by (rewrite Hall; apply elem_of_seq; apply lookup_lt_Some in Hf; lia).
    cbn [fst] in E. subst i'. exists b. split; [by apply (entry_of files (received p) i)|]. intros c. rewrite <- (received_body _ _ _ _ i c f Hr Hf).
    split; [intros Hc; by eapply fst_unique|by intros ->].
  - intros k [b Hb]. apply entry_from in Hb as (i & f & _ & Hf & <-). apply list_elem_of_fmap. exists f. split; [done|]. by apply list_elem_of_lookup_2 in Hf.
Qed.

(** C28: the archive of a review has all its files. However the downloads of the pool end and fail ([es] lists the attempts that ended with
    the bodies that came), at most four files are under way, the download is over after at most three attempts for each file, and while it
    is not, some file is under way. When it is over, either the archive has exactly the paths of the files, and under each path the body
    that came for that very file with its size, of which there is exactly one (if the server states no size, any body that came); or the
    files named critical, or else the first one, are downloaded one by one. *)
Theorem bundle_complete files slow hardware es p :
  files ≠ [] → NoDup (path <$> files) → fetch_run files (reviewDownloadConcurrency slow hardware (length files)) es = Some p →
  length (running p) ≤ 4
  ∧ (∀ n p', nsteps (pool_step files) n p p' → n ≤ 3 * length files)
  ∧ (running p ≠ [] ↔ ∃ p', pool_step files p p')
  ∧ (running p = [] →
      (∃ m, downloadPublicationBundle files p = Archive m ∧
        (∀ i f, files !! i = Some f → holds_body files es m i f) ∧ (∀ k, is_Some (assoc m k) → k ∈ path <$> files))
      ∨ (∃ fs, downloadPublicationBundle files p = Single_files fs (length (failed p)) ∧ failed p ≠ [] ∧ fs ≠ [] ∧
          ((∀ f, f ∈ fs ↔ f ∈ files ∧ critical f = true) ∨ (∀ f, f ∈ files → critical f = false) ∧ fs = take 1 files))).
Proof.
  set (w := reviewDownloadConcurrency slow hardware (length files)). intros Hne Hp Hrun. pose proof (fetch_run_reached _ _ _ _ Hrun) as Hr.
  destruct (pool_reached files w p Hr) as [Hi Hw]. pose proof Hi as [].
  assert (Hw4 : 1 ≤ w ≤ 4) by (unfold w, reviewDownloadConcurrency; repeat case_match; lia). split_and!.
  - lia.
  - intros n p' Hn. pose proof (pool_bounded files w n p p' Hi Hn). unfold attempts in *. lia.
  - split.
    + destruct (running p) as [|[i t] l] eqn:Er; [done|]. intros _.
      assert (is_Some (files !! i)) as [f Hf].
      { apply lookup_lt_is_Some. apply (received_before files w p i Hi). unfold places. rewrite Er. by left. }
      assert (is_Some (attempt files i None p)) as [p' Hp']; [|by exists p', i, None]. unfold attempt. rewrite Er. cbn [List.find fst]. rewrite Nat.eqb_refl, Hf.
      by case_match; eexists.
    + intros (p' & i & body & H) Er. unfold attempt in H. by rewrite Er in H.
  - intros Er. assert (Hc : cursor p = length files) by (apply pinv_all0; rewrite Er; cbn; lia).
    unfold places in pinv_places0. rewrite Er, Hc in pinv_places0. cbn [fmap list_fmap app] in pinv_places0. unfold downloadPublicationBundle.
    destruct (failed p) as [|x l] eqn:Ef.
    + left. eexists. split; [done|]. rewrite app_nil_r in pinv_places0. by apply (archive_bodies files w).
    + right. eexists. split; [done|]. split; [done|]. destruct (List.filter critical files) as [|y k] eqn:Ec.
      * split; [by destruct files|]. right. split; [|done]. intros f Hin. apply not_true_iff_false. intros Hcr.
        assert (f ∈ List.filter critical files) as H by (apply elem_of_filtered; done). rewrite Ec in H. by apply elem_of_nil in H.
      * split; [done|]. left. intros f. rewrite <- Ec. apply elem_of_filtered.
Qed.

(** ** Runs *)

Module Runs.
Definition one_page : list center_event := [Page_loaded; Surface_shown 0; Answered 0 (Tickets_page [7; 8] 31)].

Lemma run_reached es s : center_run es center_init = Some s → center_reached s.
Proof.
  assert (∀ k, center_reached k → center_run es k = Some s → center_reached s) as H; [|by apply H, reachable_init].
  induction es as [|e es IH]; cbn [center_run]; [by intros k Hk [= <-]|]. intros k Hk. destruct (center_step e k) as [k'|] eqn:E; [|done].
  cbn [mbind option_bind]. apply IH. eapply reachable_step; [done|by exists e].
Qed.

Definition loaded : ticket_center := default center_init (center_run one_page center_init).

(** 31 tickets: the first page has a button to the next one and none before. *)
Lemma list_follows_filters_witness :
  shown_results loaded = Listed (filters loaded) [7; 8] 31 0 ∧ (is_Some (center_step Next loaded) ↔ 0 + pageSize < 31) ∧ (is_Some (center_step Prev loaded) ↔ 0 < 0).
Proof.
  assert (Hr : center_reached loaded) by (apply (run_reached one_page); reflexivity).
  destruct (proj1 (list_follows_filters loaded Hr) (filters loaded) [7; 8] 31 0) as (_ & _ & _ & Hp & Hn); [reflexivity|reflexivity|].
  split_and!; [reflexivity|exact Hn|exact Hp].
Defined.

(** The last ticket of the third page was closed meanwhile: the second page is loaded instead. *)
Example shrunk_list :
  shown_results <$> (center_run (one_page ++ [Next; Surface_shown 1; Answered 1 (Tickets_page [9] 31); Next; Surface_shown 2; Answered 2 (Tickets_page [] 30);
    Surface_shown 3; Answered 3 (Tickets_page [9] 30)]) center_init)
  = Some (Listed {| requested := false; filter_status := js "unprocessed"; filter_types := []; offset := 15 |} [9] 30 15).
Proof. by vm_compute. Qed.

(** A denial that comes late leaves the page although a later load has shown its rows. *)
Example late_denial :
  (λ s, (left s, shown_results s)) <$> (center_run [Page_loaded; Surface_shown 0; Choose_view true; Surface_shown 1; Answered 1 (Tickets_page [] 0); Answered 0 Denied] center_init)
  = Some (true, Listed {| requested := true; filter_status := js "unprocessed"; filter_types := []; offset := 0 |} [] 0 0).
Proof. by vm_compute. Qed.

Definition jar : list review_file := [{| path := js "a.pom"; size := 2; critical := false |}; {| path := js "a.jar"; size := 0; critical := true |}].
Definition after : list (nat * option file_bytes) → option pool := fetch_run jar (reviewDownloadConcurrency false 8 2).
Definition complete_run : list (nat * option file_bytes) := [(1, Some (js "PK")); (0, None); (0, Some (js "too long")); (0, Some (js "<>"))].
Definition complete_pool : pool := default (fetchReviewFiles jar 2) (after complete_run).

(** The third attempt at the first file succeeds: its body is in the archive. *)
Lemma bundle_complete_witness :
  running complete_pool = [] ∧ downloadPublicationBundle jar complete_pool = Archive [(js "a.jar", js "PK"); (js "a.pom", js "<>")]
  ∧ (holds_body jar complete_run [(js "a.jar", js "PK"); (js "a.pom", js "<>")] 0 {| path := js "a.pom"; size := 2; critical := false |}).
Proof.
  assert (Hn : NoDup (path <$> jar)) by (apply (bool_decide_eq_true (NoDup (path <$> jar))); reflexivity).
  split_and!; [reflexivity|reflexivity|].
  destruct (bundle_complete jar false 8 complete_run complete_pool) as (_ & _ & _ & H); [done|exact Hn|reflexivity|].
  destruct (H eq_refl) as [(m & E & Hb & _)|(fs & E & _)]; [|discriminate E]. injection E as <-. exact (Hb 0 _ eq_refl).
Defined.

(** After three failed attempts the critical file is downloaded on its own. *)
Example gives_up :
  downloadPublicationBundle jar <$> after [(0, None); (1, Some (js "PK")); (0, Some (js "...")); (0, None)]
  = Some (Single_files [{| path := js "a.jar"; size := 0; critical := true |}] 1).
Proof. by vm_compute. Qed.
End Runs.
