(* ===== verification/Snippets.v ===== *)
(** * Configuration snippets of a repository

    [internal/service/frontend/renop-html/js/browser/snippets.js]: the coordinates of a Maven
    artifact, the snippets of each format, and the card that shows them while navigations, answers
    and clicks on its tabs interleave. The parts of a path are decoded by
    [BrowserUtils.decodePathSegment] before. Labels are kept by their keys; scrolling, heights and the
    copy button are left out. *)

From S2P Require Import Prelude JsText JsValue Uri Formats.

#[local] Arguments cons {A} & _ _.

Definition nl : jsstring := [chr 10].
Definition q : jsstring := [chr 34].

Definition cat (parts : list jsstring) : jsstring := mjoin parts.

(** ** Maven coordinates *)

(** A metadata document: the texts of its [groupId], [artifactId] and [version] elements. *)
Record xml := { groupIds : list jsstring; artifactIds : list jsstring; versions : list jsstring }.

Record coordinates := { groupId : jsstring; artifactId : jsstring; version : jsstring }.

Definition xmlText (nodes : list jsstring) : jsstring := default [] (head nodes).

Section coordinates.
(** [fetch]: whether the answer is ok and its text, or a rejection; [parse]: [None] is a document
    with a parser error. *)
Variable fetch : jsstring → result unit (bool * jsstring).
Variable parse : jsstring → option xml.

(** [null] and every caught error are [None]. *)
Definition detectMavenCoordinates (path : jsstring) (pathParts : list jsstring) : option coordinates :=
  if (length pathParts <=? 3)%nat then None
  else
    let directoryPath := if endsWith path "/" then path else path ++ js "/" in
    let own := directoryPath ++ js "maven-metadata.xml" in
    match fetch (js "/api/repositories/details" ++ own) with
    | Throw _ => None
    | Ok (ok, _) =>
        let parentPath := js "/" ++ join "/" (removelast pathParts) ++ js "/" in
        let metadataPath := if ok then own else parentPath ++ js "maven-metadata.xml" in
        let found := if ok then Ok true else
          match fetch (js "/api/repositories/details" ++ metadataPath) with
          | Throw e => Throw e | Ok (ok, _) => Ok ok end in
        let version := if ok then [] else default [] (last pathParts) in
        match found with
        | Throw _ | Ok false => None
        | Ok true =>
            match fetch metadataPath with
            | Throw _ | Ok (false, _) => None
            | Ok (true, text) =>
                match parse text with
                | None => None
                | Some doc =>
                    let g := xmlText (groupIds doc) in
                    let a := xmlText (artifactIds doc) in
                    let v := if truthy version then version else default [] (last (versions doc)) in
                    if truthy g && truthy a && truthy v
                    then Some {| groupId := g; artifactId := a; version := v |} else None
                end
            end
        end
    end.
End coordinates.

(** ** The snippets of each format *)

(** The page's address. *)
Record page_address := { origin : jsstring; host : jsstring; instance : jsstring }.

Definition snippets := list (jsstring * jsstring).

Definition artifact_snippets (c : coordinates) : snippets :=
  let gav := groupId c ++ js ":" ++ artifactId c ++ js ":" ++ version c in
  [ (js "maven", cat [js "<dependency>"; nl; js "  <groupId>"; groupId c; js "</groupId>"; nl;
                      js "  <artifactId>"; artifactId c; js "</artifactId>"; nl;
                      js "  <version>"; version c; js "</version>"; nl; js "</dependency>"]);
    (js "gradle-kotlin", cat [js "implementation("; q; gav; q; js ")"]);
    (js "gradle-groovy", cat [js "implementation '"; gav; js "'"]);
    (js "sbt", cat [js "libraryDependencies += "; q; groupId c; q; js " % "; q; artifactId c; q;
                    js " % "; q; version c; q]) ].

(** [instanceName.replace(/[^a-zA-Z0-9-]/g, '-').toLowerCase()] *)
Definition clean_name (name : jsstring) : jsstring :=
  toLowerCase ((λ c, if is_alnum c || ascii_eqb c "-" then c else "-"%char) <$> name).

Definition repository_snippets (p : page_address) (pathParts : list jsstring) : snippets :=
  let repositoryPath := match pathParts with r :: _ => js "/" ++ encodeURIComponent r | [] => [] end in
  let url := origin p ++ repositoryPath in
  let id := match pathParts with
            | r :: _ => clean_name (instance p) ++ js "-" ++ r | [] => clean_name (instance p) end in
  let name := match pathParts with r :: _ => instance p ++ js " - " ++ r | [] => instance p end in
  [ (js "maven", cat [js "<repository>"; nl; js "  <id>"; id; js "</id>"; nl; js "  <name>"; name;
                      js "</name>"; nl; js "  <url>"; url; js "</url>"; nl; js "</repository>"]);
    (js "gradle-kotlin", cat [js "maven {"; nl; js "  url = uri("; q; url; q; js ")"; nl; js "}"]);
    (js "gradle-groovy", cat [js "maven {"; nl; js "  url "; q; url; q; nl; js "}"]);
    (js "sbt", cat [js "resolvers += "; q; name; q; js " at "; q; url; q]) ].

(** [artifact] and the snippets. *)
Definition buildMavenSnippets (p : page_address) (c : option coordinates) (pathParts : list jsstring) : bool * snippets :=
  match c with
  | Some c => (true, artifact_snippets c)
  | None => (false, repository_snippets p pathParts)
  end.

Definition registry_url (p : page_address) (repositoryName : jsstring) : jsstring :=
  cat [origin p; js "/"; encodeURIComponent repositoryName; js "/"].

Definition buildCargoSnippets (p : page_address) (repositoryName : jsstring) : snippets :=
  let sparseURL := js "sparse+" ++ registry_url p repositoryName in
  [ (js "cargo-registry", cat [js "[registries."; repositoryName; js "]"; nl; js "index = "; q; sparseURL; q]);
    (js "cargo-source", cat [js "[source.crates-io]"; nl; js "replace-with = "; q; repositoryName; q; nl; nl;
                             js "[source."; repositoryName; js "]"; nl; js "registry = "; q; sparseURL; q]);
    (js "cargo-login", js "cargo login --registry " ++ repositoryName);
    (js "cargo-publish", js "cargo publish --registry " ++ repositoryName) ].

Definition buildDockerSnippets (p : page_address) (repositoryName : jsstring) : snippets :=
  let prefix := host p ++ js "/" ++ repositoryName in
  [ (js "docker-pull", cat [js "docker pull "; prefix; js "/<image>:<tag>"]);
    (js "docker-tag", cat [js "docker tag <source-image>:<tag> "; prefix; js "/<image>:<tag>"]);
    (js "docker-push", cat [js "docker push "; prefix; js "/<image>:<tag>"]);
    (js "docker-login", js "docker login " ++ host p) ].

Definition buildNPMSnippets (p : page_address) (repositoryName : jsstring) : snippets :=
  let registryURL := registry_url p repositoryName in
  let authPath := cat [host p; js "/"; encodeURIComponent repositoryName; js "/"] in
  [ (js "npm-config", cat [js "npm config set registry "; registryURL; nl; js "npm config set //"; authPath;
                           js ":_authToken <API_TOKEN>"]);
    (js "npm-install", js "npm install <package> --registry " ++ registryURL);
    (js "npm-publish", js "npm publish --registry " ++ registryURL) ].

(** A text, or the translation of a key. *)
Inductive label := Text (s : jsstring) | Translated (key : jsstring).

Definition snippetTabLabel (type : jsstring) : label :=
  if eqs type "gradle-kotlin" then Text "Gradle Kotlin"
  else if eqs type "gradle-groovy" then Text "Gradle Groovy"
  else if eqs type "sbt" then Text "SBT"
  else if eqs type "cargo-registry" then Translated "details.cargoRegistryTab"
  else if eqs type "cargo-source" then Translated "details.cargoSourceTab"
  else if eqs type "cargo-login" then Translated "details.cargoLoginTab"
  else if eqs type "cargo-publish" then Translated "details.cargoPublishTab"
  else if eqs type "docker-pull" then Translated "details.dockerPullTab"
  else if eqs type "docker-tag" then Translated "details.dockerTagTab"
  else if eqs type "docker-push" then Translated "details.dockerPushTab"
  else if eqs type "docker-login" then Translated "details.dockerLoginTab"
  else if eqs type "npm-config" then Translated "details.npmConfigTab"
  else if eqs type "npm-install" then Translated "details.npmInstallTab"
  else if eqs type "npm-publish" then Translated "details.npmPublishTab"
  else Text "Maven".

(** ** The card *)

Record snippet_tab := { type : jsstring; tab_label : label; active : bool }.

(** A call of [updateSnippets] that waits: for the details of the repository, or, with the format
    that is not one of the others, for the coordinates. *)
Inductive stage := Details | Coordinates (f : descriptor).
Record call := { sequence : nat; parts : list jsstring; waiting : stage }.

(** [fade]: the snippet a click will show when its timer fires. *)
Record snippet_card := {
  currentSnippets : snippets;
  snippetUpdateSequence : nat;
  visible : bool; sidebar : bool;
  title : jsstring; subtitle : jsstring;
  tabs : list snippet_tab;
  code : jsstring;
  fade : option jsstring;
  calls : list call
}.

(** [currentSnippets[type] || ''] *)
Definition snippet (s : snippets) (t : jsstring) : jsstring := default [] (assoc s t).

Definition renderSnippetTabs (types : list jsstring) : list snippet_tab :=
  imap (λ i t, {| type := t; tab_label := snippetTabLabel t; active := (i =? 0)%nat |}) types.

Definition set_layout (v side : bool) (cs : list call) (n : nat) (c : snippet_card) : snippet_card :=
  {| currentSnippets := currentSnippets c; snippetUpdateSequence := n; visible := v; sidebar := side;
     title := title c; subtitle := subtitle c; tabs := tabs c; code := code c; fade := fade c;
     calls := cs |}.

(** [updateSnippets] up to its first [await]; the parts are the decoded segments of the path. *)
Definition update_begin (pathParts : list jsstring) (c : snippet_card) : snippet_card :=
  let n := S (snippetUpdateSequence c) in
  match pathParts with
  | [] => set_layout false false (calls c) n c
  | r :: _ =>
      if eqs r "index.html" then set_layout false false (calls c) n c
      else set_layout false true (calls c ++ [{| sequence := n; parts := pathParts; waiting := Details |}]) n c
  end.

Definition without (k : call) (cs : list call) : list call :=
  List.filter (λ k', negb (sequence k' =? sequence k)%nat) cs.

(** A call that is overtaken goes on without effect. *)
Definition resume_update (k : call) (go : snippet_card → snippet_card) (c : snippet_card) : snippet_card :=
  let c := set_layout (visible c) (sidebar c) (without k (calls c)) (snippetUpdateSequence c) c in
  if negb (sequence k =? snippetUpdateSequence c)%nat then c else go c.

Definition is_format (d : descriptor) (name : jsstring) : bool :=
  match d with Descriptor f => eqs (id f) name | InheritedMember => false end.

Definition set_snippets (s : snippets) (ti su : jsstring) (ts : list snippet_tab) (co : jsstring) (c : snippet_card) : snippet_card :=
  {| currentSnippets := s; snippetUpdateSequence := snippetUpdateSequence c; visible := visible c;
     sidebar := sidebar c; title := ti; subtitle := su; tabs := ts; code := co; fade := fade c;
     calls := calls c |}.

(** The end of a call. Without a descriptor the list of tabs is emptied, and its missing length throws. *)
Definition show_snippets (d : descriptor) (s : snippets) (ti su : jsstring) (c : snippet_card) : snippet_card :=
  match d with
  | Descriptor f =>
      set_snippets s ti su (renderSnippetTabs (snippetTabs f))
        (snippet s (default [] (head (snippetTabs f)))) c
  | InheritedMember => set_snippets s ti su [] (code c) c
  end.

(** The answer of the details: the stored format ([JUndef] when there is none). *)
Definition on_details (p : page_address) (k : call) (fmt : jsval) : snippet_card → snippet_card :=
  resume_update k (λ c,
    let d := getRepositoryFormat fmt in
    let r := default [] (head (parts k)) in
    if is_format d "files" then set_snippets [] (title c) (subtitle c) (tabs c) (code c) c
    else
      let c := set_layout true (sidebar c) (calls c) (snippetUpdateSequence c) c in
      if is_format d "cargo" then
        show_snippets d (buildCargoSnippets p r) "details.cargoTitle" "details.cargoSubtitle" c
      else if is_format d "docker" then
        show_snippets d (buildDockerSnippets p r) "details.dockerTitle" "details.dockerSubtitle" c
      else if is_format d "npm" then
        show_snippets d (buildNPMSnippets p r) "details.npmTitle" "details.npmSubtitle" c
      else
        set_layout true (sidebar c)
          (calls c ++ [{| sequence := sequence k; parts := parts k; waiting := Coordinates d |}])
          (snippetUpdateSequence c) c).

Definition on_coordinates (p : page_address) (k : call) (d : descriptor) (co : option coordinates) : snippet_card → snippet_card :=
  resume_update k (λ c,
    let '(artifact, s) := buildMavenSnippets p co (parts k) in
    show_snippets d s (if artifact then "details.artifactTitle" else "details.title") "details.subtitle" c).

(** A click on a tab: it becomes the active one, and its snippet is shown after the fade. *)
Definition handleSnippetTabClick (t : jsstring) (c : snippet_card) : snippet_card :=
  {| currentSnippets := currentSnippets c; snippetUpdateSequence := snippetUpdateSequence c;
     visible := visible c; sidebar := sidebar c; title := title c; subtitle := subtitle c;
     tabs := (λ b, {| type := type b; tab_label := tab_label b; active := eqs (type b) t |}) <$> tabs c;
     code := code c; fade := Some t; calls := calls c |}.

(** The fade ends. *)
Definition applySnippetChange (t : jsstring) (c : snippet_card) : snippet_card :=
  {| currentSnippets := currentSnippets c; snippetUpdateSequence := snippetUpdateSequence c;
     visible := visible c; sidebar := sidebar c; title := title c; subtitle := subtitle c;
     tabs := tabs c; code := snippet (currentSnippets c) t; fade := None; calls := calls c |}.

Inductive event :=
  | Navigate (pathParts : list jsstring)
  | GotDetails (n : nat) (fmt : jsval)
  | GotCoordinates (n : nat) (co : option coordinates)
  | Click (t : jsstring)
  | FadeEnds.

Definition waiting_call (n : nat) (c : snippet_card) : option call := List.find (λ k, sequence k =? n)%nat (calls c).

Definition exec (p : page_address) (e : event) (c : snippet_card) : option snippet_card :=
  match e with
  | Navigate pathParts => Some (update_begin pathParts c)
  | GotDetails n fmt =>
      match waiting_call n c with
      | Some k => match waiting k with Details => Some (on_details p k fmt c) | _ => None end
      | None => None
      end
  | GotCoordinates n co =>
      match waiting_call n c with
      | Some k => match waiting k with Coordinates f => Some (on_coordinates p k f co c) | _ => None end
      | None => None
      end
  | Click t => if existsb (λ b, eqs (type b) t) (tabs c) then Some (handleSnippetTabClick t c) else None
  | FadeEnds => match fade c with Some t => Some (applySnippetChange t c) | None => None end
  end.

Fixpoint run (p : page_address) (es : list event) (c : snippet_card) : option snippet_card :=
  match es with
  | [] => Some c
  | e :: es => match exec p e c with Some c' => run p es c' | None => None end
  end.

Definition empty_card : snippet_card :=
  {| currentSnippets := []; snippetUpdateSequence := 0; visible := false; sidebar := false; title := [];
     subtitle := []; tabs := []; code := []; fade := None; calls := [] |}.

(** ** Every tab has its snippet *)

(** The snippets the code builds for a format. *)
Definition built (p : page_address) (f : format) (pathParts : list jsstring) (co : option coordinates) : snippets :=
  let r := default [] (head pathParts) in
  if eqs (id f) "cargo" then buildCargoSnippets p r
  else if eqs (id f) "docker" then buildDockerSnippets p r
  else if eqs (id f) "npm" then buildNPMSnippets p r
  else (buildMavenSnippets p co pathParts).2.

Lemma built_tabs p f pathParts co :
  f ∈ FORMAT_CATALOG.*2 → eqs (id f) "files" = false →
  (built p f pathParts co).*1 = snippetTabs f ∧ Forall (λ s, s.2 ≠ []) (built p f pathParts co) ∧
  NoDup (snippetTabs f) ∧ snippetTabs f ≠ [].
Proof.
  intros Hf Hn. assert (f = maven ∨ f = maven_classic ∨ f = cargo ∨ f = docker ∨ f = npm) as Hc.
  { change (FORMAT_CATALOG.*2) with [maven; maven_classic; files; cargo; docker; npm] in Hf.
    rewrite !elem_of_cons, elem_of_nil in Hf. destruct Hf as [?|[?|[->|[?|[?|[?|[]]]]]]]; [tauto..|done| | |]; tauto. }
  destruct Hc as [->|[->|[->|[->| ->]]]]; unfold built; cbn [id]; try destruct co;
    (split; [reflexivity|split; [by repeat constructor|split; [|done]]]);
    apply (bool_decide_unpack _); vm_compute; exact I.
Qed.

(** ** What the card shows *)

(** The tabs with one of them active. *)
Definition tabs_at (types : list jsstring) (t : jsstring) : list snippet_tab :=
  (λ x, {| type := x; tab_label := snippetTabLabel x; active := eqs x t |}) <$> types.

(** A finished card: its tabs are those of the snippets, one is active, and the code shown is its
    snippet, or is about to be after a click. *)
Definition finished (s : snippets) (c : snippet_card) : Prop :=
  currentSnippets c = s ∧
  ∃ t, t ∈ s.*1 ∧ tabs c = tabs_at s.*1 t ∧
    match fade c with None => code c = snippet s t | Some t' => t' = t end.

Lemma render_tabs_at types t0 rest :
  types = t0 :: rest → NoDup types → renderSnippetTabs types = tabs_at types t0.
Proof.
  intros -> [Hn _]%NoDup_cons. unfold renderSnippetTabs, tabs_at. cbn [imap]. csimpl. f_equal.
  - by rewrite eqs_refl.
  - apply list_eq. intros i. rewrite list_lookup_imap, list_lookup_fmap.
    destruct (rest !! i) as [x|] eqn:Ex; cbn; [|done]. do 2 f_equal.
    symmetry. apply not_true_iff_false. intros ->%eqs_true. apply Hn. by eapply list_elem_of_lookup_2.
Qed.

Lemma click_finished s t c : finished s c → existsb (λ b, eqs (type b) t) (tabs c) = true → finished s (handleSnippetTabClick t c).
Proof.
  intros (Hs & t0 & _ & Ht & _) Hx. split; [done|]. exists t. rewrite Ht in Hx.
  apply existsb_elem in Hx as (b & Hb & <-%eqs_true). apply list_elem_of_fmap in Hb as (x & -> & Hx).
  cbn. split_and!; [done| |done]. unfold handleSnippetTabClick. cbn. rewrite Ht. unfold tabs_at.
  rewrite <- list_fmap_compose. done.
Qed.

Lemma fade_finished s t c : finished s c → fade c = Some t → finished s (applySnippetChange t c).
Proof.
  intros (Hs & t0 & Hin & Ht & Hf) Hc. rewrite Hc in Hf. subst t0. split; [done|]. exists t.
  cbn. by rewrite Hs.
Qed.

(** An answer for a call that has been overtaken. *)
Definition overtaken (n : nat) (c : snippet_card) : Prop := n ≠ snippetUpdateSequence c.

Lemma resume_overtaken k go c :
  overtaken (sequence k) c →
  resume_update k go c = set_layout (visible c) (sidebar c) (without k (calls c)) (snippetUpdateSequence c) c.
Proof. intros Hn. unfold resume_update. cbn. apply Nat.eqb_neq in Hn. by rewrite Hn. Qed.

(** Events that belong to the card as it is: clicks, fades, and answers that come too late. *)
Definition local_event (e : event) (c : snippet_card) : Prop :=
  match e with
  | Click _ | FadeEnds => True
  | GotDetails n _ | GotCoordinates n _ => overtaken n c
  | Navigate _ => False
  end.

Lemma find_call_sequence n c k : waiting_call n c = Some k → sequence k = n.
Proof. intros [_ H]%find_elem. by apply Nat.eqb_eq in H. Qed.

Lemma local_finished p s e c c' :
  finished s c → local_event e c → exec p e c = Some c' →
  finished s c' ∧ snippetUpdateSequence c' = snippetUpdateSequence c ∧ visible c' = visible c.
Proof.
  intros Hc Hl. destruct e as [ps|n fmt|n co|t|]; cbn [exec local_event] in *; [done| | | |].
  - destruct (waiting_call n c) as [k|] eqn:Ek; [|done]. destruct (waiting k); [|done]. intros [= <-].
    apply find_call_sequence in Ek as <-. unfold on_details. by rewrite resume_overtaken.
  - destruct (waiting_call n c) as [k|] eqn:Ek; [|done]. destruct (waiting k); [done|]. intros [= <-].
    apply find_call_sequence in Ek as <-. unfold on_coordinates. by rewrite resume_overtaken.
  - destruct (existsb _ _) eqn:Et; [|done]. intros [= <-]. split; [by apply click_finished|done].
  - destruct (fade c) as [t|] eqn:Ef; [|done]. intros [= <-]. split; [by apply fade_finished|done].
Qed.

Fixpoint local_run (p : page_address) (es : list event) (c c' : snippet_card) : Prop :=
  match es with
  | [] => c = c'
  | e :: es => local_event e c ∧ ∃ c1, exec p e c = Some c1 ∧ local_run p es c1 c'
  end.

Lemma local_run_finished p s es c c' :
  finished s c → local_run p es c c' → finished s c' ∧ visible c' = visible c.
Proof.
  revert c. induction es as [|e es IH]; intros c Hc; cbn [local_run]; [by intros <-|].
  intros (Hl & c1 & He & Hr). destruct (local_finished p s e c c1 Hc Hl He) as (H1 & _ & H3).
  destruct (IH c1 H1 Hr) as [? ?]. split; [done|congruence].
Qed.


(** ** From a navigation to its card *)

(** No call is newer than the last navigation. *)
Definition calls_ok (c : snippet_card) : Prop := Forall (λ k, sequence k ≤ snippetUpdateSequence c)%nat (calls c).

Lemma without_ok k cs n : Forall (λ k', sequence k' ≤ n)%nat cs → Forall (λ k', sequence k' ≤ n)%nat (without k cs).
Proof.
  intros H. apply List.Forall_forall. intros k' [Hk _]%filter_In. rewrite List.Forall_forall in H. by apply H.
Qed.

Lemma resume_ok k go c :
  calls_ok c → (∀ c', calls_ok c' → sequence k = snippetUpdateSequence c' → calls_ok (go c')) →
  calls_ok (resume_update k go c).
Proof.
  intros Hc Hg. assert (calls_ok (set_layout (visible c) (sidebar c) (without k (calls c)) (snippetUpdateSequence c) c))
    by (by apply without_ok).
  unfold resume_update. cbn. destruct (sequence k =? snippetUpdateSequence c)%nat eqn:E; cbn; [|done].
  apply Hg; [done|]. by apply Nat.eqb_eq in E.
Qed.

Lemma show_calls_ok d s ti su c : calls_ok c → calls_ok (show_snippets d s ti su c).
Proof. by destruct d. Qed.

Lemma on_details_ok p k fmt c : calls_ok c → calls_ok (on_details p k fmt c).
Proof.
  intros Hc. apply resume_ok; [done|]. clear c Hc. intros c Hc Hk. cbv zeta.
  destruct (is_format _ "files"); [done|]. repeat (destruct (is_format _ _); [by apply show_calls_ok|]).
  apply Forall_app_2; [done|]. repeat constructor. cbn. lia.
Qed.

Lemma exec_ok p e c c' : calls_ok c → exec p e c = Some c' → calls_ok c'.
Proof.
  intros Hc. destruct e as [ps|n fmt|n co|t|]; cbn [exec].
  - intros [= <-]. assert (Forall (λ k, sequence k ≤ S (snippetUpdateSequence c))%nat (calls c)) as Ho
      by (eapply Forall_impl; [exact Hc|cbn; lia]).
    unfold update_begin. destruct ps as [|r ps]; [exact Ho|]. destruct (eqs r "index.html"); [exact Ho|].
    apply Forall_app_2; [exact Ho|]. by repeat constructor.
  - destruct (waiting_call n c) as [k|]; [|done]. destruct (waiting k); [|done]. intros [= <-]. by apply on_details_ok.
  - destruct (waiting_call n c) as [k|]; [|done]. destruct (waiting k); [done|]. intros [= <-].
    apply resume_ok; [done|]. intros c0 Hc0 _. destruct (buildMavenSnippets _ _ _). by apply show_calls_ok.
  - destruct (existsb _ _); [|done]. by intros [= <-].
  - destruct (fade c); [|done]. by intros [= <-].
Qed.

Lemma run_ok p es c c' : calls_ok c → run p es c = Some c' → calls_ok c'.
Proof.
  revert c. induction es as [|e es IH]; intros c Hc; cbn [run]; [by intros [= <-]|].
  destruct (exec p e c) as [c1|] eqn:E; [|done]. apply IH. by eapply exec_ok.
Qed.

Lemma find_app (cs : list call) (k : call) n :
  Forall (λ k', sequence k' ≠ n) cs → sequence k = n →
  List.find (λ k', sequence k' =? n)%nat (cs ++ [k]) = Some k.
Proof.
  intros H Hk. induction H as [|k' cs H _ IH]; cbn.
  - by rewrite Hk, Nat.eqb_refl.
  - apply Nat.eqb_neq in H. by rewrite H.
Qed.

Lemma find_without (k : call) cs n :
  sequence k ≠ n → List.find (λ k', sequence k' =? n)%nat (without k cs) = List.find (λ k', sequence k' =? n)%nat cs.
Proof.
  intros H. induction cs as [|k' cs IH]; [done|]. unfold without. cbn.
  destruct (sequence k' =? sequence k)%nat eqn:E; cbn.
  - apply Nat.eqb_eq in E. destruct (sequence k' =? n)%nat eqn:E2; [|done]. apply Nat.eqb_eq in E2. congruence.
  - by destruct (sequence k' =? n)%nat.
Qed.

Lemma without_none (k : call) cs : Forall (λ k', sequence k' ≠ sequence k) (without k cs).
Proof.
  apply List.Forall_forall. intros k' [_ H]%filter_In. by apply negb_true_iff, Nat.eqb_neq in H.
Qed.

Lemma local_waits p e c c' :
  local_event e c → exec p e c = Some c' →
  snippetUpdateSequence c' = snippetUpdateSequence c ∧ visible c' = visible c ∧
  waiting_call (snippetUpdateSequence c) c' = waiting_call (snippetUpdateSequence c) c.
Proof.
  intros Hl. destruct e as [ps|n fmt|n co|t|]; cbn [exec local_event] in *; [done| | | |].
  - destruct (waiting_call n c) as [k|] eqn:Ek; [|done]. destruct (waiting k); [|done]. intros [= <-].
    apply find_call_sequence in Ek as <-. unfold on_details. rewrite resume_overtaken by done.
    split_and!; [done..|]. by apply find_without.
  - destruct (waiting_call n c) as [k|] eqn:Ek; [|done]. destruct (waiting k); [done|]. intros [= <-].
    apply find_call_sequence in Ek as <-. unfold on_coordinates. rewrite resume_overtaken by done.
    split_and!; [done..|]. by apply find_without.
  - destruct (existsb _ _) eqn:Et; [|done]. by intros [= <-].
  - destruct (fade c) as [t|] eqn:Ef; [|done]. by intros [= <-].
Qed.

Lemma local_run_waits p es c c' :
  local_run p es c c' →
  snippetUpdateSequence c' = snippetUpdateSequence c ∧ visible c' = visible c ∧
  waiting_call (snippetUpdateSequence c) c' = waiting_call (snippetUpdateSequence c) c.
Proof.
  revert c. induction es as [|e es IH]; intros c; cbn [local_run]; [by intros <-|].
  intros (Hl & c1 & He & Hr). destruct (local_waits p e c c1 Hl He) as (H1 & H2 & H3).
  destruct (IH c1 Hr) as (H4 & H5 & H6). rewrite H1 in *. split_and!; congruence.
Qed.

(** The call of a navigation, as long as only local events happen. *)
Lemma navigation_waits p es c r rest es1 c1 :
  run p es empty_card = Some c → eqs r "index.html" = false →
  local_run p es1 (update_begin (r :: rest) c) c1 →
  visible c1 = false ∧ snippetUpdateSequence c1 = S (snippetUpdateSequence c) ∧
  waiting_call (snippetUpdateSequence c1) c1
    = Some {| sequence := snippetUpdateSequence c1; parts := r :: rest; waiting := Details |}.
Proof.
  intros Hr Hi Hl. assert (calls_ok c) as Hc by (eapply run_ok; [|exact Hr]; constructor).
  destruct (local_run_waits p es1 _ _ Hl) as (H1 & H2 & H3). unfold update_begin in *. rewrite Hi in *. cbn in H1, H2, H3.
  rewrite H1. split_and!; [done..|]. rewrite H3. apply find_app; [|done].
  eapply Forall_impl; [exact Hc|cbn; lia].
Qed.

Lemma show_finished p f pathParts co c ti su :
  f ∈ FORMAT_CATALOG.*2 → eqs (id f) "files" = false → fade c = None →
  finished (built p f pathParts co) (show_snippets (Descriptor f) (built p f pathParts co) ti su c).
Proof.
  intros Hf Hn Hc. destruct (built_tabs p f pathParts co Hf Hn) as (Hk & _ & Hd & Hne).
  split; [done|]. destruct (snippetTabs f) as [|t0 rest] eqn:Et; [done|]. exists t0. rewrite Hk. cbn [show_snippets].
  cbn -[renderSnippetTabs snippet tabs_at]. rewrite Et, Hc. split_and!; [by left|by apply (render_tabs_at _ t0 rest)|done].
Qed.

(** The card shows these snippets, and keeps showing them until the next navigation. *)
Definition shows (p : page_address) (s : snippets) (c : snippet_card) : Prop :=
  ∀ es c', local_run p es c c' → visible c' = true ∧ finished s c'.

Lemma finished_shows p s c : visible c = true → finished s c → shows p s c.
Proof. intros Hv Hf es c' Hl. destruct (local_run_finished p s es c c' Hf Hl) as [? ->]. done. Qed.

Lemma coordinates_shows p k f co c :
  f ∈ FORMAT_CATALOG.*2 → eqs (id f) "files" = false → visible c = true → fade c = None →
  eqs (id f) "cargo" = false → eqs (id f) "docker" = false → eqs (id f) "npm" = false →
  sequence k = snippetUpdateSequence c →
  shows p (built p f (parts k) co) (on_coordinates p k (Descriptor f) co c).
Proof.
  intros Hf Hn Hv Hfd Hca Hdo Hnp Hk.
  assert (built p f (parts k) co = (buildMavenSnippets p co (parts k)).2) as Hb
    by (unfold built; by rewrite Hca, Hdo, Hnp).
  unfold on_coordinates, resume_update. cbn [snippetUpdateSequence set_layout]. rewrite Hk, Nat.eqb_refl. cbn [negb].
  destruct (buildMavenSnippets p co (parts k)) as [a s]. cbn in Hb. subst s.
  apply finished_shows; [done|]. by apply show_finished.
Qed.

(** Whatever happened before, a navigation into a repository hides the card until the details
    of that repository arrive, and overtaken answers, clicks and fades in between do not change this.
    For a repository of files it stays hidden. For Cargo, Docker and npm it then has the tabs of the
    format's descriptor, each with a snippet of its own, the first one active and its snippet shown;
    for Maven it does so once the coordinates have arrived. From then on, until the next navigation,
    the active tab is the one whose snippet is shown or about to be. No click may be fading when an
    answer arrives. *)
Theorem navigation_card p es c r rest es1 c1 raw f :
  run p es empty_card = Some c → eqs r "index.html" = false →
  local_run p es1 (update_begin (r :: rest) c) c1 → fade c1 = None →
  getRepositoryFormat raw = Descriptor f → f ∈ FORMAT_CATALOG.*2 →
  visible c1 = false ∧
  ∃ c2, exec p (GotDetails (snippetUpdateSequence c1) raw) c1 = Some c2 ∧
    if eqs (id f) "files" then visible c2 = false ∧ currentSnippets c2 = []
    else if eqs (id f) "cargo" || eqs (id f) "docker" || eqs (id f) "npm"
         then ∀ co, shows p (built p f (r :: rest) co) c2
         else ∀ es2 c3 co, local_run p es2 c2 c3 → fade c3 = None →
              ∃ c4, exec p (GotCoordinates (snippetUpdateSequence c1) co) c3 = Some c4 ∧
                    shows p (built p f (r :: rest) co) c4.
Proof.
  intros Hr Hi Hl Hfd Hd Hf. destruct (navigation_waits p es c r rest es1 c1 Hr Hi Hl) as (Hv & _ & Hk).
  split; [done|]. eexists. cbn [exec]. rewrite Hk. split; [reflexivity|].
  unfold on_details, resume_update. cbn [snippetUpdateSequence sequence set_layout]. rewrite Nat.eqb_refl. cbn [negb].
  rewrite Hd. cbn [is_format parts head default].
  destruct (eqs (id f) "files") eqn:Hn; [done|].
  destruct (eqs (id f) "cargo") eqn:Hca; [|destruct (eqs (id f) "docker") eqn:Hdo; [|destruct (eqs (id f) "npm") eqn:Hnp]];
    cbn [orb].
  1-3: intros co; apply finished_shows; [done|].
  1-3: pose proof (show_finished p f (r :: rest) co) as Hs; unfold built in Hs; rewrite ?Hca, ?Hdo, ?Hnp in Hs;
       unfold built; rewrite ?Hca, ?Hdo, ?Hnp; by apply Hs.
  intros es2 c3 co Hl2 Hfd3. destruct (local_run_waits p es2 _ _ Hl2) as (H1 & H2 & H3).
  unfold waiting_call in *. cbn in H1, H2, H3.
  rewrite (find_app _ {| sequence := _; parts := _; waiting := _ |}) in H3;
    [|exact (without_none {| sequence := _; parts := r :: rest; waiting := Details |} _)|done].
  rewrite H3. cbn [waiting]. eexists. split; [reflexivity|].
  by apply (coordinates_shows p {| sequence := snippetUpdateSequence c1; parts := r :: rest; waiting := _ |} f co c3).
Qed.

Definition example_page : page_address :=
  {| origin := "https://repo.example"; host := "repo.example"; instance := "Renop Repo" |}.

(** The details of [libs] arrive after the navigation to [crates]; then its own do, and a tab is
    clicked. *)
Lemma navigation_card_witness :
  ∃ c1, run example_page [Navigate [js "libs"; js "org"]; Navigate [js "crates"]; GotDetails 1 (JStr "maven")] empty_card
          = Some c1 ∧
  visible c1 = false ∧
  ∃ c2, exec example_page (GotDetails 2 (JStr "cargo")) c1 = Some c2 ∧
    ∀ co, shows example_page (built example_page cargo [js "crates"] co) c2.
Proof.
  eexists. split; [vm_compute; reflexivity|].
  match goal with |- visible ?c1 = _ ∧ _ =>
    destruct (navigation_card example_page [Navigate [js "libs"; js "org"]]
      (update_begin [js "libs"; js "org"] empty_card) (js "crates") [] [GotDetails 1 (JStr "maven")] c1 (JStr "cargo") cargo)
      as [Hv (c2 & He & Hs)] end.
  - vm_compute. reflexivity.
  - reflexivity.
  - split; [vm_compute; done|]. eexists. split; [vm_compute; reflexivity|reflexivity].
  - reflexivity.
  - reflexivity.
  - change (FORMAT_CATALOG.*2) with [maven; maven_classic; files; cargo; docker; npm]. do 3 right. by left.
  - split; [exact Hv|]. exists c2. split; [exact He|exact Hs].
Defined.

(** ** A click that outlives its card *)

(** A tab is clicked, the page navigates to another repository and its card is complete before the
    fade ends: the code then shown is empty while the first tab of the new card is active. *)
Lemma fade_over_navigation :
  ∃ c, run example_page
         [Navigate [js "images"]; GotDetails 1 (JStr "docker"); Click "docker-tag";
          Navigate [js "crates"]; GotDetails 2 (JStr "cargo"); FadeEnds] empty_card = Some c ∧
    visible c = true ∧ code c = [] ∧ tabs c = tabs_at (snippetTabs cargo) "cargo-registry".
Proof. eexists. split_and!; vm_compute; reflexivity. Qed.

(** The coordinates of a Maven repository are still loading: the card shows the tabs of the previous
    repository. *)
Lemma maven_shows_previous :
  ∃ c, run example_page
         [Navigate [js "crates"]; GotDetails 1 (JStr "cargo"); Navigate [js "libs"; js "org"]; GotDetails 2 (JStr "maven")]
         empty_card = Some c ∧
    visible c = true ∧ tabs c = tabs_at (snippetTabs cargo) "cargo-registry" ∧
    finished (buildCargoSnippets example_page "crates") c.
Proof.
  eexists. split; [vm_compute; reflexivity|]. split; [reflexivity|]. split; [vm_compute; reflexivity|].
  split; [vm_compute; reflexivity|]. exists (js "cargo-registry").
  split; [vm_compute; by left|split; vm_compute; reflexivity].
Qed.
