(* ===== verification/WebI18n.v ===== *)
(** * The web site's language

    [web/js/i18n.js]: the five languages of the site and their aliases, the language chosen at
    start and by the visitor, the documentation tree it selects and the translation of
    the page. The display names are UTF-8 here; the modal and the label's animation are left out. *)

From S2P Require Import Prelude JsText JsValue I18nUtil.

#[local] Arguments cons {A} & _ _.

Definition DEFAULT_LANG : jsstring := "en-US".

Definition AVAILABLE_LANGS : list jsstring :=
  js <$> ["zh-CN"; "en-US"; "ja-JP"; "ru-RU"; "fr-FR"]%stdpp.

(** The five catalogs. *)
Record catalogs := { enUS : dictionary; zhCN : dictionary; jaJP : dictionary; ruRU : dictionary;
                     frFR : dictionary }.

(** The keys of [languages], each with the catalog it names. *)
Definition languages : list (jsstring * (catalogs → dictionary)) :=
  [ (js "en-US", enUS);
    (js "en", enUS);
    (js "zh-CN", zhCN);
    (js "zh-cn", zhCN);
    (js "zh-Hans", zhCN);
    (js "zh", zhCN);
    (js "zh-HK", zhCN);
    (js "zh-TW", zhCN);
    (js "zh-YUE", zhCN);
    (js "ja-JP", jaJP);
    (js "ja", jaJP);
    (js "ru-RU", ruRU);
    (js "ru", ruRU);
    (js "fr-FR", frFR);
    (js "fr", frFR) ].

Record details := { name : jsstring; sub : jsstring; code : jsstring }.

Definition languageDetails : list (jsstring * details) :=
  [ (js "zh-CN", {| name := js "简体中文"; sub := js "Simplified Chinese"; code := js "ZH" |});
    (js "en-US", {| name := js "English"; sub := js "English (US)"; code := js "EN" |});
    (js "ja-JP", {| name := js "日本語"; sub := js "Japanese"; code := js "JA" |});
    (js "ru-RU", {| name := js "Русский"; sub := js "Russian"; code := js "RU" |});
    (js "fr-FR", {| name := js "Français"; sub := js "French"; code := js "FR" |}) ].

(** [languageDetails[lang]] is truthy: one of the languages, or a member every object inherits. *)
Definition has_details (lang : jsstring) : bool :=
  match get languageDetails lang with Missing => false | _ => true end.

Definition resolveLanguage (lang : option jsstring) : option jsstring :=
  match matchLocaleKey lang languages.*1 with
  | None => None
  | Some matched =>
      if negb (truthy matched) then None
      else if eqs matched "en" || eqs matched "en-US" then Some (js "en-US")
      else if startsWith matched "zh" || startsWith matched "yue" then Some (js "zh-CN")
      else if eqs matched "ja" || eqs matched "ja-JP" then Some (js "ja-JP")
      else if eqs matched "ru" || eqs matched "ru-RU" then Some (js "ru-RU")
      else if eqs matched "fr" || eqs matched "fr-FR" then Some (js "fr-FR")
      else if has_details matched then Some matched else None
  end.

Definition resolve_known (raw : jsstring) : option jsstring :=
  match resolveLanguage (Some raw) with
  | Some resolved => if truthy resolved && has_details resolved then Some resolved else None
  | None => None
  end.

(** [saved], [preferred], [language]: what the storage and the navigator hold. *)
Definition detect (saved : option jsstring) (preferred : list jsstring) (language : option jsstring) :
    jsstring :=
  (detectLanguage resolve_known DEFAULT_LANG saved preferred language).1.

Definition docs_locale (currentLang : jsstring) : jsstring :=
  if eqs currentLang "zh-CN" || eqs currentLang "zh-HK" || eqs currentLang "zh-TW"
     || eqs currentLang "zh-YUE" then "zh-CN"
  else if eqs currentLang "ja-JP" || eqs currentLang "ru-RU" || eqs currentLang "fr-FR"
          || eqs currentLang "en-US" then currentLang
  else "en-US".

(** A card of the language modal. *)
Record card := { card_code : jsstring; active : bool }.

(** The page: for every element with one of the four attributes, its key and the present value of
    the attribute's target; the label of the language button; the cards; the stored
    language; the [languageChanged] events sent. *)
Record site := {
  currentLang : jsstring;
  stored : option jsstring;
  bindings : list (jsstring * tvalue);
  label : option jsstring;
  cards : list card;
  changed : list jsstring
}.

Section site.
Variable dicts : catalogs.

Definition dictionary_of (lang : jsstring) : dictionary :=
  match assoc languages lang with Some c => c dicts | None => [] end.

Definition t (lang key : jsstring) (params : list (jsstring * jsval)) : tvalue :=
  translateKey key params (dictionary_of lang) (dictionary_of DEFAULT_LANG).

Definition translate_binding (lang : jsstring) (b : jsstring * tvalue) : jsstring * tvalue :=
  let translation := t lang b.1 [] in
  if bool_decide (translation = TStr b.1) then b else (b.1, translation).

Definition updateLanguageUI (s : site) : site :=
  let d := match assoc languageDetails (currentLang s) with
           | Some d => Some d
           | None => assoc languageDetails DEFAULT_LANG
           end in
  let newName := match d with Some d => name d | None => currentLang s end in
  {| currentLang := currentLang s; stored := stored s; bindings := bindings s; label := Some newName;
     cards := (λ c, {| card_code := card_code c; active := eqs (card_code c) (currentLang s) |}) <$> cards s;
     changed := changed s |}.

Definition updatePageTranslations (s : site) : site :=
  updateLanguageUI
    {| currentLang := currentLang s; stored := stored s;
       bindings := translate_binding (currentLang s) <$> bindings s; label := label s;
       cards := cards s; changed := changed s |}.

Definition setLanguage (lang : option jsstring) (s : site) : site :=
  let resolved := default DEFAULT_LANG (resolveLanguage lang) in
  let primary := if has_details resolved then resolved else DEFAULT_LANG in
  let s := updatePageTranslations
    {| currentLang := primary; stored := Some primary; bindings := bindings s; label := label s;
       cards := cards s; changed := changed s |} in
  {| currentLang := currentLang s; stored := stored s; bindings := bindings s; label := label s;
     cards := cards s; changed := changed s ++ [primary] |}.

Definition populateLanguageGrid (s : site) : site :=
  {| currentLang := currentLang s; stored := stored s; bindings := bindings s; label := label s;
     cards := (λ code, {| card_code := code; active := eqs code (currentLang s) |}) <$> AVAILABLE_LANGS;
     changed := changed s |}.

(** The page as loaded: nothing translated, the language of the module. *)
Definition loaded_page (saved : option jsstring) (bs : list (jsstring * tvalue)) : site :=
  {| currentLang := DEFAULT_LANG; stored := saved; bindings := bs; label := None; cards := [];
     changed := [] |}.

Definition initI18n (preferred : list jsstring) (language : option jsstring) (s : site) : site :=
  let lang := detect (stored s) preferred language in
  let lang := if has_details lang then lang else DEFAULT_LANG in
  populateLanguageGrid (updatePageTranslations
    {| currentLang := lang; stored := stored s; bindings := bindings s; label := label s;
       cards := cards s; changed := changed s |}).

(** ** Resolved languages *)

Lemma languages_nonempty : Forall (λ k, k ≠ []) languages.*1.
Proof. apply (bool_decide_unpack _). vm_compute. exact I. Qed.

(** What the chain of tests gives for each of the keys. *)
Definition primary_of (k : jsstring) : jsstring :=
  if startsWith k "en" then "en-US" else if startsWith k "zh" then "zh-CN"
  else if startsWith k "ja" then "ja-JP" else if startsWith k "ru" then "ru-RU" else "fr-FR".

Lemma resolve_keys :
  Forall (λ k, resolveLanguage (Some k) = Some (primary_of k) ∧ (primary_of k ∈ AVAILABLE_LANGS) ∧
    (if negb (truthy k) then None
      else if eqs k "en" || eqs k "en-US" then Some (js "en-US")
      else if startsWith k "zh" || startsWith k "yue" then Some (js "zh-CN")
      else if eqs k "ja" || eqs k "ja-JP" then Some (js "ja-JP")
      else if eqs k "ru" || eqs k "ru-RU" then Some (js "ru-RU")
      else if eqs k "fr" || eqs k "fr-FR" then Some (js "fr-FR")
      else if has_details k then Some k else None) = Some (primary_of k)) languages.*1.
Proof. apply (bool_decide_unpack _). vm_compute. exact I. Qed.

Lemma resolveLanguage_matched lang k :
  matchLocaleKey lang languages.*1 = Some k →
  resolveLanguage lang = Some (primary_of k) ∧ primary_of k ∈ AVAILABLE_LANGS.
Proof.
  intros Hm. pose proof resolve_keys as Hk. rewrite Forall_forall in Hk.
  destruct (Hk k (matchLocaleKey_elem _ _ _ Hm)) as (_ & Hin & Hc). split; [|done].
  unfold resolveLanguage. by rewrite Hm.
Qed.

Lemma site_resolve_available lang l : resolveLanguage lang = Some l → l ∈ AVAILABLE_LANGS.
Proof.
  intros Hl. destruct (matchLocaleKey lang languages.*1) as [k|] eqn:Hm.
  - apply resolveLanguage_matched in Hm as [Hr ?]. congruence.
  - unfold resolveLanguage in Hl. by rewrite Hm in Hl.
Qed.

Lemma available_facts :
  Forall (λ l, has_details l = true ∧ resolveLanguage (Some l) = Some l ∧ truthy l = true ∧
               docs_locale l = l) AVAILABLE_LANGS.
Proof. apply (bool_decide_unpack _). vm_compute. exact I. Qed.

Lemma available_fact l : l ∈ AVAILABLE_LANGS →
  has_details l = true ∧ resolveLanguage (Some l) = Some l ∧ truthy l = true ∧ docs_locale l = l.
Proof. pose proof available_facts as H. rewrite Forall_forall in H. apply H. Qed.

Lemma available_details l : l ∈ AVAILABLE_LANGS → ∃ d, assoc languageDetails l = Some d.
Proof.
  intros Hl. destruct (assoc languageDetails l) eqn:E; [eauto|]. apply assoc_None in E. destruct E.
  revert l Hl. apply Forall_forall. apply (bool_decide_unpack _). vm_compute. exact I.
Qed.

Lemma site_default_available : DEFAULT_LANG ∈ AVAILABLE_LANGS.
Proof. apply (bool_decide_unpack _). vm_compute. exact I. Qed.

Lemma resolve_known_available raw l : resolve_known raw = Some l → l ∈ AVAILABLE_LANGS.
Proof.
  unfold resolve_known. destruct (resolveLanguage (Some raw)) as [r|] eqn:E; [|done].
  case_match; [|done]. intros [= <-]. by apply site_resolve_available in E.
Qed.

Lemma first_resolved_available tags l :
  first_resolved resolve_known tags = Some l → l ∈ AVAILABLE_LANGS.
Proof.
  induction tags as [|tag tags IH]; simpl; [done|]. destruct (truthy tag); [|done].
  unfold resolved_truthy at 1. destruct (resolve_known tag) as [r|] eqn:E; [|done].
  destruct (truthy r); [|done]. intros [= <-]. by apply resolve_known_available in E.
Qed.

Lemma detect_available saved preferred language : detect saved preferred language ∈ AVAILABLE_LANGS.
Proof.
  unfold detect, detectLanguage.
  destruct (match resolved_truthy saved with Some s => _ | None => _ end) as [l|] eqn:E1; cbn [fst].
  - destruct (resolved_truthy saved) as [s|]; [|done]. unfold resolved_truthy in E1.
    destruct (resolve_known s) as [r|] eqn:E2; [|done]. destruct (truthy r); [|done].
    injection E1 as <-. by apply resolve_known_available in E2.
  - destruct (first_resolved _ _) as [l|] eqn:E2; cbn [fst].
    + by apply first_resolved_available in E2.
    + apply site_default_available.
Qed.

Lemma resolve_known_id l : l ∈ AVAILABLE_LANGS → resolve_known l = Some l.
Proof.
  intros Hl. destruct (available_fact l Hl) as (Hd & Hr & Ht & _). unfold resolve_known.
  by rewrite Hr, Ht, Hd.
Qed.

Lemma resolved_truthy_available l : l ∈ AVAILABLE_LANGS → resolved_truthy (Some l) = Some l.
Proof. intros Hl. destruct (available_fact l Hl) as (_ & _ & Ht & _). simpl. by rewrite Ht. Qed.

Lemma detect_saved l preferred language : l ∈ AVAILABLE_LANGS → detect (Some l) preferred language = l.
Proof.
  intros Hl. unfold detect, detectLanguage.
  by rewrite resolved_truthy_available, resolve_known_id, resolved_truthy_available.
Qed.

(** Keys whose lower case looks Chinese are the Chinese ones, and these choose Chinese. *)
Lemma chinese_keys :
  Forall (λ k, starts_chinese (toLowerCase k) = true → primary_of k = js "zh-CN") languages.*1.
Proof. apply (bool_decide_unpack _). vm_compute. exact I. Qed.

Lemma chinese_resolves tag :
  starts_chinese (toLowerCase (trim tag)) = true → resolveLanguage (Some tag) = Some (js "zh-CN").
Proof.
  intros Hz. destruct (matchLocaleKey_chinese tag languages.*1) as (k & Hk & Hc).
  - done.
  - exists (js "zh-CN"). split; [|done]. apply (bool_decide_unpack _). vm_compute. exact I.
  - pose proof chinese_keys as Hall. rewrite Forall_forall in Hall.
    rewrite (proj1 (resolveLanguage_matched _ _ Hk)). f_equal. apply Hall; [|done].
    by apply matchLocaleKey_elem in Hk.
Qed.

(** What the page shows in a language: every binding with a message carries its translation, the
    active card is that of the language, and the documentation is read in it. *)
Definition shows (l : jsstring) (s : site) : Prop :=
  currentLang s = l ∧ docs_locale (currentLang s) = l ∧
  label s = name <$> assoc languageDetails l ∧
  (∀ k v, (k, v) ∈ bindings s → t l k [] ≠ TStr k → v = t l k []) ∧
  (∀ c, c ∈ cards s → active c = true ↔ card_code c = l).

Lemma update_shows s : currentLang s ∈ AVAILABLE_LANGS → shows (currentLang s) (updatePageTranslations s).
Proof.
  intros Hl. destruct (available_fact _ Hl) as (_ & _ & _ & Hdocs).
  destruct (available_details _ Hl) as [d Hd].
  unfold shows, updatePageTranslations, updateLanguageUI. cbn [currentLang label bindings cards].
  split_and!; [done|done|by rewrite Hd| |].
  - intros k v Hin Hne. apply list_elem_of_fmap in Hin as ([k' v'] & Heq & _).
    unfold translate_binding in Heq. cbn [fst] in Heq.
    case_bool_decide; injection Heq as -> ->; [congruence|done].
  - intros c Hin. apply list_elem_of_fmap in Hin as (c' & -> & _). cbn. apply eqs_true.
Qed.

Lemma setLanguage_shows lang s :
  let s' := setLanguage lang s in
  ∃ l, l ∈ AVAILABLE_LANGS ∧ shows l s' ∧ stored s' = Some l ∧ changed s' = changed s ++ [l] ∧
    l = default DEFAULT_LANG (resolveLanguage lang).
Proof.
  set (l := default DEFAULT_LANG (resolveLanguage lang)).
  assert (Hl : l ∈ AVAILABLE_LANGS).
  { subst l. destruct (resolveLanguage lang) eqn:E; cbn; [by apply site_resolve_available in E|].
    apply site_default_available. }
  cbv zeta. exists l. split; [done|]. unfold setLanguage. fold l.
  destruct (available_fact l Hl) as (-> & _). split_and!; try done.
  by apply (update_shows {| currentLang := l; stored := Some l; bindings := bindings s;
    label := label s; cards := cards s; changed := changed s |}).
Qed.

Lemma init_shows preferred language s :
  let s' := initI18n preferred language s in
  shows (detect (stored s) preferred language) s' ∧ stored s' = stored s ∧
  card_code <$> cards s' = AVAILABLE_LANGS.
Proof.
  pose proof (detect_available (stored s) preferred language) as Hl. cbv zeta. unfold initI18n.
  revert Hl. generalize (detect (stored s) preferred language) as l. intros l Hl.
  destruct (available_fact l Hl) as (-> & _).
  destruct (update_shows {| currentLang := l; stored := stored s; bindings := bindings s;
    label := label s; cards := cards s; changed := changed s |} Hl) as (H1 & H2 & H3 & H4 & _).
  split; [|done]. refine (conj H1 (conj H2 (conj H3 (conj H4 _)))).
  intros c Hin. apply list_elem_of_fmap in Hin as (c' & -> & _). apply eqs_true.
Qed.

(** The site is always in one of its five languages, and stays in the chosen one. Whatever is
    stored, preferred by the browser or asked for, the language after a start or a choice is one of
    the five, the whole page shows it (every bound message, the label, the active card), and the
    documentation is read in it. A choice is stored and announced, and the next start comes up in
    it, whatever the browser prefers; each of the five is offered by a card and is itself
    when chosen; and every Chinese tag chooses Chinese. *)
Theorem site_language s :
  (∀ preferred language, ∃ l, l ∈ AVAILABLE_LANGS ∧ shows l (initI18n preferred language s) ∧
     card_code <$> cards (initI18n preferred language s) = AVAILABLE_LANGS) ∧
  (∀ lang, ∃ l, l ∈ AVAILABLE_LANGS ∧ shows l (setLanguage lang s) ∧
     stored (setLanguage lang s) = Some l ∧ changed (setLanguage lang s) = changed s ++ [l] ∧
     ∀ bs preferred language,
       shows l (initI18n preferred language (loaded_page (stored (setLanguage lang s)) bs))) ∧
  (∀ l, l ∈ AVAILABLE_LANGS → currentLang (setLanguage (Some l) s) = l) ∧
  (∀ tag, starts_chinese (toLowerCase (trim tag)) = true →
     currentLang (setLanguage (Some tag) s) = js "zh-CN").
Proof.
  split_and!.
  - intros preferred language. eexists. split; [apply detect_available|].
    destruct (init_shows preferred language s) as (H1 & _ & H3). by split.
  - intros lang. destruct (setLanguage_shows lang s) as (l & Hl & Hs & Hst & Hch & _).
    exists l. split_and!; try done. intros bs preferred language. rewrite Hst.
    destruct (init_shows preferred language (loaded_page (Some l) bs)) as (H1 & _).
    cbn [stored loaded_page] in H1. by rewrite detect_saved in H1.
  - intros l Hl. destruct (setLanguage_shows (Some l) s) as (l' & _ & [-> _] & _ & _ & ->).
    destruct (available_fact l Hl) as (_ & -> & _). done.
  - intros tag Hz. destruct (setLanguage_shows (Some tag) s) as (l' & _ & [-> _] & _ & _ & ->).
    by rewrite chinese_resolves.
Qed.
End site.
