(* ===== verification/Pagination.v ===== *)
(** * Paged collections

    [packages/renop-ui/js/pagination.js]: the bounds of a page number, the pager with its two
    buttons, and the collection that renders one page at a time. The animation of a page change
    runs the replacement at once, so a render is one step. *)

From S2P Require Import Prelude JsText JsValue.

Local Open Scope Z_scope.

(** [Math.trunc(Number(n) || d)] kept between two bounds; an infinity goes to its bound. *)
Definition bounded (lo hi : Z) (n : num) (d : Z) : Z :=
  match num_or n (Int d) with
  | Int z => Z.max lo (Z.min z hi)
  | PInf => Z.max lo hi
  | _ => lo
  end.

Definition page_count (totalItems pageSize : Z) : Z :=
  Z.max 1 (ceil_div (Z.max 0 totalItems) (Z.max 1 pageSize)).

Definition clampCollectionPage (page : num) (totalItems pageSize : Z) : Z :=
  bounded 0 (page_count totalItems pageSize - 1) page 0.

(** The pager: the buttons, the summary's arguments and the page the buttons were made for. *)
Record pager := {
  prev_disabled : bool; next_disabled : bool;
  summary : Z * Z * Z;
  made_for : Z
}.

Definition createCollectionPager (page totalItems pageSize : Z) : option pager :=
  let pages := Z.max 1 (ceil_div totalItems pageSize) in
  if pages <=? 1 then None
  else Some {| prev_disabled := page =? 0; next_disabled := pages - 1 <=? page;
               summary := (page + 1, pages, totalItems); made_for := page |}.

Section collection.
Context {T Node : Type}.
(** [None] is a falsy node; [renderEmpty] is [None] when no function is given. *)
Variable renderItem : T → Z → option Node.
Variable renderEmpty : option (option Node).

Record collection := {
  items : list T; boundedPageSize : Z; currentPage : Z;
  shown : list Node; control : option pager;
  notified : list Z   (* the calls of [onPageChanged] *)
}.

(** [pageItems.map(...).filter(Boolean)] from the index [start]. *)
Fixpoint render_from (start : Z) (l : list T) : list Node :=
  match l with
  | [] => []
  | x :: l =>
      match renderItem x start with
      | Some n => n :: render_from (start + 1) l
      | None => render_from (start + 1) l
      end
  end.

Definition slice (l : list T) (start n : Z) : list T := take (Z.to_nat n) (drop (Z.to_nat start) l).

Definition page_nodes (l : list T) (size page : Z) : list Node :=
  render_from (page * size) (slice l (page * size) size).

Definition replacePage (s : collection) : collection :=
  let nodes := page_nodes (items s) (boundedPageSize s) (currentPage s) in
  let nodes := match nodes, renderEmpty with
               | [], Some (Some empty) => [empty]
               | _, _ => nodes
               end in
  {| items := items s; boundedPageSize := boundedPageSize s; currentPage := currentPage s;
     shown := nodes;
     control := createCollectionPager (currentPage s) (Z.of_nat (length (items s))) (boundedPageSize s);
     notified := notified s |}.

Definition go_to (page : Z) (l : list T) (s : collection) : collection :=
  replacePage {| items := l; boundedPageSize := boundedPageSize s; currentPage := page;
                 shown := shown s; control := control s; notified := notified s ++ [page] |}.

Definition setPage (page : num) (s : collection) : collection :=
  let nextPage := clampCollectionPage page (Z.of_nat (length (items s))) (boundedPageSize s) in
  if nextPage =? currentPage s then s else go_to nextPage (items s) s.

Definition setItems (nextItems : list T) (preservePage : bool) (s : collection) : collection :=
  let page := clampCollectionPage (Int (if preservePage then currentPage s else 0))
                (Z.of_nat (length nextItems)) (boundedPageSize s) in
  go_to page nextItems s.

Definition createPaginatedCollection (l : list T) (pageSize initialPage : num) : collection :=
  let size := bounded 1 100 pageSize 8 in
  let page := clampCollectionPage initialPage (Z.of_nat (length l)) size in
  replacePage {| items := l; boundedPageSize := size; currentPage := page; shown := [];
                 control := None; notified := [page] |}.

(** The clicks a page can make: a button that is absent or disabled does nothing. *)
Inductive action := Select (page : num) | Replace (l : list T) (preserve : bool) | Previous | Next.

Definition exec (a : action) (s : collection) : collection :=
  match a with
  | Select page => setPage page s
  | Replace l preserve => setItems l preserve s
  | Previous =>
      match control s with
      | Some c => if prev_disabled c then s else setPage (Int (made_for c - 1)) s
      | None => s
      end
  | Next =>
      match control s with
      | Some c => if next_disabled c then s else setPage (Int (made_for c + 1)) s
      | None => s
      end
  end.

(** ** Bounds *)

Lemma page_count_pos total size : 1 ≤ page_count total size.
Proof. unfold page_count. lia. Qed.

Lemma bounded_range lo hi n d : lo ≤ hi → lo ≤ bounded lo hi n d ≤ hi.
Proof. intros. unfold bounded. case_match; lia. Qed.

Lemma bounded_id lo hi z d : lo ≤ z ≤ hi → (z = 0 → d = 0) → bounded lo hi (Int z) d = z.
Proof.
  intros Hz Hd. unfold bounded. assert (num_or (Int z) (Int d) = Int z) as ->; [|cbv iota; lia].
  destruct z; [by rewrite Hd|done..].
Qed.

Lemma clamp_range page total size : 0 ≤ clampCollectionPage page total size < page_count total size.
Proof.
  pose proof (page_count_pos total size).
  pose proof (bounded_range 0 (page_count total size - 1) page 0). unfold clampCollectionPage. lia.
Qed.

Lemma clamp_id z total size : 0 ≤ z < page_count total size → clampCollectionPage (Int z) total size = z.
Proof. intros. apply bounded_id; lia. Qed.

Lemma page_count_covers (l : list T) size :
  1 ≤ size → Z.of_nat (length l) ≤ page_count (Z.of_nat (length l)) size * size.
Proof.
  intros Hs. unfold page_count. rewrite (Z.max_r 1 size), (Z.max_r 0 _) by lia.
  pose proof (ceil_div_bounds (Z.of_nat (length l)) size). nia.
Qed.

(** ** The pages together *)

Lemma render_from_app start l k :
  render_from start (l ++ k) = render_from start l ++ render_from (start + Z.of_nat (length l)) k.
Proof.
  revert start. induction l as [|x l IH]; intros start; cbn [render_from app length].
  - by rewrite Z.add_0_r.
  - rewrite IH. replace (start + Z.of_nat (S (length l))) with (start + 1 + Z.of_nat (length l)) by lia.
    by case_match.
Qed.

Lemma first_pages l size n :
  0 ≤ size →
  mjoin ((λ i, page_nodes l size (Z.of_nat i)) <$> seq 0 n) =
  render_from 0 (take (n * Z.to_nat size) l).
Proof.
  intros Hs. induction n as [|n IH]; [done|].
  rewrite seq_S, fmap_app, join_app, IH. cbn [fmap list_fmap mjoin list_join Nat.add].
  rewrite app_nil_r. rewrite Nat.mul_succ_l, <- take_take_drop, render_from_app.
  unfold page_nodes, slice. rewrite Z2Nat.inj_mul, Nat2Z.id by lia. f_equal.
  destruct (decide (n * Z.to_nat size <= length l)%nat) as [Hle|Hgt].
  - rewrite length_take_le by done. f_equal. lia.
  - rewrite drop_ge by lia. by rewrite !take_nil.
Qed.

(** What the page shows: its own nodes, or the empty state. *)
Definition page_view (l : list T) (size page : Z) : list Node :=
  match page_nodes l size page, renderEmpty with
  | [], Some (Some empty) => [empty]
  | nodes, _ => nodes
  end.

Record consistent (s : collection) : Prop := {
  c_size : 1 ≤ boundedPageSize s ≤ 100;
  c_page : 0 ≤ currentPage s < page_count (Z.of_nat (length (items s))) (boundedPageSize s);
  c_shown : shown s = page_view (items s) (boundedPageSize s) (currentPage s);
  c_control : control s = createCollectionPager (currentPage s) (Z.of_nat (length (items s)))
                            (boundedPageSize s);
  c_notified : last (notified s) = Some (currentPage s)
}.

Lemma go_to_consistent page l s :
  1 ≤ boundedPageSize s ≤ 100 → 0 ≤ page < page_count (Z.of_nat (length l)) (boundedPageSize s) →
  consistent (go_to page l s).
Proof.
  intros Hs Hp. split; cbn; [done|done| |done|by rewrite last_snoc].
  unfold page_view. by destruct (page_nodes _ _ _), renderEmpty as [[]|].
Qed.

Lemma setPage_consistent page s : consistent s → consistent (setPage page s).
Proof.
  intros Hc. unfold setPage. case_match; [done|].
  apply go_to_consistent; [apply Hc|apply clamp_range].
Qed.

Lemma exec_consistent a s : consistent s → consistent (exec a s).
Proof.
  intros Hc. destruct a as [page|l preserve| |]; cbn [exec].
  - by apply setPage_consistent.
  - apply go_to_consistent; [apply Hc|apply clamp_range].
  - repeat case_match; try done. by apply setPage_consistent.
  - repeat case_match; try done. by apply setPage_consistent.
Qed.

Lemma create_consistent l size page : consistent (createPaginatedCollection l size page).
Proof.
  pose proof (bounded_range 1 100 size 8) as Hs.
  split; cbn; [lia|apply clamp_range| |done|done].
  unfold page_view. by destruct (page_nodes _ _ _), renderEmpty as [[]|].
Qed.

Lemma run_consistent l size page acts :
  consistent (foldl (λ s a, exec a s) (createPaginatedCollection l size page) acts).
Proof.
  generalize (create_consistent l size page). generalize (createPaginatedCollection l size page).
  induction acts as [|a acts IH]; intros s Hs; [done|]. apply IH. by apply exec_consistent.
Qed.

(** The buttons of a consistent collection with more than one page. *)
Lemma buttons s :
  consistent s →
  let pages := page_count (Z.of_nat (length (items s))) (boundedPageSize s) in
  currentPage (exec Previous s) = Z.max 0 (currentPage s - 1) ∧
  currentPage (exec Next s) = Z.min (pages - 1) (currentPage s + 1) ∧
  (control s = None ↔ pages = 1).
Proof.
  intros [Hsize Hpage _ Hcontrol _]. cbv zeta. cbn [exec]. rewrite Hcontrol.
  unfold createCollectionPager.
  replace (Z.max 1 (ceil_div (Z.of_nat (length (items s))) (boundedPageSize s)))
    with (page_count (Z.of_nat (length (items s))) (boundedPageSize s))
    by (unfold page_count; do 2 f_equal; lia).
  set (pages := page_count _ _) in *.
  assert (Hgo : ∀ z, 0 ≤ z < pages → currentPage (setPage (Int z) s) = z).
  { intros z Hz. unfold setPage. rewrite clamp_id by done. case_match; bool_prop; [done|].
    by unfold go_to, replacePage. }
  destruct (Z.leb_spec pages 1); cbn [prev_disabled next_disabled made_for].
  - split_and!; [lia|lia|split; [lia|done]].
  - split_and!.
    + case_match; bool_prop; [lia|]. rewrite Hgo by lia. lia.
    + case_match; bool_prop; [lia|]. rewrite Hgo by lia. lia.
    + split; [done|lia].
Qed.

(** A paged collection shows every item once, on one page. However it was created and whatever
    selections, replacements and clicks came since: the page size is between 1 and 100, the page
    is one of the collection's, what is shown is that page (or the empty state), the observer was last told
    this page, and the pager is there exactly for more than one page. The pages one after the
    other are the items in order, none lost or repeated; the buttons go one page
    back and forth and stop at the ends. *)
Theorem paginated_collection l size initial acts :
  let s := foldl (λ s a, exec a s) (createPaginatedCollection l size initial) acts in
  let pages := page_count (Z.of_nat (length (items s))) (boundedPageSize s) in
  consistent s ∧
  mjoin ((λ i, page_nodes (items s) (boundedPageSize s) (Z.of_nat i)) <$> seq 0 (Z.to_nat pages)) =
    render_from 0 (items s) ∧
  (control s = None ↔ pages = 1) ∧
  currentPage (exec Previous s) = Z.max 0 (currentPage s - 1) ∧
  currentPage (exec Next s) = Z.min (pages - 1) (currentPage s + 1).
Proof.
  cbv zeta. pose proof (run_consistent l size initial acts) as Hc. revert Hc.
  generalize (foldl (λ s a, exec a s) (createPaginatedCollection l size initial) acts). intros s Hc.
  destruct (buttons s Hc) as (H1 & H2 & H3). pose proof (c_size s Hc) as Hs.
  split; [exact Hc|]. split; [|exact (conj H3 (conj H1 H2))].
  rewrite first_pages by lia. f_equal. apply take_ge.
  pose proof (page_count_covers (items s) (boundedPageSize s)).
  pose proof (page_count_pos (Z.of_nat (length (items s))) (boundedPageSize s)). nia.
Qed.
End collection.
