(* ===== verification/CustomSelect.v ===== *)
(** * Select controls

    [packages/renop-ui/js/custom-select.js]: the controls of a page with their menus, of which one is open at a
    time. A control keeps its options and its choice; its menu is in the document while it is open or fading.
    Positions, icons and the attributes that mirror the state are left out. Whether a control can be
    opened (it is in the document, enabled and not inert) and whether motion is reduced come
    with the events. *)

From S2P Require Import Prelude JsText JsValue.
From coqutil Require Import Datatypes.RecordSettersUsingExistingGetters.
Local Open Scope nat_scope.
#[local] Arguments const {E} _ _ /.

#[local] Arguments cons {A} & _ _.

(** ** Options and the choice *)

(** An option as it is given: a text, or a value with a label that may be missing. *)
Inductive raw_option := Plain (s : jsstring) | Pair (value : jsstring) (label : option jsstring).
Record opt := { value : jsstring; label : jsstring }.

Definition normalize (o : raw_option) : opt :=
  match o with
  | Plain s => {| value := s; label := s |}
  | Pair v l => {| value := v; label := default v l |}
  end.
Definition normalizeOptions (opts : list raw_option) : list opt := normalize <$> opts.

(** The menu: not in the document, open, or fading out (a timer removes it). *)
Inductive menu := Closed | Open | Leaving.
#[export] Instance menu_eq_dec : EqDecision menu.
Proof. solve_decision. Defined.

(** [items] are the options of the menu in the document; [listening]: the listeners of document and window. *)
Record control := {
  normalized : list opt; selectedOpt : option opt; currentVal : jsstring; text : jsstring;
  menu_of : menu; items : list opt; listening : bool; destroyed : bool
}.

(** [find(...) || normalized[0]] *)
Definition makeCustomSelect (options : list raw_option) (current : jsstring) : control :=
  let normalized := normalizeOptions options in
  let selected := match List.find (λ o, eqs (value o) current || eqs (label o) current) normalized with
                  | Some o => Some o
                  | None => head normalized
                  end in
  {| normalized := normalized; selectedOpt := selected;
     currentVal := match selected with Some o => value o | None => current end;
     text := match selected with Some o => label o | None => [] end;
     menu_of := Closed; items := []; listening := false; destroyed := false |}.

(** Nothing while the menu is not in the document. *)
Definition renderItems (c : control) : control :=
  match menu_of c with Closed => c | _ => { c with items := normalized c } end.

Definition applySelection (o : option opt) (c : control) : control :=
  { c with selectedOpt := o; currentVal := match o with Some o => value o | None => [] end;
           text := match o with Some o => label o | None => [] end }.

Definition by_value (v : jsstring) (opts : list opt) : option opt := List.find (λ o, eqs (value o) v) opts.

(** [finish] of [closeDropdown] *)
Definition remove_menu (c : control) : control := { c with menu_of := Closed; items := [] }.

(** [closeDropdown] but for [closeActiveSelect]; [immediate] also when motion is reduced. *)
Definition close_menu (immediate : bool) (c : control) : control :=
  let c := { c with listening := false } in
  match menu_of c with
  | Closed => remove_menu c
  | _ => if immediate then remove_menu c else { c with menu_of := Leaving }
  end.

(** [openDropdown] but for the other controls. *)
Definition open_menu (c : control) : control := renderItems { c with menu_of := Open; listening := true }.

Definition setValue (v : jsstring) (c : control) : control :=
  match by_value v (normalized c) with Some o => renderItems (applySelection (Some o) c) | None => c end.

(** The choice that stays: the present value, the preferred one, the first option. *)
Definition keep_option (opts : list opt) (current : jsstring) (preferred : option jsstring) : option opt :=
  match by_value current opts with
  | Some o => Some o
  | None =>
      match match preferred with
            | Some v => if truthy v then by_value v opts else None
            | None => None
            end with
      | Some o => Some o
      | None => head opts
      end
  end.

Definition setOptions (options : list raw_option) (preferred : option jsstring) (c : control) : control :=
  let opts := normalizeOptions options in
  renderItems (close_menu true (applySelection (keep_option opts (currentVal c) preferred) { c with normalized := opts })).

(** ** The keyboard *)

Inductive key := ArrowDown | ArrowUp | Home | End.

(** The item that gets the focus. *)
Definition next_item (k : key) (index n : nat) : nat :=
  match k with
  | Home => 0
  | End => n - 1
  | ArrowDown => (index + 1 + n) mod n
  | ArrowUp => (index + n - 1) mod n
  end.

(** [querySelector('.is-selected, .custom-select-dropdown-item')]: the first element of the document that
    matches one of the two; every item matches the second. *)
Definition opening_focus (c : control) : option nat :=
  fst <$> list_find (λ o, match selectedOpt c with Some s => eqs (value o) (value s) | None => false end || true) (items c).

(** ** A page of controls *)

(** [focus]: the control whose menu has the focus and the item; [changes]: the calls of [onChange]. *)
Record ui := {
  controls : list control; closeActiveSelect : option nat; focus : option (nat * nat); changes : list (nat * jsstring)
}.

Definition update_control (i : nat) (f : control → control) (u : ui) : ui := { u with controls := alter f i (controls u) }.

Definition closeDropdown (i : nat) (immediate : bool) (u : ui) : ui :=
  let u := update_control i (close_menu immediate) u in
  match closeActiveSelect u with
  | Some j => if j =? i then { u with closeActiveSelect := None } else u
  | None => u
  end.

(** The items that had the focus are gone. *)
Definition lose_focus (i : nat) (u : ui) : ui :=
  match focus u with Some (j, _) => if j =? i then { u with focus := None } else u | None => u end.

(** [allowed]: the control is in the document, enabled and not inert. *)
Definition openDropdown (i : nat) (allowed : bool) (u : ui) : ui :=
  match controls u !! i with
  | None => u
  | Some c =>
      if destroyed c || negb allowed then u
      else
        let u := match closeActiveSelect u with Some j => if j =? i then u else closeDropdown j true u | None => u end in
        let u := update_control i open_menu { u with closeActiveSelect := Some i } in
        { u with focus := match controls u !! i with Some c => pair i <$> opening_focus c | None => None end }
  end.

(** A click on an item, or Enter: the menu closes, the button gets the focus, [onChange] is called. *)
Definition choose (i k : nat) (reduced : bool) (u : ui) : ui :=
  match controls u !! i with
  | None => u
  | Some c =>
      match items c !! k with
      | None => u
      | Some o =>
          let u := closeDropdown i reduced (update_control i (applySelection (Some o)) u) in
          { u with focus := None; changes := changes u ++ [pair i (value o)] }
      end
  end.

Inductive event :=
  | Make (options : list raw_option) (current : jsstring)
  | ClickButton (i : nat) (allowed reduced : bool)
  | OpenKey (i : nat) (allowed : bool)            (* an arrow on the button *)
  | Move (k : key)                                (* in the menu that has the focus *)
  | Escape                                        (* or Tab *)
  | Enter (reduced : bool)                        (* or the space bar *)
  | ClickItem (i k : nat) (reduced : bool)
  | ClickOutside (i : nat) (reduced : bool)       (* or the window is resized *)
  | Gone (i : nat)                                (* the control leaves the document or becomes inert *)
  | Faded (i : nat)                               (* the timer of a menu that fades *)
  | SetValue (i : nat) (v : jsstring)
  | SetOptions (i : nat) (options : list raw_option) (preferred : option jsstring)
  | Destroy (i : nat).

(** Listeners of a menu only react while they are set; items of a fading menu are inert. *)
Definition step (e : event) (u : ui) : ui :=
  match e with
  | Make options current => { u with controls := controls u ++ [makeCustomSelect options current] }
  | ClickButton i allowed reduced =>
      match controls u !! i with
      | Some c => if destroyed c then u
                  else match menu_of c with Open => lose_focus i (closeDropdown i reduced u) | _ => openDropdown i allowed u end
      | None => u
      end
  | OpenKey i allowed => openDropdown i allowed u
  | Move k =>
      match focus u with
      | Some (i, index) =>
          match controls u !! i with
          | Some c => { u with focus := Some (pair i (next_item k index (length (items c)))) }
          | None => u
          end
      | None => u
      end
  | Escape => match focus u with Some (i, _) => lose_focus i (closeDropdown i true u) | None => u end
  | Enter reduced => match focus u with Some (i, k) => choose i k reduced u | None => u end
  | ClickItem i k reduced =>
      match controls u !! i with
      | Some c => match menu_of c with Open => choose i k reduced u | _ => u end
      | None => u
      end
  | ClickOutside i reduced =>
      match controls u !! i with
      | Some c => if listening c then lose_focus i (closeDropdown i reduced u) else u
      | None => u
      end
  | Gone i =>
      match controls u !! i with
      | Some c => if listening c then lose_focus i (closeDropdown i true u) else u
      | None => u
      end
  | Faded i =>
      match controls u !! i with
      | Some c => match menu_of c with Leaving => update_control i remove_menu u | _ => u end
      | None => u
      end
  | SetValue i v =>
      match controls u !! i ≫= λ c, by_value v (normalized c) with
      | Some _ => lose_focus i (update_control i (setValue v) u)
      | None => u
      end
  | SetOptions i options preferred =>
      lose_focus i (closeDropdown i true (update_control i (setOptions options preferred) u))
  | Destroy i => lose_focus i (closeDropdown i true (update_control i (λ c, { c with destroyed := true }) u))
  end.

Definition run (es : list event) (u : ui) : ui := foldl (λ u e, step e u) u es.
Definition initial : ui := {| controls := []; closeActiveSelect := None; focus := None; changes := [] |}.

(** ** A control by itself *)

(** The choice is one of the options; only without options there is none. *)
Definition chosen (c : control) : Prop :=
  match selectedOpt c with
  | Some o => o ∈ normalized c ∧ currentVal c = value o ∧ text c = label o
  | None => normalized c = [] ∧ text c = []
  end.

Record control_ok (c : control) : Prop := {
  ok_chosen : chosen c;
  ok_items : items c = match menu_of c with Closed => [] | _ => normalized c end;
  ok_listening : listening c = bool_decide (menu_of c = Open);
  ok_destroyed : destroyed c = true → menu_of c = Closed
}.

Lemma find_option_elem {A} (f : A → bool) l x : List.find f l = Some x → x ∈ l.
Proof. intros [H _]%List.find_some. by apply list_elem_of_In. Qed.

Lemma head_elem {A} (l : list A) x : head l = Some x → x ∈ l.
Proof. destruct l; [done|]. intros [= ->]. left. Qed.

Lemma make_ok options current : control_ok (makeCustomSelect options current).
Proof.
  split; try done. unfold chosen, makeCustomSelect. cbn. destruct (List.find _ _) as [o|] eqn:E.
  - split_and!; [by eapply find_option_elem|done..].
  - destruct (head (normalizeOptions options)) as [o|] eqn:E2; [split_and!; [by apply head_elem|done..]|].
    by destruct (normalizeOptions options).
Qed.

Lemma close_ok b c : chosen c → items c = match menu_of c with Closed => [] | _ => normalized c end →
  (destroyed c = true → b = true) → control_ok (close_menu b c) ∧ menu_of (close_menu b c) ≠ Open.
Proof.
  intros Hc Hi Hd. unfold close_menu. cbn. destruct (menu_of c) eqn:E; cbn; [|destruct b..]; (split; [split|]);
    cbn; rewrite ?E; try done; intros ?; naive_solver.
Qed.

Lemma open_ok c : control_ok c → destroyed c = false → control_ok (open_menu c) ∧ menu_of (open_menu c) = Open.
Proof. intros [Hc Hi Hl Hd] E. unfold open_menu, renderItems. cbn. split; [|done]. split; cbn; [done..|congruence]. Qed.

Lemma by_value_elem v opts o : by_value v opts = Some o → o ∈ opts ∧ value o = v.
Proof. intros [H E]%List.find_some. split; [by apply list_elem_of_In|by apply eqs_true]. Qed.

Lemma apply_ok o c : control_ok c → o ∈ normalized c → control_ok (applySelection (Some o) c).
Proof. intros [Hc Hi Hl Hd] Ho. by split. Qed.

Lemma setValue_ok v c : control_ok c → control_ok (setValue v c) ∧ menu_of (setValue v c) = menu_of c.
Proof.
  intros Hok. unfold setValue. destruct (by_value v (normalized c)) as [o|] eqn:E; [|done].
  apply by_value_elem in E as [Ho _]. pose proof (apply_ok o c Hok Ho) as [Hc Hi Hl Hd]. unfold renderItems. cbn in *.
  destruct (menu_of c) eqn:Em; (split; [split; cbn; rewrite ?Em in *; try done; naive_solver|by cbn; rewrite ?Em]).
Qed.

Lemma keep_elem opts cur pref o : keep_option opts cur pref = Some o → o ∈ opts.
Proof.
  unfold keep_option. destruct (by_value cur opts) eqn:E; [intros [= <-]; by eapply by_value_elem|].
  destruct pref as [v|]; [destruct (truthy v); [destruct (by_value v opts) eqn:E2|]|];
    try (intros [= <-]; by eapply by_value_elem); apply head_elem.
Qed.

Lemma keep_None opts cur pref : keep_option opts cur pref = None → opts = [].
Proof. unfold keep_option. repeat case_match; try done; by destruct opts. Qed.

Lemma setOptions_ok options pref c : control_ok c → control_ok (setOptions options pref c) ∧ menu_of (setOptions options pref c) = Closed.
Proof.
  intros [Hc Hi Hl Hd]. unfold setOptions. set (opts := normalizeOptions options).
  set (c' := applySelection (keep_option opts (currentVal c) pref) { c with normalized := opts }).
  assert (chosen c') as Hc'.
  { unfold c', chosen, applySelection. cbn. destruct (keep_option _ _ _) eqn:E; [by split_and!; [eapply keep_elem|..]|].
    by apply keep_None in E. }
  assert (close_menu true c' = remove_menu { c' with listening := false }) as E by (unfold close_menu; cbn; by destruct (menu_of c)).
  rewrite E. split; [|done]. split; done.
Qed.

(** ** The page *)

Record core_ok (cs : list control) (active : option nat) : Prop := {
  co_controls : ∀ i c, cs !! i = Some c → control_ok c;
  co_active : ∀ i c, cs !! i = Some c → (menu_of c = Open ↔ active = Some i);
  co_bound : ∀ i, active = Some i → i < length cs
}.

Definition focus_ok (u : ui) : Prop :=
  ∀ i k, focus u = Some (i, k) → closeActiveSelect u = Some i ∧ ∃ c, controls u !! i = Some c ∧ k < length (items c).

Definition ui_ok (u : ui) : Prop := core_ok (controls u) (closeActiveSelect u) ∧ focus_ok u.

Lemma core_update i f cs active :
  core_ok cs active → (∀ c, cs !! i = Some c → control_ok (f c) ∧ (menu_of (f c) = Open ↔ menu_of c = Open)) →
  core_ok (alter f i cs) active.
Proof.
  intros [Hc Ha Hb] Hf. split.
  - intros j c. rewrite list_lookup_alter. case_decide; [|apply Hc]. intros (c0 & H0 & ->)%fmap_Some. subst. by apply Hf.
  - intros j c. rewrite list_lookup_alter. case_decide; [|apply Ha]. intros (c0 & H0 & ->)%fmap_Some. subst.
    rewrite (proj2 (Hf c0 H0)). by apply Ha.
  - intros j. rewrite length_alter. apply Hb.
Qed.

Definition without_active (i : nat) (active : option nat) : option nat :=
  match active with Some j => if j =? i then None else active | None => None end.

Lemma without_active_Some i active j : without_active i active = Some j ↔ active = Some j ∧ j ≠ i.
Proof. unfold without_active. destruct active as [k|]; [|naive_solver]. destruct (k =? i) eqn:E; bool_prop; naive_solver. Qed.

Lemma core_close i f cs active :
  core_ok cs active → (∀ c, cs !! i = Some c → control_ok (f c) ∧ menu_of (f c) ≠ Open) →
  core_ok (alter f i cs) (without_active i active).
Proof.
  intros [Hc Ha Hb] Hf. split.
  - intros j c. rewrite list_lookup_alter. case_decide; [|apply Hc]. intros (c0 & H0 & ->)%fmap_Some. subst. by apply Hf.
  - intros j c. rewrite list_lookup_alter, without_active_Some. case_decide.
    + intros (c0 & H0 & ->)%fmap_Some. subst. destruct (Hf c0 H0). naive_solver.
    + intros Hj. rewrite (Ha j c Hj). naive_solver.
  - intros j. rewrite length_alter, without_active_Some. intros [Hj _]. by apply Hb.
Qed.

Lemma core_open i f cs active :
  core_ok cs active → (active = None ∨ active = Some i) → i < length cs →
  (∀ c, cs !! i = Some c → control_ok (f c) ∧ menu_of (f c) = Open) → core_ok (alter f i cs) (Some i).
Proof.
  intros [Hc Ha Hb] Hact Hi Hf. split.
  - intros j c. rewrite list_lookup_alter. case_decide; [|apply Hc]. intros (c0 & H0 & ->)%fmap_Some. subst. by apply Hf.
  - intros j c. rewrite list_lookup_alter. case_decide.
    + intros (c0 & H0 & ->)%fmap_Some. subst. destruct (Hf c0 H0). naive_solver.
    + intros Hj. rewrite (Ha j c Hj). naive_solver.
  - intros j [= <-]. by rewrite length_alter.
Qed.

Lemma closeDropdown_parts i b u :
  controls (closeDropdown i b u) = alter (close_menu b) i (controls u) ∧
  closeActiveSelect (closeDropdown i b u) = without_active i (closeActiveSelect u) ∧
  focus (closeDropdown i b u) = focus u.
Proof. unfold closeDropdown. cbn. destruct (closeActiveSelect u) as [j|] eqn:E; cbn; [|by rewrite E]. by destruct (j =? i); cbn; rewrite ?E. Qed.

Lemma close_control b c : control_ok c → (destroyed c = true → b = true) → control_ok (close_menu b c) ∧ menu_of (close_menu b c) ≠ Open.
Proof. intros [? ? ? ?] Hb. by apply close_ok. Qed.

(** Closing a menu that was destroyed is immediate: it is closed already. *)
Lemma close_any b c : control_ok c → control_ok (close_menu b c) ∧ menu_of (close_menu b c) ≠ Open.
Proof.
  intros Hok. destruct (destroyed c) eqn:Ed; [|apply close_control; [done|congruence]].
  pose proof (ok_destroyed c Hok Ed) as Em. replace (close_menu b c) with (close_menu true c); [by apply close_control|].
  unfold close_menu. cbn. by rewrite Em.
Qed.

Lemma core_closeDropdown i b u :
  core_ok (controls u) (closeActiveSelect u) →
  core_ok (controls (closeDropdown i b u)) (closeActiveSelect (closeDropdown i b u)).
Proof.
  intros Hu. destruct (closeDropdown_parts i b u) as (-> & -> & _). apply core_close; [done|].
  intros c Hc. apply close_any. by eapply co_controls.
Qed.

Lemma lose_focus_parts i u :
  controls (lose_focus i u) = controls u ∧ closeActiveSelect (lose_focus i u) = closeActiveSelect u ∧
  ∀ j k, focus (lose_focus i u) = Some (j, k) → focus u = Some (j, k) ∧ j ≠ i.
Proof.
  unfold lose_focus. destruct (focus u) as [[j k]|] eqn:E; [|rewrite E; done].
  destruct (j =? i) eqn:Ej; cbn; rewrite ?E; bool_prop; naive_solver.
Qed.

(** Whatever happened to control [i], when its items lose the focus. *)
Lemma ui_ok_lose i u u' :
  ui_ok u → core_ok (controls u') (closeActiveSelect u') → focus u' = focus u →
  (∀ j, j ≠ i → controls u' !! j = controls u !! j) →
  (∀ j, j ≠ i → closeActiveSelect u = Some j → closeActiveSelect u' = Some j) → ui_ok (lose_focus i u').
Proof.
  intros [_ Hf] Hc Ef Hsame Hact. destruct (lose_focus_parts i u') as (E1 & E2 & E3). split; [by rewrite E1, E2|].
  intros j k Hj. apply E3 in Hj as [Hj Hne]. rewrite Ef in Hj. destruct (Hf j k Hj) as (Ha & c & Hcj & Hk).
  rewrite E1, E2, Hsame by done. split; [by apply Hact|by exists c].
Qed.

Lemma ui_ok_close i b u : ui_ok u → ui_ok (lose_focus i (closeDropdown i b u)).
Proof.
  intros Hu. destruct (closeDropdown_parts i b u) as (E1 & E2 & E3). apply (ui_ok_lose i u).
  - done.
  - apply core_closeDropdown, Hu.
  - done.
  - intros j Hj. rewrite E1. by apply list_lookup_alter_ne.
  - intros j Hj Ha. rewrite E2. by apply without_active_Some.
Qed.

Lemma ui_ok_update i f u :
  ui_ok u → (∀ c, control_ok c → control_ok (f c) ∧ (menu_of (f c) = Open ↔ menu_of c = Open)) →
  ui_ok (lose_focus i (update_control i f u)).
Proof.
  intros Hu Hf. apply (ui_ok_lose i u); [done| |done| |done].
  - apply core_update; [apply Hu|]. intros c Hc. apply Hf. eapply co_controls; [apply Hu|done].
  - intros j Hj. by apply list_lookup_alter_ne.
Qed.

(** A control is changed and closed. *)
Lemma ui_ok_change_close i b f u :
  ui_ok u → (∀ c, control_ok c → control_ok (close_menu b (f c)) ∧ menu_of (close_menu b (f c)) ≠ Open) →
  ui_ok (lose_focus i (closeDropdown i b (update_control i f u))).
Proof.
  intros Hu Hf. destruct (closeDropdown_parts i b (update_control i f u)) as (E1 & E2 & E3). cbn in E1, E2, E3.
  rewrite list_alter_alter_eq in E1. apply (ui_ok_lose i u).
  - done.
  - rewrite E1, E2. apply core_close; [apply Hu|]. intros c Hc. apply Hf. eapply co_controls; [apply Hu|done].
  - done.
  - intros j Hj. rewrite E1. by apply list_lookup_alter_ne.
  - intros j Hj Ha. rewrite E2. by apply without_active_Some.
Qed.

Lemma opening_focus_items c k : opening_focus c = Some k → k < length (items c).
Proof.
  unfold opening_focus. intros ([k' o] & Hk & ->)%fmap_Some. apply list_find_Some in Hk as (Hk & _).
  by apply lookup_lt_Some in Hk.
Qed.

Lemma ui_ok_open i allowed u : ui_ok u → ui_ok (openDropdown i allowed u).
Proof.
  intros Hu. unfold openDropdown. destruct (controls u !! i) as [c|] eqn:Ec; [|done].
  destruct (destroyed c || negb allowed) eqn:Ed; [done|]. apply orb_false_iff in Ed as [Ed _].
  set (u1 := match closeActiveSelect u with Some j => _ | None => u end).
  assert (core_ok (controls u1) (closeActiveSelect u1) ∧ (closeActiveSelect u1 = None ∨ closeActiveSelect u1 = Some i) ∧
    controls u1 !! i = Some c) as (H1 & Hact & Hi).
  { unfold u1. destruct (closeActiveSelect u) as [j|] eqn:Ea; [|split_and!; [apply Hu|by left|done]].
    destruct (j =? i) eqn:E; bool_prop; [subst; split_and!; [apply Hu|by right|done]|].
    destruct (closeDropdown_parts j true u) as (E1 & E2 & _). split_and!; [apply core_closeDropdown, Hu| |].
    - left. rewrite E2, Ea. unfold without_active. by rewrite Nat.eqb_refl.
    - rewrite E1. by rewrite list_lookup_alter_ne by congruence. }
  assert (control_ok c) as Hc by (eapply co_controls; [exact H1|done]).
  split.
  - cbn. apply (core_open _ _ _ (closeActiveSelect u1)); [done|done|by eapply lookup_lt_Some|].
    intros c0 Hc0. rewrite Hi in Hc0. injection Hc0 as <-. by apply open_ok.
  - intros j k. cbn. rewrite list_lookup_alter, decide_True, Hi by done. cbn.
    intros (k' & Hk & [= <- <-])%fmap_Some. split; [done|].
    exists (open_menu c). rewrite list_lookup_alter, decide_True, Hi by done. split; [done|]. by apply opening_focus_items.
Qed.

Lemma ui_ok_core u' :
  core_ok (controls u') (closeActiveSelect u') → focus u' = None → ui_ok u'.
Proof. intros Hc Hf. split; [done|]. intros i k. by rewrite Hf. Qed.

Lemma ui_ok_choose i k reduced u : ui_ok u → ui_ok (choose i k reduced u).
Proof.
  intros Hu. unfold choose. destruct (controls u !! i) as [c|] eqn:Ec; [|done]. destruct (items c !! k) as [o|] eqn:Eo; [|done].
  apply ui_ok_core; [|done]. cbn. destruct (closeDropdown_parts i reduced (update_control i (applySelection (Some o)) u)) as (-> & -> & _).
  cbn. rewrite list_alter_alter_eq. apply core_close; [apply Hu|]. intros c0 Hc0. rewrite Ec in Hc0. injection Hc0 as <-.
  assert (control_ok c) as Hc by (eapply co_controls; [apply Hu|done]). apply close_any, apply_ok; [done|].
  pose proof (ok_items c Hc) as Hi. destruct (menu_of c); rewrite Hi in Eo; [done|by eapply list_elem_of_lookup_2..].
Qed.

Lemma next_item_bound k index n : index < n → next_item k index n < n.
Proof. intros Hi. destruct k; cbn [next_item]; try lia; apply Nat.mod_upper_bound; lia. Qed.

Lemma ui_ok_step e u : ui_ok u → ui_ok (step e u).
Proof.
  intros Hu. destruct e; cbn [step].
  - destruct Hu as [[Hc Ha Hb] Hf]. split; cbn.
    + split.
      * intros i c [Hi|[_ [_ <-]%list_lookup_singleton_Some]]%lookup_app_Some; [by eapply Hc|]; apply make_ok.
      * intros i c [Hi|[Hi [_ <-]%list_lookup_singleton_Some]]%lookup_app_Some; [by apply Ha|].
        split; [done|]. intros Hact. apply Hb in Hact. lia.
      * intros i Hi. rewrite length_app. apply Hb in Hi. lia.
    + intros i k Hk. destruct (Hf i k Hk) as (Hi & c & Hci & Hl). split; [done|]. exists c. split; [|done].
      by apply lookup_app_l_Some.
  - destruct (controls u !! i) as [c|]; [|done]. destruct (destroyed c); [done|].
    destruct (menu_of c); [by apply ui_ok_open|by apply ui_ok_close|by apply ui_ok_open].
  - by apply ui_ok_open.
  - destruct (focus u) as [[i index]|] eqn:Ef; [|done]. destruct (controls u !! i) as [c|] eqn:Ec; [|done].
    destruct Hu as [Hc Hf]. split; [done|]. intros i' k' [= <- <-]. destruct (Hf i index Ef) as (Ha & c' & Hc' & Hl).
    split; [done|]. exists c'. split; [done|]. rewrite Ec in Hc'. injection Hc' as ->. by apply next_item_bound.
  - destruct (focus u) as [[i k]|]; [|done]. by apply ui_ok_close.
  - destruct (focus u) as [[i k]|]; [|done]. by apply ui_ok_choose.
  - destruct (controls u !! i) as [c|]; [|done]. destruct (menu_of c); try done. by apply ui_ok_choose.
  - destruct (controls u !! i) as [c|]; [|done]. destruct (listening c); [|done]. by apply ui_ok_close.
  - destruct (controls u !! i) as [c|]; [|done]. destruct (listening c); [|done]. by apply ui_ok_close.
  - destruct (controls u !! i) as [c|] eqn:Ec; [|done]. destruct (menu_of c) eqn:Em; try done.
    destruct Hu as [Hc Hf]. split; cbn.
    + apply core_update; [done|]. intros c0 Hc0. rewrite Ec in Hc0. injection Hc0 as <-.
      destruct (co_controls _ _ Hc i c Ec) as [H1 H2 H3 H4]. rewrite Em in *. split; [|done]. by split.
    + intros j k Hj. destruct (Hf j k Hj) as (Ha & c' & Hc' & Hl). split; [done|]. exists c'. split; [|done]. cbn.
      rewrite list_lookup_alter_ne; [done|]. intros ->. apply (co_active _ _ Hc j c' Hc') in Ha. congruence.
  - destruct (controls u !! i ≫= _); [|done]. apply ui_ok_update; [done|]. intros c Hc. destruct (setValue_ok v c Hc) as [? ->]. done.
  - apply ui_ok_change_close; [done|]. intros c Hc. apply close_any. by apply setOptions_ok.
  - apply ui_ok_change_close; [done|]. intros c [Hc Hi Hl Hd]. by apply close_ok.
Qed.

Lemma ui_ok_run es : ui_ok (run es initial).
Proof.
  induction es as [|e es IH] using rev_ind; [split; [split; [done|done|done]|done]|].
  unfold run. rewrite foldl_snoc. by apply ui_ok_step.
Qed.

(** What is shown: the label of an option whose value the control has. *)
Definition shows_option (c : control) : Prop :=
  match normalized c with
  | [] => text c = []
  | opts => ∃ o, o ∈ opts ∧ currentVal c = value o ∧ text c = label o
  end.

Lemma chosen_shows c : chosen c → shows_option c.
Proof.
  unfold chosen, shows_option. destruct (selectedOpt c) as [o|].
  - intros (Ho & Hv & Ht). destruct (normalized c); [by apply elem_of_nil in Ho|]. by exists o.
  - intros [-> Ht]. done.
Qed.

(** A click on an item of the open menu. *)
Lemma choose_item u i c k o reduced :
  controls u !! i = Some c → items c !! k = Some o →
  changes (choose i k reduced u) = changes u ++ [pair i (value o)] ∧
  ∃ c', controls (choose i k reduced u) !! i = Some c' ∧ currentVal c' = value o ∧ text c' = label o ∧ menu_of c' ≠ Open.
Proof.
  intros Hc Ho. unfold choose. rewrite Hc, Ho. destruct (closeDropdown_parts i reduced (update_control i (applySelection (Some o)) u)) as (E & _).
  cbn [changes controls]. split.
  - f_equal. unfold closeDropdown. cbn. destruct (closeActiveSelect u) as [j|]; [|done]. by destruct (j =? i).
  - change (∃ c', controls (closeDropdown i reduced (update_control i (applySelection (Some o)) u)) !! i = Some c' ∧ currentVal c' = value o ∧ text c' = label o ∧ menu_of c' ≠ Open).
    rewrite E. cbn. rewrite list_alter_alter_eq, list_lookup_alter, decide_True, Hc by done. eexists. split; [done|].
    unfold close_menu. cbn. destruct (menu_of c); [done|by destruct reduced..].
Qed.

(** A value that is set: the option with it is shown, or nothing changes. *)
Lemma set_value u i c v :
  controls u !! i = Some c →
  (v ∈ value <$> normalized c → ∃ c', controls (step (SetValue i v) u) !! i = Some c' ∧ currentVal c' = v) ∧
  (v ∉ value <$> normalized c → step (SetValue i v) u = u).
Proof.
  intros Hc. cbn [step]. rewrite Hc. cbn [mbind option_bind]. destruct (by_value v (normalized c)) as [o|] eqn:E.
  - pose proof (by_value_elem _ _ _ E) as [Ho Hv]. split.
    + intros _. destruct (lose_focus_parts i (update_control i (setValue v) u)) as (-> & _). cbn.
      rewrite list_lookup_alter, decide_True, Hc by done. eexists. split; [done|]. unfold setValue. rewrite E. unfold renderItems. cbn.
      by destruct (menu_of c).
    + intros Hn. destruct Hn. rewrite <- Hv. by apply list_elem_of_fmap_2.
  - split; [|done]. intros (o & -> & Ho)%list_elem_of_fmap. unfold by_value in E.
    apply list_elem_of_In in Ho. pose proof (List.find_none _ _ E o Ho) as He. cbn in He. by rewrite eqs_refl in He.
Qed.

Lemma by_value_None v opts : by_value v opts = None → v ∉ value <$> opts.
Proof.
  intros Hn (o & -> & Ho)%list_elem_of_fmap. unfold by_value in Hn.
  apply list_elem_of_In in Ho. pose proof (List.find_none _ _ Hn o Ho) as He. cbn in He. by rewrite eqs_refl in He.
Qed.

Lemma setOptions_keeps options pref c :
  currentVal c ∈ value <$> normalizeOptions options → currentVal (setOptions options pref c) = currentVal c.
Proof.
  intros Hin. unfold setOptions. set (c1 := applySelection _ _).
  assert (currentVal (renderItems (close_menu true c1)) = currentVal c1) as ->.
  { unfold close_menu, renderItems. cbn. by destruct (menu_of c). }
  unfold c1, applySelection. cbn. unfold keep_option.
  destruct (by_value (currentVal c) (normalizeOptions options)) as [o|] eqn:E; [|by apply by_value_None in E].
  by apply by_value_elem in E as [_ ->].
Qed.

Lemma arrows_inverse n index : index < n → next_item ArrowUp (next_item ArrowDown index n) n = index.
Proof.
  intros Hi. cbn. replace (index + 1 + n) with (index + 1 + 1 * n) by lia. rewrite Nat.Div0.mod_add.
  destruct (decide (index + 1 = n)) as [E|E].
  - rewrite E, Nat.Div0.mod_same. replace (0 + n - 1) with index by lia. by apply Nat.mod_small.
  - rewrite (Nat.mod_small (index + 1)) by lia. replace (index + 1 + n - 1) with (index + 1 * n) by lia.
    rewrite Nat.Div0.mod_add. by apply Nat.mod_small.
Qed.

(** C35: After any sequence of clicks, keys, changes of the options and removals: a control has the value of
    one of its options and shows the label of that option; a menu in the document lists the options, one that is not has no items; only the
    open menu has listeners, and it is the one the page knows as open, so that there is one at
    most; a destroyed control never opens; the focus is on an item that exists. A click on an item of the open menu
    closes it, takes the value and the label of this item and tells the value; a value that is set is taken if an option has it,
    and nothing changes otherwise. New options keep the value if it is among them, and the arrow keys undo each other. *)
Theorem select_controls es :
  let u := run es initial in
  (∀ i c, controls u !! i = Some c →
     shows_option c ∧
     items c = match menu_of c with Closed => [] | _ => normalized c end ∧
     (listening c = true ↔ menu_of c = Open) ∧ (menu_of c = Open ↔ closeActiveSelect u = Some i) ∧
     (destroyed c = true → menu_of c = Closed) ∧
     (∀ k o reduced, menu_of c = Open → items c !! k = Some o →
        let u' := step (ClickItem i k reduced) u in
        changes u' = changes u ++ [pair i (value o)] ∧
        ∃ c', controls u' !! i = Some c' ∧ currentVal c' = value o ∧ text c' = label o ∧ menu_of c' ≠ Open) ∧
     (∀ v, (v ∈ value <$> normalized c → ∃ c', controls (step (SetValue i v) u) !! i = Some c' ∧ currentVal c' = v) ∧
           (v ∉ value <$> normalized c → step (SetValue i v) u = u)) ∧
     (∀ options pref, currentVal c ∈ value <$> normalizeOptions options →
        currentVal (setOptions options pref c) = currentVal c) ∧
     (∀ k, focus u = Some (i, k) →
        k < length (items c) ∧ next_item ArrowUp (next_item ArrowDown k (length (items c))) (length (items c)) = k)) ∧
  ∀ i k, focus u = Some (i, k) → ∃ c, controls u !! i = Some c ∧ menu_of c = Open.
Proof.
  intros u. destruct (ui_ok_run es) as [Hc Hf]. fold u in Hc, Hf. split.
  - intros i c Hi. destruct (co_controls _ _ Hc i c Hi) as [H1 H2 H3 H4]. split_and!.
    + by apply chosen_shows.
    + done.
    + rewrite H3. by rewrite bool_decide_eq_true.
    + by eapply co_active.
    + done.
    + intros k o reduced Hm Ho. cbn [step]. rewrite Hi, Hm. by eapply choose_item.
    + intros v. by apply set_value.
    + intros options pref. apply setOptions_keeps.
    + intros k Hk. destruct (Hf i k Hk) as (_ & c' & Hc' & Hl). rewrite Hi in Hc'. injection Hc' as <-.
      split; [done|by apply arrows_inverse].
  - intros i k Hk. destruct (Hf i k Hk) as (Ha & c & Hci & _). exists c. split; [done|]. by apply (co_active _ _ Hc i c Hci).
Qed.

(** Two controls: the second one opens, which closes the first; the choice is told. *)
Lemma select_run :
  let u := run [Make [Plain "day"; Plain "week"] "week"; Make [Plain "a"; Plain "b"] "b"; OpenKey 0 true;
                OpenKey 1 true; Move ArrowDown; Enter false; Faded 1] initial in
  changes u = [pair 1 (js "b")] ∧ menu_of <$> controls u = [Closed; Closed] ∧ currentVal <$> controls u = [js "week"; js "b"].
Proof. by vm_compute. Qed.

(** A menu opens with the focus on its first item, not on the one that is selected. *)
Lemma opening_focus_first :
  let u := run [Make [Plain "day"; Plain "week"; Plain "month"] "month"; OpenKey 0 true] initial in
  focus u = Some (0, 0) ∧ currentVal <$> controls u = [js "month"].
Proof. by vm_compute. Qed.
