(* ===== verification/Markdown.v ===== *)
(** * Headings of the documentation pages

    [web/js/lib/markdown.js]: the front matter, the text of a heading, its fragment identifier and
    the table of contents. The parser is the library [marked]'s: what it hands to the renderer and
    the page it puts together are parameters. Classes of letters are those of Latin-1. *)

From S2P Require Import Prelude JsText JsValue.

#[local] Arguments cons {A} & _ _.

Definition dash : ascii := "-".
Definition lt_sign : ascii := "<".
Definition gt_sign : ascii := ">".

(** [\p{L}] and [\p{N}] *)
Definition is_letter (c : ascii) : bool :=
  is_alpha c || bool_decide (code c ∈ [170; 181; 186]%N)
  || (in_range 192 255 c && negb (bool_decide (code c ∈ [215; 247]%N))).
Definition is_number (c : ascii) : bool :=
  is_digit c || bool_decide (code c ∈ [178; 179; 185; 188; 189; 190]%N).

(** [s.replace(/<[^>]*>/g, '')]; [skip] counts the characters of a tag still to pass. *)
Fixpoint strip_tags (skip : nat) (s : jsstring) : jsstring :=
  match s with
  | [] => []
  | c :: s' =>
      match skip with
      | S n => strip_tags n s'
      | O =>
          if ascii_eqb c lt_sign then
            match indexOf s' [gt_sign] with
            | Some i => strip_tags (S i) s'
            | None => c :: strip_tags 0 s'
            end
          else c :: strip_tags 0 s'
      end
  end.

(** [s.replace(/p+/g, '-')]; [inside] tells that the run of the previous character goes on. *)
Fixpoint collapse (p : ascii → bool) (inside : bool) (s : jsstring) : jsstring :=
  match s with
  | [] => []
  | c :: s =>
      if p c then (if inside then collapse p true s else dash :: collapse p true s)
      else c :: collapse p false s
  end.

Definition is_separator (c : ascii) : bool := is_space c || ascii_eqb c "_" || ascii_eqb c "/".
Definition is_dash (c : ascii) : bool := ascii_eqb c dash.

Definition kept (c : ascii) : bool :=
  is_letter c || is_number c || is_space c || is_dash c || ascii_eqb c "_" || ascii_eqb c "/".

(** [s.replace(/^-|-$/g, '')] *)
Definition strip_edges (s : jsstring) : jsstring :=
  let s := match s with c :: r => if is_dash c then r else s | [] => [] end in
  match reverse s with c :: r => if is_dash c then reverse r else s | [] => s end.

Definition slugify (text : jsstring) : jsstring :=
  let s := strip_tags 0 text in
  let s := toLowerCase (trim s) in
  let s := List.filter kept s in
  let s := collapse is_dash false (collapse is_separator false s) in
  str_or (strip_edges s) "section".

(** ** The document *)

Definition newline : jsstring := [chr 10].
Definition fence : jsstring := "---".

Definition drop_line_end (s : jsstring) : jsstring :=
  if startsWith s [chr 13; chr 10] then drop 2 s
  else if startsWith s [chr 10] then drop 1 s else s.

Definition stripFrontMatter (raw : jsstring) : jsstring :=
  if startsWith raw fence then
    match indexOfFrom raw (newline ++ fence) 3 with
    | Some end_ => drop_line_end (drop (end_ + 4) raw)
    | None => raw
    end
  else raw.

(** An inline token: its own tokens when it has any, its text, its raw source. *)
Inductive token := Token (tokens : list token) (text raw : option jsstring).

Fixpoint visit_token (t : token) : jsstring :=
  match t with
  | Token [] (Some text) _ => text
  | Token [] None raw => default [] raw
  | Token ts _ _ => mjoin (visit_token <$> ts)
  end.

Definition visit (items : list token) : jsstring := mjoin (visit_token <$> items).

(** [fallback]: [None] when there is none. *)
Definition headingText (tokens : list token) (fallback : option jsstring) : jsstring :=
  let text := match tokens with [] => default [] fallback | _ => visit tokens end in
  trim (strip_tags 0 text).

(** A heading as the parser hands it to the renderer; [inner] is its parsed inline content. *)
Record heading := {
  h_tokens : list token; depth : nat; h_text : option jsstring; inner : jsstring
}.

Record toc_entry := { id : jsstring; text : jsstring; level : nat }.

(** The renderer's memory: the headings seen for each slug, and the table of contents. *)
Record outline := { used : list (jsstring * nat); toc : list toc_entry }.

Definition heading_html (level : nat) (id inner : jsstring) : jsstring :=
  js "<h" ++ str_of_nat level ++ js " id=" ++ [chr 34] ++ id ++ [chr 34; gt_sign] ++ inner
  ++ js "</h" ++ str_of_nat level ++ js ">" ++ newline.

(** [renderer.table]: the wrapped table. *)
Definition table_html (inner : jsstring) : jsstring :=
  js "<div class=" ++ [chr 34] ++ js "docs-table-wrap" ++ [chr 34; gt_sign] ++ inner ++ js "</div>" ++ newline.

(** [renderer.heading]: the identifier, the markup and the new memory. *)
Definition render_heading (h : heading) (o : outline) : jsstring * jsstring * outline :=
  let plain := headingText (h_tokens h) (h_text h) in
  let slug := slugify plain in
  let n := default 0 (assoc (used o) slug) in
  let id := if (0 <? n)%nat then slug ++ [dash] ++ str_of_nat n else slug in
  let entry := {| id := id; text := plain; level := depth h |} in
  (id, heading_html (depth h) id (inner h),
   {| used := set_key (used o) slug (S n);
      toc := if (2 <=? depth h) && (depth h <=? 3) then toc o ++ [entry] else toc o |}).

Fixpoint render_headings (hs : list heading) (o : outline) : list (jsstring * jsstring) * outline :=
  match hs with
  | [] => ([], o)
  | h :: hs =>
      let '(id, html, o) := render_heading h o in
      let '(rest, o) := render_headings hs o in ((id, html) :: rest, o)
  end.

Definition empty_outline : outline := {| used := []; toc := [] |}.

Section document.
(** What [marked.parse] does with a body: the headings it renders in order, and the page it puts
    together from their markup ([None] when it throws); and the page without the renderer. *)
Variable parse : jsstring → list heading * option (list jsstring → jsstring).
Variable parse_plain : jsstring → jsstring.

Definition renderMarkdown (source : option jsstring) : jsstring * list toc_entry :=
  let body := stripFrontMatter (default [] source) in
  let '(hs, assemble) := parse body in
  let '(rendered, o) := render_headings hs empty_outline in
  match assemble with
  | Some f => (f rendered.*2, toc o)
  | None => (parse_plain body, toc o)
  end.
End document.

Example slug_sample : slugify (js "  <b>Getting</b> Started / Quick_Guide -- v2! ") = js "getting-started-quick-guide-v2".
Proof. vm_compute. reflexivity. Qed.

Example front_matter_sample :
  stripFrontMatter (fence ++ newline ++ js "title: x" ++ newline ++ fence ++ newline ++ js "# Start")
  = js "# Start".
Proof. vm_compute. reflexivity. Qed.

(** ** Slugs *)

Definition id_char (c : ascii) : bool := is_letter c || is_number c || is_dash c.

Lemma collapse_chars p b s c : c ∈ collapse p b s → c = dash ∨ (p c = false ∧ c ∈ s).
Proof.
  revert b. induction s as [|x s IH]; intros b; cbn [collapse]; [by intros ?%elem_of_nil|].
  destruct (p x) eqn:E.
  - destruct b; [|intros [->|H]%elem_of_cons; [by left|revert H]].
    all: intros [?|[? ?]]%IH; [by left|right]; split; [done|by right].
  - intros [->|H]%elem_of_cons; [right; split; [done|by left]|].
    apply IH in H as [?|[? ?]]; [by left|right]. split; [done|by right].
Qed.

(** No two hyphens next to each other. *)
Definition single_dashes (s : jsstring) : Prop := ∀ k1 k2, s ≠ k1 ++ [dash; dash] ++ k2.

Lemma single_dashes_cons c s :
  single_dashes s → (c = dash → head s ≠ Some dash) → single_dashes (c :: s).
Proof.
  intros Hs Hc [|x k1] k2; cbn [app].
  - intros [= -> ->]. by apply Hc.
  - intros [= -> ->]. by apply (Hs k1 k2).
Qed.

Lemma single_dashes_infix k1 s k2 : single_dashes (k1 ++ s ++ k2) → single_dashes s.
Proof.
  intros H k3 k4 ->. apply (H (k1 ++ k3) (k4 ++ k2)). by rewrite <- !app_assoc.
Qed.

Lemma collapse_single b s :
  single_dashes (collapse is_dash b s) ∧ (b = true → head (collapse is_dash b s) ≠ Some dash).
Proof.
  revert b. induction s as [|c s IH]; intros b; cbn [collapse].
  - split; [|done]. intros [|? [|??]] ?; done.
  - destruct (is_dash c) eqn:E.
    + destruct (IH true) as [H1 H2]. destruct b; [by split; [|intros _; apply H2]|].
      split; [|done]. apply single_dashes_cons; [done|]. intros _. by apply H2.
    + destruct (IH false) as [H1 _]. unfold is_dash in E. apply ascii_eqb_neq in E.
      split; [|intros _ [= ?]; done]. by apply single_dashes_cons.
Qed.

Lemma single_drop_first c r : single_dashes (c :: r) → single_dashes r.
Proof. intros H. apply (single_dashes_infix [c] r []). by rewrite app_nil_r. Qed.

Lemma strip_edges_spec s :
  single_dashes s →
  single_dashes (strip_edges s) ∧ head (strip_edges s) ≠ Some dash ∧
  last (strip_edges s) ≠ Some dash ∧ ∀ c, c ∈ strip_edges s → c ∈ s.
Proof.
  intros Hs. unfold strip_edges.
  set (r := match s with c :: r => if is_dash c then r else s | [] => [] end).
  assert (Hr : single_dashes r ∧ head r ≠ Some dash ∧ ∀ c, c ∈ r → c ∈ s).
  { subst r. destruct s as [|c r]; [by split_and!|].
    unfold is_dash. destruct (ascii_eqb_spec c dash) as [->|Hc].
    - split_and!; [by eapply single_drop_first| |by right].
      destruct r as [|c r]; [done|]. intros [= ->]. by apply (Hs [] r).
    - split_and!; [done|by intros [= ?]|done]. }
  clearbody r. destruct Hr as (H1 & H2 & H3).
  destruct r as [|c r _] using rev_ind; [by split_and!|].
  rewrite reverse_snoc. unfold is_dash. destruct (ascii_eqb_spec c dash) as [->|Hc].
  - rewrite reverse_involutive. split_and!.
    + by apply (single_dashes_infix [] r [dash]).
    + by destruct r.
    + destruct r as [|c r _] using rev_ind; [done|]. rewrite last_snoc. intros [= ->].
      apply (H1 r []). by rewrite <- app_assoc.
    + intros c Hc. apply H3, elem_of_app. by left.
  - split_and!; try done. rewrite last_snoc. by intros [= ?].
Qed.

Lemma kept_id_char c : kept c = true → is_separator c = false → id_char c = true.
Proof. by_all_chars c. Qed.

Lemma slugify_spec s :
  slugify s ≠ [] ∧ Forall (λ c, id_char c = true) (slugify s) ∧ single_dashes (slugify s) ∧
  head (slugify s) ≠ Some dash ∧ last (slugify s) ≠ Some dash.
Proof.
  unfold slugify. cbv zeta. generalize (toLowerCase (trim (strip_tags 0 s))). clear s. intros s.
  set (k := collapse is_separator false (List.filter kept s)).
  pose proof (strip_edges_spec _ (proj1 (collapse_single false k))) as (H1 & H2 & H3 & H4).
  unfold str_or. destruct (truthy _) eqn:Et.
  - apply truthy_true in Et. split_and!; try done. apply Forall_forall. intros c Hc.
    apply H4, collapse_chars in Hc as [->|[_ Hc]]; [done|].
    apply collapse_chars in Hc as [->|[Hsep Hc]]; [done|].
    apply list_elem_of_In, filter_In in Hc as [_ Hc]. by apply kept_id_char.
  - split_and!; try done; [by apply (bool_decide_unpack _); vm_compute|].
    intros k1 k2 Heq. assert (includes (js "section") [dash; dash] = true) as Hi; [|done].
    apply includes_spec. eauto.
Qed.

(** ** Identifiers of a document *)

(** Decimal numbers hold digits only. *)
Lemma digit_char n : (n < 10)%N → is_digit (pretty_N_char n) = true.
Proof.
  intros Hn. assert (n ∈ N.of_nat <$> seq 0 10) as Hin.
  { apply list_elem_of_fmap. exists (N.to_nat n). split; [lia|]. apply elem_of_seq. lia. }
  clear Hn. revert n Hin. apply Forall_forall. apply (bool_decide_unpack _). vm_compute. exact I.
Qed.

Lemma pretty_go_digits n s :
  Forall (λ c, is_digit c = true) (js s) → Forall (λ c, is_digit c = true) (js (pretty_N_go n s)).
Proof.
  revert s. induction (N.lt_wf_0 n) as [n _ IH]; intros s Hs.
  destruct (decide (n = 0)%N) as [->|Hn]; [by rewrite pretty_N_go_0|].
  rewrite pretty_N_go_step by lia. apply IH; [apply N.div_lt; lia|].
  constructor; [|done]. apply digit_char, N.mod_lt. done.
Qed.

Lemma str_of_nat_digits n : Forall (λ c, is_digit c = true) (str_of_nat n).
Proof.
  unfold str_of_nat. change (pretty n) with (pretty (N.of_nat n)).
  unfold pretty, pretty_N. case_decide.
  - by repeat constructor.
  - by apply pretty_go_digits.
Qed.

Definition numbered (n : nat) (slug : jsstring) : jsstring :=
  if (0 <? n)%nat then slug ++ [dash] ++ str_of_nat n else slug.

Definition slug_of (h : heading) : jsstring := slugify (headingText (h_tokens h) (h_text h)).

Definition occurrences (slug : jsstring) (l : list jsstring) : nat := length (List.filter (eqs slug) l).

Lemma occurrences_snoc s l k : occurrences s (l ++ [k]) = if eqs s k then S (occurrences s l) else occurrences s l.
Proof.
  unfold occurrences. rewrite List.filter_app, length_app. simpl. destruct (eqs s k); simpl; lia.
Qed.

Lemma occurrences_mono s l k : occurrences s l ≤ occurrences s (l ++ k).
Proof. unfold occurrences. rewrite List.filter_app, length_app. lia. Qed.

(** The identifiers of the headings [hs] that come after the slugs [prev]. *)
Fixpoint number (prev slugs : list jsstring) : list jsstring :=
  match slugs with
  | [] => []
  | s :: slugs => numbered (occurrences s prev) s :: number (prev ++ [s]) slugs
  end.

Definition toc_of (hs : list heading) (ids : list jsstring) : list toc_entry :=
  List.filter (λ e, (2 <=? level e) && (level e <=? 3))
    (zip_with (λ h i, {| id := i; text := headingText (h_tokens h) (h_text h); level := depth h |}) hs ids).

Lemma render_headings_spec hs prev o :
  (∀ s, default 0 (assoc (used o) s) = occurrences s prev) →
  let '(rendered, o') := render_headings hs o in
  rendered.*1 = number prev (slug_of <$> hs) ∧
  rendered.*2 = zip_with (λ h i, heading_html (depth h) i (inner h)) hs (number prev (slug_of <$> hs)) ∧
  toc o' = toc o ++ toc_of hs (number prev (slug_of <$> hs)).
Proof.
  revert prev o. induction hs as [|h hs IH]; intros prev o Ho; cbn [render_headings].
  { split_and!; [done|done|by rewrite app_nil_r]. }
  unfold render_heading. fold (slug_of h). rewrite Ho. cbv zeta.
  match goal with |- context [render_headings hs ?o'] => specialize (IH (prev ++ [slug_of h]) o') end.
  destruct (render_headings hs _) as [rest o'].
  destruct IH as (H1 & H2 & H3).
  { intros s. cbn [used]. rewrite assoc_set_key, occurrences_snoc.
    destruct (eqs (slug_of h) s) eqn:E.
    - apply eqs_true in E as <-. by rewrite eqs_refl.
    - rewrite Ho. destruct (eqs s (slug_of h)) eqn:E'; [|done].
      apply eqs_true in E' as ->. by rewrite eqs_refl in E. }
  csimpl. rewrite H1, H2, H3. split_and!; [done|done|].
  cbn [toc]. unfold toc_of. cbn [zip_with List.filter level fmap list_fmap number].
  destruct ((2 <=? depth h) && (depth h <=? 3)); [by rewrite <- app_assoc|done].
Qed.

Lemma number_lookup prev slugs i :
  number prev slugs !! i = (λ s, numbered (occurrences s (prev ++ take i slugs)) s) <$> slugs !! i.
Proof.
  revert prev i. induction slugs as [|s slugs IH]; intros prev [|i]; cbn; [done|done|by rewrite app_nil_r|].
  rewrite IH. by rewrite <- app_assoc.
Qed.

Lemma str_of_nat_no_dash n : dash ∉ str_of_nat n.
Proof.
  intros H. pose proof (str_of_nat_digits n) as Hd. rewrite Forall_forall in Hd. by specialize (Hd _ H).
Qed.

Lemma numbered_inj n m s s' :
  (∀ k, s ≠ s' ++ [dash] ++ str_of_nat k) → (∀ k, s' ≠ s ++ [dash] ++ str_of_nat k) →
  numbered n s = numbered m s' → s = s'.
Proof.
  intros H1 H2. unfold numbered. destruct (0 <? n)%nat, (0 <? m)%nat; try done.
  - intros Heq. assert (Hl : lastIndexOf (s ++ dash :: str_of_nat n) dash = Some (length s)).
    { apply lastIndexOf_app, str_of_nat_no_dash. }
    change (dash :: str_of_nat n) with ([dash] ++ str_of_nat n) in Hl. rewrite Heq in Hl.
    change ([dash] ++ str_of_nat m) with (dash :: str_of_nat m) in Hl.
    rewrite (lastIndexOf_app s' dash) in Hl by apply str_of_nat_no_dash. injection Hl as Hl.
    by apply app_inj_1 in Heq as [? _].
  - intros Heq. by destruct (H2 n).
  - intros Heq. by destruct (H1 m).
Qed.

Lemma numbered_inj_nat n m s : numbered n s = numbered m s → n = m.
Proof.
  unfold numbered. destruct (Nat.ltb_spec 0 n), (Nat.ltb_spec 0 m); intros Heq; try lia.
  - apply app_inv_head in Heq. injection Heq as Heq. by apply str_of_nat_inj.
  - exfalso. apply (f_equal length) in Heq. rewrite length_app in Heq. simpl in Heq. lia.
  - exfalso. apply (f_equal length) in Heq. rewrite length_app in Heq. simpl in Heq. lia.
Qed.

(** A later heading of the same slug has a larger number. *)
Lemma occurrences_later slugs i j s :
  slugs !! i = Some s → i < j → occurrences s (take i slugs) < occurrences s (take j slugs).
Proof.
  intros Hi Hij. apply Nat.lt_le_trans with (occurrences s (take (S i) slugs)).
  - rewrite (take_S_r _ _ _ Hi), occurrences_snoc, eqs_refl. lia.
  - replace (take j slugs) with (take (S i) slugs ++ take (j - S i) (drop (S i) slugs)).
    + apply occurrences_mono.
    + rewrite take_take_drop. f_equal. lia.
Qed.

(** The anchors of a documentation page. The heading number i gets the slug of its text, followed by
    the number of earlier headings of that slug when there are any; a slug is a non-empty run of
    letters, digits and single inner hyphens, so that it cannot leave the attribute it is put
    in. Headings of the same slug have different anchors, and all anchors differ when no
    slug of the page is another one followed by a hyphen and a number. The table of contents lists the
    second and third levels in order, under the anchors the page has. *)
Theorem heading_anchors hs :
  let '(rendered, o) := render_headings hs empty_outline in
  let ids := rendered.*1 in
  let slugs := slug_of <$> hs in
  (∀ i s, slugs !! i = Some s → ids !! i = Some (numbered (occurrences s (take i slugs)) s)) ∧
  (∀ s, s ∈ slugs → s ≠ [] ∧ Forall (λ c, id_char c = true) s ∧ single_dashes s ∧
     head s ≠ Some dash ∧ last s ≠ Some dash) ∧
  (∀ i j s, i < j → slugs !! i = Some s → slugs !! j = Some s → ids !! i ≠ ids !! j) ∧
  ((∀ s s' k, s ∈ slugs → s' ∈ slugs → s ≠ s' ++ [dash] ++ str_of_nat k) → NoDup ids) ∧
  toc o = toc_of hs ids ∧
  rendered.*2 = zip_with (λ h i, heading_html (depth h) i (inner h)) hs ids.
Proof.
  pose proof (render_headings_spec hs [] empty_outline (λ s, eq_refl)) as Hr.
  destruct (render_headings hs empty_outline) as [rendered o]. destruct Hr as (H1 & H2 & H3).
  cbv zeta. rewrite <- H1 in H2, H3.
  assert (Hids : ∀ i s, (slug_of <$> hs) !! i = Some s →
    rendered.*1 !! i = Some (numbered (occurrences s (take i (slug_of <$> hs))) s)).
  { intros i s Hi. by rewrite H1, number_lookup, Hi. }
  split_and!; [exact Hids| | | |exact H3|exact H2].
  - intros s (h & -> & _)%list_elem_of_fmap. apply slugify_spec.
  - intros i j s Hij Hi Hj. rewrite (Hids i s Hi), (Hids j s Hj). intros [= Heq%numbered_inj_nat].
    pose proof (occurrences_later _ i j s Hi Hij). lia.
  - intros Hsep. apply NoDup_alt. intros i j x Hi Hj.
    rewrite H1, number_lookup in Hi, Hj. cbn [app] in Hi, Hj.
    destruct ((slug_of <$> hs) !! i) as [s|] eqn:Ei; [|done].
    destruct ((slug_of <$> hs) !! j) as [s'|] eqn:Ej; [|done]. cbn in Hi, Hj.
    injection Hi as <-. injection Hj as Hj. symmetry in Hj.
    apply list_elem_of_lookup_2 in Ei as Hs. apply list_elem_of_lookup_2 in Ej as Hs'.
    assert (s = s') as <- by (eapply numbered_inj; [..|exact Hj]; intros k; by apply Hsep).
    apply numbered_inj_nat in Hj.
    destruct (Nat.lt_trichotomy i j) as [Hlt|[->|Hlt]]; [|done|].
    + pose proof (occurrences_later _ i j s Ei Hlt). lia.
    + pose proof (occurrences_later _ j i s Ej Hlt). lia.
Qed.

(** Without that condition two headings can share an anchor. *)
Definition plain_heading (t : string) : heading :=
  {| h_tokens := []; depth := 2; h_text := Some (js t); inner := js t |}.

Lemma duplicate_anchor :
  (render_headings [plain_heading "foo"; plain_heading "foo"; plain_heading "foo 1"] empty_outline).1.*1
  = [js "foo"; js "foo-1"; js "foo-1"].
Proof. vm_compute. reflexivity. Qed.
