(* ===== verification/Router.v ===== *)
(** * The router of the web site

    [web/js/router.js] and [web/js/lib/doc-routes.js]: matching of paths, the sections
    that are navigated softly, and the rendering of routes one at a time, with the
    latest location rendered when calls overlap. The location after a history
    call, the query parser and the pages are parameters or events. *)

From S2P Require Import Prelude JsText.
From coqutil Require Import Datatypes.RecordSettersUsingExistingGetters.

#[local] Arguments const {E} _ _ /.
#[local] Arguments cons {A} & _ _.

(** ** Paths *)

Definition docURL (slug : jsstring) : jsstring :=
  if startsWith slug "api/" then "/" ++ slug else "/docs/" ++ slug.

Record location := { pathname : jsstring; search : jsstring; hash : jsstring }.

(** [.replace(/^\/docs\/api(?=\/|$)/, '/api')] *)
Definition canonical_path (path : jsstring) : jsstring :=
  if startsWith path "/docs/api" then
    let rest := drop 9 path in
    match rest with
    | [] => js "/api"
    | c :: _ => if ascii_eqb c "/" then "/api" ++ rest else path
    end
  else path.

Definition href (l : location) : jsstring := pathname l ++ search l ++ hash l.

Definition canonicalPageURL (l : location) : jsstring :=
  canonical_path (pathname l) ++ search l ++ hash l.

(** [path || '/'] with a leading slash and without a trailing one. *)
Definition normalize (path : jsstring) : jsstring :=
  let p := str_or path "/" in
  let p := if startsWith p "/" then p else "/" ++ p in
  if (1 <? length p) && endsWith p "/" then take (length p - 1) p else p.

Section router.
Context {Handler Cleanup : Type}.

Record route := { rt_pattern : jsstring; handler : Handler }.

(** The match of one route: its [splat] parameter, absent for an exact match. *)
Definition match_one (p : jsstring) (r : route) : option (option jsstring) :=
  if eqs (rt_pattern r) p then Some None
  else if endsWith (rt_pattern r) "/*" then
    let prefix := take (length (rt_pattern r) - 2) (rt_pattern r) in
    if eqs p prefix then Some (Some [])
    else if startsWith p (prefix ++ js "/") then Some (Some (drop (length prefix + 1) p))
    else None
  else None.

Fixpoint match_routes (p : jsstring) (rs : list route) : option (route * option jsstring) :=
  match rs with
  | [] => None
  | r :: rs => match match_one p r with Some splat => Some (r, splat) | None => match_routes p rs end
  end.

Definition matchRoute (routes : list route) (path : jsstring) : option (route * option jsstring) :=
  match_routes (normalize path) routes.

Definition sectionKey (path : jsstring) : jsstring :=
  let p := normalize path in
  if eqs p "/docs" || startsWith p "/docs/" then js "docs"
  else if eqs p "/download" then js "download"
  else if eqs p "/api" || startsWith p "/api/" then js "api"
  else if eqs p "/contributors" then js "contributors"
  else if eqs p "/" then js "home"
  else p.

(** ** Rendering *)

(** [new URLSearchParams(search).get('view')], and the location after
    [pushState(url)] or [replaceState(url)]. *)
Variable get_view : jsstring → option jsstring.
Variable resolve : jsstring → location.

(** What the page holds: the root element, its children, a docs layout in it. *)
Record page := { has_root : bool; has_children : bool; has_docs_layout : bool }.

(** A render between its start and its end. *)
Record context := { c_path : jsstring; c_route : route; c_splat : option jsstring; c_soft : bool }.

Inductive pc :=
  | Leaving (c : context)      (* await wait(180) *)
  | Handling (c : context).    (* await matched.route.handler(...) *)

Definition context_of (p : pc) : context := match p with Leaving c | Handling c => c end.

(** [running]: the calls of [renderRoute] that are suspended at an [await]. *)
Record state := {
  loc : location; routes : list route; the_page : page;
  currentCleanup : option Cleanup; firstRender : bool; rendering : bool; pendingRender : bool;
  previousPath : option jsstring; previousView : option jsstring;
  running : list pc;
  shown : list context;        (* handlers called, latest first *)
  cleaned : list Cleanup       (* cleanups called, latest first *)
}.

(** The soft navigation test; [view] is the present one. *)
Definition is_soft (s : state) (path : jsstring) (view : option jsstring) : bool :=
  negb (firstRender s) &&
  match previousPath s with
  | None => false
  | Some prev =>
      bool_decide (previousView s = view) && eqs (sectionKey prev) (sectionKey path)
      && (eqs (sectionKey path) "docs" || eqs (sectionKey path) "api")
      && has_docs_layout (the_page s)
  end.

Definition set_loc (l : location) (s : state) : state := { s with loc := l }.

(** A call of [renderRoute] is suspended at [p]. *)
Definition suspend (p : pc) (s : state) : state := { s with running := running s ++ [p] }.

(** The call of the handler. *)
Definition call_handler (c : context) (s : state) : state := suspend (Handling c) { s with shown := c :: shown s }.

(** The mount of a page that is not navigated softly: the cleanup of the previous page runs
    (its exceptions are ignored) and the root is emptied. *)
Definition mount (c : context) (s : state) : state :=
  call_handler c
    { s with the_page := {| has_root := has_root (the_page s); has_children := false; has_docs_layout := false |};
             cleaned := match currentCleanup s with Some f => f :: cleaned s | None => cleaned s end;
             currentCleanup := None; firstRender := false }.

Definition canonical_loc (s : state) : state :=
  let canonical := canonicalPageURL (loc s) in
  if eqs canonical (href (loc s)) then s else set_loc (resolve canonical) s.

(** The body of [renderRoute] up to its first [await]; on the early return for a missing root or route only
    [finally] runs, with nothing pending, since nothing happened meanwhile. *)
Definition render_now (s : state) : state :=
  let s := canonical_loc s in
  let path := str_or (pathname (loc s)) "/" in
  match (match matchRoute (routes s) path with Some m => Some m | None => matchRoute (routes s) "/" end) with
  | None => { s with rendering := false }
  | Some (r, splat) =>
      if has_root (the_page s) then
        let view := get_view (search (loc s)) in
        let soft := is_soft s path view in
        let s := { s with previousPath := Some path; previousView := view } in
        let c := {| c_path := path; c_route := r; c_splat := splat; c_soft := soft |} in
        if soft then call_handler c s
        else if negb (firstRender s) && has_children (the_page s) then suspend (Leaving c) s
        else mount c s
      else { s with rendering := false }
  end.

Definition renderRoute (s : state) : state :=
  if rendering s then { s with pendingRender := true } else render_now { s with rendering := true }.

(** The [finally] of a render. *)
Definition render_finally (s : state) : state :=
  let s := { s with rendering := false } in
  if pendingRender s then renderRoute { s with pendingRender := false } else s.

(** What the handler gives: a cleanup, nothing, or an exception. *)
Inductive handler_result := ReturnsCleanup (f : Cleanup) | ReturnsNothing | Throws.

Definition handler_done (r : handler_result) (s : state) : state :=
  render_finally match r with ReturnsCleanup f => { s with currentCleanup := Some f } | _ => s end.

Definition navigate (path : jsstring) (s : state) : state :=
  renderRoute (set_loc (resolve (if startsWith path "/" then path else "/" ++ path)) s).

Definition nav_active (path : jsstring) (href : jsstring) : bool :=
  eqs href path || (negb (eqs href "/") && startsWith path href).

Record click := { modified : bool; button : Z; a_href : option jsstring }.

(** A click on a link: [None] leaves it to the browser. *)
Definition on_click (e : click) (s : state) : option state :=
  if modified e || negb (button e =? 0)%Z then None
  else
    match a_href e with
    | None => None
    | Some h =>
        if negb (truthy h) || startsWith h "http" || startsWith h "//" || startsWith h "#" then None
        else Some (if negb (eqs h (href (loc s))) then navigate h s else renderRoute s)
    end.

Inductive event :=
  | Start                                (* the first [renderRoute] of the application *)
  | Navigate (path : jsstring)           (* [navigate], with push or replace *)
  | Click (e : click)
  | PopState (l : location)
  | Waited (i : nat)                     (* the wait of the call at [i] is over *)
  | HandlerDone (i : nat) (r : handler_result)
  | PageChanged (p : page).              (* what the running handler does to the page *)

Definition exec (e : event) (s : state) : option state :=
  match e with
  | Start => Some (renderRoute s)
  | Navigate path => Some (navigate path s)
  | Click c => on_click c s
  | PopState l => Some (renderRoute (set_loc l s))
  | Waited i => match running s !! i with Some (Leaving c) => Some (mount c { s with running := delete i (running s) }) | _ => None end
  | HandlerDone i r => match running s !! i with Some (Handling _) => Some (handler_done r { s with running := delete i (running s) }) | _ => None end
  | PageChanged p => Some { s with the_page := p }
  end.

Fixpoint exec_all (es : list event) (s : state) : option state :=
  match es with
  | [] => Some s
  | e :: es => match exec e s with Some s' => exec_all es s' | None => None end
  end.

(** The router with its routes registered, before its first [renderRoute]. *)
Definition initial (l : location) (rs : list route) (p : page) : state :=
  {| loc := l; routes := rs; the_page := p; currentCleanup := None; firstRender := true;
     rendering := false; pendingRender := false; previousPath := None; previousView := None; running := [];
     shown := []; cleaned := [] |}.

(** ** The latest location is shown *)

Definition here (s : state) : jsstring := str_or (pathname (loc s)) "/".

Definition displays (s : state) : Prop := ∃ c, head (shown s) = Some c ∧ c_path c = here s.

(** [l] is the location before the first render. *)
Record inv (l : location) (s : state) : Prop := {
  inv_root : has_root (the_page s) = true;
  inv_routes : matchRoute (routes s) "/" ≠ None;
  inv_running : if rendering s then ∃ p, running s = [p] ∧ (pendingRender s = true ∨ c_path (context_of p) = here s)
                                        ∧ (∀ c, p = Handling c → head (shown s) = Some c)
                else running s = [] ∧ pendingRender s = false ∧ ((shown s = [] ∧ loc s = l) ∨ displays s)
}.

Lemma canonical_loc_keeps s : ∃ l, canonical_loc s = set_loc l s.
Proof. unfold canonical_loc. destruct (eqs _ _); [exists (loc s); by destruct s|by eexists]. Qed.

Lemma render_now_inv l s :
  has_root (the_page s) = true → matchRoute (routes s) "/" ≠ None → rendering s = true → running s = [] → inv l (render_now s).
Proof.
  intros Hr Hm Hre Hru. unfold render_now. cbv zeta. destruct (canonical_loc_keeps s) as [l' ->]. cbn [set_loc the_page routes loc] in *.
  destruct (match matchRoute (routes s) (str_or (pathname l') "/") with
            | Some m => Some m | None => matchRoute (routes s) "/" end) as [[r splat]|] eqn:E.
  2: { exfalso. apply Hm. by destruct (matchRoute (routes s) (str_or _ _)). }
  change (the_page (set_loc l' s)) with (the_page s). change (routes (set_loc l' s)) with (routes s). change (loc (set_loc l' s)) with l'.
  rewrite E, Hr. unfold mount, call_handler, suspend.
  destruct (is_soft _ _ _); [|match goal with |- context [if ?b then _ else _] => destruct b end]; (constructor; cbn; [done|done|]); rewrite Hre, Hru; cbn;
    (eexists; split; [reflexivity|]; split; [by right|]); congruence.
Qed.

Lemma renderRoute_inv l s l' : inv l s → inv l (renderRoute (set_loc l' s)).
Proof.
  intros [Hr Hm Hp]. unfold renderRoute. change (rendering (set_loc l' s)) with (rendering s). destruct (rendering s) eqn:E.
  - constructor; cbn; [done|done|]. rewrite E. destruct Hp as (p & H1 & H2 & H3). exists p. split; [done|]. split; [by left|done].
  - apply render_now_inv; cbn; [done|done|done|]. by destruct Hp.
Qed.

Lemma set_loc_same s : set_loc (loc s) s = s.
Proof. by destruct s. Qed.

Lemma finally_inv l s c :
  has_root (the_page s) = true → matchRoute (routes s) "/" ≠ None → running s = [] →
  head (shown s) = Some c → pendingRender s = true ∨ c_path c = here s → inv l (render_finally s).
Proof.
  intros Hr Hm Hru Hh Hp. unfold render_finally. cbv zeta. change (pendingRender { s with rendering := false }) with (pendingRender s).
  destruct (pendingRender s) eqn:E.
  - unfold renderRoute. by apply render_now_inv.
  - destruct Hp as [?|Hp]; [done|]. constructor; cbn; [done|done|]. split_and!; [done|done|]. right. by exists c.
Qed.

(** What the handlers do to the page keeps its root. *)
Definition keeps_root (e : event) : Prop :=
  match e with PageChanged p => has_root p = true | _ => True end.

Lemma inv_one l s i p : inv l s → running s !! i = Some p → rendering s = true ∧ running s = [p] ∧ i = 0.
Proof.
  intros [_ _ Hp] Hi. destruct (rendering s).
  - destruct Hp as (p' & E & _). rewrite E in *. destruct i as [|i]; [by injection Hi as ->|done].
  - destruct Hp as [E _]. by rewrite E in Hi.
Qed.

Lemma router_exec_inv l e s s' : keeps_root e → inv l s → exec e s = Some s' → inv l s'.
Proof.
  intros Hk I. pose proof I as [Hr Hm Hp]. destruct e as [|path|c|l'|i|i r|p]; cbn [exec].
  - intros [= <-]. rewrite <- (set_loc_same s) at 1. by apply renderRoute_inv.
  - intros [= <-]. by apply renderRoute_inv.
  - unfold on_click. split_if; [done|]. destruct (a_href c) as [h|]; [|done]. split_if; [done|].
    intros [= <-]. split_if; [by apply renderRoute_inv|].
    rewrite <- (set_loc_same s). by apply renderRoute_inv.
  - intros [= <-]. by apply renderRoute_inv.
  - destruct (running s !! i) as [[c|]|] eqn:E; [|done|done]. intros [= <-]. destruct (inv_one l s i _ I E) as (Hre & Hru & ->).
    rewrite Hre, Hru in Hp. destruct Hp as (p & [= <-] & H2 & _).
    constructor; cbn; [done|done|]. rewrite Hre, Hru. cbn. eexists. split; [done|]. split; [done|]. congruence.
  - destruct (running s !! i) as [[|c]|] eqn:E; [done| |done]. intros [= <-]. destruct (inv_one l s i _ I E) as (Hre & Hru & ->).
    rewrite Hre, Hru in Hp. destruct Hp as (p & [= <-] & H2 & H3).
    unfold handler_done. apply (finally_inv l _ c); destruct r; cbn; try rewrite Hru; try done; by apply H3.
  - intros [= <-]. constructor; cbn; [done|done|]. exact Hp.
Qed.

(** C40: the router shows the latest location. However navigations, clicks, history moves and slow pages
    overlap, only one page renders at a time; and whenever no render is running none is pending, and
    the last page handler was called for the path of the present location (or nothing
    was rendered and the location is the first one). A render that was overtaken has the next
    one pending. *)
Theorem router_shows_latest l rs p es s :
  has_root p = true → matchRoute rs "/" ≠ None → Forall keeps_root es →
  exec_all es (initial l rs p) = Some s →
  length (running s) ≤ 1 ∧
  (running s = [] →
     pendingRender s = false ∧ ((shown s = [] ∧ loc s = l) ∨ displays s)) ∧
  (∀ r, r ∈ running s → pendingRender s = false → c_path (context_of r) = here s).
Proof.
  intros Hr Hm Hk H. assert (I : inv l s).
  { assert (I0 : inv l (initial l rs p)) by (constructor; cbn; auto).
    revert I0 H. generalize (initial l rs p). induction Hk as [|e es He Hes IH]; intros s0 I0.
    - by intros [= <-].
    - cbn [exec_all]. destruct (exec e s0) eqn:E; [|done]. apply IH. by eapply router_exec_inv. }
  destruct I as [_ _ I]. destruct (rendering s).
  - destruct I as (r & E & Hp & _). rewrite E. split_and!; [done|done|]. intros x ->%list_elem_of_singleton Hf. destruct Hp; congruence.
  - destruct I as (E & Hp & Hd). rewrite E. split_and!; [cbn; lia|done|]. by intros x ?%elem_of_nil.
Qed.
End router.

(** ** Old addresses *)

Lemma canonical_path_api p : canonical_path (js "/docs/api/" ++ p) = js "/api/" ++ p.
Proof. reflexivity. Qed.

Lemma canonical_path_other p : startsWith p "/docs/api" = false → canonical_path p = p.
Proof. intros H. unfold canonical_path. by rewrite H. Qed.

(** A path below a section keeps its section, with or without a trailing slash. *)
Lemma normalize_below (r k : jsstring) (c : ascii) :
  let pre := ("/")%char :: c :: r in
  normalize (pre ++ ("/")%char :: k) = pre ∨ ∃ k', normalize (pre ++ ("/")%char :: k) = pre ++ ("/")%char :: k'.
Proof.
  cbv zeta. unfold normalize. cbn [app str_or truthy]. cbv zeta.
  change (startsWith (("/")%char :: c :: r ++ ("/")%char :: k) "/") with true. cbv iota.
  match goal with |- context [if ?b then _ else _] => destruct b end; [|right; by exists k].
  cbn [length]. rewrite length_app. cbn [length].
  replace (S (S (length r + S (length k))) - 1) with (S (S (length r + length k))) by lia.
  cbn [take]. destruct k as [|x k].
  - left. do 2 f_equal. rewrite Nat.add_0_r. apply take_app_length.
  - right. exists (take (length k) (x :: k)). do 2 f_equal. cbn [length].
    rewrite take_app_add'. { done. } { done. }
Qed.

(** Old addresses of documents lead to their present pages. The canonical form of the address a
    document had under [/docs/] is the address the site links to now, for every document but the bare
    [api]; canonical addresses are stable; and the address of every document of the API
    lies in the API section, that of every other one in the documentation section. *)
Theorem old_bookmarks :
  (∀ slug, slug ≠ js "api" → canonical_path (js "/docs/" ++ slug) = docURL slug) ∧
  (∀ p, canonical_path (canonical_path p) = canonical_path p) ∧
  (∀ slug, slug ≠ [] → sectionKey (docURL slug) = if startsWith slug "api/" then js "api" else js "docs").
Proof.
  split_and!.
  - intros slug Hs. unfold docURL. destruct (startsWith slug "api/") eqn:E.
    + apply startsWith_spec in E as [k ->]. reflexivity.
    + unfold canonical_path.
      change (startsWith (js "/docs/" ++ slug) "/docs/api") with (startsWith slug "api").
      destruct (startsWith slug "api") eqn:E2; [|done].
      apply startsWith_spec in E2 as [k ->]. change (drop 9 (js "/docs/" ++ js "api" ++ k)) with k.
      destruct k as [|c k]; [done|]. destruct (ascii_eqb_spec c "/") as [->|]; [done|done].
  - intros p. destruct (startsWith p "/docs/api") eqn:E.
    + unfold canonical_path at 2 3. rewrite E. destruct (drop 9 p) as [|c r] eqn:Ed; [reflexivity|].
      destruct (ascii_eqb c "/") eqn:Ec; [reflexivity|]. unfold canonical_path. by rewrite E, Ed, Ec.
    + by rewrite !(canonical_path_other p).
  - intros slug Hs. unfold docURL. destruct (startsWith slug "api/") eqn:E.
    + apply startsWith_spec in E as [k ->]. unfold sectionKey. cbv zeta.
      change (js "/" ++ js "api/" ++ k) with (js "/api" ++ ("/")%char :: k).
      destruct (normalize_below (js "pi") k "a") as [H|[k' H]].
      * change (("/")%char :: ("a")%char :: js "pi") with (js "/api") in H. rewrite H. reflexivity.
      * change (("/")%char :: ("a")%char :: js "pi") with (js "/api") in H. rewrite H. reflexivity.
    + unfold sectionKey. cbv zeta.
      change (js "/docs/" ++ slug) with (js "/docs" ++ ("/")%char :: slug).
      destruct (normalize_below (js "ocs") slug "d") as [H|[k' H]].
      * change (("/")%char :: ("d")%char :: js "ocs") with (js "/docs") in H. rewrite H. reflexivity.
      * change (("/")%char :: ("d")%char :: js "ocs") with (js "/docs") in H. rewrite H.
        change (startsWith (js "/docs" ++ ("/")%char :: k') "/docs/") with true. by rewrite orb_true_r.
Qed.

(** ** Overlapping navigations *)

Definition demo_routes : list (route (Handler := nat)) :=
  [ {| rt_pattern := "/"; handler := 0 |}; {| rt_pattern := "/docs/*"; handler := 1 |} ].
Definition demo_page (children : bool) : page :=
  {| has_root := true; has_children := children; has_docs_layout := false |}.
Definition at_path (p : jsstring) : location := {| pathname := p; search := []; hash := [] |}.

Definition demo_events : list (event (Cleanup := nat)) :=
  [ Start; PageChanged (demo_page true); Navigate "/docs/a"; HandlerDone 0 (ReturnsCleanup 7);
    Navigate "/docs/api/b"; Waited 0; HandlerDone 0 ReturnsNothing; HandlerDone 0 Throws ].

Lemma router_shows_latest_witness :
  ∃ s, exec_all (λ _, None) at_path demo_events (initial (at_path "/") demo_routes (demo_page false)) = Some s ∧
    c_path <$> shown s = [js "/api/b"; js "/docs/a"; js "/"] ∧ cleaned s = [7] ∧
    (running s = [] →
       pendingRender s = false ∧ ((shown s = [] ∧ loc s = at_path "/") ∨ displays s)).
Proof.
  eexists. split; [vm_compute; reflexivity|]. split; [reflexivity|]. split; [reflexivity|].
  apply (router_shows_latest (λ _, None) at_path (at_path "/") demo_routes (demo_page false) demo_events).
  - reflexivity.
  - discriminate.
  - repeat (constructor; [exact I || reflexivity|]). constructor.
  - vm_compute; reflexivity.
Defined.
