(* ===== verification/Official.v ===== *)
(** * Official releases

    [web/js/lib/official.js]: the platform matrix, the choice of the package of a
    platform, the release metadata and the release lists built from it, and the
    contributors list. The answers of [fetch] are parameters. *)

From S2P Require Import Prelude JsText JsValue Uri.

Definition OFFICIAL_UPDATE_BASE : jsstring := "https://mvnc.pkg.one/update/renop".
Definition GITHUB_REPO : jsstring := "404Setup/SRC-RenoP".

(** ** Platforms *)

Record option_item := { value : jsstring; label : jsstring }.

Definition item (v l : string) : option_item := {| value := v; label := l |}.

Definition PLATFORMS_os : list option_item :=
  [ item "windows" "Windows"; item "darwin" "macOS"; item "linux" "Linux";
    item "freebsd" "FreeBSD"; item "netbsd" "NetBSD"; item "openbsd" "OpenBSD" ].

Definition PLATFORMS_arch : list option_item :=
  [ item "amd64" "amd64 (x86_64)"; item "arm64" "arm64 (aarch64)";
    item "loong64" "loong64"; item "riscv64" "riscv64" ].

Definition X64_VERSIONS : list option_item :=
  [ item "amd64" "v1"; item "amd64v2" "v2"; item "amd64v3" "v3"; item "amd64v4" "v4" ].

Definition PLATFORM_MATRIX : list (jsstring * list jsstring) :=
  [ (js "windows", [js "amd64"; js "arm64"]);
    (js "darwin", [js "amd64"; js "arm64"]);
    (js "linux", [js "amd64"; js "arm64"; js "loong64"; js "riscv64"]);
    (js "freebsd", [js "amd64"; js "arm64"]);
    (js "netbsd", [js "amd64"]);
    (js "openbsd", [js "amd64"; js "arm64"]) ].

Definition mem (x : jsstring) (l : list jsstring) : bool := existsb (eqs x) l.

(** [allowed?.length] is falsy for an absent row; the inherited members are functions
    with one or more parameters, or the prototype, whose [length] is 0, 1 or undefined:
    where it is positive, [new Set(allowed)] throws on a value that is not iterable. *)
Definition inherited_length_zero : list jsstring :=
  js <$> ["__proto__"; "toString"; "valueOf"; "toLocaleString"]%stdpp.

Definition getArchOptionsForOs (os : jsstring) : result jsstring (list option_item) :=
  match get PLATFORM_MATRIX os with
  | Own allowed =>
      match allowed with
      | [] => Ok []
      | _ => Ok (List.filter (λ a, mem (value a) allowed) PLATFORMS_arch)
      end
  | Inherited =>
      if mem os inherited_length_zero then Ok [] else Throw (js "TypeError: not iterable")
  | Missing => Ok []
  end.

Definition base_arch (arch : jsstring) : jsstring :=
  if startsWith arch "amd64" then js "amd64" else arch.

(** An inherited member has no [includes]: calling it throws. *)
Definition isPlatformSupported (os arch : jsstring) : result jsstring bool :=
  if negb (truthy os) || negb (truthy arch) then Ok false else
  match get PLATFORM_MATRIX os with
  | Own arches => Ok (mem (base_arch arch) arches)
  | Inherited => Throw (js "TypeError: includes is not a function")
  | Missing => Ok false
  end.

Record platform := { p_os : jsstring; p_arch : jsstring }.

Definition normalizePlatform (os arch : jsstring) : platform :=
  let validOs := if existsb (λ o, eqs (value o) os) PLATFORMS_os then os else "linux" in
  let linux := [js "amd64"; js "arm64"; js "loong64"; js "riscv64"] in
  let arches := match get PLATFORM_MATRIX validOs with Own l => l | _ => linux end in
  let validArch := if mem (base_arch arch) arches then arch
                   else str_or (default [] (head arches)) "amd64" in
  {| p_os := validOs; p_arch := validArch |}.

(** The browser's hints: [userAgent], [platform] and the client-hint architecture. *)
Record browser := { userAgent : jsstring; nav_platform : jsstring; ua_arch : jsstring }.

(** [/p/i.test(s)] for a literal pattern. *)
Definition tests_i (p : string) (s : jsstring) : bool := includes (toLowerCase s) (toLowerCase p).

Definition detectPlatform (b : browser) : platform :=
  let ua := userAgent b in let platform := nav_platform b in
  let os :=
    if tests_i "Win" platform || tests_i "Windows" ua then js "windows"
    else if tests_i "Mac" platform || tests_i "iPhone" platform || tests_i "iPad" platform
            || tests_i "Mac OS" ua then js "darwin"
    else if tests_i "FreeBSD" ua then js "freebsd"
    else if tests_i "NetBSD" ua then js "netbsd"
    else if tests_i "OpenBSD" ua then js "openbsd"
    else js "linux" in
  let uaArch := ua_arch b in
  let arch :=
    if tests_i "arm" uaArch || tests_i "aarch64" ua then js "arm64"
    else if tests_i "x86_64" uaArch || tests_i "x64" uaArch || tests_i "amd64" uaArch
            || tests_i "x86_64" ua || tests_i "Win64" ua || tests_i "WOW64" ua then js "amd64"
    else js "amd64" in
  normalizePlatform os arch.

(** ** URLs *)

Definition channel_segment (channel : jsstring) : jsstring :=
  if eqs channel "nightly" || eqs channel "preview" then "nightly" else "stable".

Definition channelInfoUrl (channel : jsstring) : jsstring :=
  OFFICIAL_UPDATE_BASE ++ "/" ++ channel_segment channel ++ "/info.json".

Definition packageDownloadUrl (channel version file : jsstring) (targetUrl : option jsstring)
    : jsstring :=
  match targetUrl with
  | Some (c :: url) => c :: url
  | _ => OFFICIAL_UPDATE_BASE ++ "/" ++ channel_segment channel ++ "/"
         ++ encodeURIComponent version ++ "/" ++ encodeURIComponent file
  end.

(** ** Release metadata *)

Record target := {
  t_os : jsstring; t_arch : jsstring; t_file : jsstring; t_sha256 : jsstring;
  t_size : num; t_uncompressedSize : num; t_format : jsstring; t_executable : jsstring;
  t_downloadUrl : jsstring;
}.

Record release := {
  version : jsstring; commit : jsstring; previousCommit : jsstring; channel : jsstring;
  development : bool; publishedAt : jsstring; changelog : jsstring; targets : list target;
}.

Section metadata.
(** [Number] of a string, and of an array or object through its string. *)
Context (number_of_string : jsstring → num).

Definition toNumber (v : jsval) : num :=
  match v with
  | JUndef => NaN
  | JNull => Int 0
  | JBool b => Int (if b then 1 else 0)
  | JNum n => n
  | JStr s => number_of_string s
  | JArr _ | JObj _ => number_of_string (toString v)
  end.

(** [String(t.k || '')] of a value that is an object. *)
Definition text_field (t : jsval) (k : string) : jsstring :=
  toString (val_or (field_opt t k) (JStr [])).

Definition text_field2 (t : jsval) (k k' : string) : jsstring :=
  toString (val_or (field_opt t k) (val_or (field_opt t k') (JStr []))).

(** Reading a field of [null] or [undefined] throws. *)
Definition parseTarget (t : jsval) : result jsstring target :=
  match t with
  | JUndef | JNull => Throw (js "TypeError")
  | _ => Ok {|
      t_os := text_field t "os"; t_arch := text_field t "arch"; t_file := text_field t "file";
      t_sha256 := text_field t "sha256";
      t_size := num_or (toNumber (field_opt t "size")) (Int 0);
      t_uncompressedSize :=
        num_or (toNumber (val_or (field_opt t "uncompressed_size") (field_opt t "uncompressedSize")))
          (Int 0);
      t_format := text_field t "format"; t_executable := text_field t "executable";
      t_downloadUrl := text_field2 t "download_url" "downloadUrl" |}
  end.

(** [Array.prototype.map] of a callback that may throw. *)
Fixpoint map_throwing {A B} (f : A → result jsstring B) (l : list A) : result jsstring (list B) :=
  match l with
  | [] => Ok []
  | x :: l => let! y := f x in let! ys := map_throwing f l in Ok (y :: ys)
  end.

Definition parseReleaseItem (channelDefault : jsstring) (r : jsval) : result jsstring release :=
  match r with
  | JUndef | JNull => Throw (js "TypeError")
  | _ =>
    let! ts := match field_opt r "targets" with
               | JArr l => map_throwing parseTarget l
               | _ => Ok []
               end in
    Ok {| version := text_field r "version"; commit := text_field r "commit";
          previousCommit := text_field2 r "previous_commit" "previousCommit";
          channel := toString (val_or (field_opt r "channel") (JStr channelDefault));
          development := truthy_val (field_opt r "development");
          publishedAt := text_field2 r "published_at" "publishedAt";
          changelog := text_field r "changelog"; targets := ts |}
  end.

(** An HTTP answer: its status and the value its body parses to. *)
Record json_response := { r_status : Z; r_json : result jsstring jsval }.

Definition http_ok (s : Z) : bool := (200 <=? s)%Z && (s <? 300)%Z.

(** The first release, whose fields are copied to the top, and all releases. *)
Record channel_info := { first : release; releases : list release }.

Definition fetchChannelInfo (channel : jsstring) (res : result jsstring json_response)
    : result jsstring channel_info :=
  let! r := res in
  if negb (http_ok (r_status r))
  then Throw ("Official update source HTTP " ++ str_of_Z (r_status r))
  else
    let! data := r_json r in
    match field_opt data "releases" with
    | JArr (x :: l) =>
        let! rs := map_throwing (parseReleaseItem channel) (x :: l) in
        match rs with
        | [] => Throw (js "TypeError")
        | f :: _ => Ok {| first := f; releases := rs |}
        end
    | _ => Throw (js "Invalid channel info.json")
    end.
End metadata.

(** ** The package of a platform *)

Definition level_arch (l : nat) : jsstring :=
  if (l =? 1)%nat then "amd64" else "amd64v" ++ str_of_nat l.

(** The test of the first pass at level [l]. *)
Definition exact_level (o : jsstring) (l : nat) (t : target) : bool :=
  eqs (toLowerCase (t_os t)) o &&
  (let a := toLowerCase (t_arch t) in
   if (l =? 1)%nat then eqs a "amd64" || eqs a "amd64v1" else eqs a (level_arch l)).

(** The test of the second pass at level [l], by file name. *)
Definition file_level (o : jsstring) (l : nat) (t : target) : bool :=
  eqs (toLowerCase (t_os t)) o &&
  (let file := toLowerCase (t_file t) in
   if (l =? 1)%nat
   then includes file (o ++ "-amd64v1") ||
        (includes file (o ++ "-amd64") && negb (includes file "amd64v2") &&
         negb (includes file "amd64v3") && negb (includes file "amd64v4"))
   else includes file (o ++ "-" ++ level_arch l)).

(** [for (let l = level; l >= 1; l--)] *)
Fixpoint search_levels (targets : list target) (o : jsstring) (l : nat) : option target :=
  match l with
  | O => None
  | S l' =>
      match List.find (exact_level o l) targets with
      | Some t => Some t
      | None =>
          match List.find (file_level o l) targets with
          | Some t => Some t
          | None => search_levels targets o l'
          end
      end
  end.

Definition requested_level (a : jsstring) : nat :=
  if eqs a "amd64v4" then 4 else if eqs a "amd64v3" then 3 else if eqs a "amd64v2" then 2 else 1.

Definition exact_platform (o a : jsstring) (t : target) : bool :=
  eqs (toLowerCase (t_os t)) o && eqs (toLowerCase (t_arch t)) a.

Definition marker_in_file (o a : jsstring) (t : target) : bool :=
  includes (toLowerCase (t_file t)) (o ++ "-" ++ a).

Definition findTargetForPlatform (targets : option (list target)) (os arch : jsstring)
    : option target :=
  match targets with
  | None | Some [] => None
  | Some ts =>
      if negb (truthy os) || negb (truthy arch) then None else
      let o := toLowerCase os in let a := toLowerCase arch in
      if startsWith a "amd64" then search_levels ts o (requested_level a)
      else match List.find (exact_platform o a) ts with
           | Some t => Some t
           | None => List.find (marker_in_file o a) ts
           end
  end.

(** ** Commits *)

Definition newline : ascii := chr 10.

Definition commitSubject (message : option jsstring) : jsstring :=
  trim (default [] (head (split newline (trim (default [] message))))).

Definition isWebOnlyCommit (subject : option jsstring) : bool :=
  startsWith (toLowerCase (commitSubject subject)) "[web]".

(** ** Release lists *)

Record stable_release := {
  s_id : jsstring; s_tag : jsstring; s_name : jsstring; s_body : jsstring;
  s_publishedAt : jsstring; s_commitSha : jsstring; s_targets : list target;
}.

Definition with_downloadUrl (t : target) (url : jsstring) : target :=
  {| t_os := t_os t; t_arch := t_arch t; t_file := t_file t; t_sha256 := t_sha256 t;
     t_size := t_size t; t_uncompressedSize := t_uncompressedSize t; t_format := t_format t;
     t_executable := t_executable t; t_downloadUrl := url |}.

Definition release_tag (ver : jsstring) : jsstring :=
  if startsWith ver "v" then ver else "v" ++ ver.

(** The two newest releases are served by the official host, older ones by GitHub. *)
Definition stable_target (index : nat) (ver : jsstring) (t : target) : target :=
  let downloadUrl :=
    if truthy (t_downloadUrl t) then t_downloadUrl t
    else if (index <=? 1)%nat then packageDownloadUrl "stable" ver (t_file t) None
    else "https://github.com/" ++ GITHUB_REPO ++ "/releases/download/"
         ++ encodeURIComponent (release_tag ver) ++ "/" ++ encodeURIComponent (t_file t) in
  with_downloadUrl t downloadUrl.

Definition stable_item (index : nat) (rel : release) : stable_release :=
  let ver := version rel in
  {| s_id := ver; s_tag := release_tag ver; s_name := ver; s_body := changelog rel;
     s_publishedAt := publishedAt rel; s_commitSha := commit rel;
     s_targets := stable_target index ver <$> targets rel |}.

Definition fetchStableReleases (number_of_string : jsstring → num)
    (res : result jsstring json_response) : result jsstring (list stable_release) :=
  let! info := fetchChannelInfo number_of_string "stable" res in
  Ok (imap stable_item (releases info)).

(** [list[0]] *)
Definition fetchStableRelease number_of_string res : result jsstring (option stable_release) :=
  let! list := fetchStableReleases number_of_string res in Ok (head list).

Record preview_release := {
  pv_id : jsstring; pv_tag : jsstring; pv_name : jsstring; pv_body : jsstring;
  pv_publishedAt : jsstring; pv_commitSha : jsstring; pv_version : jsstring;
  pv_targets : list target; pv_isLatest : bool;
}.

Definition preview_item (index : nat) (rel : release) : preview_release :=
  let short := str_or (take 7 (str_or (commit rel) (version rel))) (version rel) in
  let name := if startsWith (version rel) "nightly-" then version rel else "nightly-" ++ short in
  {| pv_id := version rel; pv_tag := name; pv_name := name; pv_body := changelog rel;
     pv_publishedAt := publishedAt rel; pv_commitSha := commit rel; pv_version := version rel;
     pv_targets := targets rel; pv_isLatest := (index =? 0)%nat |}.

Definition fetchPreviewReleases (number_of_string : jsstring → num)
    (res : result jsstring json_response) : result jsstring (list preview_release) :=
  let! info := fetchChannelInfo number_of_string "nightly" res in
  Ok (imap preview_item (take 100 (releases info))).

Definition fetchPreviewInfo number_of_string res : result jsstring (option preview_release) :=
  let! list := fetchPreviewReleases number_of_string res in Ok (head list).

(** ** Contributors *)

Record contributor := {
  c_id : jsval; c_login : jsval; c_avatarUrl : jsval; c_htmlUrl : jsval; c_contributions : jsval;
}.

Definition is_bot (c : jsval) : bool :=
  match field_opt c "type" with JStr s => eqs s "Bot" | _ => false end.

Definition contributors_of (batch : list jsval) : list contributor :=
  (λ c, {| c_id := field_opt c "id"; c_login := field_opt c "login";
           c_avatarUrl := field_opt c "avatar_url"; c_htmlUrl := field_opt c "html_url";
           c_contributions := val_or (field_opt c "contributions") (JNum (Int 0)) |})
  <$> List.filter (λ c, truthy_val c && negb (is_bot c)) batch.

(** [page_at page] is the answer for that page; [pages] are the pages left to ask for. *)
Fixpoint contributors_loop (page_at : nat → result jsstring json_response) (perPage : nat)
    (page pages : nat) (all : list contributor) : result jsstring (list contributor) :=
  match pages with
  | O => Ok all
  | S pages =>
      let! res := page_at page in
      if negb (http_ok (r_status res))
      then Throw ("GitHub contributors HTTP " ++ str_of_Z (r_status res))
      else
        let! batch := r_json res in
        match batch with
        | JArr (x :: l) =>
            let all := all ++ contributors_of (x :: l) in
            if (length (x :: l) <? perPage)%nat then Ok all
            else contributors_loop page_at perPage (S page) pages all
        | _ => Ok all
        end
  end.

Definition fetchContributors (page_at : nat → result jsstring json_response)
    (perPage maxPages : nat) : result jsstring (list contributor) :=
  contributors_loop page_at perPage 1 maxPages [].

(** ** Lemmas *)

Definition matches (o : jsstring) (l : nat) (t : target) : bool :=
  exact_level o l t || file_level o l t.

(** What the search over the levels [n], ..., 1 answers. *)
Definition best_match (ts : list target) (o : jsstring) (n : nat) (r : option target) : Prop :=
  match r with
  | Some t => ∃ l, 1 ≤ l ≤ n ∧ t ∈ ts ∧ matches o l t = true ∧
      (∀ l' t', l < l' ≤ n → t' ∈ ts → matches o l' t' = false) ∧
      (exact_level o l t = false → ∀ t', t' ∈ ts → exact_level o l t' = false)
  | None => ∀ l t, 1 ≤ l ≤ n → t ∈ ts → matches o l t = false
  end.

Lemma search_levels_best ts o n : best_match ts o n (search_levels ts o n).
Proof.
  induction n as [|n IH]; cbn [search_levels]; [intros l t ?; lia|].
  destruct (List.find (exact_level o (S n)) ts) as [t|] eqn:E1.
  { apply find_elem in E1 as [Hin E1]. exists (S n). unfold matches. rewrite E1.
    split_and!; [lia | lia | done | done | lia | done]. }
  pose proof (proj1 (find_none_all _ _) E1) as E1'.
  destruct (List.find (file_level o (S n)) ts) as [t|] eqn:E2.
  { apply find_elem in E2 as [Hin E2]. exists (S n). unfold matches. rewrite E2, orb_true_r.
    split_and!; [lia | lia | done | done | lia | intros _; apply E1']. }
  pose proof (proj1 (find_none_all _ _) E2) as E2'.
  assert (Hn : ∀ t', t' ∈ ts → matches o (S n) t' = false).
  { intros t' Ht'. unfold matches. by rewrite E1', E2'. }
  destruct (search_levels ts o n) as [t|].
  - destruct IH as (l & Hl & Hin & Hm & Hup & Hex). exists l.
    split_and!; [lia | lia | done | done | | done].
    intros l' t' Hl' Ht'. destruct (decide (l' = S n)) as [->|]; [by apply Hn | apply Hup; [lia|done]].
  - intros l t Hl Ht. destruct (decide (l = S n)) as [->|]; [by apply Hn | apply IH; [lia|done]].
Qed.

Lemma matches_os o l t : matches o l t = true → toLowerCase (t_os t) = o.
Proof. unfold matches, exact_level, file_level. intros H. bool_prop. destruct H; bool_prop; by apply eqs_true. Qed.

Lemma mem_elem x l : mem x l = true ↔ x ∈ l.
Proof.
  unfold mem. rewrite existsb_elem. split.
  - intros (y & Hy & E). by apply eqs_true in E as ->.
  - intros H. exists x. by rewrite eqs_refl.
Qed.

(** The systems of the menu are the rows of the matrix, each with an architecture. *)
Lemma platform_row os :
  existsb (λ o, eqs (value o) os) PLATFORMS_os = true →
  ∃ a l, get PLATFORM_MATRIX os = Own (a :: l) ∧ mem (base_arch a) (a :: l) = true ∧
    truthy a = true ∧ truthy os = true.
Proof.
  rewrite existsb_elem. intros (o & Ho & E). apply eqs_true in E as <-.
  repeat (apply elem_of_cons in Ho as [->|Ho];
    [eexists _, _; split_and!; [vm_compute; reflexivity | vm_compute; reflexivity..] |]).
  by apply elem_of_nil in Ho.
Qed.

(** The rows of the matrix name systems of the menu and no empty architecture. *)
Lemma matrix_rows o l :
  (o, l) ∈ PLATFORM_MATRIX →
  existsb (λ x, eqs (value x) o) PLATFORMS_os = true ∧ mem (base_arch []) l ≠ true.
Proof.
  intros H. assert (Hall : forallb (λ '(o, l), existsb (λ x, eqs (value x) o) PLATFORMS_os
    && negb (mem (base_arch []) l)) PLATFORM_MATRIX = true) by (vm_compute; reflexivity).
  rewrite forallb_elem in Hall. specialize (Hall _ H). cbv beta iota in Hall. bool_prop.
  split; [done | congruence].
Qed.

(** ** Properties *)

(** The package chosen for an amd64 platform is the best the release offers:
    it targets the requested system; it matches (by architecture or file name) some
    microarchitecture level not above the requested one; no listed package matches a
    higher admissible level; within a level a match by architecture wins over one by
    file name; and [null] is answered only when no package matches any level. *)
Theorem findTarget_amd64_best ts os arch :
  ts ≠ [] → truthy os = true → startsWith (toLowerCase arch) "amd64" = true →
  best_match ts (toLowerCase os) (requested_level (toLowerCase arch))
    (findTargetForPlatform (Some ts) os arch) ∧
  (∀ t, findTargetForPlatform (Some ts) os arch = Some t → toLowerCase (t_os t) = toLowerCase os).
Proof.
  intros Hts Hos Ha. unfold findTargetForPlatform.
  destruct ts as [|t0 ts]; [done|]. rewrite Hos.
  assert (truthy arch = true) as -> by (destruct arch; done). rewrite Ha; cbv [negb orb].
  pose proof (search_levels_best (t0 :: ts) (toLowerCase os) (requested_level (toLowerCase arch))) as H.
  split; [done|]. intros t Ht. rewrite Ht in H. destruct H as (l & _ & _ & Hm & _).
  by apply matches_os in Hm.
Qed.

Definition demo_target (o a f : string) : target :=
  {| t_os := o; t_arch := a; t_file := f; t_sha256 := []; t_size := Int 1;
     t_uncompressedSize := Int 2; t_format := []; t_executable := []; t_downloadUrl := [] |}.

Lemma findTarget_amd64_best_witness :
  let ts := [demo_target "linux" "amd64" "renop-linux-amd64.br";
             demo_target "linux" "amd64v4" "renop-linux-amd64v4.br";
             demo_target "linux" "amd64v2" "renop-linux-amd64v2.br"] in
  best_match ts "linux" 3 (findTargetForPlatform (Some ts) "Linux" "amd64v3") ∧
  findTargetForPlatform (Some ts) "Linux" "amd64v3" =
    Some (demo_target "linux" "amd64v2" "renop-linux-amd64v2.br").
Proof.
  split; [|vm_compute; reflexivity].
  refine (proj1 (findTarget_amd64_best _ (js "Linux") (js "amd64v3") _ _ _));
    [discriminate | reflexivity | reflexivity].
Defined.

(** Normalizing a platform always yields a supported one, keeps the supported
    platforms of the menu unchanged, and is idempotent. *)
Theorem normalizePlatform_supported os arch :
  let p := normalizePlatform os arch in
  isPlatformSupported (p_os p) (p_arch p) = Ok true ∧
  (isPlatformSupported os arch = Ok true → p = {| p_os := os; p_arch := arch |}) ∧
  normalizePlatform (p_os p) (p_arch p) = p.
Proof.
  assert (Hk : ∀ o a, existsb (λ x, eqs (value x) o) PLATFORMS_os = true →
    isPlatformSupported o a = Ok true →
    normalizePlatform o a = {| p_os := o; p_arch := a |}).
  { intros o a Ho. unfold isPlatformSupported, normalizePlatform. rewrite Ho.
    destruct (negb (truthy o) || negb (truthy a)); [done|].
    destruct (get PLATFORM_MATRIX o); [|done..]. intros [= ->]. done. }
  assert (Hs : ∀ o a, isPlatformSupported o a = Ok true →
    existsb (λ x, eqs (value x) o) PLATFORMS_os = true).
  { intros o a. unfold isPlatformSupported. destruct (_ || _); [done|].
    destruct (get PLATFORM_MATRIX o) as [l| |] eqn:E; [|done..]. intros _.
    apply get_Own in E. by destruct (matrix_rows _ _ E). }
  set (p := normalizePlatform os arch). cbv zeta.
  assert (Hp : isPlatformSupported (p_os p) (p_arch p) = Ok true).
  { unfold p, normalizePlatform. cbv zeta; cbn [p_os p_arch].
    set (vo := if existsb (λ o, eqs (value o) os) PLATFORMS_os then os else js "linux").
    assert (Hos : existsb (λ x, eqs (value x) vo) PLATFORMS_os = true).
    { unfold vo. destruct (existsb (λ o, eqs (value o) os) PLATFORMS_os) eqn:E;
        [exact E | vm_compute; reflexivity]. }
    destruct (platform_row _ Hos) as (a & l & Hg & Hm & Ha & Ho). unfold isPlatformSupported.
    rewrite Hg, Ho. cbn [default head].
    destruct (mem (base_arch arch) (a :: l)) eqn:E.
    - assert (truthy arch = true) as ->; [|cbv [negb orb]; by rewrite E].
      apply get_Own in Hg. destruct (matrix_rows _ _ Hg) as [_ Hr]. by destruct arch.
    - unfold id, str_or. rewrite Ha.
      cbv [negb orb]. by rewrite Ha, Hm. }
  split_and!; [done | intros H; apply Hk; eauto |].
  destruct p as [o a]. apply Hk; eauto.
Qed.

Lemma packageDownloadUrl_nonempty ch v f u : packageDownloadUrl ch v f u ≠ [].
Proof. unfold packageDownloadUrl. destruct u as [[|c u]|]; discriminate. Qed.

Lemma stable_target_url i ver t : t_downloadUrl (stable_target i ver t) ≠ [].
Proof.
  unfold stable_target, with_downloadUrl; cbn [t_downloadUrl].
  destruct (truthy (t_downloadUrl t)) eqn:E; [by apply truthy_true|].
  destruct (i <=? 1); [apply packageDownloadUrl_nonempty | discriminate].
Qed.

Lemma fetchChannelInfo_first n2s ch res info :
  fetchChannelInfo n2s ch res = Ok info → head (releases info) = Some (first info).
Proof.
  unfold fetchChannelInfo. intros (r & _ & H)%result_bind_Ok.
  destruct (negb _); [done|]. apply result_bind_Ok in H as (d & _ & H).
  destruct (field_opt d "releases") as [| | | | |[|x l]|]; try done.
  apply result_bind_Ok in H as (rs & _ & H). destruct rs; [done|]. by simplify_eq.
Qed.

(** A successful load of the stable releases gives at least one release, one per
    entry of the channel metadata and in its order, and every package of every
    release has a download address: the published one when there is one. *)
Theorem stableReleases_downloadable n2s res l :
  fetchStableReleases n2s res = Ok l →
  l ≠ [] ∧
  (∃ info, fetchChannelInfo n2s "stable" res = Ok info ∧ s_id <$> l = version <$> releases info) ∧
  (∀ r t, r ∈ l → t ∈ s_targets r → t_downloadUrl t ≠ []) ∧
  (∀ i ver t, truthy (t_downloadUrl t) = true → stable_target i ver t = t).
Proof.
  unfold fetchStableReleases. intros H. apply result_bind_Ok in H as (info & Hi & [= <-]).
  pose proof (fetchChannelInfo_first _ _ _ _ Hi) as Hf. split_and!.
  - destruct (releases info); [done|]. by rewrite imap_cons.
  - exists info. split; [done|]. apply list_eq. intros i.
    rewrite !list_lookup_fmap, list_lookup_imap. by destruct (releases info !! i).
  - intros r t Hr Ht. apply list_elem_of_lookup in Hr as [i Hr].
    rewrite list_lookup_imap in Hr. apply fmap_Some in Hr as (rel & _ & ->).
    simpl in Ht. apply list_elem_of_fmap in Ht as (t' & -> & _). apply stable_target_url.
  - intros i ver t Ht. unfold stable_target, with_downloadUrl. rewrite Ht. by destruct t.
Qed.

Definition demo_info : jsval :=
  JObj [(js "releases", JArr [JObj [(js "version", JStr "1.2.0");
    (js "targets", JArr [JObj [(js "os", JStr "linux"); (js "file", JStr "a b.br")]])]])].

Lemma stableReleases_downloadable_witness :
  ∃ l, fetchStableReleases (λ _, NaN) (Ok {| r_status := 200; r_json := Ok demo_info |}) = Ok l ∧
  l ≠ [].
Proof.
  eexists. split; [vm_compute; reflexivity|].
  refine (proj1 (stableReleases_downloadable (λ _, NaN)
    (Ok {| r_status := 200; r_json := Ok demo_info |}) _ _)). vm_compute; reflexivity.
Defined.

Lemma contributors_of_app a b : contributors_of (a ++ b) = contributors_of a ++ contributors_of b.
Proof. unfold contributors_of. by rewrite List.filter_app, fmap_app. Qed.

Definition answers (batch : list jsval) : result jsstring json_response :=
  Ok {| r_status := 200; r_json := Ok (JArr batch) |}.

Lemma contributors_loop_pages page_at perPage batches last page pages all :
  (∀ i b, batches !! i = Some b → page_at (page + i) = answers b ∧ perPage ≤ length b ∧ b ≠ []) →
  page_at (page + length batches) = answers last → length last < perPage →
  length batches < pages →
  contributors_loop page_at perPage page pages all =
  Ok (all ++ contributors_of (mjoin batches ++ last)).
Proof.
  revert page pages all. induction batches as [|b batches IH]; intros page pages all Hb Hlast Hl Hp.
  - destruct pages as [|pages]; [simpl in Hp; lia|]. cbn [contributors_loop].
    rewrite Nat.add_0_r in Hlast. rewrite Hlast. apply Nat.ltb_lt in Hl.
    unfold answers; cbn [result_bind r_status r_json]. change (negb (http_ok 200)) with false.
    cbv iota. destruct last as [|x last]; [simpl; by rewrite app_nil_r | by rewrite Hl].
  - destruct pages as [|pages]; [simpl in Hp; lia|]. cbn [contributors_loop].
    destruct (Hb 0 b eq_refl) as (Hpage & Hlen & Hne). rewrite Nat.add_0_r in Hpage. rewrite Hpage.
    apply Nat.ltb_ge in Hlen. unfold answers; cbn [result_bind r_status r_json].
    change (negb (http_ok 200)) with false. cbv iota. destruct b as [|x b]; [done|].
    rewrite Hlen, IH.
    + f_equal. rewrite <- app_assoc, <- contributors_of_app. simpl. by rewrite app_assoc.
    + intros i b' Hi. rewrite Nat.add_succ_comm. by apply (Hb (S i)).
    + rewrite <- Hlast. f_equal. simpl. lia.
    + done.
    + simpl in Hp. lia.
Qed.

(** The contributors of a repository are read page by page until a short page:
    all entries of all pages are returned in order except the bots, none is lost at
    a page boundary, provided the short page is within the page limit. *)
Theorem fetchContributors_all page_at perPage maxPages batches last :
  (∀ i b, batches !! i = Some b → page_at (S i) = answers b ∧ perPage ≤ length b ∧ b ≠ []) →
  page_at (S (length batches)) = answers last → length last < perPage →
  length batches < maxPages →
  fetchContributors page_at perPage maxPages = Ok (contributors_of (mjoin batches ++ last)).
Proof. intros. unfold fetchContributors. by rewrite (contributors_loop_pages _ _ batches last). Qed.

Lemma fetchContributors_all_witness :
  let alice := JObj [(js "login", JStr "alice")] in
  let bot := JObj [(js "login", JStr "ci"); (js "type", JStr "Bot")] in
  fetchContributors (λ p, if (p =? 1)%nat then answers [bot; alice] else answers [bot]) 2 10 =
  Ok (contributors_of [bot; alice; bot]).
Proof.
  refine (fetchContributors_all _ 2 10 [[_; _]] [_] _ _ _ _); [|reflexivity | simpl; lia | simpl; lia].
  intros [|i] b H; [injection H as <- | discriminate]. split_and!; [reflexivity | simpl; lia | discriminate].
Defined.
